(* ===== verification/_CoqProject ===== *)
-Q . S2P
Prelude.v
RustStd.v
RustPath.v
AppErrors.v
Http.v
RequestGrantCapability.v
GrantReplay.v
GrantToken.v
GrantTargets.v
CreateDirectoryGrant.v
OpaqueGrant.v
WriteFileGrant.v
CopyFileGrant.v
TrashFileGrant.v
AndroidVolumeGrant.v
GrantFamilies.v
McpSession.v
Auth.v
RequestLimits.v
JsonRpc.v
CapabilityToken.v
AuditEvents.v
WritePolicy.v
NetAddr.v
TransportSecurity.v
HostPolicy.v
BoundedProcess.v
AndroidVolumeControl.v
CommandPolicy.v
CommandExecution.v
Base64.v
FsCalls.v
SafeRoots.v
Config.v
Quarantine.v
FsPrepare.v
FsReads.v
FsTraverse.v
FsMutations.v
FsTools.v
FsLogic.v
FsGate.v
FsExample.v
Configured.v
FsReading.v
FsBounds.v
FsSearch.v
FsConfine.v
FsConfinement.v
FsReadOnly.v
Anchoring.v
FsCreateSafety.v
FsCopySafety.v
FsTrashSafety.v
FsWriteSafety.v
MutationWorkers.v
WorkersSafety.v
McpWire.v
RoutingName.v
McpResponses.v
McpArguments.v
AndroidBattery.v
McpCalls.v
StatusTools.v
McpReadTools.v
McpDeviceTools.v
McpMutations.v
McpDiscovery.v
McpTransport.v
McpLogic.v
McpEndpoint.v
McpExample.v
TransportSafety.v
McpAnswers.v
DiscoverySafety.v
Trees.v
RishBackend.v
RishSafety.v
Router.v
Startup.v
