(* ===== verification/Prelude.v ===== *)
(** * Termux MCP Edge: a verification library for the Rust server under [src/src]

    The program is an MCP server: an HTTP listener whose requests pass a chain of
    middleware ([auth.rs], [request_limits.rs]), carry JSON-RPC envelopes
    ([json_rpc.rs]) in expiring sessions ([mcp_session.rs]) or statelessly, and
    reach tools ([mcp_transport.rs]).  The filesystem tools
    ([tools/filesystem.rs]) work below configured safe roots; one that changes
    something needs a signed single-use request grant (the five [*_grant.rs]
    modules over [grant_replay.rs]).  Tools that touch the device run fixed
    programs as bounded child processes ([bounded_process.rs],
    [android_battery.rs], [android_volume_control.rs], [command_execution.rs]);
    every decision is an audit event ([audit.rs]).

    ** How the files correspond to the source

    Foundations.
    - [Prelude]: results and their monad, bytes, machine integers, big-endian
      encodings, the mutex, list and string helpers, the tactics, and the hint
      database [widths].  A [u8] is a [byte]; [&[u8]] and [&str] are lists of
      bytes; unsigned integers are [N] with their bound as a predicate, [i64] is
      a [Z]; wrap-around, saturation and checked operations are written out.
    - [RustStd], [RustPath], [NetAddr]: what is used of the standard library
      (ASCII case, integers as text, UTF-8 validation; paths and their
      components; the parser and printer of addresses).
    - [AppErrors] (error.rs), [Http]: errors; headers, responses, JSON values.

    Request grants.
    - [RequestGrantCapability] (request_grant_capability.rs): wire codes; the
      interface [Crypto].
    - [GrantReplay] (grant_replay.rs): [ReplayState] is the guarded state of one
      namespace, [ReplayWorld] the process: the heap of shared states, addressed
      by handles so that clones alias, and the registry.  [GrantReplay.consume] is
      [ReplayState::consume]; [world_step] interleaves resolutions, consumptions
      and poisonings.
    - [GrantToken]: the token layer the five modules repeat (format, signature,
      authority construction, window check), written against the interface
      [GrantFamily]; every family discharges [GrantFamilyLaws].
    - [GrantTargets] (path digests and file identities), [OpaqueGrant]: the parts
      shared by several families; [CreateDirectoryGrant], [WriteFileGrant], [CopyFileGrant],
      [TrashFileGrant], [AndroidVolumeGrant]: one module of the source each, its
      target, payload or binding message, [issue_at] and [consume_at].
    - [GrantFamilies]: the five families side by side.

    The transport's guards.
    - [McpSession] (mcp_session.rs): the whole store as a state, [exec] running
      one public call at one time.
    - [Auth] (auth.rs), [RequestLimits] (request_limits.rs), [JsonRpc]
      (json_rpc.rs): the middleware and the envelope validation.  The semaphore
      of the limits is the interface [Semaphore]; [service_step] interleaves the
      arrival and the end of requests.
    - [TransportSecurity] (transport_security.rs): normal forms and the decision
      on Host and Origin; [HostPolicy] has its theorems.

    Processes and policies.
    - [BoundedProcess] (bounded_process.rs, android_provider.rs): construction,
      the bounded reader, the biased [select!] loop, cleanup.  Its clients use the
      interface [ProcessRunner], which [observed_runner] discharges.
    - [AndroidVolumeControl] (android_volume.rs, android_volume_control.rs):
      status parsing, preview, the one-permit lane, set with rollback.
    - [AndroidBattery] (android_battery.rs) and [StatusTools] (android_status.rs,
      service_status.rs, platform_info.rs): what the status tools report.
    - [CommandPolicy] (command_policy.rs) and [CommandExecution]
      (command_execution.rs): the allow-list, the pinned client, one run.
    - [CapabilityToken], [AuditEvents], [WritePolicy]: the files of those names.

    Filesystem tools (tools/filesystem.rs, tools/mod.rs).
    - [FsCalls]: a tool is a [prog], the tree of its system calls; [exec] runs it
      against arbitrary answers, [run] against a given kernel, and [safe] is the
      logic of which call may follow which history.
    - [SafeRoots]: labels, pins and [anchor]; [Quarantine]: the private recovery
      directories and their lock; [FsPrepare]: preparation of the four mutations;
      [FsMutations]: their [execute_authorized_with_commit]; [FsReads],
      [Base64]: the readers; [FsTraverse]: listing, discovery and search;
      [FsTools]: the public entry points.
    - [FsLogic], [FsGate], [FsConfine] carry the proofs; [Anchoring],
      [FsReading], [FsBounds], [FsSearch], [FsConfinement], [FsReadOnly],
      [FsCreateSafety], [FsCopySafety], [FsTrashSafety], [FsWriteSafety] have the
      theorems; [FsExample] is a small kernel for the witnesses.

    Configuration (config.rs): [Config] reads and validates the variables of the
    environment or of the literal runtime file; [Configured] has its theorems.

    The endpoint (mcp_transport.rs).
    - [MutationWorkers]: the blocking workers, the commit guard, the callback
      that consumes a grant and the audit guards; [WorkersSafety] composes them
      with the prepared mutations and the grant authorities.
    - [McpWire], [McpArguments], [McpResponses], [McpLabels] (in [McpCalls]): headers
      and routing names, argument structs, response builders, labels.
    - [McpCalls]: a handler is the tree of what it asks of the process (the clock,
      audit counters, session store, filesystem, workers, providers); [served]
      runs it against arbitrary answers, [serve] against a given process.
    - [McpReadTools], [McpDeviceTools], [McpMutations], [McpDiscovery]: one
      definition per tool handler, and the catalogue of [tools/list];
      [McpTransport]: the dispatch, both protocols and [handle_mcp_request].
    - [McpLogic] (with [McpToolSpecs]), [McpEndpoint] specify the handlers one by one and
      compose the specifications up to [request_spec]; [TransportSafety],
      [McpAnswers], [DiscoverySafety], [RoutingName] have the theorems;
      [McpExample] (with [JsonCodec]) has the instances the witnesses run on.
    - [Router]: [McpRouterBuilder] and the state it builds, the layers of
      authentication and limits a request passes ([receive]), and what happens
      behind them ([exchange]), the handler answered or cut off.

    The process (main.rs, health.rs).
    - [Trees]: programs as trees of calls over any calls and answers, with the
      logic [ensures] and its form [extends] for what a run adds.
    - [RishBackend] (rish_backend.rs): pinning the DEX, the sealed copy in memory,
      the probe; [RishSafety] has its theorem.
    - [Startup]: [handle_cli], [assemble] (what [main] does with a configuration up
      to [axum::serve]), readiness, and the offline issuers; its theorems join the
      configuration, the router, the grants and the endpoint.

    ** What the theorems show

    - The deployed process: the server [main] makes is the one its configuration
      describes ([server_reflects_config]); what it does for a request is what the
      environment allows ([deployed_server_guards]); and it accepts the grants the
      offline issuers print ([offline_grant_accepted]).  A built router is what its
      builder says, in any order of settings ([built_router_exact]), and guards
      every request ([router_guards_requests]); the rish probe runs exactly the
      pinned DEX ([probe_runs_pinned_dex]).
    - Requests: a live change of the filesystem or of a volume needs its protocol,
      session, gate, explicit [dry_run] and consumed grant all at once
      ([live_mutations_authorized], [device_access_gated]); calls are made only
      where the protocols allow, and with a grant header only for the tools that
      take grants ([requests_follow_protocol]); the stateless protocol only looks
      ([stateless_requests_only_preview]); a request whose calls are answered is
      answered, the handler does not panic, and of the blocking tasks only a look
      at a file whose modification time chrono cannot represent does
      ([every_request_answered]); every tool call is accounted for
      ([tool_calls_accounted]) and its result sent on as far as its text reads back
      ([answers_survive_decoration]); discovery says what a posture offers
      ([discovery_exact]).
    - Filesystem: [anchor_exact] and [tools_confined] keep every call below the
      pinned roots and say when a tool can panic; the [*_protocol] theorems bound what any run of a mutation
      does, whatever the kernel answers; [mutations_require_grants] adds the
      grant; readers and traversals end within their limits and return what was
      read ([text_pages_tile], [hash_file_exact], [search_text_bounded],
      [list_directory_bounded]) and change nothing ([reads_change_nothing]).
    - Grants are single use ([token_consumed_at_most_once],
      [grant_accepted_at_most_once]), whatever else the process does; pruning the
      replay map is invisible ([replay_refines_unpruned_log]); resolution of a
      namespace is stable and the registry well formed.
    - A token has one spelling ([token_format_exact]), authorizes one operation
      (the [*_binds] theorems, up to an explicit collision of SHA-256 or HMAC
      that the conclusion names) and one family ([families_are_disjoint]), and is
      accepted when it should be ([issued_grant_is_accepted]).
    - The session store stays within its bounds, never panics, terminates, expires
      idle sessions and replays exactly what it retained.
    - Authentication, limits, Host and Origin, routing names and envelopes are
      decided exactly as described; permits are never lost.
    - An accepted configuration is well formed and the server's parts can be built
      from it ([loaded_config_well_formed], [loaded_config_starts]).
    - A bounded process yields an output only when it ended properly in time, and
      always has its process group killed; volume mutations are verified or rolled
      back, one at a time, through listed commands only; commands run as reviewed;
      a battery status is exactly its recognized fields.

    ** Third-party code

    HMAC, SHA-256 and UUID ([Crypto]), the HTTP and JSON crates ([HttpLib],
    [JsonText], [JsonLength]), the tokio semaphore ([Semaphore]), child processes
    ([ProcessRunner]), descriptors ([Kernel]), file modes ([FileModes]), time
    stamps ([Chrono]), floating point ([Float64]) and the strings of the build
    ([Build]) are classes; the documented behaviour relied on is a class of laws
    beside each, and a concrete instance shows that the laws can hold and lets the
    witnesses evaluate.  That JSON reads back as it was written is not among them:
    serde_json does not promise it of every number and depth.  No cryptographic strength is assumed.  System calls, and
    what a handler asks of the process, are answered arbitrarily.

    ** Fuel and termination

    Two loops of the session store draw random names until one is fresh: they take
    the drawn names as a list, and [create_always_answers] and
    [record_always_answers] show that more distinct names than can be taken are
    enough.  The supervisor loop takes its polls as a list; [run_terminates] shows
    that a poll that sees the deadline ends it.  [print_digits] takes one more step
    than the number has bits, which [print_N_spec] shows is enough.  Hashing and
    traversing double their rounds: [2 ^ HASH_ROUNDS] reads and
    [2 ^ TRAVERSAL_ROUNDS] visits are more than the limits of the code let happen,
    which [hash_file_exact], [list_directory_bounded] and [search_text_bounded]
    show.  The loops over the DEX take one round per byte, and each reads or writes
    at least one ([probe_runs_pinned_dex]).  The lock of a quarantine is tried
    [LOCK_ATTEMPTS] times, which its retry budget of 50 naps cannot exceed; a fresh
    name is drawn 16 times, as in the code.  Every other recursion is structural.

    ** Granularity

    A critical section under a mutex is one step, as is one [execute] of a volume
    mutation: a preview may run between its commands, which reads the device and
    is not a mutation, and the lane excludes a second mutation.  In the filesystem
    programs one call lists a directory, and closing a descriptor is not a call.
    A worker is one call of its handler, answered by what it ended with, or by
    nothing where the task was lost.  A panic is a call: [FsCalls.Panic] in the
    filesystem programs, after which only a build that unwinds goes on, and
    [McpCalls.Panic] in a handler, which nothing answers.  The release profile
    aborts the process at either.

    ** Not modelled

    What [main] does around the assembly: the log lines, [axum::serve] and the
    shutdown signal; lib.rs only re-exports.  The endpoint asks for the rish probe
    as a call with an arbitrary answer; [RishBackend] models the probe by itself.
    Of the modelled files, [Debug] and [Display] texts that are not answered,
    serde derivations beyond those that read or write the wire, metrics and
    test-only hooks are left out. *)

From Stdlib Require Export NArith ZArith Lia.
From Stdlib Require Export Strings.Byte.
From stdpp Require Export base gmap sets list strings option fin_maps.

Set Default Proof Using "Type".

(* ------------------------------------------------------------------ *)
(** ** Results *)

(** Rust's [Result<A, E>]; the error comes first so that [Result E] is a
    type constructor the do-notation works on ([?] is [←]). *)
Inductive Result (E A : Type) : Type :=
| Ok (a : A)
| Err (e : E).
Arguments Ok {E A} a.
Arguments Err {E A} e.

#[export] Instance Result_ret E : MRet (Result E) := λ A a, Ok a.
#[export] Instance Result_bind E : MBind (Result E) := λ A B f m,
  match m with Ok a => f a | Err e => Err e end.
#[export] Instance Result_fmap E : FMap (Result E) := λ A B f m,
  match m with Ok a => Ok (f a) | Err e => Err e end.

Definition ok_or {E A} (o : option A) (e : E) : Result E A :=
  match o with Some a => Ok a | None => Err e end.
Definition map_err {E F A} (f : E → F) (m : Result E A) : Result F A :=
  match m with Ok a => Ok a | Err e => Err (f e) end.
Definition is_ok {E A} (m : Result E A) : bool :=
  match m with Ok _ => true | Err _ => false end.
(** [if b { return Err(e) }]. *)
Definition fail_if {E} (b : bool) (e : E) : Result E unit :=
  if b then Err e else Ok ().

#[export] Instance Result_eq_dec E A `{EqDecision E, EqDecision A} : EqDecision (Result E A).
Proof. solve_decision. Defined.

Lemma fail_if_Ok {E} (b : bool) (e : E) u : fail_if b e = Ok u ↔ b = false.
Proof. destruct b, u; naive_solver. Qed.
Lemma ok_or_Ok {E A} (o : option A) (e : E) a : ok_or o e = Ok a ↔ o = Some a.
Proof. destruct o; naive_solver. Qed.
Lemma bind_Ok {E A B} (m : Result E A) (f : A → Result E B) b :
  m ≫= f = Ok b ↔ ∃ a, m = Ok a ∧ f a = Ok b.
Proof. destruct m; naive_solver. Qed.

(* ------------------------------------------------------------------ *)
(** ** Bytes and strings

    A Rust [u8] is a [byte], a [&[u8]] or [&str] is the list of its bytes
    (a [&str] is its UTF-8 encoding, and every string operation modelled here
    works on the bytes). *)

Abbreviation bytes := (list byte).

#[export] Instance byte_eq_dec : EqDecision byte := Byte.byte_eq_dec.
#[export] Instance byte_countable : Countable byte.
Proof. refine (inj_countable Byte.to_N Byte.of_N _). intros b. apply Byte.of_to_N. Defined.
#[export] Instance byte_inhabited : Inhabited byte := populate x00.

(** The bytes of a string literal. *)
Definition bs (s : string) : bytes := String.list_byte_of_string s.

Definition byte_val (b : byte) : N := Byte.to_N b.
Definition byte_of (n : N) : byte :=
  match Byte.of_N n with Some b => b | None => x00 end.

Lemma byte_val_lt b : (byte_val b < 256)%N.
Proof. unfold byte_val. pose proof (Byte.to_N_bounded b). lia. Qed.
Lemma byte_of_val b : byte_of (byte_val b) = b.
Proof. unfold byte_of, byte_val. by rewrite Byte.of_to_N. Qed.
Lemma byte_val_of n : (n < 256)%N → byte_val (byte_of n) = n.
Proof.
  intros Hn. unfold byte_of, byte_val.
  destruct (Byte.of_N n) as [b|] eqn:E; [by apply Byte.to_of_N|].
  apply Byte.of_N_None_iff in E. lia.
Qed.
Lemma byte_val_inj a b : byte_val a = byte_val b → a = b.
Proof. intros H. by rewrite <-(byte_of_val a), H, byte_of_val. Qed.

(** Byte classes of Rust's [u8::is_ascii_*]. *)
Definition in_range (lo hi : N) (b : byte) : bool :=
  (lo <=? byte_val b)%N && (byte_val b <=? hi)%N.
Definition is_ascii_byte : byte → bool := in_range 0 127.
Definition is_ascii_digit : byte → bool := in_range 48 57.
Definition is_ascii_lowercase : byte → bool := in_range 97 122.
Definition is_ascii_uppercase : byte → bool := in_range 65 90.
Definition is_ascii_graphic : byte → bool := in_range 33 126.
Definition is_ascii (s : bytes) : bool := forallb is_ascii_byte s.

Definition bytes_eqb (a b : bytes) : bool := bool_decide (a = b).
Lemma bytes_eqb_true a b : bytes_eqb a b = true ↔ a = b.
Proof. apply bool_decide_eq_true. Qed.
Lemma bytes_eqb_false a b : bytes_eqb a b = false ↔ a ≠ b.
Proof. apply bool_decide_eq_false. Qed.
Lemma bytes_eqb_refl a : bytes_eqb a a = true.
Proof. by apply bytes_eqb_true. Qed.

(* ------------------------------------------------------------------ *)
(** ** Machine integers

    [u8], [u32], [u64] and [usize] are [N] with their bound as a predicate; an
    [i64] is a [Z]. *)

Definition u64_max : N := 18446744073709551615.
Definition u32_max : N := 4294967295.
Definition is_u64 (n : N) : Prop := (n ≤ u64_max)%N.
Definition is_i64 (z : Z) : Prop := (-9223372036854775808 ≤ z ≤ 9223372036854775807)%Z.

Definition checked_add64 (a b : N) : option N :=
  if (a + b <=? u64_max)%N then Some (a + b)%N else None.
Definition checked_sub64 (a b : N) : option N :=
  if (b <=? a)%N then Some (a - b)%N else None.
Definition saturating_add64 (a b : N) : N := N.min (a + b) u64_max.

Lemma checked_add64_Some a b c :
  checked_add64 a b = Some c ↔ c = (a + b)%N ∧ (a + b ≤ u64_max)%N.
Proof. unfold checked_add64. destruct (N.leb_spec (a + b) u64_max); naive_solver lia. Qed.
Lemma checked_sub64_Some a b c :
  checked_sub64 a b = Some c ↔ c = (a - b)%N ∧ (b ≤ a)%N.
Proof. unfold checked_sub64. destruct (N.leb_spec b a); naive_solver lia. Qed.

(** [to_be_bytes] at [k] bytes, and [from_be_bytes]. *)
Fixpoint be_bytes (k : nat) (n : N) : bytes :=
  match k with
  | O => []
  | S k' => be_bytes k' (n / 256) ++ [byte_of (n mod 256)]
  end.
Definition from_be (l : bytes) : N := foldl (λ acc b, acc * 256 + byte_val b)%N 0%N l.

Lemma from_be_snoc l b : from_be (l ++ [b]) = (from_be l * 256 + byte_val b)%N.
Proof. unfold from_be. by rewrite foldl_app. Qed.
Lemma length_be_bytes k n : length (be_bytes k n) = k.
Proof. revert n; induction k as [|k IH]; intros n; simpl; [done|]. rewrite length_app, IH. simpl. lia. Qed.

Lemma from_be_bytes_mod k n : from_be (be_bytes k n) = (n mod 256 ^ N.of_nat k)%N.
Proof.
  revert n; induction k as [|k IH]; intros n; [by rewrite N.mod_1_r|].
  cbn [be_bytes]. rewrite from_be_snoc, IH, byte_val_of by (apply N.mod_lt; lia).
  rewrite Nat2N.inj_succ, N.pow_succ_r', N.Div0.mod_mul_r. lia.
Qed.
Lemma be_bytes_from_be l : be_bytes (length l) (from_be l) = l.
Proof.
  induction l as [|b l IH] using rev_ind; [done|].
  rewrite length_app, Nat.add_comm. simpl. rewrite from_be_snoc.
  pose proof (byte_val_lt b).
  replace ((from_be l * 256 + byte_val b) / 256)%N with (from_be l)
    by (rewrite N.div_add_l by lia; rewrite (N.div_small (byte_val b)); lia).
  replace ((from_be l * 256 + byte_val b) mod 256)%N with (byte_val b)
    by (rewrite N.add_comm, N.Div0.mod_add, N.mod_small; lia).
  by rewrite IH, byte_of_val.
Qed.
Lemma from_be_lt l : (from_be l < 256 ^ N.of_nat (length l))%N.
Proof.
  rewrite <-(be_bytes_from_be l) at 1. rewrite from_be_bytes_mod.
  apply N.mod_lt, N.pow_nonzero. lia.
Qed.
Lemma from_be_u64 n : is_u64 n → from_be (be_bytes 8 n) = n.
Proof. intros Hn. rewrite from_be_bytes_mod. apply N.mod_small. unfold is_u64, u64_max in Hn. simpl. lia. Qed.
Lemma is_u64_from_be l : length l = 8 → is_u64 (from_be l).
Proof. intros Hl. pose proof (from_be_lt l) as H. rewrite Hl in H. unfold is_u64, u64_max. simpl in H. lia. Qed.
Lemma be_bytes_inj k a b :
  (a < 256 ^ N.of_nat k)%N → (b < 256 ^ N.of_nat k)%N → be_bytes k a = be_bytes k b → a = b.
Proof.
  intros Ha Hb H. apply (f_equal from_be) in H.
  by rewrite !from_be_bytes_mod, !N.mod_small in H.
Qed.
Lemma be_bytes_inj64 a b : is_u64 a → is_u64 b → be_bytes 8 a = be_bytes 8 b → a = b.
Proof. unfold is_u64, u64_max. intros ??. apply be_bytes_inj; simpl; lia. Qed.

#[global] Arguments be_bytes : simpl never.

(** [i64::to_be_bytes]: two's complement. *)
Definition be_bytes_i64 (z : Z) : bytes := be_bytes 8 (Z.to_N (z mod 18446744073709551616)).
Lemma length_be_bytes_i64 z : length (be_bytes_i64 z) = 8.
Proof. apply length_be_bytes. Qed.
Lemma be_bytes_i64_inj a b : is_i64 a → is_i64 b → be_bytes_i64 a = be_bytes_i64 b → a = b.
Proof.
  unfold is_i64, be_bytes_i64. intros Ha Hb H.
  assert (∀ z, (0 ≤ z mod 18446744073709551616 < 18446744073709551616)%Z) as Hm
    by (intros; apply Z.mod_pos_bound; lia).
  pose proof (Hm a); pose proof (Hm b).
  apply be_bytes_inj in H; [|change (256 ^ N.of_nat 8)%N with 18446744073709551616%N; lia..].
  apply Z2N.inj in H; [|lia..].
  pose proof (Z.div_mod a 18446744073709551616 ltac:(lia)).
  pose proof (Z.div_mod b 18446744073709551616 ltac:(lia)). lia.
Qed.

(* ------------------------------------------------------------------ *)
(** ** [std::sync::Mutex] *)

(** A mutex is poisoned once a thread panicked while holding it. *)
Record Mutex (A : Type) := mkMutex { poisoned : bool; guarded : A }.
Arguments mkMutex {A}.
Arguments poisoned {A}.
Arguments guarded {A}.

Definition Mutex_new {A} (a : A) : Mutex A := mkMutex false a.

(* ------------------------------------------------------------------ *)
(** ** Lists *)

Lemma app_inj_length {A} (a b c d : list A) :
  length a = length c → a ++ b = c ++ d → a = c ∧ b = d.
Proof. intros Hl H. by apply app_inj_1 in H. Qed.

(** Split an equality of lists item by item, without unfolding the items. *)
Ltac split_items H :=
  repeat (let E := fresh "E" in apply cons_eq_inj in H as [E H]).

Lemma take_segments {A} (a b r : list A) c :
  take (length a + 1 + length b) (a ++ c :: b ++ r) = a ++ c :: b.
Proof.
  replace (a ++ c :: b ++ r) with ((a ++ c :: b) ++ r) by (by rewrite <-app_assoc).
  apply take_app_length'. rewrite length_app. simpl. lia.
Qed.

(** [Iterator::find_map]. *)
Fixpoint find_map {A B} (f : A → option B) (l : list A) : option B :=
  match l with
  | [] => None
  | x :: l => match f x with Some b => Some b | None => find_map f l end
  end.

Lemma find_map_Some {A B} (f : A → option B) l b :
  find_map f l = Some b ↔ ∃ l1 x l2, l = l1 ++ x :: l2 ∧ f x = Some b ∧ Forall (λ y, f y = None) l1.
Proof.
  split.
  - induction l as [|x l IH]; simpl; [done|]. destruct (f x) as [b'|] eqn:E; intros H.
    + simplify_eq. exists [], x, l. by split_and!.
    + destruct (IH H) as (l1 & y & l2 & -> & Hy & Hf). exists (x :: l1), y, l2. by split_and!; [..|constructor].
  - intros (l1 & x & l2 & -> & Hx & Hf). induction Hf as [|y l1 Hy Hf IH]; simpl; [by rewrite Hx|by rewrite Hy].
Qed.

Lemma find_map_None {A B} (f : A → option B) l :
  find_map f l = None ↔ Forall (λ y, f y = None) l.
Proof.
  induction l as [|x l IH]; simpl; [done|]. rewrite Forall_cons, <-IH.
  destruct (f x); naive_solver.
Qed.

(** [str::split_once(char)]. *)
Fixpoint split_once (sep : byte) (s : bytes) : option (bytes * bytes) :=
  match s with
  | [] => None
  | c :: s =>
    if bool_decide (c = sep) then Some ([], s)
    else '(a, b) ← split_once sep s; Some (c :: a, b)
  end.

Lemma split_once_app sep a b : sep ∉ a → split_once sep (a ++ sep :: b) = Some (a, b).
Proof.
  induction a as [|c a IH]; simpl; intros Hs; [by rewrite bool_decide_true|].
  apply not_elem_of_cons in Hs as [? Hs]. rewrite bool_decide_false by done. by rewrite IH.
Qed.

Lemma split_once_Some sep s a b : split_once sep s = Some (a, b) ↔ s = a ++ sep :: b ∧ sep ∉ a.
Proof.
  split; [|intros [-> ?]; by apply split_once_app].
  revert a; induction s as [|c s IH]; simpl; intros a; [done|]. case_bool_decide as Hc.
  - intros [= <- <-]. subst. split; [done|apply not_elem_of_nil].
  - destruct (split_once sep s) as [[a' b']|] eqn:E; simpl; [|done]. intros [= <- <-].
    destruct (IH a' eq_refl) as [-> ?]. split; [done|]. by apply not_elem_of_cons.
Qed.

Lemma map_err_Ok {E E' A} (f : E → E') (m : Result E A) x : map_err f m = Ok x ↔ m = Ok x.
Proof. destruct m; naive_solver. Qed.

(** [str::split(sep)]: never empty, one more item than separators. *)
Fixpoint split_on (sep : byte) (s : bytes) : list bytes :=
  match s with
  | [] => [[]]
  | c :: s' =>
    if bool_decide (c = sep) then [] :: split_on sep s'
    else match split_on sep s' with
         | [] => [[c]]
         | seg :: rest => (c :: seg) :: rest
         end
  end.

Lemma split_on_app sep a r :
  sep ∉ a → split_on sep (a ++ sep :: r) = a :: split_on sep r.
Proof.
  induction a as [|c a IH]; simpl; intros Hs.
  - by rewrite bool_decide_true.
  - apply not_elem_of_cons in Hs as [? Hs].
    rewrite bool_decide_false by done. by rewrite IH.
Qed.

Lemma split_on_none sep a : sep ∉ a → split_on sep a = [a].
Proof.
  induction a as [|c a IH]; simpl; intros Hs; [done|].
  apply not_elem_of_cons in Hs as [? Hs]. rewrite bool_decide_false by done. by rewrite IH.
Qed.

Fixpoint join_on (sep : byte) (segments : list bytes) : bytes :=
  match segments with
  | [] => []
  | [s] => s
  | s :: rest => s ++ sep :: join_on sep rest
  end.

Lemma split_on_ne sep s : split_on sep s ≠ [].
Proof. destruct s as [|c s]; simpl; [done|]. case_bool_decide; [done|]. by destruct (split_on sep s). Qed.

Lemma join_split_on sep s : join_on sep (split_on sep s) = s.
Proof.
  induction s as [|c s IH]; [done|]. simpl. pose proof (split_on_ne sep s) as Hne.
  case_bool_decide; subst.
  - destruct (split_on sep s) as [|g rest]; [done|].
    change (sep :: join_on sep (g :: rest) = sep :: s). by rewrite IH.
  - destruct (split_on sep s) as [|g [|g' rest]] eqn:E; simpl in *; [done|by rewrite IH|by rewrite <-IH].
Qed.


(* ------------------------------------------------------------------ *)
(** ** Automation *)

(** Lengths of fixed-width encodings. *)
Create HintDb widths.
#[export] Hint Resolve length_be_bytes length_be_bytes_i64 : widths.

(** Every field of an encoding has its width. *)
Ltac field_widths := repeat constructor; auto with widths.

(** Reflect the boolean guards of the code in the hypotheses. *)
Ltac reflect_guards :=
  repeat match goal with
  | H : (_ || _)%bool = true |- _ => apply orb_true_iff in H; destruct H
  | H : (_ || _)%bool = false |- _ => apply orb_false_iff in H; destruct H
  | H : (_ && _)%bool = true |- _ => apply andb_true_iff in H; destruct H
  | H : (_ && _)%bool = false |- _ => apply andb_false_iff in H; destruct H
  | H : negb _ = true |- _ => apply negb_true_iff in H
  | H : negb _ = false |- _ => apply negb_false_iff in H
  | H : (_ =? _)%N = true |- _ => apply N.eqb_eq in H
  | H : (_ =? _)%N = false |- _ => apply N.eqb_neq in H
  | H : (_ <? _)%N = true |- _ => apply N.ltb_lt in H
  | H : (_ <? _)%N = false |- _ => apply N.ltb_ge in H
  | H : (_ <=? _)%N = true |- _ => apply N.leb_le in H
  | H : (_ <=? _)%N = false |- _ => apply N.leb_gt in H
  | H : (_ =? _)%nat = true |- _ => apply Nat.eqb_eq in H
  | H : (_ =? _)%nat = false |- _ => apply Nat.eqb_neq in H
  | H : (_ <? _)%nat = true |- _ => apply Nat.ltb_lt in H
  | H : (_ <? _)%nat = false |- _ => apply Nat.ltb_ge in H
  | H : (_ <=? _)%nat = true |- _ => apply Nat.leb_le in H
  | H : (_ <=? _)%nat = false |- _ => apply Nat.leb_gt in H
  | H : bytes_eqb _ _ = true |- _ => apply bytes_eqb_true in H
  | H : bytes_eqb _ _ = false |- _ => apply bytes_eqb_false in H
  | H : bool_decide _ = true |- _ => apply bool_decide_eq_true in H
  | H : bool_decide _ = false |- _ => apply bool_decide_eq_false in H
  | H : fail_if _ _ = Ok _ |- _ => apply fail_if_Ok in H
  | H : ok_or _ _ = Ok _ |- _ => apply ok_or_Ok in H
  end.

(** Follow the code's branches: split every [match] and [if], drop the
    impossible ones and reflect the guards of the others. *)
Ltac branches := repeat (case_match; simplify_eq/=); reflect_guards.

(** Open a do-block that returned [Ok]. *)
Ltac inv_ok H :=
  repeat match type of H with
  | (?m ≫= ?f) = Ok _ => let x := fresh "x" in let E := fresh "E" in
      apply bind_Ok in H as (x & E & H); simpl in H
  end.

(** Run one step of a do-block that is to return [Ok]: two goals, the step and
    the rest. *)
Ltac ok_step :=
  apply bind_Ok;
  first [exists (); split; [apply fail_if_Ok|cbv beta]
        |eexists; split; [first [apply ok_or_Ok | idtac]|cbv beta]].
