(* ===== verification/RustStd.v ===== *)
(** * What the source uses of the Rust standard library

    ASCII case folding, unsigned decimal parsing, and socket addresses. *)

From S2P Require Import Prelude.

(** [u8::to_ascii_lowercase], [str::to_ascii_lowercase],
    [str::eq_ignore_ascii_case]. *)
Definition byte_to_lower (b : byte) : byte :=
  if is_ascii_uppercase b then byte_of (byte_val b + 32) else b.
Definition to_ascii_lowercase (s : bytes) : bytes := byte_to_lower <$> s.
Definition eq_ignore_ascii_case (a b : bytes) : bool :=
  bytes_eqb (to_ascii_lowercase a) (to_ascii_lowercase b).

(** The digit loop of [uN::from_str]: every digit is accumulated with
    [checked_mul] and [checked_add]. *)
Fixpoint parse_digits (max acc : N) (s : bytes) : option N :=
  match s with
  | [] => Some acc
  | b :: s =>
    if is_ascii_digit b
    then let acc := (acc * 10 + (byte_val b - 48))%N in
         if (acc <=? max)%N then parse_digits max acc s else None
    else None
  end.

(** [uN::from_str] with [uN::MAX = max]: an optional [+], then at least one
    digit. *)
Definition parse_unsigned (max : N) (s : bytes) : option N :=
  let digits := match s with
                | b :: rest => if bool_decide (b = byte_of 43) then rest else s
                | [] => s
                end in
  if bytes_eqb digits [] then None else parse_digits max 0 digits.

(** [N::to_string], and [i64::to_string]. *)
Fixpoint print_digits (fuel : nat) (n : N) (acc : bytes) : bytes :=
  match fuel with
  | O => acc
  | S fuel =>
    let acc := byte_of (48 + n mod 10) :: acc in
    if (n <? 10)%N then acc else print_digits fuel (n / 10) acc
  end.
Definition print_N (n : N) : bytes := print_digits (S (N.size_nat n)) n [].
Definition print_Z (z : Z) : bytes :=
  if (z <? 0)%Z then byte_of 45 :: print_N (Z.to_N (- z)) else print_N (Z.to_N z).

(** [String::from_utf8]'s validation: no surrogates, no overlong forms, nothing
    above U+10FFFF. *)
Definition is_continuation : byte → bool := in_range 128 191.
Fixpoint utf8_valid (s : bytes) : bool :=
  match s with
  | [] => true
  | b0 :: s1 =>
    if is_ascii_byte b0 then utf8_valid s1
    else match s1 with
    | [] => false
    | b1 :: s2 =>
      if in_range 194 223 b0 then is_continuation b1 && utf8_valid s2
      else match s2 with
      | [] => false
      | b2 :: s3 =>
        if in_range 224 239 b0
        then (if (byte_val b0 =? 224)%N then in_range 160 191 b1
              else if (byte_val b0 =? 237)%N then in_range 128 159 b1
              else is_continuation b1)
             && is_continuation b2 && utf8_valid s3
        else match s3 with
        | [] => false
        | b3 :: s4 =>
          in_range 240 244 b0
          && (if (byte_val b0 =? 240)%N then in_range 144 191 b1
              else if (byte_val b0 =? 244)%N then in_range 128 143 b1
              else is_continuation b1)
          && is_continuation b2 && is_continuation b3 && utf8_valid s4
        end
      end
    end
  end.
Definition from_utf8 (b : bytes) : option bytes := if utf8_valid b then Some b else None.

(** [slice::contains] on strings. *)
Definition contains (l : list bytes) (s : bytes) : bool := existsb (bytes_eqb s) l.
#[global] Arguments contains : simpl never.

(** [str::strip_prefix]. *)
Fixpoint strip_str_prefix (prefix s : bytes) : option bytes :=
  match prefix, s with
  | [], _ => Some s
  | p :: prefix, c :: s => if bool_decide (p = c) then strip_str_prefix prefix s else None
  | _ :: _, [] => None
  end.

(** [std::net]: addresses as the integers they hold; an IPv6 socket address also
    compares its flow information and scope. *)
Inductive IpAddr := V4 (bits : N) | V6 (bits : N).

Inductive SocketAddr :=
| SocketV4 (ip port : N)
| SocketV6 (ip port flowinfo scope_id : N).

#[global] Instance ip_addr_eq_dec : EqDecision IpAddr.
Proof. solve_decision. Defined.
#[global] Instance socket_addr_eq_dec : EqDecision SocketAddr.
Proof. solve_decision. Defined.

Definition socket_ip (a : SocketAddr) : IpAddr :=
  match a with SocketV4 ip _ => V4 ip | SocketV6 ip _ _ _ => V6 ip end.

(** 127.0.0.0/8 and ::1; an IPv4-mapped IPv6 address is not loopback. *)
Definition is_loopback (a : IpAddr) : bool :=
  match a with
  | V4 bits => (N.shiftr bits 24 =? 127)%N
  | V6 bits => (bits =? 1)%N
  end.

(* ------------------------------------------------------------------ *)
(** ** Lemmas *)

Lemma contains_true l s : contains l s = true ↔ s ∈ l.
Proof.
  unfold contains. rewrite existsb_exists. setoid_rewrite bytes_eqb_true.
  rewrite list_elem_of_In. split; [intros (? & ? & <-); done|eauto].
Qed.

Lemma strip_str_prefix_Some prefix s r : strip_str_prefix prefix s = Some r ↔ s = prefix ++ r.
Proof.
  revert s; induction prefix as [|p prefix IH]; intros s; simpl; [naive_solver|].
  destruct s as [|c s]; [done|]. case_bool_decide as H; [rewrite IH; naive_solver|naive_solver].
Qed.

(** [!s.iter().any(|k| !l.contains(k))]. *)
Lemma existsb_not_contains l s :
  existsb (λ k, negb (contains l k)) s = false ↔ Forall (λ k, k ∈ l) s.
Proof.
  induction s as [|k s IH]; cbn [existsb]; [by split|].
  rewrite orb_false_iff, IH, Forall_cons, negb_false_iff, contains_true. reflexivity.
Qed.

(** The value of a digit string. *)
Definition decimal (s : bytes) : N := foldl (λ acc b, acc * 10 + (byte_val b - 48))%N 0%N s.

Lemma foldl_decimal_le s acc :
  (acc ≤ foldl (λ acc b, acc * 10 + (byte_val b - 48)) acc s)%N.
Proof.
  revert acc; induction s as [|b s IH]; intros acc; simpl; [lia|].
  etransitivity; [|apply IH]. lia.
Qed.

Lemma parse_digits_Some max acc s n :
  (acc ≤ max)%N →
  parse_digits max acc s = Some n ↔
  Forall (λ b, is_ascii_digit b = true) s ∧
  n = foldl (λ acc b, acc * 10 + (byte_val b - 48))%N acc s ∧ (n ≤ max)%N.
Proof.
  revert acc; induction s as [|b s IH]; intros acc Hacc; cbn [parse_digits].
  - simpl. split; [intros [= <-]; by split_and!|]. by intros (_ & -> & _).
  - rewrite Forall_cons. destruct (is_ascii_digit b); [|naive_solver].
    destruct (N.leb_spec (acc * 10 + (byte_val b - 48)) max) as [Hle|Hgt].
    + rewrite IH by done. naive_solver.
    + split; [done|]. intros (_ & -> & Hn). cbn [foldl] in Hn.
      pose proof (foldl_decimal_le s (acc * 10 + (byte_val b - 48))). lia.
Qed.

Lemma decimal_cons b s :
  decimal (b :: s) = ((byte_val b - 48) * 10 ^ N.of_nat (length s) + decimal s)%N.
Proof.
  unfold decimal. cbn [foldl]. rewrite N.mul_0_l, N.add_0_l. generalize (byte_val b - 48)%N as acc.
  induction s as [|c s IH] using rev_ind; intros acc; [cbn; lia|].
  rewrite !foldl_app, length_app. cbn [foldl length]. rewrite IH, Nat.add_1_r.
  rewrite Nat2N.inj_succ, N.pow_succ_r'. lia.
Qed.

Lemma digit_byte n : (n < 10)%N → byte_val (byte_of (48 + n)) = (48 + n)%N.
Proof. intros Hn. apply byte_val_of. lia. Qed.

Lemma print_digits_spec fuel n acc :
  (n < 2 ^ N.of_nat fuel)%N → Forall (λ b, is_ascii_digit b = true) acc → fuel ≠ 0 →
  Forall (λ b, is_ascii_digit b = true) (print_digits fuel n acc) ∧
  decimal (print_digits fuel n acc) = (n * 10 ^ N.of_nat (length acc) + decimal acc)%N ∧
  print_digits fuel n acc ≠ [].
Proof.
  revert n acc; induction fuel as [|fuel IH]; intros n acc Hn Hacc Hf; [done|]. cbn [print_digits].
  pose proof (N.mod_lt n 10 ltac:(done)) as Hm.
  assert (Forall (λ b, is_ascii_digit b = true) (byte_of (48 + n mod 10) :: acc)) as Hacc'.
  { constructor; [|done]. unfold is_ascii_digit, in_range. rewrite digit_byte by done.
    apply andb_true_iff. rewrite !N.leb_le. clear -Hm. revert Hm.
    generalize (n mod 10)%N. lia. }
  pose proof (N.div_mod' n 10) as Hd.
  destruct (N.ltb_spec n 10) as [Hlt|Hge].
  - split_and!; [done| |done]. rewrite decimal_cons, digit_byte by done.
    rewrite (N.mod_small n 10) by done. f_equal. f_equal. clear. lia.
  - revert Hm Hd Hacc'. generalize (n / 10)%N (n mod 10)%N. intros q m Hm Hd Hacc'.
    rewrite Nat2N.inj_succ, N.pow_succ_r' in Hn.
    assert (fuel ≠ 0) by (intros ->; change (2 ^ N.of_nat 0)%N with 1%N in Hn; lia).
    destruct (IH q _ ltac:(lia) Hacc' ltac:(done)) as (H1 & H2 & H3).
    split_and!; [done| |done]. rewrite H2, decimal_cons, digit_byte by done. cbn [length].
    rewrite Nat2N.inj_succ, N.pow_succ_r'. replace (48 + m - 48)%N with m by lia.
    rewrite Hd. ring.
Qed.

Lemma N_size_nat_lt n : (n < 2 ^ N.of_nat (S (N.size_nat n)))%N.
Proof.
  rewrite Nat2N.inj_succ, N.pow_succ_r'.
  pose proof (N.size_gt n).
  destruct n as [|p]; [simpl; lia|].
  assert (N.of_nat (N.size_nat (N.pos p)) = N.size (N.pos p)) as ->; [|lia].
  simpl. clear. induction p; simpl; lia.
Qed.

(** A printed number is a non-empty digit string of that value, and parses back. *)
Lemma print_N_spec n :
  Forall (λ b, is_ascii_digit b = true) (print_N n) ∧ decimal (print_N n) = n ∧ print_N n ≠ [].
Proof.
  destruct (print_digits_spec (S (N.size_nat n)) n [] (N_size_nat_lt n)) as (H1 & H2 & H3);
    [constructor|done|].
  unfold print_N. split_and!; [done| |done]. rewrite H2. cbn. lia.
Qed.

Lemma parse_print_N max n : (n ≤ max)%N → parse_unsigned max (print_N n) = Some n.
Proof.
  intros Hn. destruct (print_N_spec n) as (Hd & Hv & Hne). unfold parse_unsigned.
  destruct (print_N n) as [|b s] eqn:E; [done|].
  assert (bool_decide (b = byte_of 43) = false) as ->.
  { apply bool_decide_eq_false. intros ->. by apply Forall_cons in Hd as [? _]. }
  rewrite (proj2 (bytes_eqb_false _ _)) by done.
  apply parse_digits_Some; [lia|]. split_and!; [done|by rewrite <-Hv at 1|done].
Qed.

Lemma print_N_inj a b : print_N a = print_N b → a = b.
Proof.
  intros H. destruct (print_N_spec a) as (_ & Ha & _), (print_N_spec b) as (_ & Hb & _).
  by rewrite <-Ha, <-Hb, H.
Qed.
