(* ===== verification/RustPath.v ===== *)
(** * Paths and UTF-8 errors of the Rust standard library

    [std::path] on Unix, on the bytes of a path, and the error side of
    [std::str::from_utf8] with [to_string_lossy]. *)

From S2P Require Import Prelude RustStd.

(** ** Components *)

Definition SLASH : byte := byte_of 47.
Definition is_absolute (p : bytes) : bool := bool_decide (head p = Some SLASH).

(** A segment between two separators that yields no component. *)
Definition skipped (s : bytes) : bool := bytes_eqb s [] || bytes_eqb s (bs ".").
Definition path_segments (p : bytes) : list bytes :=
  List.filter (λ s, negb (skipped s)) (split_on SLASH p).

Inductive Component := RootDir | CurDir | ParentDir | Normal (name : bytes).

#[global] Instance component_eq_dec : EqDecision Component.
Proof. solve_decision. Defined.

Definition segment_component (s : bytes) : Component :=
  if bytes_eqb s (bs "..") then ParentDir else Normal s.

(** [Path::components]: a leading [.] of a relative path is kept. *)
Definition components (p : bytes) : list Component :=
  if is_absolute p then RootDir :: (segment_component <$> path_segments p)
  else (if bytes_eqb (default [] (head (split_on SLASH p))) (bs ".") then [CurDir] else [])
       ++ (segment_component <$> path_segments p).

(** [Path::eq]. *)
Definition path_eq (a b : bytes) : bool := bool_decide (components a = components b).

(** [Path::file_name]: the last component, if it is a name. *)
Definition file_name (p : bytes) : option bytes :=
  name ← last (path_segments p);
  if bytes_eqb name (bs "..") then None else Some name.

(** [Components::as_path] drops the skipped segments at both ends. *)
Fixpoint trim_left (raw : list bytes) : list bytes :=
  match raw with
  | s :: raw' => if skipped s then trim_left raw' else raw
  | [] => []
  end.
Definition trim_right (raw : list bytes) : list bytes := rev (trim_left (rev raw)).

(** [Path::parent] of a relative path with a name at its end. *)
Definition relative_parent (p : bytes) : bytes :=
  join_on SLASH (trim_right (removelast (trim_right (split_on SLASH p)))).

(** [Path::strip_prefix] of one absolute path by another: the components of the
    prefix are consumed one by one, the rest keeps its spelling. *)
Fixpoint strip_segments (prefix raw : list bytes) : option (list bytes) :=
  match prefix with
  | [] => Some raw
  | b :: prefix =>
    match trim_left raw with
    | s :: raw => if bytes_eqb s b then strip_segments prefix raw else None
    | [] => None
    end
  end.
Definition strip_prefix (p base : bytes) : option bytes :=
  raw ← strip_segments (path_segments base) (split_on SLASH p);
  Some (join_on SLASH (trim_right (trim_left raw))).

(** [Path::join] and [PathBuf::push]. *)
Definition path_join (base p : bytes) : bytes :=
  if is_absolute p then p
  else base ++ (if bool_decide (last base ∈ [None; Some SLASH]) then [] else [SLASH]) ++ p.

(** [PathBuf::cmp] on two absolute paths without [..]: by their names. *)
Fixpoint bytes_leb (a b : bytes) : bool :=
  match a, b with
  | [], _ => true
  | _ :: _, [] => false
  | x :: a, y :: b =>
    if (byte_val x <? byte_val y)%N then true
    else if (byte_val y <? byte_val x)%N then false else bytes_leb a b
  end.
Fixpoint names_leb (a b : list bytes) : bool :=
  match a, b with
  | [], _ => true
  | _ :: _, [] => false
  | x :: a, y :: b => if bytes_eqb x y then names_leb a b else bytes_leb x y
  end.
Definition path_le (a b : bytes) : Prop := names_leb (path_segments a) (path_segments b) = true.
#[global] Instance path_le_dec a b : Decision (path_le a b).
Proof. unfold path_le. apply _. Defined.

(** ** UTF-8 errors *)

(** The second byte of a sequence of three or four. *)
Definition second_ok (b0 b1 : byte) : bool :=
  if (byte_val b0 =? 224)%N then in_range 160 191 b1
  else if (byte_val b0 =? 237)%N then in_range 128 159 b1
  else if (byte_val b0 =? 240)%N then in_range 144 191 b1
  else if (byte_val b0 =? 244)%N then in_range 128 143 b1
  else is_continuation b1.

(** [Utf8Error]: [valid_up_to], and [error_len], [None] when the input ends
    inside a character. *)
Fixpoint utf8_scan (pos : nat) (s : bytes) : option (nat * option nat) :=
  match s with
  | [] => None
  | b0 :: s1 =>
    if is_ascii_byte b0 then utf8_scan (S pos) s1
    else if negb (in_range 194 244 b0) then Some (pos, Some 1)
    else match s1 with
    | [] => Some (pos, None)
    | b1 :: s2 =>
      if in_range 194 223 b0
      then (if is_continuation b1 then utf8_scan (2 + pos) s2 else Some (pos, Some 1))
      else if negb (second_ok b0 b1)
      then Some (pos, Some 1)
      else match s2 with
      | [] => Some (pos, None)
      | b2 :: s3 =>
        if negb (is_continuation b2) then Some (pos, Some 2)
        else if in_range 224 239 b0 then utf8_scan (3 + pos) s3
        else match s3 with
        | [] => Some (pos, None)
        | b3 :: s4 => if is_continuation b3 then utf8_scan (4 + pos) s4 else Some (pos, Some 3)
        end
      end
    end
  end.
Definition utf8_error (s : bytes) : option (nat * option nat) := utf8_scan 0 s.

Definition REPLACEMENT_CHARACTER : bytes := byte_of <$> [239; 191; 189]%N.

(** [String::from_utf8_lossy]: every maximal invalid piece becomes U+FFFD. *)
Fixpoint lossy (fuel : nat) (s : bytes) : bytes :=
  match fuel with
  | O => s
  | S fuel =>
    match utf8_error s with
    | None => s
    | Some (valid, None) => take valid s ++ REPLACEMENT_CHARACTER
    | Some (valid, Some n) => take valid s ++ REPLACEMENT_CHARACTER ++ lossy fuel (drop (valid + n) s)
    end
  end.
Definition to_string_lossy (s : bytes) : bytes := lossy (length s) s.

(** [char::is_whitespace], as the UTF-8 encodings of the White_Space characters;
    [s.trim().is_empty()]. *)
Definition WHITE_SPACE : list bytes :=
  [[x09]; [x0a]; [x0b]; [x0c]; [x0d]; [x20]; [xc2; x85]; [xc2; xa0]; [xe1; x9a; x80];
   [xe2; x80; x80]; [xe2; x80; x81]; [xe2; x80; x82]; [xe2; x80; x83]; [xe2; x80; x84];
   [xe2; x80; x85]; [xe2; x80; x86]; [xe2; x80; x87]; [xe2; x80; x88]; [xe2; x80; x89];
   [xe2; x80; x8a]; [xe2; x80; xa8]; [xe2; x80; xa9]; [xe2; x80; xaf]; [xe2; x81; x9f];
   [xe3; x80; x80]].
Fixpoint trim_is_empty_fuel (fuel : nat) (s : bytes) : bool :=
  bytes_eqb s [] ||
  match fuel with
  | O => false
  | S fuel =>
    match List.find (λ w, bytes_eqb (take (length w) s) w) WHITE_SPACE with
    | Some w => trim_is_empty_fuel fuel (drop (length w) s)
    | None => false
    end
  end.
Definition trim_is_empty (s : bytes) : bool := trim_is_empty_fuel (length s) s.
#[global] Arguments trim_is_empty : simpl never.

(** [str::trim]. *)
Fixpoint trim_with (fuel : nat) (spaces : list bytes) (s : bytes) : bytes :=
  match fuel with
  | O => s
  | S fuel =>
    match List.find (λ w, bytes_eqb (take (length w) s) w) spaces with
    | Some w => trim_with fuel spaces (drop (length w) s)
    | None => s
    end
  end.
Definition trim_start (s : bytes) : bytes := trim_with (length s) WHITE_SPACE s.
Definition trim_end (s : bytes) : bytes := rev (trim_with (length s) (@rev byte <$> WHITE_SPACE) (rev s)).
Definition trim (s : bytes) : bytes := trim_end (trim_start s).

(* ------------------------------------------------------------------ *)
(** ** Lemmas *)

(** The four classes of a non-ASCII lead byte. *)
Lemma lead_classes b :
  is_ascii_byte b = false →
  (in_range 194 244 b = false ∧ in_range 194 223 b = false ∧ in_range 224 239 b = false
     ∧ in_range 240 244 b = false) ∨
  (in_range 194 244 b = true ∧ in_range 194 223 b = true) ∨
  (in_range 194 244 b = true ∧ in_range 194 223 b = false ∧ in_range 224 239 b = true
     ∧ (byte_val b =? 240)%N = false ∧ (byte_val b =? 244)%N = false) ∨
  (in_range 194 244 b = true ∧ in_range 194 223 b = false ∧ in_range 224 239 b = false
     ∧ in_range 240 244 b = true ∧ (byte_val b =? 224)%N = false ∧ (byte_val b =? 237)%N = false).
Proof.
  unfold is_ascii_byte, in_range. rewrite !andb_false_iff, !andb_true_iff, !N.leb_gt, !N.leb_le, !N.eqb_neq.
  lia.
Qed.

Lemma utf8_scan_valid s : ∀ pos, utf8_scan pos s = None ↔ utf8_valid s = true.
Proof.
  induction s as [s IH] using (induction_ltof1 _ (@length byte)). unfold ltof in IH. intros pos.
  destruct s as [|b0 s1]; [done|]. cbn [utf8_scan utf8_valid].
  destruct (is_ascii_byte b0) eqn:E0; [apply IH; simpl; lia|].
  destruct (lead_classes b0 E0)
    as [(-> & -> & -> & ->)|[(-> & ->)|[(-> & -> & -> & H1 & H2)|(-> & -> & -> & -> & H1 & H2)]]];
    cbn [negb]; destruct s1 as [|b1 s2]; try done.
  - by destruct s2 as [|? [|? ?]].
  - destruct (is_continuation b1); simpl; [apply IH; simpl; lia|done].
  - unfold second_ok. rewrite H1, H2. destruct s2 as [|b2 s3].
    { by destruct (negb _). }
    destruct (if (byte_val b0 =? 224)%N then _ else _); simpl; [|done].
    destruct (is_continuation b2); simpl; [apply IH; simpl; lia|done].
  - unfold second_ok. rewrite H1, H2. destruct s2 as [|b2 s3].
    { by destruct (negb _). }
    destruct (if (byte_val b0 =? 240)%N then _ else _); simpl.
    + destruct (is_continuation b2); simpl; destruct s3 as [|b3 s4]; try done.
      destruct (is_continuation b3); simpl; [apply IH; simpl; lia|done].
    + by destruct s3.
Qed.

(** What precedes the first error is valid. *)
Lemma utf8_scan_prefix s : ∀ pos v e,
  utf8_scan pos s = Some (v, e) →
  pos ≤ v ∧ v - pos < length s ∧ utf8_valid (take (v - pos) s) = true.
Proof.
  induction s as [s IH] using (induction_ltof1 _ (@length byte)). unfold ltof in IH. intros pos v e.
  destruct s as [|b0 s1]; [done|]. cbn [utf8_scan].
  assert (pos ≤ pos ∧ pos - pos < length (b0 :: s1) ∧ utf8_valid (take (pos - pos) (b0 :: s1)) = true)
    as Hhere by (rewrite Nat.sub_diag; simpl; split_and!; [done|lia|done]).
  destruct (is_ascii_byte b0) eqn:E0.
  { intros (Hp & Hl & Hv)%IH; [|simpl; lia]. split_and!; [lia|simpl; lia|].
    replace (v - pos) with (S (v - S pos)) by lia. cbn [take utf8_valid]. by rewrite E0. }
  destruct (lead_classes b0 E0)
    as [(-> & _)|[(-> & H0)|[(-> & H0 & H0' & H1 & H2)|(-> & H0 & H0' & H0'' & H1 & H2)]]];
    cbn [negb]; [by intros [= <- <-]|..]; rewrite ?H0; destruct s1 as [|b1 s2];
    try by intros [= <- <-].
  - destruct (is_continuation b1) eqn:E1; [|by intros [= <- <-]].
    intros (Hp & Hl & Hv)%IH; [|simpl; lia]. split_and!; [lia|simpl; lia|].
    replace (v - pos) with (S (S (v - (2 + pos)))) by lia. cbn [take utf8_valid]. by rewrite E0, H0, E1.
  - unfold second_ok. rewrite H1, H2. destruct (if (byte_val b0 =? 224)%N then _ else _) eqn:E1;
      cbn [negb]; [|by intros [= <- <-]].
    destruct s2 as [|b2 s3]; [by intros [= <- <-]|].
    destruct (is_continuation b2) eqn:E2; cbn [negb]; [|by intros [= <- <-]].
    rewrite H0'. intros (Hp & Hl & Hv)%IH; [|simpl; lia]. split_and!; [lia|simpl; lia|].
    replace (v - pos) with (S (S (S (v - (3 + pos))))) by lia. cbn [take utf8_valid].
    by rewrite E0, H0, H0', E1, E2.
  - unfold second_ok. rewrite H1, H2. destruct (if (byte_val b0 =? 240)%N then _ else _) eqn:E1;
      cbn [negb]; [|by intros [= <- <-]].
    destruct s2 as [|b2 s3]; [by intros [= <- <-]|].
    destruct (is_continuation b2) eqn:E2; cbn [negb]; [|by intros [= <- <-]].
    rewrite H0'. destruct s3 as [|b3 s4]; [by intros [= <- <-]|].
    destruct (is_continuation b3) eqn:E3; [|by intros [= <- <-]].
    intros (Hp & Hl & Hv)%IH; [|simpl; lia]. split_and!; [lia|simpl; lia|].
    replace (v - pos) with (S (S (S (S (v - (4 + pos)))))) by lia. cbn [take utf8_valid].
    by rewrite E0, H0, H0', H0'', E1, E2, E3.
Qed.

Lemma utf8_error_None s : utf8_error s = None ↔ utf8_valid s = true.
Proof. apply utf8_scan_valid. Qed.
Lemma utf8_error_prefix s v e :
  utf8_error s = Some (v, e) → v < length s ∧ utf8_valid (take v s) = true.
Proof. intros (_ & Hl & Hv)%utf8_scan_prefix. by rewrite Nat.sub_0_r in *. Qed.

Lemma to_string_lossy_valid s : utf8_valid s = true → to_string_lossy s = s.
Proof.
  intros Hs%utf8_error_None. unfold to_string_lossy. destruct (length s); [done|]. simpl. by rewrite Hs.
Qed.

(** *** Paths *)

Lemma split_on_no_sep sep s : Forall (λ x, sep ∉ x) (split_on sep s).
Proof.
  induction s as [|c s IH]; simpl; [constructor; [set_solver|constructor]|].
  case_bool_decide as Hc; [constructor; [set_solver|done]|].
  destruct (split_on sep s) as [|g rest]; constructor; apply Forall_cons in IH as [??] || idtac;
    try done; set_solver.
Qed.

Lemma split_join_on sep raw :
  Forall (λ x, sep ∉ x) raw → raw ≠ [] → split_on sep (join_on sep raw) = raw.
Proof.
  induction 1 as [|s raw Hs Hraw IH]; intros Hne; [done|]. destruct raw as [|s' raw].
  - simpl. by apply split_on_none.
  - change (join_on sep (s :: s' :: raw)) with (s ++ sep :: join_on sep (s' :: raw)).
    by rewrite split_on_app, IH.
Qed.

Definition names (raw : list bytes) : list bytes := List.filter (λ s, negb (skipped s)) raw.

Lemma path_segments_join raw :
  Forall (λ x, SLASH ∉ x) raw → path_segments (join_on SLASH raw) = names raw.
Proof.
  intros Hraw. destruct raw as [|s raw]; [done|]. unfold path_segments.
  by rewrite split_join_on.
Qed.

Lemma names_app a b : names (a ++ b) = names a ++ names b.
Proof. apply List.filter_app. Qed.
Lemma names_rev a : names (rev a) = rev (names a).
Proof. unfold names. induction a as [|s a IH]; [done|]. simpl rev. rewrite List.filter_app, IH.
  simpl. destruct (negb (skipped s)); simpl; [done|by rewrite app_nil_r]. Qed.
Lemma names_trim_left raw : names (trim_left raw) = names raw.
Proof. induction raw as [|s raw IH]; [done|]. simpl. destruct (skipped s) eqn:E; simpl; [done|by rewrite E]. Qed.
Lemma names_trim_right raw : names (trim_right raw) = names raw.
Proof. unfold trim_right. by rewrite names_rev, names_trim_left, names_rev, rev_involutive. Qed.
Lemma trim_left_suffix raw : ∃ a, raw = a ++ trim_left raw.
Proof.
  induction raw as [|s raw [a IH]]; [by exists []|]. simpl. destruct (skipped s); [|by exists []].
  exists (s :: a). by rewrite IH at 1.
Qed.
Lemma trim_right_prefix raw : ∃ a, raw = trim_right raw ++ a.
Proof.
  destruct (trim_left_suffix (rev raw)) as [a Ha]. exists (rev a). unfold trim_right.
  by rewrite <-rev_app_distr, <-Ha, rev_involutive.
Qed.
Lemma no_sep_trim_left raw : Forall (λ x, SLASH ∉ x) raw → Forall (λ x, SLASH ∉ x) (trim_left raw).
Proof. destruct (trim_left_suffix raw) as [a Ha]. rewrite Ha at 1. by rewrite Forall_app; intros []. Qed.
Lemma no_sep_trim_right raw : Forall (λ x, SLASH ∉ x) raw → Forall (λ x, SLASH ∉ x) (trim_right raw).
Proof. destruct (trim_right_prefix raw) as [a Ha]. rewrite Ha at 1. by rewrite Forall_app; intros []. Qed.
#[local] Hint Resolve no_sep_trim_left no_sep_trim_right split_on_no_sep : core.

Lemma strip_segments_names prefix raw rest :
  strip_segments prefix raw = Some rest →
  names raw = prefix ++ names rest ∧ ∃ a, raw = a ++ rest.
Proof.
  revert raw; induction prefix as [|b prefix IH]; intros raw; simpl; [intros [= ->]; split; [done|by exists []]|].
  destruct (trim_left raw) as [|s raw'] eqn:E; [done|]. destruct (bytes_eqb s b) eqn:Eb; [|done].
  apply bytes_eqb_true in Eb as ->. intros [Hn [a Ha]]%IH.
  rewrite <-names_trim_left, E. split.
  - simpl. replace (skipped b) with false; simpl; [by rewrite Hn|].
    clear -E. symmetry. induction raw as [|x raw IH]; [done|]. simpl in E.
    destruct (skipped x) eqn:Ex; [auto|]. by simplify_eq.
  - destruct (trim_left_suffix raw) as [a' Ha']. exists (a' ++ b :: a).
    rewrite Ha', E, Ha. by rewrite <-app_assoc.
Qed.

(** A stripped path names what followed the prefix. *)
Lemma strip_prefix_segments p base rel :
  strip_prefix p base = Some rel → path_segments p = path_segments base ++ path_segments rel.
Proof.
  unfold strip_prefix. destruct (strip_segments _ _) as [rest|] eqn:E; [|done]. simpl. intros [= <-].
  apply strip_segments_names in E as [Hn [a Ha]].
  rewrite path_segments_join, names_trim_right, names_trim_left; [done|].
  apply no_sep_trim_right, no_sep_trim_left. pose proof (split_on_no_sep SLASH p) as H.
  rewrite Ha in H. by apply Forall_app in H as [_ ?].
Qed.

Lemma trim_left_head raw : trim_left raw = [] ∨ ∃ s r, trim_left raw = s :: r ∧ skipped s = false.
Proof.
  induction raw as [|s raw IH]; [by left|]. simpl. destruct (skipped s) eqn:E; [done|].
  right. by exists s, raw.
Qed.

Lemma trim_right_last raw :
  trim_right raw = [] ∨ ∃ r s, trim_right raw = r ++ [s] ∧ skipped s = false.
Proof.
  unfold trim_right. destruct (trim_left_head (rev raw)) as [->|(s & r & -> & Hs)]; [by left|].
  right. exists (rev r), s. by split.
Qed.

Lemma path_segments_names p : path_segments p = names (split_on SLASH p).
Proof. done. Qed.

(** The parent of a path that ends in a name. *)
Lemma relative_parent_segments p n :
  last (path_segments p) = Some n → path_segments p = path_segments (relative_parent p) ++ [n].
Proof.
  intros Hn. unfold relative_parent.
  rewrite path_segments_join, names_trim_right.
  2: { apply no_sep_trim_right. pose proof (no_sep_trim_right _ (split_on_no_sep SLASH p)) as H.
       destruct (trim_right_last (split_on SLASH p)) as [E|(r & s & E & _)]; rewrite E in *; [done|].
       rewrite removelast_last. by apply Forall_app in H as [? _]. }
  rewrite path_segments_names, <-names_trim_right in Hn |- *.
  destruct (trim_right_last (split_on SLASH p)) as [E|(r & s & E & Hs)]; rewrite E in *; [done|].
  rewrite removelast_last, names_app in *. unfold names in Hn at 2. unfold names at 3. simpl in *.
  rewrite Hs in *. simpl in *. rewrite last_snoc in Hn. by simplify_eq.
Qed.

Lemma file_name_Some p n :
  file_name p = Some n ↔ last (path_segments p) = Some n ∧ n ≠ bs "..".
Proof.
  unfold file_name. destruct (last _) as [x|]; simpl; [|by split; [|intros []]].
  destruct (bytes_eqb x (bs "..")) eqn:E; reflect_guards; [|naive_solver].
  split; [done|]. by intros [[= <-] ?].
Qed.

(** What [components] lists of a relative path that starts with a name. *)
Lemma components_relative p :
  is_absolute p = false → head (split_on SLASH p) ≠ Some (bs ".") →
  components p = segment_component <$> path_segments p.
Proof.
  intros Ha Hh. unfold components. rewrite Ha.
  destruct (head (split_on SLASH p)) as [s|]; simpl; [|done].
  destruct (bytes_eqb s (bs ".")) eqn:E; [|done]. reflect_guards. by subst.
Qed.

(** A stripped path is relative and starts with a name. *)
Lemma strip_prefix_components p base rel :
  strip_prefix p base = Some rel → components rel = segment_component <$> path_segments rel.
Proof.
  unfold strip_prefix. destruct (strip_segments _ _) as [raw|] eqn:E; [|done]. simpl. intros [= <-].
  assert (Forall (λ x, SLASH ∉ x) raw) as Hraw.
  { apply strip_segments_names in E as [_ [a Ha]]. pose proof (split_on_no_sep SLASH p) as H.
    rewrite Ha in H. by apply Forall_app in H as [_ ?]. }
  clear E. set (r := trim_right (trim_left raw)).
  assert (Forall (λ x, SLASH ∉ x) r) as Hr by (by apply no_sep_trim_right, no_sep_trim_left).
  destruct r as [|s r'] eqn:Er; [done|].
  assert (skipped s = false) as Hs.
  { destruct (trim_right_prefix (trim_left raw)) as [a Ha]. subst r. rewrite Er in Ha. simpl in Ha.
    destruct (trim_left_head raw) as [E|(s' & r'' & E & Hs)]; rewrite E in Ha; by simplify_eq. }
  unfold skipped in Hs. apply orb_false_iff in Hs as [Hne Hdot]. reflect_guards.
  apply components_relative.
  - apply Forall_cons in Hr as [Hr _]. destruct s as [|b s]; [done|].
    unfold is_absolute. apply bool_decide_eq_false. intros Hb. apply Hr.
    destruct r'; simpl in Hb; simplify_eq; by apply list_elem_of_here.
  - rewrite split_join_on by done. simpl. by intros [= ->].
Qed.
