(* ===== verification/AppErrors.v ===== *)
(** * The server's error type

    [src/src/error.rs]: the errors of the filesystem tools and their public HTTP
    responses; and the operating-system errors they carry. *)

From S2P Require Import Prelude.

(** [rustix::io::Errno], with the values the program tells apart, and
    [std::io::Error], made of a raw error or of a message. *)
Inductive Errno := NOENT | EXIST | AGAIN | LOOP | OtherErrno (raw : N).
Inductive IoError := RawOs (errno : Errno) | OtherIo (message : bytes).

#[global] Instance errno_eq_dec : EqDecision Errno.
Proof. solve_decision. Defined.
#[global] Instance io_error_eq_dec : EqDecision IoError.
Proof. solve_decision. Defined.

Module AppErrors.

Definition INVALID_BINARY_RANGE_PUBLIC_MESSAGE : bytes := bs "Requested binary range is not valid".
Definition INVALID_TEXT_RANGE_PUBLIC_MESSAGE : bytes := bs "Requested text range is not valid".

Inductive AppError :=
| PathTraversal (attempted : bytes)
| FileTooLarge (size max_size : N)
| InvalidFileEncoding
| InvalidBinaryRange
| InvalidTextRange
| FileChangedDuringRead
| InvalidFindQuery
| InvalidSearchQuery
| PathNotFound
| UnsupportedPathType
| PathAlreadyExists
| CopySourceNotFound
| CopyDestinationParentNotFound
| CopySourceDestinationSame
| CopySourceChanged
| CopyDestinationChanged
| CopyMutationAuthorizationRequired
| TrashTargetChanged
| TrashMutationAuthorizationRequired
| TrashQuarantineCapacityExceeded
| TrashQuarantineBusy
| WritePayloadTooLarge (size max_size : N)
| WriteTargetChanged
| WriteMutationAuthorizationRequired
| CreateDirectoryMutationAuthorizationRequired
| WriteQuarantineCapacityExceeded
| WriteQuarantineBusy
| Io (error : IoError)
| Unauthorized.

#[global] Instance app_error_eq_dec : EqDecision AppError.
Proof. solve_decision. Defined.

(** Status codes are the numbers of the [StatusCode] constants. *)
Definition public_response (e : AppError) : N * bytes :=
  match e with
  | Unauthorized => (401%N, bs "Authentication failed")
  | PathTraversal _ => (403%N, bs "Requested path is not permitted")
  | FileTooLarge _ _ => (413%N, bs "File exceeds the configured read limit")
  | InvalidFileEncoding => (422%N, bs "File content must be valid UTF-8")
  | InvalidBinaryRange => (400%N, INVALID_BINARY_RANGE_PUBLIC_MESSAGE)
  | InvalidTextRange => (400%N, INVALID_TEXT_RANGE_PUBLIC_MESSAGE)
  | FileChangedDuringRead => (409%N, bs "File changed during the bounded read")
  | InvalidFindQuery => (400%N, bs "Path-discovery query does not satisfy the literal basename contract")
  | InvalidSearchQuery => (400%N, bs "Search query does not satisfy the literal text-search contract")
  | PathNotFound => (404%N, bs "Requested filesystem object does not exist")
  | UnsupportedPathType => (422%N, bs "Requested filesystem object type is not supported")
  | PathAlreadyExists => (409%N, bs "Requested filesystem destination already exists")
  | CopySourceNotFound => (404%N, bs "Requested copy source does not exist")
  | CopyDestinationParentNotFound => (404%N, bs "Requested copy destination parent does not exist")
  | CopySourceDestinationSame => (400%N, bs "Copy source and destination must be different paths")
  | CopySourceChanged => (409%N, bs "Copy source changed after validation")
  | CopyDestinationChanged => (409%N, bs "Copy destination changed after validation")
  | CopyMutationAuthorizationRequired => (403%N, bs "Copy mutation requires request-scoped authorization")
  | TrashTargetChanged => (409%N, bs "Trash target changed after validation")
  | TrashMutationAuthorizationRequired => (403%N, bs "Trash mutation requires request-scoped authorization")
  | TrashQuarantineCapacityExceeded => (507%N, bs "Trash recovery quarantine capacity is exhausted")
  | TrashQuarantineBusy => (409%N, bs "Trash recovery quarantine is busy")
  | WritePayloadTooLarge _ _ => (413%N, bs "Write payload exceeds the configured limit")
  | WriteTargetChanged => (409%N, bs "Write target changed after validation")
  | WriteMutationAuthorizationRequired => (403%N, bs "Write mutation requires request-scoped authorization")
  | CreateDirectoryMutationAuthorizationRequired => (403%N, bs "Directory mutation requires request-scoped authorization")
  | WriteQuarantineCapacityExceeded => (507%N, bs "Write recovery quarantine capacity is exhausted")
  | WriteQuarantineBusy => (409%N, bs "Write recovery quarantine is busy")
  | Io _ => (500%N, bs "Internal server error")
  end.

End AppErrors.
