(* ===== verification/Http.v ===== *)
(** * Requests, responses and JSON values

    What the middleware and the envelope validator see of the HTTP and JSON
    crates: a header map is the list of its (lower-case name, value) entries, a
    response its status, headers and body, a JSON value [serde_json::Value].
    The crates' own code is the class [HttpLib]; the documented behaviour the
    source relies on is [HttpLibLaws]. *)

From S2P Require Import Prelude RustStd.

(** [serde_json::Number]: its three representations. *)
Inductive JsonNumber := PosInt (n : N) | NegInt (z : Z) | Float (repr : bytes).

Inductive Json :=
| JNull
| JBool (b : bool)
| JNumber (n : JsonNumber)
| JString (s : bytes)
| JArray (l : list Json)
| JObject (members : list (bytes * Json)).

(** [serde_json::Map::get]. *)
Fixpoint json_get (key : bytes) (members : list (bytes * Json)) : option Json :=
  match members with
  | [] => None
  | (k, v) :: rest => if bytes_eqb k key then Some v else json_get key rest
  end.

Abbreviation Headers := (list (bytes * bytes)) (only parsing).

(** [HeaderMap::get_all], [get] and [insert]. *)
Definition header_get_all (h : Headers) (name : bytes) : list bytes :=
  (List.filter (λ kv, bytes_eqb kv.1 name) h).*2.
Definition header_get (h : Headers) (name : bytes) : option bytes := head (header_get_all h name).
Definition header_insert (h : Headers) (name value : bytes) : Headers :=
  List.filter (λ kv, negb (bytes_eqb kv.1 name)) h ++ [(name, value)].

Inductive Body := JsonBody (value : Json) | OpaqueBody (content : bytes).

Record Response := mkResponse {
  status : N;
  headers : Headers;
  body : Body;
}.

Definition AUTHORIZATION : bytes := bs "authorization".
Definition WWW_AUTHENTICATE : bytes := bs "www-authenticate".
Definition CACHE_CONTROL : bytes := bs "cache-control".
Definition CONTENT_LENGTH : bytes := bs "content-length".
Definition CONTENT_TYPE : bytes := bs "content-type".
Definition RETRY_AFTER : bytes := bs "retry-after".

(** Third-party code: [HeaderValue::to_str], the headers of axum's [Json]
    response, and [serde_json::from_slice] (an error carries its text). *)
Class HttpLib := {
  header_to_str : bytes → option bytes;
  json_response_headers : Headers;
  json_from_slice : bytes → Result bytes Json;
}.

(** [to_str] returns the value itself, and does so at least on visible ASCII and
    spaces; a [Json] response has exactly the content type application/json. *)
Class HttpLibLaws (L : HttpLib) : Prop := {
  header_to_str_Some v s : header_to_str v = Some s → s = v;
  header_to_str_visible v :
    forallb (in_range 32 126) v = true → header_to_str v = Some v;
  json_content_type :
    header_get_all json_response_headers CONTENT_TYPE = [bs "application/json"];
}.

(** [(status, Json(value)).into_response()]. *)
Definition json_response `{HttpLib} (status : N) (value : Json) : Response :=
  mkResponse status json_response_headers (JsonBody value).
Definition with_header (r : Response) (name value : bytes) : Response :=
  mkResponse (status r) (header_insert (headers r) name value) (body r).

(** A concrete instance for the worked examples: the parser knows two bodies. *)
Definition example_http : HttpLib := {|
  header_to_str v := if forallb (in_range 32 126) v then Some v else None;
  json_response_headers := [(CONTENT_TYPE, bs "application/json")];
  json_from_slice b :=
    if bytes_eqb b (bs "ping")
    then Ok (JObject [(bs "jsonrpc", JString (bs "2.0")); (bs "method", JString (bs "ping"));
                      (bs "id", JNumber (PosInt 1))])
    else Err (bs "expected value");
|}.

Lemma example_http_laws : HttpLibLaws example_http.
Proof.
  constructor; cbn [header_to_str json_response_headers example_http].
  - intros v s. by destruct (forallb _ _); intros; simplify_eq.
  - by intros v ->.
  - reflexivity.
Defined.

Lemma header_get_all_insert h name value :
  header_get_all (header_insert h name value) name = [value].
Proof.
  unfold header_get_all, header_insert. rewrite List.filter_app. simpl. rewrite bytes_eqb_refl.
  assert (List.filter (λ kv, bytes_eqb kv.1 name)
    (List.filter (λ kv, negb (bytes_eqb kv.1 name)) h) = []) as ->; [|done].
  induction h as [|kv h IH]; simpl; [done|]. destruct (bytes_eqb kv.1 name) eqn:E; simpl; [done|].
  by rewrite E.
Qed.

Lemma header_get_all_insert_ne h name name' value :
  name ≠ name' → header_get_all (header_insert h name value) name' = header_get_all h name'.
Proof.
  intros Hne. unfold header_get_all, header_insert. rewrite List.filter_app. simpl.
  rewrite (proj2 (bytes_eqb_false _ _)) by done. rewrite app_nil_r. f_equal.
  induction h as [|kv h IH]; simpl; [done|].
  destruct (bytes_eqb kv.1 name) eqn:E; simpl.
  - apply bytes_eqb_true in E. rewrite E, (proj2 (bytes_eqb_false _ _)) by done. done.
  - destruct (bytes_eqb kv.1 name'); simpl; by rewrite IH.
Qed.
