(* ===== verification/RequestGrantCapability.v ===== *)
(** * Grant families and the cryptographic interface

    [src/src/request_grant_capability.rs]: the registry of wire codes that the
    five request-grant families sign into their tokens, and the header they
    share.  The HMAC, SHA-256 and UUID crates are not part of the repository;
    what the grant modules use of them is the class [Crypto], and what they rely
    on (output widths, the UUID print/parse round trip) is [CryptoLaws]. *)

From S2P Require Import Prelude.

(** Third-party code: [sha2::Sha256], [hmac::Hmac<Sha256>] (which accepts a key
    of any length) and the [uuid] crate ([Uuid::parse_str] followed by
    [as_bytes], and [Uuid::to_string]). *)
Class Crypto := {
  sha256 : bytes → bytes;
  hmac_sha256 : bytes → bytes → bytes;
  uuid_parse_str : bytes → option bytes;
  uuid_to_string : bytes → bytes;
}.

(** The documented behaviour the grants rely on: fixed output widths, and a
    UUID is sixteen bytes whose printed form parses back to it. *)
Class CryptoLaws (C : Crypto) : Prop := {
  sha256_length m : length (sha256 m) = 32;
  hmac_sha256_length k m : length (hmac_sha256 k m) = 32;
  uuid_parse_str_length s u : uuid_parse_str s = Some u → length u = 16;
  uuid_parse_to_string u : length u = 16 → uuid_parse_str (uuid_to_string u) = Some u;
}.

Definition REQUEST_GRANT_HEADER : bytes := bs "mcp-capability-grant".
Definition MAX_REQUEST_GRANT_HEADER_BYTES : nat := 384.

Module RequestGrantCapability.

Inductive t :=
| CreateDirectory
| WriteFile
| AndroidVolume
| CopyFile
| TrashFile.

#[global] Instance t_eq_dec : EqDecision t.
Proof. solve_decision. Defined.

Definition ALL : list t := [CreateDirectory; WriteFile; AndroidVolume; CopyFile; TrashFile].

(** [self as u8]: the declared discriminants. *)
Definition wire_code (c : t) : byte :=
  match c with
  | CreateDirectory => byte_of 1
  | WriteFile => byte_of 2
  | AndroidVolume => byte_of 3
  | CopyFile => byte_of 4
  | TrashFile => byte_of 5
  end.

#[global] Instance wire_code_inj : Inj (=) (=) wire_code.
Proof. by intros [] []. Qed.

End RequestGrantCapability.

(** A concrete instance of the interface, used by the worked examples of the
    development: a digest is the end of the padded message, a UUID prints as
    its bytes. *)
Definition example_crypto : Crypto := {|
  sha256 m := take 32 (rev m ++ replicate 32 x00);
  hmac_sha256 k m := take 32 (rev m ++ k ++ replicate 32 x00);
  uuid_parse_str s := if bool_decide (length s = 16) then Some s else None;
  uuid_to_string u := u;
|}.

Lemma example_crypto_laws : CryptoLaws example_crypto.
Proof.
  constructor; cbn [sha256 hmac_sha256 uuid_parse_str uuid_to_string example_crypto].
  - intros m. rewrite length_take, length_app, length_replicate. lia.
  - intros k m. rewrite length_take, !length_app, length_replicate. lia.
  - intros s u. case_bool_decide; intros; by simplify_eq.
  - intros u Hu. by rewrite bool_decide_true.
Defined.

Definition example_session : bytes := bs "0194f9f9bbbb7ccc".
Definition example_id : bytes := bs "grant-identifier".
Definition example_key : bytes := bs "0123456789abcdef0123456789abcdef".
