(* ===== verification/GrantReplay.v ===== *)
(** * Replay protection shared by the grant authorities

    [src/src/grant_replay.rs].  A [ReplayState] is the body of one namespace's
    mutex; [ReplayWorld] is the process: the heap of [Arc<Mutex<ReplayState>>]
    allocations (a [SharedReplayState] is a handle into it, so clones alias) and
    the process-global registry behind its [OnceLock].  A panic while a lock is
    held poisons it; poisoning is an environment step. *)

From S2P Require Import Prelude RequestGrantCapability.

Module SharedReplayError.
Inductive t :=
| Expired
| FutureIssued
| LifetimeExceeded
| Replayed
| ClockRollback
| CapacityExhausted
| StateUnavailable.

#[global] Instance t_eq_dec : EqDecision t.
Proof. solve_decision. Defined.
End SharedReplayError.
Import SharedReplayError (Expired, FutureIssued, LifetimeExceeded, Replayed,
  ClockRollback, CapacityExhausted, StateUnavailable).

Abbreviation ReplayResult := (Result SharedReplayError.t).

(* ------------------------------------------------------------------ *)
(** ** One namespace *)

Record ReplayState := mkReplayState {
  consumed : gmap bytes N;
  last_observed_unix_seconds : option N;
  capacity : N;
}.

Definition ReplayState_new (capacity : N) : ReplayState :=
  mkReplayState ∅ None capacity.

(** [state.consumed.retain(|_, expiry| *expiry > now)] and the set it leaves. *)
Definition live_map (now : N) (m : gmap bytes N) : gmap bytes N :=
  filter (λ kv, now < kv.2)%N m.
Arguments live_map : simpl never.

(** [SharedReplayState::consume] once the lock is held. *)
Definition consume (st : ReplayState) (grant_id : bytes)
    (issued_unix_seconds expires_unix_seconds now_unix_seconds : N)
    (maximum_lifetime_seconds maximum_future_skew_seconds : N)
    : ReplayState * ReplayResult unit :=
  if match last_observed_unix_seconds st with
     | Some last => (now_unix_seconds <? last)%N
     | None => false
     end
  then (st, Err ClockRollback)
  else
    let st := mkReplayState (consumed st) (Some now_unix_seconds) (capacity st) in
    match checked_sub64 expires_unix_seconds issued_unix_seconds with
    | None => (st, Err LifetimeExceeded)
    | Some lifetime =>
      if (lifetime =? 0)%N || (maximum_lifetime_seconds <? lifetime)%N
      then (st, Err LifetimeExceeded)
      else if (saturating_add64 now_unix_seconds maximum_future_skew_seconds
               <? issued_unix_seconds)%N
      then (st, Err FutureIssued)
      else if (expires_unix_seconds <=? now_unix_seconds)%N
      then (st, Err Expired)
      else
        let kept := live_map now_unix_seconds (consumed st) in
        let st := mkReplayState kept (last_observed_unix_seconds st) (capacity st) in
        if bool_decide (is_Some (kept !! grant_id))
        then (st, Err Replayed)
        else if (capacity st <=? N.of_nat (size kept))%N
        then (st, Err CapacityExhausted)
        else (mkReplayState (<[grant_id := expires_unix_seconds]> kept)
                (last_observed_unix_seconds st) (capacity st), Ok ())
    end.

Definition require_capacity (st : ReplayState) (requested_capacity : N) : ReplayResult unit :=
  if (capacity st =? requested_capacity)%N then Ok () else Err StateUnavailable.

(* ------------------------------------------------------------------ *)
(** ** The process: handles, mutexes, registry *)

(** A [SharedReplayState] is a strong reference to one allocation. *)
Abbreviation SharedReplayState := nat (only parsing).

Record ReplayRegistry := mkReplayRegistry {
  states : gmap bytes SharedReplayState;
  namespace_capacity : nat;
}.

Definition ReplayRegistry_new (namespace_capacity : nat) : ReplayRegistry :=
  mkReplayRegistry ∅ namespace_capacity.

Definition MAX_SHARED_REPLAY_NAMESPACES : nat := 256.

Record ReplayWorld := mkReplayWorld {
  heap : gmap nat (Mutex ReplayState);
  next_handle : nat;
  registry : option (Mutex ReplayRegistry);
}.

Definition initial_world : ReplayWorld := mkReplayWorld ∅ 0 None.

(** [Arc::new(Mutex::new(..))]. *)
Definition alloc (w : ReplayWorld) (st : ReplayState) : ReplayWorld * SharedReplayState :=
  (mkReplayWorld (<[next_handle w := Mutex_new st]> (heap w)) (S (next_handle w)) (registry w),
   next_handle w).

Definition set_registry (w : ReplayWorld) (r : Mutex ReplayRegistry) : ReplayWorld :=
  mkReplayWorld (heap w) (next_handle w) (Some r).

(** [inner.lock().map_err(|_| StateUnavailable)]. *)
Definition lock_state (w : ReplayWorld) (h : SharedReplayState) : ReplayResult ReplayState :=
  match heap w !! h with
  | Some m => if poisoned m then Err StateUnavailable else Ok (guarded m)
  | None => Err StateUnavailable
  end.

(** [SharedReplayState::consume]: lock, then [consume]. *)
Definition consume_shared (w : ReplayWorld) (h : SharedReplayState) (grant_id : bytes)
    (issued expires now maximum_lifetime maximum_skew : N) : ReplayWorld * ReplayResult unit :=
  match lock_state w h with
  | Err e => (w, Err e)
  | Ok st =>
    let '(st', r) := consume st grant_id issued expires now maximum_lifetime maximum_skew in
    (mkReplayWorld (<[h := Mutex_new st']> (heap w)) (next_handle w) (registry w), r)
  end.

(** [ReplayRegistry::resolve] on the registry [reg] of [w]. *)
Definition resolve (w : ReplayWorld) (reg : ReplayRegistry) (namespace : bytes)
    (replay_capacity : N) : ReplayWorld * ReplayResult SharedReplayState :=
  match states reg !! namespace with
  | Some h =>
    (w, st ← lock_state w h;
        _ ← require_capacity st replay_capacity;
        Ok h)
  | None =>
    if (namespace_capacity reg <=? size (states reg)) then (w, Err StateUnavailable)
    else
      let '(w, h) := alloc w (ReplayState_new replay_capacity) in
      (set_registry w (Mutex_new
         (mkReplayRegistry (<[namespace := h]> (states reg)) (namespace_capacity reg))), Ok h)
  end.

Definition resolve_locked (w : ReplayWorld) (reg : Mutex ReplayRegistry) (namespace : bytes)
    (replay_capacity : N) : ReplayWorld * ReplayResult SharedReplayState :=
  if poisoned reg then (w, Err StateUnavailable)
  else resolve w (guarded reg) namespace replay_capacity.

(** [SHARED_REPLAY_REGISTRY.get_or_init(..)]. *)
Definition get_or_init_registry (w : ReplayWorld) : ReplayWorld * Mutex ReplayRegistry :=
  match registry w with
  | Some reg => (w, reg)
  | None =>
    let reg := Mutex_new (ReplayRegistry_new MAX_SHARED_REPLAY_NAMESPACES) in
    (set_registry w reg, reg)
  end.

Section namespaces.
Context {C : Crypto}.

Definition NAMESPACE_DOMAIN : bytes := bs "termux-mcp:grant-replay-namespace:v1" ++ [x00].

(** What [replay_namespace] feeds the HMAC, and its digest. *)
Definition namespace_message (capability : RequestGrantCapability.t) (key_id : bytes)
    (principal_digest : bytes) : bytes :=
  NAMESPACE_DOMAIN ++ [RequestGrantCapability.wire_code capability]
  ++ be_bytes 8 (N.of_nat (length key_id)) ++ key_id ++ principal_digest.

Definition replay_namespace (capability : RequestGrantCapability.t) (key_id key : bytes)
    (principal_digest : bytes) : ReplayResult bytes :=
  if (u64_max <? N.of_nat (length key_id))%N then Err StateUnavailable
  else Ok (hmac_sha256 key (namespace_message capability key_id principal_digest)).

Definition shared_replay_state (w : ReplayWorld) (capability : RequestGrantCapability.t)
    (key_id key principal_digest : bytes) (replay_capacity : N)
    : ReplayWorld * ReplayResult SharedReplayState :=
  if (replay_capacity =? 0)%N then (w, Err StateUnavailable)
  else match replay_namespace capability key_id key principal_digest with
  | Err e => (w, Err e)
  | Ok namespace =>
    let '(w, reg) := get_or_init_registry w in
    resolve_locked w reg namespace replay_capacity
  end.
End namespaces.

(* ------------------------------------------------------------------ *)
(** ** Executions

    The events of a run of the process, in the order the locks are taken. *)

(** The arguments of one [consume] call. *)
Record GrantUse := mkGrantUse {
  use_id : bytes;
  use_issued : N;
  use_expires : N;
  use_now : N;
  use_max_lifetime : N;
  use_max_skew : N;
}.

Definition consume_use (st : ReplayState) (u : GrantUse) : ReplayState * ReplayResult unit :=
  consume st (use_id u) (use_issued u) (use_expires u) (use_now u)
    (use_max_lifetime u) (use_max_skew u).

Inductive event :=
| Consumed (h : SharedReplayState) (u : GrantUse) (r : ReplayResult unit)
| Resolved (namespace : bytes) (replay_capacity : N) (r : ReplayResult SharedReplayState)
| PoisonedState (h : SharedReplayState)
| PoisonedRegistry.

Inductive world_step : ReplayWorld → event → ReplayWorld → Prop :=
| step_consume w w' h u r :
    consume_shared w h (use_id u) (use_issued u) (use_expires u) (use_now u)
      (use_max_lifetime u) (use_max_skew u) = (w', r) →
    world_step w (Consumed h u r) w'
| step_resolve w w1 w' reg ns cap r :
    get_or_init_registry w = (w1, reg) →
    resolve_locked w1 reg ns cap = (w', r) →
    world_step w (Resolved ns cap r) w'
| step_poison_state w h m :
    heap w !! h = Some m →
    world_step w (PoisonedState h)
      (mkReplayWorld (<[h := mkMutex true (guarded m)]> (heap w)) (next_handle w) (registry w))
| step_poison_registry w reg :
    registry w = Some reg →
    world_step w PoisonedRegistry (set_registry w (mkMutex true (guarded reg))).

Inductive world_run : ReplayWorld → list event → ReplayWorld → Prop :=
| run_nil w : world_run w [] w
| run_cons w w' w'' e es : world_step w e w' → world_run w' es w'' → world_run w (e :: es) w''.

(* ------------------------------------------------------------------ *)
(** ** Abstract specification

    The log of every grant ever accepted, never pruned: a use is accepted when
    the clock has not gone back, its window is valid, no unexpired log entry has
    its identifier and fewer than [limit] log entries are unexpired. *)

Record ReplaySpec := mkReplaySpec {
  log : list (bytes * N);
  clock : option N;
  limit : N;
}.

Definition live_log (now : N) (l : list (bytes * N)) : list (bytes * N) :=
  filter (λ e, now < e.2)%N l.
Arguments live_log : simpl never.

Definition valid_window (u : GrantUse) : ReplayResult unit :=
  match checked_sub64 (use_expires u) (use_issued u) with
  | None => Err LifetimeExceeded
  | Some lifetime =>
    _ ← fail_if ((lifetime =? 0) || (use_max_lifetime u <? lifetime))%N LifetimeExceeded;
    _ ← fail_if (saturating_add64 (use_now u) (use_max_skew u) <? use_issued u)%N FutureIssued;
    fail_if (use_expires u <=? use_now u)%N Expired
  end.

Definition spec_consume (sp : ReplaySpec) (u : GrantUse) : ReplaySpec * ReplayResult unit :=
  if match clock sp with Some last => (use_now u <? last)%N | None => false end
  then (sp, Err ClockRollback)
  else
    let sp := mkReplaySpec (log sp) (Some (use_now u)) (limit sp) in
    match valid_window u with
    | Err e => (sp, Err e)
    | Ok _ =>
      if bool_decide (use_id u ∈ (live_log (use_now u) (log sp)).*1)
      then (sp, Err Replayed)
      else if (limit sp <=? N.of_nat (length (live_log (use_now u) (log sp))))%N
      then (sp, Err CapacityExhausted)
      else (mkReplaySpec ((use_id u, use_expires u) :: log sp) (clock sp) (limit sp), Ok ())
    end.

(** A sequence of uses against one namespace, and against the specification. *)
Fixpoint consume_all (st : ReplayState) (us : list GrantUse) : ReplayState * list (ReplayResult unit) :=
  match us with
  | [] => (st, [])
  | u :: us => let '(st, r) := consume_use st u in
               let '(st, rs) := consume_all st us in (st, r :: rs)
  end.
Fixpoint spec_consume_all (sp : ReplaySpec) (us : list GrantUse) : ReplaySpec * list (ReplayResult unit) :=
  match us with
  | [] => (sp, [])
  | u :: us => let '(sp, r) := spec_consume sp u in
               let '(sp, rs) := spec_consume_all sp us in (sp, r :: rs)
  end.

(** The abstraction relation: from the clock on, the retained map and the log
    have the same unexpired entries, each identifier once. *)
Definition refines (st : ReplayState) (sp : ReplaySpec) : Prop :=
  last_observed_unix_seconds st = clock sp ∧ capacity st = limit sp ∧
  ∀ now, (∀ last, clock sp = Some last → last ≤ now)%N →
    NoDup (live_log now (log sp)).*1 ∧
    live_map now (consumed st) = list_to_map (live_log now (log sp)).

(** [now] is not before the last observed time. *)
Definition clock_allows (last : option N) (now : N) : Prop :=
  ∀ l, last = Some l → (l ≤ now)%N.

(** The invariant of one namespace. *)
Definition ReplayState_ok (st : ReplayState) : Prop :=
  (N.of_nat (size (consumed st)) ≤ capacity st)%N ∧
  (consumed st ≠ ∅ → is_Some (last_observed_unix_seconds st)).

(** The invariant of the process. *)
Definition world_ok (w : ReplayWorld) : Prop :=
  (∀ h m, heap w !! h = Some m → h < next_handle w ∧ ReplayState_ok (guarded m)) ∧
  (∀ reg, registry w = Some reg →
     size (states (guarded reg)) ≤ namespace_capacity (guarded reg) ∧
     (∀ ns h, states (guarded reg) !! ns = Some h → is_Some (heap w !! h)) ∧
     (∀ ns ns' h, states (guarded reg) !! ns = Some h →
        states (guarded reg) !! ns' = Some h → ns = ns')).

(** A grant [(id, expires)] can no longer be accepted by [st]. *)
Definition spent (id : bytes) (expires : N) (st : ReplayState) : Prop :=
  ∃ last, last_observed_unix_seconds st = Some last ∧
    ((expires ≤ last)%N ∨ consumed st !! id = Some expires).

Definition spent_at (h : SharedReplayState) (id : bytes) (expires : N) (w : ReplayWorld) : Prop :=
  ∃ m, heap w !! h = Some m ∧ spent id expires (guarded m).

(** The outcomes of [consume], with what each does to the state. *)
Inductive consume_outcome (st : ReplayState) (u : GrantUse) : ReplayState → ReplayResult unit → Prop :=
| outcome_rollback last :
    last_observed_unix_seconds st = Some last → (use_now u < last)%N →
    consume_outcome st u st (Err ClockRollback)
| outcome_window e :
    clock_allows (last_observed_unix_seconds st) (use_now u) →
    valid_window u = Err e →
    consume_outcome st u (mkReplayState (consumed st) (Some (use_now u)) (capacity st)) (Err e)
| outcome_replayed e' :
    clock_allows (last_observed_unix_seconds st) (use_now u) →
    valid_window u = Ok () →
    live_map (use_now u) (consumed st) !! use_id u = Some e' →
    consume_outcome st u
      (mkReplayState (live_map (use_now u) (consumed st)) (Some (use_now u)) (capacity st))
      (Err Replayed)
| outcome_capacity :
    clock_allows (last_observed_unix_seconds st) (use_now u) →
    valid_window u = Ok () →
    live_map (use_now u) (consumed st) !! use_id u = None →
    (capacity st ≤ N.of_nat (size (live_map (use_now u) (consumed st))))%N →
    consume_outcome st u
      (mkReplayState (live_map (use_now u) (consumed st)) (Some (use_now u)) (capacity st))
      (Err CapacityExhausted)
| outcome_accepted :
    clock_allows (last_observed_unix_seconds st) (use_now u) →
    valid_window u = Ok () →
    live_map (use_now u) (consumed st) !! use_id u = None →
    (N.of_nat (size (live_map (use_now u) (consumed st))) < capacity st)%N →
    consume_outcome st u
      (mkReplayState (<[use_id u := use_expires u]> (live_map (use_now u) (consumed st)))
         (Some (use_now u)) (capacity st)) (Ok ()).

(* ------------------------------------------------------------------ *)
(** ** One namespace: lemmas *)

Lemma lookup_live_map now m i e :
  live_map now m !! i = Some e ↔ m !! i = Some e ∧ (now < e)%N.
Proof. unfold live_map. rewrite map_lookup_filter_Some. done. Qed.

Lemma size_live_map now m : size (live_map now m) ≤ size m.
Proof.
  unfold live_map.
  rewrite <-!size_dom. apply subseteq_size, dom_filter_subseteq.
Qed.

Lemma live_map_live_map now now' m :
  (now ≤ now')%N → live_map now' (live_map now m) = live_map now' m.
Proof.
  intros Hle. apply map_eq. intros i. apply option_eq. intros e.
  rewrite !lookup_live_map. naive_solver lia.
Qed.

(** [consume] written with [valid_window]. *)
Lemma consume_use_eq st u :
  consume_use st u =
  if match last_observed_unix_seconds st with Some l => (use_now u <? l)%N | None => false end
  then (st, Err ClockRollback)
  else match valid_window u with
  | Err e => (mkReplayState (consumed st) (Some (use_now u)) (capacity st), Err e)
  | Ok _ =>
    let kept := live_map (use_now u) (consumed st) in
    let st := mkReplayState kept (Some (use_now u)) (capacity st) in
    if bool_decide (is_Some (kept !! use_id u)) then (st, Err Replayed)
    else if (capacity st <=? N.of_nat (size kept))%N then (st, Err CapacityExhausted)
    else (mkReplayState (<[use_id u := use_expires u]> kept) (Some (use_now u)) (capacity st), Ok ())
  end.
Proof.
  unfold consume_use, consume, valid_window, fail_if. simpl.
  repeat (case_match; simpl in *; simplify_eq); done.
Qed.

Lemma consume_outcome_of st u st' r :
  consume_use st u = (st', r) → consume_outcome st u st' r.
Proof.
  rewrite consume_use_eq.
  destruct (match last_observed_unix_seconds st with Some l => (use_now u <? l)%N | None => false end) eqn:Hc.
  { case_match; simplify_eq. intros [= <- <-]. eapply outcome_rollback; [done|]. by apply N.ltb_lt. }
  assert (clock_allows (last_observed_unix_seconds st) (use_now u)) as Hclk.
  { intros l Hl. rewrite Hl in Hc. by apply N.ltb_ge. }
  destruct (valid_window u) as [[]|e] eqn:Hw; [|intros [= <- <-]; by apply outcome_window].
  simpl. destruct (live_map _ _ !! use_id u) as [e'|] eqn:Hl.
  { rewrite bool_decide_true by eauto. intros [= <- <-]. by eapply outcome_replayed. }
  rewrite bool_decide_false by (intros []; congruence).
  destruct (N.leb_spec (capacity st) (N.of_nat (size (live_map (use_now u) (consumed st)))));
    intros [= <- <-]; by constructor.
Qed.

Lemma valid_window_Ok u :
  valid_window u = Ok () ↔
  (use_issued u < use_expires u ≤ use_issued u + use_max_lifetime u ∧
   use_issued u ≤ saturating_add64 (use_now u) (use_max_skew u) ∧
   use_now u < use_expires u)%N.
Proof.
  unfold valid_window, checked_sub64.
  destruct (N.leb_spec (use_issued u) (use_expires u)); [|split; [done|lia]].
  unfold fail_if. repeat (case_match; simpl in *; simplify_eq); reflect_guards;
    split; intros; first [done | lia | exfalso; lia].
Qed.

Lemma valid_window_error u e :
  valid_window u = Err e → e = LifetimeExceeded ∨ e = FutureIssued ∨ e = Expired.
Proof.
  unfold valid_window, fail_if. intros H.
  repeat (case_match; simpl in *; simplify_eq); auto.
Qed.

(** [consume] never moves the clock back. *)
Lemma consume_clock st u st' r :
  consume_use st u = (st', r) →
  ∀ l, last_observed_unix_seconds st = Some l →
    ∃ l', last_observed_unix_seconds st' = Some l' ∧ (l ≤ l')%N.
Proof.
  intros H%consume_outcome_of l Hl. destruct H as [|? Hc|? Hc|Hc|Hc]; simpl; [by eauto| | | |];
    specialize (Hc _ Hl); eauto.
Qed.

Lemma consume_ok st u st' r :
  consume_use st u = (st', r) → ReplayState_ok st → ReplayState_ok st'.
Proof.
  intros H%consume_outcome_of [Hs Hl]. unfold ReplayState_ok.
  pose proof (size_live_map (use_now u) (consumed st)).
  destruct H; simpl in *; split; try done; try lia; try (by eexists).
  rewrite map_size_insert_None by done. lia.
Qed.

(** Once spent, a grant stays spent, and is refused. *)
Lemma spent_consume st u st' r id e :
  consume_use st u = (st', r) → spent id e st → spent id e st'.
Proof.
  intros H%consume_outcome_of (l & Hl & Hs). unfold spent.
  assert (∀ now, (l ≤ now)%N →
    (e ≤ now)%N ∨ live_map now (consumed st) !! id = Some e) as Hkeep.
  { intros now Hle. destruct (N.le_gt_cases e now) as [|Hlt]; [by left|right].
    destruct Hs as [|Hs]; [lia|]. by apply lookup_live_map. }
  destruct H as [|? Hc|? Hc|Hc|Hc]; simpl; [by eauto| | | |];
    specialize (Hc _ Hl); eexists; (split; [done|]).
  - destruct Hs; [left; lia|by right].
  - by apply Hkeep.
  - by apply Hkeep.
  - destruct (Hkeep _ Hc) as [|Hk]; [by left|right].
    rewrite lookup_insert_ne; [done|]. intros <-. congruence.
Qed.

Lemma spent_refused st u st' :
  spent (use_id u) (use_expires u) st → consume_use st u ≠ (st', Ok ()).
Proof.
  intros (l & Hl & Hs) H%consume_outcome_of. inversion H as [| | | |Hc Hw Hn]; subst.
  apply valid_window_Ok in Hw. specialize (Hc _ Hl).
  destruct Hs as [|Hs]; [lia|].
  rewrite (proj2 (lookup_live_map _ _ _ (use_expires u))) in Hn; [done|]. split; [done|lia].
Qed.

Lemma accepted_spent st u st' :
  consume_use st u = (st', Ok ()) → spent (use_id u) (use_expires u) st'.
Proof.
  intros H%consume_outcome_of. inversion H; subst.
  eexists; split; [done|]. right. apply lookup_insert_eq.
Qed.

(* ------------------------------------------------------------------ *)
(** ** Refinement: lemmas *)

Lemma elem_of_live_log now l id e :
  (id, e) ∈ live_log now l ↔ (id, e) ∈ l ∧ (now < e)%N.
Proof. unfold live_log. rewrite list_elem_of_filter. simpl. naive_solver. Qed.

Lemma live_log_live_log now now' l :
  (now ≤ now')%N → live_log now' (live_log now l) = live_log now' l.
Proof.
  intros Hle. unfold live_log. rewrite list_filter_filter.
  apply list_filter_iff. intros [id e]; simpl. lia.
Qed.

Lemma size_list_to_map (l : list (bytes * N)) :
  NoDup l.*1 → size (list_to_map l : gmap bytes N) = length l.
Proof.
  intros Hl. rewrite <-length_map_to_list. apply Permutation_length.
  by apply map_to_list_to_map.
Qed.

Lemma refines_new c : refines (ReplayState_new c) (mkReplaySpec [] None c).
Proof. split_and!; [done..|]. intros now _. split; [constructor|]. by apply map_filter_empty. Qed.

(** Pruning at the observed time keeps the abstraction. *)
Lemma refines_live st sp u :
  refines st sp → clock_allows (last_observed_unix_seconds st) (use_now u) →
  refines (mkReplayState (live_map (use_now u) (consumed st)) (Some (use_now u)) (capacity st))
    (mkReplaySpec (log sp) (Some (use_now u)) (limit sp)).
Proof.
  intros (Hcl & Hcap & Hm) Hc. rewrite Hcl in Hc. split_and!; simpl; [done..|].
  intros now Hnow. specialize (Hnow _ eq_refl).
  destruct (Hm now) as [? Heq]; [intros ? Hl; specialize (Hc _ Hl); lia|].
  by rewrite live_map_live_map.
Qed.

Lemma refines_keep st sp u :
  refines st sp → clock_allows (last_observed_unix_seconds st) (use_now u) →
  refines (mkReplayState (consumed st) (Some (use_now u)) (capacity st))
    (mkReplaySpec (log sp) (Some (use_now u)) (limit sp)).
Proof.
  intros (Hcl & Hcap & Hm) Hc. rewrite Hcl in Hc. split_and!; simpl; [done..|].
  intros now Hnow. specialize (Hnow _ eq_refl). apply Hm. intros ? Hl. specialize (Hc _ Hl). lia.
Qed.

(** What the code reads off the pruned map is what the specification reads off
    the log. *)
Lemma refines_reads st sp now :
  refines st sp → clock_allows (last_observed_unix_seconds st) now →
  (∀ id, is_Some (live_map now (consumed st) !! id) ↔ id ∈ (live_log now (log sp)).*1) ∧
  size (live_map now (consumed st)) = length (live_log now (log sp)).
Proof.
  intros (Hcl & Hcap & Hm) Hc. rewrite Hcl in Hc. destruct (Hm now Hc) as [Hnd Heq].
  rewrite Heq. split; [|by apply size_list_to_map].
  intros id. rewrite <-elem_of_dom, dom_list_to_map_L, elem_of_list_to_set. done.
Qed.

Lemma refines_accept st sp u :
  refines st sp → clock_allows (last_observed_unix_seconds st) (use_now u) →
  valid_window u = Ok () →
  use_id u ∉ (live_log (use_now u) (log sp)).*1 →
  refines (mkReplayState (<[use_id u := use_expires u]> (live_map (use_now u) (consumed st)))
             (Some (use_now u)) (capacity st))
    (mkReplaySpec ((use_id u, use_expires u) :: log sp) (Some (use_now u)) (limit sp)).
Proof.
  intros Hr Hc Hw Hid. pose proof (refines_live _ _ _ Hr Hc) as (_ & Hcap & Hm).
  simpl in *. split_and!; simpl; [done..|].
  intros now Hnow. destruct (Hm now Hnow) as [Hnd Heq]. specialize (Hnow _ eq_refl).
  assert (use_id u ∉ (live_log now (log sp)).*1) as Hid'.
  { rewrite list_elem_of_fmap in *. intros ([i e] & Hi & [Hin Hlt]%elem_of_live_log).
    apply Hid. exists (i, e). split; [done|]. apply elem_of_live_log. simpl. split; [done|lia]. }
  assert (live_map (use_now u) (consumed st) !! use_id u = None) as Hn.
  { apply eq_None_not_Some. intros Hs. by apply (refines_reads _ _ _ Hr Hc) in Hs. }
  unfold live_log, live_map in *. rewrite filter_cons. simpl.
  destruct (decide (now < use_expires u)%N) as [Hlt|Hge].
  - rewrite map_filter_insert_True by done. rewrite Heq. split; [|done].
    by apply NoDup_cons.
  - rewrite map_filter_insert_False, delete_id by done. by rewrite Heq.
Qed.

Lemma refines_consume st sp u st' r :
  refines st sp → consume_use st u = (st', r) →
  ∃ sp', spec_consume sp u = (sp', r) ∧ refines st' sp'.
Proof.
  destruct sp as [lg cl lim]. intros Hr H%consume_outcome_of.
  pose proof Hr as (Hcl & Hcap & _). simpl in Hcl, Hcap. subst cl lim.
  unfold spec_consume. simpl.
  destruct H as [l Hl Hlt|e Hc Hw|e' Hc Hw Hl|Hc Hw Hl Hs|Hc Hw Hl Hs].
  { rewrite Hl, (proj2 (N.ltb_lt _ _) Hlt). rewrite <-Hl. eauto. }
  all: replace (match last_observed_unix_seconds st with
      | Some last => (use_now u <? last)%N | None => false end) with false
    by (destruct (last_observed_unix_seconds st) as [l|] eqn:El; [|done];
        symmetry; apply N.ltb_ge; by apply Hc).
  all: rewrite Hw; simpl.
  { eexists; split; [done|]. exact (refines_keep _ _ _ Hr Hc). }
  all: destruct (refines_reads _ _ _ Hr Hc) as [Hin Hsz]; simpl in Hin, Hsz; rewrite <-Hsz.
  - rewrite bool_decide_true by (apply Hin; eauto).
    eexists; split; [done|]. exact (refines_live _ _ _ Hr Hc).
  - rewrite bool_decide_false by (rewrite <-Hin, Hl; by intros []).
    rewrite (proj2 (N.leb_le _ _) Hs). eexists; split; [done|]. exact (refines_live _ _ _ Hr Hc).
  - assert (use_id u ∉ (live_log (use_now u) lg).*1) as Hni by (rewrite <-Hin, Hl; by intros []).
    rewrite bool_decide_false by done. rewrite (proj2 (N.leb_gt _ _) Hs).
    eexists; split; [done|]. exact (refines_accept _ _ _ Hr Hc Hw Hni).
Qed.

Lemma refines_consume_all us st sp :
  refines st sp → (consume_all st us).2 = (spec_consume_all sp us).2.
Proof.
  revert st sp; induction us as [|u us IH]; intros st sp Hr; [done|].
  simpl. destruct (consume_use st u) as [st' r] eqn:E.
  destruct (refines_consume _ _ _ _ _ Hr E) as (sp' & -> & Hr').
  specialize (IH _ _ Hr'). destruct (consume_all st' us), (spec_consume_all sp' us). simpl in *. congruence.
Qed.

(* ------------------------------------------------------------------ *)
(** ** The process: lemmas *)

Lemma lock_state_Ok w h st :
  lock_state w h = Ok st → heap w !! h = Some (Mutex_new st).
Proof. unfold lock_state. destruct (heap w !! h) as [[[] ?]|]; naive_solver. Qed.

Lemma consume_shared_cases w h u w' r :
  consume_shared w h (use_id u) (use_issued u) (use_expires u) (use_now u)
    (use_max_lifetime u) (use_max_skew u) = (w', r) →
  (w' = w ∧ r = Err StateUnavailable) ∨
  ∃ st st', heap w !! h = Some (Mutex_new st) ∧ consume_use st u = (st', r) ∧
    w' = mkReplayWorld (<[h := Mutex_new st']> (heap w)) (next_handle w) (registry w).
Proof.
  unfold consume_shared. destruct (lock_state w h) as [st|e] eqn:El.
  - apply lock_state_Ok in El.
    destruct (consume st _ _ _ _ _ _) as [st' r'] eqn:Ec. intros [= <- <-].
    right. exists st, st'. done.
  - intros [= <- <-]. left. split; [done|]. revert El. unfold lock_state.
    destruct (heap w !! h) as [[[] ?]|]; naive_solver.
Qed.

Lemma get_or_init_ok w w1 reg :
  get_or_init_registry w = (w1, reg) → world_ok w →
  world_ok w1 ∧ registry w1 = Some reg ∧ heap w1 = heap w ∧ next_handle w1 = next_handle w.
Proof.
  unfold get_or_init_registry. destruct (registry w) as [reg'|] eqn:Er; intros [= <- <-] Hok.
  { done. }
  split_and!; [|done..]. destruct Hok as [Hh Hr]. split; [done|]. simpl.
  intros ? [= <-]; simpl. split_and!; [rewrite map_size_empty; lia|..]; intros *; by rewrite lookup_empty.
Qed.

Lemma get_or_init_states w w1 reg ns h :
  get_or_init_registry w = (w1, reg) → states (guarded reg) !! ns = Some h → registry w = Some reg.
Proof.
  unfold get_or_init_registry. destruct (registry w); intros [= <- <-]; [done|].
  simpl. by rewrite lookup_empty.
Qed.

(** The outcomes of a registry lookup. *)
Lemma resolve_locked_cases w reg ns cap w' r :
  resolve_locked w reg ns cap = (w', r) →
  (w' = w ∧ ∀ h, r = Ok h → states (guarded reg) !! ns = Some h) ∨
  (states (guarded reg) !! ns = None ∧ size (states (guarded reg)) < namespace_capacity (guarded reg) ∧
   r = Ok (next_handle w) ∧
   w' = mkReplayWorld (<[next_handle w := Mutex_new (ReplayState_new cap)]> (heap w))
     (S (next_handle w))
     (Some (Mutex_new (mkReplayRegistry (<[ns := next_handle w]> (states (guarded reg)))
        (namespace_capacity (guarded reg)))))).
Proof.
  unfold resolve_locked, resolve. destruct (poisoned reg); [intros [= <- <-]; by left|].
  destruct (states (guarded reg) !! ns) as [h|] eqn:Es.
  { intros [= <- <-]. left. split; [done|]. intros h' H. inv_ok H. by simplify_eq. }
  destruct (Nat.leb_spec (namespace_capacity (guarded reg)) (size (states (guarded reg))));
    intros [= <- <-]; [by left|]. right. done.
Qed.

(** The handle registered for a namespace. *)
Definition bound (ns : bytes) (h : SharedReplayState) (w : ReplayWorld) : Prop :=
  ∃ reg, registry w = Some reg ∧ states (guarded reg) !! ns = Some h.

Lemma world_step_ok w e w' : world_step w e w' → world_ok w → world_ok w'.
Proof.
  intros Hstep Hok. destruct Hstep as [w w' h u r H|w w1 w' reg ns cap r Hg H|w h m Hm|w reg Hreg].
  - apply consume_shared_cases in H as [[-> ->]|(st & st' & Hh & Hc & ->)]; [done|].
    destruct Hok as [Hheap Hreg]. split; simpl.
    + intros h' m [[<- <-]|[? Hm]]%lookup_insert_Some; [|by apply Hheap].
      destruct (Hheap _ _ Hh) as [? Hst]. split; [done|]. by eapply consume_ok.
    + intros reg E. destruct (Hreg reg E) as (? & Hin & ?). split_and!; [done| |done].
      intros ns h' [? Hs]%Hin. rewrite lookup_insert. case_decide; eauto.
  - apply get_or_init_ok in Hg as ([Hheap Hreg] & Er & Eh & En); [|done].
    apply resolve_locked_cases in H as [[-> _]|(Hn & Hsz & -> & ->)]; [done|].
    destruct (Hreg _ Er) as (? & Hin & Hinj). split; simpl.
    + intros h' m [[<- <-]|[? Hm]]%lookup_insert_Some.
      { split; [lia|]. split; simpl; [rewrite map_size_empty; lia|done]. }
      destruct (Hheap _ _ Hm). split; [lia|done].
    + assert (∀ ns' h', states (guarded reg) !! ns' = Some h' → h' ≠ next_handle w1) as Hne.
      { intros ns' h' [m Hm]%Hin ->. apply Hheap in Hm as [? _]. lia. }
      intros ? [= <-]; simpl. split_and!.
      * rewrite map_size_insert_None by done. lia.
      * intros ns' h' Hs. rewrite lookup_insert. case_decide; [eauto|].
        apply lookup_insert_Some in Hs as [[_ <-]|[_ Hs]]; [done|eauto].
      * intros ns1 ns2 h' [[<- <-]|[? H1]]%lookup_insert_Some [[<- E]|[? H2]]%lookup_insert_Some;
          [done|by apply Hne in H2|by apply Hne in H1|eauto].
  - destruct Hok as [Hheap Hreg]. split; simpl.
    + intros h' m' [[<- <-]|[? Hm']]%lookup_insert_Some; [|by apply Hheap].
      by apply (Hheap _ _ Hm).
    + intros reg E. destruct (Hreg reg E) as (? & Hin & ?). split_and!; [done| |done].
      intros ns h' [? Hs]%Hin. rewrite lookup_insert. case_decide; eauto.
  - destruct Hok as [Hheap Hreg']. split; [done|]. simpl. intros ? [= <-]. simpl. eauto.
Qed.

Lemma world_run_ok w es w' : world_run w es w' → world_ok w → world_ok w'.
Proof. induction 1; eauto using world_step_ok. Qed.

Lemma initial_world_ok : world_ok initial_world.
Proof. split; [|done]. intros h m H. simpl in H. by apply lookup_empty_Some in H. Qed.

Lemma world_run_app w es1 es2 w' :
  world_run w (es1 ++ es2) w' → ∃ w1, world_run w es1 w1 ∧ world_run w1 es2 w'.
Proof.
  revert w. induction es1 as [|e es1 IH]; simpl; intros w H; [eauto using run_nil|].
  inversion H as [|? ? ? ? ? Hs Hr]; subst. apply IH in Hr as (w1 & ? & ?). eauto using run_cons.
Qed.

Lemma world_run_inv_cons w e es w' :
  world_run w (e :: es) w' → ∃ w1, world_step w e w1 ∧ world_run w1 es w'.
Proof. inversion 1; eauto. Qed.

Lemma spent_at_step h id ex w e w' :
  world_step w e w' → world_ok w → spent_at h id ex w → spent_at h id ex w'.
Proof.
  intros Hstep Hok (m & Hm & Hs). unfold spent_at.
  destruct Hstep as [w w' h' u r H|w w1 w' reg ns cap r Hg H|w h' m' Hm'|w reg Hreg].
  - apply consume_shared_cases in H as [[-> ->]|(st & st' & Hh & Hc & ->)]; [eauto|]. simpl.
    destruct (decide (h' = h)) as [->|]; [|rewrite lookup_insert_ne by done; eauto].
    rewrite lookup_insert_eq. eexists; split; [done|]. simplify_eq.
    by eapply spent_consume.
  - apply get_or_init_ok in Hg as (Hok1 & Er & Eh & En); [|done].
    apply resolve_locked_cases in H as [[-> _]|(_ & _ & _ & ->)]; simpl; rewrite Eh; [eauto|].
    destruct (proj1 Hok _ _ Hm). rewrite lookup_insert_ne by lia. eauto.
  - simpl. rewrite lookup_insert. case_decide; simplify_eq/=; eauto.
  - eauto.
Qed.

Lemma spent_at_run h id ex w es w' :
  world_run w es w' → world_ok w → spent_at h id ex w → spent_at h id ex w'.
Proof. induction 1; eauto using spent_at_step, world_step_ok. Qed.

Lemma consumed_ok_spent w h u w' :
  world_step w (Consumed h u (Ok ())) w' → spent_at h (use_id u) (use_expires u) w'.
Proof.
  inversion 1 as [? ? ? ? ? H'| | |]; subst.
  apply consume_shared_cases in H' as [[_ ?]|(st & st' & Hh & Hc & ->)]; [done|].
  eexists; simpl. rewrite lookup_insert_eq. split; [done|]. by eapply accepted_spent.
Qed.

Lemma spent_at_refused w h u w' :
  spent_at h (use_id u) (use_expires u) w → ¬ world_step w (Consumed h u (Ok ())) w'.
Proof.
  intros (m & Hm & Hs). inversion 1 as [? ? ? ? ? H'| | |]; subst.
  apply consume_shared_cases in H' as [[_ ?]|(st & st' & Hh & Hc & ->)]; [done|].
  simplify_eq. by eapply spent_refused.
Qed.

Lemma bound_step ns h w e w' : world_step w e w' → bound ns h w → bound ns h w'.
Proof.
  intros Hstep (reg' & Hr & Hs). unfold bound.
  destruct Hstep as [w w' h' u r H|w w1 w' reg ns' cap r Hg H|w h' m' Hm'|w reg Hreg].
  - apply consume_shared_cases in H as [[-> ->]|(st & st' & Hh & Hc & ->)]; eauto.
  - unfold get_or_init_registry in Hg. rewrite Hr in Hg. simplify_eq.
    apply resolve_locked_cases in H as [[-> _]|(Hn & _ & _ & ->)]; [eauto|]. simpl.
    eexists; split; [done|]. simpl. rewrite lookup_insert_ne; [done|]. intros ->. congruence.
  - eauto.
  - simplify_eq. eexists; split; [done|]. done.
Qed.

Lemma bound_run ns h w es w' : world_run w es w' → bound ns h w → bound ns h w'.
Proof. induction 1; eauto using bound_step. Qed.

Lemma resolved_bound w ns cap h w' :
  world_ok w → world_step w (Resolved ns cap (Ok h)) w' → bound ns h w'.
Proof.
  intros Hok. inversion 1 as [|? w1 ? reg ? ? ? Hg H'| |]; subst.
  apply get_or_init_ok in Hg as (_ & Er & _); [|done].
  apply resolve_locked_cases in H' as [[-> Hs]|(_ & _ & [= ->] & ->)]; unfold bound; simpl.
  - eauto.
  - eexists; split; [done|]. apply lookup_insert_eq.
Qed.

(** The messages authenticated for two namespaces agree only if family, key
    identifier and principal do: the identifier is length-framed. *)
Lemma namespace_message_inj c c' k k' p p' :
  (N.of_nat (length k) ≤ u64_max)%N → (N.of_nat (length k') ≤ u64_max)%N →
  namespace_message c k p = namespace_message c' k' p' → c = c' ∧ k = k' ∧ p = p'.
Proof.
  intros Hk Hk'. unfold namespace_message. intros H%app_inv_head.
  apply app_inj_length in H as [[= ->%(inj _)] H]; [|done].
  apply app_inj_length in H as [Hl H]; [|by rewrite !length_be_bytes].
  apply be_bytes_inj64 in Hl; [|done..]. apply Nat2N.inj in Hl.
  apply app_inj_length in H as [-> ->]; done.
Qed.

(* ------------------------------------------------------------------ *)
(** ** Properties *)

(** Single use.  In every execution of the process, whatever is interleaved
    (other namespaces, other grants, registry lookups, poisoned locks), once a
    grant identifier with a given expiry has been accepted through a handle, no
    later presentation of it through that handle is accepted. *)
Theorem grant_accepted_at_most_once h u u' r es1 es2 w :
  world_run initial_world (es1 ++ Consumed h u (Ok ()) :: es2 ++ [Consumed h u' r]) w →
  use_id u' = use_id u → use_expires u' = use_expires u →
  ∃ e, r = Err e.
Proof.
  intros (w1 & R1 & R2)%world_run_app Hid Hex.
  apply world_run_inv_cons in R2 as (w2 & Hs & (w3 & R3 & R4)%world_run_app).
  apply world_run_inv_cons in R4 as (w4 & Hs' & _).
  pose proof (world_run_ok _ _ _ R1 initial_world_ok) as Ok1.
  pose proof (world_step_ok _ _ _ Hs Ok1) as Ok2.
  pose proof (spent_at_run _ _ _ _ _ _ R3 Ok2 (consumed_ok_spent _ _ _ _ Hs)) as Hsp.
  destruct r as [[]|e]; [|eauto].
  rewrite <-Hid, <-Hex in Hsp. by destruct (spent_at_refused _ _ _ w4 Hsp).
Qed.

(** C18: refinement.  Pruning expired grants is unobservable: on every sequence
    of presentations, one namespace answers exactly like the specification that
    keeps the complete log of accepted grants for ever. *)
Theorem replay_refines_unpruned_log c us :
  (consume_all (ReplayState_new c) us).2 = (spec_consume_all (mkReplaySpec [] None c) us).2.
Proof. apply refines_consume_all, refines_new. Qed.

(** A grant is accepted exactly when the clock has not gone back, its
    lifetime is positive and at most the maximum, it is not issued beyond the
    allowed skew, it has not expired, no unexpired acceptance carries its
    identifier and the namespace has room. *)
Theorem consume_accepts_iff st u :
  (consume_use st u).2 = Ok () ↔
  clock_allows (last_observed_unix_seconds st) (use_now u) ∧
  (use_issued u < use_expires u ≤ use_issued u + use_max_lifetime u ∧
   use_issued u ≤ saturating_add64 (use_now u) (use_max_skew u) ∧
   use_now u < use_expires u)%N ∧
  live_map (use_now u) (consumed st) !! use_id u = None ∧
  (N.of_nat (size (live_map (use_now u) (consumed st))) < capacity st)%N.
Proof.
  rewrite <-valid_window_Ok. destruct (consume_use st u) as [st' r] eqn:E. simpl. split.
  - intros ->. apply consume_outcome_of in E. by inversion E.
  - intros (Hc & Hw & Hl & Hs). apply consume_outcome_of in E.
    destruct E as [l Hlast Hlt| | | |]; try done; try congruence; try lia.
    specialize (Hc _ Hlast). lia.
Qed.

(** In every execution each namespace holds at most its capacity of grants,
    the registry at most its capacity of namespaces, every registered handle is
    allocated, and distinct namespaces never share a handle. *)
Theorem replay_process_invariant es w :
  world_run initial_world es w → world_ok w.
Proof. intros H. by eapply world_run_ok, initial_world_ok. Qed.

(** Two lookups, however far apart, return the same replay state exactly
    when they ask for the same namespace: reconstructing an authority never
    resets its replay protection and never shares another one's. *)
Theorem resolution_is_stable ns ns' c c' h h' es1 es2 w :
  world_run initial_world (es1 ++ Resolved ns c (Ok h) :: es2 ++ [Resolved ns' c' (Ok h')]) w →
  h = h' ↔ ns = ns'.
Proof.
  intros (w1 & R1 & R2)%world_run_app.
  apply world_run_inv_cons in R2 as (w2 & Hs & (w3 & R3 & R4)%world_run_app).
  apply world_run_inv_cons in R4 as (w4 & Hs' & _).
  pose proof (world_run_ok _ _ _ R1 initial_world_ok) as Ok1.
  pose proof (world_step_ok _ _ _ Hs Ok1) as Ok2.
  pose proof (world_run_ok _ _ _ R3 Ok2) as Ok3.
  pose proof (world_step_ok _ _ _ Hs' Ok3) as [_ Hreg].
  pose proof (bound_step _ _ _ _ _ Hs'
    (bound_run _ _ _ _ _ R3 (resolved_bound _ _ _ _ _ Ok1 Hs))) as (reg & Er & Hb).
  destruct (resolved_bound _ _ _ _ _ Ok3 Hs') as (reg' & Er' & Hb').
  simplify_eq. destruct (Hreg _ Er) as (_ & _ & Hinj).
  split; [intros ->; by eapply Hinj|intros ->; congruence].
Qed.

(** An authority's namespace determines its family, its key identifier and
    its principal, up to an explicit HMAC-SHA-256 collision between the two
    authenticated messages. *)
Theorem replay_namespace_binds `{Crypto} c c' k k' key key' p p' ns :
  replay_namespace c k key p = Ok ns → replay_namespace c' k' key' p' = Ok ns →
  (c = c' ∧ k = k' ∧ p = p') ∨
  (namespace_message c k p ≠ namespace_message c' k' p' ∧
   hmac_sha256 key (namespace_message c k p) = hmac_sha256 key' (namespace_message c' k' p')).
Proof.
  unfold replay_namespace. intros H1 H2. branches.
  destruct (decide (namespace_message c k p = namespace_message c' k' p')) as [E|NE].
  - left. by apply namespace_message_inj.
  - right. split; [done|congruence].
Qed.

(* ------------------------------------------------------------------ *)
(** ** Witnesses *)

Definition example_use : GrantUse := mkGrantUse [x01] 100 160 101 120 5.
Definition example_world : ReplayWorld := (resolve initial_world (ReplayRegistry_new 256) [x07] 4).1.

Lemma example_resolve :
  world_step initial_world (Resolved [x07] 4 (Ok 0)) example_world.
Proof. eapply step_resolve; reflexivity. Defined.

Lemma grant_accepted_at_most_once_witness :
  ∃ w, world_run initial_world
    ([Resolved [x07] 4 (Ok 0)] ++ Consumed 0 example_use (Ok ()) ::
     [] ++ [Consumed 0 example_use (Err Replayed)]) w ∧
  ∃ e, (Err Replayed : ReplayResult unit) = Err e.
Proof.
  eexists; split.
  - eapply run_cons; [apply example_resolve|].
    eapply run_cons; [eapply step_consume; vm_compute; reflexivity|].
    eapply run_cons; [eapply step_consume; vm_compute; reflexivity|]. apply run_nil.
  - eapply (grant_accepted_at_most_once 0 example_use example_use _ [Resolved [x07] 4 (Ok 0)] []);
      [|reflexivity..].
    eapply run_cons; [apply example_resolve|].
    eapply run_cons; [eapply step_consume; vm_compute; reflexivity|].
    eapply run_cons; [eapply step_consume; vm_compute; reflexivity|]. apply run_nil.
Defined.

Lemma replay_process_invariant_witness :
  size (states (ReplayRegistry_new 256)) = 0 ∧ world_ok example_world.
Proof.
  split; [reflexivity|].
  apply (replay_process_invariant [Resolved [x07] 4 (Ok 0)]).
  eapply run_cons; [apply example_resolve|apply run_nil].
Defined.

Lemma resolution_is_stable_witness : 0 = 0 ↔ [x07] = [x07].
Proof.
  eapply (resolution_is_stable [x07] [x07] 4 4 0 0 [] []).
  eapply run_cons; [apply example_resolve|].
  eapply run_cons; [eapply step_resolve; reflexivity|apply run_nil].
Defined.

#[local] Existing Instance example_crypto.

Lemma replay_namespace_binds_witness :
  let p := replicate 32 x05 in
  (RequestGrantCapability.CopyFile = RequestGrantCapability.CopyFile ∧ bs "k" = bs "k" ∧ p = p) ∨
  (namespace_message RequestGrantCapability.CopyFile (bs "k") p
     ≠ namespace_message RequestGrantCapability.CopyFile (bs "k") p ∧
   hmac_sha256 [x09] (namespace_message RequestGrantCapability.CopyFile (bs "k") p)
     = hmac_sha256 [x09] (namespace_message RequestGrantCapability.CopyFile (bs "k") p)).
Proof.
  intros p.
  eapply (replay_namespace_binds RequestGrantCapability.CopyFile RequestGrantCapability.CopyFile
    (bs "k") (bs "k") [x09] [x09] p p); reflexivity.
Defined.
