(* ===== verification/GrantToken.v ===== *)
(** * The signed token format of the request grants

    The five grant modules ([create_directory_grant.rs], [write_file_grant.rs],
    [copy_file_grant.rs], [trash_file_grant.rs], [android_volume_grant.rs])
    carry the same private token layer: an ASCII token
    [v1.<key id>.<payload hex>.<HMAC hex>] around a fixed-width payload.  The
    layer is modelled once here, from [create_directory_grant.rs], against the
    interface [GrantFamily] (the family's payload, target and binding check);
    each family's file defines its operations and discharges the interface. *)

From S2P Require Import Prelude RequestGrantCapability GrantReplay.

(** The five modules declare this error enumeration constructor for
    constructor; [reason_code] is the text each of them prints. *)
Module GrantError.
Inductive t :=
| ConfigurationInvalid
| TargetInvalid
| SessionInvalid
| Missing
| Malformed
| UnknownVersion
| UnknownKey
| SignatureInvalid
| Expired
| FutureIssued
| LifetimeExceeded
| BindingMismatch
| Replayed
| ClockRollback
| ReplayCapacityExhausted
| StateUnavailable.

#[global] Instance t_eq_dec : EqDecision t.
Proof. solve_decision. Defined.

Definition reason_code (e : t) : bytes :=
  match e with
  | ConfigurationInvalid => bs "capability_configuration_invalid"
  | TargetInvalid => bs "capability_target_invalid"
  | SessionInvalid => bs "capability_session_invalid"
  | Missing => bs "capability_grant_missing"
  | Malformed => bs "capability_grant_malformed"
  | UnknownVersion => bs "capability_grant_version_unknown"
  | UnknownKey => bs "capability_grant_key_unknown"
  | SignatureInvalid => bs "capability_grant_signature_invalid"
  | Expired => bs "capability_grant_expired"
  | FutureIssued => bs "capability_grant_future_issued"
  | LifetimeExceeded => bs "capability_grant_lifetime_exceeded"
  | BindingMismatch => bs "capability_grant_binding_mismatch"
  | Replayed => bs "capability_grant_replayed"
  | ClockRollback => bs "capability_clock_rollback"
  | ReplayCapacityExhausted => bs "capability_replay_capacity_exhausted"
  | StateUnavailable => bs "capability_state_unavailable"
  end.
End GrantError.
Abbreviation GrantResult := (Result GrantError.t).

Definition map_replay_error (error : SharedReplayError.t) : GrantError.t :=
  match error with
  | SharedReplayError.Expired => GrantError.Expired
  | SharedReplayError.FutureIssued => GrantError.FutureIssued
  | SharedReplayError.LifetimeExceeded => GrantError.LifetimeExceeded
  | SharedReplayError.Replayed => GrantError.Replayed
  | SharedReplayError.ClockRollback => GrantError.ClockRollback
  | SharedReplayError.CapacityExhausted => GrantError.ReplayCapacityExhausted
  | SharedReplayError.StateUnavailable => GrantError.StateUnavailable
  end.

(* ------------------------------------------------------------------ *)
(** ** Constants shared by the families *)

Definition GRANT_VERSION : bytes := bs "v1".
Definition GRANT_TTL_SECONDS : N := 60.
Definition MAX_GRANT_LIFETIME_SECONDS : N := 120.
Definition MAX_GRANT_FUTURE_SKEW_SECONDS : N := 5.
Definition MAX_GRANT_KEY_ID_BYTES : nat := 32.
Definition GRANT_KEY_BYTES : nat := 32.
Definition GRANT_KEY_HEX_BYTES : nat := GRANT_KEY_BYTES * 2.
Definition MAX_CONSUMED_GRANTS : N := 4096.
Definition GRANT_ID_BYTES : nat := 16.
Definition DIGEST_BYTES : nat := 32.
Definition SESSION_BYTES : nat := 16.
Definition MAC_BYTES : nat := 32.
Definition MAC_HEX_BYTES : nat := MAC_BYTES * 2.
(** [MUTATING_POSTURE], [NO_REPLACE_MUTATING_POSTURE], [RECOVERY_RETAINED_POSTURE]. *)
Definition MUTATING_POSTURE : byte := x01.

(* ------------------------------------------------------------------ *)
(** ** Hexadecimal *)

Definition HEX : bytes := bs "0123456789abcdef".
(** [HEX[i]], for the indices below 16 the code computes. *)
Definition hex_char (i : N) : byte := default x00 (HEX !! N.to_nat i).

Fixpoint encode_hex (bytes : bytes) : list byte :=
  match bytes with
  | [] => []
  | b :: rest =>
    hex_char (N.shiftr (byte_val b) 4) :: hex_char (N.land (byte_val b) 15) :: encode_hex rest
  end.

Definition decode_hex_digit (b : byte) : option N :=
  if in_range 48 57 b then Some (byte_val b - 48)%N
  else if in_range 97 102 b then Some (byte_val b - 97 + 10)%N
  else None.

(** The loop over [chunks_exact(2)]. *)
Fixpoint decode_hex_pairs (input : bytes) : option bytes :=
  match input with
  | a :: b :: rest =>
    hi ← decode_hex_digit a;
    lo ← decode_hex_digit b;
    out ← decode_hex_pairs rest;
    Some (byte_of (N.lor (N.shiftl hi 4 mod 256) lo) :: out)
  | _ => Some []
  end.

Definition decode_hex_array (n : nat) (input : bytes) : option bytes :=
  if negb (length input =? n * 2) || negb (is_ascii input) then None
  else decode_hex_pairs input.

(* ------------------------------------------------------------------ *)
(** ** Fixed-width payloads *)

(** [output[*offset..end].copy_from_slice(value); *offset = end]. *)
Definition put (st : bytes * nat) (value : bytes) : bytes * nat :=
  let '(output, offset) := st in
  let stop := offset + length value in
  (take offset output ++ value ++ drop stop output, stop).

(** A payload written by successive [put]s into a zeroed array. *)
Definition put_all (n : nat) (values : list bytes) : bytes :=
  (foldl put (replicate n x00, 0) values).1.

Definition take_array (n : nat) (input : bytes) (offset : nat) : option (bytes * nat) :=
  let stop := offset + n in
  if stop <=? length input then Some (take n (drop offset input), stop) else None.

(** [*payload.get(offset)?; offset += 1]. *)
Definition take_byte (input : bytes) (offset : nat) : option (byte * nat) :=
  b ← input !! offset; Some (b, S offset).

Definition take_u64 (input : bytes) (offset : nat) : option (N * nat) :=
  '(b, o) ← take_array 8 input offset; Some (from_be b, o).

(* ------------------------------------------------------------------ *)
(** ** Strings *)

Definition valid_key_id (key_id : bytes) : bool :=
  negb (bytes_eqb key_id []) && (length key_id <=? MAX_GRANT_KEY_ID_BYTES)
  && forallb (λ b, is_ascii_lowercase b || is_ascii_digit b
                   || bool_decide (b = byte_of 45) || bool_decide (b = byte_of 95)) key_id.

(* ------------------------------------------------------------------ *)
(** ** Authorities *)

Record GrantAuthority := mkGrantAuthority {
  key_id : bytes;
  key : bytes;
  principal_digest : bytes;
  replay : SharedReplayState;
}.

(** What the constructor of every authority establishes. *)
Definition authority_ok (a : GrantAuthority) : Prop :=
  valid_key_id (key_id a) = true ∧ length (key a) = GRANT_KEY_BYTES ∧
  length (principal_digest a) = DIGEST_BYTES.

Section authorities.
Context {C : Crypto}.

(** HMAC of the principal under the family's domain and the grant key. *)
Definition principal_binding (domain key principal : bytes) : bytes :=
  hmac_sha256 key (domain ++ principal).

Definition from_hex_key_with_capacity (capability : RequestGrantCapability.t) (domain : bytes)
    (w : ReplayWorld) (key_id key_hex static_principal_secret : bytes) (replay_capacity : N)
    : ReplayWorld * GrantResult GrantAuthority :=
  if negb (valid_key_id key_id)
     || negb (length key_hex =? GRANT_KEY_HEX_BYTES)
     || bytes_eqb static_principal_secret []
     || (replay_capacity =? 0)%N
  then (w, Err GrantError.ConfigurationInvalid)
  else match decode_hex_array GRANT_KEY_BYTES key_hex with
  | None => (w, Err GrantError.ConfigurationInvalid)
  | Some key =>
    let principal_digest := principal_binding domain key static_principal_secret in
    let '(w, replay) := shared_replay_state w capability key_id key principal_digest replay_capacity in
    (w, replay ← map_err (λ _, GrantError.StateUnavailable) replay;
        Ok (mkGrantAuthority key_id key principal_digest replay))
  end.

Definition binds_static_principal (domain : bytes) (self : GrantAuthority)
    (principal : option bytes) : bool :=
  match principal with
  | None => false
  | Some principal => bytes_eqb (principal_binding domain (key self) principal) (principal_digest self)
  end.

Definition parse_canonical_session (session_id : bytes) : GrantResult bytes :=
  parsed ← ok_or (uuid_parse_str session_id) GrantError.SessionInvalid;
  _ ← fail_if (negb (bytes_eqb (uuid_to_string parsed) session_id)) GrantError.SessionInvalid;
  Ok parsed.

(** [mac.verify_slice(..)]. *)
Definition verify_mac (key message mac : bytes) : bool :=
  bytes_eqb (hmac_sha256 key message) mac.
End authorities.

(* ------------------------------------------------------------------ *)
(** ** The interface of a grant family *)

(** What distinguishes the five families: the payload codec, the grant
    [issue_at] builds for a session and a target, and the binding check of
    [consume_at]. *)
Class GrantFamily := mkGrantFamily {
  Payload : Type;
  Target : Type;
  payload_bytes : nat;
  encode_payload : Payload → bytes;
  decode_payload : bytes → option Payload;
  payload_id : Payload → bytes;
  payload_issued : Payload → N;
  payload_expires : Payload → N;
  payload_ok : Payload → Prop;
  target_ok : Target → Prop;
  grant_for : GrantAuthority → bytes → bytes → Target → N → N → Payload;
  binding_mismatch : GrantAuthority → Payload → bytes → Target → bool;
}.

(** What a family promises: its codec is exact on fixed-width payloads, the
    encoded token fits the header, and the binding check accepts a payload only
    if it is the one [issue_at] would build. *)
Class GrantFamilyLaws (F : GrantFamily) : Prop := mkGrantFamilyLaws {
  payload_fits : payload_bytes ≤ 130;
  encode_payload_length p : payload_ok p → length (encode_payload p) = payload_bytes;
  decode_encode_payload p : payload_ok p → decode_payload (encode_payload p) = Some p;
  encode_decode_payload b p :
    length b = payload_bytes → decode_payload b = Some p → payload_ok p ∧ encode_payload p = b;
  payload_fields p :
    payload_ok p → length (payload_id p) = GRANT_ID_BYTES ∧ is_u64 (payload_issued p) ∧
                   is_u64 (payload_expires p);
  grant_for_ok a gid s t i e :
    authority_ok a → length gid = GRANT_ID_BYTES → length s = SESSION_BYTES → target_ok t →
    is_u64 i → is_u64 e → payload_ok (grant_for a gid s t i e);
  payload_id_grant_for a gid s t i e : payload_id (grant_for a gid s t i e) = gid;
  payload_issued_grant_for a gid s t i e : payload_issued (grant_for a gid s t i e) = i;
  payload_expires_grant_for a gid s t i e : payload_expires (grant_for a gid s t i e) = e;
  binding_mismatch_iff a p s t :
    authority_ok a → payload_ok p → target_ok t → length s = SESSION_BYTES →
    binding_mismatch a p s t = false ↔
    p = grant_for a (payload_id p) s t (payload_issued p) (payload_expires p);
}.

Definition DOT : byte := byte_of 46.

Section tokens.
Context {C : Crypto} {F : GrantFamily}.

(** The part of a token that is signed. *)
Definition signed_part (key_id payload_hex : bytes) : bytes :=
  GRANT_VERSION ++ DOT :: key_id ++ DOT :: payload_hex.

Definition encode_and_sign (self : GrantAuthority) (grant : Payload) : bytes :=
  let signed := signed_part (key_id self) (encode_hex (encode_payload grant)) in
  signed ++ DOT :: encode_hex (hmac_sha256 (key self) signed).

Definition parse_and_verify (self : GrantAuthority) (token : bytes) : GrantResult Payload :=
  _ ← fail_if (bytes_eqb token [] || (MAX_REQUEST_GRANT_HEADER_BYTES <? length token)
               || negb (is_ascii token)) GrantError.Malformed;
  let segments := split_on DOT token in
  version ← ok_or (segments !! 0) GrantError.Malformed;
  key_id' ← ok_or (segments !! 1) GrantError.Malformed;
  payload_hex ← ok_or (segments !! 2) GrantError.Malformed;
  signature_hex ← ok_or (segments !! 3) GrantError.Malformed;
  _ ← fail_if (bool_decide (is_Some (segments !! 4))) GrantError.Malformed;
  _ ← fail_if (negb (bytes_eqb version GRANT_VERSION)) GrantError.UnknownVersion;
  _ ← fail_if (negb (bytes_eqb key_id' (key_id self))) GrantError.UnknownKey;
  _ ← fail_if (negb (length payload_hex =? payload_bytes * 2)
               || negb (length signature_hex =? MAC_HEX_BYTES)) GrantError.Malformed;
  payload ← ok_or (decode_hex_array payload_bytes payload_hex) GrantError.Malformed;
  signature ← ok_or (decode_hex_array MAC_BYTES signature_hex) GrantError.Malformed;
  let signed_length := length version + 1 + length key_id' + 1 + length payload_hex in
  signed ← ok_or (if signed_length <=? length token then Some (take signed_length token) else None)
             GrantError.Malformed;
  _ ← fail_if (negb (verify_mac (key self) signed signature)) GrantError.SignatureInvalid;
  ok_or (decode_payload payload) GrantError.Malformed.

(** The last step of every [consume_at]: the shared replay state, its errors
    mapped to the family's. *)
Definition consume_replay (self : GrantAuthority) (w : ReplayWorld) (grant_id : bytes)
    (issued expires now : N) : ReplayWorld * GrantResult unit :=
  let '(w, r) := consume_shared w (replay self) grant_id issued expires now
                   MAX_GRANT_LIFETIME_SECONDS MAX_GRANT_FUTURE_SKEW_SECONDS in
  (w, map_err map_replay_error r).

(** The checks of [consume_at] that come before the replay state. *)
Definition check_grant (self : GrantAuthority) (token : option bytes) (session_id : bytes)
    (target : Target) : GrantResult Payload :=
  token ← ok_or token GrantError.Missing;
  expected_session ← parse_canonical_session session_id;
  grant ← parse_and_verify self token;
  _ ← fail_if (binding_mismatch self grant expected_session target) GrantError.BindingMismatch;
  Ok grant.

Definition consume_grant (self : GrantAuthority) (w : ReplayWorld) (token : option bytes)
    (session_id : bytes) (target : Target) (now : N) : ReplayWorld * GrantResult unit :=
  match check_grant self token session_id target with
  | Err e => (w, Err e)
  | Ok grant =>
    consume_replay self w (payload_id grant) (payload_issued grant) (payload_expires grant) now
  end.

(** A session identifier in the only spelling the authorities accept. *)
Definition canonical_session (session_id u : bytes) : Prop :=
  uuid_parse_str session_id = Some u ∧ uuid_to_string u = session_id.

(** The token [issue_at] returns when it returns one. *)
Definition token_for (self : GrantAuthority) (gid session : bytes) (target : Target)
    (issued expires : N) : bytes :=
  encode_and_sign self (grant_for self gid session target issued expires).
End tokens.

(* ------------------------------------------------------------------ *)
(** ** Hexadecimal: lemmas *)

Lemma length_encode_hex b : length (encode_hex b) = 2 * length b.
Proof. induction b as [|x b IH]; simpl; [done|]. rewrite IH. lia. Qed.

Lemma decode_hex_digit_char b i : decode_hex_digit b = Some i → hex_char i = b ∧ (i < 16)%N.
Proof. destruct b; vm_compute; intros H; by simplify_eq. Qed.

Lemma hex_digits_of_byte b :
  decode_hex_digit (hex_char (N.shiftr (byte_val b) 4)) = Some (N.shiftr (byte_val b) 4) ∧
  decode_hex_digit (hex_char (N.land (byte_val b) 15)) = Some (N.land (byte_val b) 15) ∧
  byte_of (N.lor (N.shiftl (N.shiftr (byte_val b) 4) 4 mod 256) (N.land (byte_val b) 15)) = b.
Proof. destruct b; vm_compute; done. Qed.

Lemma nibbles_of_byte hi lo :
  (hi < 16)%N → (lo < 16)%N →
  N.shiftr (byte_val (byte_of (N.lor (N.shiftl hi 4 mod 256) lo))) 4 = hi ∧
  N.land (byte_val (byte_of (N.lor (N.shiftl hi 4 mod 256) lo))) 15 = lo.
Proof.
  intros Hhi Hlo.
  assert (forallb (λ hi, forallb (λ lo,
    let b := byte_val (byte_of (N.lor (N.shiftl hi 4 mod 256) lo)) in
    (N.shiftr b 4 =? hi)%N && (N.land b 15 =? lo)%N)
    (N.of_nat <$> seq 0 16)) (N.of_nat <$> seq 0 16) = true) as H by (by vm_compute).
  assert (∀ n, (n < 16)%N → In n (N.of_nat <$> seq 0 16)) as Hin.
  { intros n Hn. apply list_elem_of_In, list_elem_of_fmap. exists (N.to_nat n).
    rewrite N2Nat.id. split; [done|]. apply elem_of_seq. lia. }
  rewrite forallb_forall in H. specialize (H _ (Hin _ Hhi)).
  rewrite forallb_forall in H. specialize (H _ (Hin _ Hlo)). simpl in H. by reflect_guards.
Qed.

Lemma decode_encode_hex b : decode_hex_pairs (encode_hex b) = Some b.
Proof.
  induction b as [|x b IH]; [done|]. cbn [encode_hex decode_hex_pairs].
  destruct (hex_digits_of_byte x) as (-> & -> & E). simpl. rewrite IH. simpl. by rewrite E.
Qed.

Lemma encode_decode_hex n s b :
  length s = n * 2 → decode_hex_pairs s = Some b → encode_hex b = s ∧ length b = n.
Proof.
  revert s b; induction n as [|n IH]; intros s b Hl.
  { destruct s; [|done]. simpl. by intros [= <-]. }
  destruct s as [|x [|y s]]; [done..|]. simpl in Hl. cbn [decode_hex_pairs].
  destruct (decode_hex_digit x) as [hi|] eqn:Ex; [|done].
  destruct (decode_hex_digit y) as [lo|] eqn:Ey; [|done]. simpl.
  destruct (decode_hex_pairs s) as [out|] eqn:Es; [|done]. intros [= <-].
  apply decode_hex_digit_char in Ex as [<- Hhi]. apply decode_hex_digit_char in Ey as [<- Hlo].
  destruct (nibbles_of_byte _ _ Hhi Hlo) as [Eh El]. cbn [encode_hex]. rewrite Eh, El.
  destruct (IH s out) as [-> <-]; [lia|done|]. done.
Qed.

Lemma hex_char_ascii i : (i < 16)%N → is_ascii_byte (hex_char i) = true ∧ hex_char i ≠ DOT.
Proof.
  intros Hi. assert (In i (N.of_nat <$> seq 0 16)) as Hin.
  { apply list_elem_of_In, list_elem_of_fmap. exists (N.to_nat i). rewrite N2Nat.id.
    split; [done|]. apply elem_of_seq. lia. }
  assert (forallb (λ i, is_ascii_byte (hex_char i) && bool_decide (hex_char i ≠ DOT))
    (N.of_nat <$> seq 0 16) = true) as H by (by vm_compute).
  rewrite forallb_forall in H. specialize (H _ Hin). by reflect_guards.
Qed.

Lemma nibbles_lt b : (N.shiftr (byte_val b) 4 < 16)%N ∧ (N.land (byte_val b) 15 < 16)%N.
Proof. destruct b; vm_compute; done. Qed.

Lemma encode_hex_chars b : Forall (λ c, is_ascii_byte c = true ∧ c ≠ DOT) (encode_hex b).
Proof.
  induction b as [|x b IH]; [constructor|]. cbn [encode_hex]. destruct (nibbles_lt x).
  repeat constructor; try done; by apply hex_char_ascii.
Qed.

Lemma is_ascii_app a b : is_ascii (a ++ b) = is_ascii a && is_ascii b.
Proof. apply forallb_app. Qed.

Lemma is_ascii_encode_hex b : is_ascii (encode_hex b) = true.
Proof.
  apply forallb_forall. intros x Hx%list_elem_of_In.
  pose proof (encode_hex_chars b) as H. rewrite Forall_forall in H. by apply H.
Qed.

Lemma dot_not_in_hex b : DOT ∉ encode_hex b.
Proof. intros Hx. pose proof (encode_hex_chars b) as H. rewrite Forall_forall in H. by destruct (H _ Hx). Qed.

Lemma decode_hex_array_encode b : decode_hex_array (length b) (encode_hex b) = Some b.
Proof.
  unfold decode_hex_array. rewrite length_encode_hex, is_ascii_encode_hex, decode_encode_hex.
  replace (2 * length b =? length b * 2) with true by (symmetry; apply Nat.eqb_eq; lia). done.
Qed.

Lemma decode_hex_array_Some n s b :
  decode_hex_array n s = Some b ↔ s = encode_hex b ∧ length b = n.
Proof.
  split.
  - unfold decode_hex_array. intros H. branches.
    by destruct (encode_decode_hex n s b) as [<- ?].
  - intros [-> <-]. apply decode_hex_array_encode.
Qed.

(* ------------------------------------------------------------------ *)
(** ** Payloads and segments: lemmas *)

Lemma put_spec out off v :
  off + length v ≤ length out →
  (put (out, off) v).1 = take off out ++ v ++ drop (off + length v) out ∧
  length (put (out, off) v).1 = length out.
Proof.
  intros H. simpl. split; [done|]. rewrite !length_app, length_take, length_drop. lia.
Qed.

Lemma foldl_put values out pre :
  length pre + length (concat values) = length out → take (length pre) out = pre →
  (foldl put (out, length pre) values).1 = pre ++ concat values.
Proof.
  revert out pre; induction values as [|v values IH]; intros out pre Hl Hp; simpl in *.
  - rewrite app_nil_r, <-Hp. rewrite Nat.add_0_r in Hl. by rewrite Hl, firstn_all.
  - rewrite length_app in Hl.
    replace (length pre + length v) with (length (pre ++ v)) by (by rewrite length_app).
    rewrite Hp, IH.
    + by rewrite (assoc_L (++)).
    + rewrite !length_app, length_drop. lia.
    + rewrite (assoc_L (++)). by rewrite take_app_length.
Qed.

(** A payload is the concatenation of the fields put into it. *)
Lemma put_all_concat n values :
  length (concat values) = n → put_all n values = concat values.
Proof. intros <-. unfold put_all. by rewrite (foldl_put values _ []) by (simpl; by rewrite ?length_replicate). Qed.

Lemma take_array_app n pre v post :
  length v = n → take_array n (pre ++ v ++ post) (length pre) = Some (v, length pre + n).
Proof.
  intros <-. unfold take_array. rewrite !length_app.
  rewrite (proj2 (Nat.leb_le _ _)) by lia. by rewrite drop_app_length, take_app_length.
Qed.

Lemma take_array_Some n input off v off' :
  take_array n input off = Some (v, off') ↔
  off + n ≤ length input ∧ v = take n (drop off input) ∧ off' = off + n.
Proof. unfold take_array. destruct (Nat.leb_spec (off + n) (length input)); naive_solver lia. Qed.

Lemma length_take_array n input off v off' :
  take_array n input off = Some (v, off') → length v = n.
Proof. intros (? & -> & _)%take_array_Some. rewrite length_take, length_drop. lia. Qed.

#[global] Instance encode_hex_inj : Inj (=) (=) encode_hex.
Proof.
  intros b b' Heq. assert (length b = length b') as Hl
    by (apply (f_equal length) in Heq; rewrite !length_encode_hex in Heq; lia).
  pose proof (proj2 (decode_hex_array_Some (length b) (encode_hex b) b) (conj eq_refl eq_refl)) as H1.
  pose proof (proj2 (decode_hex_array_Some (length b) (encode_hex b) b') (conj Heq (eq_sym Hl))) as H2.
  congruence.
Qed.

(** Successive slices of a buffer: what a run of [take_array]s reads. *)
Fixpoint slices (widths : list nat) (b : bytes) : list bytes :=
  match widths with
  | [] => []
  | w :: widths => take w b :: slices widths (drop w b)
  end.

Lemma concat_slices ws b : length b = sum_list ws → concat (slices ws b) = b.
Proof.
  revert b; induction ws as [|w ws IH]; intros b; simpl; intros H.
  - by apply nil_length_inv in H.
  - rewrite IH by (rewrite length_drop; lia). apply take_drop.
Qed.

Lemma slices_concat ws (vs : list bytes) :
  Forall2 (λ w v, length v = w) ws vs → slices ws (concat vs) = vs.
Proof.
  induction 1 as [|w v ws vs <- _ IH]; [done|]. cbn [slices concat].
  by rewrite take_app_length, drop_app_length, IH.
Qed.

Lemma length_concat_widths ws (vs : list bytes) :
  Forall2 (λ w v, length v = w) ws vs → length (concat vs) = sum_list ws.
Proof.
  induction 1 as [|w v ws vs <- _ IH]; [done|]. cbn [concat sum_list]. rewrite length_app, IH. done.
Qed.

Lemma take_array_ok n b off :
  off + n ≤ length b → take_array n b off = Some (take n (drop off b), off + n).
Proof. intros H. by apply take_array_Some. Qed.

Lemma take_u64_ok b off :
  off + 8 ≤ length b → take_u64 b off = Some (from_be (take 8 (drop off b)), off + 8).
Proof. intros H. unfold take_u64. by rewrite take_array_ok. Qed.

Lemma take_byte_ok b off :
  off < length b → ∃ x, take_byte b off = Some (x, S off) ∧ take 1 (drop off b) = [x].
Proof.
  intros H. destruct (lookup_lt_is_Some_2 b off H) as [x Hx]. exists x.
  unfold take_byte. rewrite Hx. split; [done|]. by rewrite (drop_S _ _ _ Hx).
Qed.

Lemma take_byte_slice b off x : take 1 (drop off b) = [x] → take_byte b off = Some (x, S off).
Proof.
  intros H. unfold take_byte.
  assert (b !! off = Some x) as ->; [|done].
  rewrite <-(Nat.add_0_r off), <-lookup_drop. destruct (drop off b); simplify_eq/=; done.
Qed.

Lemma be_bytes_slice b off : off + 8 ≤ length b → be_bytes 8 (from_be (take 8 (drop off b))) = take 8 (drop off b).
Proof.
  intros H. assert (length (take 8 (drop off b)) = 8) as Hl by (rewrite length_take, length_drop; lia).
  rewrite <-Hl at 1. apply be_bytes_from_be.
Qed.

Lemma length_slice n (b : bytes) off : off + n ≤ length b → length (take n (drop off b)) = n.
Proof. intros. rewrite length_take, length_drop. lia. Qed.

(** Reading a field whose slice of the buffer is known. *)
Lemma bind_take_array {A} (f : bytes * nat → option A) n b off v r :
  take n (drop off b) = v → off + n ≤ length b → f (v, off + n) = r →
  take_array n b off ≫= f = r.
Proof. intros <- Hle Hf. by rewrite take_array_ok. Qed.

Lemma bind_take_u64 {A} (f : N * nat → option A) b off x r :
  take 8 (drop off b) = be_bytes 8 x → is_u64 x → off + 8 ≤ length b → f (x, off + 8) = r →
  take_u64 b off ≫= f = r.
Proof. intros E Hx Hle Hf. rewrite take_u64_ok by done. by rewrite E, from_be_u64. Qed.

Lemma bind_take_byte {A} (f : byte * nat → option A) b off x r :
  take 1 (drop off b) = [x] → f (x, S off) = r → take_byte b off ≫= f = r.
Proof. intros E Hf. by rewrite (take_byte_slice _ _ _ E). Qed.

(** What a successful read tells about the buffer. *)
Lemma take_u64_Some b off x o :
  take_u64 b off = Some (x, o) →
  o = off + 8 ∧ is_u64 x ∧ be_bytes 8 x = take 8 (drop off b).
Proof.
  unfold take_u64. intros ([v o'] & E & [= <- <-])%bind_Some.
  apply take_array_Some in E as (Hle & -> & ->).
  split_and!; [done|apply is_u64_from_be, length_slice; lia|by apply be_bytes_slice].
Qed.

Lemma take_byte_Some b off x o :
  take_byte b off = Some (x, o) → o = S off ∧ [x] = take 1 (drop off b).
Proof.
  unfold take_byte. intros (v & E & [= <- <-])%bind_Some.
  split; [done|]. by rewrite (drop_S _ _ _ E).
Qed.

Lemma valid_key_id_spec k :
  valid_key_id k = true →
  k ≠ [] ∧ length k ≤ MAX_GRANT_KEY_ID_BYTES ∧ is_ascii k = true ∧ DOT ∉ k.
Proof.
  unfold valid_key_id. intros H. reflect_guards.
  assert (∀ b, (is_ascii_lowercase b || is_ascii_digit b || bool_decide (b = byte_of 45)
    || bool_decide (b = byte_of 95)) = true → is_ascii_byte b = true ∧ b ≠ DOT) as Hb
    by (intros b; destruct b; vm_compute; by intros).
  match goal with H : forallb _ _ = true |- _ => rewrite forallb_forall in H; rename H into Hall end.
  split_and!; [done|done| |].
  - apply forallb_forall. intros x Hx. by apply Hb, Hall.
  - intros Hd%list_elem_of_In. by apply Hall, Hb in Hd as [_ ?].
Qed.

(** The slices, of widths [ws], of a buffer [b] that is the concatenation of
    the fields [vs]: one hypothesis each. *)
Ltac known_slices b ws vs Hb Hw :=
  let Hs := fresh "Hs" in
  assert (slices ws b = vs) as Hs by (rewrite Hb; by apply slices_concat);
  let ws' := eval red in ws in
  let vs' := eval red in vs in
  change (slices ws' b = vs') in Hs;
  cbn [slices] in Hs; rewrite !drop_drop in Hs; injection Hs as.

Ltac closed_le Hl := rewrite Hl; apply Nat.leb_le; reflexivity.

(** Run a payload decoder on a buffer of known slices and length. *)
Ltac read_fields Hl :=
  repeat first
    [ eapply bind_take_u64; [eassumption|eassumption|closed_le Hl|cbv beta iota]
    | eapply bind_take_byte; [eassumption|cbv beta iota]
    | eapply bind_take_array; [eassumption|closed_le Hl|cbv beta iota] ].

(** Invert a payload decoder that succeeded. *)
Ltac invert_fields H :=
  repeat (let x := fresh "x" in let o := fresh "o" in let E := fresh "E" in
          apply bind_Some in H as ([x o] & E & H);
          first [ apply take_u64_Some in E as (-> & ? & ?)
                | apply take_byte_Some in E as (-> & ?)
                | apply take_array_Some in E as (? & -> & ->) ]).

(** The fields a decoder read are the slices of the buffer. *)
Ltac fields_are_slices :=
  cbn -[take drop be_bytes];
  repeat match goal with
  | H : be_bytes 8 _ = take _ _ |- _ => rewrite H; clear H
  | H : [_] = take _ _ |- _ => rewrite H; clear H
  end; rewrite !drop_drop; reflexivity.

(* ------------------------------------------------------------------ *)
(** ** Tokens: lemmas *)

Section token_lemmas.
Context {C : Crypto} {F : GrantFamily} (CL : CryptoLaws C) (FL : GrantFamilyLaws F).
Implicit Types (a : GrantAuthority) (g : Payload).

Lemma length_signed_part k h : length (signed_part k h) = 4 + length k + length h.
Proof. unfold signed_part. rewrite !length_app. simpl. rewrite length_app. simpl. lia. Qed.

Lemma length_encode_and_sign a g :
  payload_ok g → length (encode_and_sign a g) = 69 + length (key_id a) + 2 * payload_bytes.
Proof.
  intros Hg. unfold encode_and_sign. rewrite length_app, length_signed_part. simpl.
  rewrite !length_encode_hex, hmac_sha256_length, encode_payload_length by done. lia.
Qed.

Lemma encode_and_sign_fits a g :
  authority_ok a → payload_ok g →
  length (encode_and_sign a g) ≤ MAX_REQUEST_GRANT_HEADER_BYTES.
Proof.
  intros (Hk & _) Hg. apply valid_key_id_spec in Hk as (_ & Hk & _).
  rewrite length_encode_and_sign by done. pose proof payload_fits.
  unfold MAX_GRANT_KEY_ID_BYTES, MAX_REQUEST_GRANT_HEADER_BYTES in *. lia.
Qed.

Lemma signed_part_dot k h s :
  signed_part k h ++ DOT :: s = GRANT_VERSION ++ DOT :: (k ++ DOT :: (h ++ DOT :: s)).
Proof. unfold signed_part. rewrite <-(assoc_L (++)). f_equal. cbn. by rewrite <-(assoc_L (++)). Qed.

Lemma split_token k h s :
  DOT ∉ k → split_on DOT (signed_part k (encode_hex h) ++ DOT :: encode_hex s)
  = [GRANT_VERSION; k; encode_hex h; encode_hex s].
Proof.
  intros Hk. rewrite signed_part_dot.
  rewrite split_on_app by (by apply (bool_decide_unpack _)).
  rewrite split_on_app by done. rewrite split_on_app by apply dot_not_in_hex.
  by rewrite split_on_none by apply dot_not_in_hex.
Qed.

Lemma is_ascii_signed_part k h :
  is_ascii k = true → is_ascii (signed_part k (encode_hex h)) = true.
Proof.
  intros Hk. unfold signed_part. rewrite is_ascii_app. simpl. rewrite is_ascii_app. simpl.
  by rewrite Hk, is_ascii_encode_hex.
Qed.

(** Parsing inverts signing. *)
Lemma parse_encode a g :
  authority_ok a → payload_ok g → parse_and_verify a (encode_and_sign a g) = Ok g.
Proof.
  intros Ha Hg. pose proof (encode_and_sign_fits a g Ha Hg) as Hfit.
  destruct Ha as (Hk & _). apply valid_key_id_spec in Hk as (_ & _ & Hascii & Hdot).
  pose proof (encode_payload_length g Hg) as Hlen.
  unfold parse_and_verify, encode_and_sign in *. cbv zeta in *.
  set (sg := signed_part (key_id a) (encode_hex (encode_payload g))) in *.
  set (tok := sg ++ DOT :: encode_hex (hmac_sha256 (key a) sg)) in *.
  assert (split_on DOT tok = [GRANT_VERSION; key_id a; encode_hex (encode_payload g);
    encode_hex (hmac_sha256 (key a) sg)]) as -> by (by apply split_token).
  assert (length GRANT_VERSION + 1 + length (key_id a) + 1
    + length (encode_hex (encode_payload g)) = length sg) as Hsg.
  { unfold sg. rewrite length_signed_part. change (length GRANT_VERSION) with 2. lia. }
  ok_step.
  { rewrite !orb_false_iff. split_and!; [by apply bytes_eqb_false|by apply Nat.ltb_ge|].
    apply negb_false_iff. unfold tok. rewrite is_ascii_app.
    unfold sg at 1. rewrite is_ascii_signed_part by done. apply is_ascii_encode_hex. }
  do 4 (ok_step; [reflexivity|]).
  ok_step; [apply bool_decide_eq_false; by intros []|].
  ok_step; [by rewrite bytes_eqb_refl|]. ok_step; [by rewrite bytes_eqb_refl|].
  ok_step.
  { rewrite !length_encode_hex, hmac_sha256_length, Hlen, Nat.mul_comm, Nat.eqb_refl. done. }
  ok_step; [apply decode_hex_array_Some; by rewrite Hlen|].
  ok_step; [apply decode_hex_array_Some; by rewrite hmac_sha256_length|].
  ok_step.
  { rewrite Hsg. unfold tok. rewrite (proj2 (Nat.leb_le _ _)) by (rewrite length_app; lia).
    by rewrite take_app_length. }
  ok_step; [unfold verify_mac; by rewrite bytes_eqb_refl|].
  apply ok_or_Ok. by apply decode_encode_payload.
Qed.

(** Only signed tokens parse: no other spelling of a grant is accepted. *)
Lemma parse_canonical a t g :
  parse_and_verify a t = Ok g → payload_ok g ∧ t = encode_and_sign a g.
Proof.
  unfold parse_and_verify. intros H. inv_ok H. reflect_guards.
  pose proof (join_split_on DOT t) as Hj.
  destruct (split_on DOT t) as [|s0 [|s1 [|s2 [|s3 [|s4 rest]]]]]; simplify_eq/=.
  2: { exfalso. match goal with H : ¬ is_Some (Some _) |- _ => by apply H end. }
  match goal with H : decode_hex_array payload_bytes _ = _ |- _ =>
    apply decode_hex_array_Some in H as [-> Hl1] end.
  match goal with H : decode_hex_array MAC_BYTES _ = _ |- _ =>
    apply decode_hex_array_Some in H as [-> Hl2] end.
  destruct (encode_decode_payload _ _ Hl1 H) as [Hg <-]. split; [done|].
  unfold encode_and_sign, verify_mac, signed_part in *. case_match; simplify_eq. reflect_guards.
  cbv zeta. simplify_eq/=. rewrite take_segments in *. subst. by rewrite <-(assoc_L (++)).
Qed.

Lemma parse_iff a t g :
  authority_ok a → parse_and_verify a t = Ok g ↔ payload_ok g ∧ t = encode_and_sign a g.
Proof. intros Ha. split; [apply parse_canonical|]. intros [? ->]. by apply parse_encode. Qed.

Lemma parse_canonical_session_iff s u : parse_canonical_session s = Ok u ↔ canonical_session s u.
Proof.
  unfold parse_canonical_session, canonical_session. split.
  - intros H. inv_ok H. reflect_guards. naive_solver.
  - intros [Hp Hs]. rewrite Hp. simpl. by rewrite Hs, bytes_eqb_refl.
Qed.

Lemma canonical_session_length s u : canonical_session s u → length u = SESSION_BYTES.
Proof. intros [H _]. by eapply uuid_parse_str_length. Qed.

(** The checks pass exactly on the tokens [issue_at] builds for this principal,
    session and target. *)
Lemma check_grant_iff a tok s tgt g :
  authority_ok a → target_ok tgt →
  check_grant a tok s tgt = Ok g ↔
  ∃ u gid i e, canonical_session s u ∧ length gid = GRANT_ID_BYTES ∧ is_u64 i ∧ is_u64 e ∧
    g = grant_for a gid u tgt i e ∧ tok = Some (token_for a gid u tgt i e).
Proof.
  intros Ha Ht. unfold check_grant, token_for. split.
  - intros H. inv_ok H. simplify_eq. reflect_guards.
    match goal with H : parse_canonical_session _ = _ |- _ =>
      apply parse_canonical_session_iff in H as Hs end.
    match goal with H : parse_and_verify _ _ = _ |- _ => apply parse_canonical in H as [Hg ->] end.
    match goal with H : binding_mismatch _ _ _ _ = false |- _ =>
      apply binding_mismatch_iff in H as Hb; [|done..|by eapply canonical_session_length] end.
    destruct (payload_fields _ Hg) as (? & ? & ?).
    match goal with H : ?t = Some _ |- _ => is_var t; rewrite H end.
    eexists _, _, _, _. rewrite <-Hb. done.
  - intros (u & gid & i & e & Hs & ? & ? & ? & -> & ->).
    pose proof (canonical_session_length _ _ Hs).
    assert (payload_ok (grant_for a gid u tgt i e)) by (by apply grant_for_ok).
    ok_step; [done|]. ok_step; [by apply parse_canonical_session_iff|].
    ok_step; [by apply parse_encode|]. ok_step; [|done].
    apply binding_mismatch_iff; [done..|].
    by rewrite payload_id_grant_for, payload_issued_grant_for, payload_expires_grant_for.
Qed.

(** [consume_grant] accepts a token exactly when it is an issued one for the
    session and target presented, and the replay state accepts its window. *)
Lemma consume_grant_ok_iff a w tok s tgt now w' :
  authority_ok a → target_ok tgt →
  consume_grant a w tok s tgt now = (w', Ok ()) ↔
  ∃ u gid i e, canonical_session s u ∧ length gid = GRANT_ID_BYTES ∧ is_u64 i ∧ is_u64 e ∧
    tok = Some (token_for a gid u tgt i e) ∧
    consume_shared w (replay a) gid i e now MAX_GRANT_LIFETIME_SECONDS
      MAX_GRANT_FUTURE_SKEW_SECONDS = (w', Ok ()).
Proof.
  intros Ha Ht. unfold consume_grant, consume_replay. split.
  - destruct (check_grant a tok s tgt) as [g|err] eqn:E; [|done].
    apply check_grant_iff in E as (u & gid & i & e & ? & ? & ? & ? & -> & ->); [|done..].
    rewrite payload_id_grant_for, payload_issued_grant_for, payload_expires_grant_for.
    destruct (consume_shared _ _ _ _ _ _ _ _) as [w1 r] eqn:Ec. intros [= -> Hr].
    apply map_err_Ok in Hr as ->. eauto 10.
  - intros (u & gid & i & e & ? & ? & ? & ? & -> & Hc).
    rewrite (proj2 (check_grant_iff _ _ _ _ (grant_for a gid u tgt i e) Ha Ht))
      by (exists u, gid, i, e; done).
    by rewrite payload_id_grant_for, payload_issued_grant_for, payload_expires_grant_for, Hc.
Qed.

(** A refused check leaves the process untouched: nothing is consumed. *)
Lemma consume_grant_refused a w tok s tgt now e :
  check_grant a tok s tgt = Err e → consume_grant a w tok s tgt now = (w, Err e).
Proof. unfold consume_grant. by intros ->. Qed.

(** The replay state's view of an accepted presentation. *)
Lemma consume_shared_step w w' h gid i e now r :
  consume_shared w h gid i e now MAX_GRANT_LIFETIME_SECONDS MAX_GRANT_FUTURE_SKEW_SECONDS = (w', r) →
  world_step w (Consumed h (mkGrantUse gid i e now MAX_GRANT_LIFETIME_SECONDS
    MAX_GRANT_FUTURE_SKEW_SECONDS) r) w'.
Proof. intros H. by apply step_consume. Qed.

(** [issue_at] then [consume_at] inside the window, against a replay state that
    is available, has room and has not seen the grant. *)
Lemma consume_issued a w s u tgt gid issued now st :
  authority_ok a → target_ok tgt → canonical_session s u → length gid = GRANT_ID_BYTES →
  (issued + GRANT_TTL_SECONDS ≤ u64_max)%N →
  (issued ≤ now + MAX_GRANT_FUTURE_SKEW_SECONDS)%N → (now < issued + GRANT_TTL_SECONDS)%N →
  heap w !! replay a = Some (Mutex_new st) →
  clock_allows (last_observed_unix_seconds st) now →
  live_map now (consumed st) !! gid = None →
  (N.of_nat (size (live_map now (consumed st))) < capacity st)%N →
  ∃ w', consume_grant a w (Some (token_for a gid u tgt issued (issued + GRANT_TTL_SECONDS)))
          s tgt now = (w', Ok ()).
Proof.
  unfold GRANT_TTL_SECONDS, MAX_GRANT_FUTURE_SKEW_SECONDS, u64_max.
  intros Ha Ht Hs Hgid Hmax Hskew Hexp Hheap Hclk Hlive Hroom.
  set (use := mkGrantUse gid issued (issued + 60) now MAX_GRANT_LIFETIME_SECONDS 5).
  assert (∃ st', consume_use st use = (st', Ok ())) as is_Some_ok.
  { destruct (consume_use st use) as [st' r] eqn:E. pose proof (consume_outcome_of _ _ _ _ E) as Ho.
    exists st'. f_equal.
    assert (valid_window use = Ok ()) as Hw.
    { apply valid_window_Ok. simpl. unfold MAX_GRANT_LIFETIME_SECONDS, saturating_add64, u64_max.
      split_and!; lia. }
    destruct Ho as [l Hl Hlt| | | |]; simpl in *; try congruence; [|lia].
    specialize (Hclk _ Hl). lia. }
  destruct is_Some_ok as [st' Hst]. eexists.
  apply consume_grant_ok_iff; [done..|].
  exists u, gid, issued, (issued + 60)%N. unfold is_u64, u64_max. split_and!; [done|done|lia|lia|done|].
  unfold consume_shared, lock_state. rewrite Hheap. cbn [poisoned guarded Mutex_new].
  unfold consume_use in Hst. simpl in Hst. unfold MAX_GRANT_FUTURE_SKEW_SECONDS. by rewrite Hst.
Qed.

(** A token issued for one session and target is consumed for another only if
    the two grants are the same payload. *)
Lemma consume_issued_same a w u gid tgt i e s' tgt' now w' :
  authority_ok a → target_ok tgt → target_ok tgt' → length u = SESSION_BYTES →
  length gid = GRANT_ID_BYTES → is_u64 i → is_u64 e →
  consume_grant a w (Some (token_for a gid u tgt i e)) s' tgt' now = (w', Ok ()) →
  ∃ u', canonical_session s' u' ∧ grant_for a gid u tgt i e = grant_for a gid u' tgt' i e.
Proof.
  intros Ha Ht Ht' Hu Hg Hi He H.
  apply consume_grant_ok_iff in H as (u' & gid' & i' & e' & Hs' & Hg' & Hi' & He' & Htok & _);
    [|done..].
  exists u'. split; [done|]. apply (inj Some) in Htok. unfold token_for in Htok.
  pose proof (canonical_session_length _ _ Hs').
  pose proof (parse_encode a (grant_for a gid u tgt i e) Ha ltac:(by apply grant_for_ok)) as P1.
  pose proof (parse_encode a (grant_for a gid' u' tgt' i' e') Ha ltac:(by apply grant_for_ok)) as P2.
  rewrite Htok, P2 in P1. injection P1 as Heq.
  pose proof (f_equal payload_id Heq) as Eid. pose proof (f_equal payload_issued Heq) as Eis.
  pose proof (f_equal payload_expires Heq) as Eex.
  rewrite !payload_id_grant_for in Eid. rewrite !payload_issued_grant_for in Eis.
  rewrite !payload_expires_grant_for in Eex. congruence.
Qed.

Lemma canonical_session_inj s s' u : canonical_session s u → canonical_session s' u → s = s'.
Proof. intros [_ <-] [_ <-]. done. Qed.

(** Once accepted, a token is never accepted again by the authority, whatever
    happens in the process in between. *)
Lemma consume_grant_once a w w1 w2 w3 tok s s' tgt tgt' now now' es :
  authority_ok a → target_ok tgt → target_ok tgt' → world_ok w →
  consume_grant a w tok s tgt now = (w1, Ok ()) → world_run w1 es w2 →
  consume_grant a w2 tok s' tgt' now' ≠ (w3, Ok ()).
Proof.
  intros Ha Ht Ht' Hw H1 Hrun H2.
  apply consume_grant_ok_iff in H1 as (u & gid & i & e & Hs & Hg & Hi & He & -> & Hc); [|done..].
  apply consume_grant_ok_iff in H2 as (u' & gid' & i' & e' & Hs' & Hg' & Hi' & He' & Htok & Hc');
    [|done..].
  assert (grant_for a gid u tgt i e = grant_for a gid' u' tgt' i' e') as Heq.
  { pose proof (canonical_session_length _ _ Hs). pose proof (canonical_session_length _ _ Hs').
    apply (inj Some) in Htok. unfold token_for in Htok.
    pose proof (parse_encode a (grant_for a gid u tgt i e) Ha ltac:(by apply grant_for_ok)) as P1.
    pose proof (parse_encode a (grant_for a gid' u' tgt' i' e') Ha ltac:(by apply grant_for_ok)) as P2.
    rewrite Htok in P1. congruence. }
  pose proof (f_equal payload_id Heq) as Eid. pose proof (f_equal payload_expires Heq) as Eex.
  rewrite !payload_id_grant_for in Eid. rewrite !payload_expires_grant_for in Eex.
  apply consume_shared_step in Hc. apply consume_shared_step in Hc'.
  pose proof (spent_at_run _ _ _ _ _ _ Hrun (world_step_ok _ _ _ Hc Hw)
    (consumed_ok_spent _ _ _ _ Hc)) as Hsp.
  simpl in Hsp. subst gid' e'. by eapply (spent_at_refused w2), Hc'.
Qed.

(** A successful constructor yields a well-formed authority that binds exactly
    the configured principal's digest. *)
Lemma from_hex_key_ok cap dom w kid khex secret c w' a :
  from_hex_key_with_capacity cap dom w kid khex secret c = (w', Ok a) →
  authority_ok a ∧ key_id a = kid ∧ encode_hex (key a) = khex ∧
  principal_digest a = principal_binding dom (key a) secret ∧
  shared_replay_state w cap kid (key a) (principal_digest a) c = (w', Ok (replay a)).
Proof.
  unfold from_hex_key_with_capacity. intros H.
  destruct (negb (valid_key_id kid) || _ || _ || _) eqn:Eg; [done|]. reflect_guards.
  destruct (decode_hex_array GRANT_KEY_BYTES khex) as [key|] eqn:Ek; [|done].
  apply decode_hex_array_Some in Ek as [-> Hkey].
  destruct (shared_replay_state _ _ _ _ _ _) as [w1 r] eqn:Er. injection H as -> H. inv_ok H.
  apply map_err_Ok in E as ->. simplify_eq. simpl. unfold authority_ok. simpl. split_and!; try done.
  apply hmac_sha256_length.
Qed.
End token_lemmas.

(* ------------------------------------------------------------------ *)
(** ** Properties of every family *)

(** C26: the token format is exact.  An authority accepts a token as a grant if
    and only if it is, byte for byte, the token the authority signs for that
    well-formed grant: there is no second spelling of a token and no accepted
    token without the authority's MAC. *)
Theorem token_format_exact `{C : Crypto} (F : GrantFamily) (CL : CryptoLaws C)
    (FL : GrantFamilyLaws F) a t g :
  authority_ok a →
  parse_and_verify a t = Ok g ↔ payload_ok g ∧ t = encode_and_sign a g.
Proof. by apply parse_iff. Qed.

(** Every token an authority signs fits the request header the service
    admits. *)
Theorem issued_tokens_fit_header `{C : Crypto} (F : GrantFamily) (CL : CryptoLaws C)
    (FL : GrantFamilyLaws F) a g :
  authority_ok a → payload_ok g →
  length (encode_and_sign a g) ≤ MAX_REQUEST_GRANT_HEADER_BYTES.
Proof. by apply encode_and_sign_fits. Qed.

(** C12: single use, end to end.  If an authority of any family consumes a token,
    then after any further activity of the process it never consumes that token
    again, for any session or target. *)
Theorem token_consumed_at_most_once `{C : Crypto} (F : GrantFamily) (CL : CryptoLaws C)
    (FL : GrantFamilyLaws F) a w w1 w2 w3 tok s s' tgt tgt' now now' es :
  authority_ok a → target_ok tgt → target_ok tgt' → world_ok w →
  consume_grant a w tok s tgt now = (w1, Ok ()) → world_run w1 es w2 →
  consume_grant a w2 tok s' tgt' now' ≠ (w3, Ok ()).
Proof. by apply consume_grant_once. Qed.

(** A grant constructor succeeds only with a valid key identifier and a
    canonical 64-digit key, and then the authority binds the configured
    principal under that key and holds the shared replay state of exactly this
    family, key identifier, key and principal. *)
Theorem constructed_authority_ok `{C : Crypto} (CL : CryptoLaws C) cap dom w kid khex secret c w' a :
  from_hex_key_with_capacity cap dom w kid khex secret c = (w', Ok a) →
  authority_ok a ∧ key_id a = kid ∧ encode_hex (key a) = khex ∧
  binds_static_principal dom a (Some secret) = true ∧
  shared_replay_state w cap kid (key a) (principal_digest a) c = (w', Ok (replay a)).
Proof.
  intros H. apply (from_hex_key_ok CL) in H as (? & ? & ? & Hp & ?). split_and!; try done.
  unfold binds_static_principal. rewrite <-Hp. apply bytes_eqb_refl.
Qed.
