(* ===== verification/GrantTargets.v ===== *)
(** * What a grant is about

    The parts of a target every grant family shares: the digest of a normalized
    path, and the identity of a file as its descriptor gave it. *)

From S2P Require Import Prelude RequestGrantCapability GrantReplay GrantToken.

(** [u32::try_from(component.len())]. *)
Definition u32_of_len (c : bytes) : option N :=
  if (N.of_nat (length c) <=? u32_max)%N then Some (N.of_nat (length c)) else None.
Definition checked_add32 (a b : N) : option N :=
  if (a + b <=? u32_max)%N then Some (a + b)%N else None.

(** The loop: the message hashed so far and the component count. *)
Fixpoint digest_components (components : list bytes) (message : bytes) (component_count : N)
    : GrantResult (bytes * N) :=
  match components with
  | [] => Ok (message, component_count)
  | component :: rest =>
    length ← ok_or (u32_of_len component) GrantError.TargetInvalid;
    let message := message ++ be_bytes 4 length ++ component in
    component_count ← ok_or (checked_add32 component_count 1) GrantError.TargetInvalid;
    digest_components rest message component_count
  end.

(** The complete message of [normalized_path_digest]. *)
Definition path_message (domain : bytes) (components : list bytes) : GrantResult bytes :=
  '(message, component_count) ← digest_components components domain 0;
  _ ← fail_if (component_count =? 0)%N GrantError.TargetInvalid;
  Ok (message ++ be_bytes 4 component_count).

Definition normalized_path_digest `{Crypto} (domain : bytes) (components : list bytes)
    : GrantResult bytes :=
  message ← path_message domain components;
  Ok (sha256 message).

(** The length-framed components. *)
Definition frame (components : list bytes) : bytes :=
  concat ((λ c, be_bytes 4 (N.of_nat (length c)) ++ c) <$> components).

Definition components_ok (components : list bytes) : Prop :=
  components ≠ [] ∧ (N.of_nat (length components) ≤ u32_max)%N ∧
  Forall (λ c, (N.of_nat (length c) ≤ u32_max)%N) components.

(** Two different paths whose hashed messages have the same SHA-256 digest. *)
Definition path_collision `{Crypto} (domain : bytes) (cs cs' : list bytes) : Prop :=
  ∃ m m', path_message domain cs = Ok m ∧ path_message domain cs' = Ok m' ∧
    m ≠ m' ∧ sha256 m = sha256 m'.

(* ------------------------------------------------------------------ *)
(** ** Lemmas *)

Lemma frame_cons c cs : frame (c :: cs) = be_bytes 4 (N.of_nat (length c)) ++ c ++ frame cs.
Proof. unfold frame. rewrite fmap_cons. cbn [concat]. by rewrite (assoc_L (++)). Qed.

Lemma digest_components_Ok cs msg n msg' n' :
  (n ≤ u32_max)%N →
  digest_components cs msg n = Ok (msg', n') ↔
  msg' = msg ++ frame cs ∧ n' = (n + N.of_nat (length cs))%N ∧ (n' ≤ u32_max)%N ∧
  Forall (λ c, (N.of_nat (length c) ≤ u32_max)%N) cs.
Proof.
  revert msg n; induction cs as [|c cs IH]; intros msg n Hn; cbn [digest_components].
  - unfold frame. simpl. rewrite app_nil_r, N.add_0_r. split.
    + intros [= <- <-]. done.
    + intros (-> & -> & _). done.
  - unfold u32_of_len, checked_add32.
    destruct (N.leb_spec (N.of_nat (length c)) u32_max) as [Hc|Hc]; simpl.
    2: { split; [done|]. intros (_ & _ & _ & Hf). inversion Hf; subst. lia. }
    destruct (N.leb_spec (n + 1) u32_max) as [Hn'|Hn']; simpl.
    2: { split; [done|]. intros (_ & -> & ? & _). lia. }
    rewrite IH by done. rewrite Forall_cons, frame_cons, <-!(assoc_L (++)). cbn [length].
    split; intros (-> & -> & ? & ?); (split_and!; [done|lia|lia|naive_solver..]).
Qed.

Lemma path_message_Ok dom cs m :
  path_message dom cs = Ok m ↔
  components_ok cs ∧ m = dom ++ frame cs ++ be_bytes 4 (N.of_nat (length cs)).
Proof.
  unfold path_message, components_ok. split.
  - intros H. inv_ok H. destruct x as [msg n]. inv_ok H.
    apply digest_components_Ok in E as (-> & -> & ? & ?); [|done]. reflect_guards.
    simplify_eq. rewrite <-(assoc_L (++)). split_and!; try done.
    intros ->. done.
  - intros ((Hne & Hl & Hf) & ->). apply bind_Ok. eexists (_, _). split.
    { apply digest_components_Ok; done. }
    simpl. ok_step.
    { apply N.eqb_neq. destruct cs; simpl; [done|lia]. }
    by rewrite <-(assoc_L (++)).
Qed.

(** The framing is injective: it can be parsed back component by component. *)
Lemma frame_inj cs cs' a b :
  Forall (λ c, (N.of_nat (length c) ≤ u32_max)%N) cs →
  Forall (λ c, (N.of_nat (length c) ≤ u32_max)%N) cs' →
  frame cs ++ be_bytes 4 a = frame cs' ++ be_bytes 4 b → cs = cs'.
Proof.
  intros Hcs. revert cs'. induction Hcs as [|c cs Hc Hcs IH]; intros cs' Hcs'.
  - destruct cs' as [|c' cs']; [done|]. intros H%(f_equal length). exfalso.
    revert H. rewrite frame_cons, !length_app, !length_be_bytes. unfold frame. cbn. lia.
  - destruct Hcs' as [|c' cs' Hc' Hcs'].
    { intros H%(f_equal length). exfalso.
      revert H. rewrite frame_cons, !length_app, !length_be_bytes. unfold frame. cbn. lia. }
    rewrite !frame_cons, <-!(assoc_L (++)). intros H.
    apply app_inj_length in H as [Hl H]; [|by rewrite !length_be_bytes].
    apply be_bytes_inj in Hl; [|unfold u32_max in *; simpl; lia..]. apply Nat2N.inj in Hl.
    apply app_inj_length in H as [-> H]; [|done]. f_equal. by apply IH.
Qed.

Lemma path_message_inj dom cs cs' m :
  path_message dom cs = Ok m → path_message dom cs' = Ok m → cs = cs'.
Proof.
  intros [(_ & _ & Hf) ->]%path_message_Ok [(_ & _ & Hf') H%app_inv_head]%path_message_Ok.
  by apply frame_inj in H.
Qed.

(** Equal digests come from the same path, up to a SHA-256 collision between the
    two hashed messages. *)
Lemma path_digest_inj `{Crypto} dom cs cs' d :
  normalized_path_digest dom cs = Ok d → normalized_path_digest dom cs' = Ok d →
  cs = cs' ∨ path_collision dom cs cs'.
Proof.
  unfold normalized_path_digest. intros H1 H2. inv_ok H1. inv_ok H2.
  destruct (decide (x = x0)) as [->|Hne].
  - left. by eapply path_message_inj.
  - right. eexists _, _. split_and!; [done..|congruence].
Qed.

Lemma normalized_path_digest_length `{C : Crypto} (CL : CryptoLaws C) dom cs d :
  normalized_path_digest dom cs = Ok d → length d = DIGEST_BYTES.
Proof. unfold normalized_path_digest. intros H. inv_ok H. simplify_eq. apply sha256_length. Qed.

(** * Descriptor-derived file identities

    The private structs [WriteFileExistingIdentity] (write_file_grant.rs),
    [CopyFileSourceIdentity] (copy_file_grant.rs) and [TrashFileIdentity]
    (trash_file_grant.rs) are the same six fields with the same constructor
    checks; the record is declared once. *)

Record FileIdentity := mkIdentity {
  device : N;
  inode : N;
  file_size : N;
  ctime_seconds : Z;
  ctime_nanoseconds : Z;
  link_count : N;
}.

#[global] Instance file_identity_eq_dec : EqDecision FileIdentity.
Proof. solve_decision. Defined.

(** [(0..1_000_000_000).contains(&ctime_nanoseconds)]. *)
Definition valid_nanoseconds (n : Z) : bool := (0 <=? n)%Z && (n <? 1000000000)%Z.

Definition identity_new (device inode size : N) (ctime_seconds ctime_nanoseconds : Z)
    (link_count : N) : GrantResult FileIdentity :=
  _ ← fail_if (negb (link_count =? 1)%N || negb (valid_nanoseconds ctime_nanoseconds))
        GrantError.TargetInvalid;
  Ok (mkIdentity device inode size ctime_seconds ctime_nanoseconds link_count).

(** The six fields in the order every binding message hashes them. *)
Definition identity_fields (i : FileIdentity) : list bytes :=
  [be_bytes 8 (device i); be_bytes 8 (inode i); be_bytes 8 (file_size i);
   be_bytes_i64 (ctime_seconds i); be_bytes_i64 (ctime_nanoseconds i);
   be_bytes 8 (link_count i)].

(** The fields are machine integers. *)
Definition identity_ok (i : FileIdentity) : Prop :=
  is_u64 (device i) ∧ is_u64 (inode i) ∧ is_u64 (file_size i) ∧
  is_i64 (ctime_seconds i) ∧ is_i64 (ctime_nanoseconds i) ∧ is_u64 (link_count i).

Lemma identity_fields_widths i :
  Forall2 (λ w v, length v = w) [8; 8; 8; 8; 8; 8] (identity_fields i).
Proof. field_widths. Qed.

Lemma identity_fields_inj i j :
  identity_ok i → identity_ok j → identity_fields i = identity_fields j → i = j.
Proof.
  intros (? & ? & ? & ? & ? & ?) (? & ? & ? & ? & ? & ?) Heq.
  unfold identity_fields in Heq. split_items Heq.
  repeat match goal with
  | E : be_bytes 8 _ = _ |- _ => apply be_bytes_inj64 in E; [|assumption..]
  | E : be_bytes_i64 _ = _ |- _ => apply be_bytes_i64_inj in E; [|assumption..]
  end.
  destruct i, j; simpl in *; congruence.
Qed.

Lemma identity_new_Ok d i s cs cn l x :
  identity_new d i s cs cn l = Ok x ↔
  l = 1%N ∧ (0 ≤ cn < 1000000000)%Z ∧ x = mkIdentity d i s cs cn l.
Proof.
  unfold identity_new, valid_nanoseconds. split.
  - intros H. inv_ok H. reflect_guards. simplify_eq.
    match goal with H : (0 <=? _)%Z = true |- _ => apply Z.leb_le in H end.
    match goal with H : (_ <? _)%Z = true |- _ => apply Z.ltb_lt in H end. done.
  - intros (-> & Hn & ->). ok_step; [|done].
    destruct Hn as [Hlo Hhi].
    by rewrite (proj2 (Z.leb_le _ _) Hlo), (proj2 (Z.ltb_lt _ _) Hhi).
Qed.

Lemma length_concat_identity i : length (concat (identity_fields i)) = 48.
Proof. by rewrite (length_concat_widths _ _ (identity_fields_widths i)). Qed.
#[export] Hint Resolve length_concat_identity : widths.

Lemma concat_identity_inj i j :
  identity_ok i → identity_ok j → concat (identity_fields i) = concat (identity_fields j) → i = j.
Proof.
  intros Hi Hj Heq. apply (f_equal (slices [8; 8; 8; 8; 8; 8])) in Heq.
  rewrite !slices_concat in Heq by apply identity_fields_widths. by apply identity_fields_inj.
Qed.
