(* ===== verification/CreateDirectoryGrant.v ===== *)
(** * Create-directory grants

    [src/src/create_directory_grant.rs]: the target digest, the ten-field signed
    payload, and the authority's [issue_at] and [consume_at].  The file defines
    the family's operations, discharges the token interface and states what the
    authority guarantees. *)

From S2P Require Import Prelude RequestGrantCapability GrantReplay GrantToken GrantTargets.

Module CreateDirectory.

Definition TARGET_DIGEST_DOMAIN : bytes := bs "termux-mcp:create-directory-target:v1" ++ [x00].
Definition PRINCIPAL_BINDING_DOMAIN : bytes := bs "termux-mcp:static-principal:v1" ++ [x00].
Definition PAYLOAD_BYTES : nat :=
  GRANT_ID_BYTES + DIGEST_BYTES + SESSION_BYTES + 1 + 8 + 8 + DIGEST_BYTES + 1 + 8 + 8.

Record CreateDirectoryGrantTarget := mkTarget {
  root_device : N;
  root_inode : N;
  target_digest : bytes;
}.

Record ParsedGrant := mkParsedGrant {
  grant_id : bytes;
  g_principal_digest : bytes;
  g_session_id : bytes;
  g_capability : byte;
  g_root_device : N;
  g_root_inode : N;
  g_target_digest : bytes;
  g_posture : byte;
  issued_unix_seconds : N;
  expires_unix_seconds : N;
}.

(** The fields in the order [encode_payload] puts them, and their widths. *)
Definition fields (grant : ParsedGrant) : list bytes :=
    [grant_id grant; g_principal_digest grant; g_session_id grant; [g_capability grant];
     be_bytes 8 (g_root_device grant); be_bytes 8 (g_root_inode grant); g_target_digest grant;
     [g_posture grant]; be_bytes 8 (issued_unix_seconds grant);
     be_bytes 8 (expires_unix_seconds grant)].
Definition field_widths : list nat :=
  [GRANT_ID_BYTES; DIGEST_BYTES; SESSION_BYTES; 1; 8; 8; DIGEST_BYTES; 1; 8; 8].

Definition encode_payload (grant : ParsedGrant) : bytes := put_all PAYLOAD_BYTES (fields grant).

Definition decode_payload (payload : bytes) : option ParsedGrant :=
  '(grant_id, offset) ← take_array GRANT_ID_BYTES payload 0;
  '(principal_digest, offset) ← take_array DIGEST_BYTES payload offset;
  '(session_id, offset) ← take_array SESSION_BYTES payload offset;
  '(capability, offset) ← take_byte payload offset;
  '(root_device, offset) ← take_u64 payload offset;
  '(root_inode, offset) ← take_u64 payload offset;
  '(target_digest, offset) ← take_array DIGEST_BYTES payload offset;
  '(posture, offset) ← take_byte payload offset;
  '(issued, offset) ← take_u64 payload offset;
  '(expires, offset) ← take_u64 payload offset;
  if offset =? PAYLOAD_BYTES
  then Some (mkParsedGrant grant_id principal_digest session_id capability root_device root_inode
               target_digest posture issued expires)
  else None.

(** The widths of the fixed-size fields. *)
Definition grant_ok (g : ParsedGrant) : Prop :=
  length (grant_id g) = GRANT_ID_BYTES ∧ length (g_principal_digest g) = DIGEST_BYTES ∧
  length (g_session_id g) = SESSION_BYTES ∧ length (g_target_digest g) = DIGEST_BYTES ∧
  is_u64 (g_root_device g) ∧ is_u64 (g_root_inode g) ∧
  is_u64 (issued_unix_seconds g) ∧ is_u64 (expires_unix_seconds g).

Definition target_ok (t : CreateDirectoryGrantTarget) : Prop :=
  is_u64 (root_device t) ∧ is_u64 (root_inode t) ∧ length (target_digest t) = DIGEST_BYTES.

(** The record literal of [issue_at]. *)
Definition grant_for (self : GrantAuthority) (gid session : bytes)
    (target : CreateDirectoryGrantTarget) (now expires : N) : ParsedGrant :=
  mkParsedGrant gid (principal_digest self) session
    (RequestGrantCapability.wire_code RequestGrantCapability.CreateDirectory)
    (root_device target) (root_inode target) (target_digest target) MUTATING_POSTURE now expires.

(** The disjunction that makes [consume_at] answer [BindingMismatch]. *)
Definition binding_mismatch (self : GrantAuthority) (grant : ParsedGrant) (expected_session : bytes)
    (target : CreateDirectoryGrantTarget) : bool :=
  negb (bytes_eqb (g_principal_digest grant) (principal_digest self))
  || negb (bytes_eqb (g_session_id grant) expected_session)
  || negb (bool_decide (g_capability grant =
       RequestGrantCapability.wire_code RequestGrantCapability.CreateDirectory))
  || negb (g_root_device grant =? root_device target)%N
  || negb (g_root_inode grant =? root_inode target)%N
  || negb (bytes_eqb (g_target_digest grant) (target_digest target))
  || negb (bool_decide (g_posture grant = MUTATING_POSTURE)).

Section operations.
Context {C : Crypto}.

#[export] Instance family : GrantFamily := {|
  Payload := ParsedGrant;
  Target := CreateDirectoryGrantTarget;
  payload_bytes := PAYLOAD_BYTES;
  GrantToken.encode_payload := encode_payload;
  GrantToken.decode_payload := decode_payload;
  payload_id := grant_id;
  payload_issued := issued_unix_seconds;
  payload_expires := expires_unix_seconds;
  payload_ok := grant_ok;
  GrantToken.target_ok := target_ok;
  GrantToken.grant_for := grant_for;
  GrantToken.binding_mismatch := binding_mismatch;
|}.

Definition from_normalized_components (root_device root_inode : N) (components : list bytes)
    : GrantResult CreateDirectoryGrantTarget :=
  digest ← normalized_path_digest TARGET_DIGEST_DOMAIN components;
  Ok (mkTarget root_device root_inode digest).

Definition from_hex_key (w : ReplayWorld) (key_id key_hex static_principal_secret : bytes) :=
  from_hex_key_with_capacity RequestGrantCapability.CreateDirectory PRINCIPAL_BINDING_DOMAIN
    w key_id key_hex static_principal_secret MAX_CONSUMED_GRANTS.

(** [new_id] is the random identifier [Uuid::new_v4] draws. *)
Definition issue_at (self : GrantAuthority) (session_id : bytes)
    (target : CreateDirectoryGrantTarget) (now_unix_seconds : N) (new_id : bytes)
    : GrantResult bytes :=
  session_id ← parse_canonical_session session_id;
  expires_unix_seconds ←
    ok_or (checked_add64 now_unix_seconds GRANT_TTL_SECONDS) GrantError.LifetimeExceeded;
  Ok (encode_and_sign self (mkParsedGrant new_id (principal_digest self) session_id
        (RequestGrantCapability.wire_code RequestGrantCapability.CreateDirectory)
        (root_device target) (root_inode target) (target_digest target) MUTATING_POSTURE
        now_unix_seconds expires_unix_seconds)).

Definition consume_at (self : GrantAuthority) (w : ReplayWorld) (token : option bytes)
    (session_id : bytes) (target : CreateDirectoryGrantTarget) (now_unix_seconds : N)
    : ReplayWorld * GrantResult unit :=
  let checked : GrantResult ParsedGrant :=
    token ← ok_or token GrantError.Missing;
    expected_session ← parse_canonical_session session_id;
    grant ← parse_and_verify (F := family) self token;
    _ ← fail_if (binding_mismatch self grant expected_session target) GrantError.BindingMismatch;
    Ok grant in
  match checked with
  | Err e => (w, Err e)
  | Ok grant =>
    consume_replay self w (grant_id grant) (issued_unix_seconds grant)
      (expires_unix_seconds grant) now_unix_seconds
  end.
End operations.

(* ------------------------------------------------------------------ *)
(** ** The interface, discharged *)

Lemma mkdir_fields_widths g : grant_ok g → Forall2 (λ w v, length v = w) field_widths (fields g).
Proof.
  intros (H1 & H2 & H3 & H4 & _). field_widths.
Qed.

Lemma mkdir_encode_payload_concat g : grant_ok g → encode_payload g = concat (fields g).
Proof. intros Hg. apply put_all_concat. by rewrite (length_concat_widths _ _ (mkdir_fields_widths g Hg)). Qed.

Lemma mkdir_length_encode_payload g : grant_ok g → length (encode_payload g) = PAYLOAD_BYTES.
Proof.
  intros Hg. rewrite mkdir_encode_payload_concat by done.
  by rewrite (length_concat_widths _ _ (mkdir_fields_widths g Hg)).
Qed.

Lemma mkdir_decode_encode g : grant_ok g → decode_payload (encode_payload g) = Some g.
Proof.
  intros Hg. pose proof (mkdir_length_encode_payload g Hg) as Hl. pose proof (mkdir_fields_widths g Hg) as Hw.
  pose proof (mkdir_encode_payload_concat g Hg) as Hb. revert Hb Hl.
  generalize (encode_payload g). intros b Hb Hl.
  destruct Hg as (H1 & H2 & H3 & H4 & U1 & U2 & U3 & U4).
  known_slices b field_widths (fields g) Hb Hw.
  unfold decode_payload. read_fields Hl.
  by destruct g.
Qed.

Lemma mkdir_encode_decode b g :
  length b = PAYLOAD_BYTES → decode_payload b = Some g → grant_ok g ∧ encode_payload g = b.
Proof.
  intros Hl H. unfold decode_payload in H. invert_fields H. case_match; simplify_eq.
  match goal with |- grant_ok ?g ∧ _ => assert (grant_ok g) as Hg end.
  { unfold grant_ok; cbn -[take drop]. rewrite <-(drop_0 b) at 1.
    split_and!; try assumption; by apply length_slice. }
  split; [done|]. rewrite mkdir_encode_payload_concat by done.
  transitivity (concat (slices field_widths b)); [f_equal; unfold fields, field_widths; fields_are_slices|].
  by apply concat_slices.
Qed.

Lemma mkdir_binding_mismatch_iff a p s t :
  binding_mismatch a p s t = false ↔
  p = grant_for a (grant_id p) s t (issued_unix_seconds p) (expires_unix_seconds p).
Proof.
  unfold binding_mismatch, grant_for. split.
  - intros H. reflect_guards. destruct p; simpl in *. congruence.
  - intros ->. simpl. rewrite !bytes_eqb_refl, !N.eqb_refl. done.
Qed.

#[export] Instance family_laws `{C : Crypto} : GrantFamilyLaws family.
Proof.
  split; simpl.
  - apply Nat.leb_le. reflexivity.
  - apply mkdir_length_encode_payload.
  - apply mkdir_decode_encode.
  - apply mkdir_encode_decode.
  - intros p (? & ? & ? & ? & ? & ? & ? & ?). done.
  - intros a gid s t i e (_ & _ & ?) ? ? (? & ? & ?) ? ?. unfold grant_ok. done.
  - done.
  - done.
  - done.
  - intros. apply mkdir_binding_mismatch_iff.
Qed.

(* ------------------------------------------------------------------ *)
(** ** Properties *)

Section properties.
Context {C : Crypto} (CL : CryptoLaws C).
Implicit Types (a : GrantAuthority).

Lemma mkdir_consume_at_eq a w tok s tgt now :
  consume_at a w tok s tgt now = consume_grant a w tok s tgt now.
Proof. reflexivity. Qed.

Lemma mkdir_issue_at_Ok a s tgt now gid tok :
  issue_at a s tgt now gid = Ok tok ↔
  ∃ u, canonical_session s u ∧ (now + GRANT_TTL_SECONDS ≤ u64_max)%N ∧
    tok = token_for a gid u tgt now (now + GRANT_TTL_SECONDS).
Proof.
  unfold issue_at. split.
  - intros H. inv_ok H. reflect_guards. simplify_eq.
    apply parse_canonical_session_iff in E. apply checked_add64_Some in E0 as [-> ?]. eauto.
  - intros (u & Hs & Hle & ->). ok_step; [by apply parse_canonical_session_iff|].
    ok_step; [by apply checked_add64_Some|]. done.
Qed.

Lemma mkdir_from_normalized_components_ok dev ino cs tgt :
  is_u64 dev → is_u64 ino → from_normalized_components dev ino cs = Ok tgt →
  target_ok tgt ∧ root_device tgt = dev ∧ root_inode tgt = ino ∧
  normalized_path_digest TARGET_DIGEST_DOMAIN cs = Ok (target_digest tgt).
Proof.
  intros Hd Hi H. unfold from_normalized_components in H. inv_ok H. simplify_eq.
  split_and!; try done. unfold normalized_path_digest in E. inv_ok E. simplify_eq.
  unfold target_ok. split_and!; [done..|apply sha256_length].
Qed.
End properties.

(** [consume_at] of the create-directory authority succeeds exactly on the
    tokens [issue_at] signs for this principal, this session, this root identity
    and this target, when the shared replay state accepts their window. *)
Theorem create_directory_consume_exact `{C : Crypto} (CL : CryptoLaws C) a w tok s tgt now w' :
  authority_ok a → target_ok tgt →
  consume_at a w tok s tgt now = (w', Ok ()) ↔
  ∃ u gid i e, canonical_session s u ∧ length gid = GRANT_ID_BYTES ∧ is_u64 i ∧ is_u64 e ∧
    tok = Some (encode_and_sign a (grant_for a gid u tgt i e)) ∧
    consume_shared w (replay a) gid i e now MAX_GRANT_LIFETIME_SECONDS
      MAX_GRANT_FUTURE_SKEW_SECONDS = (w', Ok ()).
Proof. rewrite mkdir_consume_at_eq. by apply (consume_grant_ok_iff CL family_laws). Qed.

(** A grant issued for one path is consumed for another request only if the
    session, the root identity and the path are the same, up to an explicit
    SHA-256 collision between the two length-framed path messages. *)
Theorem create_directory_grant_binds_path `{C : Crypto} (CL : CryptoLaws C)
    a w w' s s' dev dev' ino ino' cs cs' tgt tgt' now now' gid tok :
  authority_ok a → is_u64 dev → is_u64 ino → is_u64 dev' → is_u64 ino' →
  from_normalized_components dev ino cs = Ok tgt →
  from_normalized_components dev' ino' cs' = Ok tgt' →
  length gid = GRANT_ID_BYTES →
  issue_at a s tgt now gid = Ok tok →
  consume_at a w (Some tok) s' tgt' now' = (w', Ok ()) →
  s' = s ∧ dev' = dev ∧ ino' = ino ∧
  (cs' = cs ∨ path_collision TARGET_DIGEST_DOMAIN cs' cs).
Proof.
  intros Ha Hd Hi Hd' Hi' Ht Ht' Hg Hissue Hc.
  apply (mkdir_from_normalized_components_ok CL) in Ht as (Ht & <- & <- & Hp); [|done..].
  apply (mkdir_from_normalized_components_ok CL) in Ht' as (Ht' & <- & <- & Hp'); [|done..].
  apply mkdir_issue_at_Ok in Hissue as (u & Hs & Hmax & ->).
  rewrite mkdir_consume_at_eq in Hc.
  apply (consume_issued_same CL family_laws) in Hc as (u' & Hs' & Heq);
    [|done..|by eapply canonical_session_length|done|unfold is_u64, GRANT_TTL_SECONDS in *; lia|done].
  injection Heq as <- -> -> Hdig. split_and!; [by eapply canonical_session_inj|done..|].
  rewrite Hdig in Hp. by eapply path_digest_inj.
Qed.

(* ------------------------------------------------------------------ *)
(** ** Witnesses *)

#[local] Existing Instance example_crypto.
#[local] Existing Instance example_crypto_laws.

Definition example_authority : GrantAuthority :=
  mkGrantAuthority (bs "primary-1") example_key
    (principal_binding PRINCIPAL_BINDING_DOMAIN example_key (bs "secret")) 0.
Definition example_target : CreateDirectoryGrantTarget :=
  match from_normalized_components 41 73 [bs "projects"; bs "new"] with
  | Ok t => t
  | Err _ => mkTarget 0 0 []
  end.
Definition example_token : bytes :=
  token_for example_authority example_id example_session example_target 100 160.

Lemma mkdir_example_authority_ok : authority_ok example_authority.
Proof. vm_compute. done. Defined.
Lemma mkdir_example_target_ok : target_ok example_target.
Proof. vm_compute. split_and!; done. Defined.
Lemma example_grant_ok :
  grant_ok (grant_for example_authority example_id example_session example_target 100 160).
Proof. vm_compute. split_and!; done. Defined.

(** The world after one accepted presentation of the example token. *)
Definition example_after : ReplayWorld :=
  (consume_at example_authority example_world (Some example_token) example_session
     example_target 101).1.
Lemma mkdir_example_consumed :
  consume_at example_authority example_world (Some example_token) example_session
    example_target 101 = (example_after, Ok ()).
Proof. vm_compute. reflexivity. Defined.
Lemma example_world_is_ok : world_ok example_world.
Proof. eapply world_step_ok; [apply example_resolve|apply initial_world_ok]. Defined.

Lemma token_format_exact_witness :
  parse_and_verify example_authority example_token =
  Ok (grant_for example_authority example_id example_session example_target 100 160).
Proof.
  apply (token_format_exact family example_crypto_laws family_laws); [apply mkdir_example_authority_ok|].
  split; [apply example_grant_ok|reflexivity].
Defined.

Lemma issued_tokens_fit_header_witness :
  length example_token ≤ MAX_REQUEST_GRANT_HEADER_BYTES.
Proof.
  apply (issued_tokens_fit_header family example_crypto_laws family_laws);
    [apply mkdir_example_authority_ok|apply example_grant_ok].
Defined.

Lemma token_consumed_at_most_once_witness :
  consume_grant example_authority example_after (Some example_token) example_session
    example_target 102 ≠ (example_after, Ok ()).
Proof.
  eapply (token_consumed_at_most_once family example_crypto_laws family_laws
    example_authority example_world example_after example_after example_after (Some example_token)
    example_session example_session example_target example_target 101 102 []);
    [apply mkdir_example_authority_ok|apply mkdir_example_target_ok|apply mkdir_example_target_ok
    |apply example_world_is_ok|apply mkdir_example_consumed|apply run_nil].
Defined.

Lemma constructed_authority_ok_witness :
  ∃ w a, from_hex_key_with_capacity RequestGrantCapability.CreateDirectory PRINCIPAL_BINDING_DOMAIN
    initial_world (bs "primary-1") (encode_hex example_key) (bs "secret") 4 = (w, Ok a) ∧
  binds_static_principal PRINCIPAL_BINDING_DOMAIN a (Some (bs "secret")) = true.
Proof.
  eexists _, _. split; [vm_compute; reflexivity|].
  eapply (constructed_authority_ok example_crypto_laws RequestGrantCapability.CreateDirectory
    PRINCIPAL_BINDING_DOMAIN initial_world (bs "primary-1") (encode_hex example_key)
    (bs "secret") 4).
  vm_compute; reflexivity.
Defined.

Lemma create_directory_consume_exact_witness :
  ∃ u gid i e, canonical_session example_session u ∧ length gid = GRANT_ID_BYTES ∧
    is_u64 i ∧ is_u64 e ∧
    Some example_token =
      Some (encode_and_sign example_authority (grant_for example_authority gid u example_target i e)) ∧
    consume_shared example_world (replay example_authority) gid i e 101
      MAX_GRANT_LIFETIME_SECONDS MAX_GRANT_FUTURE_SKEW_SECONDS = (example_after, Ok ()).
Proof.
  apply (create_directory_consume_exact example_crypto_laws);
    [apply mkdir_example_authority_ok|apply mkdir_example_target_ok|apply mkdir_example_consumed].
Defined.

Lemma create_directory_grant_binds_path_witness :
  let cs := [bs "projects"; bs "new"] in
  example_session = example_session ∧ 41%N = 41%N ∧ 73%N = 73%N ∧
  (cs = cs ∨ path_collision TARGET_DIGEST_DOMAIN cs cs).
Proof.
  intros cs.
  eapply (create_directory_grant_binds_path example_crypto_laws example_authority example_world
    example_after example_session example_session 41 41 73 73 cs cs example_target example_target
    100 101 example_id example_token);
    [apply mkdir_example_authority_ok|done..|reflexivity|reflexivity|reflexivity
    |vm_compute; reflexivity|apply mkdir_example_consumed].
Defined.

End CreateDirectory.
