(* ===== verification/OpaqueGrant.v ===== *)
(** * The opaque grant payload

    [write_file_grant.rs], [copy_file_grant.rs] and [trash_file_grant.rs] sign
    the same 65-byte payload: a random grant identifier, the family byte, a keyed
    binding of the operation, and the validity window.  The families differ in
    the message the binding authenticates; this file is generic in it. *)

From S2P Require Import Prelude RequestGrantCapability GrantReplay GrantToken.

Module OpaqueGrant.

Definition BINDING_BYTES : nat := 32.
Definition PAYLOAD_BYTES : nat := GRANT_ID_BYTES + 1 + BINDING_BYTES + 8 + 8.

Record ParsedGrant := mkParsedGrant {
  grant_id : bytes;
  g_capability : byte;
  g_operation_binding : bytes;
  issued_unix_seconds : N;
  expires_unix_seconds : N;
}.

Definition fields (grant : ParsedGrant) : list bytes :=
  [grant_id grant; [g_capability grant]; g_operation_binding grant;
   be_bytes 8 (issued_unix_seconds grant); be_bytes 8 (expires_unix_seconds grant)].
Definition field_widths : list nat := [GRANT_ID_BYTES; 1; BINDING_BYTES; 8; 8].

Definition encode_payload (grant : ParsedGrant) : bytes := put_all PAYLOAD_BYTES (fields grant).

Definition decode_payload (payload : bytes) : option ParsedGrant :=
  '(grant_id, offset) ← take_array GRANT_ID_BYTES payload 0;
  '(capability, offset) ← take_byte payload offset;
  '(operation_binding, offset) ← take_array BINDING_BYTES payload offset;
  '(issued, offset) ← take_u64 payload offset;
  '(expires, offset) ← take_u64 payload offset;
  if offset =? PAYLOAD_BYTES
  then Some (mkParsedGrant grant_id capability operation_binding issued expires)
  else None.

Definition grant_ok (g : ParsedGrant) : Prop :=
  length (grant_id g) = GRANT_ID_BYTES ∧ length (g_operation_binding g) = BINDING_BYTES ∧
  is_u64 (issued_unix_seconds g) ∧ is_u64 (expires_unix_seconds g).

(* ------------------------------------------------------------------ *)
(** ** A family given by its capability and its binding message *)

Section family.
Context {C : Crypto} (capability : RequestGrantCapability.t).
Context {T : Type} (T_ok : T → Prop).
Context (message : GrantAuthority → bytes → bytes → T → bytes).

Definition grant_for (self : GrantAuthority) (gid session : bytes) (target : T)
    (now expires : N) : ParsedGrant :=
  mkParsedGrant gid (RequestGrantCapability.wire_code capability)
    (hmac_sha256 (key self) (message self gid session target)) now expires.

(** The two checks of [consume_at] that answer [BindingMismatch]. *)
Definition binding_mismatch (self : GrantAuthority) (grant : ParsedGrant)
    (expected_session : bytes) (target : T) : bool :=
  negb (bool_decide (g_capability grant = RequestGrantCapability.wire_code capability))
  || negb (verify_mac (key self) (message self (grant_id grant) expected_session target)
             (g_operation_binding grant)).

Definition family : GrantFamily := {|
  Payload := ParsedGrant;
  Target := T;
  payload_bytes := PAYLOAD_BYTES;
  GrantToken.encode_payload := encode_payload;
  GrantToken.decode_payload := decode_payload;
  payload_id := grant_id;
  payload_issued := issued_unix_seconds;
  payload_expires := expires_unix_seconds;
  payload_ok := grant_ok;
  GrantToken.target_ok := T_ok;
  GrantToken.grant_for := grant_for;
  GrantToken.binding_mismatch := binding_mismatch;
|}.

Definition issue_at (self : GrantAuthority) (session_id : bytes) (target : T)
    (now_unix_seconds : N) (new_id : bytes) : GrantResult bytes :=
  session_id ← parse_canonical_session session_id;
  expires_unix_seconds ←
    ok_or (checked_add64 now_unix_seconds GRANT_TTL_SECONDS) GrantError.LifetimeExceeded;
  Ok (encode_and_sign (F := family) self
        (mkParsedGrant new_id (RequestGrantCapability.wire_code capability)
           (hmac_sha256 (key self) (message self new_id session_id target))
           now_unix_seconds expires_unix_seconds)).

Definition consume_at (self : GrantAuthority) (w : ReplayWorld) (token : option bytes)
    (session_id : bytes) (target : T) (now_unix_seconds : N) : ReplayWorld * GrantResult unit :=
  let checked : GrantResult ParsedGrant :=
    token ← ok_or token GrantError.Missing;
    expected_session ← parse_canonical_session session_id;
    grant ← parse_and_verify (F := family) self token;
    _ ← fail_if (negb (bool_decide (g_capability grant = RequestGrantCapability.wire_code capability)))
          GrantError.BindingMismatch;
    _ ← fail_if (negb (verify_mac (key self)
                         (message self (grant_id grant) expected_session target)
                         (g_operation_binding grant)))
          GrantError.BindingMismatch;
    Ok grant in
  match checked with
  | Err e => (w, Err e)
  | Ok grant =>
    consume_replay self w (grant_id grant) (issued_unix_seconds grant)
      (expires_unix_seconds grant) now_unix_seconds
  end.

(** [issue] and [consume] read the clock first; a clock before the epoch is
    [None]. *)
Definition issue (self : GrantAuthority) (session_id : bytes) (target : T)
    (clock : option N) (new_id : bytes) : GrantResult bytes :=
  now ← ok_or clock GrantError.ClockRollback;
  issue_at self session_id target now new_id.

Definition consume (self : GrantAuthority) (w : ReplayWorld) (token : option bytes)
    (session_id : bytes) (target : T) (clock : option N) : ReplayWorld * GrantResult unit :=
  match clock with
  | None => (w, Err GrantError.ClockRollback)
  | Some now => consume_at self w token session_id target now
  end.
End family.

(* ------------------------------------------------------------------ *)
(** ** The codec *)

Lemma opaque_fields_widths g : grant_ok g → Forall2 (λ w v, length v = w) field_widths (fields g).
Proof. intros (H1 & H2 & _). field_widths. Qed.

Lemma opaque_encode_payload_concat g : grant_ok g → encode_payload g = concat (fields g).
Proof. intros Hg. apply put_all_concat. by rewrite (length_concat_widths _ _ (opaque_fields_widths g Hg)). Qed.

Lemma opaque_length_encode_payload g : grant_ok g → length (encode_payload g) = PAYLOAD_BYTES.
Proof.
  intros Hg. rewrite opaque_encode_payload_concat by done.
  by rewrite (length_concat_widths _ _ (opaque_fields_widths g Hg)).
Qed.

Lemma opaque_decode_encode g : grant_ok g → decode_payload (encode_payload g) = Some g.
Proof.
  intros Hg. pose proof (opaque_length_encode_payload g Hg) as Hl. pose proof (opaque_fields_widths g Hg) as Hw.
  pose proof (opaque_encode_payload_concat g Hg) as Hb. revert Hb Hl.
  generalize (encode_payload g). intros b Hb Hl. destruct Hg as (H1 & H2 & U1 & U2).
  known_slices b field_widths (fields g) Hb Hw.
  unfold decode_payload. read_fields Hl. by destruct g.
Qed.

Lemma opaque_encode_decode b g :
  length b = PAYLOAD_BYTES → decode_payload b = Some g → grant_ok g ∧ encode_payload g = b.
Proof.
  intros Hl H. unfold decode_payload in H. invert_fields H. case_match; simplify_eq.
  match goal with |- grant_ok ?g ∧ _ => assert (grant_ok g) as Hg end.
  { unfold grant_ok; cbn -[take drop]. rewrite <-(drop_0 b) at 1.
    split_and!; try assumption; by apply length_slice. }
  split; [done|]. rewrite opaque_encode_payload_concat by done.
  transitivity (concat (slices field_widths b)); [f_equal; unfold fields, field_widths; fields_are_slices|].
  by apply concat_slices.
Qed.

(* ------------------------------------------------------------------ *)
(** ** The interface, discharged *)

Section laws.
Context {C : Crypto} (CL : CryptoLaws C) (capability : RequestGrantCapability.t).
Context {T : Type} (T_ok : T → Prop).
Context (message : GrantAuthority → bytes → bytes → T → bytes).
Local Abbreviation fam := (family capability T_ok message).

Lemma opaque_binding_mismatch_iff a p s t :
  binding_mismatch capability message a p s t = false ↔
  p = grant_for capability message a (grant_id p) s t (issued_unix_seconds p)
        (expires_unix_seconds p).
Proof.
  unfold binding_mismatch, grant_for, verify_mac. split.
  - intros H. reflect_guards. destruct p; simpl in *. congruence.
  - intros ->. simpl. by rewrite bool_decide_true, bytes_eqb_refl by done.
Qed.

Lemma family_laws : GrantFamilyLaws fam.
Proof.
  split; simpl.
  - apply Nat.leb_le. reflexivity.
  - apply opaque_length_encode_payload.
  - apply opaque_decode_encode.
  - apply opaque_encode_decode.
  - intros p (? & ? & ? & ?). done.
  - intros a gid s t i e _ ? ? ? ? ?. unfold grant_ok. simpl. split_and!; [done| |done..].
    apply hmac_sha256_length.
  - done.
  - done.
  - done.
  - intros. apply opaque_binding_mismatch_iff.
Qed.

Lemma opaque_consume_at_eq a w tok s tgt now :
  consume_at capability T_ok message a w tok s tgt now =
  consume_grant (F := fam) a w tok s tgt now.
Proof.
  unfold consume_at, consume_grant, check_grant. cbn [GrantToken.binding_mismatch family].
  destruct tok as [tok|]; [|done]. cbn [ok_or mbind Result_bind].
  destruct (parse_canonical_session s) as [u|]; [|done]. cbn [mbind Result_bind].
  destruct (parse_and_verify a tok) as [g|]; [|done]. cbn [mbind Result_bind].
  unfold binding_mismatch. by destruct (bool_decide _), (verify_mac _ _ _).
Qed.

Lemma opaque_issue_at_Ok a s tgt now gid tok :
  issue_at capability T_ok message a s tgt now gid = Ok tok ↔
  ∃ u, canonical_session s u ∧ (now + GRANT_TTL_SECONDS ≤ u64_max)%N ∧
    tok = token_for (F := fam) a gid u tgt now (now + GRANT_TTL_SECONDS).
Proof.
  unfold issue_at. split.
  - intros H. inv_ok H. reflect_guards. simplify_eq.
    apply parse_canonical_session_iff in E. apply checked_add64_Some in E0 as [-> ?]. eauto.
  - intros (u & Hs & Hle & ->). ok_step; [by apply parse_canonical_session_iff|].
    ok_step; [by apply checked_add64_Some|]. done.
Qed.

(** The HMACs of the two different binding messages coincide. *)
Definition binding_collision (a : GrantAuthority) (gid s s' : bytes) (tgt tgt' : T) : Prop :=
  ∃ u u', canonical_session s u ∧ canonical_session s' u' ∧
    message a gid u tgt ≠ message a gid u' tgt' ∧
    hmac_sha256 (key a) (message a gid u tgt) = hmac_sha256 (key a) (message a gid u' tgt').

(** A token issued for one session and target is consumed for another only if
    the two binding messages agree, or collide under the HMAC. *)
Lemma consume_issued_binds a w w' s s' tgt tgt' now now' gid tok :
  authority_ok a → T_ok tgt → T_ok tgt' → length gid = GRANT_ID_BYTES →
  issue_at capability T_ok message a s tgt now gid = Ok tok →
  consume_at capability T_ok message a w (Some tok) s' tgt' now' = (w', Ok ()) →
  ∃ u u', canonical_session s u ∧ canonical_session s' u' ∧
    (message a gid u tgt = message a gid u' tgt' ∨
     (message a gid u tgt ≠ message a gid u' tgt' ∧
      hmac_sha256 (key a) (message a gid u tgt) = hmac_sha256 (key a) (message a gid u' tgt'))).
Proof.
  intros Ha Ht Ht' Hg (u & Hs & Hmax & ->)%opaque_issue_at_Ok Hc. rewrite opaque_consume_at_eq in Hc.
  apply (consume_issued_same CL family_laws) in Hc as (u' & Hs' & Heq);
    [|done..|by eapply canonical_session_length|done|unfold is_u64, GRANT_TTL_SECONDS in *; lia|done].
  exists u, u'. split_and!; [done..|]. injection Heq as Heq.
  destruct (decide (message a gid u tgt = message a gid u' tgt')); auto.
Qed.

(** ** Families whose binding message is injective *)

Context (message_inj : ∀ a gid u u' t t',
  authority_ok a → T_ok t → T_ok t' → length gid = GRANT_ID_BYTES →
  length u = SESSION_BYTES → length u' = SESSION_BYTES →
  message a gid u t = message a gid u' t' → u = u' ∧ t = t').

Lemma consume_exact a w tok s tgt now w' :
  authority_ok a → T_ok tgt →
  consume_at capability T_ok message a w tok s tgt now = (w', Ok ()) ↔
  ∃ u gid i e, canonical_session s u ∧ length gid = GRANT_ID_BYTES ∧ is_u64 i ∧ is_u64 e ∧
    tok = Some (token_for (F := fam) a gid u tgt i e) ∧
    consume_shared w (replay a) gid i e now MAX_GRANT_LIFETIME_SECONDS
      MAX_GRANT_FUTURE_SKEW_SECONDS = (w', Ok ()).
Proof. rewrite opaque_consume_at_eq. by apply (consume_grant_ok_iff CL family_laws). Qed.

(** The operation bound by an issued token is the only one it authorizes, up to
    a collision of the HMAC between two different binding messages. *)
Lemma issued_binds_target a w w' s s' tgt tgt' now now' gid tok :
  authority_ok a → T_ok tgt → T_ok tgt' → length gid = GRANT_ID_BYTES →
  issue_at capability T_ok message a s tgt now gid = Ok tok →
  consume_at capability T_ok message a w (Some tok) s' tgt' now' = (w', Ok ()) →
  (s' = s ∧ tgt' = tgt) ∨ binding_collision a gid s s' tgt tgt'.
Proof.
  intros Ha Ht Ht' Hg Hi Hc.
  destruct (consume_issued_binds _ _ _ _ _ _ _ _ _ _ _ Ha Ht Ht' Hg Hi Hc)
    as (u & u' & Hs & Hs' & [Hm|[Hm He]]);
    [left|right; by exists u, u'].
  apply message_inj in Hm as [<- <-];
    [|done..|by eapply canonical_session_length|by eapply canonical_session_length].
  split; [by eapply canonical_session_inj|done].
Qed.
End laws.
End OpaqueGrant.
