(* ===== verification/WriteFileGrant.v ===== *)
(** * Write-file grants

    [src/src/write_file_grant.rs]: one exact write (create or replace) of one
    content at one path, with the full preflight identity of a replaced file. *)

From S2P Require Import Prelude RequestGrantCapability GrantReplay GrantToken GrantTargets OpaqueGrant.

Module WriteFile.

Definition TARGET_DIGEST_DOMAIN : bytes := bs "termux-mcp:write-file-target:v1" ++ [x00].
Definition PRINCIPAL_BINDING_DOMAIN : bytes := bs "termux-mcp:write-file-principal:v1" ++ [x00].
Definition OPERATION_BINDING_DOMAIN : bytes :=
  bs "termux-mcp:write-file-operation-binding:v1" ++ [x00].

Inductive WriteFileDisposition := Create | Replace.

#[global] Instance disposition_eq_dec : EqDecision WriteFileDisposition.
Proof. solve_decision. Defined.

Definition disposition_as_str (d : WriteFileDisposition) : bytes :=
  match d with Create => bs "create" | Replace => bs "replace" end.
Definition disposition_grant_code (d : WriteFileDisposition) : byte :=
  match d with Create => x01 | Replace => x02 end.
#[global] Instance disposition_grant_code_inj : Inj (=) (=) (λ d, [disposition_grant_code d]).
Proof. by intros [] []. Qed.
Definition disposition_from_str (value : bytes) : GrantResult WriteFileDisposition :=
  if bytes_eqb value (bs "create") then Ok Create
  else if bytes_eqb value (bs "replace") then Ok Replace
  else Err GrantError.TargetInvalid.

(** [WriteFileExistingIdentity::new]. *)
Abbreviation WriteFileExistingIdentity := FileIdentity.
Definition WriteFileExistingIdentity_new := identity_new.

Record WriteFileGrantTarget := mkTarget {
  root_device : N;
  root_inode : N;
  target_digest : bytes;
  content_digest : bytes;
  disposition : WriteFileDisposition;
  existing_identity : option WriteFileExistingIdentity;
}.

(** [None] is encoded as a zero flag and 56 zero bytes, a present identity as a
    one flag, its six fields and eight zero bytes. *)
Definition identity_bytes (identity : option WriteFileExistingIdentity) : bytes :=
  match identity with
  | None => [x00] ++ replicate 56 x00
  | Some i => [x01] ++ concat (identity_fields i) ++ replicate 8 x00
  end.

(** Everything [operation_binding_mac] feeds the HMAC, in order. *)
Definition operation_binding_message (self : GrantAuthority) (grant_id session_id : bytes)
    (target : WriteFileGrantTarget) : bytes :=
  concat
    [OPERATION_BINDING_DOMAIN; grant_id; principal_digest self; session_id;
     [RequestGrantCapability.wire_code RequestGrantCapability.WriteFile; MUTATING_POSTURE];
     be_bytes 8 (root_device target); be_bytes 8 (root_inode target);
     target_digest target; content_digest target; [disposition_grant_code (disposition target)];
     identity_bytes (existing_identity target)].

Definition target_ok (t : WriteFileGrantTarget) : Prop :=
  is_u64 (root_device t) ∧ is_u64 (root_inode t) ∧ length (target_digest t) = DIGEST_BYTES ∧
  length (content_digest t) = DIGEST_BYTES ∧
  match existing_identity t with Some i => identity_ok i | None => True end.

Section operations.
Context {C : Crypto}.

Definition from_normalized_components (root_device root_inode : N) (components : list bytes)
    (content_bytes : bytes) (disposition : WriteFileDisposition)
    (existing_identity : option WriteFileExistingIdentity) : GrantResult WriteFileGrantTarget :=
  _ ← fail_if (negb match disposition, existing_identity with
                    | Create, None | Replace, Some _ => true
                    | _, _ => false
                    end) GrantError.TargetInvalid;
  target_digest ← normalized_path_digest TARGET_DIGEST_DOMAIN components;
  Ok (mkTarget root_device root_inode target_digest (sha256 content_bytes) disposition
        existing_identity).

Definition ensure_distinct_source_identity (self : WriteFileGrantTarget) (dev ino : N)
    : GrantResult unit :=
  fail_if match existing_identity self with
          | Some identity => (device identity =? dev)%N && (inode identity =? ino)%N
          | None => false
          end GrantError.TargetInvalid.

Definition from_hex_key_with_capacity (w : ReplayWorld)
    (key_id key_hex static_principal_secret : bytes) (replay_capacity : N) :=
  GrantToken.from_hex_key_with_capacity RequestGrantCapability.WriteFile PRINCIPAL_BINDING_DOMAIN
    w key_id key_hex static_principal_secret replay_capacity.
Definition from_hex_key (w : ReplayWorld) (key_id key_hex static_principal_secret : bytes) :=
  from_hex_key_with_capacity w key_id key_hex static_principal_secret MAX_CONSUMED_GRANTS.

#[export] Instance family : GrantFamily :=
  OpaqueGrant.family RequestGrantCapability.WriteFile target_ok operation_binding_message.

Definition binds_static_principal := GrantToken.binds_static_principal PRINCIPAL_BINDING_DOMAIN.
Definition encode_and_sign (self : GrantAuthority) (grant : OpaqueGrant.ParsedGrant) : bytes :=
  GrantToken.encode_and_sign (F := family) self grant.
Definition parse_and_verify (self : GrantAuthority) (token : bytes)
    : GrantResult OpaqueGrant.ParsedGrant :=
  GrantToken.parse_and_verify (F := family) self token.
Definition issue_at :=
  OpaqueGrant.issue_at RequestGrantCapability.WriteFile target_ok operation_binding_message.
Definition consume_at :=
  OpaqueGrant.consume_at RequestGrantCapability.WriteFile target_ok operation_binding_message.
Definition issue :=
  OpaqueGrant.issue RequestGrantCapability.WriteFile target_ok operation_binding_message.
Definition consume :=
  OpaqueGrant.consume RequestGrantCapability.WriteFile target_ok operation_binding_message.
End operations.

(* ------------------------------------------------------------------ *)
(** ** The binding message is injective *)

Lemma length_identity_bytes i : length (identity_bytes i) = 57.
Proof.
  destruct i as [i|]; [|done]. unfold identity_bytes.
  rewrite !length_app, length_concat_identity. done.
Qed.
#[export] Hint Resolve length_identity_bytes : widths.

Lemma identity_bytes_inj i j :
  match i with Some i => identity_ok i | None => True end →
  match j with Some j => identity_ok j | None => True end →
  identity_bytes i = identity_bytes j → i = j.
Proof.
  destruct i as [i|], j as [j|]; intros Hi Hj H; [|discriminate H|discriminate H|done].
  f_equal. unfold identity_bytes in H. apply app_inv_head in H. apply app_inv_tail in H.
  by apply concat_identity_inj.
Qed.

Definition message_widths : list nat :=
  [length OPERATION_BINDING_DOMAIN; 16; 32; 16; 2; 8; 8; 32; 32; 1; 57].

Lemma write_operation_binding_message_inj a gid u u' t t' :
  authority_ok a → target_ok t → target_ok t' →
  length gid = GRANT_ID_BYTES →
  length u = SESSION_BYTES → length u' = SESSION_BYTES →
  operation_binding_message a gid u t = operation_binding_message a gid u' t' →
  u = u' ∧ t = t'.
Proof.
  intros (_ & _ & Ha) (? & ? & ? & ? & ?) (? & ? & ? & ? & ?) ? ? ? Heq.
  unfold operation_binding_message in Heq.
  apply (f_equal (slices message_widths)) in Heq.
  rewrite !slices_concat in Heq by field_widths.
  split_items Heq.
  repeat match goal with
  | E : be_bytes 8 _ = _ |- _ => apply be_bytes_inj64 in E; [|assumption..]
  | E : identity_bytes _ = _ |- _ => apply identity_bytes_inj in E; [|assumption..]
  end.
  split; [done|].
  apply (inj (λ d, [disposition_grant_code d])) in E8.
  clear -E4 E5 E6 E7 E8 E9. destruct t, t'; simpl in *; congruence.
Qed.

(* ------------------------------------------------------------------ *)
(** ** Properties *)

Section properties.
Context {C : Crypto} (CL : CryptoLaws C).

#[export] Instance family_laws : GrantFamilyLaws family.
Proof. by apply OpaqueGrant.family_laws. Qed.

Lemma write_from_normalized_components_ok dev ino cs content d id tgt :
  is_u64 dev → is_u64 ino → match id with Some i => identity_ok i | None => True end →
  from_normalized_components dev ino cs content d id = Ok tgt →
  target_ok tgt ∧ (d = Create ↔ id = None) ∧
  tgt = mkTarget dev ino (target_digest tgt) (sha256 content) d id ∧
  normalized_path_digest TARGET_DIGEST_DOMAIN cs = Ok (target_digest tgt).
Proof.
  intros Hd Hi Hid H. unfold from_normalized_components in H. inv_ok H. reflect_guards.
  simplify_eq. simpl. split_and!; try done.
  - pose proof E0 as Hp. unfold normalized_path_digest in Hp. inv_ok Hp. simplify_eq.
    unfold target_ok. simpl. split_and!; [done..| | |done]; apply sha256_length.
  - by destruct d, id.
Qed.
End properties.

(** [consume_at] of the write-file authority succeeds exactly on the tokens
    [issue_at] signs for this session and this write (root, path, content,
    disposition and replaced-file identity), when the shared replay state
    accepts their window. *)
Theorem write_file_consume_exact `{C : Crypto} (CL : CryptoLaws C) a w tok s tgt now w' :
  authority_ok a → target_ok tgt →
  consume_at a w tok s tgt now = (w', Ok ()) ↔
  ∃ u gid i e, canonical_session s u ∧ length gid = GRANT_ID_BYTES ∧ is_u64 i ∧ is_u64 e ∧
    tok = Some (token_for (F := family) a gid u tgt i e) ∧
    consume_shared w (replay a) gid i e now MAX_GRANT_LIFETIME_SECONDS
      MAX_GRANT_FUTURE_SKEW_SECONDS = (w', Ok ()).
Proof. apply (OpaqueGrant.consume_exact CL _ target_ok operation_binding_message). Qed.

(** A token issued for one write authorizes no other: a request it is
    consumed for has the same session, root identity, disposition, identity of
    the replaced file, path and content, up to an explicit collision (of the two
    keyed operation bindings, of the two path messages, or of the two contents). *)
Theorem write_file_grant_binds `{C : Crypto} (CL : CryptoLaws C)
    a w w' s s' dev dev' ino ino' cs cs' content content' d d' id id' tgt tgt' now now' gid tok :
  authority_ok a → is_u64 dev → is_u64 ino → is_u64 dev' → is_u64 ino' →
  match id with Some i => identity_ok i | None => True end →
  match id' with Some i => identity_ok i | None => True end →
  from_normalized_components dev ino cs content d id = Ok tgt →
  from_normalized_components dev' ino' cs' content' d' id' = Ok tgt' →
  length gid = GRANT_ID_BYTES →
  issue_at a s tgt now gid = Ok tok →
  consume_at a w (Some tok) s' tgt' now' = (w', Ok ()) →
  (s' = s ∧ dev' = dev ∧ ino' = ino ∧ d' = d ∧ id' = id ∧
   (cs' = cs ∨ path_collision TARGET_DIGEST_DOMAIN cs' cs) ∧
   (content' = content ∨ (content' ≠ content ∧ sha256 content' = sha256 content))) ∨
  OpaqueGrant.binding_collision operation_binding_message a gid s s' tgt tgt'.
Proof.
  intros Ha Hd Hi Hd' Hi' Hid Hid' Ht Ht' Hg Hissue Hc.
  apply (write_from_normalized_components_ok CL) in Ht as (Ht & _ & E & Hp); [|done..].
  apply (write_from_normalized_components_ok CL) in Ht' as (Ht' & _ & E' & Hp'); [|done..].
  destruct (OpaqueGrant.issued_binds_target CL _ target_ok operation_binding_message
    write_operation_binding_message_inj
    _ _ _ _ _ _ _ _ _ _ _ Ha Ht Ht' Hg Hissue Hc) as [[-> ->]|]; [left|by right].
  rewrite E in E'. injection E' as <- <- Hcont <- <-. split_and!; [done..| |].
  - by eapply path_digest_inj.
  - destruct (decide (content' = content)); auto.
Qed.
(* ------------------------------------------------------------------ *)
(** ** Witnesses *)

#[local] Existing Instance example_crypto.
#[local] Existing Instance example_crypto_laws.

Definition example_authority : GrantAuthority :=
  mkGrantAuthority (bs "primary-1") example_key
    (principal_binding PRINCIPAL_BINDING_DOMAIN example_key (bs "secret")) 0.
Definition example_identity : FileIdentity := mkIdentity 41 90 512 (-1) 999999999 1.
Definition example_target : WriteFileGrantTarget :=
  match from_normalized_components 41 73 [bs "projects"; bs "notes.txt"] (bs "content") Replace
          (Some example_identity) with
  | Ok t => t
  | Err _ => mkTarget 0 0 [] [] Create None
  end.
Definition example_token : bytes :=
  token_for (F := family) example_authority example_id example_session example_target 100 160.
Definition example_after : ReplayWorld :=
  (consume_at example_authority example_world (Some example_token) example_session
     example_target 101).1.

Lemma write_example_authority_ok : authority_ok example_authority.
Proof. vm_compute. done. Defined.
Lemma write_example_identity_ok : identity_ok example_identity.
Proof. vm_compute. repeat split; discriminate. Defined.
Lemma write_example_target_ok : target_ok example_target.
Proof. vm_compute. repeat split; discriminate. Defined.
Lemma write_example_consumed :
  consume_at example_authority example_world (Some example_token) example_session
    example_target 101 = (example_after, Ok ()).
Proof. vm_compute. reflexivity. Defined.

Lemma write_file_consume_exact_witness :
  ∃ u gid i e, canonical_session example_session u ∧ length gid = GRANT_ID_BYTES ∧
    is_u64 i ∧ is_u64 e ∧
    Some example_token =
      Some (token_for (F := family) example_authority gid u example_target i e) ∧
    consume_shared example_world (replay example_authority) gid i e 101
      MAX_GRANT_LIFETIME_SECONDS MAX_GRANT_FUTURE_SKEW_SECONDS = (example_after, Ok ()).
Proof.
  apply (write_file_consume_exact example_crypto_laws);
    [apply write_example_authority_ok|apply write_example_target_ok|apply write_example_consumed].
Defined.

Lemma write_file_grant_binds_witness :
  let cs := [bs "projects"; bs "notes.txt"] in
  let id := Some example_identity in
  (example_session = example_session ∧ 41%N = 41%N ∧ 73%N = 73%N ∧ Replace = Replace ∧ id = id ∧
   (cs = cs ∨ path_collision TARGET_DIGEST_DOMAIN cs cs) ∧
   (bs "content" = bs "content" ∨
    (bs "content" ≠ bs "content" ∧ sha256 (bs "content") = sha256 (bs "content")))) ∨
  OpaqueGrant.binding_collision operation_binding_message example_authority example_id
    example_session example_session example_target example_target.
Proof.
  intros cs id.
  eapply (write_file_grant_binds example_crypto_laws example_authority example_world
    example_after example_session example_session 41 41 73 73 cs cs (bs "content") (bs "content")
    Replace Replace id id example_target example_target 100 101 example_id example_token);
    [apply write_example_authority_ok|done|done|done|done|apply write_example_identity_ok
    |apply write_example_identity_ok|reflexivity|reflexivity|reflexivity
    |vm_compute; reflexivity|apply write_example_consumed].
Defined.
End WriteFile.
