(* ===== verification/CopyFileGrant.v ===== *)
(** * Copy-file grants

    [src/src/copy_file_grant.rs]: one exact source (root, path, identity and
    content digest) copied to one absent destination. *)

From S2P Require Import Prelude RequestGrantCapability GrantReplay GrantToken GrantTargets OpaqueGrant.

Module CopyFile.

Definition PATH_DIGEST_DOMAIN : bytes := bs "termux-mcp:copy-file-path:v1" ++ [x00].
Definition PRINCIPAL_BINDING_DOMAIN : bytes := bs "termux-mcp:copy-file-principal:v1" ++ [x00].
Definition OPERATION_BINDING_DOMAIN : bytes :=
  bs "termux-mcp:copy-file-operation-binding:v1" ++ [x00].
Definition NO_REPLACE_MUTATING_POSTURE : byte := x01.

(** [CopyFileSourceIdentity::new]. *)
Abbreviation CopyFileSourceIdentity := FileIdentity.
Definition CopyFileSourceIdentity_new := identity_new.

Record CopyFileGrantTarget := mkTarget {
  source_root_device : N;
  source_root_inode : N;
  source_path_digest : bytes;
  source_identity : CopyFileSourceIdentity;
  source_sha256 : bytes;
  destination_root_device : N;
  destination_root_inode : N;
  destination_path_digest : bytes;
}.

(** Everything [operation_binding_mac] feeds the HMAC, in order. *)
Definition operation_binding_message (self : GrantAuthority) (grant_id session_id : bytes)
    (target : CopyFileGrantTarget) : bytes :=
  concat
    [OPERATION_BINDING_DOMAIN; grant_id; principal_digest self; session_id;
     [RequestGrantCapability.wire_code RequestGrantCapability.CopyFile;
      NO_REPLACE_MUTATING_POSTURE];
     be_bytes 8 (source_root_device target); be_bytes 8 (source_root_inode target);
     source_path_digest target; concat (identity_fields (source_identity target));
     source_sha256 target;
     be_bytes 8 (destination_root_device target); be_bytes 8 (destination_root_inode target);
     destination_path_digest target].

Definition target_ok (t : CopyFileGrantTarget) : Prop :=
  is_u64 (source_root_device t) ∧ is_u64 (source_root_inode t) ∧
  length (source_path_digest t) = DIGEST_BYTES ∧ identity_ok (source_identity t) ∧
  length (source_sha256 t) = DIGEST_BYTES ∧
  is_u64 (destination_root_device t) ∧ is_u64 (destination_root_inode t) ∧
  length (destination_path_digest t) = DIGEST_BYTES.

Section operations.
Context {C : Crypto}.

Definition from_normalized_components (source_root_device source_root_inode : N)
    (source_components : list bytes) (source_identity : CopyFileSourceIdentity)
    (source_sha256 : bytes) (destination_root_device destination_root_inode : N)
    (destination_components : list bytes) : GrantResult CopyFileGrantTarget :=
  source_path_digest ← normalized_path_digest PATH_DIGEST_DOMAIN source_components;
  destination_path_digest ← normalized_path_digest PATH_DIGEST_DOMAIN destination_components;
  _ ← fail_if ((source_root_device =? destination_root_device)%N
               && (source_root_inode =? destination_root_inode)%N
               && bytes_eqb source_path_digest destination_path_digest)
        GrantError.TargetInvalid;
  Ok (mkTarget source_root_device source_root_inode source_path_digest source_identity
        source_sha256 destination_root_device destination_root_inode destination_path_digest).

Definition from_hex_key_with_capacity (w : ReplayWorld)
    (key_id key_hex static_principal_secret : bytes) (replay_capacity : N) :=
  GrantToken.from_hex_key_with_capacity RequestGrantCapability.CopyFile PRINCIPAL_BINDING_DOMAIN
    w key_id key_hex static_principal_secret replay_capacity.
Definition from_hex_key (w : ReplayWorld) (key_id key_hex static_principal_secret : bytes) :=
  from_hex_key_with_capacity w key_id key_hex static_principal_secret MAX_CONSUMED_GRANTS.

#[export] Instance family : GrantFamily :=
  OpaqueGrant.family RequestGrantCapability.CopyFile target_ok operation_binding_message.

Definition binds_static_principal := GrantToken.binds_static_principal PRINCIPAL_BINDING_DOMAIN.
Definition encode_and_sign (self : GrantAuthority) (grant : OpaqueGrant.ParsedGrant) : bytes :=
  GrantToken.encode_and_sign (F := family) self grant.
Definition parse_and_verify (self : GrantAuthority) (token : bytes)
    : GrantResult OpaqueGrant.ParsedGrant :=
  GrantToken.parse_and_verify (F := family) self token.
Definition issue_at :=
  OpaqueGrant.issue_at RequestGrantCapability.CopyFile target_ok operation_binding_message.
Definition consume_at :=
  OpaqueGrant.consume_at RequestGrantCapability.CopyFile target_ok operation_binding_message.
Definition issue :=
  OpaqueGrant.issue RequestGrantCapability.CopyFile target_ok operation_binding_message.
Definition consume :=
  OpaqueGrant.consume RequestGrantCapability.CopyFile target_ok operation_binding_message.
End operations.

(* ------------------------------------------------------------------ *)
(** ** The binding message is injective *)

Definition message_widths : list nat :=
  [length OPERATION_BINDING_DOMAIN; 16; 32; 16; 2; 8; 8; 32; 48; 32; 8; 8; 32].

Lemma copy_operation_binding_message_inj a gid u u' t t' :
  authority_ok a → target_ok t → target_ok t' →
  length gid = GRANT_ID_BYTES →
  length u = SESSION_BYTES → length u' = SESSION_BYTES →
  operation_binding_message a gid u t = operation_binding_message a gid u' t' →
  u = u' ∧ t = t'.
Proof.
  intros (_ & _ & Ha) (? & ? & ? & ? & ? & ? & ? & ?) (? & ? & ? & ? & ? & ? & ? & ?) ? ? ? Heq.
  unfold operation_binding_message in Heq.
  apply (f_equal (slices message_widths)) in Heq.
  rewrite !slices_concat in Heq by field_widths.
  split_items Heq.
  repeat match goal with
  | E : be_bytes 8 _ = _ |- _ => apply be_bytes_inj64 in E; [|assumption..]
  | E : concat (identity_fields _) = _ |- _ => apply concat_identity_inj in E; [|assumption..]
  end.
  split; [done|]. destruct t, t'; simpl in *; congruence.
Qed.

(* ------------------------------------------------------------------ *)
(** ** Properties *)

Section properties.
Context {C : Crypto} (CL : CryptoLaws C).

#[export] Instance family_laws : GrantFamilyLaws family.
Proof. by apply OpaqueGrant.family_laws. Qed.

Lemma copy_from_normalized_components_ok sdev sino scs id sha ddev dino dcs tgt :
  is_u64 sdev → is_u64 sino → identity_ok id → length sha = DIGEST_BYTES →
  is_u64 ddev → is_u64 dino →
  from_normalized_components sdev sino scs id sha ddev dino dcs = Ok tgt →
  target_ok tgt ∧
  tgt = mkTarget sdev sino (source_path_digest tgt) id sha ddev dino (destination_path_digest tgt) ∧
  normalized_path_digest PATH_DIGEST_DOMAIN scs = Ok (source_path_digest tgt) ∧
  normalized_path_digest PATH_DIGEST_DOMAIN dcs = Ok (destination_path_digest tgt) ∧
  ¬ (sdev = ddev ∧ sino = dino ∧ scs = dcs).
Proof.
  intros ? ? ? ? ? ? Heq. unfold from_normalized_components in Heq. inv_ok Heq.
  apply (normalized_path_digest_length CL) in E as Hl1, E0 as Hl2. apply fail_if_Ok in E1.
  simplify_eq. simpl. split_and!; try done. intros (-> & -> & ->). revert E1.
  assert (x = x0) as -> by congruence. by rewrite !N.eqb_refl, bytes_eqb_refl.
Qed.
End properties.

(** [consume_at] of the copy-file authority succeeds exactly on the tokens
    [issue_at] signs for this session and this copy (both roots
    and paths, source identity and content digest),
    when the shared replay state accepts their window. *)
Theorem copy_file_consume_exact `{C : Crypto} (CL : CryptoLaws C) a w tok s tgt now w' :
  authority_ok a → target_ok tgt →
  consume_at a w tok s tgt now = (w', Ok ()) ↔
  ∃ u gid i e, canonical_session s u ∧ length gid = GRANT_ID_BYTES ∧ is_u64 i ∧ is_u64 e ∧
    tok = Some (token_for (F := family) a gid u tgt i e) ∧
    consume_shared w (replay a) gid i e now MAX_GRANT_LIFETIME_SECONDS
      MAX_GRANT_FUTURE_SKEW_SECONDS = (w', Ok ()).
Proof. apply (OpaqueGrant.consume_exact CL _ target_ok operation_binding_message). Qed.

(** A token issued for one copy authorizes no other: a request it is
    consumed for has the same session, source root, destination root, source
    identity, content digest and both paths, up to an explicit collision; and
    source and destination are never the same file path. *)
Theorem copy_file_grant_binds `{C : Crypto} (CL : CryptoLaws C)
    a w w' s s' sdev sdev' sino sino' scs scs' id id' sha sha' ddev ddev' dino dino' dcs dcs'
    tgt tgt' now now' gid tok :
  authority_ok a →
  is_u64 sdev → is_u64 sino → is_u64 ddev → is_u64 dino → identity_ok id →
  length sha = DIGEST_BYTES →
  is_u64 sdev' → is_u64 sino' → is_u64 ddev' → is_u64 dino' → identity_ok id' →
  length sha' = DIGEST_BYTES →
  from_normalized_components sdev sino scs id sha ddev dino dcs = Ok tgt →
  from_normalized_components sdev' sino' scs' id' sha' ddev' dino' dcs' = Ok tgt' →
  length gid = GRANT_ID_BYTES →
  issue_at a s tgt now gid = Ok tok →
  consume_at a w (Some tok) s' tgt' now' = (w', Ok ()) →
  ¬ (sdev' = ddev' ∧ sino' = dino' ∧ scs' = dcs') ∧
  ((s' = s ∧ sdev' = sdev ∧ sino' = sino ∧ id' = id ∧ sha' = sha ∧ ddev' = ddev ∧ dino' = dino ∧
    (scs' = scs ∨ path_collision PATH_DIGEST_DOMAIN scs' scs) ∧
    (dcs' = dcs ∨ path_collision PATH_DIGEST_DOMAIN dcs' dcs)) ∨
   OpaqueGrant.binding_collision operation_binding_message a gid s s' tgt tgt').
Proof.
  intros Ha ? ? ? ? ? ? ? ? ? ? ? ? Ht Ht' Hg Hissue Hc.
  apply (copy_from_normalized_components_ok CL) in Ht as (Ht & E & Hs & Hd & _); [|done..].
  apply (copy_from_normalized_components_ok CL) in Ht' as (Ht' & E' & Hs' & Hd' & Hne); [|done..].
  split; [done|].
  destruct (OpaqueGrant.issued_binds_target CL _ target_ok operation_binding_message
    copy_operation_binding_message_inj
    _ _ _ _ _ _ _ _ _ _ _ Ha Ht Ht' Hg Hissue Hc) as [[-> ->]|]; [left|by right].
  rewrite E in E'. injection E' as <- <- <- <- <- <-.
  split_and!; [done..| |]; by eapply path_digest_inj.
Qed.

(* ------------------------------------------------------------------ *)
(** ** Witnesses *)

#[local] Existing Instance example_crypto.
#[local] Existing Instance example_crypto_laws.

Definition example_authority : GrantAuthority :=
  mkGrantAuthority (bs "primary-1") example_key
    (principal_binding PRINCIPAL_BINDING_DOMAIN example_key (bs "secret")) 0.
Definition example_identity : FileIdentity := mkIdentity 41 90 512 1700000000 5 1.
Definition example_sha : bytes := sha256 (bs "content").
Definition example_target : CopyFileGrantTarget :=
  match from_normalized_components 41 73 [bs "a"; bs "notes.txt"] example_identity example_sha
          42 74 [bs "b"; bs "copy.txt"] with
  | Ok t => t
  | Err _ => mkTarget 0 0 [] example_identity [] 0 0 []
  end.
Definition example_token : bytes :=
  token_for (F := family) example_authority example_id example_session example_target 100 160.
Definition example_after : ReplayWorld :=
  (consume_at example_authority example_world (Some example_token) example_session
     example_target 101).1.

Lemma copy_example_authority_ok : authority_ok example_authority.
Proof. vm_compute. done. Defined.
Lemma copy_example_identity_ok : identity_ok example_identity.
Proof. vm_compute. repeat split; discriminate. Defined.
Lemma copy_example_target_ok : target_ok example_target.
Proof. vm_compute. repeat split; discriminate. Defined.
Lemma copy_example_consumed :
  consume_at example_authority example_world (Some example_token) example_session
    example_target 101 = (example_after, Ok ()).
Proof. vm_compute. reflexivity. Defined.

Lemma copy_file_consume_exact_witness :
  ∃ u gid i e, canonical_session example_session u ∧ length gid = GRANT_ID_BYTES ∧
    is_u64 i ∧ is_u64 e ∧
    Some example_token =
      Some (token_for (F := family) example_authority gid u example_target i e) ∧
    consume_shared example_world (replay example_authority) gid i e 101
      MAX_GRANT_LIFETIME_SECONDS MAX_GRANT_FUTURE_SKEW_SECONDS = (example_after, Ok ()).
Proof.
  apply (copy_file_consume_exact example_crypto_laws);
    [apply copy_example_authority_ok|apply copy_example_target_ok|apply copy_example_consumed].
Defined.

Lemma copy_file_grant_binds_witness :
  let scs := [bs "a"; bs "notes.txt"] in
  let dcs := [bs "b"; bs "copy.txt"] in
  ¬ (41%N = 42%N ∧ 73%N = 74%N ∧ scs = dcs) ∧
  ((example_session = example_session ∧ 41%N = 41%N ∧ 73%N = 73%N ∧
    example_identity = example_identity ∧ example_sha = example_sha ∧ 42%N = 42%N ∧ 74%N = 74%N ∧
    (scs = scs ∨ path_collision PATH_DIGEST_DOMAIN scs scs) ∧
    (dcs = dcs ∨ path_collision PATH_DIGEST_DOMAIN dcs dcs)) ∨
   OpaqueGrant.binding_collision operation_binding_message example_authority example_id
     example_session example_session example_target example_target).
Proof.
  intros scs dcs.
  eapply (copy_file_grant_binds example_crypto_laws example_authority example_world example_after
    example_session example_session 41 41 73 73 scs scs example_identity example_identity
    example_sha example_sha 42 42 74 74 dcs dcs example_target example_target 100 101 example_id
    example_token);
    [apply copy_example_authority_ok|done|done|done|done|apply copy_example_identity_ok|done
    |done|done|done|done|apply copy_example_identity_ok|done|reflexivity|reflexivity|reflexivity
    |vm_compute; reflexivity|apply copy_example_consumed].
Defined.
End CopyFile.
