(* ===== verification/TrashFileGrant.v ===== *)
(** * Trash-file grants

    [src/src/trash_file_grant.rs]: one reversible removal of one exact file. *)

From S2P Require Import Prelude RequestGrantCapability GrantReplay GrantToken GrantTargets OpaqueGrant.

Module TrashFile.

Definition TARGET_DIGEST_DOMAIN : bytes := bs "termux-mcp:trash-file-target:v1" ++ [x00].
Definition PRINCIPAL_BINDING_DOMAIN : bytes := bs "termux-mcp:trash-file-principal:v1" ++ [x00].
Definition OPERATION_BINDING_DOMAIN : bytes :=
  bs "termux-mcp:trash-file-operation-binding:v1" ++ [x00].
Definition RECOVERY_RETAINED_POSTURE : byte := x01.

(** [TrashFileIdentity::new]. *)
Abbreviation TrashFileIdentity := FileIdentity.
Definition TrashFileIdentity_new := identity_new.

Record TrashFileGrantTarget := mkTarget {
  root_device : N;
  root_inode : N;
  target_digest : bytes;
  content_digest : bytes;
  identity : TrashFileIdentity;
}.

(** Everything [operation_binding_mac] feeds the HMAC, in order. *)
Definition operation_binding_message (self : GrantAuthority) (grant_id session_id : bytes)
    (target : TrashFileGrantTarget) : bytes :=
  concat
    [OPERATION_BINDING_DOMAIN; grant_id; principal_digest self; session_id;
     [RequestGrantCapability.wire_code RequestGrantCapability.TrashFile; MUTATING_POSTURE;
      RECOVERY_RETAINED_POSTURE];
     be_bytes 8 (root_device target); be_bytes 8 (root_inode target);
     target_digest target; content_digest target; concat (identity_fields (identity target))].

Definition target_ok (t : TrashFileGrantTarget) : Prop :=
  is_u64 (root_device t) ∧ is_u64 (root_inode t) ∧ length (target_digest t) = DIGEST_BYTES ∧
  length (content_digest t) = DIGEST_BYTES ∧ identity_ok (identity t).

Section operations.
Context {C : Crypto}.

Definition from_normalized_components (root_device root_inode : N) (components : list bytes)
    (identity : TrashFileIdentity) (content_digest : bytes) : GrantResult TrashFileGrantTarget :=
  target_digest ← normalized_path_digest TARGET_DIGEST_DOMAIN components;
  Ok (mkTarget root_device root_inode target_digest content_digest identity).

Definition from_hex_key_with_capacity (w : ReplayWorld)
    (key_id key_hex static_principal_secret : bytes) (replay_capacity : N) :=
  GrantToken.from_hex_key_with_capacity RequestGrantCapability.TrashFile PRINCIPAL_BINDING_DOMAIN
    w key_id key_hex static_principal_secret replay_capacity.
Definition from_hex_key (w : ReplayWorld) (key_id key_hex static_principal_secret : bytes) :=
  from_hex_key_with_capacity w key_id key_hex static_principal_secret MAX_CONSUMED_GRANTS.

#[export] Instance family : GrantFamily :=
  OpaqueGrant.family RequestGrantCapability.TrashFile target_ok operation_binding_message.

Definition binds_static_principal := GrantToken.binds_static_principal PRINCIPAL_BINDING_DOMAIN.
Definition encode_and_sign (self : GrantAuthority) (grant : OpaqueGrant.ParsedGrant) : bytes :=
  GrantToken.encode_and_sign (F := family) self grant.
Definition parse_and_verify (self : GrantAuthority) (token : bytes)
    : GrantResult OpaqueGrant.ParsedGrant :=
  GrantToken.parse_and_verify (F := family) self token.
Definition issue_at :=
  OpaqueGrant.issue_at RequestGrantCapability.TrashFile target_ok operation_binding_message.
Definition consume_at :=
  OpaqueGrant.consume_at RequestGrantCapability.TrashFile target_ok operation_binding_message.
Definition issue :=
  OpaqueGrant.issue RequestGrantCapability.TrashFile target_ok operation_binding_message.
Definition consume :=
  OpaqueGrant.consume RequestGrantCapability.TrashFile target_ok operation_binding_message.
End operations.

(* ------------------------------------------------------------------ *)
(** ** The binding message is injective *)

Definition message_widths : list nat :=
  [length OPERATION_BINDING_DOMAIN; 16; 32; 16; 3; 8; 8; 32; 32; 48].

Lemma trash_operation_binding_message_inj a gid u u' t t' :
  authority_ok a → target_ok t → target_ok t' →
  length gid = GRANT_ID_BYTES →
  length u = SESSION_BYTES → length u' = SESSION_BYTES →
  operation_binding_message a gid u t = operation_binding_message a gid u' t' →
  u = u' ∧ t = t'.
Proof.
  intros (_ & _ & Ha) (? & ? & ? & ? & ?) (? & ? & ? & ? & ?) ? ? ? Heq.
  unfold operation_binding_message in Heq.
  apply (f_equal (slices message_widths)) in Heq.
  rewrite !slices_concat in Heq by field_widths.
  split_items Heq.
  repeat match goal with
  | E : be_bytes 8 _ = _ |- _ => apply be_bytes_inj64 in E; [|assumption..]
  | E : concat (identity_fields _) = _ |- _ => apply concat_identity_inj in E; [|assumption..]
  end.
  split; [done|]. destruct t, t'; simpl in *; congruence.
Qed.

(* ------------------------------------------------------------------ *)
(** ** Properties *)

Section properties.
Context {C : Crypto} (CL : CryptoLaws C).

#[export] Instance family_laws : GrantFamilyLaws family.
Proof. by apply OpaqueGrant.family_laws. Qed.

Lemma trash_from_normalized_components_ok dev ino cs id sha tgt :
  is_u64 dev → is_u64 ino → identity_ok id → length sha = DIGEST_BYTES →
  from_normalized_components dev ino cs id sha = Ok tgt →
  target_ok tgt ∧ tgt = mkTarget dev ino (target_digest tgt) sha id ∧
  normalized_path_digest TARGET_DIGEST_DOMAIN cs = Ok (target_digest tgt).
Proof.
  intros ? ? ? ? Heq. unfold from_normalized_components in Heq. inv_ok Heq.
  apply (normalized_path_digest_length CL) in E as Hl1. simplify_eq. simpl. by split_and!.
Qed.
End properties.

(** [consume_at] of the trash-file authority succeeds exactly on the tokens
    [issue_at] signs for this session and this removal (root, path,
    content digest and file identity),
    when the shared replay state accepts their window. *)
Theorem trash_file_consume_exact `{C : Crypto} (CL : CryptoLaws C) a w tok s tgt now w' :
  authority_ok a → target_ok tgt →
  consume_at a w tok s tgt now = (w', Ok ()) ↔
  ∃ u gid i e, canonical_session s u ∧ length gid = GRANT_ID_BYTES ∧ is_u64 i ∧ is_u64 e ∧
    tok = Some (token_for (F := family) a gid u tgt i e) ∧
    consume_shared w (replay a) gid i e now MAX_GRANT_LIFETIME_SECONDS
      MAX_GRANT_FUTURE_SKEW_SECONDS = (w', Ok ()).
Proof. apply (OpaqueGrant.consume_exact CL _ target_ok operation_binding_message). Qed.

(** A token issued for one removal authorizes no other: a request it is
    consumed for has the same session, root, file identity, content digest and
    path, up to an explicit collision. *)
Theorem trash_file_grant_binds `{C : Crypto} (CL : CryptoLaws C)
    a w w' s s' dev dev' ino ino' cs cs' id id' sha sha' tgt tgt' now now' gid tok :
  authority_ok a →
  is_u64 dev → is_u64 ino → identity_ok id → length sha = DIGEST_BYTES →
  is_u64 dev' → is_u64 ino' → identity_ok id' → length sha' = DIGEST_BYTES →
  from_normalized_components dev ino cs id sha = Ok tgt →
  from_normalized_components dev' ino' cs' id' sha' = Ok tgt' →
  length gid = GRANT_ID_BYTES →
  issue_at a s tgt now gid = Ok tok →
  consume_at a w (Some tok) s' tgt' now' = (w', Ok ()) →
  (s' = s ∧ dev' = dev ∧ ino' = ino ∧ id' = id ∧ sha' = sha ∧
   (cs' = cs ∨ path_collision TARGET_DIGEST_DOMAIN cs' cs)) ∨
  OpaqueGrant.binding_collision operation_binding_message a gid s s' tgt tgt'.
Proof.
  intros Ha ? ? ? ? ? ? ? ? Ht Ht' Hg Hissue Hc.
  apply (trash_from_normalized_components_ok CL) in Ht as (Ht & E & Hp); [|done..].
  apply (trash_from_normalized_components_ok CL) in Ht' as (Ht' & E' & Hp'); [|done..].
  destruct (OpaqueGrant.issued_binds_target CL _ target_ok operation_binding_message
    trash_operation_binding_message_inj
    _ _ _ _ _ _ _ _ _ _ _ Ha Ht Ht' Hg Hissue Hc) as [[-> ->]|]; [left|by right].
  rewrite E in E'. injection E' as <- <- <- <-.
  split_and!; [done..|]. by eapply path_digest_inj.
Qed.

(* ------------------------------------------------------------------ *)
(** ** Witnesses *)

#[local] Existing Instance example_crypto.
#[local] Existing Instance example_crypto_laws.

Definition example_authority : GrantAuthority :=
  mkGrantAuthority (bs "primary-1") example_key
    (principal_binding PRINCIPAL_BINDING_DOMAIN example_key (bs "secret")) 0.
Definition example_identity : FileIdentity := mkIdentity 41 90 512 1700000000 5 1.
Definition example_sha : bytes := sha256 (bs "content").
Definition example_target : TrashFileGrantTarget :=
  match from_normalized_components 41 73 [bs "a"; bs "notes.txt"] example_identity example_sha with
  | Ok t => t
  | Err _ => mkTarget 0 0 [] [] example_identity
  end.
Definition example_token : bytes :=
  token_for (F := family) example_authority example_id example_session example_target 100 160.
Definition example_after : ReplayWorld :=
  (consume_at example_authority example_world (Some example_token) example_session
     example_target 101).1.

Lemma trash_example_authority_ok : authority_ok example_authority.
Proof. vm_compute. done. Defined.
Lemma trash_example_identity_ok : identity_ok example_identity.
Proof. vm_compute. repeat split; discriminate. Defined.
Lemma trash_example_target_ok : target_ok example_target.
Proof. vm_compute. repeat split; discriminate. Defined.
Lemma trash_example_consumed :
  consume_at example_authority example_world (Some example_token) example_session
    example_target 101 = (example_after, Ok ()).
Proof. vm_compute. reflexivity. Defined.

Lemma trash_file_consume_exact_witness :
  ∃ u gid i e, canonical_session example_session u ∧ length gid = GRANT_ID_BYTES ∧
    is_u64 i ∧ is_u64 e ∧
    Some example_token =
      Some (token_for (F := family) example_authority gid u example_target i e) ∧
    consume_shared example_world (replay example_authority) gid i e 101
      MAX_GRANT_LIFETIME_SECONDS MAX_GRANT_FUTURE_SKEW_SECONDS = (example_after, Ok ()).
Proof.
  apply (trash_file_consume_exact example_crypto_laws);
    [apply trash_example_authority_ok|apply trash_example_target_ok|apply trash_example_consumed].
Defined.

Lemma trash_file_grant_binds_witness :
  let cs := [bs "a"; bs "notes.txt"] in
  (example_session = example_session ∧ 41%N = 41%N ∧ 73%N = 73%N ∧
   example_identity = example_identity ∧ example_sha = example_sha ∧
   (cs = cs ∨ path_collision TARGET_DIGEST_DOMAIN cs cs)) ∨
  OpaqueGrant.binding_collision operation_binding_message example_authority example_id
    example_session example_session example_target example_target.
Proof.
  intros cs.
  eapply (trash_file_grant_binds example_crypto_laws example_authority example_world example_after
    example_session example_session 41 41 73 73 cs cs example_identity example_identity
    example_sha example_sha example_target example_target 100 101 example_id example_token);
    [apply trash_example_authority_ok|done|done|apply trash_example_identity_ok|done
    |done|done|apply trash_example_identity_ok|done|reflexivity|reflexivity|reflexivity
    |vm_compute; reflexivity|apply trash_example_consumed].
Defined.
End TrashFile.
