(* ===== verification/AndroidVolumeGrant.v ===== *)
(** * Android-volume grants

    [src/src/android_volume_grant.rs]: one exact volume level of one stream, and
    [AndroidVolumeStreamName] of [src/src/android_volume_control.rs]. *)

From S2P Require Import Prelude RequestGrantCapability GrantReplay GrantToken.

Module AndroidVolume.

(** ** Streams *)

Inductive AndroidVolumeStreamName := Alarm | Call | Music | Notification | Ring | System.

#[global] Instance stream_eq_dec : EqDecision AndroidVolumeStreamName.
Proof. solve_decision. Defined.

Definition stream_ALL : list AndroidVolumeStreamName :=
  [Alarm; Call; Music; Notification; Ring; System].

Definition stream_as_str (s : AndroidVolumeStreamName) : bytes :=
  match s with
  | Alarm => bs "alarm"
  | Call => bs "call"
  | Music => bs "music"
  | Notification => bs "notification"
  | Ring => bs "ring"
  | System => bs "system"
  end.

Definition grant_code (s : AndroidVolumeStreamName) : byte :=
  match s with
  | Alarm => byte_of 1
  | Call => byte_of 2
  | Music => byte_of 3
  | Notification => byte_of 4
  | Ring => byte_of 5
  | System => byte_of 6
  end.

Definition from_grant_code (code : byte) : option AndroidVolumeStreamName :=
  if bool_decide (code = byte_of 1) then Some Alarm
  else if bool_decide (code = byte_of 2) then Some Call
  else if bool_decide (code = byte_of 3) then Some Music
  else if bool_decide (code = byte_of 4) then Some Notification
  else if bool_decide (code = byte_of 5) then Some Ring
  else if bool_decide (code = byte_of 6) then Some System
  else None.

(** [FromStr]: [None] is [AndroidVolumeControlError::InvalidStream]. *)
Definition stream_from_str (value : bytes) : option AndroidVolumeStreamName :=
  List.find (λ stream, bytes_eqb (stream_as_str stream) value) stream_ALL.

(** ** Data *)

Definition PRINCIPAL_BINDING_DOMAIN : bytes := bs "termux-mcp:android-volume-principal:v1" ++ [x00].
Definition PAYLOAD_BYTES : nat :=
  GRANT_ID_BYTES + DIGEST_BYTES + SESSION_BYTES + 1 + 1 + 8 + 1 + 8 + 8.

Record AndroidVolumeGrantTarget := mkTarget {
  stream : AndroidVolumeStreamName;
  level : N;
}.

(** [AndroidVolumeGrantTarget::new]: [u64::try_from(level)]. *)
Definition AndroidVolumeGrantTarget_new (stream : AndroidVolumeStreamName) (level : Z)
    : GrantResult AndroidVolumeGrantTarget :=
  level ← ok_or (if (0 <=? level)%Z then Some (Z.to_N level) else None) GrantError.TargetInvalid;
  Ok (mkTarget stream level).

Record ParsedGrant := mkParsedGrant {
  grant_id : bytes;
  g_principal_digest : bytes;
  g_session_id : bytes;
  g_capability : byte;
  g_stream : byte;
  g_level : N;
  g_posture : byte;
  issued_unix_seconds : N;
  expires_unix_seconds : N;
}.

Definition fields (grant : ParsedGrant) : list bytes :=
  [grant_id grant; g_principal_digest grant; g_session_id grant; [g_capability grant];
   [g_stream grant]; be_bytes 8 (g_level grant); [g_posture grant];
   be_bytes 8 (issued_unix_seconds grant); be_bytes 8 (expires_unix_seconds grant)].
Definition field_widths : list nat :=
  [GRANT_ID_BYTES; DIGEST_BYTES; SESSION_BYTES; 1; 1; 8; 1; 8; 8].

Definition encode_payload (grant : ParsedGrant) : bytes := put_all PAYLOAD_BYTES (fields grant).

Definition decode_payload (payload : bytes) : option ParsedGrant :=
  '(grant_id, offset) ← take_array GRANT_ID_BYTES payload 0;
  '(principal_digest, offset) ← take_array DIGEST_BYTES payload offset;
  '(session_id, offset) ← take_array SESSION_BYTES payload offset;
  '(capability, offset) ← take_byte payload offset;
  '(stream, offset) ← take_byte payload offset;
  _ ← from_grant_code stream;
  '(level, offset) ← take_u64 payload offset;
  '(posture, offset) ← take_byte payload offset;
  '(issued, offset) ← take_u64 payload offset;
  '(expires, offset) ← take_u64 payload offset;
  if offset =? PAYLOAD_BYTES
  then Some (mkParsedGrant grant_id principal_digest session_id capability stream level
               posture issued expires)
  else None.

(** Field widths, and a stream code the decoder knows. *)
Definition grant_ok (g : ParsedGrant) : Prop :=
  length (grant_id g) = GRANT_ID_BYTES ∧ length (g_principal_digest g) = DIGEST_BYTES ∧
  length (g_session_id g) = SESSION_BYTES ∧ is_Some (from_grant_code (g_stream g)) ∧
  is_u64 (g_level g) ∧ is_u64 (issued_unix_seconds g) ∧ is_u64 (expires_unix_seconds g).

Definition target_ok (t : AndroidVolumeGrantTarget) : Prop := is_u64 (level t).

(** The record literal of [issue_at]. *)
Definition grant_for (self : GrantAuthority) (gid session : bytes)
    (target : AndroidVolumeGrantTarget) (now expires : N) : ParsedGrant :=
  mkParsedGrant gid (principal_digest self) session
    (RequestGrantCapability.wire_code RequestGrantCapability.AndroidVolume)
    (grant_code (stream target)) (level target) MUTATING_POSTURE now expires.

(** The disjunction that makes [consume_at] answer [BindingMismatch]. *)
Definition binding_mismatch (self : GrantAuthority) (grant : ParsedGrant) (expected_session : bytes)
    (target : AndroidVolumeGrantTarget) : bool :=
  negb (bytes_eqb (g_principal_digest grant) (principal_digest self))
  || negb (bytes_eqb (g_session_id grant) expected_session)
  || negb (bool_decide (g_capability grant =
       RequestGrantCapability.wire_code RequestGrantCapability.AndroidVolume))
  || negb (bool_decide (g_stream grant = grant_code (stream target)))
  || negb (g_level grant =? level target)%N
  || negb (bool_decide (g_posture grant = MUTATING_POSTURE)).

Section operations.
Context {C : Crypto}.

#[export] Instance family : GrantFamily := {|
  Payload := ParsedGrant;
  Target := AndroidVolumeGrantTarget;
  payload_bytes := PAYLOAD_BYTES;
  GrantToken.encode_payload := encode_payload;
  GrantToken.decode_payload := decode_payload;
  payload_id := grant_id;
  payload_issued := issued_unix_seconds;
  payload_expires := expires_unix_seconds;
  payload_ok := grant_ok;
  GrantToken.target_ok := target_ok;
  GrantToken.grant_for := grant_for;
  GrantToken.binding_mismatch := binding_mismatch;
|}.

Definition from_hex_key_with_capacity (w : ReplayWorld)
    (key_id key_hex static_principal_secret : bytes) (replay_capacity : N) :=
  GrantToken.from_hex_key_with_capacity RequestGrantCapability.AndroidVolume
    PRINCIPAL_BINDING_DOMAIN w key_id key_hex static_principal_secret replay_capacity.
Definition from_hex_key (w : ReplayWorld) (key_id key_hex static_principal_secret : bytes) :=
  from_hex_key_with_capacity w key_id key_hex static_principal_secret MAX_CONSUMED_GRANTS.
Definition binds_static_principal := GrantToken.binds_static_principal PRINCIPAL_BINDING_DOMAIN.
Definition encode_and_sign (self : GrantAuthority) (grant : ParsedGrant) : bytes :=
  GrantToken.encode_and_sign (F := family) self grant.
Definition parse_and_verify (self : GrantAuthority) (token : bytes) : GrantResult ParsedGrant :=
  GrantToken.parse_and_verify (F := family) self token.

(** Unlike the other families, the expiry is computed before the session is
    parsed. *)
Definition issue_at (self : GrantAuthority) (session_id : bytes)
    (target : AndroidVolumeGrantTarget) (now_unix_seconds : N) (new_id : bytes)
    : GrantResult bytes :=
  expires_unix_seconds ←
    ok_or (checked_add64 now_unix_seconds GRANT_TTL_SECONDS) GrantError.LifetimeExceeded;
  session_id ← parse_canonical_session session_id;
  Ok (encode_and_sign self (mkParsedGrant new_id (principal_digest self) session_id
        (RequestGrantCapability.wire_code RequestGrantCapability.AndroidVolume)
        (grant_code (stream target)) (level target) MUTATING_POSTURE
        now_unix_seconds expires_unix_seconds)).

Definition consume_at (self : GrantAuthority) (w : ReplayWorld) (token : option bytes)
    (session_id : bytes) (target : AndroidVolumeGrantTarget) (now_unix_seconds : N)
    : ReplayWorld * GrantResult unit :=
  let checked : GrantResult ParsedGrant :=
    token ← ok_or token GrantError.Missing;
    expected_session ← parse_canonical_session session_id;
    grant ← parse_and_verify self token;
    _ ← fail_if (binding_mismatch self grant expected_session target) GrantError.BindingMismatch;
    Ok grant in
  match checked with
  | Err e => (w, Err e)
  | Ok grant =>
    consume_replay self w (grant_id grant) (issued_unix_seconds grant)
      (expires_unix_seconds grant) now_unix_seconds
  end.
End operations.

(* ------------------------------------------------------------------ *)
(** ** The interface, discharged *)

#[global] Instance grant_code_inj : Inj (=) (=) grant_code.
Proof. by intros [] []. Qed.

Lemma from_grant_code_grant_code s : from_grant_code (grant_code s) = Some s.
Proof. by destruct s. Qed.

Lemma volume_fields_widths g : grant_ok g → Forall2 (λ w v, length v = w) field_widths (fields g).
Proof. intros (H1 & H2 & H3 & _). field_widths. Qed.

Lemma volume_encode_concat g : grant_ok g → encode_payload g = concat (fields g).
Proof.
  intros Hg. apply put_all_concat. by rewrite (length_concat_widths _ _ (volume_fields_widths g Hg)).
Qed.

Lemma length_volume_payload g : grant_ok g → length (encode_payload g) = PAYLOAD_BYTES.
Proof.
  intros Hg. rewrite volume_encode_concat by done.
  by rewrite (length_concat_widths _ _ (volume_fields_widths g Hg)).
Qed.

Lemma volume_decode_encode g : grant_ok g → decode_payload (encode_payload g) = Some g.
Proof.
  intros Hg. pose proof (length_volume_payload g Hg) as Hl.
  pose proof (volume_fields_widths g Hg) as Hw.
  pose proof (volume_encode_concat g Hg) as Hb. revert Hb Hl.
  generalize (encode_payload g). intros b Hb Hl.
  destruct Hg as (H1 & H2 & H3 & [s Hs] & U1 & U2 & U3).
  known_slices b field_widths (fields g) Hb Hw.
  unfold decode_payload. read_fields Hl. rewrite Hs. cbn [mbind option_bind]. read_fields Hl.
  by destruct g.
Qed.

Lemma volume_encode_decode b g :
  length b = PAYLOAD_BYTES → decode_payload b = Some g → grant_ok g ∧ encode_payload g = b.
Proof.
  intros Hl H. unfold decode_payload in H. invert_fields H.
  apply bind_Some in H as (st & Est & H). invert_fields H. case_match; simplify_eq.
  match goal with |- grant_ok ?g ∧ _ => assert (grant_ok g) as Hg end.
  { unfold grant_ok; cbn -[take drop from_grant_code]. rewrite <-(drop_0 b) at 1.
    split_and!; try assumption; first [by eexists|by apply length_slice]. }
  split; [done|]. rewrite volume_encode_concat by done.
  transitivity (concat (slices field_widths b)); [f_equal; unfold fields, field_widths; fields_are_slices|].
  by apply concat_slices.
Qed.

Lemma volume_binding_mismatch_iff a p s t :
  binding_mismatch a p s t = false ↔
  p = grant_for a (grant_id p) s t (issued_unix_seconds p) (expires_unix_seconds p).
Proof.
  unfold binding_mismatch, grant_for. split.
  - intros H. reflect_guards. destruct p; simpl in *. congruence.
  - intros ->. simpl. rewrite !bytes_eqb_refl, !N.eqb_refl. by destruct (stream t).
Qed.

#[export] Instance volume_family_laws `{C : Crypto} : GrantFamilyLaws family.
Proof.
  split; simpl.
  - apply Nat.leb_le. reflexivity.
  - apply length_volume_payload.
  - apply volume_decode_encode.
  - apply volume_encode_decode.
  - intros p (? & ? & ? & ? & ? & ? & ?). done.
  - intros a gid s t i e (_ & _ & ?) ? ? ? ? ?. unfold grant_ok. simpl.
    rewrite from_grant_code_grant_code. done.
  - done.
  - done.
  - done.
  - intros. apply volume_binding_mismatch_iff.
Qed.

Lemma volume_consume_at_eq `{C : Crypto} a w tok s tgt now :
  consume_at a w tok s tgt now = consume_grant a w tok s tgt now.
Proof. reflexivity. Qed.

Lemma volume_issue_at_Ok `{C : Crypto} a s tgt now gid tok :
  issue_at a s tgt now gid = Ok tok ↔
  ∃ u, canonical_session s u ∧ (now + GRANT_TTL_SECONDS ≤ u64_max)%N ∧
    tok = token_for a gid u tgt now (now + GRANT_TTL_SECONDS).
Proof.
  unfold issue_at. split.
  - intros H. inv_ok H. reflect_guards. simplify_eq.
    apply parse_canonical_session_iff in E0. apply checked_add64_Some in E as [-> ?]. eauto.
  - intros (u & Hs & Hle & ->). ok_step; [by apply checked_add64_Some|].
    ok_step; [by apply parse_canonical_session_iff|]. done.
Qed.

(* ------------------------------------------------------------------ *)
(** ** Properties *)

(** [consume_at] of the volume authority succeeds exactly on the tokens
    [issue_at] signs for this session and this stream and level,,
    when the shared replay state accepts their window. *)
Theorem android_volume_consume_exact `{C : Crypto} (CL : CryptoLaws C) a w tok s tgt now w' :
  authority_ok a → target_ok tgt →
  consume_at a w tok s tgt now = (w', Ok ()) ↔
  ∃ u gid i e, canonical_session s u ∧ length gid = GRANT_ID_BYTES ∧ is_u64 i ∧ is_u64 e ∧
    tok = Some (token_for (F := family) a gid u tgt i e) ∧
    consume_shared w (replay a) gid i e now MAX_GRANT_LIFETIME_SECONDS
      MAX_GRANT_FUTURE_SKEW_SECONDS = (w', Ok ()).
Proof. rewrite volume_consume_at_eq. by apply (consume_grant_ok_iff CL volume_family_laws). Qed.

(** A volume grant authorizes one session, one stream and one level, with no
    cryptographic assumption beyond the token's MAC: if a token issued for one
    target is consumed for a request, the request names exactly that session,
    stream and (non-negative) level. *)
Theorem android_volume_grant_binds `{C : Crypto} (CL : CryptoLaws C)
    a w w' s s' st st' l l' tgt tgt' now now' gid tok :
  authority_ok a → is_i64 l → is_i64 l' →
  AndroidVolumeGrantTarget_new st l = Ok tgt → AndroidVolumeGrantTarget_new st' l' = Ok tgt' →
  length gid = GRANT_ID_BYTES →
  issue_at a s tgt now gid = Ok tok →
  consume_at a w (Some tok) s' tgt' now' = (w', Ok ()) →
  s' = s ∧ st' = st ∧ l' = l ∧ (0 ≤ l)%Z.
Proof.
  intros Ha Hl Hl' Ht Ht' Hg Hissue Hc.
  assert (∀ st l tgt, is_i64 l → AndroidVolumeGrantTarget_new st l = Ok tgt →
    (0 ≤ l)%Z ∧ tgt = mkTarget st (Z.to_N l) ∧ target_ok tgt) as Hnew.
  { clear. intros st l tgt Hl H. unfold AndroidVolumeGrantTarget_new in H. inv_ok H.
    apply ok_or_Ok in E. destruct (Z.leb_spec 0 l); simplify_eq.
    unfold target_ok, is_u64, is_i64, u64_max in *. simpl. split_and!; [done..|lia]. }
  apply Hnew in Ht as (Hpos & -> & Ht); [|done].
  apply Hnew in Ht' as (Hpos' & -> & Ht'); [|done].
  apply volume_issue_at_Ok in Hissue as (u & Hs & Hmax & ->). rewrite volume_consume_at_eq in Hc.
  apply (consume_issued_same CL volume_family_laws) in Hc as (u' & Hs' & Heq);
    [|done..|by eapply canonical_session_length|done|unfold is_u64, GRANT_TTL_SECONDS in *; lia|done].
  pose proof (f_equal g_session_id Heq) as E1. pose proof (f_equal g_stream Heq) as E2.
  pose proof (f_equal g_level Heq) as E3. cbn in E1, E2, E3. subst u'.
  apply (inj grant_code) in E2. split_and!; [by eapply canonical_session_inj|done|lia|done].
Qed.

(** Stream names and grant codes round-trip: the decoder of each inverts the
    encoder, accepts nothing else, and no two streams share a name or a code. *)
Theorem stream_codec_exact st (name : bytes) (code : byte) :
  (stream_from_str name = Some st ↔ name = stream_as_str st) ∧
  (from_grant_code code = Some st ↔ code = grant_code st).
Proof.
  unfold stream_from_str, from_grant_code. split.
  - split; [|intros ->; by destruct st]. intros [_ H]%find_some. by reflect_guards.
  - split; [|intros ->; by destruct st]. intros H.
    repeat case_match; reflect_guards; by simplify_eq.
Qed.

(* ------------------------------------------------------------------ *)
(** ** Witnesses *)

#[local] Existing Instance example_crypto.
#[local] Existing Instance example_crypto_laws.

Definition example_authority : GrantAuthority :=
  mkGrantAuthority (bs "primary-1") example_key
    (principal_binding PRINCIPAL_BINDING_DOMAIN example_key (bs "secret")) 0.
Definition example_target : AndroidVolumeGrantTarget := mkTarget Music 7.
Definition example_token : bytes :=
  token_for (F := family) example_authority example_id example_session example_target 100 160.
Definition example_after : ReplayWorld :=
  (consume_at example_authority example_world (Some example_token) example_session
     example_target 101).1.

Lemma volume_example_authority_ok : authority_ok example_authority.
Proof. vm_compute. done. Defined.
Lemma volume_example_target_ok : target_ok example_target.
Proof. vm_compute. discriminate. Defined.
Lemma volume_example_consumed :
  consume_at example_authority example_world (Some example_token) example_session
    example_target 101 = (example_after, Ok ()).
Proof. vm_compute. reflexivity. Defined.

Lemma android_volume_consume_exact_witness :
  ∃ u gid i e, canonical_session example_session u ∧ length gid = GRANT_ID_BYTES ∧
    is_u64 i ∧ is_u64 e ∧
    Some example_token =
      Some (token_for (F := family) example_authority gid u example_target i e) ∧
    consume_shared example_world (replay example_authority) gid i e 101
      MAX_GRANT_LIFETIME_SECONDS MAX_GRANT_FUTURE_SKEW_SECONDS = (example_after, Ok ()).
Proof.
  apply (android_volume_consume_exact example_crypto_laws);
    [apply volume_example_authority_ok|apply volume_example_target_ok|apply volume_example_consumed].
Defined.

Lemma android_volume_grant_binds_witness :
  example_session = example_session ∧ Music = Music ∧ 7%Z = 7%Z ∧ (0 ≤ 7)%Z.
Proof.
  eapply (android_volume_grant_binds example_crypto_laws example_authority example_world
    example_after example_session example_session Music Music 7 7 example_target example_target
    100 101 example_id example_token);
    [apply volume_example_authority_ok|unfold is_i64; lia|unfold is_i64; lia|reflexivity|reflexivity
    |reflexivity|vm_compute; reflexivity|apply volume_example_consumed].
Defined.
End AndroidVolume.
