(* ===== verification/GrantFamilies.v ===== *)
(** * The five grant families together

    The server holds one authority per family.  This file indexes the families
    by their registry entry ([RequestGrantCapability], request_grant_capability.rs)
    and states what holds across them: an issued grant is accepted by its own
    family within its window, and by no other family ever, even when an operator
    configures the same key for all of them. *)

From S2P Require Import Prelude RequestGrantCapability GrantReplay GrantToken.
From S2P Require Import GrantTargets CreateDirectoryGrant OpaqueGrant.
From S2P Require Import WriteFileGrant CopyFileGrant TrashFileGrant AndroidVolumeGrant.

Module GrantFamilies.
Import RequestGrantCapability.

Section families.
Context {C : Crypto}.

Definition family_of (c : t) : GrantFamily :=
  match c with
  | CreateDirectory => CreateDirectory.family
  | WriteFile => WriteFile.family
  | AndroidVolume => AndroidVolume.family
  | CopyFile => CopyFile.family
  | TrashFile => TrashFile.family
  end.

Abbreviation TargetOf c := (@Target (family_of c)).

Definition issue_of (c : t) : GrantAuthority → bytes → TargetOf c → N → bytes → GrantResult bytes :=
  match c with
  | CreateDirectory => CreateDirectory.issue_at
  | WriteFile => WriteFile.issue_at
  | AndroidVolume => AndroidVolume.issue_at
  | CopyFile => CopyFile.issue_at
  | TrashFile => TrashFile.issue_at
  end.

Definition consume_of (c : t)
    : GrantAuthority → ReplayWorld → option bytes → bytes → TargetOf c → N →
      ReplayWorld * GrantResult unit :=
  match c with
  | CreateDirectory => CreateDirectory.consume_at
  | WriteFile => WriteFile.consume_at
  | AndroidVolume => AndroidVolume.consume_at
  | CopyFile => CopyFile.consume_at
  | TrashFile => TrashFile.consume_at
  end.

#[export] Instance family_of_laws (CL : CryptoLaws C) c : GrantFamilyLaws (family_of c).
Proof.
  destruct c; simpl.
  - apply CreateDirectory.family_laws.
  - by apply WriteFile.family_laws.
  - apply AndroidVolume.volume_family_laws.
  - by apply CopyFile.family_laws.
  - by apply TrashFile.family_laws.
Qed.

Lemma consume_of_eq c a w tok s tgt now :
  consume_of c a w tok s tgt now = consume_grant (F := family_of c) a w tok s tgt now.
Proof.
  destruct c.
  - apply CreateDirectory.mkdir_consume_at_eq.
  - apply (OpaqueGrant.opaque_consume_at_eq WriteFile WriteFile.target_ok WriteFile.operation_binding_message).
  - apply AndroidVolume.volume_consume_at_eq.
  - apply (OpaqueGrant.opaque_consume_at_eq CopyFile CopyFile.target_ok CopyFile.operation_binding_message).
  - apply (OpaqueGrant.opaque_consume_at_eq TrashFile TrashFile.target_ok TrashFile.operation_binding_message).
Qed.

Lemma issue_of_Ok c a s tgt now gid tok :
  issue_of c a s tgt now gid = Ok tok ↔
  ∃ u, canonical_session s u ∧ (now + GRANT_TTL_SECONDS ≤ u64_max)%N ∧
    tok = token_for (F := family_of c) a gid u tgt now (now + GRANT_TTL_SECONDS).
Proof.
  destruct c.
  - apply CreateDirectory.mkdir_issue_at_Ok.
  - apply (OpaqueGrant.opaque_issue_at_Ok WriteFile WriteFile.target_ok WriteFile.operation_binding_message).
  - apply AndroidVolume.volume_issue_at_Ok.
  - apply (OpaqueGrant.opaque_issue_at_Ok CopyFile CopyFile.target_ok CopyFile.operation_binding_message).
  - apply (OpaqueGrant.opaque_issue_at_Ok TrashFile TrashFile.target_ok TrashFile.operation_binding_message).
Qed.

(** The family is readable off an encoded payload: its length, and byte 16 of
    the 65-byte payloads. *)
Lemma family_byte (CL : CryptoLaws C) c a gid u tgt i e b :
  authority_ok a → target_ok (GrantFamily := family_of c) tgt → length gid = GRANT_ID_BYTES →
  length u = SESSION_BYTES → is_u64 i → is_u64 e →
  b = encode_payload (grant_for (GrantFamily := family_of c) a gid u tgt i e) →
  length b = payload_bytes (GrantFamily := family_of c) ∧
  (length b = OpaqueGrant.PAYLOAD_BYTES → b !! GRANT_ID_BYTES = Some (wire_code c)).
Proof.
  intros Ha Ht Hg Hu Hi He ->.
  assert (payload_ok (grant_for (GrantFamily := family_of c) a gid u tgt i e)) as Hok
    by (apply (grant_for_ok (GrantFamilyLaws := family_of_laws CL c)); done).
  assert (length (encode_payload (grant_for (GrantFamily := family_of c) a gid u tgt i e)) =
          payload_bytes (GrantFamily := family_of c)) as Hl
    by by apply (encode_payload_length (GrantFamilyLaws := family_of_laws CL c)).
  split; [done|]. rewrite Hl. clear Hl.
  assert (∀ g rest, g = gid ++ wire_code c :: rest → g !! GRANT_ID_BYTES = Some (wire_code c)) as Hb.
  { intros g rest ->. rewrite lookup_app_r by lia. by rewrite Hg. }
  destruct c; simpl in *; intros Hlen; try (vm_compute in Hlen; discriminate Hlen);
    rewrite OpaqueGrant.opaque_encode_payload_concat by done; eapply Hb; reflexivity.
Qed.
End families.

Section properties.
Context {C : Crypto} (CL : CryptoLaws C).

Lemma token_payload_inj (F F' : GrantFamily) a a' g g' :
  authority_ok a → authority_ok a' →
  encode_and_sign (F := F) a g = encode_and_sign (F := F') a' g' →
  encode_payload g = encode_payload g'.
Proof.
  intros (Hk & _) (Hk' & _) Heq. apply (f_equal (split_on DOT)) in Heq.
  apply valid_key_id_spec in Hk as (_ & _ & _ & Hd), Hk' as (_ & _ & _ & Hd').
  unfold encode_and_sign in Heq. rewrite !split_token in Heq by done.
  apply cons_eq_inj in Heq as [_ Heq]. apply cons_eq_inj in Heq as [_ Heq].
  apply cons_eq_inj in Heq as [Heq _].
  by apply (inj encode_hex) in Heq.
Qed.

Lemma foreign_token_fails c c' a a' gid u tgt i e s' tgt' g :
  c ≠ c' → authority_ok a → authority_ok a' →
  target_ok (GrantFamily := family_of c) tgt → target_ok (GrantFamily := family_of c') tgt' →
  length gid = GRANT_ID_BYTES → length u = SESSION_BYTES → is_u64 i → is_u64 e →
  check_grant (F := family_of c') a' (Some (token_for (F := family_of c) a gid u tgt i e))
    s' tgt' ≠ Ok g.
Proof.
  intros Hne Ha Ha' Ht Ht' Hg Hu Hi He H.
  apply (check_grant_iff CL (family_of_laws CL c')) in H
    as (u' & gid' & i' & e' & Hs' & Hg' & Hi' & He' & -> & Htok); [|done..].
  apply (inj Some) in Htok. unfold token_for in Htok.
  apply (token_payload_inj (family_of c) (family_of c')) in Htok; [|done..].
  pose proof (canonical_session_length CL _ _ Hs') as Hu'.
  destruct (family_byte CL c a gid u tgt i e _ Ha Ht Hg Hu Hi He eq_refl) as [Hl Hb].
  destruct (family_byte CL c' a' gid' u' tgt' i' e' _ Ha' Ht' Hg' Hu' Hi' He' eq_refl) as [Hl' Hb'].
  rewrite Htok in Hl, Hb. rewrite Hl' in Hl, Hb, Hb'.
  destruct c, c'; try done; try (vm_compute in Hl; discriminate Hl);
    specialize (Hb eq_refl); specialize (Hb' eq_refl); rewrite Hb in Hb'; discriminate Hb'.
Qed.
End properties.

(** C13: families do not share authority.  A token issued by one family's
    authority is refused by every other family's authority, for any session and
    target, and the refusal leaves the process (the replay states) untouched;
    this holds even if the authorities share key, key identifier and principal. *)
Theorem families_are_disjoint `{C : Crypto} (CL : CryptoLaws C) c c' a a' w s tgt now gid tok
    s' tgt' now' :
  c ≠ c' → authority_ok a → authority_ok a' →
  target_ok (GrantFamily := family_of c) tgt → target_ok (GrantFamily := family_of c') tgt' →
  length gid = GRANT_ID_BYTES →
  issue_of c a s tgt now gid = Ok tok →
  ∃ err, consume_of c' a' w (Some tok) s' tgt' now' = (w, Err err).
Proof.
  intros Hne Ha Ha' Ht Ht' Hg (u & Hs & Hmax & ->)%issue_of_Ok. rewrite consume_of_eq.
  unfold consume_grant. destruct (check_grant _ _ _ _) as [g|err] eqn:E; [|by exists err].
  exfalso. revert E. apply (canonical_session_length CL) in Hs.
  apply foreign_token_fails; try done; unfold is_u64, GRANT_TTL_SECONDS in *; lia.
Qed.

(** An issued grant works.  In every family, a token returned by [issue_at]
    is accepted by [consume_at] for the same session and target at any time from
    five seconds before its issue up to (excluding) its expiry, if the replay
    state is not poisoned, has room, has not seen the grant and its clock has not
    advanced past the presentation. *)
Theorem issued_grant_is_accepted `{C : Crypto} (CL : CryptoLaws C) c a w s tgt now gid tok now' st :
  authority_ok a → target_ok (GrantFamily := family_of c) tgt → length gid = GRANT_ID_BYTES →
  issue_of c a s tgt now gid = Ok tok →
  (now ≤ now' + MAX_GRANT_FUTURE_SKEW_SECONDS)%N → (now' < now + GRANT_TTL_SECONDS)%N →
  heap w !! replay a = Some (Mutex_new st) →
  clock_allows (last_observed_unix_seconds st) now' →
  live_map now' (consumed st) !! gid = None →
  (N.of_nat (size (live_map now' (consumed st))) < capacity st)%N →
  ∃ w', consume_of c a w (Some tok) s tgt now' = (w', Ok ()).
Proof.
  intros Ha Ht Hg (u & Hs & Hmax & ->)%issue_of_Ok ? ? ? ? ? ?. rewrite consume_of_eq.
  by eapply (consume_issued CL (family_of_laws CL c)).
Qed.

(* ------------------------------------------------------------------ *)
(** ** Witnesses *)

#[local] Existing Instance example_crypto.
#[local] Existing Instance example_crypto_laws.

(** One key for two families. *)
Definition shared_key_authority : GrantAuthority := CopyFile.example_authority.

Lemma families_are_disjoint_witness :
  ∃ err, consume_of TrashFile shared_key_authority example_world (Some CopyFile.example_token)
    example_session TrashFile.example_target 101 = (example_world, Err err).
Proof.
  eapply (families_are_disjoint example_crypto_laws CopyFile TrashFile CopyFile.example_authority
    shared_key_authority example_world example_session CopyFile.example_target 100 example_id
    CopyFile.example_token example_session TrashFile.example_target 101);
    [discriminate|apply CopyFile.copy_example_authority_ok|apply CopyFile.copy_example_authority_ok
    |apply CopyFile.copy_example_target_ok|apply TrashFile.trash_example_target_ok|reflexivity
    |vm_compute; reflexivity].
Defined.

Definition example_state : ReplayState := ReplayState_new 4.

Lemma issued_grant_is_accepted_witness :
  ∃ w', consume_of AndroidVolume AndroidVolume.example_authority example_world
    (Some AndroidVolume.example_token) example_session AndroidVolume.example_target 159 = (w', Ok ()).
Proof.
  eapply (issued_grant_is_accepted example_crypto_laws AndroidVolume
    AndroidVolume.example_authority example_world example_session AndroidVolume.example_target 100
    example_id AndroidVolume.example_token 159 example_state);
    [apply AndroidVolume.volume_example_authority_ok|apply AndroidVolume.volume_example_target_ok|reflexivity
    |vm_compute; reflexivity|vm_compute; discriminate|vm_compute; reflexivity
    |vm_compute; reflexivity|done|vm_compute; reflexivity|vm_compute; reflexivity].
Defined.
End GrantFamilies.
