(* ===== verification/McpSession.v ===== *)
(** * The MCP session store

    [src/src/mcp_session.rs]: the bounded, idle-expiring session table of the
    Streamable HTTP transport and the per-session SSE replay buffers.

    Time is a number of nanoseconds on the monotonic clock ([Instant]).  The two
    [loop]s that draw [Uuid::new_v4().to_string()] until the name is unused take
    the drawn texts as a list; an operation that exhausts its list [Spins].  An
    operation that reaches a failing [expect] or an arithmetic underflow
    [Panics], which poisons the mutex it holds; both outcomes are shown
    unreachable. *)

From S2P Require Import Prelude.

Module McpSession.

Definition MAX_MCP_SESSIONS : nat := 64.
(** 30 minutes. *)
Definition MCP_SESSION_IDLE_TIMEOUT : N := 30 * 60 * 1000000000.
Definition MAX_MCP_SSE_STREAMS_PER_SESSION : nat := 8.
Definition MAX_MCP_SSE_EVENTS_PER_STREAM : nat := 2.
Definition MAX_MCP_SSE_EVENT_DATA_BYTES : N := 128 * 1024.
Definition MAX_MCP_SSE_REPLAY_BYTES_PER_SESSION : N := 256 * 1024.

Inductive SessionPhase := AwaitingInitialized | Active.

Module SessionStoreError.
Inductive t := CapacityExhausted | NotFound | Poisoned.
End SessionStoreError.

Module SseReplayError.
Inductive t := SessionNotFound | CursorNotFound | EventDataTooLarge | Poisoned.
End SseReplayError.

Record SseReplayEvent := mkEvent {
  id : bytes;
  data : bytes;
  retry : bool;
}.

Definition append_wire_bytes (self : SseReplayEvent) (output : bytes) : bytes :=
  let output := output ++ bs "id: " in
  let output := output ++ id self in
  let output := if retry self then output ++ byte_of 10 :: bs "retry: 1000" else output in
  let output := output ++ byte_of 10 :: bs "data: " in
  let output := output ++ data self in
  output ++ [byte_of 10; byte_of 10].

Definition wire_len (self : SseReplayEvent) : N :=
  N.of_nat (length (bs "id: ")) + N.of_nat (length (id self))
  + (if retry self then N.of_nat (length (byte_of 10 :: bs "retry: 1000")) else 0)
  + N.of_nat (length (byte_of 10 :: bs "data: "))
  + N.of_nat (length (data self)) + N.of_nat (length [byte_of 10; byte_of 10]).

Record SseReplayStream := mkStream {
  events : list SseReplayEvent;
  retained_bytes : N;
}.

Record SessionRecord := mkSession {
  phase : SessionPhase;
  last_activity : N;
  sse_streams : list SseReplayStream;
  sse_replay_bytes : N;
}.

Abbreviation SessionRegistry := (gmap bytes SessionRecord).

Record McpSessionStore := mkStore {
  inner : Mutex SessionRegistry;
  max_sessions : nat;
  idle_timeout : N;
}.

Definition with_limits (max_sessions : nat) (idle_timeout : N) : McpSessionStore :=
  mkStore (Mutex_new ∅) max_sessions idle_timeout.
Definition McpSessionStore_new : McpSessionStore :=
  with_limits MAX_MCP_SESSIONS MCP_SESSION_IDLE_TIMEOUT.

(** What one call does: it returns with a new store, panics, or exhausts the
    drawn names. *)
Inductive outcome (A : Type) :=
| Returns (st : McpSessionStore) (a : A)
| Panics (st : McpSessionStore)
| Spins.
Arguments Returns {A}.
Arguments Panics {A}.
Arguments Spins {A}.

Definition set_sessions (st : McpSessionStore) (m : SessionRegistry) : McpSessionStore :=
  mkStore (mkMutex (poisoned (inner st)) m) (max_sessions st) (idle_timeout st).

(** [now.checked_duration_since(last).is_none_or(|idle| idle < idle_timeout)]. *)
Definition live (now idle_timeout : N) (s : SessionRecord) : bool :=
  if (now <? last_activity s)%N then true else (now - last_activity s <? idle_timeout)%N.

Definition prune_expired (m : SessionRegistry) (now idle_timeout : N) : SessionRegistry :=
  filter (λ kv, live now idle_timeout kv.2 = true) m.

(** [lock()] followed by [prune_expired], the beginning of every operation. *)
Definition lock_pruned {A} (st : McpSessionStore) (now : N) (on_poison : A)
    (k : SessionRegistry → outcome A) : outcome A :=
  if poisoned (inner st) then Returns st on_poison
  else k (prune_expired (guarded (inner st)) now (idle_timeout st)).

(** The drawing loops: the first drawn name that is free. *)
Fixpoint first_free (taken : bytes → bool) (draws : list bytes) : option bytes :=
  match draws with
  | [] => None
  | candidate :: draws => if taken candidate then first_free taken draws else Some candidate
  end.

Definition create_at (st : McpSessionStore) (now : N) (draws : list bytes)
    : outcome (Result SessionStoreError.t bytes) :=
  lock_pruned st now (Err SessionStoreError.Poisoned) (λ m,
    if max_sessions st <=? size m
    then Returns (set_sessions st m) (Err SessionStoreError.CapacityExhausted)
    else match first_free (λ c, bool_decide (is_Some (m !! c))) draws with
         | None => Spins
         | Some session_id =>
           Returns (set_sessions st (<[session_id := mkSession AwaitingInitialized now [] 0]> m))
             (Ok session_id)
         end).

Definition touch (s : SessionRecord) (now : N) : SessionRecord :=
  mkSession (phase s) now (sse_streams s) (sse_replay_bytes s).

Definition phase_at (st : McpSessionStore) (session_id : bytes) (now : N)
    : outcome (Result SessionStoreError.t SessionPhase) :=
  lock_pruned st now (Err SessionStoreError.Poisoned) (λ m,
    match m !! session_id with
    | None => Returns (set_sessions st m) (Err SessionStoreError.NotFound)
    | Some session =>
      Returns (set_sessions st (<[session_id := touch session now]> m)) (Ok (phase session))
    end).

Definition activate_at (st : McpSessionStore) (session_id : bytes) (now : N)
    : outcome (Result SessionStoreError.t unit) :=
  lock_pruned st now (Err SessionStoreError.Poisoned) (λ m,
    match m !! session_id with
    | None => Returns (set_sessions st m) (Err SessionStoreError.NotFound)
    | Some session =>
      let session := mkSession Active now (sse_streams session) (sse_replay_bytes session) in
      Returns (set_sessions st (<[session_id := session]> m)) (Ok ())
    end).

Definition terminate_at (st : McpSessionStore) (session_id : bytes) (now : N)
    : outcome (Result SessionStoreError.t unit) :=
  lock_pruned st now (Err SessionStoreError.Poisoned) (λ m,
    match m !! session_id with
    | None => Returns (set_sessions st m) (Err SessionStoreError.NotFound)
    | Some _ => Returns (set_sessions st (delete session_id m)) (Ok ())
    end).

Definition COLON : byte := byte_of 58.

(** [false] when the stream's first event carries the candidate's name. *)
Definition stream_avoids (candidate : bytes) (stream : SseReplayStream) : bool :=
  match event ← head (events stream); split_once COLON (id event) with
  | None => true
  | Some (existing, _) => negb (bytes_eqb existing candidate)
  end.

Definition stream_events (stream_id data : bytes) : list SseReplayEvent :=
  [mkEvent (stream_id ++ COLON :: bs "0") [] true;
   mkEvent (stream_id ++ COLON :: bs "1") data false].

Definition sum_wire_len (evs : list SseReplayEvent) : N :=
  foldr (λ e acc, wire_len e + acc)%N 0%N evs.

(** The [while] loop.  [None]: the [expect] fails or the subtraction
    underflows. *)
Fixpoint evict (streams : list SseReplayStream) (replay_bytes retained : N)
    : option (list SseReplayStream * N) :=
  if (MAX_MCP_SSE_STREAMS_PER_SESSION <=? length streams)
     || (MAX_MCP_SSE_REPLAY_BYTES_PER_SESSION <? replay_bytes + retained)%N
  then match streams with
       | [] => None
       | evicted :: streams =>
         if (replay_bytes <? retained_bytes evicted)%N then None
         else evict streams (replay_bytes - retained_bytes evicted) retained
       end
  else Some (streams, replay_bytes).

Definition record_sse_response_at (st : McpSessionStore) (session_id data : bytes) (now : N)
    (draws : list bytes) : outcome (Result SseReplayError.t (list SseReplayEvent)) :=
  if (MAX_MCP_SSE_EVENT_DATA_BYTES <? N.of_nat (length data))%N
  then Returns st (Err SseReplayError.EventDataTooLarge)
  else lock_pruned st now (Err SseReplayError.Poisoned) (λ m,
    match m !! session_id with
    | None => Returns (set_sessions st m) (Err SseReplayError.SessionNotFound)
    | Some session =>
      match first_free (λ c, negb (forallb (stream_avoids c) (sse_streams session))) draws with
      | None => Spins
      | Some stream_id =>
        let evs := stream_events stream_id data in
        let retained := sum_wire_len evs in
        if (MAX_MCP_SSE_REPLAY_BYTES_PER_SESSION <? retained)%N
        then Returns (set_sessions st m) (Err SseReplayError.EventDataTooLarge)
        else match evict (sse_streams session) (sse_replay_bytes session) retained with
             | None => Panics (mkStore (mkMutex true m) (max_sessions st) (idle_timeout st))
             | Some (streams, replay_bytes) =>
               let session := mkSession (phase session) now (streams ++ [mkStream evs retained])
                                (replay_bytes + retained) in
               Returns (set_sessions st (<[session_id := session]> m)) (Ok evs)
             end
      end
    end).

(** [find_map] over the streams of [position] over the events. *)
Definition replay_after (streams : list SseReplayStream) (cursor : bytes)
    : option (list SseReplayEvent) :=
  find_map (λ stream,
    '(index, _) ← list_find (λ event, id event = cursor) (events stream);
    Some (drop (S index) (events stream))) streams.

Definition replay_sse_after_at (st : McpSessionStore) (session_id last_event_id : bytes) (now : N)
    : outcome (Result SseReplayError.t (list SseReplayEvent)) :=
  lock_pruned st now (Err SseReplayError.Poisoned) (λ m,
    match m !! session_id with
    | None => Returns (set_sessions st m) (Err SseReplayError.SessionNotFound)
    | Some session =>
      match replay_after (sse_streams session) last_event_id with
      | Some evs =>
        Returns (set_sessions st (<[session_id := touch session now]> m)) (Ok evs)
      | None => Returns (set_sessions st m) (Err SseReplayError.CursorNotFound)
      end
    end).

(* ------------------------------------------------------------------ *)
(** ** Calls and runs *)

(** The public operations, each at the [Instant::now()] it reads. *)
Inductive call :=
| Create (draws : list bytes)
| Phase (session_id : bytes)
| Activate (session_id : bytes)
| Terminate (session_id : bytes)
| RecordSse (session_id data : bytes) (draws : list bytes)
| ReplaySse (session_id cursor : bytes).

Inductive answer :=
| Created (r : Result SessionStoreError.t bytes)
| PhaseIs (r : Result SessionStoreError.t SessionPhase)
| Activated (r : Result SessionStoreError.t unit)
| Terminated (r : Result SessionStoreError.t unit)
| Recorded (r : Result SseReplayError.t (list SseReplayEvent))
| Replayed (r : Result SseReplayError.t (list SseReplayEvent)).

Definition outcome_map {A B} (f : A → B) (o : outcome A) : outcome B :=
  match o with
  | Returns st a => Returns st (f a)
  | Panics st => Panics st
  | Spins => Spins
  end.

Definition exec (st : McpSessionStore) (c : call) (now : N) : outcome answer :=
  match c with
  | Create draws => outcome_map Created (create_at st now draws)
  | Phase sid => outcome_map PhaseIs (phase_at st sid now)
  | Activate sid => outcome_map Activated (activate_at st sid now)
  | Terminate sid => outcome_map Terminated (terminate_at st sid now)
  | RecordSse sid data draws => outcome_map Recorded (record_sse_response_at st sid data now draws)
  | ReplaySse sid cursor => outcome_map Replayed (replay_sse_after_at st sid cursor now)
  end.

(** The text of a version-4 UUID, as far as the store relies on it. *)
Definition uuid_text (s : bytes) : Prop := length s = 36 ∧ COLON ∉ s.

Definition call_draws (c : call) : list bytes :=
  match c with Create draws | RecordSse _ _ draws => draws | _ => [] end.

(** A step: any caller's call, with UUID texts as the drawn names.  A panic
    leaves the poisoned store behind. *)
Inductive step : McpSessionStore → call * N * option answer → McpSessionStore → Prop :=
| step_returns st c now st' a :
    Forall uuid_text (call_draws c) → exec st c now = Returns st' a →
    step st (c, now, Some a) st'
| step_panics st c now st' :
    Forall uuid_text (call_draws c) → exec st c now = Panics st' →
    step st (c, now, None) st'.

Inductive run : McpSessionStore → list (call * N * option answer) → McpSessionStore → Prop :=
| run_nil st : run st [] st
| run_cons st e st' es st'' : step st e st' → run st' es st'' → run st (e :: es) st''.

(* ------------------------------------------------------------------ *)
(** ** Invariant *)

(** A retained stream: the two events of one recorded response. *)
Definition stream_ok (sid : bytes) (s : SseReplayStream) : Prop :=
  uuid_text sid ∧ ∃ d, events s = stream_events sid d ∧
    (N.of_nat (length d) ≤ MAX_MCP_SSE_EVENT_DATA_BYTES)%N ∧
    retained_bytes s = sum_wire_len (events s).

Definition total_retained (l : list SseReplayStream) : N :=
  foldr (λ s acc, retained_bytes s + acc)%N 0%N l.

Definition session_ok (s : SessionRecord) : Prop :=
  (∃ ids, NoDup ids ∧ Forall2 stream_ok ids (sse_streams s)) ∧
  length (sse_streams s) ≤ MAX_MCP_SSE_STREAMS_PER_SESSION ∧
  sse_replay_bytes s = total_retained (sse_streams s) ∧
  (sse_replay_bytes s ≤ MAX_MCP_SSE_REPLAY_BYTES_PER_SESSION)%N.

Definition sessions_ok (max : nat) (m : SessionRegistry) : Prop :=
  size m ≤ max ∧ map_Forall (λ sid s, uuid_text sid ∧ session_ok s) m.

Definition store_ok (st : McpSessionStore) : Prop :=
  poisoned (inner st) = false ∧ sessions_ok (max_sessions st) (guarded (inner st)).

(** The table an operation at [now] sees. *)
Definition pruned (st : McpSessionStore) (now : N) : SessionRegistry :=
  prune_expired (guarded (inner st)) now (idle_timeout st).

(* ------------------------------------------------------------------ *)
(** ** Helper lemmas *)

Lemma length_append_wire_bytes e out :
  N.of_nat (length (append_wire_bytes e out)) = (N.of_nat (length out) + wire_len e)%N.
Proof.
  unfold append_wire_bytes, wire_len. destruct (retry e);
    rewrite ?length_app, ?length_cons, ?length_app; cbn [length]; lia.
Qed.

Lemma sum_wire_len_stream sid d :
  uuid_text sid → sum_wire_len (stream_events sid d) = (114 + N.of_nat (length d))%N.
Proof.
  intros [Hl _]. unfold sum_wire_len, stream_events, wire_len. cbn [foldr id data retry].
  rewrite !length_app, Hl. cbn [length bs String.list_byte_of_string]. simpl length. lia.
Qed.

Lemma lookup_prune m now t k s :
  prune_expired m now t !! k = Some s ↔ m !! k = Some s ∧ live now t s = true.
Proof. unfold prune_expired. by rewrite map_lookup_filter_Some. Qed.

Lemma size_prune m now t : size (prune_expired m now t) ≤ size m.
Proof. apply map_subseteq_size, map_filter_subseteq. Qed.

Lemma first_free_Some taken draws c :
  first_free taken draws = Some c → c ∈ draws ∧ taken c = false.
Proof.
  induction draws as [|d draws IH]; simpl; [done|]. destruct (taken d) eqn:E; intros H.
  - destruct (IH H). split; [by right|done].
  - simplify_eq. split; [by left|done].
Qed.

Lemma first_free_total taken draws (used : list bytes) :
  NoDup draws → length used < length draws → (∀ c, taken c = true → c ∈ used) →
  is_Some (first_free taken draws).
Proof.
  intros Hnd Hlen Hused. destruct (first_free taken draws) as [c|] eqn:E; [by eexists|exfalso].
  assert (∀ c, c ∈ draws → c ∈ used) as Hincl.
  { intros c Hc. apply Hused. clear -E Hc. induction draws as [|d draws IH]; [by inversion Hc|].
    simpl in E. destruct (taken d) eqn:Ed; [|done].
    apply elem_of_cons in Hc as [->|Hc]; [done|by apply IH]. }
  assert (length draws ≤ length used); [|lia].
  apply submseteq_length, NoDup_submseteq; done.
Qed.

Lemma stream_avoids_ok c sid s : stream_ok sid s → stream_avoids c s = negb (bytes_eqb sid c).
Proof.
  intros ([_ Hc] & d & He & _). unfold stream_avoids, stream_events in *. rewrite He. simpl.
  by rewrite split_once_app.
Qed.

Lemma taken_streams ids ss c :
  Forall2 stream_ok ids ss → negb (forallb (stream_avoids c) ss) = true ↔ c ∈ ids.
Proof.
  induction 1 as [|sid s ids ss Hs _ IH]; simpl.
  - split; [done|by inversion 1].
  - rewrite (stream_avoids_ok _ _ _ Hs), elem_of_cons, <-IH. unfold bytes_eqb.
    case_bool_decide as Hd; simpl; [naive_solver|]. split; [by right|]. by intros [<-|?].
Qed.

Lemma total_retained_app l1 l2 :
  total_retained (l1 ++ l2) = (total_retained l1 + total_retained l2)%N.
Proof. induction l1 as [|s l1 IH]; simpl; [done|]. unfold total_retained in *. simpl. lia. Qed.

(** The loop drops the oldest streams, as few as make room, and neither the
    [expect] nor the subtraction can fail. *)
Lemma evict_spec ss retained :
  (retained ≤ MAX_MCP_SSE_REPLAY_BYTES_PER_SESSION)%N →
  ∃ k, k ≤ length ss ∧
    evict ss (total_retained ss) retained = Some (drop k ss, total_retained (drop k ss)) ∧
    length (drop k ss) < MAX_MCP_SSE_STREAMS_PER_SESSION ∧
    (total_retained (drop k ss) + retained ≤ MAX_MCP_SSE_REPLAY_BYTES_PER_SESSION)%N ∧
    ∀ j, j < k → MAX_MCP_SSE_STREAMS_PER_SESSION ≤ length (drop j ss) ∨
      (MAX_MCP_SSE_REPLAY_BYTES_PER_SESSION < total_retained (drop j ss) + retained)%N.
Proof.
  intros Hr. induction ss as [|s ss IH]; cbn [evict].
  - exists 0. rewrite drop_0. unfold total_retained; simpl.
    rewrite (proj2 (N.ltb_ge _ _)) by lia.
    split_and!; [lia|done|apply Nat.ltb_lt; reflexivity|lia|lia].
  - destruct (_ || _) eqn:E.
    + change (total_retained (s :: ss)) with (retained_bytes s + total_retained ss)%N.
      rewrite (proj2 (N.ltb_ge _ _)) by lia. rewrite N.add_comm, N.add_sub.
      destruct IH as (k & Hk & He & Hl & Hb & Hmin). exists (S k). simpl. split_and!; try done; [lia|].
      intros [|j] Hj; [|apply Hmin; lia]. simpl.
      apply orb_true_iff in E as [E|E]; [left; by apply Nat.leb_le in E|right].
      apply N.ltb_lt in E. done.
    + exists 0. rewrite drop_0. apply orb_false_iff in E as [E1 E2].
      apply Nat.leb_gt in E1. apply N.ltb_ge in E2. split_and!; [lia|done..|lia].
Qed.

Lemma lock_pruned_ok {A} st now (e : A) k :
  store_ok st → lock_pruned st now e k = k (pruned st now).
Proof. unfold lock_pruned, pruned. by intros [-> _]. Qed.

Lemma sessions_ok_pruned st now : store_ok st → sessions_ok (max_sessions st) (pruned st now).
Proof.
  intros (_ & Hs & Hf). split.
  - etransitivity; [apply size_prune|done].
  - intros k s [Hk _]%lookup_prune. by apply Hf.
Qed.

Lemma store_ok_set st m : store_ok st → sessions_ok (max_sessions st) m → store_ok (set_sessions st m).
Proof. by intros [? _] ?. Qed.

Lemma sessions_ok_update max m k s s' :
  sessions_ok max m → m !! k = Some s → session_ok s' → sessions_ok max (<[k:=s']> m).
Proof.
  intros [Hs Hf] Hk Hok. split.
  - by rewrite map_size_insert_Some.
  - apply map_Forall_insert_2; [|done]. split; [|done]. by eapply (Hf k).
Qed.

Lemma sessions_ok_delete max m k : sessions_ok max m → sessions_ok max (delete k m).
Proof.
  intros [Hs Hf]. split; [|by apply map_Forall_delete]. etransitivity; [|done].
  apply map_subseteq_size, delete_subseteq.
Qed.

Lemma sessions_ok_lookup max m k s : sessions_ok max m → m !! k = Some s → uuid_text k ∧ session_ok s.
Proof. intros [_ Hf] Hk. by apply Hf in Hk. Qed.

Lemma session_ok_same s s' :
  session_ok s → sse_streams s' = sse_streams s → sse_replay_bytes s' = sse_replay_bytes s →
  session_ok s'.
Proof. unfold session_ok. by intros ? -> ->. Qed.

(** Recording into a well-formed session: the retained streams are the newest
    ones that leave room, followed by the new stream. *)
Lemma record_session_ok s sid d k now :
  session_ok s → uuid_text sid → forallb (stream_avoids sid) (sse_streams s) = true →
  (N.of_nat (length d) ≤ MAX_MCP_SSE_EVENT_DATA_BYTES)%N →
  length (drop k (sse_streams s)) < MAX_MCP_SSE_STREAMS_PER_SESSION →
  (total_retained (drop k (sse_streams s)) + sum_wire_len (stream_events sid d)
     ≤ MAX_MCP_SSE_REPLAY_BYTES_PER_SESSION)%N →
  session_ok (mkSession (phase s) now
    (drop k (sse_streams s) ++ [mkStream (stream_events sid d) (sum_wire_len (stream_events sid d))])
    (total_retained (drop k (sse_streams s)) + sum_wire_len (stream_events sid d))).
Proof.
  intros ((ids & Hnd & Hids) & _ & _ & _) Hsid Hfree Hd Hlen Hbytes.
  assert (sid ∉ ids) as Hnew.
  { rewrite <-(taken_streams _ _ _ Hids), Hfree. done. }
  unfold session_ok; cbn [sse_streams sse_replay_bytes]. split_and!; [|..|done].
  - exists (drop k ids ++ [sid]). split.
    + apply (sublist_NoDup _ (ids ++ [sid])); [|by apply sublist_app; [apply sublist_drop|]].
      apply NoDup_app. split_and!; [done| |apply NoDup_singleton].
      by intros x Hx ->%list_elem_of_singleton.
    + apply Forall2_app; [by apply Forall2_drop|]. constructor; [|constructor].
      split; [done|]. by exists d.
  - rewrite length_app. cbn [length]. lia.
  - rewrite total_retained_app. unfold total_retained at 3. simpl. lia.
Qed.

(** Recording for a live session, with the name its loop draws: always accepted;
    what is retained is the new stream after the newest old ones that leave it
    room. *)
Lemma record_live st sid d now draws s new :
  store_ok st → Forall uuid_text draws →
  (N.of_nat (length d) ≤ MAX_MCP_SSE_EVENT_DATA_BYTES)%N →
  pruned st now !! sid = Some s →
  first_free (λ c, negb (forallb (stream_avoids c) (sse_streams s))) draws = Some new →
  ∃ k s', record_sse_response_at st sid d now draws =
      Returns (set_sessions st (<[sid := s']> (pruned st now))) (Ok (stream_events new d)) ∧
    session_ok s' ∧ uuid_text new ∧
    s' = mkSession (phase s) now
      (drop k (sse_streams s) ++ [mkStream (stream_events new d) (sum_wire_len (stream_events new d))])
      (total_retained (drop k (sse_streams s)) + sum_wire_len (stream_events new d)) ∧
    ∀ j, j < k → MAX_MCP_SSE_STREAMS_PER_SESSION ≤ length (drop j (sse_streams s)) ∨
      (MAX_MCP_SSE_REPLAY_BYTES_PER_SESSION <
        total_retained (drop j (sse_streams s)) + sum_wire_len (stream_events new d))%N.
Proof.
  intros Hst Hdraws Hd Hk Ef. pose proof (sessions_ok_pruned st now Hst) as Hp.
  destruct (sessions_ok_lookup _ _ _ _ Hp Hk) as [_ Hs].
  pose proof Hs as (_ & _ & Hbytes & _).
  pose proof Ef as [Hin Hfree]%first_free_Some. apply negb_false_iff in Hfree.
  rewrite Forall_forall in Hdraws. apply Hdraws in Hin.
  assert (sum_wire_len (stream_events new d) ≤ MAX_MCP_SSE_REPLAY_BYTES_PER_SESSION)%N as Hr.
  { rewrite sum_wire_len_stream by done.
    unfold MAX_MCP_SSE_EVENT_DATA_BYTES, MAX_MCP_SSE_REPLAY_BYTES_PER_SESSION in *. lia. }
  destruct (evict_spec (sse_streams s) _ Hr) as (k & _ & He & Hl & Hb & Hmin).
  eexists k, _. split_and!; [|by apply record_session_ok|done|done|done].
  unfold record_sse_response_at. rewrite (proj2 (N.ltb_ge _ _)) by done.
  rewrite lock_pruned_ok by done. cbv beta. rewrite Hk, Ef. cbv zeta.
  rewrite (proj2 (N.ltb_ge _ _)) by done. by rewrite Hbytes, He.
Qed.

Definition outcome_ok {A} (st : McpSessionStore) (o : outcome A) : Prop :=
  match o with
  | Returns st' _ => store_ok st' ∧ max_sessions st' = max_sessions st ∧
                     idle_timeout st' = idle_timeout st
  | Panics _ => False
  | Spins => True
  end.

Lemma outcome_ok_map {A B} (f : A → B) st o : outcome_ok st o → outcome_ok st (outcome_map f o).
Proof. by destruct o. Qed.

(** Every call on a well-formed store returns or exhausts its draws, and the
    store it returns is well formed. *)
Lemma exec_ok st c now :
  store_ok st → Forall uuid_text (call_draws c) → outcome_ok st (exec st c now).
Proof.
  intros Hst Hdraws. pose proof (sessions_ok_pruned st now Hst) as Hp.
  assert (∀ A (a : A) m, sessions_ok (max_sessions st) m →
    outcome_ok st (Returns (set_sessions st m) a)) as Hset.
  { intros A a m Hm. split; [by apply store_ok_set|done]. }
  destruct c as [draws|sid|sid|sid|sid d draws|sid cursor]; cbn [exec call_draws] in *;
    apply outcome_ok_map;
    [unfold create_at|unfold phase_at|unfold activate_at|unfold terminate_at
    |unfold record_sse_response_at|unfold replay_sse_after_at].
  - rewrite lock_pruned_ok by done. cbv beta. case_match eqn:Hcap; [by apply Hset|].
    destruct (first_free _ draws) as [sid|] eqn:Ef; [|done]. apply Hset.
    apply first_free_Some in Ef as [Hin Hfree]. apply bool_decide_eq_false in Hfree.
    apply eq_None_not_Some in Hfree. apply Nat.leb_gt in Hcap. destruct Hp as [Hs Hf]. split.
    + rewrite map_size_insert_None by done. lia.
    + apply map_Forall_insert_2; [|done]. rewrite Forall_forall in Hdraws. split; [by apply Hdraws|].
      unfold session_ok; simpl. split_and!; [by exists []; split; constructor|lia|done|lia].
  - rewrite lock_pruned_ok by done. cbv beta. destruct (pruned st now !! sid) as [s|] eqn:Hk; apply Hset; [|done].
    eapply sessions_ok_update; [done..|]. apply (session_ok_same s); [|done..].
    by eapply sessions_ok_lookup.
  - rewrite lock_pruned_ok by done. cbv beta. destruct (pruned st now !! sid) as [s|] eqn:Hk; apply Hset; [|done].
    eapply sessions_ok_update; [done..|]. apply (session_ok_same s); [|done..].
    by eapply sessions_ok_lookup.
  - rewrite lock_pruned_ok by done. cbv beta. destruct (pruned st now !! sid) as [s|] eqn:Hk; apply Hset; [|done].
    by apply sessions_ok_delete.
  - case_match eqn:Hd; [done|]. apply N.ltb_ge in Hd.
    rewrite lock_pruned_ok by done. cbv beta.
    destruct (pruned st now !! sid) as [s|] eqn:Hk; [|by apply Hset].
    destruct (first_free _ draws) as [new|] eqn:Ef; [|done].
    destruct (record_live st sid d now draws s new) as (k & s' & He & Hs' & _); [done..|].
    revert He. unfold record_sse_response_at. rewrite (proj2 (N.ltb_ge _ _)) by done.
    rewrite lock_pruned_ok by done. cbv beta. rewrite Hk, Ef. intros ->.
    apply Hset. by eapply sessions_ok_update.
  - rewrite lock_pruned_ok by done. cbv beta. destruct (pruned st now !! sid) as [s|] eqn:Hk; [|by apply Hset].
    destruct (replay_after _ _); apply Hset; [|done]. eapply sessions_ok_update; [done..|].
    apply (session_ok_same s); [|done..]. by eapply sessions_ok_lookup.
Qed.

Lemma step_ok st e st' :
  store_ok st → step st e st' →
  store_ok st' ∧ max_sessions st' = max_sessions st ∧ idle_timeout st' = idle_timeout st.
Proof.
  intros Hst H. destruct H as [st c now st' a Hd He|st c now st' Hd He];
    pose proof (exec_ok st c now Hst Hd) as Ho; unfold outcome_ok in Ho; by rewrite He in Ho.
Qed.

Lemma run_ok st es st' :
  run st es st' → store_ok st →
  store_ok st' ∧ max_sessions st' = max_sessions st ∧ idle_timeout st' = idle_timeout st.
Proof.
  induction 1 as [|st e st' es st'' H _ IH]; [done|]. intros Hst.
  apply step_ok in H as (Hok & E1 & E2); [|done]. destruct (IH Hok) as (? & -> & ->). done.
Qed.

Lemma new_ok : store_ok McpSessionStore_new.
Proof.
  split; [done|]. split; [|apply map_Forall_empty].
  change (size (∅ : SessionRegistry) ≤ MAX_MCP_SESSIONS). rewrite map_size_empty. lia.
Qed.

(* ------------------------------------------------------------------ *)
(** ** The wire image of a session's buffer *)

Definition append_all (evs : list SseReplayEvent) (output : bytes) : bytes :=
  foldl (λ out e, append_wire_bytes e out) output evs.

(** What a client that replayed everything would be sent. *)
Definition wire_image (s : SessionRecord) : bytes :=
  append_all (concat (events <$> sse_streams s)) [].

Lemma length_append_all evs out :
  N.of_nat (length (append_all evs out)) = (N.of_nat (length out) + sum_wire_len evs)%N.
Proof.
  revert out; induction evs as [|e evs IH]; intros out; cbn; [lia|].
  unfold append_all in IH. rewrite IH, length_append_wire_bytes. unfold sum_wire_len. cbn. lia.
Qed.

Lemma sum_wire_len_app a b : sum_wire_len (a ++ b) = (sum_wire_len a + sum_wire_len b)%N.
Proof. unfold sum_wire_len. induction a as [|e a IH]; cbn; [done|]. lia. Qed.

Lemma length_wire_image s :
  session_ok s → N.of_nat (length (wire_image s)) = sse_replay_bytes s.
Proof.
  intros ((ids & _ & Hids) & _ & -> & _). unfold wire_image. rewrite length_append_all.
  change (N.of_nat (length [])) with 0%N. rewrite N.add_0_l.
  induction Hids as [|sid x ids ss (_ & d & _ & _ & Hr) _ IH]; [done|].
  rewrite fmap_cons. cbn [concat]. rewrite sum_wire_len_app, IH, <-Hr. done.
Qed.

(* ------------------------------------------------------------------ *)
(** ** The lifecycle of one session, read off the trace *)

(** What an answered call says about the phase of session [sid]. *)
Definition trace_step (sid : bytes) (acc : option SessionPhase) (e : call * N * option answer)
    : option SessionPhase :=
  match e with
  | (Create _, _, Some (Created (Ok sid'))) =>
    if bool_decide (sid' = sid) then Some AwaitingInitialized else acc
  | (Activate sid', _, Some (Activated (Ok _))) =>
    if bool_decide (sid' = sid) then Some Active else acc
  | (Terminate sid', _, Some (Terminated (Ok _))) =>
    if bool_decide (sid' = sid) then None else acc
  | _ => acc
  end.

Definition trace_phase (sid : bytes) (es : list (call * N * option answer)) : option SessionPhase :=
  foldl (trace_step sid) None es.

Definition agrees (st : McpSessionStore) (acc : bytes → option SessionPhase) : Prop :=
  ∀ sid s, guarded (inner st) !! sid = Some s → acc sid = Some (phase s).

Lemma agrees_pruned st acc now m :
  agrees st acc → m = pruned st now → ∀ sid s, m !! sid = Some s → acc sid = Some (phase s).
Proof. intros Ha -> sid s [Hk _]%lookup_prune. by apply Ha. Qed.

Lemma agrees_same st now sid0 s0 s0' acc :
  agrees st acc → pruned st now !! sid0 = Some s0 → phase s0' = phase s0 →
  agrees (set_sessions st (<[sid0 := s0']> (pruned st now))) acc.
Proof.
  intros Ha Hk Hph sid s. cbn. rewrite lookup_insert_Some. intros [[<- <-]|[_ Hs]].
  - rewrite Hph. by eapply (agrees_pruned st _ now).
  - by eapply (agrees_pruned st _ now).
Qed.

Lemma agrees_exec st acc c now st' a :
  store_ok st → Forall uuid_text (call_draws c) → agrees st acc → exec st c now = Returns st' a →
  agrees st' (λ sid, trace_step sid (acc sid) (c, now, Some a)).
Proof.
  intros Hst Hd Ha He.
  assert (agrees (set_sessions st (pruned st now)) acc) as Hpr
    by (intros sid s Hs; by eapply (agrees_pruned st _ now)).
  destruct c as [draws|sid|sid|sid|sid d draws|sid cursor]; cbn [exec] in He;
    unfold create_at, phase_at, activate_at, terminate_at, replay_sse_after_at in He.
  - rewrite lock_pruned_ok in He by done. destruct (_ <=? _); simplify_eq/=; [done|].
    destruct (first_free _ _) as [new|] eqn:Ef; simplify_eq/=.
    intros sid s. cbn. case_bool_decide as Hn; rewrite lookup_insert_Some.
    + subst. intros [[_ <-]|[? _]]; done.
    + intros [[? _]|[_ Hs]]; [done|]. by eapply (agrees_pruned st _ now).
  - rewrite lock_pruned_ok in He by done.
    destruct (pruned st now !! sid) as [s|] eqn:Hk; simplify_eq/=; [|done].
    by eapply agrees_same.
  - rewrite lock_pruned_ok in He by done.
    destruct (pruned st now !! sid) as [s|] eqn:Hk; simplify_eq/=; [|done].
    intros sid' s'. cbn. case_bool_decide as Hn; rewrite lookup_insert_Some.
    + subst. intros [[_ <-]|[? _]]; done.
    + intros [[? _]|[_ Hs]]; [done|]. by eapply (agrees_pruned st _ now).
  - rewrite lock_pruned_ok in He by done.
    destruct (pruned st now !! sid) as [s|] eqn:Hk; simplify_eq/=; [|done].
    intros sid' s'. cbn. rewrite lookup_delete_Some. intros [Hn Hs].
    rewrite bool_decide_false by done. by eapply (agrees_pruned st _ now).
  - cbn [call_draws] in Hd. destruct (record_sse_response_at st sid d now draws) as [st1 r| |] eqn:Er;
      simplify_eq/=.
    assert (agrees st' acc); [|by destruct r].
    destruct (N.leb_spec (N.of_nat (length d)) MAX_MCP_SSE_EVENT_DATA_BYTES) as [Hl|Hl].
    + pose proof Er as Er'. unfold record_sse_response_at in Er'.
      rewrite (proj2 (N.ltb_ge _ _)), lock_pruned_ok in Er' by done.
      destruct (pruned st now !! sid) as [s|] eqn:Hk; [|by simplify_eq/=].
      destruct (first_free _ draws) as [new|] eqn:Ef; [|done].
      destruct (record_live st sid d now draws s new) as (k & s' & E & _ & _ & -> & _); [done..|].
      rewrite E in Er. simplify_eq. by eapply agrees_same.
    + unfold record_sse_response_at in Er. rewrite (proj2 (N.ltb_lt _ _)) in Er by done.
      by simplify_eq.
  - rewrite lock_pruned_ok in He by done.
    destruct (pruned st now !! sid) as [s|] eqn:Hk; simplify_eq/=; [|done].
    destruct (replay_after _ _) as [evs|]; simplify_eq/=; [|done]. by eapply agrees_same.
Qed.

Lemma agrees_run st es st' acc :
  run st es st' → store_ok st → agrees st acc →
  agrees st' (λ sid, foldl (trace_step sid) (acc sid) es).
Proof.
  intros Hr. revert acc. induction Hr as [st|st e st' es st'' Hstep Hr IH]; intros acc Hst Ha; [done|].
  destruct (step_ok _ _ _ Hst Hstep) as (Hst' & _).
  apply (IH (λ sid, trace_step sid (acc sid) e) Hst').
  destruct Hstep as [st c now st' a Hd He|st c now st' Hd He].
  - by eapply (agrees_exec st).
  - pose proof (exec_ok st c now Hst Hd) as Ho. by rewrite He in Ho.
Qed.

(** The session a call is about; [Create] is about the one it names. *)
Definition call_session (c : call) (a : answer) : option bytes :=
  match c, a with
  | Create _, Created (Ok sid) => Some sid
  | Phase sid, _ | Activate sid, _ | Terminate sid, _ | RecordSse sid _ _, _
  | ReplaySse sid _, _ => Some sid
  | _, _ => None
  end.

Lemma exec_frame st c now st' a sid :
  store_ok st → exec st c now = Returns st' a → call_session c a ≠ Some sid →
  guarded (inner st') !! sid = pruned st now !! sid ∨ st' = st.
Proof.
  intros Hst He Hne.
  destruct c as [draws|sid0|sid0|sid0|sid0 d draws|sid0 cursor]; cbn [exec] in He;
    unfold create_at, phase_at, activate_at, terminate_at, record_sse_response_at,
      replay_sse_after_at in He;
    [..|destruct (N.ltb _ _); [right; by simplify_eq/=|]|];
    left; rewrite lock_pruned_ok in He by done;
    repeat (case_match; simplify_eq/=); try done;
    first [by rewrite lookup_insert_ne by congruence|by rewrite lookup_delete_ne by congruence].
Qed.

(* ------------------------------------------------------------------ *)
(** ** Replay lookups *)

Lemma cursor_inj a b (x y : bytes) :
  COLON ∉ a → COLON ∉ b → a ++ COLON :: x = b ++ COLON :: y → a = b ∧ x = y.
Proof.
  intros Ha Hb H. apply (f_equal (split_once COLON)) in H.
  rewrite !split_once_app in H by done. by simplify_eq.
Qed.

(** The lookup in one recorded stream. *)
Definition replay_one (stream : SseReplayStream) (cursor : bytes) : option (list SseReplayEvent) :=
  '(index, _) ← list_find (λ event, id event = cursor) (events stream);
  Some (drop (S index) (events stream)).

Lemma replay_one_Some name d str cursor evs :
  events str = stream_events name d → uuid_text name →
  replay_one str cursor = Some evs ↔
  (cursor = name ++ COLON :: bs "0" ∧ evs = drop 1 (stream_events name d)) ∨
  (cursor = name ++ COLON :: bs "1" ∧ evs = []).
Proof.
  intros He [_ Hc]. unfold replay_one. rewrite He. unfold stream_events. cbn [list_find id].
  assert (name ++ COLON :: bs "0" ≠ name ++ COLON :: bs "1") as Hne
    by (intros H%app_inv_head; discriminate H).
  repeat case_decide; simpl; subst; split; naive_solver.
Qed.

Lemma replay_after_Some s cursor evs :
  session_ok s →
  replay_after (sse_streams s) cursor = Some evs ↔
  ∃ str name d, str ∈ sse_streams s ∧ events str = stream_events name d ∧ uuid_text name ∧
    ((cursor = name ++ COLON :: bs "0" ∧ evs = drop 1 (stream_events name d)) ∨
     (cursor = name ++ COLON :: bs "1" ∧ evs = [])).
Proof.
  intros ((ids & Hnd & Hids) & _). unfold replay_after.
  change (λ stream, '(index, _) ← list_find (λ event, id event = cursor) (events stream);
    Some (drop (S index) (events stream))) with (λ stream, replay_one stream cursor).
  induction Hids as [|i x ids ss (Hi & dx & Hx & _) Hids IH]; cbn [find_map].
  - split; [done|]. by intros (? & ? & ? & ?%elem_of_nil & _).
  - apply NoDup_cons in Hnd as [Hnotin Hnd]. specialize (IH Hnd).
    destruct (replay_one x cursor) as [evs'|] eqn:E.
    + apply (replay_one_Some i dx) in E as Hcur; [|done..]. split.
      * intros [= <-]. exists x, i, dx. split; [by left|done].
      * intros (str & name & d & Hin & Hev & Hname & Hc').
        assert (name = i) as ->.
        { destruct Hi as [_ Hi], Hname as [_ Hname].
          destruct Hcur as [[-> _]|[-> _]], Hc' as [[Hc' _]|[Hc' _]]; by apply cursor_inj in Hc' as [-> ?]. }
        apply elem_of_cons in Hin as [->|Hin].
        -- rewrite <-E. by apply (replay_one_Some i d).
        -- exfalso. apply Hnotin. apply list_elem_of_split in Hin as (l1 & l2 & ->).
           apply Forall2_app_inv_r in Hids as (k1 & k2 & _ & Hk & ->).
           inversion Hk as [|j ? k2' ? (Hj & dj & Ej & _)]; subst.
           rewrite Hev in Ej. unfold stream_events in Ej. injection Ej as Ej _ _.
           apply cursor_inj in Ej as [-> _]; [|by destruct Hi|by destruct Hj]. set_solver.
    + rewrite IH. split; intros (str & name & d & Hin & Hev & Hname & Hc').
      * exists str, name, d. split; [by right|done].
      * exists str, name, d. apply elem_of_cons in Hin as [->|Hin]; [|done].
        exfalso. revert E. apply not_eq_None_Some. exists evs. by apply (replay_one_Some name d).
Qed.

(* ------------------------------------------------------------------ *)
(** ** Properties *)

(** C27: the session store is bounded and never panics.  After any sequence of
    calls at any times (the clock need not even be monotonic), no call has
    panicked, the mutex is not poisoned, at most 64 sessions exist, and what each
    session retains for replay is at most 8 streams and, as bytes on the wire, at
    most 256 KiB. *)
Theorem sessions_stay_bounded es st :
  run McpSessionStore_new es st →
  Forall (λ e, is_Some e.2) es ∧ poisoned (inner st) = false ∧
  size (guarded (inner st)) ≤ MAX_MCP_SESSIONS ∧
  ∀ sid s, guarded (inner st) !! sid = Some s →
    length (sse_streams s) ≤ MAX_MCP_SSE_STREAMS_PER_SESSION ∧
    (N.of_nat (length (wire_image s)) ≤ MAX_MCP_SSE_REPLAY_BYTES_PER_SESSION)%N.
Proof.
  intros Hr. split.
  { revert Hr. generalize new_ok. generalize McpSessionStore_new. intros st0 Hst0.
    induction 1 as [|st1 e st2 es st3 Hs Hr IH]; [constructor|].
    destruct (step_ok _ _ _ Hst0 Hs) as (Hst2 & _). constructor; [|by apply IH].
    destruct Hs as [|? c now ? Hd He]; [by eexists|].
    pose proof (exec_ok _ c now Hst0 Hd) as Ho. by rewrite He in Ho. }
  apply run_ok in Hr as ((Hp & Hsize & Hf) & Hmax & _); [|apply new_ok].
  rewrite Hmax in Hsize. split_and!; [done..|]. intros sid s Hs.
  destruct (Hf _ _ Hs) as [_ Hok]. pose proof Hok as (_ & ? & _ & ?).
  by rewrite length_wire_image.
Qed.

(** [create] terminates and is exact.  If the drawn names are distinct and
    more than the store's limit, the drawing loop ends: [create] returns either a
    drawn name no live session has, inserted as a fresh session awaiting
    initialization, or [CapacityExhausted], exactly when the live sessions
    already fill the store. *)
Theorem create_always_answers st now draws :
  store_ok st → NoDup draws → max_sessions st < length draws →
  ∃ st' r, create_at st now draws = Returns st' r ∧
    match r with
    | Ok sid => size (pruned st now) < max_sessions st ∧ sid ∈ draws ∧ pruned st now !! sid = None ∧
        guarded (inner st') = <[sid := mkSession AwaitingInitialized now [] 0]> (pruned st now)
    | Err e => e = SessionStoreError.CapacityExhausted ∧ max_sessions st ≤ size (pruned st now) ∧
        guarded (inner st') = pruned st now
    end.
Proof.
  intros Hst Hnd Hlen. unfold create_at. rewrite lock_pruned_ok by done. cbv beta.
  destruct (Nat.leb_spec (max_sessions st) (size (pruned st now))) as [Hc|Hc].
  { eexists _, _. split; [done|]. done. }
  destruct (first_free_total (λ c, bool_decide (is_Some (pruned st now !! c))) draws
    (elements (dom (pruned st now)))) as [sid Hs]; [done| | |].
  - rewrite <-size_dom in Hc. unfold size, set_size in Hc. simpl in Hc. lia.
  - intros c Hc'%bool_decide_eq_true. by apply elem_of_elements, elem_of_dom.
  - rewrite Hs. eexists _, _. split; [done|]. apply first_free_Some in Hs as [Hin Hf].
    apply bool_decide_eq_false, eq_None_not_Some in Hf. by split_and!.
Qed.

(** Recording a response terminates and is exact: with more distinct drawn
    names than a session can have streams, the call returns, and it is accepted
    exactly if the data is at most 128 KiB and the session is live (in particular
    the replay budget check that follows can not refuse it). *)
Theorem record_always_answers st sid d now draws :
  store_ok st → Forall uuid_text draws → NoDup draws →
  MAX_MCP_SSE_STREAMS_PER_SESSION < length draws →
  ∃ st' r, record_sse_response_at st sid d now draws = Returns st' r ∧
    (is_ok r = true ↔
     (N.of_nat (length d) ≤ MAX_MCP_SSE_EVENT_DATA_BYTES)%N ∧ is_Some (pruned st now !! sid)).
Proof.
  intros Hst Hd Hnd Hlen.
  destruct (N.leb_spec (N.of_nat (length d)) MAX_MCP_SSE_EVENT_DATA_BYTES) as [Hl|Hl].
  2: { unfold record_sse_response_at. rewrite (proj2 (N.ltb_lt _ _)) by done.
       eexists _, _. split; [done|]. simpl. split; [done|lia]. }
  destruct (pruned st now !! sid) as [s|] eqn:Hk.
  2: { unfold record_sse_response_at. rewrite (proj2 (N.ltb_ge _ _)), lock_pruned_ok by done.
       cbv beta. rewrite Hk. eexists _, _. split; [done|]. simpl. split; [done|by intros [_ []]]. }
  destruct (sessions_ok_lookup _ _ _ _ (sessions_ok_pruned st now Hst) Hk) as [_ Hs].
  pose proof Hs as ((ids & Hids1 & Hids) & Hlen8 & _).
  destruct (first_free_total (λ c, negb (forallb (stream_avoids c) (sse_streams s))) draws ids)
    as [new Ef]; [done| | |].
  - apply Forall2_length in Hids. lia.
  - intros c Hc. by eapply taken_streams.
  - destruct (record_live st sid d now draws s new) as (k & s' & He & _); [done..|].
    eexists _, _. split; [done|]. simpl. split; [by eexists|done].
Qed.

Lemma replay_resumes st sid cursor now evs :
  store_ok st →
  (∃ st', replay_sse_after_at st sid cursor now = Returns st' (Ok evs)) ↔
  ∃ s str name d, pruned st now !! sid = Some s ∧ str ∈ sse_streams s ∧
    events str = stream_events name d ∧ uuid_text name ∧
    ((cursor = name ++ COLON :: bs "0" ∧ evs = [mkEvent (name ++ COLON :: bs "1") d false]) ∨
     (cursor = name ++ COLON :: bs "1" ∧ evs = [])).
Proof.
  intros Hst. unfold replay_sse_after_at. rewrite lock_pruned_ok by done. cbv beta.
  destruct (pruned st now !! sid) as [s|] eqn:Hk; [|naive_solver].
  destruct (sessions_ok_lookup _ _ _ _ (sessions_ok_pruned st now Hst) Hk) as [_ Hs].
  pose proof (replay_after_Some s cursor evs Hs) as Hr. cbn in Hr. split.
  - intros [st' He]. destruct (replay_after (sse_streams s) cursor) as [evs'|]; [|done].
    injection He as _ ->. destruct (proj1 Hr eq_refl) as (str & name & d & ?). by exists s, str, name, d.
  - intros (s' & str & name & d & Heq & Hrest). simplify_eq.
    rewrite (proj2 Hr) by (by exists str, name, d). by eexists.
Qed.

(** C28: replay never crosses a stream or a session.  [replay_sse_after] answers
    with events exactly when the session is live and the cursor is the id of an
    event the store retains for that session, and the answer is what follows that
    event in its own stream: the response event after the priming event, nothing
    after the response. *)
Theorem replay_resumes_exactly st sid cursor now evs :
  store_ok st →
  (∃ st', replay_sse_after_at st sid cursor now = Returns st' (Ok evs)) ↔
  ∃ s str name d, pruned st now !! sid = Some s ∧ str ∈ sse_streams s ∧
    events str = stream_events name d ∧ uuid_text name ∧
    ((cursor = name ++ COLON :: bs "0" ∧ evs = [mkEvent (name ++ COLON :: bs "1") d false]) ∨
     (cursor = name ++ COLON :: bs "1" ∧ evs = [])).
Proof. apply replay_resumes. Qed.

(** A recorded response can be resumed.  After [record_sse_response] returned
    two events, a reconnect of the same session before it idles out, with the id
    of the first event, is answered with the second, whose data is the recorded
    response; with the id of the second, with nothing. *)
Theorem recorded_response_replays st sid d now draws st' evs now' :
  store_ok st → Forall uuid_text draws →
  record_sse_response_at st sid d now draws = Returns st' (Ok evs) →
  (now' < now + idle_timeout st)%N →
  ∃ e0 e1, evs = [e0; e1] ∧ data e1 = d ∧
    (∃ st'', replay_sse_after_at st' sid (id e0) now' = Returns st'' (Ok [e1])) ∧
    (∃ st'', replay_sse_after_at st' sid (id e1) now' = Returns st'' (Ok [])).
Proof.
  intros Hst Hd Hrec Hnow.
  destruct (N.leb_spec (N.of_nat (length d)) MAX_MCP_SSE_EVENT_DATA_BYTES) as [Hl|Hl].
  2: { unfold record_sse_response_at in Hrec. by rewrite (proj2 (N.ltb_lt _ _)) in Hrec. }
  pose proof Hrec as Hr. unfold record_sse_response_at in Hr.
  rewrite (proj2 (N.ltb_ge _ _)), lock_pruned_ok in Hr by done.
  destruct (pruned st now !! sid) as [s|] eqn:Hk; [|done].
  destruct (first_free _ draws) as [new|] eqn:Ef; [|done]. clear Hr.
  destruct (record_live st sid d now draws s new) as (k & s' & He & Hs' & Hnew & Es & _); [done..|].
  rewrite He in Hrec. injection Hrec as <- <-.
  set (st' := set_sessions st (<[sid:=s']> (pruned st now))).
  assert (store_ok st') as Hst'.
  { apply store_ok_set; [done|]. eapply sessions_ok_update; [by apply sessions_ok_pruned|done..]. }
  assert (pruned st' now' !! sid = Some s') as Hlive.
  { apply lookup_prune. split; [cbn; by rewrite lookup_insert_eq|]. subst s'. unfold live. cbn.
    destruct (N.ltb_spec now' now); [done|]. apply N.ltb_lt. lia. }
  assert (mkStream (stream_events new d) (sum_wire_len (stream_events new d)) ∈ sse_streams s') as Hin.
  { subst s'. cbn. apply elem_of_app. right. by apply list_elem_of_singleton. }
  eexists _, _. split_and!; [done|done|..]; apply (replay_resumes st' sid _ now' _ Hst');
    exists s', (mkStream (stream_events new d) (sum_wire_len (stream_events new d))), new, d;
    split_and!; first [done|by left|by right].
Qed.

(** The answer a call gives for a session that does not exist. *)
Definition not_found (c : call) : option answer :=
  match c with
  | Create _ => None
  | Phase _ => Some (PhaseIs (Err SessionStoreError.NotFound))
  | Activate _ => Some (Activated (Err SessionStoreError.NotFound))
  | Terminate _ => Some (Terminated (Err SessionStoreError.NotFound))
  | RecordSse _ d _ =>
    if (MAX_MCP_SSE_EVENT_DATA_BYTES <? N.of_nat (length d))%N then None
    else Some (Recorded (Err SseReplayError.SessionNotFound))
  | ReplaySse _ _ => Some (Replayed (Err SseReplayError.SessionNotFound))
  end.

(** An idle session is gone.  Once a session has been idle for the timeout,
    every call that names it answers "not found" and removes it: no call can
    revive it, not even one that would have refreshed it. *)
Theorem idle_session_is_gone st sid s c a now :
  store_ok st → guarded (inner st) !! sid = Some s →
  (last_activity s + idle_timeout st ≤ now)%N →
  call_session c a = Some sid → not_found c = Some a →
  ∃ st', exec st c now = Returns st' a ∧ guarded (inner st') !! sid = None.
Proof.
  intros Hst Hs Hidle Hc Ha.
  assert (pruned st now !! sid = None) as Hnone.
  { apply eq_None_not_Some. intros [s' [Hs' Hlive]%lookup_prune].
    assert (s' = s) as -> by congruence. unfold live in Hlive.
    destruct (N.ltb_spec now (last_activity s)); [|apply N.ltb_lt in Hlive; lia].
    lia. }
  destruct c; simplify_eq/=;
    unfold phase_at, activate_at, terminate_at, record_sse_response_at, replay_sse_after_at;
    [..|destruct (N.ltb _ _); simplify_eq/=|];
    rewrite lock_pruned_ok by done; cbv beta; rewrite Hnone; by eexists.
Qed.

(** C29: the session lifecycle.  The phase the store holds for a session is the
    one the trace of answered calls dictates: awaiting initialization since the
    [create] that named it, active only after a successful [activate] of it, and
    never a session that was terminated and not named again. *)
Theorem phase_follows_trace es st sid s :
  run McpSessionStore_new es st → guarded (inner st) !! sid = Some s →
  trace_phase sid es = Some (phase s).
Proof.
  intros Hr Hs. apply (agrees_run _ _ _ (λ _, None) Hr new_ok); [|done].
  intros ? ? H. discriminate H.
Qed.

(** Calls are isolated.  A call changes the record of no other session than
    the one it names (or creates), beyond dropping the ones that idled out. *)
Theorem calls_are_isolated st c now st' a sid :
  store_ok st → exec st c now = Returns st' a → call_session c a ≠ Some sid →
  guarded (inner st') !! sid = pruned st now !! sid ∨ st' = st.
Proof. apply exec_frame. Qed.

(* ------------------------------------------------------------------ *)
(** ** Witnesses *)

Definition example_uuid (n : N) : bytes := bs "0194f9f9-bbbb-7ccc-8ddd-eeeeeeeeeee" ++ [byte_of (48 + n)].
Definition example_draws : list bytes := example_uuid <$> [1; 2; 3; 4; 5; 6; 7; 8; 9]%N.
Definition example_calls : list (call * N) :=
  [(Create [example_uuid 1], 10%N); (Activate (example_uuid 1), 20%N);
   (RecordSse (example_uuid 1) (bs "{}") example_draws, 30%N)].

(** Run the calls, collecting the trace. *)
Fixpoint run_calls (st : McpSessionStore) (cs : list (call * N))
    : list (call * N * option answer) * McpSessionStore :=
  match cs with
  | [] => ([], st)
  | (c, now) :: cs =>
    match exec st c now with
    | Returns st' a => let '(es, st'') := run_calls st' cs in ((c, now, Some a) :: es, st'')
    | _ => ([], st)
    end
  end.

Definition example_trace := (run_calls McpSessionStore_new example_calls).1.
Definition example_store : McpSessionStore := (run_calls McpSessionStore_new example_calls).2.

Lemma example_draws_ok : Forall uuid_text example_draws.
Proof. repeat constructor; by apply (bool_decide_unpack _). Defined.
Lemma example_draws_distinct : NoDup example_draws.
Proof. apply (bool_decide_unpack _). vm_compute. done. Defined.

Lemma example_run : run McpSessionStore_new example_trace example_store.
Proof.
  repeat (eapply run_cons; [apply step_returns; [|vm_compute; reflexivity]|]); [..|apply run_nil];
    repeat constructor; by apply (bool_decide_unpack _).
Defined.

Lemma example_store_ok : store_ok example_store.
Proof. apply (run_ok _ _ _ example_run new_ok). Defined.

Lemma sessions_stay_bounded_witness :
  size (guarded (inner example_store)) ≤ MAX_MCP_SESSIONS ∧ length example_trace = 3.
Proof.
  split; [|vm_compute; reflexivity].
  destruct (sessions_stay_bounded _ _ example_run) as (_ & _ & H & _). exact H.
Defined.

(** A store of one session, into which a session fits. *)
Definition example_small : McpSessionStore := with_limits 1 1000.
Lemma example_small_ok : store_ok example_small.
Proof. split; [done|]. split; [vm_compute; lia|apply map_Forall_empty]. Defined.

Lemma create_always_answers_witness :
  ∃ st' r, create_at example_small 5 example_draws = Returns st' r ∧
    match r with Ok sid => sid ∈ example_draws | Err e => e = SessionStoreError.CapacityExhausted end.
Proof.
  destruct (create_always_answers example_small 5 example_draws) as (st' & r & He & Hr);
    [apply example_small_ok|apply example_draws_distinct|vm_compute; lia|].
  exists st', r. split; [exact He|]. destruct r; apply Hr.
Defined.

Lemma record_always_answers_witness :
  ∃ st' r, record_sse_response_at example_store (example_uuid 1) (bs "[]") 40 example_draws
    = Returns st' r ∧ is_ok r = true.
Proof.
  destruct (record_always_answers example_store (example_uuid 1) (bs "[]") 40 example_draws)
    as (st' & r & He & Hiff);
    [apply example_store_ok|apply example_draws_ok|apply example_draws_distinct|vm_compute; lia|].
  exists st', r. split; [exact He|]. apply Hiff. split; [vm_compute; discriminate|].
  vm_compute. by eexists.
Defined.

Definition example_cursor : bytes := example_uuid 1 ++ COLON :: bs "0".

Lemma replay_resumes_exactly_witness :
  (∃ st', replay_sse_after_at example_store (example_uuid 1) example_cursor 50 =
     Returns st' (Ok [mkEvent (example_uuid 1 ++ COLON :: bs "1") (bs "{}") false])) ∧
  ∃ s str name d, pruned example_store 50 !! example_uuid 1 = Some s ∧ str ∈ sse_streams s ∧
    events str = stream_events name d ∧ uuid_text name ∧
    ((example_cursor = name ++ COLON :: bs "0" ∧
      [mkEvent (example_uuid 1 ++ COLON :: bs "1") (bs "{}") false] =
      [mkEvent (name ++ COLON :: bs "1") d false]) ∨
     (example_cursor = name ++ COLON :: bs "1" ∧
      [mkEvent (example_uuid 1 ++ COLON :: bs "1") (bs "{}") false] = [])).
Proof.
  assert (∃ st', replay_sse_after_at example_store (example_uuid 1) example_cursor 50 =
     Returns st' (Ok [mkEvent (example_uuid 1 ++ COLON :: bs "1") (bs "{}") false])) as H
    by (eexists; vm_compute; reflexivity).
  split; [exact H|]. exact (proj1 (replay_resumes_exactly _ _ _ _ _ example_store_ok) H).
Defined.

Definition example_recorded : McpSessionStore :=
  match record_sse_response_at example_store (example_uuid 1) (bs "[]") 40 example_draws with
  | Returns st _ => st
  | _ => example_store
  end.

Lemma recorded_response_replays_witness :
  ∃ st'', replay_sse_after_at example_recorded (example_uuid 1)
    (example_uuid 2 ++ COLON :: bs "0") 60 =
    Returns st'' (Ok [mkEvent (example_uuid 2 ++ COLON :: bs "1") (bs "[]") false]).
Proof.
  destruct (recorded_response_replays example_store (example_uuid 1) (bs "[]") 40 example_draws
    example_recorded (stream_events (example_uuid 2) (bs "[]")) 60) as (e0 & e1 & He & _ & H & _);
    [apply example_store_ok|apply example_draws_ok|vm_compute; reflexivity|vm_compute; reflexivity|].
  injection He as <- <-. exact H.
Defined.

Definition example_session : SessionRecord :=
  default (mkSession Active 0 [] 0) (guarded (inner example_store) !! example_uuid 1).

Lemma idle_session_is_gone_witness :
  ∃ st', exec example_store (Phase (example_uuid 1)) 1800000000030 =
      Returns st' (PhaseIs (Err SessionStoreError.NotFound)) ∧
    guarded (inner st') !! example_uuid 1 = None.
Proof.
  apply (idle_session_is_gone example_store (example_uuid 1) example_session);
    [apply example_store_ok|vm_compute; reflexivity|vm_compute; discriminate|reflexivity|reflexivity].
Defined.

Lemma phase_follows_trace_witness :
  trace_phase (example_uuid 1) example_trace = Some Active.
Proof.
  change Active with (phase example_session).
  apply (phase_follows_trace _ _ _ _ example_run). vm_compute. reflexivity.
Defined.

Lemma calls_are_isolated_witness :
  ∃ st' a, exec example_store (Create [example_uuid 5]) 50 = Returns st' a ∧
    (guarded (inner st') !! example_uuid 1 = pruned example_store 50 !! example_uuid 1 ∨
     st' = example_store).
Proof.
  eexists _, _. split; [vm_compute; reflexivity|].
  eapply (calls_are_isolated example_store (Create [example_uuid 5]) 50);
    [apply example_store_ok|vm_compute; reflexivity|vm_compute; discriminate].
Defined.
End McpSession.
