(* ===== verification/Auth.v ===== *)
(** * Request authentication

    [src/src/auth.rs]: the bearer-token policy, its header parsing and
    fixed-work comparison, and the middleware that decides whether a request
    reaches the transport. *)

From S2P Require Import Prelude RustStd Http.

Module Auth.

Definition MAX_BEARER_TOKEN_BYTES : nat := 4096.

Record McpConnectionInfo := mkConnection {
  peer_address : SocketAddr;
  local_address : option SocketAddr;
}.

Inductive McpAuthPolicyKind :=
| StaticBearer (token : bytes)
| UnauthenticatedLocalhostOnly.

(** [McpAuthPolicy] wraps its kind. *)
Record McpAuthPolicy := mkPolicy { kind : McpAuthPolicyKind }.

(** [config.rs]: the posture, and the authentication settings. *)
Inductive AuthPosture := StaticTokenConfigured | PostureUnauthenticatedLocalhostOnly.
Record AuthConfig := mkAuthConfig {
  static_token : option bytes;
  allow_unauthenticated_localhost_only : bool;
}.

Definition EMPTY_TOKEN : bytes := bs "configured bearer token must not be empty".
Definition LONG_TOKEN : bytes :=
  bs "configured bearer token exceeds the 4096-byte safety limit".
Definition NON_GRAPHIC_TOKEN : bytes :=
  bs "configured bearer token must contain only ASCII graphic bytes".
Definition MISSING_TOKEN : bytes := bs "static-token auth posture requires a configured token".

Definition validate_bearer_token (token : bytes) : Result bytes unit :=
  if bytes_eqb token [] then Err EMPTY_TOKEN
  else if MAX_BEARER_TOKEN_BYTES <? length token then Err LONG_TOKEN
  else if negb (forallb is_ascii_graphic token) then Err NON_GRAPHIC_TOKEN
  else Ok ().

Definition static_bearer (token : bytes) : Result bytes McpAuthPolicy :=
  _ ← validate_bearer_token token;
  Ok (mkPolicy (StaticBearer token)).

Definition unauthenticated_localhost_only : McpAuthPolicy := mkPolicy UnauthenticatedLocalhostOnly.

Definition from_config (auth : AuthConfig) (posture : AuthPosture) : Result bytes McpAuthPolicy :=
  match posture with
  | StaticTokenConfigured =>
    token ← ok_or (static_token auth) MISSING_TOKEN;
    static_bearer token
  | PostureUnauthenticatedLocalhostOnly => Ok unauthenticated_localhost_only
  end.

Definition is_unauthenticated_localhost_only (self : McpAuthPolicy) : bool :=
  match kind self with UnauthenticatedLocalhostOnly => true | StaticBearer _ => false end.
Definition static_principal (self : McpAuthPolicy) : option bytes :=
  match kind self with StaticBearer token => Some token | UnauthenticatedLocalhostOnly => None end.

Record McpAuthBoundary := mkBoundary {
  policy : McpAuthPolicy;
  expected_listener_address : SocketAddr;
}.

(** What the middleware reads of a request. *)
Record Request := mkRequest {
  request_headers : list (bytes * bytes);
  connect_info : option McpConnectionInfo;
}.

(** [slice.get(index).copied().unwrap_or(0)]. *)
Definition byte_at (s : bytes) (index : nat) : N :=
  match s !! index with Some b => byte_val b | None => 0 end.

(** The loop over [0..MAX_BEARER_TOKEN_BYTES], from [index], for [n] rounds. *)
Fixpoint accumulate (n index : nat) (left right : bytes) (difference : N) : N :=
  match n with
  | 0 => difference
  | S n =>
    accumulate n (S index) left right
      (N.lor difference (N.lxor (byte_at left index) (byte_at right index)))
  end.

Definition constant_time_eq (left right : bytes) : bool :=
  (accumulate MAX_BEARER_TOKEN_BYTES 0 left right
     (N.lxor (N.of_nat (length left)) (N.of_nat (length right))) =? 0)%N.

Section middleware.
Context {L : HttpLib}.

Definition BEARER_PREFIX_BYTES : nat := length (bs "Bearer ").
Definition SPACE : byte := byte_of 32.

Definition extract_bearer_token (headers : list (bytes * bytes)) : option bytes :=
  match header_get_all headers AUTHORIZATION with
  | [value] =>
    value ← header_to_str value;
    if BEARER_PREFIX_BYTES + MAX_BEARER_TOKEN_BYTES <? length value then None
    else
      '(scheme, token) ← split_once SPACE value;
      if negb (eq_ignore_ascii_case scheme (bs "Bearer"))
         || negb (is_ok (validate_bearer_token token))
      then None else Some token
  | _ => None
  end.

Definition error_body (error message : bytes) : Json :=
  JObject [(bs "error", JString error); (bs "message", JString message)].

Definition unauthorized_response : Response :=
  with_header
    (with_header
       (json_response 401 (error_body (bs "unauthorized")
          (bs "Valid bearer authentication is required for the MCP transport.")))
       WWW_AUTHENTICATE (bs "Bearer"))
    CACHE_CONTROL (bs "no-store").

Definition localhost_peer_required_response : Response :=
  with_header
    (json_response 403 (error_body (bs "localhost_peer_required")
       (bs "Unauthenticated development access requires the validated loopback listener and a loopback network peer.")))
    CACHE_CONTROL (bs "no-store").

(** The decision, with what follows a refusal and what follows an admission. *)
Definition require_mcp_auth_with {R} (boundary : McpAuthBoundary) (request : Request)
    (refuse : Response → R) (next : Request → R) : R :=
  match kind (policy boundary) with
  | UnauthenticatedLocalhostOnly =>
    if match connect_info request with
       | None => false
       | Some connection =>
         is_loopback (socket_ip (peer_address connection))
         && bool_decide (local_address connection = Some (expected_listener_address boundary))
       end
    then next request
    else refuse localhost_peer_required_response
  | StaticBearer token =>
    if match extract_bearer_token (request_headers request) with
       | None => false
       | Some provided => constant_time_eq provided token
       end
    then next request
    else refuse unauthorized_response
  end.
Definition require_mcp_auth (boundary : McpAuthBoundary) (request : Request)
    (next : Request → Response) : Response :=
  require_mcp_auth_with boundary request (λ response, response) next.
End middleware.

(* ------------------------------------------------------------------ *)
(** ** Lemmas *)

Lemma lor_eq_0 a b : N.lor a b = 0%N ↔ a = 0%N ∧ b = 0%N.
Proof. apply N.lor_eq_0_iff. Qed.

Lemma accumulate_0 n index l r d :
  accumulate n index l r d = 0%N ↔
  d = 0%N ∧ ∀ i, index ≤ i < index + n → byte_at l i = byte_at r i.
Proof.
  revert index d; induction n as [|n IH]; intros index d; cbn [accumulate].
  - split; [|by intros [? _]]. intros ->. split; [done|lia].
  - rewrite IH, lor_eq_0, N.lxor_eq_0_iff. split.
    + intros [[-> Hi] Hall]. split; [done|]. intros i Hlt.
      destruct (decide (i = index)) as [->|]; [done|]. apply Hall. lia.
    + intros [-> Hall]. split_and!; [done|apply Hall; lia|]. intros i Hlt. apply Hall. lia.
Qed.

Lemma constant_time_eq_spec l r :
  length l ≤ MAX_BEARER_TOKEN_BYTES → length r ≤ MAX_BEARER_TOKEN_BYTES →
  constant_time_eq l r = true ↔ l = r.
Proof.
  intros Hl Hr. unfold constant_time_eq. rewrite N.eqb_eq, accumulate_0, N.lxor_eq_0_iff.
  split; [|by intros ->]. intros [Hlen Hall]. apply Nat2N.inj in Hlen.
  apply list_eq_same_length with (length l); [done|done|]. intros i x y Hi Hx Hy.
  specialize (Hall i ltac:(lia)). unfold byte_at in Hall. rewrite Hx, Hy in Hall.
  by apply byte_val_inj.
Qed.

Lemma validate_bearer_token_Ok t :
  validate_bearer_token t = Ok () ↔
  t ≠ [] ∧ length t ≤ MAX_BEARER_TOKEN_BYTES ∧ forallb is_ascii_graphic t = true.
Proof.
  unfold validate_bearer_token, bytes_eqb. case_bool_decide; [naive_solver|].
  destruct (Nat.ltb_spec MAX_BEARER_TOKEN_BYTES (length t)); [split; [done|lia]|].
  destruct (forallb _ _); naive_solver.
Qed.

Lemma static_bearer_Ok t p :
  static_bearer t = Ok p ↔ validate_bearer_token t = Ok () ∧ p = mkPolicy (StaticBearer t).
Proof.
  unfold static_bearer. split.
  - intros H. inv_ok H. destruct x. by simplify_eq.
  - intros [-> ->]. done.
Qed.

(** The credential a bearer request must carry: one [Authorization] value, the
    scheme in any case, one space and the configured token. *)
Definition presents_bearer (headers : list (bytes * bytes)) (token : bytes) : Prop :=
  ∃ scheme, header_get_all headers AUTHORIZATION = [scheme ++ SPACE :: token] ∧
    SPACE ∉ scheme ∧ eq_ignore_ascii_case scheme (bs "Bearer") = true.

Lemma lower_visible b : in_range 32 126 (byte_to_lower b) = true → in_range 32 126 b = true.
Proof. by destruct b. Qed.

Lemma graphic_visible b : is_ascii_graphic b = true → in_range 32 126 b = true.
Proof. by destruct b. Qed.

Lemma scheme_visible scheme :
  eq_ignore_ascii_case scheme (bs "Bearer") = true →
  forallb (in_range 32 126) scheme = true ∧ length scheme = 6.
Proof.
  unfold eq_ignore_ascii_case. intros H%bytes_eqb_true. split.
  - assert (forallb (in_range 32 126) (to_ascii_lowercase scheme) = true) as Hl by (rewrite H; reflexivity).
    clear H. induction scheme as [|b s IH]; [done|]. cbn in *. apply andb_true_iff in Hl as [Hb Hs].
    rewrite (lower_visible _ Hb). by apply IH.
  - apply (f_equal length) in H. unfold to_ascii_lowercase in H. by rewrite !length_fmap in H.
Qed.

Lemma extract_bearer_token_Some `{L : HttpLib} (LL : HttpLibLaws L) h token :
  validate_bearer_token token = Ok () →
  extract_bearer_token h = Some token ↔ presents_bearer h token.
Proof.
  intros Hv. unfold extract_bearer_token, presents_bearer. split.
  - destruct (header_get_all h AUTHORIZATION) as [|v [|? ?]] eqn:Eh; [done| |done].
    intros H. apply bind_Some in H as (v' & ->%header_to_str_Some & H).
    destruct (_ <? _); [done|]. apply bind_Some in H as ([scheme t] & Es & H).
    apply split_once_Some in Es as [-> Hns].
    destruct (_ || _) eqn:Eg; [done|]. simplify_eq. reflect_guards. by exists scheme.
  - intros (scheme & -> & Hns & Hs). pose proof (scheme_visible _ Hs) as [Hvis Hlen].
    apply validate_bearer_token_Ok in Hv as Hv'. destruct Hv' as (_ & Hl & Hg).
    rewrite header_to_str_visible.
    2: { rewrite forallb_app, Hvis. cbn [forallb]. rewrite andb_true_l.
         apply andb_true_iff. split; [reflexivity|]. rewrite forallb_forall in Hg |- *. intros x Hx. by apply graphic_visible, Hg. }
    cbn [mbind option_bind]. rewrite (proj2 (Nat.ltb_ge _ _)).
    2: { rewrite length_app. unfold BEARER_PREFIX_BYTES. cbn [length]. rewrite Hlen.
         change (length (bs "Bearer ")) with 7. lia. }
    rewrite split_once_app by done. cbn [mbind option_bind]. by rewrite Hs, Hv.
Qed.

Lemma extract_bearer_token_valid `{L : HttpLib} h token :
  extract_bearer_token h = Some token → validate_bearer_token token = Ok ().
Proof.
  unfold extract_bearer_token. intros H. destruct (header_get_all h AUTHORIZATION) as [|v [|? ?]];
    [done| |done]. apply bind_Some in H as (v' & _ & H). destruct (_ <? _); [done|].
  apply bind_Some in H as ([scheme t] & _ & H). destruct (_ || _) eqn:Eg; [done|]. simplify_eq.
  reflect_guards. destruct (validate_bearer_token token) as [[]|]; done.
Qed.

(** Who is admitted: by the configured token, or from the loopback listener. *)
Definition admitted (boundary : McpAuthBoundary) (request : Request) : Prop :=
  match kind (policy boundary) with
  | StaticBearer token => presents_bearer (request_headers request) token
  | UnauthenticatedLocalhostOnly =>
    ∃ c, connect_info request = Some c ∧ is_loopback (socket_ip (peer_address c)) = true ∧
      local_address c = Some (expected_listener_address boundary)
  end.
(** A policy as its constructors leave it. *)
Definition policy_valid (p : McpAuthPolicy) : Prop :=
  match kind p with StaticBearer token => validate_bearer_token token = Ok () | UnauthenticatedLocalhostOnly => True end.

Lemma require_mcp_auth_with_spec `{L : HttpLib} (LL : HttpLibLaws L) {R} boundary request (refuse : Response → R) next :
  policy_valid (policy boundary) →
  (admitted boundary request ∧ require_mcp_auth_with boundary request refuse next = next request) ∨
  (¬ admitted boundary request ∧ ∃ r, require_mcp_auth_with boundary request refuse next = refuse r).
Proof.
  unfold policy_valid, admitted, require_mcp_auth_with. destruct (kind (policy boundary)) as [token|].
  - intros Hv. pose proof Hv as (_ & Hl & _)%validate_bearer_token_Ok.
    destruct (extract_bearer_token (request_headers request)) as [provided|] eqn:E.
    + destruct (constant_time_eq provided token) eqn:Ec.
      * left. split; [|done]. pose proof (extract_bearer_token_valid _ _ E) as (_ & Hlp & _)%validate_bearer_token_Ok.
        apply constant_time_eq_spec in Ec as ->; [|done..]. by apply (extract_bearer_token_Some LL).
      * right. split; [|by eexists]. intros Hb%(extract_bearer_token_Some LL); [|done]. rewrite Hb in E. injection E as <-.
        rewrite (proj2 (constant_time_eq_spec _ _ Hl Hl) eq_refl) in Ec. inversion Ec.
    + right. split; [|by eexists]. intros Hb%(extract_bearer_token_Some LL); [|done]. by simplify_eq.
  - intros _. destruct (connect_info request) as [c|]; [|right; split; [by intros (? & ? & _)|by eexists]].
    destruct (is_loopback _) eqn:El; cbn [andb].
    + case_bool_decide as Ha; [left; split; [by exists c|done]|]. right. split; [|by eexists]. by intros (? & [= <-] & _ & ?).
    + right. split; [|by eexists]. intros (? & [= <-] & ? & _). congruence.
Qed.

(* ------------------------------------------------------------------ *)
(** ** Properties *)

(** The fixed-work comparison is equality on bounded tokens: for inputs of at
    most 4096 bytes, whatever their lengths, [constant_time_eq] answers true
    exactly when they are equal. *)
Theorem constant_time_eq_is_equality l r :
  length l ≤ MAX_BEARER_TOKEN_BYTES → length r ≤ MAX_BEARER_TOKEN_BYTES →
  constant_time_eq l r = true ↔ l = r.
Proof. apply constant_time_eq_spec. Qed.

(** C39: bearer authentication is exact.  Under a policy [static_bearer] built, a
    request reaches the transport if and only if it carries exactly one
    [Authorization] value, consisting of the scheme "Bearer" in any case, one
    space and the configured token; every other request is answered 401 without
    the transport running. *)
Theorem bearer_auth_exact `{L : HttpLib} (LL : HttpLibLaws L) token boundary request next :
  static_bearer token = Ok (policy boundary) →
  (presents_bearer (request_headers request) token →
     require_mcp_auth boundary request next = next request) ∧
  (¬ presents_bearer (request_headers request) token →
     require_mcp_auth boundary request next = unauthorized_response).
Proof.
  intros [Hv Hp]%static_bearer_Ok. unfold require_mcp_auth, require_mcp_auth_with. rewrite Hp. cbn [kind].
  apply validate_bearer_token_Ok in Hv as Hv'. destruct Hv' as (_ & Hl & _). split.
  - intros Hb. rewrite (proj2 (extract_bearer_token_Some LL _ _ Hv) Hb).
    by rewrite (proj2 (constant_time_eq_spec _ _ Hl Hl)).
  - intros Hb. destruct (extract_bearer_token _) as [provided|] eqn:E; [|done].
    destruct (constant_time_eq provided token) eqn:Ec; [|done]. exfalso. apply Hb.
    apply extract_bearer_token_valid in E as Hvp.
    apply validate_bearer_token_Ok in Hvp as (_ & Hlp & _).
    apply constant_time_eq_spec in Ec as ->; [|done..]. by apply (extract_bearer_token_Some LL).
Qed.

(** Unauthenticated mode is not a bypass.  Under the localhost-only policy a
    request reaches the transport if and only if its connection metadata is
    present, the peer is a loopback address and the stream's local address is
    exactly the validated listener; headers play no part, and every other request
    is answered 403. *)
Theorem localhost_only_exact `{L : HttpLib} boundary request next :
  is_unauthenticated_localhost_only (policy boundary) = true →
  let trusted := ∃ c, connect_info request = Some c ∧
    is_loopback (socket_ip (peer_address c)) = true ∧
    local_address c = Some (expected_listener_address boundary) in
  (trusted → require_mcp_auth boundary request next = next request) ∧
  (¬ trusted → require_mcp_auth boundary request next = localhost_peer_required_response).
Proof.
  unfold is_unauthenticated_localhost_only, require_mcp_auth, require_mcp_auth_with.
  destruct (kind (policy boundary)) as [|]; [done|]. intros _. cbv zeta. split.
  - intros (c & -> & -> & ->). by rewrite bool_decide_true.
  - intros Hn. destruct (connect_info request) as [c|]; [|done].
    destruct (is_loopback _) eqn:El; simpl; [|done]. case_bool_decide; [|done].
    exfalso. apply Hn. by exists c.
Qed.

(** Configuration fails closed.  [from_config] yields a policy only for the
    configured posture, and a bearer policy only with a non-empty, graphic,
    bounded token, which is the policy's principal. *)
Theorem from_config_exact auth posture p :
  from_config auth posture = Ok p ↔
  match posture with
  | StaticTokenConfigured =>
    ∃ token, static_token auth = Some token ∧ token ≠ [] ∧ length token ≤ MAX_BEARER_TOKEN_BYTES ∧
      forallb is_ascii_graphic token = true ∧ static_principal p = Some token
  | PostureUnauthenticatedLocalhostOnly => static_principal p = None
  end.
Proof.
  unfold from_config, static_principal. destruct posture.
  - destruct (static_token auth) as [t|]; cbn [ok_or mbind Result_bind]; [|naive_solver].
    rewrite static_bearer_Ok, validate_bearer_token_Ok. split.
    + intros ((? & ? & ?) & ->). by exists t.
    + intros (t' & [= <-] & ? & ? & ? & Hp). destruct p as [[]]; simplify_eq/=. done.
  - unfold unauthenticated_localhost_only. destruct p as [[]]; naive_solver.
Qed.

(* ------------------------------------------------------------------ *)
(** ** Witnesses *)

#[local] Existing Instance example_http.
#[local] Existing Instance example_http_laws.

Definition example_listener : SocketAddr := SocketV4 2130706433 8080.
Definition example_boundary : McpAuthBoundary :=
  mkBoundary (mkPolicy (StaticBearer (bs "s3cret"))) example_listener.
Definition example_request : Request :=
  mkRequest [(AUTHORIZATION, bs "bEaReR s3cret")] None.
Definition example_next (r : Request) : Response := mkResponse 200 [] (OpaqueBody []).

Lemma constant_time_eq_is_equality_witness : constant_time_eq (bs "token") (bs "token") = true.
Proof. apply constant_time_eq_is_equality; [vm_compute; lia|vm_compute; lia|reflexivity]. Defined.

Lemma bearer_auth_exact_witness :
  require_mcp_auth example_boundary example_request example_next = example_next example_request.
Proof.
  apply (bearer_auth_exact example_http_laws (bs "s3cret"));
    [vm_compute; reflexivity|].
  exists (bs "bEaReR"). split; [reflexivity|]. split; [|reflexivity].
  by apply (bool_decide_unpack _).
Defined.

Lemma localhost_only_exact_witness :
  let boundary := mkBoundary unauthenticated_localhost_only example_listener in
  require_mcp_auth boundary example_request example_next = localhost_peer_required_response.
Proof.
  intros boundary. apply (localhost_only_exact boundary example_request example_next eq_refl).
  intros (c & H & _). discriminate H.
Defined.
End Auth.
