(* ===== verification/RequestLimits.v ===== *)
(** * Request limits

    [src/src/request_limits.rs]: the configured ranges, the early body-size
    rejection, the fail-fast concurrency permit and the response normalization of
    the limits middleware. *)

From S2P Require Import Prelude RustStd Http.

(** Third-party code: [tokio::sync::Semaphore], with the release that dropping an
    [OwnedSemaphorePermit] performs. *)
Class Semaphore := {
  sem : Type;
  sem_new : nat → sem;
  try_acquire : sem → option sem;
  release : sem → sem;
  available_permits : sem → nat;
}.

(** Its documented behaviour: [try_acquire_owned] takes one permit if there is
    one and fails otherwise; a dropped permit is returned. *)
Class SemaphoreLaws (S : Semaphore) : Prop := {
  available_new n : available_permits (sem_new n) = n;
  try_acquire_Some s s' :
    try_acquire s = Some s' → available_permits s = available_permits s' + 1;
  try_acquire_None s : try_acquire s = None → available_permits s = 0;
  available_release s : available_permits (release s) = available_permits s + 1;
}.

Definition example_semaphore : Semaphore := {|
  sem := nat;
  sem_new n := n;
  try_acquire s := match s with 0 => None | S s => Some s end;
  release := S;
  available_permits s := s;
|}.
Lemma example_semaphore_laws : SemaphoreLaws example_semaphore.
Proof.
  constructor; cbn [try_acquire release available_permits sem_new example_semaphore sem].
  - done.
  - intros [|s] s' H; simplify_eq. lia.
  - by intros [|s].
  - intros s. lia.
Defined.

Module RequestLimits.

Definition DEFAULT_MAX_CONCURRENT_REQUESTS : nat := 4.
Definition DEFAULT_REQUEST_TIMEOUT_SECONDS : N := 30.
Definition DEFAULT_MAX_BODY_BYTES : N := 2 * 1024 * 1024.
Definition MIN_CONFIGURED_CONCURRENT_REQUESTS : nat := 1.
Definition MAX_CONFIGURED_CONCURRENT_REQUESTS : nat := 64.
Definition MIN_CONFIGURED_REQUEST_TIMEOUT_SECONDS : N := 1.
Definition MAX_CONFIGURED_REQUEST_TIMEOUT_SECONDS : N := 300.
Definition MIN_CONFIGURED_BODY_BYTES : N := 1024.
Definition MAX_CONFIGURED_BODY_BYTES : N := 8 * 1024 * 1024.

(** [Duration::from_secs], in nanoseconds. *)
Definition duration_from_secs (s : N) : N := s * 1000000000.

Section limits.
Context {L : HttpLib} {S : Semaphore}.

Record McpRequestLimits := mkLimits {
  max_concurrent_requests : nat;
  request_timeout : N;
  max_body_bytes : N;
  semaphore : sem;
}.

Definition limits_new (max_concurrent : nat) (timeout body : N) : Result bytes McpRequestLimits :=
  if negb ((MIN_CONFIGURED_CONCURRENT_REQUESTS <=? max_concurrent)
           && (max_concurrent <=? MAX_CONFIGURED_CONCURRENT_REQUESTS))
  then Err (bs "MCP maximum concurrent requests must be between 1 and 64")
  else if negb ((duration_from_secs MIN_CONFIGURED_REQUEST_TIMEOUT_SECONDS <=? timeout)%N
                && (timeout <=? duration_from_secs MAX_CONFIGURED_REQUEST_TIMEOUT_SECONDS)%N)
  then Err (bs "MCP request timeout must be between 1 and 300 seconds")
  else if negb ((MIN_CONFIGURED_BODY_BYTES <=? body)%N && (body <=? MAX_CONFIGURED_BODY_BYTES)%N)
  then Err (bs "MCP maximum request-body bytes must be between 1024 and 8388608")
  else Ok (mkLimits max_concurrent timeout body (sem_new max_concurrent)).

Definition from_seconds (max_concurrent : nat) (timeout_seconds body : N)
    : Result bytes McpRequestLimits :=
  limits_new max_concurrent (duration_from_secs timeout_seconds) body.

Definition limit_response (status : N) (error message : bytes) : Response :=
  with_header
    (json_response status (JObject [(bs "error", JString error); (bs "message", JString message)]))
    CACHE_CONTROL (bs "no-store").

Definition concurrency_limit_response : Response :=
  with_header
    (limit_response 503 (bs "mcp_concurrency_limit_reached")
       (bs "The MCP transport is at its configured concurrent-request limit."))
    RETRY_AFTER (bs "1").
Definition timeout_response : Response :=
  limit_response 504 (bs "mcp_request_timeout")
    (bs "The MCP request exceeded the configured execution timeout.").
Definition body_limit_response : Response :=
  limit_response 413 (bs "mcp_request_body_too_large")
    (bs "The MCP request body exceeds the configured byte limit.").

Definition content_length_exceeds_limit (headers : list (bytes * bytes)) (max_body : N) : bool :=
  match value ← header_get headers CONTENT_LENGTH;
        value ← header_to_str value;
        parse_unsigned u64_max value with
  | Some length => (max_body <? length)%N
  | None => false
  end.

(** [str::starts_with]. *)
Definition starts_with (value prefix : bytes) : bool :=
  bytes_eqb (take (length prefix) value) prefix.

Definition is_json (response : Response) : bool :=
  match value ← header_get (headers response) CONTENT_TYPE; header_to_str value with
  | Some value => starts_with value (bs "application/json")
  | None => false
  end.

Definition normalize_body_limit_response (response : Response) : Response :=
  if (status response =? 413)%N && negb (is_json response) then body_limit_response else response.

(** [enforce_mcp_request_limits] up to the point where it runs the request: a
    response, or a permit taken from the semaphore. *)
Definition enter (limits : McpRequestLimits) (s : sem) (headers : list (bytes * bytes))
    : sem * option Response :=
  if content_length_exceeds_limit headers (max_body_bytes limits)
  then (s, Some body_limit_response)
  else match try_acquire s with
       | None => (s, Some concurrency_limit_response)
       | Some s => (s, None)
       end.

(** What the request inside the permit ends with: [timeout] returns its response
    or [Err], or the client goes away and the future is dropped. *)
Inductive ending := Completed (response : Response) | TimedOut | Dropped.

Definition finish (s : sem) (e : ending) : sem * option Response :=
  match e with
  | Completed response => (release s, Some (normalize_body_limit_response response))
  | TimedOut => (release s, Some timeout_response)
  | Dropped => (release s, None)
  end.

(** All requests of one process: the shared semaphore and the admitted requests
    that have not ended. *)
Record Service := mkService { permits : sem; in_flight : gset nat }.

Inductive service_event :=
| Arrived (id : nat) (headers : list (bytes * bytes)) (answer : option Response)
| Ended (id : nat) (e : ending) (answer : option Response).

Inductive service_step (limits : McpRequestLimits) : Service → service_event → Service → Prop :=
| step_refused st id h s' r :
    enter limits (permits st) h = (s', Some r) →
    service_step limits st (Arrived id h (Some r)) (mkService s' (in_flight st))
| step_admitted st id h s' :
    id ∉ in_flight st → enter limits (permits st) h = (s', None) →
    service_step limits st (Arrived id h None) (mkService s' ({[ id ]} ∪ in_flight st))
| step_ended st id e s' r :
    id ∈ in_flight st → finish (permits st) e = (s', r) →
    service_step limits st (Ended id e r) (mkService s' (in_flight st ∖ {[ id ]})).

Inductive service_run (limits : McpRequestLimits) : Service → list service_event → Service → Prop :=
| service_run_nil st : service_run limits st [] st
| service_run_cons st e st' es st'' :
    service_step limits st e st' → service_run limits st' es st'' →
    service_run limits st (e :: es) st''.

Definition service_start (limits : McpRequestLimits) : Service :=
  mkService (semaphore limits) ∅.

(** The permits and the requests holding them add up to the configured limit. *)
Definition service_ok (limits : McpRequestLimits) (st : Service) : Prop :=
  available_permits (permits st) + size (in_flight st) = max_concurrent_requests limits.

Context (SL : SemaphoreLaws S).

Lemma limits_new_Ok c t b l :
  limits_new c t b = Ok l ↔
  1 ≤ c ≤ 64 ∧ (1000000000 ≤ t ≤ 300000000000)%N ∧ (1024 ≤ b ≤ 8388608)%N ∧
  l = mkLimits c t b (sem_new c).
Proof.
  unfold limits_new. change (duration_from_secs MIN_CONFIGURED_REQUEST_TIMEOUT_SECONDS) with 1000000000%N.
  change (duration_from_secs MAX_CONFIGURED_REQUEST_TIMEOUT_SECONDS) with 300000000000%N.
  unfold MIN_CONFIGURED_CONCURRENT_REQUESTS, MAX_CONFIGURED_CONCURRENT_REQUESTS,
    MIN_CONFIGURED_BODY_BYTES.
  change MAX_CONFIGURED_BODY_BYTES with 8388608%N.
  repeat (match goal with
          | |- context [(?a <=? ?b)%nat] => destruct (Nat.leb_spec a b)
          | |- context [(?a <=? ?b)%N] => destruct (N.leb_spec a b)
          end; simpl); split; intros Heq; try done; try (exfalso; lia);
    try (destruct Heq as (? & ? & ? & ->)); try done; try lia.
  injection Heq as <-. done.
Qed.

Lemma service_step_ok limits st e st' :
  service_ok limits st → service_step limits st e st' → service_ok limits st'.
Proof.
  unfold service_ok. intros Hst Hs. destruct Hs as [st id h s' r Ha|st id h s' Hid Ha|st id e s' r Hid Hf]; simpl.
  - unfold enter in Ha. destruct (content_length_exceeds_limit _ _); [by simplify_eq|].
    destruct (try_acquire (permits st)) eqn:E; by simplify_eq.
  - unfold enter in Ha. destruct (content_length_exceeds_limit _ _); [by simplify_eq|].
    destruct (try_acquire (permits st)) as [s|] eqn:E; simplify_eq.
    apply try_acquire_Some in E. rewrite size_union by set_solver. rewrite size_singleton. lia.
  - assert (s' = release (permits st)) as -> by (by destruct e; simplify_eq/=).
    rewrite available_release, size_difference by set_solver. rewrite size_singleton.
    assert (size (in_flight st) ≠ 0) by (apply size_non_empty_iff; set_solver). lia.
Qed.

Lemma service_run_ok limits st es st' :
  service_run limits st es st' → service_ok limits st → service_ok limits st'.
Proof. induction 1; [done|]. intros Hok. eauto using service_step_ok. Qed.

Lemma parse_unsigned_Some max v n :
  parse_unsigned max v = Some n ↔
  ∃ digits, (v = digits ∨ v = byte_of 43 :: digits) ∧ digits ≠ [] ∧
    Forall (λ b, is_ascii_digit b = true) digits ∧ n = decimal digits ∧ (n ≤ max)%N.
Proof.
  unfold parse_unsigned.
  assert (∀ d : bytes, (if bytes_eqb d [] then None else parse_digits max 0 d) = Some n ↔
    d ≠ [] ∧ Forall (λ b, is_ascii_digit b = true) d ∧ n = decimal d ∧ (n ≤ max)%N) as Hd.
  { intros d. destruct (bytes_eqb d []) eqn:E; reflect_guards; [naive_solver|].
    rewrite parse_digits_Some by lia. naive_solver. }
  assert (∀ b d, Forall (λ b, is_ascii_digit b = true) (b :: d) → b ≠ byte_of 43) as Hplus.
  { intros b d Hf ->. by inversion Hf. }
  cbv zeta. destruct v as [|b v].
  - cbv iota. rewrite Hd. split; [naive_solver|]. intros (d & [?|?] & ?); naive_solver.
  - destruct (decide (b = byte_of 43)) as [Hb|Hb];
      [rewrite (bool_decide_true (b = byte_of 43)) by done; subst b
      |rewrite (bool_decide_false (b = byte_of 43)) by done]; cbv iota; rewrite Hd.
    + split; [intros H; exists v; naive_solver|]. intros (d & [<-|[= <-]] & Hne & Hf & ?); [|done].
      by apply Hplus in Hf.
    + split; [intros Hx; eexists; naive_solver|]. intros (d & [<-|[= Hb' <-]] & Hd'); done.
Qed.
End limits.

(* ------------------------------------------------------------------ *)
(** ** Properties *)

(** The configured limits are exactly the documented ranges: 1 to 64
    concurrent requests, 1 to 300 seconds, 1 KiB to 8 MiB, with the semaphore
    holding as many permits as requests are allowed. *)
Theorem configured_ranges_exact `{S : Semaphore} c t b l :
  from_seconds c t b = Ok l ↔
  1 ≤ c ≤ 64 ∧ (1 ≤ t ≤ 300)%N ∧ (1024 ≤ b ≤ 8 * 1024 * 1024)%N ∧
  l = mkLimits c (t * 1000000000) b (sem_new c).
Proof.
  unfold from_seconds. rewrite limits_new_Ok. unfold duration_from_secs.
  split; intros (? & ? & ? & ->); split_and!; try done; lia.
Qed.

(** Concurrency is bounded and permits are never lost.  Along every
    interleaving of arrivals, completions, timeouts and client disconnects, at
    most the configured number (at most 64) of requests is in flight; a request
    whose declared length is acceptable is admitted exactly when fewer are in
    flight, and refused with 503 otherwise; and once none is in flight all
    permits are back. *)
Theorem concurrency_bounded `{L : HttpLib} `{S : Semaphore} (SL : SemaphoreLaws S)
    c t b limits es st :
  limits_new c t b = Ok limits → service_run limits (service_start limits) es st →
  size (in_flight st) ≤ c ∧ c ≤ 64 ∧
  (∀ h, content_length_exceeds_limit h b = false →
    if decide (size (in_flight st) < c)
    then ∃ s', enter limits (permits st) h = (s', None)
    else enter limits (permits st) h = (permits st, Some concurrency_limit_response)) ∧
  (in_flight st = ∅ → available_permits (permits st) = c).
Proof.
  intros (Hc & _ & _ & ->)%limits_new_Ok Hr.
  apply (service_run_ok SL) in Hr.
  2: { unfold service_ok, service_start. cbn [permits in_flight semaphore max_concurrent_requests].
       rewrite available_new, size_empty. lia. }
  unfold service_ok in Hr. cbn [max_concurrent_requests] in Hr.
  split_and!; [lia|lia| |intros He; rewrite He, size_empty in Hr; lia].
  intros h Hh. unfold enter. simpl. rewrite Hh.
  destruct (try_acquire (permits st)) as [s'|] eqn:E.
  - apply try_acquire_Some in E. rewrite decide_True by lia. by eexists.
  - apply try_acquire_None in E. by rewrite decide_False by lia.
Qed.

(** A declared body over the limit is refused before anything else.  When the
    first [Content-Length] value is a decimal number (with at most a leading [+])
    that fits 64 bits and exceeds the limit, the answer is 413 and no permit is
    taken; for every other header the early check lets the request pass to the
    semaphore. *)
Theorem declared_length_exact `{L : HttpLib} (LL : HttpLibLaws L) `{S : Semaphore} limits s h :
  let over := ∃ v digits, header_get h CONTENT_LENGTH = Some v ∧ header_to_str v = Some v ∧
    (v = digits ∨ v = byte_of 43 :: digits) ∧ digits ≠ [] ∧
    Forall (λ b, is_ascii_digit b = true) digits ∧
    (max_body_bytes limits < decimal digits ≤ u64_max)%N in
  (over → enter limits s h = (s, Some body_limit_response)) ∧
  (¬ over → (enter limits s h).2 ≠ Some body_limit_response).
Proof.
  cbv zeta. unfold enter. split.
  - intros (v & d & Hv & Hs & Hd & Hne & Hf & Hn). unfold content_length_exceeds_limit.
    rewrite Hv. cbn [mbind option_bind]. rewrite Hs. cbn [mbind option_bind].
    rewrite (proj2 (parse_unsigned_Some u64_max v (decimal d)))
      by (exists d; split_and!; try done; lia).
    by rewrite (proj2 (N.ltb_lt _ _)) by lia.
  - intros Hno. destruct (content_length_exceeds_limit h (max_body_bytes limits)) eqn:Ec.
    + exfalso. apply Hno. unfold content_length_exceeds_limit in Ec.
      destruct (header_get h CONTENT_LENGTH) as [v|]; [|done]. cbn [mbind option_bind] in Ec.
      destruct (header_to_str v) as [v'|] eqn:Es; [|done]. cbn [mbind option_bind] in Ec.
      pose proof (header_to_str_Some _ _ Es) as ->.
      destruct (parse_unsigned u64_max v) as [n|] eqn:Ep; [|done]. apply N.ltb_lt in Ec.
      apply parse_unsigned_Some in Ep as (d & ? & ? & ? & -> & ?). by exists v, d.
    + destruct (try_acquire s); simpl; [done|]. intros [=].
Qed.

Lemma body_limit_is_json `{L : HttpLib} (LL : HttpLibLaws L) : is_json body_limit_response = true.
Proof.
  unfold is_json.
  assert (header_get (headers body_limit_response) CONTENT_TYPE = Some (bs "application/json")) as ->.
  { unfold header_get, body_limit_response, limit_response, with_header. cbn [headers].
    rewrite header_get_all_insert_ne by (vm_compute; discriminate).
    unfold json_response. cbn [headers]. by rewrite json_content_type. }
  cbn [mbind option_bind]. by rewrite header_to_str_visible by reflexivity.
Qed.

(** Every 413 a client sees is JSON.  Normalization answers a 413 only with a
    JSON content type, replaces exactly the 413 responses without one by the
    module's own, keeps the status, and changes nothing the second time. *)
Theorem normalization_exact `{L : HttpLib} (LL : HttpLibLaws L) r :
  let r' := normalize_body_limit_response r in
  (status r' = 413%N → is_json r' = true) ∧ status r' = status r ∧
  normalize_body_limit_response r' = r' ∧
  r' = (if decide (status r = 413%N ∧ is_json r = false) then body_limit_response else r).
Proof.
  cbv zeta. pose proof (body_limit_is_json LL) as Hb.
  assert (∀ x, status x ≠ 413%N ∨ is_json x = true → normalize_body_limit_response x = x) as Hkeep.
  { unfold normalize_body_limit_response. intros x [Hx|Hx].
    - by rewrite (proj2 (N.eqb_neq _ _) Hx).
    - by rewrite Hx, andb_false_r. }
  destruct (decide (status r = 413%N ∧ is_json r = false)) as [[Hs Hj]|Hn].
  - assert (normalize_body_limit_response r = body_limit_response) as ->
      by (unfold normalize_body_limit_response; by rewrite Hs, Hj).
    rewrite Hs. split_and!; [done..|apply Hkeep; by right|done].
  - rewrite !Hkeep; [|destruct (decide (status r = 413%N)); [right; destruct (is_json r); naive_solver|by left]..].
    split_and!; [|done..]. intros Hs. destruct (is_json r); naive_solver.
Qed.

(* ------------------------------------------------------------------ *)
(** ** Witnesses *)

#[local] Existing Instance example_http.
#[local] Existing Instance example_http_laws.
#[local] Existing Instance example_semaphore.
#[local] Existing Instance example_semaphore_laws.

Definition example_limits : McpRequestLimits := mkLimits 2 30000000000 2048 2.
Definition example_headers : list (bytes * bytes) := [(CONTENT_LENGTH, bs "+4096")].
Definition example_service : Service := mkService 1 {[ 7 ]}.

Lemma example_service_run :
  service_run example_limits (service_start example_limits) [Arrived 7 [] None] example_service.
Proof.
  eapply service_run_cons; [|apply service_run_nil].
  replace {[ 7 ]} with ({[ 7 ]} ∪ ∅ : gset nat) by (by rewrite (right_id_L ∅ (∪))).
  apply (step_admitted example_limits (service_start example_limits)); [|reflexivity].
  apply (bool_decide_unpack _). reflexivity.
Defined.

Lemma concurrency_bounded_witness : size (in_flight example_service) ≤ 2 ∧ 2 ≤ 64.
Proof.
  destruct (concurrency_bounded example_semaphore_laws 2 30000000000 2048 example_limits
    [Arrived 7 [] None] example_service) as (H & _ & _);
    [vm_compute; reflexivity|apply example_service_run|split; [exact H|lia]].
Defined.

Lemma declared_length_exact_witness :
  enter example_limits (semaphore example_limits) example_headers =
    (semaphore example_limits, Some body_limit_response).
Proof.
  apply (declared_length_exact example_http_laws).
  exists (bs "+4096"), (bs "4096"). split_and!; try (vm_compute; reflexivity).
  - by right.
  - done.
  - repeat constructor.
  - vm_compute. discriminate.
Defined.

Lemma normalization_exact_witness :
  is_json (normalize_body_limit_response (mkResponse 413 [] (OpaqueBody []))) = true.
Proof. apply (normalization_exact example_http_laws). reflexivity. Defined.
End RequestLimits.
