(* ===== verification/JsonRpc.v ===== *)
(** * JSON-RPC envelopes

    [src/src/json_rpc.rs]: the strict classification of an incoming body into a
    request, a notification or a response. *)

From S2P Require Import Prelude RustStd Http.

Module JsonRpc.

Definition JSON_RPC_VERSION : bytes := bs "2.0".

Inductive IncomingJsonRpcMessage :=
| Request (id : Json) (method : bytes) (params : option Json)
| Notification (method : bytes) (params : option Json)
| Response.

Inductive JsonRpcEnvelopeError :=
| ParseError (detail : bytes)
| InvalidRequest (id : option Json) (reason : bytes).

Definition invalid (id : option Json) (reason : bytes) : JsonRpcEnvelopeError :=
  InvalidRequest id reason.

Definition is_object (v : Json) : bool := match v with JObject _ => true | _ => false end.
Definition is_string (v : Json) : bool := match v with JString _ => true | _ => false end.

(** [Number::is_i64] and [Number::is_u64]. *)
Definition number_is_i64 (n : JsonNumber) : bool :=
  match n with
  | PosInt n => (n <=? 9223372036854775807)%N
  | NegInt _ => true
  | Float _ => false
  end.
Definition number_is_u64 (n : JsonNumber) : bool :=
  match n with PosInt _ => true | _ => false end.

Definition valid_request_id (value : Json) : option Json :=
  match value with
  | JString _ => Some value
  | JNumber n => if number_is_i64 n || number_is_u64 n then Some value else None
  | _ => None
  end.

Definition is_integer_number (value : Json) : bool :=
  match value with JNumber n => number_is_i64 n || number_is_u64 n | _ => false end.

Abbreviation Object := (list (bytes * Json)) (only parsing).
Abbreviation EnvelopeResult := (Result JsonRpcEnvelopeError IncomingJsonRpcMessage).

Definition validate_request_or_notification (object : Object) (detectable_id : option Json)
    : EnvelopeResult :=
  match json_get (bs "method") object with
  | Some (JString method) =>
    let params := json_get (bs "params") object in
    if match params with Some p => negb (is_object p) | None => false end
    then Err (invalid detectable_id (bs "MCP params must be an object when present."))
    else match json_get (bs "id") object with
         | None => Ok (Notification method params)
         | Some id =>
           id ← ok_or (valid_request_id id)
                  (invalid None (bs "MCP request id must be a non-null string or integer number."));
           Ok (Request id method params)
         end
  | _ => Err (invalid detectable_id (bs "JSON-RPC request must include a string method."))
  end.

Definition validate_response (object : Object) (detectable_id : option Json) : EnvelopeResult :=
  if bool_decide (is_Some (json_get (bs "params") object))
  then Err (invalid detectable_id (bs "JSON-RPC responses must not include params."))
  else match json_get (bs "result") object, json_get (bs "error") object with
  | Some result, None =>
    if negb (is_object result)
    then Err (invalid detectable_id (bs "MCP success responses must include an object result."))
    else if negb (bool_decide (is_Some (id ← json_get (bs "id") object; valid_request_id id)))
    then Err (invalid None (bs "MCP success responses must include a valid request id."))
    else Ok Response
  | None, Some (JObject error) =>
    if match json_get (bs "id") object with
       | Some id => negb (bool_decide (is_Some (valid_request_id id)))
       | None => false
       end
    then Err (invalid None (bs "MCP error response id must be a string or integer when present."))
    else if negb match json_get (bs "code") error with Some c => is_integer_number c | None => false end
            || negb match json_get (bs "message") error with Some m => is_string m | None => false end
    then Err (invalid detectable_id
                (bs "MCP error responses require an integer code and string message."))
    else Ok Response
  | None, Some _ =>
    Err (invalid detectable_id (bs "MCP error responses must include an object error."))
  | _, _ =>
    Err (invalid detectable_id
           (bs "JSON-RPC responses must include exactly one of result or error."))
  end.

Definition validate_object (object : Object) : EnvelopeResult :=
  let detectable_id := id ← json_get (bs "id") object; valid_request_id id in
  match json_get (bs "jsonrpc") object with
  | Some (JString version) =>
    if bytes_eqb version JSON_RPC_VERSION
    then if bool_decide (is_Some (json_get (bs "method") object))
         then validate_request_or_notification object detectable_id
         else validate_response object detectable_id
    else Err (invalid detectable_id
                (bs "JSON-RPC request must include jsonrpc exactly equal to 2.0."))
  | _ => Err (invalid detectable_id
                (bs "JSON-RPC request must include jsonrpc exactly equal to 2.0."))
  end.

Definition parse_incoming_message `{HttpLib} (body : bytes) : EnvelopeResult :=
  value ← map_err ParseError (json_from_slice body);
  match value with
  | JObject object => validate_object object
  | _ => Err (invalid None (bs "JSON-RPC input must be an object."))
  end.

(* ------------------------------------------------------------------ *)
(** ** Specification: the MCP envelope shapes *)

(** A request identifier: a string or an integer that fits 64 bits. *)
Definition request_id (v : Json) : Prop :=
  match v with JString _ => True | JNumber (PosInt _) | JNumber (NegInt _) => True | _ => False end.

Definition version_ok (o : Object) : Prop := json_get (bs "jsonrpc") o = Some (JString (bs "2.0")).
Definition params_ok (p : option Json) : Prop := p = None ∨ ∃ m, p = Some (JObject m).

(** What an envelope is, by the shape of its members. *)
Definition shaped (o : Object) (m : IncomingJsonRpcMessage) : Prop :=
  match m with
  | Request id method params =>
    json_get (bs "method") o = Some (JString method) ∧ json_get (bs "params") o = params ∧
    params_ok params ∧ json_get (bs "id") o = Some id ∧ request_id id
  | Notification method params =>
    json_get (bs "method") o = Some (JString method) ∧ json_get (bs "params") o = params ∧
    params_ok params ∧ json_get (bs "id") o = None
  | Response =>
    json_get (bs "method") o = None ∧ json_get (bs "params") o = None ∧
    ((∃ r id, json_get (bs "result") o = Some (JObject r) ∧ json_get (bs "error") o = None ∧
        json_get (bs "id") o = Some id ∧ request_id id) ∨
     (∃ e n msg, json_get (bs "result") o = None ∧ json_get (bs "error") o = Some (JObject e) ∧
        json_get (bs "code") e = Some (JNumber n) ∧ (∀ f, n ≠ Float f) ∧
        json_get (bs "message") e = Some (JString msg) ∧
        (∀ id, json_get (bs "id") o = Some id → request_id id)))
  end.

Lemma valid_request_id_Some v id : valid_request_id v = Some id ↔ v = id ∧ request_id id.
Proof.
  unfold valid_request_id, request_id, number_is_i64, number_is_u64.
  destruct v as [| |[]| | |]; rewrite ?orb_true_r, ?orb_true_l; naive_solver.
Qed.

Lemma valid_request_id_is_Some v : is_Some (valid_request_id v) ↔ request_id v.
Proof.
  split.
  - intros [id H]. by apply valid_request_id_Some in H as [-> ?].
  - intros H. exists v. by apply valid_request_id_Some.
Qed.

Lemma is_integer_number_true v : is_integer_number v = true ↔ ∃ n, v = JNumber n ∧ ∀ f, n ≠ Float f.
Proof.
  unfold is_integer_number, number_is_i64, number_is_u64.
  destruct v as [| |[]| | |]; rewrite ?orb_true_r, ?orb_true_l; naive_solver.
Qed.

Lemma is_object_true v : is_object v = true ↔ ∃ m, v = JObject m.
Proof. destruct v; naive_solver. Qed.
Lemma is_string_true v : is_string v = true ↔ ∃ s, v = JString s.
Proof. destruct v; naive_solver. Qed.

Lemma validate_request_shaped o d m :
  is_Some (json_get (bs "method") o) →
  validate_request_or_notification o d = Ok m ↔ shaped o m.
Proof.
  intros [v Hv]. unfold validate_request_or_notification. rewrite Hv.
  assert (∀ m, shaped o m → ∃ method, v = JString method) as Hsh.
  { intros [] Hm; simpl in Hm; naive_solver. }
  destruct v as [| | |method| |]; try (split; [done|intros Hs%Hsh; naive_solver]). clear Hsh.
  assert (match json_get (bs "params") o with Some p => negb (is_object p) | None => false end = false
    ↔ params_ok (json_get (bs "params") o)) as Hp.
  { unfold params_ok. destruct (json_get (bs "params") o) as [[]|]; naive_solver. }
  destruct (match json_get (bs "params") o with Some p => negb (is_object p) | None => false end).
  { split; [done|]. intros Hs. exfalso. destruct m; simpl in Hs; naive_solver. }
  destruct (json_get (bs "id") o) as [id|] eqn:Hid; simpl.
  2: { destruct m; simpl; naive_solver. }
  destruct (valid_request_id id) as [id'|] eqn:Ei; simpl.
  - apply valid_request_id_Some in Ei as [-> Ei]. destruct m; simpl; naive_solver.
  - split; [done|]. intros Hs. exfalso. destruct m; simpl in Hs; [|naive_solver..].
    assert (is_Some (valid_request_id id)); [|by rewrite Ei in *; naive_solver].
    apply valid_request_id_is_Some. naive_solver.
Qed.

Lemma validate_response_shaped o d m :
  json_get (bs "method") o = None →
  validate_response o d = Ok m ↔ shaped o m.
Proof.
  intros Hm. unfold validate_response.
  assert (shaped o m → m = Response) as Hresp by (destruct m; simpl; naive_solver).
  case_bool_decide as Hp.
  { split; [done|]. intros Hs. rewrite (Hresp Hs) in Hs. destruct Hs as (_ & Hs & _).
    rewrite Hs in Hp. by destruct Hp. }
  apply eq_None_not_Some in Hp. split.
  - intros H. assert (m = Response) as -> by (repeat case_match; simplify_eq/=; done).
    split_and!; [done..|].
    destruct (json_get (bs "result") o) as [r|] eqn:Er, (json_get (bs "error") o) as [e|] eqn:Ee;
      [done| | |done].
    + left. destruct (is_object r) eqn:Ho; [|done]. apply is_object_true in Ho as [rm ->].
      cbn [negb] in H. case_bool_decide as Hid; [|done].
      destruct Hid as [id' (id & Hid & Hv)%bind_Some]. apply valid_request_id_Some in Hv as [-> Hv].
      by exists rm, id'.
    + right. destruct e as [| | | | |em]; try done.
      destruct (match json_get (bs "id") o with
                | Some id => negb (bool_decide (is_Some (valid_request_id id)))
                | None => false end) eqn:Hid; [done|].
      destruct (_ || _) eqn:Hc; [done|]. reflect_guards.
      destruct (json_get (bs "code") em) as [c|] eqn:Ec; [|done].
      destruct (json_get (bs "message") em) as [msg|] eqn:Emsg; [|done].
      match goal with H : is_integer_number c = true |- _ =>
        apply is_integer_number_true in H as (n & -> & Hn) end.
      match goal with H : is_string msg = true |- _ => apply is_string_true in H as (s & ->) end.
      exists em, n, s. split_and!; [done..|]. intros id Hid'. rewrite Hid' in Hid.
      apply negb_false_iff, bool_decide_eq_true in Hid. by apply valid_request_id_is_Some.
  - intros Hs. pose proof (Hresp Hs) as ->. destruct Hs as (_ & _ & Hs).
    destruct Hs as [(r & id & -> & -> & Hid & Hv)|(e & n & msg & -> & -> & Hc & Hn & Hmsg & Hv)].
    + cbn [is_object negb]. rewrite Hid. cbn [mbind option_bind].
      rewrite bool_decide_true by (by apply valid_request_id_is_Some). done.
    + assert (match json_get (bs "id") o with
              | Some id => negb (bool_decide (is_Some (valid_request_id id)))
              | None => false end = false) as ->.
      { destruct (json_get (bs "id") o) as [id|] eqn:Hid; [|done].
        rewrite bool_decide_true by (by apply valid_request_id_is_Some, Hv). done. }
      rewrite Hc, Hmsg. cbn [is_string].
      rewrite (proj2 (is_integer_number_true (JNumber n))) by (by exists n). done.
Qed.

Lemma validate_object_shaped o m : validate_object o = Ok m ↔ version_ok o ∧ shaped o m.
Proof.
  unfold validate_object, version_ok. cbv zeta.
  destruct (json_get (bs "jsonrpc") o) as [[| | |v| |]|]; try (split; [done|by intros [? _]]).
  destruct (bytes_eqb v JSON_RPC_VERSION) eqn:Ev; reflect_guards.
  2: { split; [done|]. intros [[= ->] _]. done. }
  subst v. case_bool_decide as Hm.
  - rewrite validate_request_shaped by done. naive_solver.
  - apply eq_None_not_Some in Hm. rewrite validate_response_shaped by done. naive_solver.
Qed.

(** What an error says about the identifier. *)
Lemma validate_object_error_id o id reason :
  validate_object o = Err (InvalidRequest (Some id) reason) →
  json_get (bs "id") o = Some id ∧ request_id id.
Proof.
  intros H.
  assert ((x ← json_get (bs "id") o; valid_request_id x) = Some id) as Hd.
  { revert H. unfold validate_object, validate_request_or_notification, validate_response, invalid.
    cbv zeta. generalize (x ← json_get (bs "id") o; valid_request_id x).
    intros d H. repeat (case_match; simplify_eq/=; try done);
      by destruct (valid_request_id _). }
  apply bind_Some in Hd as (x & -> & Hx). apply valid_request_id_Some in Hx as [-> ?]. done.
Qed.

(* ------------------------------------------------------------------ *)
(** ** Properties *)

(** C40: envelope classification is exact.  A body is accepted as a message if and
    only if it parses to a JSON object with version 2.0 of exactly that message's
    shape: a request has a string method, a string or 64-bit integer id and
    object params if any; a notification has no id; a response has neither method
    nor params and exactly one of an object result with a valid id and an error
    object with integer code and string message. *)
Theorem parse_incoming_message_exact `{L : HttpLib} body m :
  parse_incoming_message body = Ok m ↔
  ∃ o, json_from_slice body = Ok (JObject o) ∧ version_ok o ∧ shaped o m.
Proof.
  unfold parse_incoming_message. destruct (json_from_slice body) as [v|e]; simpl; [|naive_solver].
  destruct v as [| | | | |o]; try (split; [done|naive_solver]).
  rewrite validate_object_shaped. naive_solver.
Qed.

(** The identifier an error carries is the request's own.  A rejected envelope
    is answered with an identifier only if the body has exactly that member as
    [id] and it is a valid request identifier; malformed JSON is a parse error
    and never carries one. *)
Theorem error_echoes_only_valid_id `{L : HttpLib} body id reason :
  parse_incoming_message body = Err (InvalidRequest (Some id) reason) →
  ∃ o, json_from_slice body = Ok (JObject o) ∧ json_get (bs "id") o = Some id ∧ request_id id.
Proof.
  unfold parse_incoming_message. destruct (json_from_slice body) as [v|e]; simpl; [|done].
  destruct v as [| | | | |o]; try done. intros H%validate_object_error_id. by exists o.
Qed.

(** ** Witness *)

(** A parser that answers every body with one fixed value. *)
Definition parser_of (v : Json) : HttpLib := {|
  header_to_str v := Some v;
  json_response_headers := [];
  json_from_slice _ := Ok v;
|}.
Definition example_bad : Json :=
  JObject [(bs "jsonrpc", JString (bs "1.0")); (bs "id", JNumber (PosInt 7))].

Lemma error_echoes_only_valid_id_witness :
  ∃ o, json_from_slice (HttpLib := parser_of example_bad) [] = Ok (JObject o) ∧
    json_get (bs "id") o = Some (JNumber (PosInt 7)) ∧ request_id (JNumber (PosInt 7)).
Proof.
  apply (error_echoes_only_valid_id (L := parser_of example_bad) [] (JNumber (PosInt 7))
    (bs "JSON-RPC request must include jsonrpc exactly equal to 2.0.")).
  vm_compute. reflexivity.
Defined.
End JsonRpc.
