(* ===== verification/CapabilityToken.v ===== *)
(** * Inert capability metadata

    [src/src/capability_token.rs]: the label grammar of scopes and grant
    identifiers and the default-deny evaluation of a grant. *)

From S2P Require Import Prelude.

Module CapabilityToken.

Definition MAX_CAPABILITY_SCOPE_BYTES : nat := 96.
Definition MAX_CAPABILITY_GRANT_ID_BYTES : nat := 64.

Inductive CapabilityClass :=
| FilesystemMutation | AndroidPlatformControl | PackageManagement | ProjectServiceMutation
| NetworkMutation | DeviceControl | CommandExecution.

#[global] Instance class_eq_dec : EqDecision CapabilityClass.
Proof. solve_decision. Defined.

Inductive CapabilityMetadataField := GrantId | Scope.
Inductive CapabilityMetadataErrorKind := Empty | TooLong | InvalidCharacter | InvalidSeparator.

Record CapabilityMetadataError := mkError {
  field : CapabilityMetadataField;
  kind : CapabilityMetadataErrorKind;
  max_bytes : nat;
}.

Record CapabilityRequirement := mkRequirement {
  r_class : CapabilityClass;
  r_scope : bytes;
  confirmation_required : bool;
}.

Record CapabilityGrant := mkGrant {
  grant_id : bytes;
  g_class : CapabilityClass;
  g_scope : bytes;
  expires_unix_seconds : N;
  active : bool;
  confirmation_satisfied : bool;
}.

Inductive CapabilityDecision := Allowed | Denied.
Inductive CapabilityReasonCode :=
| CapabilityGrantAllowed | CapabilityGrantMissing | CapabilityGrantInactive | CapabilityGrantExpired
| CapabilityClassMismatch | CapabilityScopeMismatch | CapabilityConfirmationRequired.

Record CapabilityEvaluation := mkEvaluation {
  decision : CapabilityDecision;
  reason_code : CapabilityReasonCode;
  e_grant_id : option bytes;
  e_class : CapabilityClass;
  e_scope : bytes;
}.

(** [matches!(byte, b'-' | b'_' | b':')]. *)
Definition is_separator (b : byte) : bool :=
  bool_decide (b = byte_of 45) || bool_decide (b = byte_of 95) || bool_decide (b = byte_of 58).
Definition is_alphanumeric (b : byte) : bool := is_ascii_lowercase b || is_ascii_digit b.

(** The loop over [value.bytes().enumerate()]; [len] is [value.len()]. *)
Fixpoint validate_bytes (len index : nat) (value : bytes) (previous_was_separator : bool)
    : Result CapabilityMetadataErrorKind unit :=
  match value with
  | [] => Ok ()
  | b :: value =>
    let sep := is_separator b in
    if negb (is_alphanumeric b || sep) then Err InvalidCharacter
    else if sep && ((index =? 0) || (index + 1 =? len) || previous_was_separator)
    then Err InvalidSeparator
    else validate_bytes len (S index) value sep
  end.

Definition validate_label (value : bytes) (field : CapabilityMetadataField) (max_bytes : nat)
    : Result CapabilityMetadataError unit :=
  if bytes_eqb value [] then Err (mkError field Empty max_bytes)
  else if max_bytes <? length value then Err (mkError field TooLong max_bytes)
  else map_err (λ kind, mkError field kind max_bytes)
         (validate_bytes (length value) 0 value false).

Definition CapabilityRequirement_new (class : CapabilityClass) (scope : bytes)
    (confirmation_required : bool) : Result CapabilityMetadataError CapabilityRequirement :=
  _ ← validate_label scope Scope MAX_CAPABILITY_SCOPE_BYTES;
  Ok (mkRequirement class scope confirmation_required).

Definition CapabilityGrant_new (grant_id : bytes) (class : CapabilityClass) (scope : bytes)
    (expires : N) : Result CapabilityMetadataError CapabilityGrant :=
  _ ← validate_label grant_id GrantId MAX_CAPABILITY_GRANT_ID_BYTES;
  _ ← validate_label scope Scope MAX_CAPABILITY_SCOPE_BYTES;
  Ok (mkGrant grant_id class scope expires true false).

Definition inactive (self : CapabilityGrant) : CapabilityGrant :=
  mkGrant (grant_id self) (g_class self) (g_scope self) (expires_unix_seconds self) false
    (confirmation_satisfied self).
Definition with_confirmation_satisfied (self : CapabilityGrant) (b : bool) : CapabilityGrant :=
  mkGrant (grant_id self) (g_class self) (g_scope self) (expires_unix_seconds self) (active self) b.

Definition denied (requirement : CapabilityRequirement) (grant : option CapabilityGrant)
    (reason : CapabilityReasonCode) : CapabilityEvaluation :=
  mkEvaluation Denied reason (grant_id <$> grant) (r_class requirement) (r_scope requirement).

Definition evaluate_capability_grant (requirement : CapabilityRequirement)
    (grant : option CapabilityGrant) (now : N) : CapabilityEvaluation :=
  match grant with
  | None => denied requirement None CapabilityGrantMissing
  | Some grant =>
    if negb (active grant) then denied requirement (Some grant) CapabilityGrantInactive
    else if (expires_unix_seconds grant <=? now)%N
    then denied requirement (Some grant) CapabilityGrantExpired
    else if negb (bool_decide (g_class grant = r_class requirement))
    then denied requirement (Some grant) CapabilityClassMismatch
    else if negb (bytes_eqb (g_scope grant) (r_scope requirement))
    then denied requirement (Some grant) CapabilityScopeMismatch
    else if confirmation_required requirement && negb (confirmation_satisfied grant)
    then denied requirement (Some grant) CapabilityConfirmationRequired
    else mkEvaluation Allowed CapabilityGrantAllowed (Some (grant_id grant))
           (r_class requirement) (r_scope requirement)
  end.

(* ------------------------------------------------------------------ *)
(** ** The label grammar *)

(** A word: one or more lower-case letters and digits. *)
Definition word (w : bytes) : Prop := w ≠ [] ∧ Forall (λ b, is_alphanumeric b = true) w.

(** Words joined by single separators. *)
Inductive label : bytes → Prop :=
| label_word w : word w → label w
| label_sep w s l : word w → is_separator s = true → label l → label (w ++ s :: l).

Lemma alphanumeric_not_separator b : is_alphanumeric b = true → is_separator b = false.
Proof. by destruct b. Qed.

(** The scanner's state after a non-empty prefix: what may follow. *)
Definition rest_ok (previous_was_separator : bool) (rest : bytes) : Prop :=
  if previous_was_separator then label rest
  else rest = [] ∨ (Forall (λ b, is_alphanumeric b = true) rest) ∨
       ∃ w s l, rest = w ++ s :: l ∧ Forall (λ b, is_alphanumeric b = true) w ∧
         is_separator s = true ∧ label l.

Lemma label_cons b rest :
  is_alphanumeric b = true → label (b :: rest) ↔ rest_ok false rest.
Proof.
  intros Hb. split.
  - intros H. inversion H as [w [_ Hw]|w s l [Hne Hw] Hs Hl Heq]; subst.
    + right; left. by inversion Hw.
    + destruct w as [|c w]; [done|]. simplify_eq/=. inversion Hw; subst.
      right; right. by exists w, s, l.
  - intros [->|[Hr|(w & s & l & -> & Hw & Hs & Hl)]].
    + apply label_word. split; [done|by repeat constructor].
    + apply label_word. split; [done|by constructor].
    + apply (label_sep (b :: w)); [|done..]. split; [done|by constructor].
Qed.

Lemma rest_ok_cons_alnum prev b rest :
  is_alphanumeric b = true → rest_ok prev (b :: rest) ↔ rest_ok false rest.
Proof.
  intros Hb. pose proof (alphanumeric_not_separator b Hb) as Hns.
  destruct prev; cbn [rest_ok]; [by apply label_cons|]. split.
  - intros [?|[Hr|(w & s & l & Heq & Hw & Hs & Hl)]]; [done|inversion Hr; subst; by right; left|].
    destruct w as [|c w]; simplify_eq/=; [congruence|]. inversion Hw; subst.
    right; right. by exists w, s, l.
  - intros [->|[Hr|(w & s & l & -> & Hw & Hs & Hl)]].
    + right; left. by repeat constructor.
    + right; left. by constructor.
    + right; right. exists (b :: w), s, l. split_and!; [done|by constructor|done..].
Qed.

Lemma rest_ok_cons_sep b rest :
  is_separator b = true → rest_ok false (b :: rest) ↔ label rest.
Proof.
  intros Hb. assert (is_alphanumeric b ≠ true) as Hna
    by (intros ?%alphanumeric_not_separator; congruence).
  cbn [rest_ok]. split.
  - intros [?|[Hr|(w & s & l & Heq & Hw & Hs & Hl)]]; [done|by inversion Hr|].
    destruct w as [|c w]; simplify_eq/=; [done|by inversion Hw].
  - intros Hl. right; right. by exists [], b, rest.
Qed.

Lemma label_not_sep b rest : is_separator b = true → ¬ label (b :: rest).
Proof.
  intros Hb H. inversion H as [w [_ Hw]|w s l [Hne Hw] Hs Hl Heq]; subst.
  - inversion Hw; subst. by rewrite alphanumeric_not_separator in Hb.
  - destruct w as [|c w]; [done|]. simplify_eq/=. inversion Hw; subst.
    by rewrite alphanumeric_not_separator in Hb.
Qed.

Lemma validate_bytes_rest len index rest prev :
  0 < index → index + length rest = len → (prev = true → rest ≠ []) →
  validate_bytes len index rest prev = Ok () ↔ rest_ok prev rest.
Proof.
  revert index prev; induction rest as [|b rest IH]; intros index prev Hi Hl Hne; cbn [validate_bytes].
  - destruct prev; simpl; [by destruct Hne|]. split; [by left|done].
  - cbn [length] in Hl. destruct (is_alphanumeric b) eqn:Ha.
    + rewrite (alphanumeric_not_separator b Ha). simpl. rewrite rest_ok_cons_alnum by done.
      apply IH; [lia|lia|done].
    + destruct (is_separator b) eqn:Hs; simpl.
      2: { split; [done|]. intros H. exfalso. destruct prev; simpl in H.
           - inversion H as [w [_ Hw]|w s l [Hnew Hw] Hs' Hl' Heq]; subst;
               [inversion Hw; congruence|destruct w; [done|]; simplify_eq/=; inversion Hw; congruence].
           - destruct H as [?|[Hr|(w & s & l & Heq & Hw & Hs' & _)]]; [done|inversion Hr; congruence|].
             destruct w; simplify_eq/=; [congruence|inversion Hw; congruence]. }
      rewrite (proj2 (Nat.eqb_neq index 0)) by lia. simpl. destruct prev.
      { rewrite orb_true_r. split; [done|]. intros H. by apply label_not_sep in H. }
      rewrite orb_false_r, rest_ok_cons_sep by done.
      destruct (Nat.eqb_spec (index + 1) len) as [Hend|Hend].
      { split; [done|]. intros H. destruct rest; [|simpl in *; lia].
        inversion H as [w [Hw _]|w s l [Hw _] _ _ Heq]; [done|by destruct w]. }
      rewrite IH; [done|lia|lia|]. intros _ ->. simpl in *; lia.
Qed.

Lemma validate_bytes_label value :
  value ≠ [] → validate_bytes (length value) 0 value false = Ok () ↔ label value.
Proof.
  destruct value as [|b rest]; [done|]. intros _. cbn [validate_bytes].
  destruct (is_alphanumeric b) eqn:Ha.
  - rewrite (alphanumeric_not_separator b Ha). simpl. rewrite label_cons by done.
    apply validate_bytes_rest; simpl; [lia|lia|done].
  - destruct (is_separator b) eqn:Hs; simpl.
    + split; [done|]. intros H. by apply label_not_sep in H.
    + split; [done|]. intros H. exfalso.
      inversion H as [w [_ Hw]|w s l [Hnew Hw] Hs' Hl' Heq]; subst;
        [inversion Hw; congruence|destruct w; [done|]; simplify_eq/=; inversion Hw; congruence].
Qed.

(* ------------------------------------------------------------------ *)
(** ** Properties *)

(** The label validator accepts exactly its grammar: words of lower-case
    letters and digits joined by single separators ([-], [_], [:]), within the
    byte limit. *)
Theorem validate_label_exact value field max :
  validate_label value field max = Ok () ↔ label value ∧ length value ≤ max.
Proof.
  unfold validate_label, bytes_eqb. case_bool_decide as Hv.
  { split; [done|]. intros [H _]. subst.
    inversion H as [w [Hw _]|w s l [Hw _] _ _ Heq]; [done|by destruct w]. }
  destruct (Nat.ltb_spec max (length value)) as [Hl|Hl].
  { split; [done|]. intros [_ ?]. lia. }
  rewrite <-(validate_bytes_label value Hv).
  destruct (validate_bytes _ _ _ _) as [[]|]; simpl; naive_solver.
Qed.

(** Evaluation is default-deny.  A request is allowed exactly when a grant is
    presented that is active, unexpired, of the required class and scope, and
    confirmed if the requirement asks for it; otherwise it is denied with the
    first failing check as reason, and the evaluation always reports the
    requirement's own class and scope. *)
Theorem evaluation_default_deny requirement grant now :
  let e := evaluate_capability_grant requirement grant now in
  (decision e = Allowed ↔
    ∃ g, grant = Some g ∧ active g = true ∧ (now < expires_unix_seconds g)%N ∧
      g_class g = r_class requirement ∧ g_scope g = r_scope requirement ∧
      (confirmation_required requirement = true → confirmation_satisfied g = true)) ∧
  (decision e = Allowed ↔ reason_code e = CapabilityGrantAllowed) ∧
  e_class e = r_class requirement ∧ e_scope e = r_scope requirement ∧
  e_grant_id e = grant_id <$> grant.
Proof.
  unfold evaluate_capability_grant, denied. destruct grant as [g|];
    [|simpl; split_and!; [split; [done|by intros (? & ? & _)]|by split|done..]].
  destruct (active g) eqn:Ha; simpl;
    [|split_and!; [split; [done|intros (? & [= <-] & ? & _); congruence]|by split|done..]].
  destruct (N.leb_spec (expires_unix_seconds g) now); simpl;
    [split_and!; [split; [done|intros (? & [= <-] & _ & ? & _); lia]|by split|done..]|].
  case_bool_decide; simpl;
    [|split_and!; [split; [done|intros (? & [= <-] & _ & _ & ? & _); done]|by split|done..]].
  destruct (bytes_eqb (g_scope g) (r_scope requirement)) eqn:Hs; reflect_guards; simpl;
    [|split_and!; [split; [done|intros (? & [= <-] & _ & _ & _ & ? & _); done]|by split|done..]].
  destruct (confirmation_required requirement) eqn:Hr, (confirmation_satisfied g) eqn:Hc; simpl;
    (split_and!; [|by split|done..]); split; try done;
    first [intros _; by exists g|intros (? & [= <-] & _ & _ & _ & _ & Hf); specialize (Hf eq_refl); congruence].
Qed.

(** A fresh grant authorizes nothing that needs confirmation, and a revoked
    one nothing at all: the constructor's grants are active, unconfirmed, carry
    labels of the grammar, and after [inactive] every evaluation is denied. *)
Theorem fresh_grant_safe gid class scope expires g requirement now :
  CapabilityGrant_new gid class scope expires = Ok g →
  label (grant_id g) ∧ length (grant_id g) ≤ MAX_CAPABILITY_GRANT_ID_BYTES ∧
  label (g_scope g) ∧ length (g_scope g) ≤ MAX_CAPABILITY_SCOPE_BYTES ∧
  (confirmation_required requirement = true →
   decision (evaluate_capability_grant requirement (Some g) now) = Denied) ∧
  decision (evaluate_capability_grant requirement (Some (inactive g)) now) = Denied.
Proof.
  unfold CapabilityGrant_new. intros H. inv_ok H. injection H as <-. cbn [grant_id g_scope].
  assert (∀ v f m u, validate_label v f m = Ok u → label v ∧ length v ≤ m) as Hv.
  { clear. intros v f m [] H. revert H. unfold validate_label, bytes_eqb.
    case_bool_decide as Hn; [done|]. destruct (Nat.ltb_spec m (length v)); [done|].
    rewrite <-(validate_bytes_label v Hn). destruct (validate_bytes _ _ _ _) as [[]|]; [|done]. done. }
  apply Hv in E as [? ?]. apply Hv in E0 as [? ?]. split_and!; [done..| |done].
  intros Hc. unfold evaluate_capability_grant. simpl. rewrite Hc. repeat case_match; done.
Qed.

Lemma fresh_grant_safe_witness :
  let g := mkGrant (bs "grant-1") FilesystemMutation (bs "files:docs") 100 true false in
  let r := mkRequirement FilesystemMutation (bs "files:docs") true in
  decision (evaluate_capability_grant r (Some g) 50) = Denied.
Proof.
  intros g r.
  destruct (fresh_grant_safe (bs "grant-1") FilesystemMutation (bs "files:docs") 100 g r 50)
    as (_ & _ & _ & _ & H & _); [vm_compute; reflexivity|apply H; reflexivity].
Defined.
End CapabilityToken.
