(* ===== verification/AuditEvents.v ===== *)
(** * Audit events

    [src/src/audit.rs]: audit events and the deterministic in-memory counters. *)

From S2P Require Import Prelude.

Module Audit.

Inductive AuditMode := ReadOnly | DryRun | Mutating.
Inductive AuditDecision := Allowed | Denied.

#[global] Instance audit_decision_eq_dec : EqDecision AuditDecision.
Proof. solve_decision. Defined.

Record AuditEvent := mkEvent {
  timestamp_unix_seconds : N;
  tool_name : bytes;
  gate_name : bytes;
  mode : AuditMode;
  decision : AuditDecision;
  reason_code : bytes;
  metadata : gmap bytes N;
}.

Definition AuditEvent_new (timestamp : N) (tool gate : bytes) (mode : AuditMode)
    (decision : AuditDecision) (reason : bytes) : AuditEvent :=
  mkEvent timestamp tool gate mode decision reason ∅.

Definition with_metadata (self : AuditEvent) (key : bytes) (value : N) : AuditEvent :=
  mkEvent (timestamp_unix_seconds self) (tool_name self) (gate_name self) (mode self)
    (decision self) (reason_code self) (<[key := value]> (metadata self)).

Definition read_only_allowed_event (timestamp : N) (tool gate reason : bytes) : AuditEvent :=
  AuditEvent_new timestamp tool gate ReadOnly Allowed reason.
Definition read_only_denied_event (timestamp : N) (tool gate reason : bytes) : AuditEvent :=
  AuditEvent_new timestamp tool gate ReadOnly Denied reason.
Definition filesystem_allowed_event (timestamp : N) (tool gate : bytes) (mode : AuditMode)
    (reason : bytes) : AuditEvent :=
  AuditEvent_new timestamp tool gate mode Allowed reason.
Definition filesystem_denied_event (timestamp : N) (tool gate : bytes) (mode : AuditMode)
    (reason : bytes) : AuditEvent :=
  AuditEvent_new timestamp tool gate mode Denied reason.

Record AuditDecisionCounters := mkDecisionCounters { allowed : N; denied : N }.
Definition decision_counters_default : AuditDecisionCounters := mkDecisionCounters 0 0.

Record AuditCounters := mkCounters {
  allowed_total : N;
  denied_total : N;
  by_tool : gmap bytes AuditDecisionCounters;
  by_reason_code : gmap bytes AuditDecisionCounters;
}.
Definition counters_default : AuditCounters := mkCounters 0 0 ∅ ∅.

(** [+= 1] on a [u64]; [None] is the overflow, which panics in a debug build. *)
Definition increment (n : N) : option N := checked_add64 n 1.

Definition record (self : AuditDecisionCounters) (d : AuditDecision)
    : option AuditDecisionCounters :=
  match d with
  | Allowed => a ← increment (allowed self); Some (mkDecisionCounters a (denied self))
  | Denied => n ← increment (denied self); Some (mkDecisionCounters (allowed self) n)
  end.

(** [entry(key).or_default().record(decision)]. *)
Definition record_entry (m : gmap bytes AuditDecisionCounters) (key : bytes) (d : AuditDecision)
    : option (gmap bytes AuditDecisionCounters) :=
  c ← record (default decision_counters_default (m !! key)) d;
  Some (<[key := c]> m).

Definition record_event (self : AuditCounters) (event : AuditEvent) : option AuditCounters :=
  totals ← match decision event with
           | Allowed => a ← increment (allowed_total self); Some (a, denied_total self)
           | Denied => n ← increment (denied_total self); Some (allowed_total self, n)
           end;
  tools ← record_entry (by_tool self) (tool_name event) (decision event);
  reasons ← record_entry (by_reason_code self) (reason_code event) (decision event);
  Some (mkCounters totals.1 totals.2 tools reasons).

Definition total (self : AuditCounters) : option N :=
  checked_add64 (allowed_total self) (denied_total self).
Definition is_empty (self : AuditCounters) : option bool :=
  n ← total self; Some (n =? 0)%N.
Definition decision_total (self : AuditDecisionCounters) : option N :=
  checked_add64 (allowed self) (denied self).

Fixpoint record_all (self : AuditCounters) (events : list AuditEvent) : option AuditCounters :=
  match events with
  | [] => Some self
  | e :: events => self ← record_event self e; record_all self events
  end.

(* ------------------------------------------------------------------ *)
(** ** Specification: counting the events *)

Definition count (P : AuditEvent → bool) (events : list AuditEvent) : N :=
  N.of_nat (length (List.filter P events)).
Definition decided (d : AuditDecision) (e : AuditEvent) : bool := bool_decide (decision e = d).
Definition by_key (key : AuditEvent → bytes) (k : bytes) (d : AuditDecision) (e : AuditEvent) : bool :=
  decided d e && bytes_eqb (key e) k.

(** A per-key table counts [events] under [key]. *)
Definition table_counts (key : AuditEvent → bytes) (events : list AuditEvent)
    (m : gmap bytes AuditDecisionCounters) : Prop :=
  ∀ k, match m !! k with
       | Some c => allowed c = count (by_key key k Allowed) events ∧
                   denied c = count (by_key key k Denied) events ∧
                   (0 < allowed c + denied c)%N
       | None => count (by_key key k Allowed) events = 0%N ∧
                 count (by_key key k Denied) events = 0%N
       end.

Definition counts (events : list AuditEvent) (c : AuditCounters) : Prop :=
  allowed_total c = count (decided Allowed) events ∧
  denied_total c = count (decided Denied) events ∧
  table_counts tool_name events (by_tool c) ∧ table_counts reason_code events (by_reason_code c).

Lemma count_snoc P events e :
  count P (events ++ [e]) = (count P events + if P e then 1 else 0)%N.
Proof.
  unfold count. rewrite List.filter_app, length_app. simpl. destruct (P e); simpl; lia.
Qed.

Lemma count_le P events : (count P events ≤ N.of_nat (length events))%N.
Proof. unfold count. pose proof (List.filter_length_le P events). lia. Qed.

Lemma by_key_le key k d events : (count (by_key key k d) events ≤ count (decided d) events)%N.
Proof.
  induction events as [|e events IH] using rev_ind; [done|]. rewrite !count_snoc.
  unfold by_key at 2. destruct (decided d e), (bytes_eqb _ _); simpl; lia.
Qed.

Lemma increment_ok n : (n < u64_max)%N → increment n = Some (n + 1)%N.
Proof. intros H. apply checked_add64_Some. split; [done|lia]. Qed.

Lemma record_entry_counts key events m e :
  table_counts key events m → (N.of_nat (length events) < u64_max)%N →
  ∃ m', record_entry m (key e) (decision e) = Some m' ∧ table_counts key (events ++ [e]) m'.
Proof.
  intros Hm Hlen.
  assert (∀ k d, count (by_key key k d) events < u64_max)%N as Hlt
    by (intros k d; pose proof (count_le (by_key key k d) events); lia).
  set (c := default decision_counters_default (m !! key e)).
  assert (allowed c = count (by_key key (key e) Allowed) events ∧
          denied c = count (by_key key (key e) Denied) events) as [Ha Hd].
  { specialize (Hm (key e)). subst c. destruct (m !! key e); simpl; naive_solver. }
  assert (∃ c', record c (decision e) = Some c' ∧
    allowed c' = count (by_key key (key e) Allowed) (events ++ [e]) ∧
    denied c' = count (by_key key (key e) Denied) (events ++ [e]) ∧
    (0 < allowed c' + denied c')%N) as (c' & Hc & Ha' & Hd' & Hpos).
  { rewrite !count_snoc. unfold by_key at 2 4, decided. rewrite !bytes_eqb_refl.
    destruct (decision e); simpl; rewrite increment_ok by (rewrite ?Ha, ?Hd; apply Hlt);
      eexists; (split; [done|]); simpl; rewrite ?Ha, ?Hd; split_and!; lia. }
  exists (<[key e := c']> m). split; [unfold record_entry; fold c; by rewrite Hc|].
  intros k. destruct (decide (k = key e)) as [->|Hk].
  - rewrite lookup_insert_eq. done.
  - rewrite lookup_insert_ne by done. specialize (Hm k). rewrite !count_snoc.
    assert (∀ d, by_key key k d e = false) as Hno.
    { intros d. unfold by_key, bytes_eqb. rewrite (bool_decide_false (key e = k)) by done.
      by rewrite andb_false_r. }
    rewrite !Hno, !N.add_0_r. done.
Qed.

Lemma record_event_counts events c e :
  counts events c → (N.of_nat (length events) < u64_max)%N →
  ∃ c', record_event c e = Some c' ∧ counts (events ++ [e]) c'.
Proof.
  intros (Ha & Hd & Ht & Hr) Hlen.
  destruct (record_entry_counts _ _ _ e Ht Hlen) as (t' & Et & Ht').
  destruct (record_entry_counts _ _ _ e Hr Hlen) as (r' & Er & Hr').
  pose proof (count_le (decided Allowed) events). pose proof (count_le (decided Denied) events).
  unfold record_event. rewrite Et, Er. unfold counts. rewrite !count_snoc.
  unfold decided at 2 4. destruct (decision e); simpl;
    rewrite increment_ok by lia; simpl; eexists; (split; [done|]); simpl; split_and!; try done; lia.
Qed.

Lemma record_all_counts events seen c :
  counts seen c → (N.of_nat (length (seen ++ events)) ≤ u64_max)%N →
  ∃ c', record_all c events = Some c' ∧ counts (seen ++ events) c'.
Proof.
  revert seen c; induction events as [|e events IH]; intros seen c Hc Hlen; cbn [record_all].
  - rewrite app_nil_r. by exists c.
  - rewrite length_app in Hlen. cbn [length] in Hlen.
    destruct (record_event_counts seen c e Hc) as (c' & -> & Hc'); [lia|]. simpl.
    destruct (IH (seen ++ [e]) c' Hc') as (c'' & -> & Hc''); [rewrite !length_app; simpl; lia|].
    exists c''. by rewrite <-(assoc_L (++)) in Hc''.
Qed.

Lemma counts_default : counts [] counters_default.
Proof.
  split_and!; [done|done|..]; intros k; cbn [by_tool by_reason_code counters_default];
    by rewrite lookup_empty.
Qed.

Lemma count_split events :
  (count (decided Allowed) events + count (decided Denied) events)%N = N.of_nat (length events).
Proof.
  induction events as [|e events IH] using rev_ind; [done|].
  rewrite !count_snoc, length_app. unfold decided at 2 4. destruct (decision e); simpl; lia.
Qed.

(** The audit counters count.  Recording fewer than 2^64 events never
    overflows, and the totals, the per-tool and the per-reason tables then hold
    exactly the number of allowed and denied events, with an entry for a key if
    and only if an event carried it; the total is the number of events. *)
Theorem audit_counters_exact events :
  (N.of_nat (length events) ≤ u64_max)%N →
  ∃ c, record_all counters_default events = Some c ∧ counts events c ∧
    total c = Some (N.of_nat (length events)).
Proof.
  intros Hlen. destruct (record_all_counts events [] counters_default counts_default Hlen)
    as (c & Hc & Hcounts).
  exists c. split_and!; [done|done|]. destruct Hcounts as (Ha & Hd & _). unfold total.
  apply checked_add64_Some. rewrite Ha, Hd, count_split. done.
Qed.
(** ** Witness *)

Definition example_events : list AuditEvent :=
  [read_only_allowed_event 1 (bs "health") (bs "read_only") (bs "ok");
   read_only_denied_event 2 (bs "read_file") (bs "safe_root") (bs "outside")].

Lemma audit_counters_exact_witness :
  ∃ c, record_all counters_default example_events = Some c ∧ counts example_events c ∧
    total c = Some 2%N.
Proof. apply (audit_counters_exact example_events). vm_compute. discriminate. Defined.
End Audit.
