(* ===== verification/WritePolicy.v ===== *)
(** * The write policy

    [src/src/write_policy.rs]: the dry-run-first policy and the audit event of
    its decision. *)

From S2P Require Import Prelude AuditEvents.

Module WritePolicy.
Import Audit.

Definition DEFAULT_MAX_WRITE_BYTES : N := 1048576.
Definition WRITE_FILE_TOOL_NAME : bytes := bs "write_file".
Definition FILESYSTEM_WRITE_GATE : bytes := bs "filesystem_write".
Definition CONTENT_BYTES_METADATA : bytes := bs "content_bytes".
Definition MAX_BYTES_METADATA : bytes := bs "max_bytes".
Definition DRY_RUN_REASON : bytes := bs "dry_run_preview".
Definition MUTATING_REASON : bytes := bs "explicit_mutation".
Definition PAYLOAD_TOO_LARGE_REASON : bytes := bs "payload_too_large".

Inductive WriteMode := DryRunMode | MutatingMode.

Definition audit_mode (m : WriteMode) : AuditMode :=
  match m with DryRunMode => DryRun | MutatingMode => Mutating end.
Definition allowed_reason_code (m : WriteMode) : bytes :=
  match m with DryRunMode => DRY_RUN_REASON | MutatingMode => MUTATING_REASON end.

Record WritePolicy := mkPolicy { max_write_bytes : N }.
Definition policy_default : WritePolicy := mkPolicy DEFAULT_MAX_WRITE_BYTES.

Inductive WritePolicyError := PayloadTooLarge (bytes max_bytes : N).

Definition resolve_mode (self : WritePolicy) (dry_run : option bool) : WriteMode :=
  if default true dry_run then DryRunMode else MutatingMode.

Definition validate_payload_size (self : WritePolicy) (bytes : N) : Result WritePolicyError unit :=
  if (max_write_bytes self <? bytes)%N
  then Err (PayloadTooLarge bytes (max_write_bytes self))
  else Ok ().

Definition write_audit_event (timestamp : N) (mode : AuditMode) (decision : AuditDecision)
    (reason : bytes) (bytes max_bytes : N) : AuditEvent :=
  with_metadata
    (with_metadata
       (AuditEvent_new timestamp WRITE_FILE_TOOL_NAME FILESYSTEM_WRITE_GATE mode decision reason)
       CONTENT_BYTES_METADATA bytes)
    MAX_BYTES_METADATA max_bytes.

Definition audit_payload_decision (self : WritePolicy) (timestamp bytes : N)
    (dry_run : option bool) : AuditEvent :=
  let mode := resolve_mode self dry_run in
  match validate_payload_size self bytes with
  | Ok _ =>
    write_audit_event timestamp (audit_mode mode) Allowed (allowed_reason_code mode) bytes
      (max_write_bytes self)
  | Err (PayloadTooLarge bytes max_bytes) =>
    write_audit_event timestamp (audit_mode mode) Denied PAYLOAD_TOO_LARGE_REASON bytes max_bytes
  end.

(** Writes are dry-run unless the caller says otherwise, and an oversized
    payload is never allowed.  The audited decision is [Mutating] exactly when the
    caller passed [dry_run = false], [Allowed] exactly when the payload is within
    the policy's limit (the two are independent), its reason names the outcome,
    and it records the payload size and the limit and nothing else. *)
Theorem write_decision_exact self timestamp n dry_run :
  let e := audit_payload_decision self timestamp n dry_run in
  (mode e = Mutating ↔ dry_run = Some false) ∧ (mode e = DryRun ↔ dry_run ≠ Some false) ∧
  (decision e = Allowed ↔ (n ≤ max_write_bytes self)%N) ∧
  reason_code e =
    (if (n <=? max_write_bytes self)%N
     then match dry_run with Some false => MUTATING_REASON | _ => DRY_RUN_REASON end
     else PAYLOAD_TOO_LARGE_REASON) ∧
  metadata e = {[ CONTENT_BYTES_METADATA := n; MAX_BYTES_METADATA := max_write_bytes self ]}.
Proof.
  unfold audit_payload_decision, validate_payload_size, resolve_mode.
  assert (∀ a b : N, <[MAX_BYTES_METADATA := b]> (<[CONTENT_BYTES_METADATA := a]> (∅ : gmap bytes N))
    = {[ CONTENT_BYTES_METADATA := a; MAX_BYTES_METADATA := b ]}) as Hm
    by (intros a b; apply insert_insert_ne; vm_compute; discriminate).
  destruct (N.ltb_spec (max_write_bytes self) n) as [Hn|Hn];
    [rewrite (proj2 (N.leb_gt _ _)) by done|rewrite (proj2 (N.leb_le _ _)) by done];
    destruct dry_run as [[]|]; simpl; rewrite Hm; split_and!; try done; try naive_solver lia.
Qed.
End WritePolicy.
