(* ===== verification/NetAddr.v ===== *)
(** * Textual addresses of the standard library

    What the source uses of [core::net]: the parser of IPv4 and IPv6 addresses
    behind [str::parse], and their [Display].  The file shows that printing is a
    canonical form: an address is parsed back from its text, and the parser does
    not distinguish the case of hexadecimal digits. *)

From S2P Require Import Prelude RustStd.

Module NetAddr.

(** Octets, and the eight 16-bit segments. *)
Record Ipv4 := mkV4 { oct1 : N; oct2 : N; oct3 : N; oct4 : N }.
Abbreviation Ipv6 := (list N) (only parsing).

Abbreviation DOT := (byte_of 46).
Abbreviation COLON := (byte_of 58).

(** ** Parsing

    A reader answers what it read and what is left, or fails and leaves the
    input to the next alternative ([Parser::read_atomically]). *)

Definition reader (A : Type) : Type := bytes → option (A * bytes).

(** [char::to_digit]. *)
Definition to_digit (radix : N) (c : byte) : option N :=
  let n := byte_val c in
  let d := if is_ascii_digit c then (n - 48)%N
           else if is_ascii_lowercase c then (n - 87)%N
           else if is_ascii_uppercase c then (n - 55)%N else radix in
  if (d <? radix)%N then Some d else None.

(** The digit loop of [read_number]: the value and the number of digits. *)
Fixpoint read_digits (radix : N) (max_digits digit_count : nat) (result : N) (s : bytes)
    : option (N * nat * bytes) :=
  match s with
  | [] => Some (result, digit_count, s)
  | c :: rest =>
    match to_digit radix c with
    | None => Some (result, digit_count, s)
    | Some digit =>
      if max_digits <? S digit_count then None
      else read_digits radix max_digits (S digit_count) (result * radix + digit)%N rest
    end
  end.

Definition has_leading_zero (s : bytes) : bool :=
  match s with c :: _ => bool_decide (c = byte_of 48) | [] => false end.
Definition read_number (radix : N) (max_digits : nat) (limit : N) (allow_zero_prefix : bool) : reader N := λ s,
  '(result, digit_count, rest) ← read_digits radix max_digits 0 0 s;
  if digit_count =? 0 then None
  else if negb allow_zero_prefix && has_leading_zero s && (1 <? digit_count) then None
  else if (result <=? limit)%N then Some (result, rest) else None.

Definition read_given_char (c : byte) : reader unit := λ s,
  match s with c' :: rest => if bool_decide (c' = c) then Some ((), rest) else None | [] => None end.

(** [read_separator]: the separator comes before every item but the first. *)
Definition read_separator {A} (sep : byte) (index : nat) (inner : reader A) : reader A := λ s,
  if index =? 0 then inner s
  else '(_, rest) ← read_given_char sep s; inner rest.

Definition read_octet (i : nat) : reader N := read_separator DOT i (read_number 10 3 255 false).
Definition read_ipv4_addr : reader Ipv4 := λ s,
  '(a, s) ← read_octet 0 s;
  '(b, s) ← read_octet 1 s;
  '(c, s) ← read_octet 2 s;
  '(d, s) ← read_octet 3 s;
  Some (mkV4 a b c d, s).

(** [read_groups]: [remaining] slots are left from index [i] on; an embedded IPv4
    address takes two of them and ends the address. *)
Fixpoint read_groups (remaining i : nat) (s : bytes) : list N * bool * bytes :=
  match remaining with
  | O => ([], false, s)
  | S remaining =>
    match (if remaining =? 0 then None else read_separator COLON i read_ipv4_addr s) with
    | Some (v4, rest) =>
        ([oct1 v4 * 256 + oct2 v4; oct3 v4 * 256 + oct4 v4]%N, true, rest)
    | None =>
      match read_separator COLON i (read_number 16 4 65535 true) s with
      | Some (g, rest) =>
          let '(groups, ipv4, rest) := read_groups remaining (S i) rest in (g :: groups, ipv4, rest)
      | None => ([], false, s)
      end
    end
  end.

Definition read_ipv6_addr : reader Ipv6 := λ s,
  let '(head, head_ipv4, s) := read_groups 8 0 s in
  let head_size := length head in
  if head_size =? 8 then Some (head, s)
  else if head_ipv4 then None
  else
    '(_, s) ← read_given_char COLON s;
    '(_, s) ← read_given_char COLON s;
    let '(tail, _, s) := read_groups (8 - (head_size + 1)) 0 s in
    Some (head ++ replicate (8 - head_size - length tail) 0%N ++ tail, s).

(** [Parser::parse_with]: nothing may be left. *)
Definition parse_with {A} (inner : reader A) (s : bytes) : option A :=
  '(a, rest) ← inner s; if bytes_eqb rest [] then Some a else None.

(** [str::parse::<Ipv6Addr>] and [str::parse::<IpAddr>]. *)
Definition parse_ipv6 : bytes → option Ipv6 := parse_with read_ipv6_addr.
Inductive Ip := IpV4 (a : Ipv4) | IpV6 (a : Ipv6).
Definition read_ip_addr : reader Ip := λ s,
  match read_ipv4_addr s with
  | Some (a, rest) => Some (IpV4 a, rest)
  | None => '(a, rest) ← read_ipv6_addr s; Some (IpV6 a, rest)
  end.
Definition parse_ip : bytes → option Ip := parse_with read_ip_addr.

(** ** Printing *)

Definition print_ipv4 (a : Ipv4) : bytes :=
  join_on DOT [print_N (oct1 a); print_N (oct2 a); print_N (oct3 a); print_N (oct4 a)].

(** [{:x}] of a [u16]. *)
Definition hex_digit (n : N) : byte := byte_of (if (n <? 10)%N then 48 + n else 87 + n)%N.
Fixpoint print_hex_digits (fuel : nat) (n : N) (acc : bytes) : bytes :=
  match fuel with
  | O => acc
  | S fuel =>
    let acc := hex_digit (n mod 16) :: acc in
    if (n <? 16)%N then acc else print_hex_digits fuel (n / 16) acc
  end.
Definition print_hex (n : N) : bytes := print_hex_digits 4 n [].

(** The longest span of zero segments, as its start and length. *)
Fixpoint zero_span (i : nat) (segments : list N) (longest current : nat * nat) : nat * nat :=
  match segments with
  | [] => longest
  | segment :: rest =>
    if (segment =? 0)%N then
      let start := if snd current =? 0 then i else fst current in
      let current := (start, S (snd current)) in
      zero_span (S i) rest (if snd longest <? snd current then current else longest) current
    else zero_span (S i) rest longest (0, 0)
  end.

Definition fmt_subslice (chunk : list N) : bytes := join_on COLON (print_hex <$> chunk).

(** [Ipv6Addr::to_ipv4_mapped]. *)
Definition to_ipv4_mapped (segments : Ipv6) : option Ipv4 :=
  match segments with
  | [s1; s2; s3; s4; s5; s6; ab; cd] =>
    if bool_decide ([s1; s2; s3; s4; s5; s6] = [0; 0; 0; 0; 0; 65535]%N)
    then Some (mkV4 (ab / 256) (ab mod 256) (cd / 256) (cd mod 256)) else None
  | _ => None
  end.
Definition print_ipv6 (segments : Ipv6) : bytes :=
  match to_ipv4_mapped segments with
  | Some ipv4 => bs "::ffff:" ++ print_ipv4 ipv4
  | None =>
    let '(start, len) := zero_span 0 segments (0, 0) (0, 0) in
    if 1 <? len
    then fmt_subslice (take start segments) ++ bs "::" ++ fmt_subslice (drop (start + len) segments)
    else fmt_subslice segments
  end.

(** ** Checks *)

Example parse_examples :
  (print_ipv6 <$> parse_ipv6 (bs "0:0:0:0:0:0:0:1")) = Some (bs "::1") ∧
  (print_ipv6 <$> parse_ipv6 (bs "2001:DB8::1:0:0:1")) = Some (bs "2001:db8::1:0:0:1") ∧
  (print_ipv6 <$> parse_ipv6 (bs "::ffff:1.2.3.4")) = Some (bs "::ffff:1.2.3.4") ∧
  (print_ipv6 <$> parse_ipv6 (bs "1.2.3.4::")) = None ∧
  (print_ipv6 <$> parse_ipv6 (bs "1:2:3:4:5:6:7::")) = Some (bs "1:2:3:4:5:6:7:0") ∧
  (print_ipv6 <$> parse_ipv6 (bs "127.0.0.1")) = None ∧
  (print_ipv6 <$> parse_ipv6 (bs "1:2:3:4:5:6:77.77.88.88")) = Some (bs "1:2:3:4:5:6:4d4d:5858") ∧
  parse_ip (bs "127.0.0.1") = Some (IpV4 (mkV4 127 0 0 1)) ∧ parse_ip (bs "127.0.0.01") = None ∧
  parse_ip (bs "256.0.0.1") = None.
Proof. by vm_compute. Qed.

(** ** Reading what was printed *)

(** A check of every number below a bound. *)
Definition all_below (k : N) (f : N → bool) : bool :=
  snd (N.iter k (λ '(n, b), (n + 1, b && f n)%N) (0%N, true)).
Lemma all_below_true k f : all_below k f = true → ∀ n, (n < k)%N → f n = true.
Proof.
  unfold all_below. set (g := λ '(n, b), (n + 1, b && f n)%N).
  assert (fst (N.iter k g (0%N, true)) = k ∧
    (snd (N.iter k g (0%N, true)) = true → ∀ n, (n < k)%N → f n = true)) as [_ H]; [|done].
  induction k as [|k IH] using N.peano_ind; [split; [done|]; lia|].
  rewrite N.iter_succ. destruct (N.iter k g (0%N, true)) as [m b]. destruct IH as [Hm IH]. simpl in *.
  split; [lia|]. intros [Hb Hf]%andb_true_iff n Hn.
  destruct (decide (n = m)) as [->|]; [done|]. apply IH; [done|lia].
Qed.

(** The digit loop stops at a byte that is no digit. *)
Definition stops (radix : N) (s : bytes) : Prop :=
  match s with c :: _ => to_digit radix c = None | [] => True end.
Lemma read_digits_app radix mx s r : ∀ count acc n k,
  stops radix r → read_digits radix mx count acc s = Some (n, k, []) →
  read_digits radix mx count acc (s ++ r) = Some (n, k, r).
Proof.
  induction s as [|c s IH]; intros count acc n k Hr; simpl.
  - intros [= -> ->]. destruct r as [|c r]; [done|]. simpl in *. by rewrite Hr.
  - destruct (to_digit radix c); [|done]. destruct (mx <? S count); [done|]. by apply IH.
Qed.
Lemma read_number_app radix mx limit zero s r n :
  s ≠ [] → stops radix r → read_number radix mx limit zero s = Some (n, []) →
  read_number radix mx limit zero (s ++ r) = Some (n, r).
Proof.
  intros Hs Hr. unfold read_number. destruct (read_digits radix mx 0 0 s) as [[[m k] rest]|] eqn:E; [|done].
  simpl. destruct (k =? 0) eqn:E0; [done|]. destruct (negb zero && _ && _) eqn:E1; [done|].
  destruct (m <=? limit)%N eqn:E2; [|done]. intros [= -> ->].
  rewrite (read_digits_app _ _ _ _ _ _ _ _ Hr E). simpl. rewrite E0.
  assert (has_leading_zero (s ++ r) = has_leading_zero s) as -> by (by destruct s). by rewrite E1, E2.
Qed.

(** Every octet and every segment is read back, and spelled with its digits. *)
Definition spelled (radix : N) (c : byte) : bool := match to_digit radix c with Some _ => true | None => false end.
Lemma octet_text n : (n < 256)%N →
  read_number 10 3 255 false (print_N n) = Some (n, []) ∧ print_N n ≠ [] ∧ forallb (spelled 10) (print_N n) = true.
Proof.
  set (f n := bool_decide (read_number 10 3 255 false (print_N n) = Some (n, [])) &&
    negb (bool_decide (print_N n = [])) && forallb (spelled 10) (print_N n)).
  intros Hn. assert (f n = true) as H by (apply (all_below_true 256); [by vm_compute|done]).
  unfold f in H. apply andb_true_iff in H as [[H1%bool_decide_eq_true H2]%andb_true_iff ?].
  apply negb_true_iff, bool_decide_eq_false in H2. done.
Qed.
Lemma hex_digit_spec d : (d < 16)%N →
  to_digit 16 (hex_digit d) = Some d ∧ byte_to_lower (hex_digit d) = hex_digit d.
Proof.
  set (f d := bool_decide (to_digit 16 (hex_digit d) = Some d) &&
    bool_decide (byte_to_lower (hex_digit d) = hex_digit d)).
  intros Hd. assert (f d = true) as H by (apply (all_below_true 16); [by vm_compute|done]).
  by apply andb_true_iff in H as [?%bool_decide_eq_true ?%bool_decide_eq_true].
Qed.
Definition hex_text (c : byte) : Prop := is_Some (to_digit 16 c) ∧ byte_to_lower c = c.
(** Up to [fuel] digits are read back. *)
Lemma print_hex_digits_spec fuel : ∀ n acc, (n < 16 ^ N.of_nat fuel)%N → fuel ≠ 0 →
  ∃ ds, print_hex_digits fuel n acc = ds ++ acc ∧ ds ≠ [] ∧ length ds ≤ fuel ∧ Forall hex_text ds ∧
    ∀ mx count r, count + length ds ≤ mx →
      ∃ k, read_digits 16 mx count 0 (ds ++ r) = read_digits 16 mx k n r ∧ k = count + length ds.
Proof.
  induction fuel as [|fuel IH]; intros n acc Hn Hf; [done|]. cbn [print_hex_digits].
  rewrite Nat2N.inj_succ, N.pow_succ_r' in Hn.
  assert (n mod 16 < 16)%N as Hm by by apply N.mod_lt.
  destruct (hex_digit_spec _ Hm) as [Hd Hl]. pose proof (N.div_mod' n 16) as Hdm.
  destruct (N.ltb_spec n 16) as [Hlt|Hge].
  - exists [hex_digit (n mod 16)]. split_and!; try done; [simpl; lia|by repeat constructor|].
    intros mx count r Hk. simpl in *. rewrite Hd. rewrite (proj2 (Nat.ltb_ge _ _)) by lia.
    rewrite N.mod_small by done. exists (S count). split; [done|lia].
  - assert (fuel ≠ 0) as Hf' by (intros ->; change (16 ^ N.of_nat 0)%N with 1%N in Hn; lia).
    destruct (IH (n / 16)%N (hex_digit (n mod 16) :: acc)) as (ds & -> & Hne & Hlen & Hh & Hr);
      [apply N.Div0.div_lt_upper_bound; lia|done|].
    exists (ds ++ [hex_digit (n mod 16)]). rewrite <-app_assoc, length_app. simpl.
    split_and!; [done|by destruct ds|lia|apply Forall_app; split; [done|by repeat constructor]|].
    intros mx count r Hk. rewrite <-app_assoc. simpl.
    destruct (Hr mx count (hex_digit (n mod 16) :: r)) as (k & -> & ->); [lia|].
    cbn [read_digits]. rewrite Hd, (proj2 (Nat.ltb_ge _ _)) by lia. eexists. split; [|done].
    f_equal; [lia|]. rewrite (N.mul_comm 16) in Hdm. by rewrite <-Hdm.
Qed.
Lemma segment_text n : (n < 65536)%N →
  read_number 16 4 65535 true (print_hex n) = Some (n, []) ∧ print_hex n ≠ [] ∧ Forall hex_text (print_hex n).
Proof.
  intros Hn. destruct (print_hex_digits_spec 4 n []) as (ds & Hp & Hne & Hlen & Hh & Hr); [done..|].
  unfold print_hex. rewrite Hp, app_nil_r in *. split_and!; [|done..].
  destruct (Hr 4 0 []) as (k & Hd & ->); [lia|]. rewrite app_nil_r in Hd.
  unfold read_number. rewrite Hd. simpl. destruct ds as [|c ds]; [done|]. simpl.
  by rewrite (proj2 (N.leb_le _ _)) by lia.
Qed.

Definition ipv4_ok (a : Ipv4) : Prop := (oct1 a < 256 ∧ oct2 a < 256 ∧ oct3 a < 256 ∧ oct4 a < 256)%N.
Definition ipv6_ok (a : list N) : Prop := length a = 8 ∧ Forall (λ s, s < 65536)%N a.

Lemma read_octet_first n r : (n < 256)%N → stops 10 r → read_octet 0 (print_N n ++ r) = Some (n, r).
Proof. intros (Hn & Hne & _)%octet_text Hr. by apply read_number_app. Qed.
Lemma read_octet_next i n r : (n < 256)%N → stops 10 r →
  read_octet (S i) (DOT :: print_N n ++ r) = Some (n, r).
Proof. apply read_octet_first. Qed.
Lemma read_print_ipv4 a r : ipv4_ok a → stops 10 r → read_ipv4_addr (print_ipv4 a ++ r) = Some (a, r).
Proof.
  intros (H1 & H2 & H3 & H4) Hr. unfold read_ipv4_addr, print_ipv4. cbn [join_on].
  rewrite <-!app_assoc, <-!app_comm_cons, <-!app_assoc, <-!app_comm_cons, <-!app_assoc, <-!app_comm_cons.
  rewrite read_octet_first by done. cbn [mbind option_bind].
  rewrite read_octet_next by done. cbn [mbind option_bind].
  rewrite read_octet_next by done. cbn [mbind option_bind].
  rewrite read_octet_next by done. by destruct a.
Qed.

(** An IPv4 address has a dot. *)
Lemma read_digits_suffix radix mx s : ∀ count acc n k r,
  read_digits radix mx count acc s = Some (n, k, r) → r `suffix_of` s.
Proof.
  induction s as [|c s IH]; intros count acc n k r; simpl; [by intros [= _ _ <-]|].
  destruct (to_digit radix c); [|by intros [= _ _ <-]]. destruct (mx <? S count); [done|].
  intros H%IH. by apply suffix_cons_r.
Qed.
Lemma read_number_suffix radix mx limit zero s n r :
  read_number radix mx limit zero s = Some (n, r) → r `suffix_of` s.
Proof.
  unfold read_number. destruct (read_digits radix mx 0 0 s) as [[[m k] rest]|] eqn:E; [|done]. simpl.
  apply read_digits_suffix in E. repeat case_match; by intros [= _ <-].
Qed.
Lemma read_separator_next {A} sep i (f : reader A) c s :
  read_separator sep (S i) f (c :: s) = if bool_decide (c = sep) then f s else None.
Proof. unfold read_separator, read_given_char. cbn [Nat.eqb]. by case_bool_decide. Qed.
Lemma read_ipv4_dot s a r : read_ipv4_addr s = Some (a, r) → DOT ∈ s.
Proof.
  unfold read_ipv4_addr. destruct (read_octet 0 s) as [[n1 s1]|] eqn:E1; [|done].
  apply read_number_suffix in E1 as [t ->]. cbn [mbind option_bind].
  destruct s1 as [|c s1]; [done|]. change (read_octet 1) with (read_separator DOT 1 (read_number 10 3 255 false)). rewrite read_separator_next.
  case_bool_decide as Hc; [|done]. intros _. subst. apply elem_of_app. right. apply list_elem_of_here.
Qed.
Lemma read_ipv4_none s : DOT ∉ s → read_ipv4_addr s = None.
Proof. intros H. destruct (read_ipv4_addr s) as [[a r]|] eqn:E; [by apply read_ipv4_dot in E|done]. Qed.
Lemma read_sep_ipv4_none i s : DOT ∉ s → read_separator COLON i read_ipv4_addr s = None.
Proof.
  intros H. destruct i as [|i]; [by apply read_ipv4_none|].
  destruct s as [|c s]; [done|]. rewrite read_separator_next. case_bool_decide; [|done].
  apply read_ipv4_none. by intros ?%(list_elem_of_further _ c).
Qed.

(** The text of groups from index [i] on. *)
Fixpoint groups_text (i : nat) (gs : list N) : bytes :=
  match gs with
  | [] => []
  | g :: gs => (if i =? 0 then [] else [COLON]) ++ print_hex g ++ groups_text (S i) gs
  end.
Lemma join_groups gs : ∀ g i, join_on COLON (print_hex <$> g :: gs) = print_hex g ++ groups_text (S i) gs.
Proof.
  induction gs as [|g' gs IH]; intros g i; [symmetry; apply app_nil_r|].
  change (join_on COLON (print_hex <$> g :: g' :: gs))
    with (print_hex g ++ COLON :: join_on COLON (print_hex <$> g' :: gs)).
  by rewrite (IH g' (S i)).
Qed.
Lemma fmt_subslice_text gs : fmt_subslice gs = groups_text 0 gs.
Proof. destruct gs as [|g gs]; [done|]. apply (join_groups gs g 0). Qed.
Lemma groups_text_chars i gs : Forall (λ s, s < 65536)%N gs →
  Forall (λ c, hex_text c ∨ c = COLON) (groups_text i gs).
Proof.
  intros H; revert i; induction H as [|g gs Hg _ IH]; intros i; [constructor|]. cbn [groups_text].
  apply Forall_app; split; [destruct (i =? 0); repeat constructor; by right|].
  apply Forall_app; split; [|apply IH]. destruct (segment_text _ Hg) as (_ & _ & Hh).
  eapply Forall_impl; [exact Hh|]. intros; by left.
Qed.
Lemma groups_text_dot i gs : Forall (λ s, s < 65536)%N gs → DOT ∉ groups_text i gs.
Proof.
  intros H%(groups_text_chars i) Hin. rewrite Forall_forall in H.
  destruct (H _ Hin) as [[[d Hd] _]|Hd]; by vm_compute in Hd.
Qed.
Definition ends_groups (r : bytes) : Prop := r = [] ∨ ∃ x, r = COLON :: COLON :: x.
Lemma read_groups_text gs : ∀ rem i r,
  Forall (λ s, s < 65536)%N gs → length gs ≤ rem → DOT ∉ r → ends_groups r →
  read_groups rem i (groups_text i gs ++ r) = (gs, false, r).
Proof.
  induction gs as [|g gs IH]; intros rem i r Hgs Hlen Hdot Hr.
  - destruct rem as [|rem]; [done|]. cbn [groups_text app read_groups].
    rewrite read_sep_ipv4_none by done. replace (if rem =? 0 then None else None) with (@None (Ipv4 * bytes))
      by by destruct (rem =? 0).
    by destruct i, Hr as [->|[x ->]].
  - destruct rem as [|rem]; [simpl in Hlen; lia|]. pose proof Hgs as [Hg Hgs']%Forall_cons.
    assert (DOT ∉ groups_text i (g :: gs) ++ r) as Hd
      by (intros [?|?]%elem_of_app; [by apply (groups_text_dot i (g :: gs))|done]).
    cbn [read_groups]. rewrite (read_sep_ipv4_none _ _ Hd).
    replace (if rem =? 0 then None else None) with (@None (Ipv4 * bytes)) by by destruct (rem =? 0).
    destruct (segment_text _ Hg) as (Hn & Hne & _).
    assert (stops 16 (groups_text (S i) gs ++ r)) as Hs
      by (destruct gs; [by destruct Hr as [->|[x ->]]|done]).
    pose proof (read_number_app _ _ _ _ _ _ _ Hne Hs Hn) as Hread.
    assert (read_separator COLON i (read_number 16 4 65535 true) (groups_text i (g :: gs) ++ r) =
      Some (g, groups_text (S i) gs ++ r)) as ->.
    { cbn [groups_text]. rewrite <-!app_assoc. destruct i as [|i]; [done|]. cbn [Nat.eqb app].
      by rewrite read_separator_next, bool_decide_true. }
    rewrite IH; [done..| |done|done]. simpl in Hlen. lia.
Qed.

(** ** The compressed span *)

Definition zeros (segs : list N) (p : nat * nat) : Prop :=
  fst p + snd p ≤ length segs ∧ ∀ j, fst p ≤ j < fst p + snd p → segs !! j = Some 0%N.
Lemma zero_span_zeros segs rest : ∀ i longest current,
  drop i segs = rest → zeros segs longest → zeros segs current →
  (snd current = 0 ∨ fst current + snd current = i) → zeros segs (zero_span i rest longest current).
Proof.
  induction rest as [|g rest IH]; intros i longest current Hd Hl Hc Hi; [done|]. cbn [zero_span].
  assert (segs !! i = Some g) as Hg by (by rewrite <-(Nat.add_0_r i), <-lookup_drop, Hd).
  assert (drop (S i) segs = rest) as Hd' by (by rewrite <-Nat.add_1_r, <-drop_drop, Hd).
  pose proof (lookup_lt_Some _ _ _ Hg). destruct (N.eqb_spec g 0) as [->|Hne].
  - set (start := if snd current =? 0 then i else fst current).
    assert (start + S (snd current) = S i ∧ zeros segs (start, S (snd current))) as [? Hz].
    { unfold start, zeros. destruct Hc as [_ Hc]. simpl.
      destruct (Nat.eqb_spec (snd current) 0) as [E|E].
      - rewrite E. split; [lia|]. split; [lia|]. intros j Hj. by replace j with i by lia.
      - destruct Hi as [?|Hi]; [done|]. split; [lia|]. split; [lia|]. intros j Hj.
        destruct (decide (j = i)) as [->|]; [done|]. apply Hc. lia. }
    apply IH; [done| |done|by right]. by destruct (_ <? _).
  - apply IH; [done|done| |by left]. split; simpl; [lia|]. intros. lia.
Qed.
Lemma zero_span_split segs start len : zero_span 0 segs (0, 0) (0, 0) = (start, len) →
  start + len ≤ length segs ∧ take start segs ++ replicate len 0%N ++ drop (start + len) segs = segs.
Proof.
  intros H. assert (zeros segs (start, len)) as [Hle Hz].
  { rewrite <-H. apply zero_span_zeros; [done| | |by left]; (split; simpl; [lia|]; intros; lia). }
  simpl in *. split; [done|]. rewrite <-(take_drop start segs) at 3. f_equal.
  rewrite <-(take_drop len (drop start segs)), drop_drop. f_equal. apply list_eq_same_length with (length (take len (drop start segs))).
  - done.
  - rewrite length_replicate, length_take, length_drop. lia.
  - intros j x y Hj. rewrite length_take, length_drop in Hj.
    rewrite lookup_replicate_2, lookup_take_lt, lookup_drop, Hz by lia. congruence.
Qed.

(** ** Addresses are read back from their text *)

Lemma parse_print_ipv4 a : ipv4_ok a → read_ipv4_addr (print_ipv4 a) = Some (a, []).
Proof. intros Ha. rewrite <-(app_nil_r (print_ipv4 a)) at 1. by apply read_print_ipv4. Qed.
Theorem parse_print_ip a : ipv4_ok a → parse_ip (print_ipv4 a) = Some (IpV4 a).
Proof. intros Ha. unfold parse_ip, parse_with, read_ip_addr. by rewrite parse_print_ipv4. Qed.

Lemma mapped_segments segs v4 : ipv6_ok segs → to_ipv4_mapped segs = Some v4 →
  ipv4_ok v4 ∧ segs = [0; 0; 0; 0; 0; 65535; oct1 v4 * 256 + oct2 v4; oct3 v4 * 256 + oct4 v4]%N.
Proof.
  intros [Hlen Hs]. do 8 (destruct segs as [|? segs]; [done|]). destruct segs; [|done].
  unfold to_ipv4_mapped. case_bool_decide as E; [|done]. intros [= <-]. injection E as -> -> -> -> -> ->.
  rewrite !Forall_cons in Hs. destruct Hs as (_ & _ & _ & _ & _ & _ & H7 & H8 & _). simpl.
  rewrite !(N.mul_comm (_ / _)), <-!N.div_mod' . split; [|done].
  unfold ipv4_ok; simpl. split_and!; try (by apply N.mod_lt); apply N.Div0.div_lt_upper_bound; lia.
Qed.
Lemma read_mapped v4 : ipv4_ok v4 →
  read_ipv6_addr (bs "::ffff:" ++ print_ipv4 v4) =
    Some ([0; 0; 0; 0; 0; 65535; oct1 v4 * 256 + oct2 v4; oct3 v4 * 256 + oct4 v4]%N, []).
Proof.
  intros Hv. pose proof (parse_print_ipv4 _ Hv) as Hr. revert Hr. generalize (print_ipv4 v4). intros P Hr.
  assert (read_groups 8 0 (bs "::ffff:" ++ P) = ([], false, bs "::ffff:" ++ P)) as H1 by reflexivity.
  assert (read_separator COLON 1 read_ipv4_addr (COLON :: P) = Some (v4, [])) as H2
    by by rewrite read_separator_next, bool_decide_true.
  assert (read_groups 7 0 (bs "ffff:" ++ P) =
    ([65535; oct1 v4 * 256 + oct2 v4; oct3 v4 * 256 + oct4 v4]%N, true, [])) as H3.
  { cbn [read_groups Nat.eqb].
    change (read_separator COLON 0 read_ipv4_addr (bs "ffff:" ++ P)) with (@None (Ipv4 * bytes)).
    change (read_separator COLON 0 (read_number 16 4 65535 true) (bs "ffff:" ++ P)) with (Some (65535%N, COLON :: P)).
    cbn [read_groups Nat.eqb]. by rewrite H2. }
  unfold read_ipv6_addr. rewrite H1. cbn [length Nat.eqb].
  change (read_given_char COLON (bs "::ffff:" ++ P)) with (Some ((), COLON :: bs "ffff:" ++ P)).
  cbn [mbind option_bind].
  change (read_given_char COLON (COLON :: bs "ffff:" ++ P)) with (Some ((), bs "ffff:" ++ P)).
  cbn [mbind option_bind]. change (8 - (0 + 1)) with 7. by rewrite H3.
Qed.

(** An IPv6 address is read back from its canonical text. *)
Theorem parse_print_ipv6 segs : ipv6_ok segs → parse_ipv6 (print_ipv6 segs) = Some segs.
Proof.
  intros Hok. unfold parse_ipv6, parse_with, print_ipv6.
  destruct (to_ipv4_mapped segs) as [v4|] eqn:Em.
  { apply mapped_segments in Em as [Hv ->]; [|done]. by rewrite (read_mapped _ Hv). }
  destruct Hok as [Hlen Hs]. destruct (zero_span 0 segs (0, 0) (0, 0)) as [start len] eqn:Ez.
  apply zero_span_split in Ez as [Hle Hsplit]. rewrite !fmt_subslice_text.
  destruct (Nat.ltb_spec 1 len) as [Hl|Hl].
  - assert (Forall (λ s, s < 65536)%N (drop (start + len) segs)) as Hs2 by by apply Forall_drop.
    assert (length (take start segs) = start ∧ length (drop (start + len) segs) = 8 - (start + len)) as [Ht Hd]
      by (rewrite length_take, length_drop, Hlen in *; lia).
    unfold read_ipv6_addr. rewrite read_groups_text; [|by apply Forall_take|lia| |right; by eexists].
    2: { intros Hin. apply elem_of_app in Hin as [Hin|Hin]; [by vm_compute in Hin; set_solver|].
         by apply (groups_text_dot 0 (drop (start + len) segs)). }
    rewrite Ht. destruct (Nat.eqb_spec start 8); [lia|].
    change (read_given_char COLON (bs "::" ++ ?x)) with (Some ((), COLON :: x)). cbn [mbind option_bind].
    change (read_given_char COLON (COLON :: ?x)) with (Some ((), x)). cbn [mbind option_bind].
    rewrite <-(app_nil_r (groups_text 0 (drop _ segs))).
    rewrite read_groups_text; [|done|lia|apply not_elem_of_nil|by left]. rewrite Hd.
    replace (8 - start - (8 - (start + len))) with len by lia. by rewrite Hsplit.
  - unfold read_ipv6_addr. rewrite <-(app_nil_r (groups_text 0 segs)).
    rewrite read_groups_text; [|done|lia|apply not_elem_of_nil|by left]. by rewrite Hlen.
Qed.

(** ** What is read is an address *)

Lemma read_number_le radix mx limit zero s n r : read_number radix mx limit zero s = Some (n, r) → (n ≤ limit)%N.
Proof.
  unfold read_number. destruct (read_digits radix mx 0 0 s) as [[[m k] rest]|]; [|done]. simpl.
  destruct (k =? 0); [done|]. destruct (negb zero && _ && _); [done|].
  destruct (N.leb_spec m limit); [|done]. by intros [= -> _].
Qed.
Lemma read_separator_inner {A} sep i (f : reader A) s a r :
  read_separator sep i f s = Some (a, r) → ∃ s', f s' = Some (a, r).
Proof.
  destruct i as [|i]; [by exists s|]. destruct s as [|c s]; [done|]. rewrite read_separator_next.
  case_bool_decide; [by exists s|done].
Qed.
Lemma read_octet_lt i s n r : read_octet i s = Some (n, r) → (n < 256)%N.
Proof. intros [s' H%read_number_le]%read_separator_inner. lia. Qed.
Lemma read_ipv4_ok s a r : read_ipv4_addr s = Some (a, r) → ipv4_ok a.
Proof.
  unfold read_ipv4_addr.
  destruct (read_octet 0 s) as [[n1 s1]|] eqn:E1; [|done]. cbn [mbind option_bind].
  destruct (read_octet 1 s1) as [[n2 s2]|] eqn:E2; [|done]. cbn [mbind option_bind].
  destruct (read_octet 2 s2) as [[n3 s3]|] eqn:E3; [|done]. cbn [mbind option_bind].
  destruct (read_octet 3 s3) as [[n4 s4]|] eqn:E4; [|done]. cbn [mbind option_bind].
  intros [= <- _]. by split_and!; eapply read_octet_lt.
Qed.
Lemma read_groups_ok rem : ∀ i s gs v4 r, read_groups rem i s = (gs, v4, r) →
  length gs ≤ rem ∧ Forall (λ g, g < 65536)%N gs.
Proof.
  induction rem as [|rem IH]; intros i s gs v4 r; cbn [read_groups]; [intros [= <- _ _]; by split|].
  destruct (if rem =? 0 then None else read_separator COLON i read_ipv4_addr s) as [[a r']|] eqn:E4.
  - intros [= <- _ _]. destruct (Nat.eqb_spec rem 0); [done|].
    apply read_separator_inner in E4 as [s' (? & ? & ? & ?)%read_ipv4_ok].
    split; [simpl; lia|]. repeat constructor; lia.
  - destruct (read_separator COLON i (read_number 16 4 65535 true) s) as [[g r']|] eqn:Eg.
    + apply read_separator_inner in Eg as [s' Hg%read_number_le].
      destruct (read_groups rem (S i) r') as [[gs' v4'] r''] eqn:Er. intros [= <- _ _].
      apply IH in Er as [? ?]. split; [simpl; lia|]. constructor; [lia|done].
    + intros [= <- _ _]. split; [simpl; lia|constructor].
Qed.
Lemma read_ipv6_ok s a r : read_ipv6_addr s = Some (a, r) → ipv6_ok a.
Proof.
  unfold read_ipv6_addr. destruct (read_groups 8 0 s) as [[head v4] s1] eqn:Eh.
  apply read_groups_ok in Eh as [Hl Hh]. destruct (Nat.eqb_spec (length head) 8) as [E8|E8].
  { by intros [= <- _]. }
  destruct v4; [done|]. destruct (read_given_char COLON s1) as [[[] s2]|]; [|done]. cbn [mbind option_bind].
  destruct (read_given_char COLON s2) as [[[] s3]|]; [|done]. cbn [mbind option_bind].
  destruct (read_groups (8 - (length head + 1)) 0 s3) as [[tail v4'] s4] eqn:Et.
  apply read_groups_ok in Et as [Hl' Ht]. intros [= <- _]. split.
  - rewrite !length_app, length_replicate. lia.
  - repeat (apply Forall_app; split); [done| |done]. by apply Forall_replicate.
Qed.
Lemma parse_with_Some {A} (f : reader A) s a : parse_with f s = Some a → f s = Some (a, []).
Proof.
  unfold parse_with. destruct (f s) as [[x r]|]; [|done]. simpl. destruct (bytes_eqb r []) eqn:E; [|done].
  apply bytes_eqb_true in E as ->. by intros [= ->].
Qed.
Lemma parse_ipv6_ok s a : parse_ipv6 s = Some a → ipv6_ok a.
Proof. by intros H%parse_with_Some%read_ipv6_ok. Qed.
Lemma parse_ip_v4 s a : parse_ip s = Some (IpV4 a) → read_ipv4_addr s = Some (a, []) ∧ ipv4_ok a.
Proof.
  intros H%parse_with_Some. unfold read_ip_addr in H.
  destruct (read_ipv4_addr s) as [[x r]|] eqn:E; [|by destruct (read_ipv6_addr s) as [[]|]].
  injection H as -> ->. split; [done|]. by eapply read_ipv4_ok.
Qed.

(** ** The case of hexadecimal digits does not matter *)

Lemma to_digit_lower10 c : to_digit 10 (byte_to_lower c) = to_digit 10 c.
Proof. by destruct c. Qed.
Lemma to_digit_lower16 c : to_digit 16 (byte_to_lower c) = to_digit 16 c.
Proof. by destruct c. Qed.
Lemma lower_is sep c : sep = DOT ∨ sep = COLON ∨ sep = byte_of 48 →
  bool_decide (byte_to_lower c = sep) = bool_decide (c = sep).
Proof. intros [->|[->| ->]]; by destruct c. Qed.

(** A reader that treats a lowered input like the input. *)
Definition caseless {A} (f : reader A) : Prop :=
  ∀ s, f (to_ascii_lowercase s) = prod_map id to_ascii_lowercase <$> f s.
Lemma read_digits_lower radix mx s : (radix = 10 ∨ radix = 16)%N → ∀ count acc,
  read_digits radix mx count acc (to_ascii_lowercase s) =
    prod_map id to_ascii_lowercase <$> read_digits radix mx count acc s.
Proof.
  intros Hr. assert (∀ c, to_digit radix (byte_to_lower c) = to_digit radix c) as Hd
    by (destruct Hr as [->| ->]; [apply to_digit_lower10|apply to_digit_lower16]).
  induction s as [|c s IH]; intros count acc; [done|].
  change (to_ascii_lowercase (c :: s)) with (byte_to_lower c :: to_ascii_lowercase s). cbn [read_digits].
  rewrite Hd. destruct (to_digit radix c); [|done]. destruct (mx <? S count); [done|]. apply IH.
Qed.
Lemma read_number_lower radix mx limit zero : (radix = 10 ∨ radix = 16)%N →
  caseless (read_number radix mx limit zero).
Proof.
  intros Hr s. unfold read_number. rewrite read_digits_lower by done.
  assert (has_leading_zero (to_ascii_lowercase s) = has_leading_zero s) as ->
    by (destruct s as [|c s]; [done|]; apply (lower_is (byte_of 48)); by do 2 right).
  destruct (read_digits radix mx 0 0 s) as [[[m k] r]|]; [|done]. simpl.
  by repeat case_match.
Qed.
Lemma read_separator_lower {A} sep i (f : reader A) : sep = DOT ∨ sep = COLON → caseless f →
  caseless (read_separator sep i f).
Proof.
  intros Hs Hf s. destruct i as [|i]; [apply Hf|]. destruct s as [|c s]; [done|].
  change (to_ascii_lowercase (c :: s)) with (byte_to_lower c :: to_ascii_lowercase s).
  rewrite !read_separator_next, lower_is by (destruct Hs; auto). case_bool_decide; [apply Hf|done].
Qed.
Lemma read_octet_lower i : caseless (read_octet i).
Proof. apply read_separator_lower; [by left|]. apply read_number_lower. by left. Qed.
Lemma read_ipv4_lower : caseless read_ipv4_addr.
Proof.
  intros s. unfold read_ipv4_addr. rewrite read_octet_lower.
  destruct (read_octet 0 s) as [[n1 s1]|]; [|done]. cbn [mbind option_bind fmap option_fmap option_map prod_map fst snd].
  rewrite read_octet_lower. destruct (read_octet 1 s1) as [[n2 s2]|]; [|done].
  cbn [mbind option_bind fmap option_fmap option_map prod_map fst snd].
  rewrite read_octet_lower. destruct (read_octet 2 s2) as [[n3 s3]|]; [|done].
  cbn [mbind option_bind fmap option_fmap option_map prod_map fst snd].
  rewrite read_octet_lower. by destruct (read_octet 3 s3) as [[n4 s4]|].
Qed.
Lemma read_groups_lower rem : ∀ i s,
  read_groups rem i (to_ascii_lowercase s) = prod_map id to_ascii_lowercase (read_groups rem i s).
Proof.
  induction rem as [|rem IH]; intros i s; [done|]. cbn [read_groups].
  rewrite (read_separator_lower COLON i _ (or_intror eq_refl) read_ipv4_lower).
  rewrite (read_separator_lower COLON i _ (or_intror eq_refl)
    (read_number_lower 16 4 65535 true (or_intror eq_refl))).
  assert (∀ b : bool, (if b then None else prod_map id to_ascii_lowercase <$> read_separator COLON i read_ipv4_addr s)
    = prod_map id to_ascii_lowercase <$> (if b then None else read_separator COLON i read_ipv4_addr s)) as ->
    by by intros [].
  destruct (if rem =? 0 then None else read_separator COLON i read_ipv4_addr s) as [[a r]|]; [done|]. simpl.
  destruct (read_separator COLON i (read_number 16 4 65535 true) s) as [[g r]|]; [|done]. simpl.
  rewrite IH. by destruct (read_groups rem (S i) r) as [[gs v4] r'].
Qed.
Lemma read_given_lower : caseless (read_given_char COLON).
Proof.
  intros [|c s]; [done|]. change (to_ascii_lowercase (c :: s)) with (byte_to_lower c :: to_ascii_lowercase s).
  unfold read_given_char. rewrite lower_is by auto. by case_bool_decide.
Qed.
Lemma read_ipv6_lower : caseless read_ipv6_addr.
Proof.
  intros s. unfold read_ipv6_addr. rewrite read_groups_lower.
  destruct (read_groups 8 0 s) as [[head v4] s1]. cbn [prod_map fst snd id].
  destruct (length head =? 8); [done|]. destruct v4; [done|]. rewrite read_given_lower.
  destruct (read_given_char COLON s1) as [[[] s2]|]; [|done].
  cbn [mbind option_bind fmap option_fmap option_map prod_map fst snd]. rewrite read_given_lower.
  destruct (read_given_char COLON s2) as [[[] s3]|]; [|done].
  cbn [mbind option_bind fmap option_fmap option_map prod_map fst snd]. rewrite read_groups_lower.
  by destruct (read_groups _ 0 s3) as [[tail v4'] s4].
Qed.
Lemma parse_with_lower {A} (f : reader A) : caseless f → ∀ s, parse_with f (to_ascii_lowercase s) = parse_with f s.
Proof.
  intros Hf s. unfold parse_with. rewrite Hf. destruct (f s) as [[a r]|]; [|done]. simpl. by destruct r.
Qed.
Lemma parse_ipv6_lower s : parse_ipv6 (to_ascii_lowercase s) = parse_ipv6 s.
Proof. apply parse_with_lower, read_ipv6_lower. Qed.
Lemma parse_ip_lower s : parse_ip (to_ascii_lowercase s) = parse_ip s.
Proof.
  apply parse_with_lower. intros t. unfold read_ip_addr. rewrite read_ipv4_lower.
  destruct (read_ipv4_addr t) as [[a r]|]; [done|]. simpl. rewrite read_ipv6_lower.
  by destruct (read_ipv6_addr t) as [[a r]|].
Qed.
End NetAddr.
