(* ===== verification/TransportSecurity.v ===== *)
(** * Host and Origin policy

    [src/src/transport_security.rs]: the normal form of an authority, the
    allowlists of a policy and the decision on a request's [Host] and [Origin]. *)

From S2P Require Import Prelude RustStd NetAddr.

Module TransportSecurity.
Import NetAddr.

(** ** Errors *)

Module Error.
Inductive t :=
| MissingHost
| InvalidHostHeader
| HostNotAllowed (received : bytes)
| InvalidOriginHeader
| OriginNotAllowed (received : bytes)
| OriginRequired
| InvalidOrigin (received : bytes).
Definition reason_code (self : t) : bytes :=
  match self with
  | MissingHost => bs "missing_host"
  | InvalidHostHeader => bs "invalid_host_header"
  | HostNotAllowed _ => bs "host_not_allowed"
  | InvalidOriginHeader => bs "invalid_origin_header"
  | OriginNotAllowed _ => bs "origin_not_allowed"
  | OriginRequired => bs "origin_required"
  | InvalidOrigin _ => bs "invalid_origin"
  end.
End Error.

Module PolicyError.
Inductive t := InvalidPort | InvalidHost | InvalidOrigin.
Definition reason_code (self : t) : bytes :=
  match self with
  | InvalidPort => bs "invalid_listener_port"
  | InvalidHost => bs "invalid_allowed_host"
  | InvalidOrigin => bs "invalid_allowed_origin"
  end.
End PolicyError.

(** ** Normal forms *)

Definition is_ascii_whitespace (b : byte) : bool :=
  bool_decide (byte_val b ∈ [32; 9; 10; 12; 13]%N).
Definition is_ascii_control (b : byte) : bool := (byte_val b <=? 31)%N || (byte_val b =? 127)%N.
Definition contains_ascii_whitespace_or_control (value : bytes) : bool :=
  existsb (λ b, is_ascii_whitespace b || is_ascii_control b) value.

(** [str::contains], [matches().count()], [ends_with] and [strip_suffix] of one
    character. *)
Definition contains_char (c : byte) (s : bytes) : bool := existsb (λ b, bool_decide (b = c)) s.
Definition count_char (c : byte) (s : bytes) : nat := length (List.filter (λ b, bool_decide (b = c)) s).
Definition ends_with_char (c : byte) (s : bytes) : bool := bool_decide (last s = Some c).
Definition strip_suffix_char (c : byte) (s : bytes) : option bytes :=
  if ends_with_char c s then Some (removelast s) else None.
Definition starts_with_char (c : byte) (s : bytes) : bool := bool_decide (head s = Some c).

Definition parse_port (port : bytes) : option N :=
  if bytes_eqb port [] || negb (forallb is_ascii_digit port) then None
  else port ← parse_unsigned 65535 port; if (port =? 0)%N then None else Some port.

Definition port_text (port : N) : bytes := bs ":" ++ print_N port.
Definition parse_port_suffix (remainder : bytes) : option bytes :=
  if bytes_eqb remainder [] then Some []
  else port ← strip_str_prefix (bs ":") remainder; port ← parse_port port; Some (port_text port).

Definition valid_label (label : bytes) : bool :=
  negb (bytes_eqb label []) && (length label <=? 63)
  && forallb (λ b, is_ascii_digit b || is_ascii_lowercase b || is_ascii_uppercase b
                   || bool_decide (b = byte_of 45)) label
  && negb (starts_with_char (byte_of 45) label) && negb (ends_with_char (byte_of 45) label).
Definition valid_dns_name (host : bytes) : bool :=
  (length host <=? 253) && forallb valid_label (split_on DOT host).

(** The characters an authority may not have. *)
Definition forbidden (b : byte) : bool := existsb (λ c, bool_decide (b = c)) (bs "*/?#@\").

Abbreviation OPEN := (byte_of 91).
Abbreviation CLOSE := (byte_of 93).

(** The name of a [name:port] authority. *)
Definition normalize_name (raw_host : bytes) : option bytes :=
  let raw_host := default raw_host (strip_suffix_char DOT raw_host) in
  if bytes_eqb raw_host [] || ends_with_char DOT raw_host then None
  else match parse_ip raw_host with
  | Some (IpV4 ipv4) => Some (print_ipv4 ipv4)
  | Some (IpV6 _) => None
  | None => if valid_dns_name raw_host then Some (to_ascii_lowercase raw_host) else None
  end.

Definition normalize_authority (authority : bytes) : option bytes :=
  if bytes_eqb authority [] || contains_ascii_whitespace_or_control authority || existsb forbidden authority
  then None
  else match strip_str_prefix (bs "[") authority with
  | Some bracketed =>
    '(address, remainder) ← split_once CLOSE bracketed;
    ipv6 ← parse_ipv6 address;
    port ← parse_port_suffix remainder;
    Some (bs "[" ++ print_ipv6 ipv6 ++ bs "]" ++ port)
  | None =>
    if contains_char OPEN authority || contains_char CLOSE authority || (1 <? count_char COLON authority)
    then None
    else
      '(raw_host, port) ← match split_once COLON authority with
        | Some (host, port) => port ← parse_port port; Some (host, port_text port)
        | None => Some (authority, [])
        end;
      name ← normalize_name raw_host;
      Some (name ++ port)
  end.

Definition normalize_host (host : bytes) : option bytes := normalize_authority host.
Definition normalize_origin (origin : bytes) : option bytes :=
  if contains_ascii_whitespace_or_control origin then None
  else
    let lower := to_ascii_lowercase origin in
    '(scheme, authority) ← match strip_str_prefix (bs "http://") lower with
      | Some authority => Some (bs "http://", authority)
      | None =>
        match strip_str_prefix (bs "https://") lower with
        | Some authority => Some (bs "https://", authority)
        | None => None
        end
      end;
    authority ← normalize_authority authority;
    Some (scheme ++ authority).

(** ** Policies *)

Record TransportSecurityPolicy := mkPolicy {
  allowed_hosts : gset bytes;
  allowed_origins : gset bytes;
  allow_missing_origin : bool;
}.

(** Each [map] and [collect] stops at the first entry that does not normalize. *)
Fixpoint collect (normalize : bytes → option bytes) (e : PolicyError.t) (entries : list bytes)
    : Result PolicyError.t (gset bytes) :=
  match entries with
  | [] => Ok ∅
  | entry :: rest => n ← ok_or (normalize entry) e; set ← collect normalize e rest; Ok ({[n]} ∪ set)
  end.
Definition new (hosts origins : list bytes) (allow_missing : bool)
    : Result PolicyError.t TransportSecurityPolicy :=
  hosts ← collect normalize_host PolicyError.InvalidHost hosts;
  origins ← collect normalize_origin PolicyError.InvalidOrigin origins;
  Ok (mkPolicy hosts origins allow_missing).
Definition localhost (port : N) (allow_missing : bool) : Result PolicyError.t TransportSecurityPolicy :=
  if (port =? 0)%N then Err PolicyError.InvalidPort
  else
    let port := print_N port in
    new [bs "localhost:" ++ port; bs "127.0.0.1:" ++ port; bs "[::1]:" ++ port]
      [bs "http://localhost:" ++ port; bs "http://127.0.0.1:" ++ port; bs "http://[::1]:" ++ port]
      allow_missing.

Definition validate_request (self : TransportSecurityPolicy) (host origin : option bytes)
    : Result Error.t unit :=
  host ← ok_or (host ≫= normalize_host) Error.MissingHost;
  _ ← fail_if (negb (bool_decide (host ∈ allowed_hosts self))) (Error.HostNotAllowed host);
  match origin with
  | Some raw_origin =>
    normalized_origin ← ok_or (normalize_origin raw_origin) (Error.InvalidOrigin raw_origin);
    if bool_decide (normalized_origin ∈ allowed_origins self) then Ok ()
    else Err (Error.OriginNotAllowed normalized_origin)
  | None => if allow_missing_origin self then Ok () else Err Error.OriginRequired
  end.

(** ** Checks *)

Example normalize_examples :
  (normalize_host <$> (bs <$> ["localhost"; "LOCALHOST:8000"; "example.com."; "127.0.0.1:8000"; "[::1]";
      "[0:0:0:0:0:0:0:1]:8000"]%string)) =
    (Some ∘ bs <$> ["localhost"; "localhost:8000"; "example.com"; "127.0.0.1:8000"; "[::1]"; "[::1]:8000"]%string) ∧
  Forall (λ s, normalize_host (bs s) = None)
    [""; " "; "*"; "*.example.com"; "user@example.com"; "example.com/path"; "example.com?query";
     "example.com#fragment"; "example.com:"; "example.com:0"; "example.com:65536"; "example.com:not-a-port";
     ":8000"; "-example.com"; "example-.com"; "example..com"; "::1"; "2001:db8::1"; "[::1"; "::1]"; "[]:8000";
     "[127.0.0.1]:8000"; "[::1]junk"; "[::1]:"; "[::1]:65536"; "localhost\"; "localhost.."]%string ∧
  normalize_origin (bs "HTTP://LOCALHOST:8000") = Some (bs "http://localhost:8000").
Proof. split_and!; [by vm_compute|repeat constructor|by vm_compute]. Qed.
End TransportSecurity.
