(* ===== verification/HostPolicy.v ===== *)
(** * What the Host and Origin policy lets through

    The theorems on [TransportSecurity]: the normal form of an authority is one,
    and a policy decides by the normal forms of its entries. *)

From S2P Require Import Prelude RustStd NetAddr TransportSecurity.

Module HostPolicy.
Import NetAddr TransportSecurity.

(** ** The characters of a normal form *)

Definition plain (c : byte) : bool :=
  is_ascii_digit c || is_ascii_lowercase c || bool_decide (c ∈ bs "-.:").
Definition plain_text (s : bytes) : Prop := Forall (λ c, plain c = true) s.
Definition clean (c : byte) : bool := negb (is_ascii_whitespace c || is_ascii_control c || forbidden c).

Lemma plain_char c : plain c = true →
  clean c = true ∧ byte_to_lower c = c ∧ c ≠ OPEN ∧ c ≠ CLOSE.
Proof. destruct c; try discriminate; by intros _; split_and!. Qed.
Lemma hex_plain c : hex_text c → plain c = true.
Proof. intros [[d Hd] Hl]. destruct c; try done; by vm_compute in Hd. Qed.
Lemma digit_plain c : is_ascii_digit c = true → plain c = true ∧ c ≠ COLON ∧ c ≠ DOT.
Proof. destruct c; try discriminate; by intros _; split_and!. Qed.

Lemma plain_lower s : plain_text s → to_ascii_lowercase s = s.
Proof.
  induction 1 as [|c s Hc _ IH]; [done|].
  change (byte_to_lower c :: to_ascii_lowercase s = c :: s). rewrite IH. by destruct (plain_char c Hc) as (_ & -> & _).
Qed.
Lemma plain_not_in s c : plain_text s → plain c = false → c ∉ s.
Proof. intros H Hc Hin. unfold plain_text in H. rewrite Forall_forall in H. apply H in Hin. congruence. Qed.

(** The guard of [normalize_authority]. *)
Definition rejected (s : bytes) : bool :=
  bytes_eqb s [] || contains_ascii_whitespace_or_control s || existsb forbidden s.
Lemma rejected_clean s : rejected s = false ↔ s ≠ [] ∧ Forall (λ c, clean c = true) s.
Proof.
  unfold rejected, contains_ascii_whitespace_or_control. rewrite <-orb_assoc, orb_false_iff, bytes_eqb_false.
  apply and_iff_compat_l. rewrite orb_false_iff. induction s as [|c s IH]; [by split|].
  rewrite Forall_cons, <-IH. unfold clean. simpl. rewrite negb_true_iff, !orb_false_iff. tauto.
Qed.

Lemma print_N_plain n : plain_text (print_N n).
Proof.
  destruct (print_N_spec n) as (H & _ & _). eapply Forall_impl; [exact H|]. by intros c [? _]%digit_plain.
Qed.
Lemma port_text_plain n : plain_text (port_text n).
Proof. apply Forall_app; split; [by repeat constructor|apply print_N_plain]. Qed.
Lemma print_ipv4_plain a : plain_text (print_ipv4 a).
Proof.
  unfold print_ipv4. cbn [join_on]. unfold plain_text.
  repeat first [apply Forall_app; split|apply Forall_cons; split|apply print_N_plain|done].
Qed.
Lemma groups_text_plain i gs : Forall (λ s, s < 65536)%N gs → plain_text (groups_text i gs).
Proof.
  intros H%(groups_text_chars i). eapply Forall_impl; [exact H|]. by intros c [?%hex_plain| ->].
Qed.
Lemma print_ipv6_plain a : ipv6_ok a → plain_text (print_ipv6 a).
Proof.
  intros [_ H]. unfold print_ipv6. destruct (to_ipv4_mapped a).
  - apply Forall_app; split; [by repeat constructor|apply print_ipv4_plain].
  - destruct (zero_span 0 a (0, 0) (0, 0)) as [start len]. rewrite !fmt_subslice_text.
    destruct (1 <? len); [|by apply groups_text_plain].
    apply Forall_app; split; [by apply groups_text_plain, Forall_take|].
    apply Forall_app; split; [by repeat constructor|by apply groups_text_plain, Forall_drop].
Qed.

(** ** Ports *)

Lemma parse_port_Some s n : parse_port s = Some n → (0 < n ≤ 65535)%N.
Proof.
  unfold parse_port. destruct (bytes_eqb s [] || _) eqn:E; [done|].
  apply orb_false_iff in E as [_ Hd%negb_false_iff].
  destruct (parse_unsigned 65535 s) as [m|] eqn:Em; [|done]. simpl.
  destruct (N.eqb_spec m 0); [done|]. intros [= ->]. unfold parse_unsigned in Em.
  case_match; [done|]. apply parse_digits_Some in Em as (_ & _ & ?); lia.
Qed.
Lemma parse_port_print n : (0 < n ≤ 65535)%N → parse_port (print_N n) = Some n.
Proof.
  intros Hn. unfold parse_port. destruct (print_N_spec n) as (Hd & _ & Hne).
  rewrite (proj2 (bytes_eqb_false _ _) Hne). simpl.
  rewrite (proj2 (forallb_forall _ _)); [|intros c Hc; rewrite Forall_forall in Hd; by apply Hd, list_elem_of_In].
  rewrite parse_print_N by lia. simpl. by rewrite (proj2 (N.eqb_neq _ _)) by lia.
Qed.
(** The port of a normal form: nothing, or a canonical one. *)
Definition canonical_port (p : bytes) : Prop := p = [] ∨ ∃ n, p = port_text n ∧ (0 < n ≤ 65535)%N.
Lemma parse_port_suffix_Some s p : parse_port_suffix s = Some p → canonical_port p.
Proof.
  unfold parse_port_suffix. destruct (bytes_eqb s []); [intros [= <-]; by left|].
  destruct (strip_str_prefix (bs ":") s) as [t|]; [|done]. cbn [mbind option_bind].
  destruct (parse_port t) as [n|] eqn:En; [|done]. intros [= <-]. right.
  exists n. split; [done|]. by eapply parse_port_Some.
Qed.
Lemma canonical_port_suffix p : canonical_port p → parse_port_suffix p = Some p.
Proof.
  intros [->|(n & -> & Hn)]; [done|]. unfold parse_port_suffix, port_text.
  change (strip_str_prefix (bs ":") (bs ":" ++ print_N n)) with (Some (print_N n)). simpl.
  by rewrite parse_port_print.
Qed.
Lemma canonical_port_plain p : canonical_port p → plain_text p.
Proof. intros [->|(n & -> & _)]; [constructor|apply port_text_plain]. Qed.

(** ** Characters of a string *)

Lemma contains_char_false c s : contains_char c s = false ↔ c ∉ s.
Proof.
  unfold contains_char. induction s as [|b s IH]; [split; [intros _; apply not_elem_of_nil|done]|].
  simpl. rewrite orb_false_iff, IH, not_elem_of_cons, bool_decide_eq_false. split; intros [? ?]; split; congruence.
Qed.
Lemma count_char_0 c s : c ∉ s → count_char c s = 0.
Proof.
  unfold count_char. induction s as [|b s IH]; simpl; [done|]. intros [? ?]%not_elem_of_cons.
  rewrite bool_decide_false by congruence. by apply IH.
Qed.
Lemma count_char_app c s t : count_char c (s ++ t) = count_char c s + count_char c t.
Proof. unfold count_char. by rewrite List.filter_app, length_app. Qed.
Lemma split_once_none c s : c ∉ s → split_once c s = None.
Proof.
  induction s as [|b s IH]; simpl; [done|]. intros [? ?]%not_elem_of_cons.
  rewrite bool_decide_false by congruence. by rewrite IH.
Qed.
Lemma strip_suffix_none c s : ends_with_char c s = false → default s (strip_suffix_char c s) = s.
Proof. intros H. unfold strip_suffix_char. by rewrite H. Qed.

(** ** Names *)

(** What [normalize_name] answers. *)
Definition canonical_name (n : bytes) : Prop :=
  plain_text n ∧ COLON ∉ n ∧ n ≠ [] ∧ ends_with_char DOT n = false ∧
  ((∃ a, ipv4_ok a ∧ n = print_ipv4 a) ∨ (parse_ip n = None ∧ valid_dns_name n = true)).

Lemma byte_to_lower_idem c : byte_to_lower (byte_to_lower c) = byte_to_lower c.
Proof. by destruct c. Qed.
Lemma last_lower s : last (to_ascii_lowercase s) = byte_to_lower <$> last s.
Proof. apply fmap_last. Qed.
Lemma ends_with_lower c s : (∀ b, byte_to_lower b = c ↔ b = c) →
  ends_with_char c (to_ascii_lowercase s) = ends_with_char c s.
Proof.
  intros Hc. unfold ends_with_char. rewrite last_lower. apply bool_decide_ext.
  destruct (last s) as [b|]; simpl; [|done]. split; intros [= E]; f_equal; by apply Hc.
Qed.
Lemma starts_with_lower c s : (∀ b, byte_to_lower b = c ↔ b = c) →
  starts_with_char c (to_ascii_lowercase s) = starts_with_char c s.
Proof.
  intros Hc. unfold starts_with_char. apply bool_decide_ext.
  destruct s as [|b s]; simpl; [done|]. split; intros [= E]; f_equal; by apply Hc.
Qed.
Lemma lower_dot b : byte_to_lower b = DOT ↔ b = DOT.
Proof. destruct b; by vm_compute. Qed.
Lemma lower_dash b : byte_to_lower b = byte_of 45 ↔ b = byte_of 45.
Proof. destruct b; by vm_compute. Qed.
Lemma split_on_lower sep s : (∀ b, byte_to_lower b = sep ↔ b = sep) →
  split_on sep (to_ascii_lowercase s) = to_ascii_lowercase <$> split_on sep s.
Proof.
  intros Hs. induction s as [|b s IH]; [done|].
  change (to_ascii_lowercase (b :: s)) with (byte_to_lower b :: to_ascii_lowercase s). cbn [split_on].
  rewrite IH, (bool_decide_ext _ _ (Hs b)). case_bool_decide; [done|].
  by destruct (split_on sep s).
Qed.
Lemma alnum_lower b (f := λ b, is_ascii_digit b || is_ascii_lowercase b || is_ascii_uppercase b
    || bool_decide (b = byte_of 45)) : f (byte_to_lower b) = f b.
Proof. by destruct b. Qed.
Lemma valid_label_lower l : valid_label (to_ascii_lowercase l) = valid_label l.
Proof.
  unfold valid_label. rewrite ends_with_lower, starts_with_lower by apply lower_dash.
  assert (length (to_ascii_lowercase l) = length l) as -> by apply length_fmap.
  assert (bytes_eqb (to_ascii_lowercase l) [] = bytes_eqb l []) as -> by by destruct l.
  do 2 f_equal. f_equal. induction l as [|b l IH]; [done|].
  change (to_ascii_lowercase (b :: l)) with (byte_to_lower b :: to_ascii_lowercase l). cbn [forallb].
  by rewrite IH, alnum_lower.
Qed.
Lemma valid_dns_lower s : valid_dns_name (to_ascii_lowercase s) = valid_dns_name s.
Proof.
  unfold valid_dns_name. rewrite split_on_lower by apply lower_dot.
  assert (length (to_ascii_lowercase s) = length s) as -> by apply length_fmap. f_equal.
  induction (split_on DOT s) as [|l ls IH]; [done|]. cbn [fmap list_fmap forallb].
  by rewrite valid_label_lower, <-IH.
Qed.

(** A DNS name has only letters, digits, dashes and dots. *)
Lemma join_on_Forall (P : byte → Prop) sep ls : P sep → Forall (Forall P) ls → Forall P (join_on sep ls).
Proof.
  intros Hs. induction 1 as [|l [|l' ls] Hl _ IH]; [constructor|done|].
  change (Forall P (l ++ sep :: join_on sep (l' :: ls))). by apply Forall_app; split; [|constructor].
Qed.
Lemma valid_dns_chars s : valid_dns_name s = true →
  Forall (λ c, plain (byte_to_lower c) = true ∧ byte_to_lower c ≠ COLON ∧ c ≠ COLON) s.
Proof.
  unfold valid_dns_name. intros [_ H]%andb_true_iff. rewrite <-(join_split_on DOT s).
  apply join_on_Forall; [by vm_compute|]. rewrite forallb_forall in H. apply Forall_forall. intros l Hl.
  apply list_elem_of_In in Hl. apply H in Hl. unfold valid_label in Hl.
  apply andb_true_iff in Hl as [[[_ Hl]%andb_true_iff _]%andb_true_iff _].
  rewrite forallb_forall in Hl. apply Forall_forall. intros c Hc. apply list_elem_of_In in Hc. apply Hl in Hc.
  destruct c; try (by vm_compute in Hc); by vm_compute.
Qed.

Lemma print_ipv4_name a : ipv4_ok a → canonical_name (print_ipv4 a).
Proof.
  intros Ha. split_and!; [apply print_ipv4_plain| | | |left; by eexists].
  - unfold print_ipv4. cbn [join_on]. assert (∀ n, COLON ∉ print_N n) as H.
    { intros n Hin. destruct (print_N_spec n) as (Hd & _ & _). rewrite Forall_forall in Hd.
      apply Hd, digit_plain in Hin. tauto. }
    repeat first [rewrite not_elem_of_app; split|rewrite not_elem_of_cons; split|apply H|done].
  - unfold print_ipv4. cbn [join_on]. by destruct (print_N (oct1 a)).
  - unfold print_ipv4, ends_with_char. cbn [join_on]. apply bool_decide_eq_false.
    destruct (print_N_spec (oct4 a)) as (Hd & _ & Hne).
    assert (∃ t, print_N (oct1 a) ++ DOT :: print_N (oct2 a) ++ DOT :: print_N (oct3 a) ++ DOT :: print_N (oct4 a)
      = t ++ print_N (oct4 a)) as [t ->].
    { exists (print_N (oct1 a) ++ DOT :: print_N (oct2 a) ++ DOT :: print_N (oct3 a) ++ [DOT]). by simplify_list_eq. }
    rewrite last_app.
    destruct (last (print_N (oct4 a))) as [c|] eqn:El; [|by apply last_None in El].
    simpl. intros [= ->]. apply last_Some_elem_of in El. rewrite Forall_forall in Hd. by apply Hd in El.
Qed.

Lemma normalize_name_canonical raw n : normalize_name raw = Some n → canonical_name n.
Proof.
  unfold normalize_name. generalize (default raw (strip_suffix_char DOT raw)). intros s.
  destruct (bytes_eqb s [] || _) eqn:E; [done|]. apply orb_false_iff in E as [Hne%bytes_eqb_false Hdot].
  destruct (parse_ip s) as [[a|a]|] eqn:Ep; [|done|].
  - intros [= <-]. apply parse_ip_v4 in Ep as [_ ?]. by apply print_ipv4_name.
  - destruct (valid_dns_name s) eqn:Ev; [|done]. intros [= <-].
    pose proof (valid_dns_chars _ Ev) as Hc. split_and!.
    + apply Forall_fmap. eapply Forall_impl; [exact Hc|]. by intros c (? & _ & _).
    + intros (c & Hc' & Hin)%list_elem_of_fmap. rewrite Forall_forall in Hc.
      destruct (Hc _ Hin) as (_ & Hx & _). congruence.
    + by destruct s.
    + by rewrite ends_with_lower by apply lower_dot.
    + right. by rewrite parse_ip_lower, valid_dns_lower.
Qed.
Lemma canonical_name_fixed n : canonical_name n → normalize_name n = Some n.
Proof.
  intros (Hp & _ & Hne & Hdot & Hn). unfold normalize_name. rewrite strip_suffix_none by done.
  rewrite (proj2 (bytes_eqb_false _ _) Hne), Hdot. simpl.
  destruct Hn as [(a & Ha & ->)|[Hi Hv]]; [by rewrite parse_print_ip|]. by rewrite Hi, Hv, plain_lower.
Qed.

(** ** Authorities *)

(** What [normalize_authority] answers. *)
Definition canonical (n : bytes) : Prop :=
  (∃ a p, ipv6_ok a ∧ canonical_port p ∧ n = bs "[" ++ print_ipv6 a ++ bs "]" ++ p) ∨
  (∃ m p, canonical_name m ∧ canonical_port p ∧ n = m ++ p).

Lemma normalize_canonical a n : normalize_authority a = Some n → canonical n.
Proof.
  unfold normalize_authority. destruct (_ || _ || _); [done|].
  destruct (strip_str_prefix (bs "[") a) as [bracketed|].
  - destruct (split_once CLOSE bracketed) as [[address remainder]|]; [|done]. cbn [mbind option_bind].
    destruct (parse_ipv6 address) as [v6|] eqn:E6; [|done]. cbn [mbind option_bind].
    destruct (parse_port_suffix remainder) as [p|] eqn:Ep; [|done]. intros [= <-]. left.
    exists v6, p. split_and!; [by eapply parse_ipv6_ok|by eapply parse_port_suffix_Some|done].
  - destruct (_ || _); [done|].
    destruct (split_once COLON a) as [[host port]|].
    + destruct (parse_port port) as [k|] eqn:Ek; [|done]. cbn [mbind option_bind].
      destruct (normalize_name host) as [m|] eqn:Em; [|done]. intros [= <-]. right. exists m, (port_text k).
      split_and!; [by eapply normalize_name_canonical|right; exists k; split; [done|by eapply parse_port_Some]|done].
    + cbn [mbind option_bind]. destruct (normalize_name a) as [m|] eqn:Em; [|done]. intros [= <-]. right.
      exists m, []. split_and!; [by eapply normalize_name_canonical|by left|done].
Qed.

Lemma plain_clean s : plain_text s → Forall (λ c, clean c = true) s.
Proof. intros H. eapply Forall_impl; [exact H|]. by intros c [? _]%plain_char. Qed.
Lemma named_fixed m p : canonical_name m → canonical_port p → normalize_authority (m ++ p) = Some (m ++ p).
Proof.
  intros Hm Hp. pose proof Hm as (Hplain & Hcolon & Hne & _ & _).
  assert (plain_text (m ++ p)) as Hall by (apply Forall_app; split; [done|by apply canonical_port_plain]).
  unfold normalize_authority. fold (rejected (m ++ p)).
  rewrite (proj2 (rejected_clean _)); [|split; [by destruct m|by apply plain_clean]].
  destruct (strip_str_prefix (bs "[") (m ++ p)) as [r|] eqn:E.
  { apply strip_str_prefix_Some in E. destruct (plain_not_in _ OPEN Hall); [by vm_compute|].
    rewrite E. apply list_elem_of_here. }
  rewrite (proj2 (contains_char_false OPEN _)) by by apply plain_not_in.
  rewrite (proj2 (contains_char_false CLOSE _)) by by apply plain_not_in. cbn [orb].
  destruct Hp as [->|(n & -> & Hn)].
  - rewrite app_nil_r. rewrite count_char_0, split_once_none by done. simpl.
    rewrite canonical_name_fixed by done. simpl. by rewrite app_nil_r.
  - rewrite count_char_app, count_char_0 by done. assert (COLON ∉ print_N n) as Hn'.
    { destruct (print_N_spec n) as (Hd & _ & _). rewrite Forall_forall in Hd. intros Hin.
      apply Hd, digit_plain in Hin. tauto. }
    assert (count_char COLON (port_text n) = 1) as ->
      by (unfold port_text; rewrite count_char_app, (count_char_0 COLON (print_N n)); done).
    cbn [Nat.add Nat.ltb Nat.leb]. change (m ++ port_text n) with (m ++ COLON :: print_N n).
    rewrite split_once_app by done. cbn [mbind option_bind]. rewrite parse_port_print by done.
    cbn [mbind option_bind]. by rewrite canonical_name_fixed.
Qed.
Lemma bracketed_fixed a p : ipv6_ok a → canonical_port p →
  normalize_authority (bs "[" ++ print_ipv6 a ++ bs "]" ++ p) = Some (bs "[" ++ print_ipv6 a ++ bs "]" ++ p).
Proof.
  intros Ha Hp. pose proof (print_ipv6_plain _ Ha) as Hplain.
  unfold normalize_authority. fold (rejected (bs "[" ++ print_ipv6 a ++ bs "]" ++ p)).
  rewrite (proj2 (rejected_clean _)).
  2: { split; [done|]. apply Forall_app; split; [by repeat constructor|].
       apply Forall_app; split; [by apply plain_clean|].
       apply Forall_app; split; [by repeat constructor|by apply plain_clean, canonical_port_plain]. }
  change (strip_str_prefix (bs "[") (bs "[" ++ ?x)) with (Some x).
  cbn iota. change (print_ipv6 a ++ bs "]" ++ p) with (print_ipv6 a ++ CLOSE :: p).
  rewrite split_once_app by by apply plain_not_in. cbn [mbind option_bind].
  rewrite parse_print_ipv6 by done. cbn [mbind option_bind]. by rewrite canonical_port_suffix.
Qed.
Lemma lower_app s t : to_ascii_lowercase (s ++ t) = to_ascii_lowercase s ++ to_ascii_lowercase t.
Proof. apply fmap_app. Qed.
Lemma canonical_fixed n : canonical n → normalize_authority n = Some n ∧ to_ascii_lowercase n = n.
Proof.
  intros [(a & p & Ha & Hp & ->)|(m & p & Hm & Hp & ->)].
  - split; [by apply bracketed_fixed|]. rewrite !lower_app.
    by rewrite (plain_lower _ (print_ipv6_plain _ Ha)), (plain_lower _ (canonical_port_plain _ Hp)).
  - split; [by apply named_fixed|]. apply plain_lower, Forall_app. split; [apply Hm|by apply canonical_port_plain].
Qed.

(** ** The case of the input *)

Lemma clean_lower c : clean (byte_to_lower c) = clean c.
Proof. by destruct c. Qed.
Lemma rejected_lower s : rejected (to_ascii_lowercase s) = rejected s.
Proof.
  apply eq_bool_prop_intro. rewrite !Is_true_true.
  assert (∀ b, b = true ↔ b ≠ false) as Hb by by intros []. rewrite (Hb (rejected (_ s))), (Hb (rejected s)).
  apply not_iff_compat. rewrite !rejected_clean. unfold to_ascii_lowercase. rewrite Forall_fmap.
  assert (Forall ((λ c, clean c = true) ∘ byte_to_lower) s ↔ Forall (λ c, clean c = true) s) as ->
    by (apply Forall_iff; intros c; simpl; by rewrite clean_lower).
  split; (intros [? ?]; split; [|done]); by destruct s.
Qed.
Lemma lower_open b : byte_to_lower b = OPEN ↔ b = OPEN.
Proof. destruct b; by vm_compute. Qed.
Lemma lower_close b : byte_to_lower b = CLOSE ↔ b = CLOSE.
Proof. destruct b; by vm_compute. Qed.
Lemma lower_colon b : byte_to_lower b = COLON ↔ b = COLON.
Proof. destruct b; by vm_compute. Qed.
Lemma split_once_lower sep s : (∀ b, byte_to_lower b = sep ↔ b = sep) →
  split_once sep (to_ascii_lowercase s) =
    prod_map to_ascii_lowercase to_ascii_lowercase <$> split_once sep s.
Proof.
  intros Hs. induction s as [|b s IH]; [done|].
  change (to_ascii_lowercase (b :: s)) with (byte_to_lower b :: to_ascii_lowercase s). cbn [split_once].
  rewrite IH, (bool_decide_ext _ _ (Hs b)). case_bool_decide; [done|].
  by destruct (split_once sep s) as [[x y]|].
Qed.
Lemma contains_char_lower c s : (∀ b, byte_to_lower b = c ↔ b = c) →
  contains_char c (to_ascii_lowercase s) = contains_char c s.
Proof.
  intros Hc. induction s as [|b s IH]; [done|].
  change (contains_char c (byte_to_lower b :: to_ascii_lowercase s) = contains_char c (b :: s)).
  unfold contains_char in *. cbn [existsb]. by rewrite IH, (bool_decide_ext _ _ (Hc b)).
Qed.
Lemma count_char_lower c s : (∀ b, byte_to_lower b = c ↔ b = c) →
  count_char c (to_ascii_lowercase s) = count_char c s.
Proof.
  intros Hc. induction s as [|b s IH]; [done|].
  change (count_char c (byte_to_lower b :: to_ascii_lowercase s) = count_char c (b :: s)).
  unfold count_char in *. cbn [List.filter]. rewrite (bool_decide_ext _ _ (Hc b)).
  case_bool_decide; [|done]. simpl. by f_equal.
Qed.
Lemma parse_port_lower s : parse_port (to_ascii_lowercase s) = parse_port s.
Proof.
  destruct (forallb is_ascii_digit s) eqn:E.
  - f_equal. apply plain_lower. rewrite forallb_forall in E. apply Forall_forall.
    intros c Hc%list_elem_of_In%E. by apply digit_plain in Hc as [? _].
  - unfold parse_port. rewrite E. assert (forallb is_ascii_digit (to_ascii_lowercase s) = false) as ->.
    { rewrite <-E. clear E. induction s as [|b s IH]; [done|].
      change (forallb is_ascii_digit (byte_to_lower b :: to_ascii_lowercase s) = forallb is_ascii_digit (b :: s)).
      cbn [forallb]. f_equal; [by destruct b|done]. }
    by rewrite !orb_true_r.
Qed.
Lemma parse_port_suffix_lower s : parse_port_suffix (to_ascii_lowercase s) = parse_port_suffix s.
Proof.
  unfold parse_port_suffix. destruct s as [|b s]; [done|].
  change (to_ascii_lowercase (b :: s)) with (byte_to_lower b :: to_ascii_lowercase s).
  cbn [strip_str_prefix bs]. rewrite !(proj2 (bytes_eqb_false _ _)) by done.
  simpl. change x3a with COLON.
  assert (bool_decide (COLON = byte_to_lower b) = bool_decide (COLON = b)) as -> by by destruct b.
  case_bool_decide; [|done]. cbn [mbind option_bind]. by rewrite parse_port_lower.
Qed.
Lemma lower_idem s : to_ascii_lowercase (to_ascii_lowercase s) = to_ascii_lowercase s.
Proof.
  unfold to_ascii_lowercase. rewrite <-list_fmap_compose. apply list_fmap_ext. intros i c _. apply byte_to_lower_idem.
Qed.
Lemma strip_suffix_lower s :
  default (to_ascii_lowercase s) (strip_suffix_char DOT (to_ascii_lowercase s)) =
    to_ascii_lowercase (default s (strip_suffix_char DOT s)).
Proof.
  unfold strip_suffix_char. rewrite ends_with_lower by apply lower_dot.
  destruct (ends_with_char DOT s); [|done]. simpl. clear. induction s as [|b [|b' s] IH]; [done|done|].
  change (byte_to_lower b :: removelast (to_ascii_lowercase (b' :: s)) =
    byte_to_lower b :: to_ascii_lowercase (removelast (b' :: s))). by f_equal.
Qed.
Lemma normalize_name_lower s : normalize_name (to_ascii_lowercase s) = normalize_name s.
Proof.
  unfold normalize_name. rewrite strip_suffix_lower. generalize (default s (strip_suffix_char DOT s)). intros t.
  rewrite ends_with_lower, parse_ip_lower, valid_dns_lower, lower_idem by apply lower_dot.
  by destruct t.
Qed.
Lemma strip_open_lower s :
  strip_str_prefix (bs "[") (to_ascii_lowercase s) = to_ascii_lowercase <$> strip_str_prefix (bs "[") s.
Proof.
  destruct s as [|b s]; [done|]. by destruct b.
Qed.
Lemma normalize_authority_lower a : normalize_authority (to_ascii_lowercase a) = normalize_authority a.
Proof.
  unfold normalize_authority. fold (rejected (to_ascii_lowercase a)) (rejected a). rewrite rejected_lower.
  destruct (rejected a); [done|]. rewrite strip_open_lower.
  destruct (strip_str_prefix (bs "[") a) as [r|]; cbn [fmap option_fmap option_map].
  - rewrite split_once_lower by apply lower_close. destruct (split_once CLOSE r) as [[x y]|]; [|done].
    cbn [mbind option_bind fmap option_fmap option_map prod_map fst snd].
    by rewrite parse_ipv6_lower, parse_port_suffix_lower.
  - rewrite (contains_char_lower OPEN), (contains_char_lower CLOSE), (count_char_lower COLON)
      by (apply lower_open || apply lower_close || apply lower_colon).
    destruct (_ || _); [done|]. rewrite split_once_lower by apply lower_colon.
    destruct (split_once COLON a) as [[x y]|];
      cbn [mbind option_bind fmap option_fmap option_map prod_map fst snd].
    + rewrite parse_port_lower. destruct (parse_port y); [|done]. cbn [mbind option_bind].
      by rewrite normalize_name_lower.
    + by rewrite normalize_name_lower.
Qed.

(** ** Origins *)

Lemma scheme_origin scheme a : scheme = bs "http://" ∨ scheme = bs "https://" →
  normalize_origin (scheme ++ a) = app scheme <$> normalize_authority a.
Proof.
  intros Hs. rewrite <-(normalize_authority_lower a). unfold normalize_origin.
  assert (contains_ascii_whitespace_or_control (scheme ++ a) = contains_ascii_whitespace_or_control a) as ->
    by (unfold contains_ascii_whitespace_or_control; rewrite existsb_app; by destruct Hs as [->| ->]).
  destruct (contains_ascii_whitespace_or_control a) eqn:E.
  - assert (rejected a = true) as Hr by (unfold rejected; by rewrite E, orb_true_r).
    unfold normalize_authority. fold (rejected (to_ascii_lowercase a)). by rewrite rejected_lower, Hr.
  - rewrite lower_app. destruct Hs as [->| ->].
    + change (strip_str_prefix (bs "http://") (to_ascii_lowercase (bs "http://") ++ ?x)) with (Some x).
      cbn [mbind option_bind]. by destruct (normalize_authority (to_ascii_lowercase a)).
    + change (strip_str_prefix (bs "http://") (to_ascii_lowercase (bs "https://") ++ ?x)) with (@None bytes).
      change (strip_str_prefix (bs "https://") (to_ascii_lowercase (bs "https://") ++ ?x)) with (Some x).
      cbn [mbind option_bind]. by destruct (normalize_authority (to_ascii_lowercase a)).
Qed.
Lemma normalize_origin_Some o n : normalize_origin o = Some n →
  ∃ scheme m, (scheme = bs "http://" ∨ scheme = bs "https://") ∧ n = scheme ++ m ∧ canonical m.
Proof.
  unfold normalize_origin. destruct (contains_ascii_whitespace_or_control o); [done|].
  destruct (strip_str_prefix (bs "http://") _) as [a|].
  - cbn [mbind option_bind]. destruct (normalize_authority a) as [m|] eqn:E; [|done]. intros [= <-].
    exists (bs "http://"), m. split; [by left|]. split; [done|by eapply normalize_canonical].
  - destruct (strip_str_prefix (bs "https://") _) as [a|]; [|done].
    cbn [mbind option_bind]. destruct (normalize_authority a) as [m|] eqn:E; [|done]. intros [= <-].
    exists (bs "https://"), m. split; [by right|]. split; [done|by eapply normalize_canonical].
Qed.
Lemma ws_lower s : contains_ascii_whitespace_or_control (to_ascii_lowercase s) = contains_ascii_whitespace_or_control s.
Proof.
  induction s as [|b s IH]; [done|].
  change (to_ascii_lowercase (b :: s)) with (byte_to_lower b :: to_ascii_lowercase s).
  unfold contains_ascii_whitespace_or_control in *. cbn [existsb]. rewrite IH. f_equal. by destruct b.
Qed.

(** The normal form of a host is one.  Normalizing a normal form, of a host
    or of an origin, changes nothing, and it has no upper-case letters; the case
    of the input does not matter; and an origin is a scheme, [http] or [https],
    in front of an authority normalized exactly as a host is.  In particular an
    address, whichever way it is spelled, is compared by its canonical text. *)
Theorem normal_forms_canonical :
  (∀ a n, normalize_host a = Some n → normalize_host n = Some n ∧ to_ascii_lowercase n = n) ∧
  (∀ o n, normalize_origin o = Some n → normalize_origin n = Some n ∧ to_ascii_lowercase n = n) ∧
  (∀ a, normalize_host (to_ascii_lowercase a) = normalize_host a) ∧
  (∀ o, normalize_origin (to_ascii_lowercase o) = normalize_origin o) ∧
  (∀ a, normalize_origin (bs "http://" ++ a) = app (bs "http://") <$> normalize_host a) ∧
  (∀ a, normalize_origin (bs "https://" ++ a) = app (bs "https://") <$> normalize_host a).
Proof.
  split_and!.
  - by intros a n H%normalize_canonical%canonical_fixed.
  - intros o n (scheme & m & Hs & -> & Hm)%normalize_origin_Some. destruct (canonical_fixed _ Hm) as [Hn Hl].
    rewrite scheme_origin, Hn, lower_app, Hl by done. split; [done|]. by destruct Hs as [->| ->].
  - apply normalize_authority_lower.
  - intros o. unfold normalize_origin. by rewrite ws_lower, lower_idem.
  - intros a. apply scheme_origin. by left.
  - intros a. apply scheme_origin. by right.
Qed.

(** ** Policies *)

Lemma collect_Ok f e entries set :
  collect f e entries = Ok set ↔ Forall (λ x, is_Some (f x)) entries ∧ set = list_to_set (omap f entries).
Proof.
  revert set; induction entries as [|x entries IH]; intros set; [split; [by intros [= <-]|by intros [_ ->]]|].
  cbn [collect]. rewrite Forall_cons. simpl. destruct (f x) as [n|] eqn:Ex; simpl.
  - destruct (collect f e entries) as [set'|e'] eqn:Ec; simpl.
    + destruct (IH set') as [(Ha & ->) _]; [done|]. split; [by intros [= <-]|by intros [_ ->]].
    + split; [done|]. intros [[_ H] ->]. destruct (IH (list_to_set (omap f entries))) as [_ Hc]. by discriminate Hc.
  - split; [done|]. by intros [[[? ?] _] _].
Qed.
Lemma collect_Err f e e' entries :
  collect f e entries = Err e' ↔ e' = e ∧ ∃ x, x ∈ entries ∧ f x = None.
Proof.
  induction entries as [|x entries IH]; cbn [collect].
  { split; [done|]. by intros (_ & ? & ?%not_elem_of_nil & _). }
  destruct (f x) as [n|] eqn:Ex; simpl.
  - assert ((∃ y, y ∈ x :: entries ∧ f y = None) ↔ ∃ y, y ∈ entries ∧ f y = None) as ->.
    { setoid_rewrite elem_of_cons. split; [intros (y & [->|?] & ?); [congruence|eauto]|].
      intros (y & ? & ?). eauto. }
    rewrite <-IH. by destruct (collect f e entries).
  - split; [intros [= <-]|by intros [-> _]]. split; [done|]. exists x. split; [apply list_elem_of_here|done].
Qed.
Lemma collected f e entries set n :
  collect f e entries = Ok set → n ∈ set ↔ ∃ x, x ∈ entries ∧ f x = Some n.
Proof. intros [_ ->]%collect_Ok. by rewrite elem_of_list_to_set, list_elem_of_omap. Qed.

Lemma collect_all f e entries : Forall (λ x, is_Some (f x)) entries →
  collect f e entries = Ok (list_to_set (omap f entries)).
Proof. intros H. by apply collect_Ok. Qed.
Lemma new_builds hosts origins missing :
  Forall (λ h, is_Some (normalize_host h)) hosts → Forall (λ o, is_Some (normalize_origin o)) origins →
  ∃ p, new hosts origins missing = Ok p.
Proof. intros Hh Ho. unfold new. rewrite !collect_all by done. by eexists. Qed.

(** Two spellings of one host or origin. *)
Definition same (normalize : bytes → option bytes) (a b : bytes) : Prop :=
  normalize a = normalize b ∧ is_Some (normalize a).

(** The decision of a policy built from [hosts] and [origins]. *)
Definition allowed (normalize : bytes → option bytes) (entries : list bytes) (a : bytes) : Prop :=
  ∃ entry, entry ∈ entries ∧ same normalize a entry.
Definition refused (hosts origins : list bytes) (missing : bool) (host origin : option bytes) (e : Error.t) : Prop :=
  match e with
  | Error.MissingHost => (host ≫= normalize_host) = None
  | Error.HostNotAllowed n =>
      (host ≫= normalize_host) = Some n ∧ ¬ ∃ h, h ∈ hosts ∧ normalize_host h = Some n
  | Error.InvalidOrigin o => origin = Some o ∧ normalize_origin o = None
  | Error.OriginNotAllowed n =>
      (origin ≫= normalize_origin) = Some n ∧ ¬ ∃ o, o ∈ origins ∧ normalize_origin o = Some n
  | Error.OriginRequired => origin = None ∧ missing = false
  | _ => False
  end.

Lemma allowed_iff f e entries set a n : collect f e entries = Ok set → f a = Some n →
  n ∈ set ↔ allowed f entries a.
Proof.
  intros Hc Ha. rewrite (collected _ _ _ _ _ Hc). unfold allowed, same. rewrite Ha.
  split; intros (x & ? & H); exists x; [split_and!; [done|by rewrite H|done]|]. by destruct H as [<- _].
Qed.
Lemma decided hosts origins missing p host origin : new hosts origins missing = Ok p →
  match validate_request p host origin with
  | Ok _ => (∃ h, host = Some h ∧ allowed normalize_host hosts h) ∧
            match origin with Some o => allowed normalize_origin origins o | None => missing = true end
  | Err e => refused hosts origins missing host origin e
  end.
Proof.
  intros Hp. unfold new in Hp. inv_ok Hp. injection Hp as <-. rename E into Eh, E0 into Eo.
  unfold validate_request. destruct (host ≫= normalize_host) as [n|] eqn:En; [|done].
  apply bind_Some in En as (h & -> & En). cbn [ok_or mbind Result_bind allowed_hosts allowed_origins].
  destruct (decide (n ∈ x)) as [Hin|Hin]; rewrite ?(bool_decide_eq_true_2 _ Hin), ?(bool_decide_eq_false_2 _ Hin).
  2: { simpl. split; [done|]. by rewrite <-(collected _ _ _ _ _ Eh). }
  rewrite (allowed_iff _ _ _ _ _ _ Eh En) in Hin. cbn [negb fail_if mbind Result_bind].
  destruct origin as [o|]; simpl; [|destruct missing; [split; [by exists h|done]|done]].
  destruct (normalize_origin o) as [m|] eqn:Em; simpl; [|done].
  case_bool_decide as Hm.
  - rewrite (allowed_iff _ _ _ _ _ _ Eo Em) in Hm. split; [by exists h|done].
  - rewrite (collected _ _ _ _ _ Eo) in Hm. done.
Qed.

Lemma validate_Ok hosts origins missing p host origin : new hosts origins missing = Ok p →
  validate_request p host origin = Ok () ↔
    (∃ h, host = Some h ∧ allowed normalize_host hosts h) ∧
    match origin with Some o => allowed normalize_origin origins o | None => missing = true end.
Proof.
  intros Hp. pose proof (decided _ _ _ _ host origin Hp) as Hd.
  destruct (validate_request p host origin) as [[]|e]; [done|]. split; [done|].
  intros [(h & -> & x & Hx & Hsame & [n Hn]) Ho].
  unfold refused in Hd. simpl in Hd. rewrite Hn in Hd.
  assert (normalize_host x = Some n) as Hxn by by rewrite <-Hsame.
  destruct e; try done.
  - destruct Hd as [[= <-] Hd]. destruct Hd. by exists x.
  - destruct origin as [o|]; [|by destruct Hd]. destruct Ho as (y & Hy & Hsame' & [m Hm]).
    destruct Hd as [Hd1 Hd]. destruct Hd. exists y. split; [done|]. by rewrite <-Hsame'.
  - destruct Hd as [-> Hd]. by rewrite Ho in Hd.
  - destruct Hd as [-> Hd]. destruct Ho as (y & Hy & _ & Hsome). rewrite Hd in Hsome. by apply is_Some_None in Hsome.
Qed.
Lemma allowed_normal f entries a :
  allowed f entries a ↔ ∃ n, f a = Some n ∧ ∃ x, x ∈ entries ∧ f x = Some n.
Proof.
  unfold allowed, same. split.
  - intros (x & Hx & Hs & [n Hn]). exists n. split; [done|]. exists x. by rewrite <-Hs.
  - intros (n & Hn & x & Hx & Hs). exists x. rewrite Hn, Hs. by split_and!.
Qed.

(** C38: a policy decides exactly.  It is built if and only if every configured
    host and origin normalizes, and the error names the list that does not; it
    lets a request through exactly when its [Host] is a spelling of a configured
    host and its [Origin] is a spelling of a configured origin, or is missing
    where that is allowed; every refusal carries the reason that holds of the
    request, and the two header errors of the transport are never answered. *)
Theorem policy_exact hosts origins missing :
  (new hosts origins missing = Err PolicyError.InvalidHost ↔
     ∃ h, h ∈ hosts ∧ normalize_host h = None) ∧
  (new hosts origins missing = Err PolicyError.InvalidOrigin ↔
     Forall (λ h, is_Some (normalize_host h)) hosts ∧ ∃ o, o ∈ origins ∧ normalize_origin o = None) ∧
  new hosts origins missing ≠ Err PolicyError.InvalidPort ∧
  ∀ p, new hosts origins missing = Ok p → ∀ host origin,
    (validate_request p host origin = Ok () ↔
       (∃ h, host = Some h ∧ allowed normalize_host hosts h) ∧
       match origin with Some o => allowed normalize_origin origins o | None => missing = true end) ∧
    (∀ e, validate_request p host origin = Err e → refused hosts origins missing host origin e).
Proof.
  assert (∀ e, new hosts origins missing = Err e ↔
    collect normalize_host PolicyError.InvalidHost hosts = Err e ∨
    (∃ set, collect normalize_host PolicyError.InvalidHost hosts = Ok set) ∧
      collect normalize_origin PolicyError.InvalidOrigin origins = Err e) as Hnew.
  { intros e. unfold new. destruct (collect normalize_host _ hosts) as [set|e'] eqn:Eh; simpl;
      [|split; [intros [= ->]; by left|by intros [[= ->]|[[? ?] _]]]].
    destruct (collect normalize_origin _ origins) as [set'|e'] eqn:Eo; simpl;
      [split; [done|by intros [?|[_ ?]]]|].
    split; [intros [= ->]; right; split; [by eexists|done]|by intros [?|[_ [= ->]]]]. }
  split_and!.
  - rewrite Hnew, !collect_Err. naive_solver.
  - rewrite Hnew, !collect_Err. setoid_rewrite collect_Ok. naive_solver.
  - rewrite Hnew, !collect_Err. by intros [[? _]|[_ [? _]]].
  - intros p Hp host origin. split; [by apply validate_Ok|]. intros e He.
    pose proof (decided _ _ _ _ host origin Hp) as Hd. by rewrite He in Hd.
Qed.

(** Whether a policy is built and lets a request through. *)
Definition lets_through (policy : Result PolicyError.t TransportSecurityPolicy) (host origin : bytes) : bool :=
  match policy with Ok p => is_ok (validate_request p (Some host) (Some origin)) | Err _ => false end.
Lemma lets_through_Ok policy host origin : lets_through policy host origin = true →
  ∃ p, policy = Ok p ∧ validate_request p (Some host) (Some origin) = Ok ().
Proof.
  destruct policy as [p|]; [|done]. simpl. intros H. exists p. split; [done|].
  by destruct (validate_request p (Some host) (Some origin)) as [[]|].
Qed.

Lemma policy_exact_witness :
  ∃ p, new [bs "Example.COM.:443"] [bs "HTTPS://[0:0:0:0:0:0:0:1]"] false = Ok p ∧
    validate_request p (Some (bs "EXAMPLE.com:0443")) (Some (bs "https://[::1]")) = Ok () ∧
    allowed normalize_host [bs "Example.COM.:443"] (bs "EXAMPLE.com:0443").
Proof.
  destruct (lets_through_Ok (new [bs "Example.COM.:443"] [bs "HTTPS://[0:0:0:0:0:0:0:1]"] false)
    (bs "EXAMPLE.com:0443") (bs "https://[::1]") ltac:(vm_compute; reflexivity)) as (p & E & Hok).
  exists p. split; [exact E|].
  destruct (policy_exact [bs "Example.COM.:443"] [bs "HTTPS://[0:0:0:0:0:0:0:1]"] false) as (_ & _ & _ & H).
  destruct (H p E (Some (bs "EXAMPLE.com:0443")) (Some (bs "https://[::1]"))) as [[Hv _] _].
  split; [exact Hok|]. destruct (Hv Hok) as [(h & Hh & Ha) _]. injection Hh as <-. exact Ha.
Defined.

Lemma and_iff (P P' Q Q' : Prop) : (P ↔ P') → (Q ↔ Q') → (P ∧ Q) ↔ (P' ∧ Q').
Proof. tauto. Qed.
Lemma localhost_names port : (0 < port ≤ 65535)%N →
  normalize_host (bs "localhost:" ++ print_N port) = Some (bs "localhost:" ++ print_N port) ∧
  normalize_host (bs "127.0.0.1:" ++ print_N port) = Some (bs "127.0.0.1:" ++ print_N port) ∧
  normalize_host (bs "[::1]:" ++ print_N port) = Some (bs "[::1]:" ++ print_N port).
Proof.
  intros Hp. assert (canonical_port (port_text port)) as Hc by (right; by eexists). split_and!.
  - refine (named_fixed (bs "localhost") (port_text port) _ Hc).
    split_and!; [by repeat constructor|by apply contains_char_false|done|by vm_compute|right; by vm_compute].
  - refine (named_fixed (print_ipv4 (mkV4 127 0 0 1)) (port_text port) _ Hc). by apply print_ipv4_name.
  - refine (bracketed_fixed [0; 0; 0; 0; 0; 0; 0; 1]%N (port_text port) _ Hc).
    split; [done|]. by repeat constructor.
Qed.

(** The policy of a local listener.  It cannot be built for port zero and is
    for every other port; it then lets a request through exactly when its [Host]
    is a spelling of [localhost], [127.0.0.1] or [[::1]] with that very port and
    its [Origin] is [http] on such a host, or is missing where that is allowed. *)
Theorem localhost_policy_exact port missing :
  localhost 0 missing = Err PolicyError.InvalidPort ∧
  ((0 < port ≤ 65535)%N → ∃ p, localhost port missing = Ok p ∧ ∀ host origin,
    let local n := ∃ name, name ∈ [bs "localhost"; bs "127.0.0.1"; bs "[::1]"] ∧
                     n = name ++ bs ":" ++ print_N port in
    validate_request p host origin = Ok () ↔
      (∃ h n, host = Some h ∧ normalize_host h = Some n ∧ local n) ∧
      match origin with
      | Some o => ∃ n, normalize_origin o = Some (bs "http://" ++ n) ∧ local n
      | None => missing = true
      end).
Proof.
  split; [done|]. intros Hp. destruct (localhost_names _ Hp) as (H1 & H2 & H3).
  set (hosts := [bs "localhost:" ++ print_N port; bs "127.0.0.1:" ++ print_N port; bs "[::1]:" ++ print_N port]).
  set (origins := app (bs "http://") <$> hosts).
  assert (∀ n, normalize_origin (bs "http://" ++ n) = app (bs "http://") <$> normalize_host n) as Ho
    by (intros n; apply scheme_origin; by left).
  assert (localhost port missing = new hosts origins missing) as Hl
    by (unfold localhost; by rewrite (proj2 (N.eqb_neq _ _)) by lia).
  assert (Forall (λ x, normalize_host x = Some x) hosts) as Hfixed by by repeat constructor.
  destruct (new_builds hosts origins missing) as [p Enew].
  { eapply Forall_impl; [exact Hfixed|]. intros x ->. by eexists. }
  { apply Forall_fmap. eapply Forall_impl; [exact Hfixed|]. intros x Hx.
    change (is_Some (normalize_origin (bs "http://" ++ x))). rewrite Ho, Hx. by eexists. }
  rewrite Hl.
  exists p. split; [done|]. intros host origin local.
  assert (∀ n, (∃ x, x ∈ hosts ∧ normalize_host x = Some n) ↔ local n) as Hlocal.
  { intros n. assert (local n ↔ n ∈ hosts) as ->.
    { change hosts with ((λ name, name ++ bs ":" ++ print_N port) <$> [bs "localhost"; bs "127.0.0.1"; bs "[::1]"]).
      rewrite list_elem_of_fmap. unfold local. naive_solver. }
    rewrite Forall_forall in Hfixed. split; [intros (x & Hx & Hn)|intros Hn; exists n; auto].
    rewrite (Hfixed _ Hx) in Hn. by injection Hn as <-. }
  assert (∀ o n, normalize_origin o = Some n →
    (∃ x, x ∈ origins ∧ normalize_origin x = Some n) ↔ ∃ m, n = bs "http://" ++ m ∧ local m) as Horigin.
  { intros o n _. unfold origins. setoid_rewrite list_elem_of_fmap. split.
    - intros (x & (h & -> & Hh) & Hn). rewrite Ho in Hn. destruct (normalize_host h) as [m|] eqn:Em; [|done].
      injection Hn as <-. exists m. split; [done|]. apply Hlocal. by exists h.
    - intros (m & -> & (h & Hh & Hn)%Hlocal). exists (bs "http://" ++ h). split; [by exists h|].
      by rewrite Ho, Hn. }
  rewrite (validate_Ok _ _ _ _ _ _ Enew). apply and_iff.
  - setoid_rewrite allowed_normal. setoid_rewrite Hlocal. naive_solver.
  - destruct origin as [o|]; [|done]. rewrite allowed_normal. split.
    + intros (n & Hn & Hx). apply (Horigin o n Hn) in Hx as (m & -> & ?). by exists m.
    + intros (m & Hm & Hl'). exists (bs "http://" ++ m). split; [done|]. apply (Horigin o _ Hm). by exists m.
Qed.

Lemma localhost_policy_exact_witness :
  ∃ p, localhost 8000 false = Ok p ∧
    validate_request p (Some (bs "LOCALHOST.:08000")) (Some (bs "HTTP://[::1]:8000")) = Ok () ∧
    ∃ n, normalize_host (bs "LOCALHOST.:08000") = Some n.
Proof.
  destruct (lets_through_Ok (localhost 8000 false) (bs "LOCALHOST.:08000") (bs "HTTP://[::1]:8000")
    ltac:(vm_compute; reflexivity)) as (p & E & Hv).
  exists p. split; [exact E|]. split; [exact Hv|].
  destruct (proj2 (localhost_policy_exact 8000 false) ltac:(lia)) as (p' & Hp & H).
  assert (p' = p) as -> by (rewrite E in Hp; injection Hp as ->; reflexivity).
  apply H in Hv as [(h & n & Hh & Hn & _) _]. injection Hh as <-. exists n. exact Hn.
Defined.

Lemma normal_forms_canonical_witness :
  normalize_host (bs "[2001:DB8:0:0:1::]:080") = Some (bs "[2001:db8:0:0:1::]:80") ∧
  normalize_host (bs "[2001:db8:0:0:1::]:80") = Some (bs "[2001:db8:0:0:1::]:80").
Proof.
  assert (normalize_host (bs "[2001:DB8:0:0:1::]:080") = Some (bs "[2001:db8:0:0:1::]:80")) as H
    by (vm_compute; reflexivity).
  split; [exact H|]. exact (proj1 (proj1 normal_forms_canonical _ _ H)).
Defined.
End HostPolicy.
