(* ===== verification/BoundedProcess.v ===== *)
(** * Bounded child processes

    [src/src/bounded_process.rs]: configuration bounds, the bounded reader, the
    supervisor's select loop and the authoritative cleanup, and
    [src/src/android_provider.rs], its zero-argument adapter.

    The operating system and the timer are seen through observations: what each
    [read] of a pipe returned, which futures were ready at each poll of the
    [select!], and what the reaping calls returned and when.  Durations and
    instants are nanoseconds; an instant also stands for a [Duration] since the
    process started. *)

From S2P Require Import Prelude.

Module BoundedProcess.

Definition millis (n : N) : N := n * 1000000.
Definition MIN_PROCESS_CLEANUP_RESERVE : N := millis 1.
Definition MAX_PROCESS_CLEANUP_RESERVE : N := millis 250.
Definition MIN_PROVIDER_TIMEOUT : N := millis 4.
Definition MAX_BOUNDED_PROCESS_TIMEOUT : N := millis 5000.
Definition MAX_BOUNDED_PROCESS_STDOUT_BYTES : N := 16 * 1024.
Definition MAX_BOUNDED_PROCESS_STDERR_BYTES : N := 4 * 1024.

Inductive BoundedProcessError :=
| ProgramUnavailable
| SpawnFailed
| WaitFailed
| TimedOut
| StdoutLimitExceeded
| StderrLimitExceeded
| ProgramFailed.

Inductive BoundedProcessConfigError :=
| TimeoutTooShort
| TimeoutTooLong
| StdoutLimitTooLarge
| StderrLimitTooLarge.

#[global] Instance process_error_eq_dec : EqDecision BoundedProcessError.
Proof. solve_decision. Defined.

(** The inherited descriptor is kept as its number. *)
Record BoundedProcess := mkProcess {
  program : bytes;
  arguments : list bytes;
  environment : list (bytes * bytes);
  working_directory : bytes;
  timeout : N;
  max_stdout_bytes : N;
  max_stderr_bytes : N;
  inherited_descriptor : option N;
}.

Record BoundedProcessOutput := mkOutput {
  stdout : bytes;
  stderr : bytes;
  duration : N;
}.

Record BoundedChildContext := mkContext {
  c_environment : list (bytes * bytes);
  c_inherited_descriptor : option N;
}.

Definition with_inherited_descriptor (environment : list (bytes * bytes)) (descriptor : N)
    : BoundedChildContext :=
  mkContext environment (Some descriptor).

(** ** Construction *)

Definition new_inner (program : bytes) (arguments : list bytes) (working_directory : bytes)
    (timeout max_stdout max_stderr : N) (context : BoundedChildContext)
    : Result BoundedProcessConfigError BoundedProcess :=
  _ ← fail_if (timeout <? MIN_PROVIDER_TIMEOUT)%N TimeoutTooShort;
  _ ← fail_if (MAX_BOUNDED_PROCESS_TIMEOUT <? timeout)%N TimeoutTooLong;
  _ ← fail_if (MAX_BOUNDED_PROCESS_STDOUT_BYTES <? max_stdout)%N StdoutLimitTooLarge;
  _ ← fail_if (MAX_BOUNDED_PROCESS_STDERR_BYTES <? max_stderr)%N StderrLimitTooLarge;
  Ok (mkProcess program arguments (c_environment context) working_directory timeout max_stdout
        max_stderr (c_inherited_descriptor context)).

Definition new_with_fixed_environment (program : bytes) (arguments : list bytes)
    (working_directory : bytes) (timeout max_stdout max_stderr : N)
    (environment : list (bytes * bytes)) : Result BoundedProcessConfigError BoundedProcess :=
  new_inner program arguments working_directory timeout max_stdout max_stderr
    (mkContext environment None).

Definition process_new (program : bytes) (arguments : list bytes) (working_directory : bytes)
    (timeout max_stdout max_stderr : N) : Result BoundedProcessConfigError BoundedProcess :=
  new_with_fixed_environment program arguments working_directory timeout max_stdout max_stderr [].

Definition new_with_child_context (program : bytes) (arguments : list bytes)
    (working_directory : bytes) (timeout max_stdout max_stderr : N)
    (context : BoundedChildContext) : Result BoundedProcessConfigError BoundedProcess :=
  new_inner program arguments working_directory timeout max_stdout max_stderr context.

(** [Ord::clamp]. *)
Definition clamp (x lo hi : N) : N := if (x <? lo)%N then lo else if (hi <? x)%N then hi else x.

Definition cleanup_reserve (self : BoundedProcess) : N :=
  clamp (timeout self / 4) MIN_PROCESS_CLEANUP_RESERVE MAX_PROCESS_CLEANUP_RESERVE.
Definition final_deadline (self : BoundedProcess) (started_at : N) : N := started_at + timeout self.
Definition operation_deadline (self : BoundedProcess) (started_at : N) : N :=
  final_deadline self started_at - cleanup_reserve self.

(** ** The bounded reader *)

Inductive BoundedRead := Complete (b : bytes) | LimitExceeded.

(** One completed [read]: the bytes it put in the chunk (none at the end of the
    stream) and whether the reservation for them succeeds, or an error. *)
Inductive ReadEvent := Read (chunk : bytes) (reserved : bool) | ReadError.

(** [None]: the reads so far leave the future pending. *)
Fixpoint read_loop (limit : N) (acc : bytes) (reads : list ReadEvent)
    : option (Result BoundedProcessError BoundedRead) :=
  match reads with
  | [] => None
  | ReadError :: _ => Some (Err WaitFailed)
  | Read chunk reserved :: reads =>
    if bytes_eqb chunk [] then Some (Ok (Complete acc))
    else
      let remaining := (limit - N.of_nat (length acc))%N in
      if (remaining <? N.of_nat (length chunk))%N then Some (Ok LimitExceeded)
      else if negb reserved then Some (Err WaitFailed)
      else read_loop limit (acc ++ chunk) reads
  end.

Definition read_bounded (reads : list ReadEvent) (limit : N)
    : option (Result BoundedProcessError BoundedRead) :=
  read_loop limit [] reads.

(** ** The supervisor's loop *)

Inductive SupervisorTerminal :=
| TComplete (stdout stderr : bytes)
| TFailure (error : BoundedProcessError)
| TCancelled.

Inductive WaitEvent := Exited (success : bool) | WaitError.

(** One poll of the [select!]: whether the cancellation and deadline futures are
    ready, the reads either pipe has completed by now, and the child's status. *)
Record Poll := mkPoll {
  cancellation : bool;
  deadline : bool;
  stdout_reads : list ReadEvent;
  stderr_reads : list ReadEvent;
  child_wait : option WaitEvent;
}.

Record LoopState := mkLoop {
  stdout_bytes : option bytes;
  stderr_bytes : option bytes;
  child_succeeded : bool;
}.

Definition loop_start : LoopState := mkLoop None None false.

(** The check at the head of the loop. *)
Definition completed (st : LoopState) : option SupervisorTerminal :=
  match child_succeeded st, stdout_bytes st, stderr_bytes st with
  | true, Some out, Some err => Some (TComplete out err)
  | _, _, _ => None
  end.

(** The stdout and stderr arms; [None]: the arm is disabled or not ready. *)
Definition read_arm (taken : option bytes) (reads : list ReadEvent) (limit : N)
    (limit_error : BoundedProcessError) (store : bytes → LoopState)
    : option (LoopState + SupervisorTerminal) :=
  if bool_decide (taken = None)
  then match read_bounded reads limit with
       | None => None
       | Some (Ok (Complete b)) => Some (inl (store b))
       | Some (Ok LimitExceeded) => Some (inr (TFailure limit_error))
       | Some (Err e) => Some (inr (TFailure e))
       end
  else None.

Definition child_arm (st : LoopState) (p : Poll) : option (LoopState + SupervisorTerminal) :=
  if child_succeeded st then None
  else match child_wait p with
       | None => None
       | Some (Exited true) => Some (inl (mkLoop (stdout_bytes st) (stderr_bytes st) true))
       | Some (Exited false) => Some (inr (TFailure ProgramFailed))
       | Some WaitError => Some (inr (TFailure WaitFailed))
       end.

(** The biased [select!]: the first ready arm is taken; with none ready the loop
    state is unchanged until the next poll. *)
Definition select (max_out max_err : N) (st : LoopState) (p : Poll)
    : LoopState + SupervisorTerminal :=
  if cancellation p then inr TCancelled
  else if deadline p then inr (TFailure TimedOut)
  else match read_arm (stdout_bytes st) (stdout_reads p) max_out StdoutLimitExceeded
               (λ b, mkLoop (Some b) (stderr_bytes st) (child_succeeded st)) with
       | Some r => r
       | None =>
         match read_arm (stderr_bytes st) (stderr_reads p) max_err StderrLimitExceeded
                 (λ b, mkLoop (stdout_bytes st) (Some b) (child_succeeded st)) with
         | Some r => r
         | None => default (inl st) (child_arm st p)
         end
       end.

(** [None]: the loop still waits after these polls. *)
Fixpoint supervise_loop (max_out max_err : N) (st : LoopState) (polls : list Poll)
    : option SupervisorTerminal :=
  match completed st with
  | Some t => Some t
  | None =>
    match polls with
    | [] => None
    | p :: polls =>
      match select max_out max_err st p with
      | inl st => supervise_loop max_out max_err st polls
      | inr t => Some t
      end
    end
  end.

(** ** Cleanup *)

(** What the source asks of the kernel. *)
Inductive Effect := KillProcessGroup (pid : N) | StartKill.

#[global] Instance effect_eq_dec : EqDecision Effect.
Proof. solve_decision. Defined.

Record ProcessGroupGuard := mkGuard { process_group : N; armed : bool }.
Definition guard_new (pid : N) : ProcessGroupGuard := mkGuard pid true.
Definition terminate (g : ProcessGroupGuard) : list Effect := [KillProcessGroup (process_group g)].
Definition disarm (g : ProcessGroupGuard) : ProcessGroupGuard := mkGuard (process_group g) false.
Definition guard_drop (g : ProcessGroupGuard) : list Effect :=
  if armed g then terminate g else [].

Inductive CleanupOutcome := ReapedWithinDeadline | ReapedAfterDeadline | ReapFailed.

#[global] Instance cleanup_outcome_eq_dec : EqDecision CleanupOutcome.
Proof. solve_decision. Defined.

(** [child.wait()] under the final deadline, and after it. *)
Inductive TimedWait := WaitOk | WaitErr | WaitElapsed (then_ok : bool).

Record Reap := mkReap {
  now_after_kill : N;
  try_wait_exited : bool;
  timed_wait : TimedWait;
  now_after_reap : N;
}.

Definition terminate_process_group_and_reap (g : ProcessGroupGuard) (r : Reap) (final : N)
    : list Effect * ProcessGroupGuard * CleanupOutcome :=
  let killed := terminate g in
  let within := (now_after_kill r <=? final)%N in
  let '(started, within, reaped) :=
    if try_wait_exited r then ([], within, true)
    else match timed_wait r with
         | WaitOk => ([StartKill], within, true)
         | WaitErr => ([StartKill], within, false)
         | WaitElapsed then_ok => ([StartKill], false, then_ok)
         end in
  if reaped
  then (killed ++ started, disarm g,
        if within && (now_after_reap r <=? final)%N
        then ReapedWithinDeadline else ReapedAfterDeadline)
  else (killed ++ started, g, ReapFailed).

Definition result_of (t : SupervisorTerminal) : Result BoundedProcessError BoundedProcessOutput :=
  match t with
  | TComplete out err => Ok (mkOutput out err 0)
  | TFailure error => Err error
  | TCancelled => Err WaitFailed
  end.

(** [supervise_process], with the guard's drop at its end. *)
Definition supervise_process (self : BoundedProcess) (started_at : N) (g : ProcessGroupGuard)
    (polls : list Poll) (r : Reap)
    : option (list Effect * Result BoundedProcessError BoundedProcessOutput) :=
  terminal ← supervise_loop (max_stdout_bytes self) (max_stderr_bytes self) loop_start polls;
  let '(effects, g, outcome) :=
    terminate_process_group_and_reap g r (final_deadline self started_at) in
  let result := if bool_decide (outcome = ReapedWithinDeadline)
                then result_of terminal else Err WaitFailed in
  Some (effects ++ guard_drop g, result).

(** ** Running *)

(** What [spawn] returned: an error (and whether its kind is [NotFound]), or a
    child with its process id and whether its pipes are there. *)
Inductive Spawn :=
| SpawnError (not_found : bool)
| Spawned (id : option N) (has_stdout has_stderr : bool).

Record Observation := mkObservation {
  started_at : N;
  spawn : Spawn;
  polls : list Poll;
  reap : Reap;
  joined : bool;
  finished_at : N;
}.

(** [i32::try_from] and [Pid::from_raw], which refuses 0. *)
Definition pid_of (id : N) : option N :=
  if (id <=? 2147483647)%N && negb (id =? 0)%N then Some id else None.

Definition run_inner (self : BoundedProcess) (o : Observation)
    : option (list Effect * Result BoundedProcessError BoundedProcessOutput) :=
  match spawn o with
  | SpawnError not_found => Some ([], Err (if not_found then ProgramUnavailable else SpawnFailed))
  | Spawned id has_stdout has_stderr =>
    match id ≫= pid_of with
    | None => Some ([], Err SpawnFailed)
    | Some pid =>
      let g := guard_new pid in
      if negb has_stdout || negb has_stderr then Some (guard_drop g, Err SpawnFailed)
      else
        '(effects, result) ← supervise_process self (started_at o) g (polls o) (reap o);
        Some (effects,
          if joined o
          then output ← result;
               Ok (mkOutput (stdout output) (stderr output) (finished_at o - started_at o))
          else Err WaitFailed)
    end
  end.

(** ** The Android provider adapter *)

Module Provider.

Inductive AndroidProviderError :=
| ProgramUnavailable
| SpawnFailed
| WaitFailed
| TimedOut
| StdoutLimitExceeded
| StderrLimitExceeded
| ProgramFailed.

Inductive AndroidProviderConfigError := TimeoutTooShort | BoundsTooLarge.

Definition from_process_error (e : BoundedProcessError) : AndroidProviderError :=
  match e with
  | BoundedProcess.ProgramUnavailable => ProgramUnavailable
  | BoundedProcess.SpawnFailed => SpawnFailed
  | BoundedProcess.WaitFailed => WaitFailed
  | BoundedProcess.TimedOut => TimedOut
  | BoundedProcess.StdoutLimitExceeded => StdoutLimitExceeded
  | BoundedProcess.StderrLimitExceeded => StderrLimitExceeded
  | BoundedProcess.ProgramFailed => ProgramFailed
  end.

Definition from_config_error (e : BoundedProcessConfigError) : AndroidProviderConfigError :=
  match e with
  | BoundedProcess.TimeoutTooShort => TimeoutTooShort
  | TimeoutTooLong | StdoutLimitTooLarge | StderrLimitTooLarge => BoundsTooLarge
  end.

Definition provider_new (program : bytes) (timeout max_stdout max_stderr : N)
    : Result AndroidProviderConfigError BoundedProcess :=
  map_err from_config_error (process_new program [] (bs "/") timeout max_stdout max_stderr).

End Provider.

(** ** Lemmas *)

Definition within_bounds (timeout max_stdout max_stderr : N) : Prop :=
  (millis 4 ≤ timeout ≤ millis 5000)%N ∧ (max_stdout ≤ 16384)%N ∧ (max_stderr ≤ 4096)%N.

Lemma new_inner_Ok prog args wd t mo me ctx p :
  new_inner prog args wd t mo me ctx = Ok p ↔
  within_bounds t mo me ∧
  p = mkProcess prog args (c_environment ctx) wd t mo me (c_inherited_descriptor ctx).
Proof.
  unfold new_inner, within_bounds, fail_if, MIN_PROVIDER_TIMEOUT, MAX_BOUNDED_PROCESS_TIMEOUT,
    MAX_BOUNDED_PROCESS_STDOUT_BYTES, MAX_BOUNDED_PROCESS_STDERR_BYTES.
  repeat match goal with |- context [(?a <? ?b)%N] => destruct (N.ltb_spec a b) end; simpl;
    (split; [intros; simplify_eq; try (split; [lia|done])|intros [? ->]; try done; exfalso; lia]).
Qed.

(** A constructed process. *)
Definition process_ok (p : BoundedProcess) : Prop :=
  within_bounds (timeout p) (max_stdout_bytes p) (max_stderr_bytes p).

Lemma new_inner_ok prog args wd t mo me ctx p :
  new_inner prog args wd t mo me ctx = Ok p → process_ok p.
Proof. by intros [? ->]%new_inner_Ok. Qed.

(** Every constructed process keeps a real cleanup reserve: between 1 and 250
    milliseconds and at most a quarter of the timeout, so the operation deadline
    lies strictly between the start and the final deadline and the source's
    instant arithmetic cannot underflow. *)
Lemma cleanup_reserve_real p started :
  process_ok p →
  (millis 1 ≤ cleanup_reserve p ≤ millis 250)%N ∧ (4 * cleanup_reserve p ≤ timeout p)%N ∧
  (started < operation_deadline p started)%N ∧
  (operation_deadline p started + cleanup_reserve p = final_deadline p started)%N.
Proof.
  intros (Ht & _). unfold operation_deadline, final_deadline, cleanup_reserve, clamp, millis,
    MIN_PROCESS_CLEANUP_RESERVE, MAX_PROCESS_CLEANUP_RESERVE, millis in *.
  pose proof (N.Div0.mul_div_le (timeout p) 4).
  assert (1000000 ≤ timeout p / 4)%N by (apply N.div_le_lower_bound; lia).
  destruct (N.ltb_spec (timeout p / 4) (1 * 1000000)); [lia|].
  destruct (N.ltb_spec (250 * 1000000) (timeout p / 4)); lia.
Qed.

(** Completed reads of non-empty chunks. *)
Definition chunk_reads (chunks : list bytes) : list ReadEvent := (λ c, Read c true) <$> chunks.

Lemma read_loop_complete limit acc reads b :
  read_loop limit acc reads = Some (Ok (Complete b)) ↔
  ∃ chunks r rest, reads = chunk_reads chunks ++ Read [] r :: rest ∧
    Forall (λ c, c ≠ []) chunks ∧ b = acc ++ concat chunks ∧
    (chunks = [] ∨ N.of_nat (length b) ≤ limit)%N.
Proof.
  split.
  - revert acc; induction reads as [|[chunk r|] reads IH]; intros acc; simpl; [done| |done].
    destruct (bytes_eqb chunk []) eqn:E.
    + intros [= <-]. apply bytes_eqb_true in E as ->. exists [], r, reads. rewrite app_nil_r.
      split_and!; try done. by left.
    + destruct (N.ltb_spec (limit - N.of_nat (length acc)) (N.of_nat (length chunk))); [done|].
      destruct r; [|done]. intros H2. destruct (IH _ H2) as (chunks & r' & rest & -> & Hf & -> & Hl).
      apply bytes_eqb_false in E.
      exists (chunk :: chunks), r', rest. rewrite <-(assoc_L (++)). split_and!; try done.
      { by constructor. }
      right. destruct Hl as [->|Hl].
      * simpl. rewrite app_nil_r, length_app. destruct chunk; [done|]. simpl in *. lia.
      * by rewrite <-(assoc_L (++)) in Hl.
  - intros (chunks & r & rest & -> & Hf & -> & Hl).
    revert acc Hl; induction Hf as [|chunk chunks Hc Hf IH]; intros acc Hl; simpl.
    { by rewrite app_nil_r. }
    rewrite (proj2 (bytes_eqb_false _ _)) by done.
    destruct Hl as [|Hl]; [done|]. simpl in Hl. rewrite !length_app in Hl.
    destruct (N.ltb_spec (limit - N.of_nat (length acc)) (N.of_nat (length chunk))); [lia|].
    simpl. rewrite IH.
    + by rewrite (assoc_L (++)).
    + right. rewrite <-(assoc_L (++)), !length_app. lia.
Qed.

Lemma read_loop_acc limit acc reads b :
  (N.of_nat (length acc) ≤ limit)%N → read_loop limit acc reads = Some (Ok (Complete b)) →
  (N.of_nat (length b) ≤ limit)%N.
Proof.
  intros Ha (chunks & r & rest & _ & _ & -> & [->|?])%read_loop_complete; [|done].
  simpl. by rewrite app_nil_r.
Qed.

(** The bounded reader hands over a stream exactly when it ended within the
    limit: the bytes are all its chunks, in order. *)
Lemma read_bounded_complete limit reads b :
  read_bounded reads limit = Some (Ok (Complete b)) ↔
  ∃ chunks r rest, reads = chunk_reads chunks ++ Read [] r :: rest ∧
    Forall (λ c, c ≠ []) chunks ∧ b = concat chunks ∧ (N.of_nat (length b) ≤ limit)%N.
Proof.
  unfold read_bounded. split.
  - intros H. assert (N.of_nat (length b) ≤ limit)%N by (eapply read_loop_acc, H; simpl; lia).
    apply read_loop_complete in H as (chunks & r & rest & -> & Hf & -> & _). eauto 10.
  - intros (chunks & r & rest & -> & Hf & -> & Hl). apply read_loop_complete.
    exists chunks, r, rest. simpl. eauto.
Qed.

(** What a step of the loop that keeps waiting has learned. *)
Lemma select_waits max_out max_err st p st' :
  select max_out max_err st p = inl st' →
  cancellation p = false ∧ deadline p = false ∧
  (st' = st ∨
   (∃ b, stdout_bytes st = None ∧ read_bounded (stdout_reads p) max_out = Some (Ok (Complete b)) ∧
         st' = mkLoop (Some b) (stderr_bytes st) (child_succeeded st)) ∨
   (∃ b, stderr_bytes st = None ∧ read_bounded (stderr_reads p) max_err = Some (Ok (Complete b)) ∧
         st' = mkLoop (stdout_bytes st) (Some b) (child_succeeded st)) ∨
   (child_wait p = Some (Exited true) ∧
    st' = mkLoop (stdout_bytes st) (stderr_bytes st) true)).
Proof.
  unfold select, read_arm, child_arm. intros H.
  destruct (cancellation p); [done|]. destruct (deadline p); [done|].
  split_and!; [done..|].
  repeat (case_match; simplify_eq/=); reflect_guards; naive_solver.
Qed.

(** Where the parts of a completed run come from. *)
Definition learned {A} (polls : list Poll) (known : option A) (f : Poll → Prop) (a : A) : Prop :=
  known = Some a ∨ ∃ p, p ∈ polls ∧ f p.

Lemma supervise_loop_complete max_out max_err st polls out err :
  supervise_loop max_out max_err st polls = Some (TComplete out err) →
  ∃ before after, polls = before ++ after ∧
    Forall (λ p, cancellation p = false ∧ deadline p = false) before ∧
    learned before (stdout_bytes st)
      (λ p, read_bounded (stdout_reads p) max_out = Some (Ok (Complete out))) out ∧
    learned before (stderr_bytes st)
      (λ p, read_bounded (stderr_reads p) max_err = Some (Ok (Complete err))) err ∧
    learned before (if child_succeeded st then Some () else None)
      (λ p, child_wait p = Some (Exited true)) ().
Proof.
  unfold learned. revert st; induction polls as [|p polls IH]; intros st; cbn [supervise_loop];
    (destruct (completed st) as [t|] eqn:Hc;
     [intros [= ->]; unfold completed in Hc; exists []; eexists; split_and!; [done|constructor|..];
      left; repeat (case_match; simplify_eq/=); done|]); [done|].
  destruct (select max_out max_err st p) as [st'|t] eqn:Hs.
  - intros H. apply select_waits in Hs as (H1 & H2 & Hs).
    destruct (IH _ H) as (before & after & -> & Hf & Ho & He & Hw).
    exists (p :: before), after. split_and!; [done|by constructor|..];
      setoid_rewrite elem_of_cons;
      destruct Hs as [->|[(b & Hb & Hr & ->)|[(b & Hb & Hr & ->)|(Hw' & ->)]]]; simpl in *;
      naive_solver.
  - intros [= ->]. unfold select, read_arm, child_arm in Hs.
    repeat (case_match; simplify_eq/=).
Qed.

(** Once the operation deadline (or the caller's cancellation) is seen, the loop
    has ended. *)
Lemma supervise_loop_terminates max_out max_err st polls :
  Exists (λ p, deadline p || cancellation p = true) polls →
  is_Some (supervise_loop max_out max_err st polls).
Proof.
  intros H. revert st; induction H as [p polls Hp|p polls _ IH]; intros st; cbn [supervise_loop];
    (destruct (completed st); [done|]).
  - unfold select. by destruct (cancellation p), (deadline p).
  - destruct (select max_out max_err st p); [apply IH|done].
Qed.

Lemma cleanup_spec g r final effects g' outcome :
  terminate_process_group_and_reap g r final = (effects, g', outcome) →
  (effects = [KillProcessGroup (process_group g)] ∨
   effects = [KillProcessGroup (process_group g); StartKill]) ∧
  process_group g' = process_group g ∧
  (outcome ≠ ReapFailed → armed g' = false) ∧
  (outcome = ReapedWithinDeadline → (now_after_kill r ≤ final ∧ now_after_reap r ≤ final)%N ∧
     (try_wait_exited r = true ∨ timed_wait r = WaitOk)).
Proof.
  unfold terminate_process_group_and_reap. intros H.
  destruct (try_wait_exited r), (timed_wait r) as [| |[]];
    simplify_eq/=; split_and!; eauto; intros Ho; try done;
    repeat (case_match; simplify_eq/=); reflect_guards; try done; eauto.
Qed.

Lemma run_inner_Some p o effects result :
  run_inner p o = Some (effects, result) →
  match spawn o with
  | SpawnError not_found =>
    effects = [] ∧ result = Err (if not_found then ProgramUnavailable else SpawnFailed)
  | Spawned id has_stdout has_stderr =>
    match id ≫= pid_of with
    | None => effects = [] ∧ result = Err SpawnFailed
    | Some pid =>
      (negb has_stdout || negb has_stderr = true ∧ effects = [KillProcessGroup pid] ∧
       result = Err SpawnFailed) ∨
      (has_stdout = true ∧ has_stderr = true ∧
       ∃ res, supervise_process p (started_at o) (guard_new pid) (polls o) (reap o)
                = Some (effects, res) ∧
              result = if joined o
                       then output ← res;
                            Ok (mkOutput (stdout output) (stderr output)
                                  (finished_at o - started_at o))
                       else Err WaitFailed)
    end
  end.
Proof.
  unfold run_inner. destruct (spawn o) as [nf|id so se]; [naive_solver|].
  destruct (id ≫= pid_of) as [pid|]; [|naive_solver].
  destruct so, se; simpl; try naive_solver.
  destruct (supervise_process _ _ _ _ _) as [[eff res]|] eqn:E; simpl; [|done].
  intros [= <- <-]. right. eauto.
Qed.

Lemma pid_of_Some id pid : pid_of id = Some pid → pid = id ∧ (0 < pid ≤ 2147483647)%N.
Proof.
  unfold pid_of. destruct (N.leb_spec id 2147483647), (N.eqb_spec id 0); naive_solver lia.
Qed.

Lemma supervise_process_Some p started pid polls r effects res :
  supervise_process p started (guard_new pid) polls r = Some (effects, res) →
  ∃ t cleanup g outcome,
    supervise_loop (max_stdout_bytes p) (max_stderr_bytes p) loop_start polls = Some t ∧
    terminate_process_group_and_reap (guard_new pid) r (final_deadline p started)
      = (cleanup, g, outcome) ∧
    effects = cleanup ++ guard_drop g ∧
    res = (if bool_decide (outcome = ReapedWithinDeadline) then result_of t else Err WaitFailed).
Proof.
  unfold supervise_process. destruct (supervise_loop _ _ _ _) as [t|]; simpl; [|done].
  destruct (terminate_process_group_and_reap _ _ _) as [[cleanup g] outcome] eqn:E.
  intros [= <- <-]. eauto 10.
Qed.

(** A stream that ended within the limit, and its bytes. *)
Definition whole_stream (reads : list ReadEvent) (limit : N) (b : bytes) : Prop :=
  ∃ chunks r rest, reads = chunk_reads chunks ++ Read [] r :: rest ∧
    Forall (λ c, c ≠ []) chunks ∧ b = concat chunks ∧ (N.of_nat (length b) ≤ limit)%N.

(** ** Properties *)

(** C32: a bounded run succeeds only with everything in hand.  If it returns an
    output then, before the supervisor saw the deadline or a cancellation, both
    pipes ended within their limits and the child exited successfully; the output
    is exactly the two whole streams; and before the output was handed over the
    child's process group was killed and the child reaped, by the final deadline
    (the start plus the configured timeout). *)
Theorem run_ok_exact p o effects out :
  run_inner p o = Some (effects, Ok out) →
  ∃ pid before after,
    spawn o = Spawned (Some pid) true true ∧ (0 < pid ≤ 2147483647)%N ∧
    polls o = before ++ after ∧
    Forall (λ q, cancellation q = false ∧ deadline q = false) before ∧
    (∃ q, q ∈ before ∧ whole_stream (stdout_reads q) (max_stdout_bytes p) (stdout out)) ∧
    (∃ q, q ∈ before ∧ whole_stream (stderr_reads q) (max_stderr_bytes p) (stderr out)) ∧
    (∃ q, q ∈ before ∧ child_wait q = Some (Exited true)) ∧
    (effects = [KillProcessGroup pid] ∨ effects = [KillProcessGroup pid; StartKill]) ∧
    (now_after_reap (reap o) ≤ started_at o + timeout p)%N ∧
    (try_wait_exited (reap o) = true ∨ timed_wait (reap o) = WaitOk) ∧
    duration out = (finished_at o - started_at o)%N.
Proof.
  intros H. apply run_inner_Some in H. destruct (spawn o) as [nf|id so se]; [naive_solver|].
  destruct (id ≫= pid_of) as [pid|] eqn:Hid; [|naive_solver].
  destruct id as [id|]; [|done]. apply pid_of_Some in Hid as [-> Hpid].
  destruct H as [(_ & _ & ?)|(-> & -> & res & Hs & Hr)]; [done|].
  destruct (joined o); [|done]. destruct res as [out'|]; [|done]. injection Hr as ->.
  apply supervise_process_Some in Hs as (t & cleanup & g & outcome & Hl & Hc & -> & Hres).
  apply cleanup_spec in Hc as (Heff & Hg & Harmed & Hin).
  destruct (bool_decide_reflect (outcome = ReapedWithinDeadline)) as [->|]; [|done].
  destruct t as [sout serr|e|]; [|done..]. injection Hres as ->.
  destruct (Hin eq_refl) as ((_ & Hdl) & Hreap).
  apply supervise_loop_complete in Hl as (before & after & Hp & Hf & Ho & He & Hw).
  destruct Ho as [?|(q1 & ? & ?%read_bounded_complete)]; [done|].
  destruct He as [?|(q2 & ? & ?%read_bounded_complete)]; [done|].
  destruct Hw as [?|Hw]; [done|].
  exists id, before, after. unfold guard_drop. rewrite (Harmed ltac:(done)), app_nil_r.
  split_and!; eauto; lia.
Qed.

(** No child survives a run.  However the run ends (output, any error, a
    dropped caller), the first thing done to a spawned child is to kill its whole
    process group; nothing else is ever signalled than that group and the child,
    and the group is signalled again only if the child could not be reaped (once
    it is reaped the guard is disarmed, so a recycled group is never hit). *)
Theorem run_kills_own_group_only p o effects r id so se pid :
  run_inner p o = Some (effects, r) → spawn o = Spawned (Some id) so se → pid_of id = Some pid →
  ∃ rest, effects = KillProcessGroup pid :: rest ∧
    Forall (λ e, e = StartKill ∨ e = KillProcessGroup pid) rest ∧
    (KillProcessGroup pid ∈ rest →
     ∃ e g, terminate_process_group_and_reap (guard_new pid) (reap o)
              (final_deadline p (started_at o)) = (e, g, ReapFailed)).
Proof.
  intros H%run_inner_Some Hs Hpid. rewrite Hs in H. simpl in H. rewrite Hpid in H.
  destruct H as [(_ & -> & _)|(_ & _ & res & Hsp & _)].
  { exists []. split_and!; [done|done|]. by intros ?%elem_of_nil. }
  apply supervise_process_Some in Hsp as (t & cleanup & g & outcome & _ & Hc & -> & _).
  pose proof Hc as Hcl. apply cleanup_spec in Hc as (Heff & Hg & Harmed & _). simpl in *.
  destruct (decide (outcome = ReapFailed)) as [->|Hne].
  - exists (drop 1 cleanup ++ guard_drop g). split_and!.
    + by destruct Heff as [-> | ->].
    + unfold guard_drop, terminate. rewrite Hg.
      destruct Heff as [-> | ->], (armed g); simpl;
        rewrite ?Forall_cons, ?Forall_nil; naive_solver.
    + eauto.
  - exists (drop 1 cleanup). unfold guard_drop. rewrite (Harmed Hne), app_nil_r. split_and!.
    + by destruct Heff as [-> | ->].
    + destruct Heff as [-> | ->]; simpl; rewrite ?Forall_cons, ?Forall_nil; naive_solver.
    + destruct Heff as [-> | ->]; simpl; set_solver.
Qed.

(** Once the operation deadline is seen, or the caller is gone, the run ends:
    the child is killed and reaped and a result is there. *)
Theorem run_terminates p o :
  Exists (λ q, deadline q || cancellation q = true) (polls o) → is_Some (run_inner p o).
Proof.
  intros H. unfold run_inner. destruct (spawn o) as [nf|id so se]; [done|].
  destruct (id ≫= pid_of) as [pid|]; [|done]. destruct (negb so || negb se); [done|].
  unfold supervise_process.
  destruct (supervise_loop_terminates (max_stdout_bytes p) (max_stderr_bytes p) loop_start _ H)
    as [t ->]. simpl.
  by destruct (terminate_process_group_and_reap _ _ _) as [[? ?] ?].
Qed.

(** ** The interface the clients of bounded processes use *)

(** [BoundedProcess::run] in a world it may change. *)
Class ProcessRunner := {
  world : Type;
  run_process : BoundedProcess → world → world * Result BoundedProcessError BoundedProcessOutput;
}.

(** What the supervisor promises: an output never exceeds the process's limits. *)
Class ProcessRunnerLaws (R : ProcessRunner) : Prop := {
  run_process_bounded p w w' out :
    run_process p w = (w', Ok out) →
    (N.of_nat (length (stdout out)) ≤ max_stdout_bytes p)%N ∧
    (N.of_nat (length (stderr out)) ≤ max_stderr_bytes p)%N;
}.

(** The supervisor over a sequence of observations of the operating system, each
    of which reaches the deadline or an end ([run_terminates]). *)
Definition observed_runner : ProcessRunner := {|
  world := list Observation;
  run_process p w :=
    match w with
    | [] => ([], Err SpawnFailed)
    | o :: w => (w, default (Err WaitFailed) (snd <$> run_inner p o))
    end;
|}.

Lemma observed_runner_laws : ProcessRunnerLaws observed_runner.
Proof.
  constructor. intros p [|o w] w' out; cbn; [done|].
  destruct (run_inner p o) as [[effects r]|] eqn:E; simpl; [|done]. intros [= _ ->].
  apply run_ok_exact in E as (pid & before & after & _ & _ & _ & _ & Ho & He & _).
  destruct Ho as (? & _ & ? & ? & ? & _ & _ & _ & Ho), He as (? & _ & ? & ? & ? & _ & _ & _ & He).
  done.
Qed.

(** ** Witnesses *)

Definition example_process : BoundedProcess :=
  mkProcess (bs "/bin/echo") [bs "ok"] [] (bs "/") (millis 5000) 16 16 None.

(** The child writes "ok" in two reads, then exits; stderr is empty. *)
Definition example_observation : Observation := {|
  started_at := 7;
  spawn := Spawned (Some 42%N) true true;
  polls :=
    [mkPoll false false [Read (bs "o") true] [Read [] true] None;
     mkPoll false false [Read (bs "o") true; Read (bs "k") true; Read [] true] [Read [] true] None;
     mkPoll false false [Read (bs "o") true; Read (bs "k") true; Read [] true] [Read [] true]
       (Some (Exited true))];
  reap := mkReap (millis 20) true WaitOk (millis 21);
  joined := true;
  finished_at := millis 22;
|}.

Definition example_output : BoundedProcessOutput := mkOutput (bs "ok") [] (millis 22 - 7).

Lemma run_ok_exact_witness :
  run_inner example_process example_observation = Some ([KillProcessGroup 42], Ok example_output) ∧
  ∃ pid before after,
    spawn example_observation = Spawned (Some pid) true true ∧ (0 < pid ≤ 2147483647)%N ∧
    polls example_observation = before ++ after ∧
    Forall (λ q, cancellation q = false ∧ deadline q = false) before ∧
    (∃ q, q ∈ before ∧ whole_stream (stdout_reads q) 16 (bs "ok")) ∧
    (∃ q, q ∈ before ∧ whole_stream (stderr_reads q) 16 []) ∧
    (∃ q, q ∈ before ∧ child_wait q = Some (Exited true)) ∧
    ([KillProcessGroup 42] = [KillProcessGroup pid] ∨
     [KillProcessGroup 42] = [KillProcessGroup pid; StartKill]) ∧
    (now_after_reap (reap example_observation) ≤ 7 + millis 5000)%N ∧
    (try_wait_exited (reap example_observation) = true ∨
     timed_wait (reap example_observation) = WaitOk) ∧
    duration example_output = (millis 22 - 7)%N.
Proof.
  assert (run_inner example_process example_observation
    = Some ([KillProcessGroup 42], Ok example_output)) as H by (vm_compute; reflexivity).
  split; [exact H|exact (run_ok_exact _ _ _ _ H)].
Defined.

Lemma run_kills_own_group_only_witness :
  ∃ rest, [KillProcessGroup 42] = KillProcessGroup 42 :: rest ∧
    Forall (λ e, e = StartKill ∨ e = KillProcessGroup 42) rest ∧
    (KillProcessGroup 42 ∈ rest →
     ∃ e g, terminate_process_group_and_reap (guard_new 42) (reap example_observation)
              (final_deadline example_process (started_at example_observation))
            = (e, g, ReapFailed)).
Proof.
  apply (run_kills_own_group_only example_process example_observation [KillProcessGroup 42]
           (Ok example_output) 42%N true true 42%N); vm_compute; reflexivity.
Defined.

Lemma run_terminates_witness :
  is_Some (run_inner example_process
    (mkObservation 0 (Spawned (Some 42%N) true true) [mkPoll false true [] [] None]
       (mkReap 0 false (WaitElapsed true) 0) true 0)).
Proof. apply run_terminates. vm_compute. left. reflexivity. Defined.

End BoundedProcess.
