(* ===== verification/AndroidVolumeControl.v ===== *)
(** * Android volume status and control

    [src/src/android_volume.rs]: the six-stream status contract; and
    [src/src/android_volume_control.rs]: preview, the one-permit mutation lane and
    the verified set with its rollback.  The child processes run through the
    interface [ProcessRunner], the JSON parser through [HttpLib]. *)

From S2P Require Import Prelude RustStd Http RequestLimits BoundedProcess.
From S2P Require Import AndroidVolumeGrant.

(** [serde_json::Value::as_i64]. *)
Definition as_i64 (v : Json) : option Z :=
  match v with
  | JNumber (PosInt n) => if (n <=? 9223372036854775807)%N then Some (Z.of_N n) else None
  | JNumber (NegInt z) => Some z
  | _ => None
  end.
Definition as_str (v : Json) : option bytes :=
  match v with JString s => Some s | _ => None end.

Module VolumeStatus.
Import BoundedProcess.

Definition TERMUX_VOLUME_PROGRAM : bytes := bs "/data/data/com.termux/files/usr/bin/termux-volume".
Definition VOLUME_STATUS_TIMEOUT : N := millis 5000.
Definition MAX_VOLUME_STDOUT_BYTES : N := 8 * 1024.
Definition MAX_VOLUME_STDERR_BYTES : N := 4 * 1024.
Definition MAX_VOLUME_INDEX : Z := 10000.
Definition VOLUME_STREAM_NAMES : list bytes :=
  [bs "alarm"; bs "call"; bs "music"; bs "notification"; bs "ring"; bs "system"].

Record AndroidVolumeStream := mkStream {
  stream : bytes;
  volume : Z;
  max_volume : Z;
}.
Record AndroidVolumeStatus := mkStatus { streams : list AndroidVolumeStream }.

Inductive AndroidVolumeError :=
| ApiUnavailable
| ApiSpawnFailed
| ApiWaitFailed
| ApiTimedOut
| ApiStdoutLimitExceeded
| ApiStderrLimitExceeded
| ApiFailed
| InvalidUtf8
| InvalidJson
| InvalidField.

Definition status_reason_code (e : AndroidVolumeError) : bytes :=
  match e with
  | ApiUnavailable => bs "volume_api_unavailable"
  | ApiSpawnFailed => bs "volume_api_spawn_failed"
  | ApiWaitFailed => bs "volume_api_wait_failed"
  | ApiTimedOut => bs "volume_api_timeout"
  | ApiStdoutLimitExceeded => bs "volume_stdout_limit_exceeded"
  | ApiStderrLimitExceeded => bs "volume_stderr_limit_exceeded"
  | ApiFailed => bs "volume_api_failed"
  | InvalidUtf8 => bs "volume_output_invalid_utf8"
  | InvalidJson => bs "volume_output_invalid_json"
  | InvalidField => bs "volume_output_invalid_field"
  end.

Definition from_provider_error (e : Provider.AndroidProviderError) : AndroidVolumeError :=
  match e with
  | Provider.ProgramUnavailable => ApiUnavailable
  | Provider.SpawnFailed => ApiSpawnFailed
  | Provider.WaitFailed => ApiWaitFailed
  | Provider.TimedOut => ApiTimedOut
  | Provider.StdoutLimitExceeded => ApiStdoutLimitExceeded
  | Provider.StderrLimitExceeded => ApiStderrLimitExceeded
  | Provider.ProgramFailed => ApiFailed
  end.

(** ** Parsing *)

(** The keys [matches!] lists. *)
Definition entry_keys : list bytes := [bs "stream"; bs "volume"; bs "max_volume"].

(** One iteration of the loop, up to the insertion: the stream's name, volume and
    maximum.  A JSON object of the source has distinct keys. *)
Definition parse_entry (entry : Json) : Result AndroidVolumeError (bytes * (Z * Z)) :=
  object ← match entry with JObject object => Ok object | _ => Err InvalidField end;
  _ ← fail_if (negb (length object =? 3)
               || existsb (λ key, negb (contains entry_keys key)) object.*1) InvalidField;
  stream ← ok_or (v ← json_get (bs "stream") object; s ← as_str v;
                  if contains VOLUME_STREAM_NAMES s then Some s else None) InvalidField;
  volume ← ok_or (json_get (bs "volume") object ≫= as_i64) InvalidField;
  max_volume ← ok_or (json_get (bs "max_volume") object ≫= as_i64) InvalidField;
  _ ← fail_if (negb ((1 <=? max_volume)%Z && (max_volume <=? MAX_VOLUME_INDEX)%Z)
               || negb ((0 <=? volume)%Z && (volume <=? max_volume)%Z)) InvalidField;
  Ok (stream, (volume, max_volume)).

Abbreviation StreamMap := (gmap bytes (Z * Z)).

Fixpoint parse_entries (m : StreamMap) (entries : list Json) : Result AndroidVolumeError StreamMap :=
  match entries with
  | [] => Ok m
  | entry :: entries =>
    '(stream, levels) ← parse_entry entry;
    _ ← fail_if (bool_decide (is_Some (m !! stream))) InvalidField;
    parse_entries (<[stream := levels]> m) entries
  end.

(** The closing [map]: each canonical name is removed from the map.  [None] is
    the panic of [expect]; [canonical_total] shows it is unreachable. *)
Fixpoint canonical (names : list bytes) (m : StreamMap) : option (list AndroidVolumeStream) :=
  match names with
  | [] => Some []
  | name :: names =>
    '(volume, max_volume) ← m !! name;
    rest ← canonical names (delete name m);
    Some (mkStream name volume max_volume :: rest)
  end.

(** [parse_volume_status] on the parsed JSON value, up to the checked map. *)
Definition checked_streams (value : Json) : Result AndroidVolumeError StreamMap :=
  entries ← match value with JArray entries => Ok entries | _ => Err InvalidJson end;
  _ ← fail_if (negb (length entries =? length VOLUME_STREAM_NAMES)) InvalidField;
  m ← parse_entries ∅ entries;
  _ ← fail_if (negb (size m =? length VOLUME_STREAM_NAMES)) InvalidField;
  Ok m.

Definition parse_volume_value (value : Json) : Result AndroidVolumeError AndroidVolumeStatus :=
  m ← checked_streams value;
  streams ← ok_or (canonical VOLUME_STREAM_NAMES m) InvalidField;
  Ok (mkStatus streams).

Definition parse_volume_status `{HttpLib} (input : bytes)
    : Result AndroidVolumeError AndroidVolumeStatus :=
  value ← match json_from_slice input with Ok v => Ok v | Err _ => Err InvalidJson end;
  parse_volume_value value.

(** ** The client *)

Definition try_termux : Result () BoundedProcess :=
  map_err (λ _, ()) (Provider.provider_new TERMUX_VOLUME_PROGRAM VOLUME_STATUS_TIMEOUT
    MAX_VOLUME_STDOUT_BYTES MAX_VOLUME_STDERR_BYTES).

Section client.
Context {L : HttpLib} {R : ProcessRunner}.

(** [BoundedAndroidProvider::collect_stdout]. *)
Definition collect_stdout (provider : BoundedProcess) (w : world)
    : world * Result Provider.AndroidProviderError bytes :=
  let '(w, r) := run_process provider w in
  (w, map_err Provider.from_process_error (stdout <$> r)).

Definition collect (provider : BoundedProcess) (w : world)
    : world * Result AndroidVolumeError AndroidVolumeStatus :=
  let '(w, r) := collect_stdout provider w in
  (w, stdout ← map_err from_provider_error r;
      stdout ← ok_or (from_utf8 stdout) InvalidUtf8;
      parse_volume_status stdout).

End client.

(** ** Lemmas *)

(** The levels a stream may report. *)
Definition levels_ok (v mx : Z) : Prop := (1 ≤ mx ≤ MAX_VOLUME_INDEX)%Z ∧ (0 ≤ v ≤ mx)%Z.

Lemma parse_entry_Ok entry name v mx :
  parse_entry entry = Ok (name, (v, mx)) ↔
  ∃ object vj mxj, entry = JObject object ∧ length object = 3 ∧ Forall (.∈ entry_keys) object.*1 ∧
    json_get (bs "stream") object = Some (JString name) ∧ name ∈ VOLUME_STREAM_NAMES ∧
    json_get (bs "volume") object = Some vj ∧ as_i64 vj = Some v ∧
    json_get (bs "max_volume") object = Some mxj ∧ as_i64 mxj = Some mx ∧ levels_ok v mx.
Proof.
  unfold parse_entry, levels_ok. split.
  - intros H. inv_ok H. destruct entry as [| | | | |object]; simplify_eq.
    rename x into object. reflect_guards. simplify_eq.
    destruct (json_get (bs "stream") object) as [[| | |s| |]|] eqn:Es; simplify_eq/=.
    destruct (contains VOLUME_STREAM_NAMES s) eqn:En; simplify_eq/=.
    destruct (json_get (bs "volume") object) as [vj|] eqn:Ev; simplify_eq/=.
    destruct (json_get (bs "max_volume") object) as [mxj|] eqn:Em; simplify_eq/=.
    exists object, vj, mxj. apply contains_true in En. rewrite Z.leb_le in *.
    split_and!; try done. by apply existsb_not_contains.
  - intros (object & vj & mxj & -> & Hl & Hk & Hs & Hn & Hv & Hv' & Hm & Hm' & Hmx & Hvx).
    simpl. rewrite Hl, (proj2 (existsb_not_contains _ _) Hk), Hs, Hv, Hm. simpl.
    rewrite (proj2 (contains_true _ _) Hn), Hv', Hm'. simpl.
    by rewrite !(proj2 (Z.leb_le _ _)) by lia.
Qed.

Lemma parse_entries_Ok m entries m' :
  parse_entries m entries = Ok m' ↔
  ∃ l, parse_entry <$> entries = Ok <$> l ∧ NoDup l.*1 ∧ Forall (λ n, m !! n = None) l.*1 ∧
    m' = list_to_map l ∪ m.
Proof.
  revert m; induction entries as [|entry entries IH]; intros m; cbn [parse_entries].
  - split.
    + intros [= <-]. exists []. split_and!; [done|constructor..|by rewrite list_to_map_nil, (left_id_L ∅ _)].
    + intros (l & Hl & _ & _ & ->). symmetry in Hl. apply fmap_nil_inv in Hl as ->.
      by rewrite list_to_map_nil, (left_id_L ∅ _).
  - rewrite bind_Ok. split.
    + intros ([n lv] & He & H). apply bind_Ok in H as (u & Hu & H). reflect_guards.
      apply IH in H as (l & Hl & Hnd & Hf & ->).
      rewrite <-eq_None_not_Some in Hu.
      assert (n ∉ l.*1) as Hn.
      { intros Hin. rewrite Forall_forall in Hf. specialize (Hf n Hin).
        by rewrite lookup_insert_eq in Hf. }
      exists ((n, lv) :: l). cbn [fmap list_fmap fst]. split_and!.
      * by rewrite He, <-Hl.
      * by constructor.
      * constructor; [done|]. rewrite Forall_forall in Hf |- *. intros k Hk.
        specialize (Hf k Hk). rewrite lookup_insert_ne in Hf; [done|]. by intros ->.
      * by rewrite list_to_map_cons, <-insert_union_l, insert_union_r
          by (by apply not_elem_of_list_to_map_1).
    + intros ([|[n lv] l] & Hl & Hnd & Hf & ->); [done|].
      cbn [fmap list_fmap fst] in Hl, Hnd, Hf. injection Hl as He Hl.
      apply NoDup_cons in Hnd as [Hn Hnd]. apply Forall_cons in Hf as [Hm Hf].
      exists (n, lv). split; [done|]. apply bind_Ok. exists (). split.
      { apply fail_if_Ok, bool_decide_eq_false. rewrite Hm. by intros []. }
      apply IH. exists l. split_and!; [done..| |].
      * rewrite Forall_forall in Hf |- *. intros k Hk. rewrite lookup_insert_ne; [by apply Hf|].
        by intros ->.
      * by rewrite list_to_map_cons, <-insert_union_l, insert_union_r
          by (by apply not_elem_of_list_to_map_1).
Qed.

Lemma Forall_delete_stream (m : StreamMap) n ss :
  n ∉ stream <$> ss →
  Forall (λ s, delete n m !! stream s = Some (volume s, max_volume s)) ss ↔
  Forall (λ s, m !! stream s = Some (volume s, max_volume s)) ss.
Proof.
  induction ss as [|s ss IH]; [by split|]. cbn [fmap list_fmap].
  rewrite not_elem_of_cons, !Forall_cons. intros [Hn Hss].
  by rewrite lookup_delete_ne, IH.
Qed.

Lemma canonical_Some names m ss :
  NoDup names →
  canonical names m = Some ss ↔
  stream <$> ss = names ∧ Forall (λ s, m !! stream s = Some (volume s, max_volume s)) ss.
Proof.
  intros Hnd. split.
  - revert m ss; induction Hnd as [|n names Hn Hnd IH]; intros m ss; cbn [canonical];
      [by intros [= <-]|].
    destruct (m !! n) as [[v mx]|] eqn:Em; simpl; [|done].
    destruct (canonical names (delete n m)) as [rest|] eqn:Ec; simpl; [|done]. intros [= <-].
    apply IH in Ec as [<- Hf]. apply Forall_delete_stream in Hf; [|done].
    split; [done|by constructor].
  - intros [<- Hf]. revert m Hf Hnd; induction ss as [|s ss IH]; intros m; [done|].
    rewrite Forall_cons. intros [Hs Hf]. cbn [fmap list_fmap canonical].
    intros [Hn Hnd]%NoDup_cons. rewrite Hs. simpl.
    rewrite IH; [by destruct s|by apply Forall_delete_stream|done].
Qed.

Definition stream_entry (s : AndroidVolumeStream) : bytes * (Z * Z) :=
  (stream s, (volume s, max_volume s)).

Lemma names_NoDup : NoDup VOLUME_STREAM_NAMES.
Proof. apply (bool_decide_unpack _). vm_compute. exact I. Qed.

Lemma checked_streams_Ok value m :
  checked_streams value = Ok m ↔
  ∃ entries l, value = JArray entries ∧ parse_entry <$> entries = Ok <$> l ∧
    length l = length VOLUME_STREAM_NAMES ∧ NoDup l.*1 ∧ m = list_to_map l.
Proof.
  assert (∀ entries (l : list (bytes * (Z * Z))), parse_entry <$> entries = Ok <$> l →
    length entries = length l) as Hlen by (intros entries l H%(f_equal length); by rewrite !length_fmap in H).
  unfold checked_streams. split.
  - intros H. inv_ok H. destruct value as [| | | |entries|]; simplify_eq.
    match goal with E : parse_entries _ _ = Ok _ |- _ =>
      apply parse_entries_Ok in E as (l & Hl & Hnd & _ & Hm) end.
    rewrite (right_id_L ∅ _) in Hm. reflect_guards. simplify_eq.
    exists x, l. split_and!; try done. by rewrite <-(Hlen _ _ Hl).
  - intros (entries & l & -> & Hl & Hlen6 & Hnd & ->). cbn [mbind Result_bind].
    rewrite (Hlen _ _ Hl), Hlen6, Nat.eqb_refl. cbn [mbind Result_bind negb fail_if].
    apply bind_Ok. exists (list_to_map l : StreamMap). split.
    + apply parse_entries_Ok. exists l. split_and!; try done; [|by rewrite (right_id_L ∅ _)].
      apply Forall_forall. intros. apply lookup_empty.
    + apply bind_Ok. exists (). split; [|done]. apply fail_if_Ok, negb_false_iff, Nat.eqb_eq.
      rewrite <-Hlen6, <-(length_fmap fst l), <-(size_list_to_set (C := gset bytes) l.*1) by done.
      by rewrite <-dom_list_to_map_L, size_dom.
Qed.

(** The checked map holds every canonical stream: the [expect] of the closing
    [map] cannot fail. *)
Lemma canonical_total value m :
  checked_streams value = Ok m →
  ∃ ss, canonical VOLUME_STREAM_NAMES m = Some ss ∧ stream <$> ss = VOLUME_STREAM_NAMES ∧
    stream_entry <$> ss ≡ₚ map_to_list m.
Proof.
  intros (entries & l & -> & Hl & Hlen & Hnd & ->)%checked_streams_Ok.
  assert (l.*1 ≡ₚ VOLUME_STREAM_NAMES) as Hp.
  { apply submseteq_length_Permutation; [|by rewrite length_fmap, Hlen].
    apply NoDup_submseteq; [done|]. intros n Hn.
    apply list_elem_of_fmap_1 in Hn as ([n' [v mx]] & -> & Hin).
    assert (Ok (n', (v, mx)) ∈ parse_entry <$> entries) as He
      by (rewrite Hl; by apply list_elem_of_fmap_2).
    apply list_elem_of_fmap_1 in He as (entry & He & _).
    symmetry in He. apply parse_entry_Ok in He. naive_solver. }
  set (f := λ n, mkStream n (default (0, 0)%Z ((list_to_map l : StreamMap) !! n)).1
                   (default (0, 0)%Z ((list_to_map l : StreamMap) !! n)).2).
  assert (stream <$> (f <$> VOLUME_STREAM_NAMES) = VOLUME_STREAM_NAMES) as Hs.
  { rewrite <-list_fmap_compose. apply list_fmap_id. }
  assert (Forall (λ s, (list_to_map l : StreamMap) !! stream s = Some (volume s, max_volume s))
    (f <$> VOLUME_STREAM_NAMES)) as Hf.
  { apply Forall_fmap, Forall_forall. intros n Hn. simpl. rewrite <-Hp in Hn.
    apply list_elem_of_fmap_1 in Hn as ([n' lv] & -> & Hin). simpl.
    rewrite (proj1 (elem_of_list_to_map l n' lv Hnd) Hin). simpl. by destruct lv. }
  exists (f <$> VOLUME_STREAM_NAMES). split_and!; [|done|].
  - apply canonical_Some; [apply names_NoDup|done].
  - rewrite map_to_list_to_map by done.
    apply submseteq_length_Permutation; [|by rewrite !length_fmap, Hlen].
    apply NoDup_submseteq.
    + apply (NoDup_fmap_1 fst). rewrite <-list_fmap_compose.
      change (fst ∘ stream_entry) with stream. rewrite Hs. apply names_NoDup.
    + intros x Hx. apply list_elem_of_fmap_1 in Hx as (s & -> & Hin).
      rewrite Forall_forall in Hf. apply (elem_of_list_to_map l _ _ Hnd). by apply Hf.
Qed.

Lemma parse_volume_value_inv value ss :
  parse_volume_value value = Ok (mkStatus ss) →
  stream <$> ss = VOLUME_STREAM_NAMES ∧
  ∃ entries, value = JArray entries ∧ parse_entry <$> entries ≡ₚ Ok <$> (stream_entry <$> ss).
Proof.
  unfold parse_volume_value. intros H. apply bind_Ok in H as (m & Hm & H).
  destruct (canonical_total _ _ Hm) as (ss' & Hc & Hs & Hp). rewrite Hc in H. injection H as ->.
  split; [done|]. apply checked_streams_Ok in Hm as (entries & l & -> & Hl & _ & Hnd & ->).
  exists entries. split; [done|]. by rewrite Hl, Hp, map_to_list_to_map.
Qed.

Lemma parse_volume_value_levels value ss :
  parse_volume_value value = Ok (mkStatus ss) → Forall (λ s, levels_ok (volume s) (max_volume s)) ss.
Proof.
  intros (_ & entries & -> & Hp)%parse_volume_value_inv. apply Forall_forall. intros s Hs.
  assert (Ok (stream_entry s) ∈ parse_entry <$> entries) as He
    by (rewrite Hp; by do 2 apply list_elem_of_fmap_2).
  apply list_elem_of_fmap_1 in He as (e & He & _). symmetry in He.
  apply parse_entry_Ok in He. naive_solver.
Qed.

(** A volume status is exactly six distinct in-range streams.  The parser
    accepts a JSON value if and only if it is an array whose entries are, in any
    order, well-formed entries (exactly the three members, a known stream, an
    integer maximum in 1..=10000 and an integer volume in 0..=maximum) of the six
    streams, and the status lists them in the canonical order. *)
Theorem volume_status_exact value ss :
  parse_volume_value value = Ok (mkStatus ss) ↔
  stream <$> ss = VOLUME_STREAM_NAMES ∧
  ∃ entries, value = JArray entries ∧ parse_entry <$> entries ≡ₚ Ok <$> (stream_entry <$> ss).
Proof.
  split; [apply parse_volume_value_inv|].
  intros (Hs & entries & -> & Hp).
  apply Permutation_map_inv in Hp as (l & Hl & Hp).
  assert (l.*1 ≡ₚ VOLUME_STREAM_NAMES) as Hn.
  { rewrite <-Hp, <-Hs, <-list_fmap_compose. done. }
  assert (NoDup l.*1) as Hnd by (rewrite Hn; apply names_NoDup).
  assert (checked_streams (JArray entries) = Ok (list_to_map l)) as Hc.
  { apply checked_streams_Ok. exists entries, l. split_and!; try done.
    by rewrite <-(length_fmap fst), Hn. }
  unfold parse_volume_value. rewrite Hc. cbn [mbind Result_bind].
  assert (canonical VOLUME_STREAM_NAMES (list_to_map l) = Some ss) as ->; [|done].
  apply canonical_Some; [apply names_NoDup|]. split; [done|]. apply Forall_forall.
  intros s Hin. apply (elem_of_list_to_map l _ _ Hnd). rewrite <-Hp.
  by apply (list_elem_of_fmap_2 stream_entry).
Qed.

Lemma status_reason_code_inj : Inj (=) (=) status_reason_code.
Proof. intros a b H. destruct a, b; first [done|vm_compute in H; discriminate]. Qed.

Definition termux_provider : BoundedProcess :=
  mkProcess TERMUX_VOLUME_PROGRAM [] [] (bs "/") VOLUME_STATUS_TIMEOUT MAX_VOLUME_STDOUT_BYTES
    MAX_VOLUME_STDERR_BYTES None.
Lemma try_termux_Ok : try_termux = Ok termux_provider.
Proof. reflexivity. Qed.
End VolumeStatus.

Module VolumeControl.
Import BoundedProcess AndroidVolume VolumeStatus.

Definition VOLUME_CONTROL_TIMEOUT : N := millis 5000.
Definition VOLUME_CONTROL_CONCURRENCY : nat := 1.

Record AndroidVolumeControlResult := mkResult {
  r_stream : AndroidVolumeStreamName;
  previous_level : Z;
  requested_level : Z;
  r_max_volume : Z;
  dry_run : bool;
  changed : bool;
  verified : bool;
  outcome : bytes;
  rollback : bytes;
}.

Inductive AndroidVolumeControlError :=
| InvalidStream
| LevelOutOfRange
| ConcurrencyLimitExceeded
| StatusUnavailable (error : AndroidVolumeError)
| SetFailedRollbackConfirmed
| SetFailedRollbackUnconfirmed
| VerificationFailedRollbackConfirmed
| VerificationFailedRollbackUnconfirmed
| WorkerFailed.

Definition control_reason_code (e : AndroidVolumeControlError) : bytes :=
  match e with
  | InvalidStream => bs "volume_control_stream_invalid"
  | LevelOutOfRange => bs "volume_control_level_out_of_range"
  | ConcurrencyLimitExceeded => bs "volume_control_concurrency_limit"
  | StatusUnavailable error => status_reason_code error
  | SetFailedRollbackConfirmed => bs "volume_control_set_failed_rollback_confirmed"
  | SetFailedRollbackUnconfirmed => bs "volume_control_set_failed_rollback_unconfirmed"
  | VerificationFailedRollbackConfirmed =>
      bs "volume_control_verification_failed_rollback_confirmed"
  | VerificationFailedRollbackUnconfirmed =>
      bs "volume_control_verification_failed_rollback_unconfirmed"
  | WorkerFailed => bs "volume_control_worker_failed"
  end.

(** The client but for its mutation lane, which is shared state. *)
Record AndroidVolumeControlClient := mkClient {
  c_status : BoundedProcess;
  c_program : bytes;
  c_timeout : N;
  c_max_stdout_bytes : N;
  c_max_stderr_bytes : N;
}.

Definition control_try_termux : Result () AndroidVolumeControlClient :=
  status ← VolumeStatus.try_termux;
  Ok (mkClient status TERMUX_VOLUME_PROGRAM VOLUME_CONTROL_TIMEOUT MAX_VOLUME_STDOUT_BYTES
        MAX_VOLUME_STDERR_BYTES).

Definition validate_level (level max_volume : Z) : Result AndroidVolumeControlError () :=
  if (0 <=? level)%Z && (level <=? max_volume)%Z then Ok () else Err LevelOutOfRange.

Record PreparedAndroidVolumeMutation := mkPrepared {
  p_stream : AndroidVolumeStreamName;
  p_requested_level : Z;
  p_before : AndroidVolumeStream;
}.

(** The process [set_level] starts. *)
Definition set_process (self : AndroidVolumeControlClient) (s : AndroidVolumeStreamName) (level : Z)
    : Result BoundedProcessConfigError BoundedProcess :=
  process_new (c_program self) [stream_as_str s; print_Z level] (bs "/") (c_timeout self)
    (c_max_stdout_bytes self) (c_max_stderr_bytes self).

Section control.
Context {L : HttpLib} {R : ProcessRunner}.

(** [Iterator::find] over the status's streams. *)
Definition read_stream (self : AndroidVolumeControlClient) (s : AndroidVolumeStreamName) (w : world)
    : world * Result AndroidVolumeControlError AndroidVolumeStream :=
  let '(w, r) := collect (c_status self) w in
  (w, status ← map_err StatusUnavailable r;
      ok_or (List.find (λ entry, bytes_eqb (stream entry) (stream_as_str s)) (streams status))
        (StatusUnavailable InvalidField)).

(** [None]: the [expect] on the process configuration panics. *)
Definition set_level (self : AndroidVolumeControlClient) (s : AndroidVolumeStreamName) (level : Z)
    (w : world) : option (world * Result BoundedProcessError ()) :=
  match set_process self s level with
  | Err _ => None
  | Ok process => let '(w, r) := run_process process w in Some (w, (λ _, ()) <$> r)
  end.

Definition preview (self : AndroidVolumeControlClient) (s : AndroidVolumeStreamName)
    (requested : Z) (w : world) : world * Result AndroidVolumeControlError AndroidVolumeControlResult :=
  let '(w, r) := read_stream self s w in
  (w, before ← r;
      _ ← validate_level requested (max_volume before);
      Ok (mkResult s (volume before) requested (max_volume before) true false false
            (bs "preview") (bs "not_required"))).

(** [is_ok_and(|entry| entry.volume == level)]. *)
Definition reports (r : Result AndroidVolumeControlError AndroidVolumeStream) (level : Z) : bool :=
  match r with Ok entry => (volume entry =? level)%Z | Err _ => false end.

Definition recover (self : AndroidVolumeControlClient) (p : PreparedAndroidVolumeMutation)
    (command_failed : bool) (w : world) : option (world * AndroidVolumeControlError) :=
  '(w, set) ← set_level self (p_stream p) (volume (p_before p)) w;
  let '(w, restored) :=
    if is_ok set
    then let '(w, r) := read_stream self (p_stream p) w in (w, reports r (volume (p_before p)))
    else (w, false) in
  Some (w, match command_failed, restored with
           | true, true => SetFailedRollbackConfirmed
           | true, false => SetFailedRollbackUnconfirmed
           | false, true => VerificationFailedRollbackConfirmed
           | false, false => VerificationFailedRollbackUnconfirmed
           end).

Definition execute (self : AndroidVolumeControlClient) (p : PreparedAndroidVolumeMutation)
    (w : world) : option (world * Result AndroidVolumeControlError AndroidVolumeControlResult) :=
  '(w, set) ← set_level self (p_stream p) (p_requested_level p) w;
  if negb (is_ok set)
  then '(w, e) ← recover self p true w; Some (w, Err e)
  else
    let '(w, after) := read_stream self (p_stream p) w in
    if negb (reports after (p_requested_level p))
    then '(w, e) ← recover self p false w; Some (w, Err e)
    else Some (w, Ok (mkResult (p_stream p) (volume (p_before p)) (p_requested_level p)
                        (max_volume (p_before p)) false
                        (negb (volume (p_before p) =? p_requested_level p)%Z) true
                        (bs "mutation_verified") (bs "not_required"))).

End control.

(** ** The mutation lane *)

Section lane.
Context {L : HttpLib} {R : ProcessRunner} {S : Semaphore}.

(** [prepare_mutation]: the permit is part of the prepared mutation, and dropped
    on an error. *)
Definition prepare_mutation (self : AndroidVolumeControlClient) (s : AndroidVolumeStreamName)
    (requested : Z) (lane : sem) (w : world)
    : sem * world * Result AndroidVolumeControlError PreparedAndroidVolumeMutation :=
  match try_acquire lane with
  | None => (lane, w, Err ConcurrencyLimitExceeded)
  | Some lane =>
    let '(w, r) := read_stream self s w in
    match before ← r;
          _ ← validate_level requested (max_volume before);
          Ok (mkPrepared s requested before) with
    | Ok p => (lane, w, Ok p)
    | Err e => (release lane, w, Err e)
    end
  end.

(** The client, the device and the prepared mutations that were neither executed
    nor dropped; [execute] takes the mutation and drops its permit at the end. *)
Record ControlState := mkControl {
  lane : sem;
  device : world;
  prepared : gmap nat PreparedAndroidVolumeMutation;
}.

Inductive control_event :=
| Preview (s : AndroidVolumeStreamName) (requested : Z)
    (answer : Result AndroidVolumeControlError AndroidVolumeControlResult)
| Prepare (id : nat) (s : AndroidVolumeStreamName) (requested : Z)
    (answer : Result AndroidVolumeControlError PreparedAndroidVolumeMutation)
| Execute (id : nat) (answer : Result AndroidVolumeControlError AndroidVolumeControlResult)
| Discard (id : nat).

Inductive control_step (self : AndroidVolumeControlClient)
    : ControlState → control_event → ControlState → Prop :=
| step_preview st s l w r :
    preview self s l (device st) = (w, r) →
    control_step self st (Preview s l r) (mkControl (lane st) w (prepared st))
| step_prepare_refused st id s l ln w e :
    prepare_mutation self s l (lane st) (device st) = (ln, w, Err e) →
    control_step self st (Prepare id s l (Err e)) (mkControl ln w (prepared st))
| step_prepared st id s l ln w p :
    prepared st !! id = None →
    prepare_mutation self s l (lane st) (device st) = (ln, w, Ok p) →
    control_step self st (Prepare id s l (Ok p)) (mkControl ln w (<[id := p]> (prepared st)))
| step_execute st id p w r :
    prepared st !! id = Some p → execute self p (device st) = Some (w, r) →
    control_step self st (Execute id r)
      (mkControl (release (lane st)) w (delete id (prepared st)))
| step_discard st id p :
    prepared st !! id = Some p →
    control_step self st (Discard id)
      (mkControl (release (lane st)) (device st) (delete id (prepared st))).

Inductive control_run (self : AndroidVolumeControlClient)
    : ControlState → list control_event → ControlState → Prop :=
| control_run_nil st : control_run self st [] st
| control_run_cons st e st' es st'' :
    control_step self st e st' → control_run self st' es st'' →
    control_run self st (e :: es) st''.

Definition control_start (w : world) : ControlState :=
  mkControl (sem_new VOLUME_CONTROL_CONCURRENCY) w ∅.

End lane.

(** The recording runner: every started process, in order. *)
Definition recording_runner (R : ProcessRunner) : ProcessRunner := {|
  world := list BoundedProcess * world;
  run_process p w := let '(w', r) := run_process p w.2 in ((w.1 ++ [p], w'), r);
|}.

(** ** Lemmas *)

Definition client_ok (self : AndroidVolumeControlClient) : Prop :=
  within_bounds (c_timeout self) (c_max_stdout_bytes self) (c_max_stderr_bytes self).

Lemma control_try_termux_ok :
  ∃ self, control_try_termux = Ok self ∧ client_ok self ∧ c_status self = termux_provider.
Proof. eexists. split_and!; [reflexivity| |reflexivity]. by vm_compute. Qed.

(** The one way the program is called to set a level. *)
Definition set_command (self : AndroidVolumeControlClient) (s : AndroidVolumeStreamName) (level : Z)
    : BoundedProcess :=
  mkProcess (c_program self) [stream_as_str s; print_Z level] [] (bs "/") (c_timeout self)
    (c_max_stdout_bytes self) (c_max_stderr_bytes self) None.

Lemma set_process_Ok self s level :
  client_ok self → set_process self s level = Ok (set_command self s level).
Proof. intros Hok. by apply new_inner_Ok. Qed.

Section lemmas.
Context {L : HttpLib} {R : ProcessRunner}.

Lemma set_level_Some self s level w :
  client_ok self →
  set_level self s level w =
    let '(w', r) := run_process (set_command self s level) w in Some (w', (λ _, ()) <$> r).
Proof. intros Hok. unfold set_level. by rewrite set_process_Ok. Qed.

Lemma read_stream_Ok self s w w' entry :
  read_stream self s w = (w', Ok entry) →
  stream entry = stream_as_str s ∧ levels_ok (volume entry) (max_volume entry).
Proof.
  unfold read_stream, collect. destruct (collect_stdout _ _) as [w1 r]. intros H.
  injection H as _ H. apply bind_Ok in H as ([ss] & Hst & H). apply ok_or_Ok in H.
  apply List.find_some in H as [Hin Heq]. apply bytes_eqb_true in Heq. split; [done|].
  destruct r as [out|]; [|done]. simpl in Hst. destruct (from_utf8 out); [|done]. simpl in Hst.
  unfold parse_volume_status in Hst. destruct (json_from_slice _) as [v|]; [|done]. simpl in Hst.
  destruct (parse_volume_value v) as [st|] eqn:Ev; [|done]. injection Hst as ->.
  apply parse_volume_value_levels in Ev. rewrite Forall_forall in Ev.
  by apply Ev, list_elem_of_In.
Qed.

Lemma read_stream_recording self s log w :
  read_stream (R := recording_runner R) self s (log, w) =
    let '(w', r) := read_stream self s w in ((log ++ [c_status self], w'), r).
Proof. unfold read_stream, collect, collect_stdout. cbn. by destruct (run_process _ _). Qed.

Lemma set_level_recording self s level log w :
  client_ok self →
  set_level (R := recording_runner R) self s level (log, w) =
    '(w', r) ← set_level self s level w; Some ((log ++ [set_command self s level], w'), r).
Proof.
  intros Hok. unfold set_level. rewrite set_process_Ok by done. cbn.
  by destruct (run_process _ _).
Qed.

(** The outcomes of a recovery, with the reads that decide them. *)
Lemma recover_spec self p failed w :
  client_ok self →
  ∃ w1 set w' e, set_level self (p_stream p) (volume (p_before p)) w = Some (w1, set) ∧
    recover self p failed w = Some (w', e) ∧
    ((∃ entry, is_ok set = true ∧ read_stream self (p_stream p) w1 = (w', Ok entry) ∧
        volume entry = volume (p_before p) ∧
        e = if failed then SetFailedRollbackConfirmed else VerificationFailedRollbackConfirmed) ∨
     e = if failed then SetFailedRollbackUnconfirmed else VerificationFailedRollbackUnconfirmed).
Proof.
  intros Hok. unfold recover. rewrite !set_level_Some by done.
  destruct (run_process _ w) as [w1 set]. cbn.
  destruct set as [out|]; cbn; [|by destruct failed; eauto 10].
  destruct (read_stream _ _ w1) as [w2 [entry|e]] eqn:Er; cbn; [|by destruct failed; eauto 10].
  destruct (Z.eqb_spec (volume entry) (volume (p_before p))); destruct failed; eauto 15.
Qed.

Lemma execute_total self p w :
  client_ok self → ∃ w' r, execute self p w = Some (w', r).
Proof.
  intros Hok. unfold execute. rewrite set_level_Some by done.
  destruct (run_process _ w) as [w1 set]. cbn. destruct (is_ok _); cbn.
  - destruct (read_stream _ _ w1) as [w2 r]. destruct (reports _ _); cbn; [eauto|].
    destruct (recover_spec self p false w2 Hok) as (? & ? & ? & ? & _ & -> & _). cbn. eauto.
  - destruct (recover_spec self p true w1 Hok) as (? & ? & ? & ? & _ & -> & _). cbn. eauto.
Qed.
End lemmas.

(** ** Properties *)

Section control_properties.
Context {L : HttpLib} {R : ProcessRunner} (self : AndroidVolumeControlClient).

(** C30: a volume mutation tells the truth.  For a device whose status reports its
    current levels, executing a prepared mutation always answers; a verified
    result means the stream is at the requested level, an error that confirms the
    rollback means it is back at the level read before the mutation, and the only
    other answers are the two errors that leave the rollback unconfirmed. *)
Theorem mutation_verified_or_rolled_back (level_of : world → AndroidVolumeStreamName → Z) p w :
  client_ok self →
  (∀ w w' s entry, read_stream self s w = (w', Ok entry) → volume entry = level_of w' s) →
  ∃ w' r, execute self p w = Some (w', r) ∧
  match r with
  | Ok result =>
    level_of w' (p_stream p) = p_requested_level p ∧
    result = mkResult (p_stream p) (volume (p_before p)) (p_requested_level p)
               (max_volume (p_before p)) false
               (negb (volume (p_before p) =? p_requested_level p)%Z) true
               (bs "mutation_verified") (bs "not_required")
  | Err SetFailedRollbackConfirmed | Err VerificationFailedRollbackConfirmed =>
    level_of w' (p_stream p) = volume (p_before p)
  | Err SetFailedRollbackUnconfirmed | Err VerificationFailedRollbackUnconfirmed => True
  | Err _ => False
  end.
Proof.
  intros Hok Hread. unfold execute. rewrite set_level_Some by done.
  destruct (run_process _ w) as [w1 set]. cbn. destruct (is_ok _); cbn.
  - destruct (read_stream _ _ w1) as [w2 r] eqn:Er.
    destruct (reports r (p_requested_level p)) eqn:Erep; cbn.
    + destruct r as [entry|]; [|done]. apply Z.eqb_eq in Erep. apply Hread in Er.
      eexists _, _. split; [done|]. by rewrite <-Er.
    + destruct (recover_spec self p false w2 Hok) as (? & ? & w' & e & _ & -> & He).
      eexists _, _. split; [done|]. destruct He as [(entry & _ & Hr & Hv & ->)| ->]; [|done].
      apply Hread in Hr. by rewrite <-Hr.
  - destruct (recover_spec self p true w1 Hok) as (? & ? & w' & e & _ & -> & He).
    eexists _, _. split; [done|]. destruct He as [(entry & _ & Hr & Hv & ->)| ->]; [|done].
    apply Hread in Hr. by rewrite <-Hr.
Qed.

(** A volume mutation starts no other process.  Executing one runs the fixed
    program to set the requested level of the prepared stream; then, depending on
    the answer, it reads the status and sets the previous level back (followed by
    a read): the commands of every answer are listed exactly, and recording them
    changes nothing else. *)
Theorem mutation_commands_exact p w :
  client_ok self →
  let set level := set_command self (p_stream p) level in
  let get := c_status self in
  let undo := set (volume (p_before p)) in
  ∃ log w' r,
    execute self p w = Some (w', r) ∧
    execute (R := recording_runner R) self p ([], w) = Some ((log, w'), r) ∧
    match r with
    | Ok _ => log = [set (p_requested_level p); get]
    | Err SetFailedRollbackConfirmed => log = [set (p_requested_level p); undo; get]
    | Err SetFailedRollbackUnconfirmed =>
      log = [set (p_requested_level p); undo] ∨ log = [set (p_requested_level p); undo; get]
    | Err VerificationFailedRollbackConfirmed =>
      log = [set (p_requested_level p); get; undo; get]
    | Err VerificationFailedRollbackUnconfirmed =>
      log = [set (p_requested_level p); get; undo] ∨
      log = [set (p_requested_level p); get; undo; get]
    | Err _ => False
    end.
Proof.
  intros Hok. cbn zeta. unfold execute, recover.
  repeat (first
    [ rewrite set_level_recording by done
    | rewrite read_stream_recording
    | rewrite set_level_Some by done
    | match goal with
      | |- context [run_process ?q ?v] => destruct (run_process q v) as [? [?|?]]
      | |- context [read_stream self ?s ?v] =>
          lazymatch v with
          | (_, _) => fail
          | _ => destruct (read_stream self s v) as [? ?]
          end
      | |- context [reports ?a ?b] => destruct (reports a b)
      end ]; cbn [app negb is_ok fmap Result_fmap mbind option_bind]);
    eexists _, _, _; (split_and!; [reflexivity..|]); cbv iota; auto.
Qed.

End control_properties.

Section lane_properties.
Context {L : HttpLib} {R : ProcessRunner} {S : Semaphore} (SL : SemaphoreLaws S).
Context (self : AndroidVolumeControlClient).

(** A mutation that was prepared: the level is one the stream has. *)
Definition prepared_ok (p : PreparedAndroidVolumeMutation) : Prop :=
  stream (p_before p) = stream_as_str (p_stream p) ∧
  levels_ok (volume (p_before p)) (max_volume (p_before p)) ∧
  (0 ≤ p_requested_level p ≤ max_volume (p_before p))%Z.

Definition control_ok (st : ControlState) : Prop :=
  available_permits (lane st) + size (prepared st) = VOLUME_CONTROL_CONCURRENCY ∧
  map_Forall (λ _, prepared_ok) (prepared st).

Lemma validate_level_Ok level mx u :
  validate_level level mx = Ok u ↔ (0 ≤ level ≤ mx)%Z.
Proof.
  unfold validate_level. destruct u, (Z.leb_spec 0 level), (Z.leb_spec level mx); simpl;
    naive_solver lia.
Qed.

Lemma prepare_mutation_spec s l ln w ln' w' r :
  prepare_mutation self s l ln w = (ln', w', r) →
  match r with
  | Ok p => available_permits ln = available_permits ln' + 1 ∧ prepared_ok p
  | Err _ => available_permits ln' = available_permits ln
  end.
Proof.
  unfold prepare_mutation. destruct (try_acquire ln) as [ln1|] eqn:Ea; [|by intros [= <- <- <-]].
  pose proof (try_acquire_Some _ _ Ea). destruct (read_stream self s w) as [w1 r1] eqn:Er.
  destruct r1 as [before|e]; cbn.
  - destruct (validate_level l _) as [u|e] eqn:Ev; cbn; intros [= <- <- <-].
    + split; [done|]. apply validate_level_Ok in Ev. apply read_stream_Ok in Er.
      unfold prepared_ok. simpl. naive_solver.
    + rewrite available_release. lia.
  - intros [= <- <- <-]. rewrite available_release. lia.
Qed.

Lemma control_step_ok st e st' : control_ok st → control_step self st e st' → control_ok st'.
Proof.
  intros [Hp Hf] Hs. unfold control_ok.
  destruct Hs as [|st id s l ln w e Hr|st id s l ln w p Hid Hr|st id p w r Hid _|st id p Hid];
    simpl.
  - done.
  - apply prepare_mutation_spec in Hr as ->. done.
  - apply prepare_mutation_spec in Hr as [Ha Hok]. rewrite map_size_insert_None by done.
    split; [lia|by apply map_Forall_insert_2].
  - rewrite available_release, map_size_delete_Some by done.
    split; [|by apply map_Forall_delete].
    assert (size (prepared st) ≠ 0) by (rewrite map_size_ne_0_lookup; eauto). lia.
  - rewrite available_release, map_size_delete_Some by done.
    split; [|by apply map_Forall_delete].
    assert (size (prepared st) ≠ 0) by (rewrite map_size_ne_0_lookup; eauto). lia.
Qed.

Lemma control_run_ok st es st' : control_ok st → control_run self st es st' → control_ok st'.
Proof. intros Hst Hr. induction Hr; [done|]. eauto using control_step_ok. Qed.

Lemma control_start_ok w : control_ok (control_start w).
Proof.
  split; [|apply map_Forall_empty]. simpl. by rewrite available_new, map_size_empty.
Qed.

(** Volume mutations never overlap.  However previews, preparations,
    executions and abandoned mutations follow each other, at most one mutation is
    prepared at any time and its level is within what the stream reported; while
    there is one, another preparation is refused at once without touching the
    device, and when there is none the lane is free. *)
Theorem mutation_lane_exclusive w es st :
  control_run self (control_start w) es st →
  size (prepared st) ≤ 1 ∧ map_Forall (λ _, prepared_ok) (prepared st) ∧
  (prepared st ≠ ∅ → ∀ s l,
     prepare_mutation self s l (lane st) (device st)
       = (lane st, device st, Err ConcurrencyLimitExceeded)) ∧
  (prepared st = ∅ → ∀ s l,
     (prepare_mutation self s l (lane st) (device st)).2 ≠ Err ConcurrencyLimitExceeded).
Proof.
  intros Hr. destruct (control_run_ok _ _ _ (control_start_ok w) Hr) as [Hp Hf].
  unfold VOLUME_CONTROL_CONCURRENCY in Hp. split_and!; [lia|done| |].
  - intros Hne s l. apply map_size_non_empty_iff in Hne. unfold prepare_mutation.
    destruct (try_acquire (lane st)) as [ln|] eqn:Ea; [|done].
    apply try_acquire_Some in Ea. lia.
  - intros He s l. rewrite He, map_size_empty in Hp. unfold prepare_mutation.
    destruct (try_acquire (lane st)) as [ln|] eqn:Ea; [|apply try_acquire_None in Ea; lia].
    destruct (read_stream self s (device st)) as [w1 [before|e]] eqn:Er; cbn.
    + unfold validate_level. by destruct (_ && _).
    + intros [= ->]. unfold read_stream in Er. destruct (collect _ _) as [w2 [stt|e]]; simpl in Er.
      * injection Er as _ Er. by destruct (List.find _ _).
      * by injection Er.
Qed.

End lane_properties.

(** ** Witnesses: a device whose music level is 3 or 9

    Its status output is one byte per stream, which the example parser expands. *)

Definition device_json (levels : bytes) : Json :=
  JArray (zip_with (λ name b, JObject
    [(bs "stream", JString name); (bs "volume", JNumber (PosInt (byte_val b)));
     (bs "max_volume", JNumber (PosInt 15))]) VOLUME_STREAM_NAMES levels).

Definition device_http : HttpLib := {|
  header_to_str v := Some v;
  json_response_headers := [];
  json_from_slice b := if length b =? 6 then Ok (device_json b) else Err [];
|}.

Definition music_level (w : bool) : N := if w then 9 else 3.
Definition device_levels (w : bool) : bytes :=
  [byte_of 1; byte_of 2; byte_of (music_level w); byte_of 4; byte_of 5; byte_of 6].

(** Only the levels 3 and 9 of the music stream can be set. *)
Definition device_set (w : bool) (args : list bytes) : bool :=
  if bool_decide (args = [bs "music"; bs "9"]) then true
  else if bool_decide (args = [bs "music"; bs "3"]) then false
  else w.

Definition device_runner : ProcessRunner := {|
  world := bool;
  run_process p w :=
    let w := device_set w (arguments p) in (w, Ok (mkOutput (device_levels w) [] 0));
|}.

Definition device_client : AndroidVolumeControlClient :=
  mkClient termux_provider TERMUX_VOLUME_PROGRAM VOLUME_CONTROL_TIMEOUT MAX_VOLUME_STDOUT_BYTES
    MAX_VOLUME_STDERR_BYTES.

Definition device_level (w : bool) (s : AndroidVolumeStreamName) : Z :=
  match s with
  | Alarm => 1
  | Call => 2
  | Music => Z.of_N (music_level w)
  | Notification => 4
  | Ring => 5
  | System => 6
  end.

Lemma device_client_ok : client_ok device_client.
Proof. by vm_compute. Defined.

Lemma device_reads_levels (w w' : bool) s entry :
  read_stream (L := device_http) (R := device_runner) device_client s w = (w', Ok entry) →
  volume entry = device_level w' s.
Proof. destruct w, s; vm_compute; intros H; by simplify_eq. Defined.

Definition device_prepared : PreparedAndroidVolumeMutation :=
  mkPrepared Music 9 (mkStream (bs "music") 3 15).

Lemma mutation_verified_or_rolled_back_witness :
  ∃ w' r,
    execute (L := device_http) (R := device_runner) device_client device_prepared false = Some (w', r)
    ∧ device_level w' Music = 9%Z.
Proof.
  pose proof (mutation_verified_or_rolled_back (L := device_http) (R := device_runner)
    device_client device_level device_prepared false device_client_ok device_reads_levels)
    as (w' & r & He & Hr).
  exists w', r. split; [exact He|].
  vm_compute in He. injection He as <- <-. destruct Hr as [Hr _]. exact Hr.
Defined.

Lemma mutation_commands_exact_witness :
  ∃ log w' r,
    execute (L := device_http) (R := device_runner) device_client device_prepared false = Some (w', r)
    ∧ execute (L := device_http) (R := recording_runner device_runner) device_client device_prepared
        ([], false) = Some ((log, w'), r)
    ∧ log = [set_command device_client Music 9; termux_provider].
Proof.
  pose proof (mutation_commands_exact (L := device_http) (R := device_runner)
    device_client device_prepared false device_client_ok) as (log & w' & r & He & Hl & Hr).
  exists log, w', r. split_and!; [exact He|exact Hl|].
  vm_compute in He. injection He as <- <-. exact Hr.
Defined.

Lemma mutation_lane_exclusive_witness :
  ∃ st, control_run (L := device_http) (R := device_runner) (S := example_semaphore) device_client
          (control_start (R := device_runner) (S := example_semaphore) false)
          [Prepare 0 Music 9 (Ok device_prepared)] st ∧
    prepare_mutation (L := device_http) (R := device_runner) (S := example_semaphore) device_client
      Ring 2 (lane (R := device_runner) (S := example_semaphore) st)
      (device (R := device_runner) (S := example_semaphore) st)
    = (lane (R := device_runner) (S := example_semaphore) st,
       device (R := device_runner) (S := example_semaphore) st, Err ConcurrencyLimitExceeded).
Proof.
  exists (mkControl (R := device_runner) (S := example_semaphore) 0 false {[ 0 := device_prepared ]}).
  assert (control_run (L := device_http) (R := device_runner) (S := example_semaphore) device_client
    (control_start (R := device_runner) (S := example_semaphore) false)
    [Prepare 0 Music 9 (Ok device_prepared)]
    (mkControl (R := device_runner) (S := example_semaphore) 0 false {[ 0 := device_prepared ]})) as Hr.
  { eapply control_run_cons; [|apply control_run_nil].
    apply (step_prepared (L := device_http) (R := device_runner) (S := example_semaphore)
      device_client (control_start (R := device_runner) (S := example_semaphore) false) 0 Music 9%Z);
      vm_compute; reflexivity. }
  split; [exact Hr|].
  destruct (mutation_lane_exclusive (L := device_http) (R := device_runner) (S := example_semaphore)
    example_semaphore_laws device_client _ _ _ Hr) as (_ & _ & Hbusy & _).
  apply Hbusy. intros H. apply (f_equal size) in H. vm_compute in H. discriminate.
Defined.
End VolumeControl.
