(* ===== verification/CommandPolicy.v ===== *)
(** * Command profiles

    [src/src/command_policy.rs]: the fixed-profile allow-list and the audit event
    of its decision. *)

From S2P Require Import Prelude RustStd AuditEvents BoundedProcess.

Module CommandPolicy.
Import Audit.

Definition RUN_COMMAND_PROFILE_TOOL : bytes := bs "run_command_profile".
Definition COMMAND_EXECUTION_GATE : bytes := bs "fixed_command_execution".
Definition COMMAND_PROFILE_ORDINAL_METADATA : bytes := bs "command_profile_ordinal".
Definition COMMAND_PROFILE_ALLOWED_REASON : bytes := bs "command_profile_execution_allowed".
Definition COMMAND_RUNTIME_DISABLED_REASON : bytes := bs "command_runtime_disabled".
Definition COMMAND_PROFILE_NOT_ALLOWLISTED_REASON : bytes := bs "command_profile_not_allowlisted".
Definition COMMAND_SAFE_ROOT_UNAVAILABLE_REASON : bytes := bs "command_safe_root_unavailable".
Definition MAX_COMMAND_PROFILE_ID_BYTES : nat := 64.

Record CommandProfile := mkProfile {
  id : bytes;
  ordinal : N;
  argv : list bytes;
  timeout : N;
  max_stdout_bytes : N;
  max_stderr_bytes : N;
}.

(** Timeouts are nanoseconds. *)
Definition COMMAND_PROFILES : list CommandProfile :=
  [mkProfile (bs "server_version") 1 [bs "--version"] 5000000000 (4 * 1024) 1024;
   mkProfile (bs "server_help") 2 [bs "--help"] 5000000000 (16 * 1024) 1024;
   mkProfile (bs "execution_boundary") 3 [bs "--self-check-command-boundary"] 5000000000 1024 1024].

Record CommandPolicyDecision := mkDecision {
  allowed : bool;
  d_reason_code : bytes;
  profile : option CommandProfile;
}.

Definition denied (reason : bytes) (profile : option CommandProfile) : CommandPolicyDecision :=
  mkDecision false reason profile.

(** [COMMAND_PROFILES.iter().find(..)]. *)
Definition find_profile (profile_id : bytes) : option CommandProfile :=
  List.find (λ profile, bytes_eqb (id profile) profile_id) COMMAND_PROFILES.
#[global] Arguments find_profile : simpl never.

Definition evaluate (profile_id : bytes) (runtime_enabled safe_root_available : bool)
    : CommandPolicyDecision :=
  if negb runtime_enabled then denied COMMAND_RUNTIME_DISABLED_REASON None
  else
    let profile :=
      if length profile_id <=? MAX_COMMAND_PROFILE_ID_BYTES
      then find_profile profile_id
      else None in
    match profile with
    | None => denied COMMAND_PROFILE_NOT_ALLOWLISTED_REASON None
    | Some profile =>
      if negb safe_root_available then denied COMMAND_SAFE_ROOT_UNAVAILABLE_REASON (Some profile)
      else mkDecision true COMMAND_PROFILE_ALLOWED_REASON (Some profile)
    end.

Definition audit_decision (timestamp : N) (d : CommandPolicyDecision) : AuditEvent :=
  let event :=
    AuditEvent_new timestamp RUN_COMMAND_PROFILE_TOOL COMMAND_EXECUTION_GATE ReadOnly
      (if allowed d then Allowed else Denied) (d_reason_code d) in
  match profile d with
  | Some profile => with_metadata event COMMAND_PROFILE_ORDINAL_METADATA (ordinal profile)
  | None => event
  end.

Definition command_profile_ids : list bytes := id <$> COMMAND_PROFILES.

(** ** Lemmas *)

Lemma find_profile_Some pid p :
  find_profile pid = Some p ↔ p ∈ COMMAND_PROFILES ∧ id p = pid.
Proof.
  unfold find_profile. split.
  - intros [Hin Hid]%List.find_some. apply bytes_eqb_true in Hid. by rewrite list_elem_of_In.
  - intros [Hin <-]. unfold COMMAND_PROFILES in Hin.
    repeat (apply elem_of_cons in Hin as [->|Hin]; [reflexivity|]). by apply elem_of_nil in Hin.
Qed.

Lemma profile_id_short p : p ∈ COMMAND_PROFILES → length (id p) <= MAX_COMMAND_PROFILE_ID_BYTES.
Proof.
  unfold COMMAND_PROFILES, MAX_COMMAND_PROFILE_ID_BYTES. intros Hin.
  repeat (apply elem_of_cons in Hin as [->|Hin]; [vm_compute; lia|]). by apply elem_of_nil in Hin.
Qed.

(** The profiles the source calls reviewed are ones the process layer accepts. *)
Lemma profile_within_bounds p :
  p ∈ COMMAND_PROFILES →
  BoundedProcess.within_bounds (timeout p) (max_stdout_bytes p) (max_stderr_bytes p).
Proof.
  unfold COMMAND_PROFILES. intros Hin.
  repeat (apply elem_of_cons in Hin as [->|Hin]; [by vm_compute|]). by apply elem_of_nil in Hin.
Qed.

(** ** Properties *)

(** The command gate allows the reviewed profiles only, and a closed gate
    tells nothing.  A decision allows execution if and only if the runtime is
    enabled, the identifier is exactly that of a compiled-in profile and a safe
    root is available; with the runtime disabled the decision is the same for
    every identifier; a profile is revealed only for a listed identifier; and the
    audit event repeats the decision, with the profile's ordinal as its only
    metadata. *)
Theorem command_gate_exact profile_id enabled safe timestamp :
  let d := evaluate profile_id enabled safe in
  (allowed d = true ↔
     enabled = true ∧ safe = true ∧ ∃ p, p ∈ COMMAND_PROFILES ∧ id p = profile_id) ∧
  (enabled = false → d = denied COMMAND_RUNTIME_DISABLED_REASON None) ∧
  (∀ p, profile d = Some p ↔ enabled = true ∧ p ∈ COMMAND_PROFILES ∧ id p = profile_id) ∧
  decision (audit_decision timestamp d) = (if allowed d then Allowed else Denied) ∧
  reason_code (audit_decision timestamp d) = d_reason_code d ∧
  metadata (audit_decision timestamp d) =
    match profile d with
    | Some p => {[ COMMAND_PROFILE_ORDINAL_METADATA := ordinal p ]}
    | None => ∅
    end.
Proof.
  cbn zeta. unfold evaluate.
  destruct enabled; simpl; [|split_and!; try done; [split; [done|by intros (? & _)]|
    intros p; split; [done|by intros (? & _)]]].
  destruct (length profile_id <=? MAX_COMMAND_PROFILE_ID_BYTES) eqn:Hl.
  - destruct (find_profile profile_id) as [p|] eqn:Hf.
    + pose proof Hf as Hp. apply find_profile_Some in Hp as [Hin Hid].
      assert (∀ q, Some p = Some q ↔ true = true ∧ q ∈ COMMAND_PROFILES ∧ id q = profile_id) as Hq.
      { intros q. rewrite <-Hf. rewrite find_profile_Some. tauto. }
      destruct safe; simpl; split_and!; try done.
      * split; [intros _|done]. split_and!; [done..|]. by exists p.
      * split; [done|by intros (_ & ? & _)].
    + assert (∀ q, ¬ (q ∈ COMMAND_PROFILES ∧ id q = profile_id)) as Hno.
      { intros q Hq. apply find_profile_Some in Hq. congruence. }
      simpl. split_and!; try done.
      * split; [done|]. intros (_ & _ & q & Hq). by destruct (Hno q).
      * intros q. split; [done|]. intros (_ & Hq). by destruct (Hno q).
  - assert (∀ q, ¬ (q ∈ COMMAND_PROFILES ∧ id q = profile_id)) as Hno.
    { intros q [Hq <-]. apply profile_id_short, Nat.leb_le in Hq. congruence. }
    simpl. split_and!; try done.
    * split; [done|]. intros (_ & _ & q & Hq). by destruct (Hno q).
    * intros q. split; [done|]. intros (_ & Hq). by destruct (Hno q).
Qed.
End CommandPolicy.
