(* ===== verification/CommandExecution.v ===== *)
(** * Running command profiles

    [src/src/command_execution.rs]: the client that pins the running executable
    and a safe-rooted working directory, and runs one profile under a two-permit
    lane.  Descriptors are the interface [Kernel], child processes the interface
    [ProcessRunner]. *)

From S2P Require Import Prelude RustStd RustPath RequestLimits BoundedProcess CommandPolicy.

(** Third-party code and the kernel: [std::env::current_exe], [rustix::fs::open],
    [fstat] (with the file-type predicates of a mode) and the descriptor number.
    [open] takes the path and whether the source asks for a directory and for no
    symbolic link at the end. *)
Record FileStat := mkStat { st_mode : N; st_dev : N; st_ino : N }.

Class Kernel := {
  fd : Type;
  current_exe : option bytes;
  open_path : bytes → bool → bool → option fd;
  fstat : fd → option FileStat;
  as_raw_fd : fd → N;
  mode_is_file : N → bool;
  mode_is_dir : N → bool;
}.

Module CommandExecution.
Import BoundedProcess.

Definition MAX_CONCURRENT_COMMAND_PROFILES : nat := 2.
(** [CARGO_PKG_NAME]. *)
Definition EXPECTED_SERVER_EXECUTABLE_NAME : bytes := bs "termux-mcp-server".
Definition PINNED_CURRENT_EXECUTABLE : bytes := bs "/proc/self/exe".

Inductive CommandClientConfigError :=
| CurrentExecutableUnavailable
| CurrentExecutableIdentityMismatch
| ProgramMustBeAbsolute
| WorkingDirectoryMustBeSafeRooted.

Inductive CommandExecutionError :=
| CommandProgramUnavailable
| CommandSpawnFailed
| CommandWaitFailed
| CommandTimedOut
| CommandStdoutLimitExceeded
| CommandStderrLimitExceeded
| CommandProgramFailed
| CommandInvalidUtf8
| CommandConcurrencyLimitExceeded.

Record CommandExecutionResult := mkCommandResult {
  profile : bytes;
  exit_code : Z;
  c_stdout : bytes;
  c_stderr : bytes;
  stdout_bytes : N;
  stderr_bytes : N;
  duration_milliseconds : N;
}.

Definition from_process_error (e : BoundedProcessError) : CommandExecutionError :=
  match e with
  | ProgramUnavailable => CommandProgramUnavailable
  | SpawnFailed => CommandSpawnFailed
  | WaitFailed => CommandWaitFailed
  | TimedOut => CommandTimedOut
  | StdoutLimitExceeded => CommandStdoutLimitExceeded
  | StderrLimitExceeded => CommandStderrLimitExceeded
  | ProgramFailed => CommandProgramFailed
  end.

(** ** The client *)

Section client.
Context {K : Kernel} {S : Semaphore}.

(** The client but for its lane, which is shared state. *)
Record CommandExecutionClient := mkCommandClient {
  program : bytes;
  working_directory : bytes;
  working_directory_guard : fd;
}.

(** [st_mode & 0o111 == 0]. *)
Definition not_executable (s : FileStat) : bool := (N.land (st_mode s) 73 =? 0)%N.

Definition same_file (a b : FileStat) : bool := (st_dev a =? st_dev b)%N && (st_ino a =? st_ino b)%N.

Definition client_new (program : bytes) (guard : fd)
    : Result CommandClientConfigError CommandExecutionClient :=
  _ ← fail_if (negb (is_absolute program)) ProgramMustBeAbsolute;
  identity ← ok_or (fstat guard) WorkingDirectoryMustBeSafeRooted;
  root ← ok_or (open_path (bs "/") true false) WorkingDirectoryMustBeSafeRooted;
  root_identity ← ok_or (fstat root) WorkingDirectoryMustBeSafeRooted;
  _ ← fail_if (negb (mode_is_dir (st_mode identity)) || same_file identity root_identity)
        WorkingDirectoryMustBeSafeRooted;
  let working_directory := bs "/proc/self/fd/" ++ print_N (as_raw_fd guard) in
  reopened ← ok_or (open_path working_directory true false) WorkingDirectoryMustBeSafeRooted;
  reopened ← ok_or (fstat reopened) WorkingDirectoryMustBeSafeRooted;
  _ ← fail_if (negb (st_dev reopened =? st_dev identity)%N
               || negb (st_ino reopened =? st_ino identity)%N) WorkingDirectoryMustBeSafeRooted;
  Ok (mkCommandClient program working_directory guard).

Definition exact_server_program (program : bytes) (guard : fd)
    : Result CommandClientConfigError CommandExecutionClient :=
  _ ← fail_if (negb (is_absolute program)
               || negb (bool_decide (file_name program = Some EXPECTED_SERVER_EXECUTABLE_NAME)))
        CurrentExecutableIdentityMismatch;
  loaded ← ok_or (open_path PINNED_CURRENT_EXECUTABLE false false) CurrentExecutableUnavailable;
  loaded ← ok_or (fstat loaded) CurrentExecutableUnavailable;
  candidate ← ok_or (open_path program false true) CurrentExecutableIdentityMismatch;
  candidate ← ok_or (fstat candidate) CurrentExecutableIdentityMismatch;
  _ ← fail_if (negb (mode_is_file (st_mode candidate)) || negb (mode_is_file (st_mode loaded))
               || not_executable candidate || not_executable loaded
               || negb (st_dev candidate =? st_dev loaded)%N
               || negb (st_ino candidate =? st_ino loaded)%N) CurrentExecutableIdentityMismatch;
  client_new PINNED_CURRENT_EXECUTABLE guard.

Definition current_server (guard : fd) : Result CommandClientConfigError CommandExecutionClient :=
  program ← ok_or current_exe CurrentExecutableUnavailable;
  exact_server_program program guard.

(** [u64::try_from(duration.as_millis()).unwrap_or(u64::MAX)], of nanoseconds. *)
Definition to_millis (nanos : N) : N := N.min (nanos / 1000000) u64_max.

Definition command_process (self : CommandExecutionClient) (p : CommandPolicy.CommandProfile)
    : Result BoundedProcessConfigError BoundedProcess :=
  process_new (program self) (CommandPolicy.argv p) (working_directory self)
    (CommandPolicy.timeout p) (CommandPolicy.max_stdout_bytes p) (CommandPolicy.max_stderr_bytes p).

(** [execute] once its process ended. *)
Definition command_result (p : CommandPolicy.CommandProfile)
    (output : Result BoundedProcessError BoundedProcessOutput)
    : Result CommandExecutionError CommandExecutionResult :=
  output ← map_err from_process_error output;
  let stdout_bytes := N.of_nat (length (stdout output)) in
  let stderr_bytes := N.of_nat (length (stderr output)) in
  stdout ← ok_or (from_utf8 (stdout output)) CommandInvalidUtf8;
  stderr ← ok_or (from_utf8 (stderr output)) CommandInvalidUtf8;
  Ok (mkCommandResult (CommandPolicy.id p) 0 stdout stderr stdout_bytes stderr_bytes
        (to_millis (duration output))).

(** [execute]: the permit is dropped when it returns. *)
Definition execute {R : ProcessRunner} (self : CommandExecutionClient)
    (p : CommandPolicy.CommandProfile) (lane : sem) (w : world)
    : sem * world * Result CommandExecutionError CommandExecutionResult :=
  match try_acquire lane with
  | None => (lane, w, Err CommandConcurrencyLimitExceeded)
  | Some lane =>
    match command_process self p with
    | Err _ => (release lane, w, Err CommandWaitFailed)
    | Ok process =>
      let '(w, output) := run_process process w in
      (release lane, w, command_result p output)
    end
  end.

(** ** Lemmas *)

Lemma client_new_Ok prog guard self :
  client_new prog guard = Ok self ↔
  is_absolute prog = true ∧
  self = mkCommandClient prog (bs "/proc/self/fd/" ++ print_N (as_raw_fd guard)) guard ∧
  ∃ wd root root_id reopened_fd reopened,
    fstat guard = Some wd ∧ open_path (bs "/") true false = Some root ∧
    fstat root = Some root_id ∧ mode_is_dir (st_mode wd) = true ∧ same_file wd root_id = false ∧
    open_path (working_directory self) true false = Some reopened_fd ∧
    fstat reopened_fd = Some reopened ∧ same_file reopened wd = true.
Proof.
  unfold client_new, same_file. split.
  - intros H. inv_ok H. reflect_guards; simplify_eq;
      (split_and!; [done|done|]); eexists _, _, _, _, _; split_and!; try done;
      rewrite ?andb_true_iff, ?andb_false_iff, ?N.eqb_eq, ?N.eqb_neq; eauto.
  - intros (Ha & -> & wd & root & root_id & rf & re & Hw & Hr & Hri & Hd & Hs & Ho & Hf & Hsame).
    rewrite Ha, Hw, Hr. simpl. rewrite Hri. simpl. rewrite Hd, Hs. simpl in *. rewrite Ho. simpl.
    rewrite Hf. simpl. apply andb_true_iff in Hsame as [-> ->]. done.
Qed.
End client.

(** ** Properties *)

Section properties.
Context {K : Kernel} {S : Semaphore} {R : ProcessRunner}.
Context (SL : SemaphoreLaws S) (RL : ProcessRunnerLaws R).

(** The process of a reviewed profile: the pinned program with the profile's
    arguments, an empty environment and the pinned working directory. *)
Definition reviewed_process (self : CommandExecutionClient) (p : CommandPolicy.CommandProfile)
    : BoundedProcess :=
  mkProcess (program self) (CommandPolicy.argv p) [] (working_directory self)
    (CommandPolicy.timeout p) (CommandPolicy.max_stdout_bytes p) (CommandPolicy.max_stderr_bytes p)
    None.

Lemma command_process_Ok self p :
  p ∈ CommandPolicy.COMMAND_PROFILES → command_process self p = Ok (reviewed_process self p).
Proof. intros Hp. apply new_inner_Ok. split; [by apply CommandPolicy.profile_within_bounds|done]. Qed.

Lemma command_result_Ok p out r :
  command_result p out = Ok r ↔
  ∃ o, out = Ok o ∧ utf8_valid (stdout o) = true ∧ utf8_valid (stderr o) = true ∧
    r = mkCommandResult (CommandPolicy.id p) 0 (stdout o) (stderr o)
          (N.of_nat (length (stdout o))) (N.of_nat (length (stderr o))) (to_millis (duration o)).
Proof.
  unfold command_result, from_utf8. destruct out as [o|e]; simpl; [|by split; [|intros (? & ? & _)]].
  split.
  - destruct (utf8_valid (stdout o)) eqn:E1, (utf8_valid (stderr o)) eqn:E2; try done.
    intros [= <-]. eauto.
  - by intros (o' & [= <-] & -> & -> & ->).
Qed.

(** A reviewed profile runs as reviewed.  With no permit left the call is
    refused and nothing is started; otherwise exactly one process is started, the
    pinned program with the profile's own arguments and bounds, an empty
    environment and the pinned working directory; the permit is back when the
    call returns, and a result carries exactly the process's output, valid UTF-8
    and within the profile's limits, of a process that exited successfully. *)
Theorem command_run_exact self p lane w :
  p ∈ CommandPolicy.COMMAND_PROFILES →
  let '(lane', w', r) := execute self p lane w in
  available_permits lane' = available_permits lane ∧
  (available_permits lane = 0 → w' = w ∧ r = Err CommandConcurrencyLimitExceeded) ∧
  (0 < available_permits lane →
   ∃ out, run_process (reviewed_process self p) w = (w', out) ∧ r = command_result p out ∧
     ∀ result, r = Ok result →
       ∃ o, out = Ok o ∧ c_stdout result = stdout o ∧ c_stderr result = stderr o ∧
         utf8_valid (stdout o) = true ∧ utf8_valid (stderr o) = true ∧
         profile result = CommandPolicy.id p ∧ exit_code result = 0%Z ∧
         stdout_bytes result = N.of_nat (length (stdout o)) ∧
         stderr_bytes result = N.of_nat (length (stderr o)) ∧
         (stdout_bytes result ≤ CommandPolicy.max_stdout_bytes p)%N ∧
         (stderr_bytes result ≤ CommandPolicy.max_stderr_bytes p)%N).
Proof.
  intros Hp. unfold execute. rewrite command_process_Ok by done.
  destruct (try_acquire lane) as [lane1|] eqn:Ea.
  - apply try_acquire_Some in Ea.
    destruct (run_process _ w) as [w' out] eqn:Er. rewrite available_release.
    split_and!; [lia|lia|]. intros _. exists out. split_and!; [done..|].
    intros result (o & -> & H1 & H2 & ->)%command_result_Ok.
    apply run_process_bounded in Er as [Ho He]. exists o. simpl in *. split_and!; done.
  - apply try_acquire_None in Ea. split_and!; [done|done|lia].
Qed.

(** Only this very server is ever executed.  A client is built only when the
    named executable is an absolute path to a file called like the server, which
    is the very file the kernel loaded (same device and inode, both regular and
    executable); it then runs the pinned image, in a working directory that is
    the supplied directory, not the root of the filesystem. *)
Theorem pinned_server_only prog guard self :
  exact_server_program prog guard = Ok self →
  program self = PINNED_CURRENT_EXECUTABLE ∧ working_directory_guard self = guard ∧
  is_absolute prog = true ∧ file_name prog = Some EXPECTED_SERVER_EXECUTABLE_NAME ∧
  (∃ loaded_fd loaded candidate_fd candidate,
     open_path PINNED_CURRENT_EXECUTABLE false false = Some loaded_fd ∧
     fstat loaded_fd = Some loaded ∧
     open_path prog false true = Some candidate_fd ∧ fstat candidate_fd = Some candidate ∧
     same_file candidate loaded = true ∧
     mode_is_file (st_mode loaded) = true ∧ not_executable loaded = false ∧
     mode_is_file (st_mode candidate) = true ∧ not_executable candidate = false) ∧
  (∃ wd root root_id reopened_fd reopened,
     fstat guard = Some wd ∧ mode_is_dir (st_mode wd) = true ∧
     open_path (bs "/") true false = Some root ∧ fstat root = Some root_id ∧
     same_file wd root_id = false ∧
     open_path (working_directory self) true false = Some reopened_fd ∧
     fstat reopened_fd = Some reopened ∧ same_file reopened wd = true).
Proof.
  unfold exact_server_program. intros H. inv_ok H. reflect_guards.
  apply client_new_Ok in H as (_ & Hself & wd & root & root_id & rf & re & Hwd).
  split_and!; try done; [by rewrite Hself..| |].
  - eexists _, _, _, _. split_and!; try done. unfold same_file. apply andb_true_iff.
    by rewrite !N.eqb_eq.
  - exists wd, root, root_id, rf, re. tauto.
Qed.
End properties.

(** ** Witnesses *)

(** A kernel whose descriptors are the inode numbers 1 (the root), 2 (the server)
    and 3 (the working directory). *)
Definition example_kernel : Kernel := {|
  fd := N;
  current_exe := Some (bs "/bin/termux-mcp-server");
  open_path p _ _ :=
    if bytes_eqb p (bs "/") then Some 1%N
    else if contains [bs "/bin/termux-mcp-server"; PINNED_CURRENT_EXECUTABLE] p then Some 2%N
    else if bytes_eqb p (bs "/proc/self/fd/3") then Some 3%N
    else None;
  fstat d := Some (mkStat (if (d =? 2)%N then 33261 else 16877) 0 d);
  as_raw_fd d := d;
  mode_is_file m := (m =? 33261)%N;
  mode_is_dir m := (m =? 16877)%N;
|}.

Definition example_client : CommandExecutionClient (K := example_kernel) :=
  mkCommandClient (K := example_kernel) PINNED_CURRENT_EXECUTABLE (bs "/proc/self/fd/3") 3%N.

Lemma pinned_server_only_witness :
  current_server (K := example_kernel) 3%N = Ok example_client ∧
  working_directory_guard (K := example_kernel) example_client = 3%N.
Proof.
  assert (exact_server_program (K := example_kernel) (bs "/bin/termux-mcp-server") 3%N
    = Ok example_client) as H by (vm_compute; reflexivity).
  split; [vm_compute; reflexivity|].
  exact (proj1 (proj2 (pinned_server_only (K := example_kernel) _ _ _ H))).
Defined.

(** The observation of one "--version" run that prints "v1". *)
Definition version_observation : Observation := {|
  started_at := 0;
  spawn := Spawned (Some 42%N) true true;
  polls := [mkPoll false false [Read (bs "v1") true; Read [] true] [Read [] true] None;
            mkPoll false false [] [Read [] true] None;
            mkPoll false false [] [] (Some (Exited true))];
  reap := mkReap 5 true WaitOk 6;
  joined := true;
  finished_at := 2500000;
|}.

Definition version_profile : CommandPolicy.CommandProfile :=
  CommandPolicy.mkProfile (bs "server_version") 1 [bs "--version"] 5000000000 (4 * 1024) 1024.

Lemma command_run_exact_witness :
  ∃ out, run_process (ProcessRunner := observed_runner)
           (reviewed_process (K := example_kernel) example_client version_profile)
           [version_observation] = ([], out) ∧
    command_result version_profile out
      = Ok (mkCommandResult (bs "server_version") 0 (bs "v1") [] 2 0 2).
Proof.
  pose proof (command_run_exact (K := example_kernel) (S := example_semaphore)
    (R := observed_runner) example_semaphore_laws observed_runner_laws example_client
    version_profile 2 [version_observation]) as H.
  assert (version_profile ∈ CommandPolicy.COMMAND_PROFILES) as Hin by (left; reflexivity).
  specialize (H Hin).
  destruct (execute _ _ _ _) as [[lane' w'] r] eqn:E. vm_compute in E. injection E as <- <- <-.
  destruct H as (_ & _ & H). destruct H as (out & Hrun & Hr & _); [vm_compute; lia|].
  exists out. split; [exact Hrun|]. rewrite <-Hr. reflexivity.
Defined.
End CommandExecution.
