(* ===== verification/Base64.v ===== *)
(** * Base64 encoding of file contents

    [encode_base64] and [base64_encoded_len] of [src/src/tools/filesystem.rs], with
    a reference decoder. *)

From S2P Require Import Prelude.

Module Base64.

Definition ALPHABET : bytes := bs "ABCDEFGHIJKLMNOPQRSTUVWXYZabcdefghijklmnopqrstuvwxyz0123456789+/".
Definition EQUALS : byte := byte_of 61.
(** [ALPHABET[index] as char]; the index is a sextet. *)
Definition letter (index : N) : byte := default x00 (ALPHABET !! N.to_nat index).

(** [byte_len.checked_add(2)?.checked_div(3)?.checked_mul(4)] on a [usize]. *)
Definition base64_encoded_len (byte_len : N) : option N :=
  padded ← checked_add64 byte_len 2;
  let groups := (padded / 3)%N in
  if (groups * 4 <=? u64_max)%N then Some (groups * 4)%N else None.

Section sextets.
Open Scope N_scope.
Definition sextet1 (first : byte) : N := N.shiftr (byte_val first) 2.
Definition sextet2 (first second : byte) : N :=
  N.lor (N.shiftl (N.land (byte_val first) 3) 4) (N.shiftr (byte_val second) 4).
Definition sextet3 (second third : byte) : N :=
  N.lor (N.shiftl (N.land (byte_val second) 15) 2) (N.shiftr (byte_val third) 6).
Definition sextet4 (third : byte) : N := N.land (byte_val third) 63.
End sextets.

(** The loop over groups of three bytes, and the rest of one or two. *)
Fixpoint encode_base64 (bytes : bytes) : Prelude.bytes :=
  match bytes with
  | first :: second :: third :: rest =>
    letter (sextet1 first) :: letter (sextet2 first second) :: letter (sextet3 second third)
      :: letter (sextet4 third) :: encode_base64 rest
  | [first; second] =>
    [letter (sextet1 first); letter (sextet2 first second);
     letter (N.shiftl (N.land (byte_val second) 15) 2); EQUALS]
  | [first] =>
    [letter (sextet1 first); letter (N.shiftl (N.land (byte_val first) 3) 4); EQUALS; EQUALS]
  | [] => []
  end.

(** ** The reference: RFC 4648, canonical *)

Definition value (c : byte) : option N :=
  N.of_nat <$> (fst <$> list_find (λ x, x = c) ALPHABET).

Definition join_byte (hi lo : N) : byte := byte_of ((hi + lo) mod 256).

(** A group of four characters; the unused bits of a padded one are zero. *)
Definition decode_group (c1 c2 c3 c4 : byte) : option bytes :=
  v1 ← value c1; v2 ← value c2;
  let b1 := join_byte (v1 * 4) (v2 / 16) in
  if bool_decide (c3 = EQUALS) then
    (if bool_decide (c4 = EQUALS) && (v2 mod 16 =? 0)%N then Some [b1] else None)
  else
    v3 ← value c3;
    let b2 := join_byte (v2 * 16) (v3 / 4) in
    if bool_decide (c4 = EQUALS) then (if (v3 mod 4 =? 0)%N then Some [b1; b2] else None)
    else v4 ← value c4; Some [b1; b2; join_byte (v3 * 64) v4].

Fixpoint decode_base64 (s : bytes) : option bytes :=
  match s with
  | [] => Some []
  | c1 :: c2 :: c3 :: c4 :: rest =>
    group ← decode_group c1 c2 c3 c4;
    if bool_decide (rest = []) then Some group
    else if length group =? 3 then decoded ← decode_base64 rest; Some (group ++ decoded)
    else None
  | _ => None
  end.

(** ** Round trip *)

Definition all_bytes : list byte := byte_of <$> (N.of_nat <$> seq 0 256).
Lemma all_bytes_all b : b ∈ all_bytes.
Proof.
  unfold all_bytes. rewrite <-(byte_of_val b). apply list_elem_of_fmap_2.
  rewrite <-(N2Nat.id (byte_val b)). apply list_elem_of_fmap_2. apply elem_of_seq.
  pose proof (byte_val_lt b). lia.
Qed.

Lemma all_bytes_forallb (f : byte → bool) : forallb f all_bytes = true → ∀ b, f b = true.
Proof. intros Hf b. eapply forallb_forall in Hf; [exact Hf|]. apply list_elem_of_In, all_bytes_all. Qed.

Lemma value_letter n : (n < 64)%N → value (letter n) = Some n ∧ letter n ≠ EQUALS.
Proof.
  intros Hn.
  assert (forallb (λ n, bool_decide (value (letter n) = Some n) && negb (bool_decide (letter n = EQUALS)))
            (N.of_nat <$> seq 0 64) = true) as H by (vm_compute; reflexivity).
  eapply forallb_forall in H.
  - rewrite andb_true_iff, negb_true_iff, bool_decide_eq_true, bool_decide_eq_false in H. exact H.
  - rewrite <-list_elem_of_In, <-(N2Nat.id n). apply list_elem_of_fmap_2, elem_of_seq. lia.
Qed.

(** What the decoder needs of the sextets, checked on all bytes. *)
Lemma sextets_decode a b :
  (sextet1 a < 64)%N ∧ (sextet2 a b < 64)%N ∧ (sextet3 a b < 64)%N ∧ (sextet4 a < 64)%N ∧
  (sextet2 a b / 16 = byte_val a mod 4)%N ∧ (sextet2 a b mod 16 = byte_val b / 16)%N ∧
  (sextet3 a b / 4 = byte_val a mod 16)%N ∧ (sextet3 a b mod 4 = byte_val b / 64)%N ∧
  (sextet1 a = byte_val a / 4)%N ∧ (sextet4 a = byte_val a mod 64)%N.
Proof.
  pose (f a b := (sextet1 a <? 64)%N && (sextet2 a b <? 64)%N && (sextet3 a b <? 64)%N
     && (sextet4 a <? 64)%N && (sextet2 a b / 16 =? byte_val a mod 4)%N
     && (sextet2 a b mod 16 =? byte_val b / 16)%N && (sextet3 a b / 4 =? byte_val a mod 16)%N
     && (sextet3 a b mod 4 =? byte_val b / 64)%N && (sextet1 a =? byte_val a / 4)%N
     && (sextet4 a =? byte_val a mod 64)%N).
  assert (forallb (λ a, forallb (f a) all_bytes) all_bytes = true) as H by (vm_compute; reflexivity).
  pose proof (all_bytes_forallb _ (all_bytes_forallb _ H a) b) as Hab. unfold f in Hab.
  rewrite !andb_true_iff, !N.ltb_lt, !N.eqb_eq in Hab. tauto.
Qed.

Lemma join_byte_eq hi lo b : ((hi + lo) mod 256 = byte_val b)%N → join_byte hi lo = b.
Proof. intros H. unfold join_byte. by rewrite H, byte_of_val. Qed.

Lemma decode_sextets a b c :
  join_byte (sextet1 a * 4) (sextet2 a b / 16) = a ∧
  join_byte (sextet2 a b * 16) (sextet3 b c / 4) = b ∧
  join_byte (sextet3 b c * 64) (sextet4 c) = c.
Proof.
  destruct (sextets_decode a b) as (_ & _ & _ & _ & H1 & H2 & _ & _ & H3 & _).
  destruct (sextets_decode b c) as (_ & _ & _ & _ & _ & _ & H4 & H5 & _ & _).
  destruct (sextets_decode c c) as (_ & _ & _ & _ & _ & _ & _ & _ & _ & H6).
  pose proof (byte_val_lt a). pose proof (byte_val_lt b). pose proof (byte_val_lt c).
  split_and!; apply join_byte_eq.
  - rewrite H1, H3. pose proof (N.div_mod' (byte_val a) 4). rewrite N.mod_small; lia.
  - rewrite H4. rewrite (N.div_mod' (sextet2 a b) 16), H2.
    replace ((16 * (sextet2 a b / 16) + byte_val b / 16) * 16 + byte_val b mod 16)%N
      with (byte_val b + sextet2 a b / 16 * 256)%N by (pose proof (N.div_mod' (byte_val b) 16); lia).
    rewrite N.Div0.mod_add, N.mod_small; lia.
  - rewrite H6. rewrite (N.div_mod' (sextet3 b c) 4), H5.
    replace ((4 * (sextet3 b c / 4) + byte_val c / 64) * 64 + byte_val c mod 64)%N
      with (byte_val c + sextet3 b c / 4 * 256)%N by (pose proof (N.div_mod' (byte_val c) 64); lia).
    rewrite N.Div0.mod_add, N.mod_small; lia.
Qed.

(** The padded groups are the full ones with zero bytes. *)
Lemma sextet_zero b :
  N.shiftl (N.land (byte_val b) 3) 4 = sextet2 b x00 ∧ N.shiftl (N.land (byte_val b) 15) 2 = sextet3 b x00.
Proof. unfold sextet2, sextet3. cbn [byte_val Byte.to_N]. by rewrite !N.shiftr_0_l, !N.lor_0_r. Qed.

Lemma decode_full a b c :
  decode_group (letter (sextet1 a)) (letter (sextet2 a b)) (letter (sextet3 b c)) (letter (sextet4 c))
  = Some [a; b; c].
Proof.
  destruct (sextets_decode a b) as (L1 & L2 & _). destruct (sextets_decode b c) as (_ & _ & L3 & _).
  destruct (sextets_decode c c) as (_ & _ & _ & L4 & _). destruct (decode_sextets a b c) as (E1 & E2 & E3).
  unfold decode_group.
  rewrite (proj1 (value_letter _ L1)). simpl. rewrite (proj1 (value_letter _ L2)). simpl.
  rewrite !bool_decide_eq_false_2 by (by apply value_letter).
  rewrite (proj1 (value_letter _ L3)). simpl. rewrite (proj1 (value_letter _ L4)). simpl.
  by rewrite E1, E2, E3.
Qed.

Lemma decode_two a b :
  decode_group (letter (sextet1 a)) (letter (sextet2 a b)) (letter (sextet3 b x00)) EQUALS = Some [a; b].
Proof.
  destruct (sextets_decode a b) as (L1 & L2 & _).
  destruct (sextets_decode b x00) as (_ & _ & L3 & _ & _ & _ & _ & Hz & _).
  destruct (decode_sextets a b x00) as (E1 & E2 & _). unfold decode_group.
  rewrite (proj1 (value_letter _ L1)). simpl. rewrite (proj1 (value_letter _ L2)). simpl.
  rewrite bool_decide_eq_false_2 by (by apply value_letter).
  rewrite (proj1 (value_letter _ L3)). simpl. rewrite Hz, E1, E2. done.
Qed.

Lemma decode_one a :
  decode_group (letter (sextet1 a)) (letter (sextet2 a x00)) EQUALS EQUALS = Some [a].
Proof.
  destruct (sextets_decode a x00) as (L1 & L2 & _ & _ & _ & Hz & _).
  destruct (decode_sextets a x00 x00) as (E1 & _). unfold decode_group.
  rewrite (proj1 (value_letter _ L1)). simpl. rewrite (proj1 (value_letter _ L2)). simpl.
  rewrite Hz, E1. done.
Qed.

Lemma length_encode_base64 b : N.of_nat (length (encode_base64 b)) = ((N.of_nat (length b) + 2) / 3 * 4)%N.
Proof.
  induction b as [b IH] using (induction_ltof1 _ (@length byte)). unfold ltof in IH.
  destruct b as [|a [|b' [|c rest]]]; [done..|]. cbn [encode_base64 length].
  rewrite !Nat2N.inj_succ, IH by (simpl; lia).
  replace (N.succ (N.succ (N.succ (N.of_nat (length rest)))) + 2)%N
    with (N.of_nat (length rest) + 2 + 1 * 3)%N by lia.
  rewrite N.div_add by lia. lia.
Qed.

Lemma decode_encode_base64 b : decode_base64 (encode_base64 b) = Some b.
Proof.
  induction b as [b IH] using (induction_ltof1 _ (@length byte)). unfold ltof in IH.
  destruct b as [|a [|b' [|c rest]]]; [done|..]; cbn [encode_base64 decode_base64].
  - by rewrite (proj1 (sextet_zero a)), decode_one.
  - by rewrite (proj2 (sextet_zero b')), decode_two.
  - rewrite decode_full. simpl. rewrite IH by (simpl; lia). case_bool_decide as Hr; [|done].
    destruct rest as [|? [|? [|? ?]]]; [done|discriminate..].
Qed.

(** Base64 encoding loses nothing: the canonical RFC 4648 decoder, which
    refuses non-zero padding bits, gives the bytes back, and the text has exactly
    the length [base64_encoded_len] computes, which only overflows when no buffer
    can be that long. *)
Theorem base64_round_trip b :
  decode_base64 (encode_base64 b) = Some b ∧
  base64_encoded_len (N.of_nat (length b)) =
    if (N.of_nat (length (encode_base64 b)) <=? u64_max)%N
    then Some (N.of_nat (length (encode_base64 b))) else None.
Proof.
  split; [apply decode_encode_base64|]. rewrite length_encode_base64. unfold base64_encoded_len.
  set (n := N.of_nat (length b)).
  destruct (checked_add64 n 2) as [padded|] eqn:E; simpl.
  - by apply checked_add64_Some in E as [-> _].
  - unfold checked_add64 in E. destruct (N.leb_spec (n + 2) u64_max); [done|].
    destruct (N.leb_spec ((n + 2) / 3 * 4) u64_max) as [Hle|]; [|done]. exfalso.
    pose proof (N.div_mod' (n + 2) 3). pose proof (N.mod_lt (n + 2) 3 ltac:(done)).
    unfold u64_max in *. lia.
Qed.

End Base64.
