(* ===== verification/FsCalls.v ===== *)
(** * Filesystem programs as trees of system calls

    The filesystem tools ([src/src/tools/filesystem.rs]) are sequences of
    descriptor-relative system calls whose answers other processes can influence.
    A tool is modelled as a [prog]: the tree of the calls it makes, one branch for
    every answer.  [exec] runs a program against arbitrary answers and keeps the
    history of the run; [run] runs it against a given kernel.  [safe] is the
    program logic of the development: which call is allowed after which history,
    and what holds of the result. *)

From S2P Require Import Prelude RustStd AppErrors GrantToken WriteFileGrant CopyFileGrant.
From S2P Require Import TrashFileGrant CreateDirectoryGrant.

(** ** Third-party data: [rustix::fs] *)

Inductive FileType := RegularFile | Directory | Symlink | OtherFileType.
#[global] Instance file_type_eq_dec : EqDecision FileType.
Proof. solve_decision. Defined.

(** [FileType::from_raw_mode]. *)
Class FileModes := from_raw_mode : N → FileType.

Record Stat := mkStat {
  st_mode : N;
  st_dev : N;
  st_ino : N;
  st_nlink : N;
  st_size : Z;
  st_ctime : Z;
  st_ctime_nsec : Z;
  st_mtime : Z;
}.

Inductive OFlag := RDONLY | RDWR | PATH | DIRECTORY | NOFOLLOW | NONBLOCK | CLOEXEC | CREATE | EXCL.
#[global] Instance oflag_eq_dec : EqDecision OFlag.
Proof. solve_decision. Defined.

Inductive RenameFlags := NOREPLACE | EXCHANGE.
#[global] Instance rename_flags_eq_dec : EqDecision RenameFlags.
Proof. solve_decision. Defined.

(** An open descriptor, an [OwnedFd] or a [File]. *)
Definition fd : Type := N.

(** ** Calls

    The calls of [rustix::fs] (a [Statat] never follows a symbolic link, the
    source always passes [SYMLINK_NOFOLLOW]; a [Flock] is nonblocking and
    exclusive), those of [std::fs::File], the clock, the UUID generator, the
    process-wide publication mutex, and the two callbacks of the transport.
    Closing a descriptor, which releases its lock, and metrics are left out.  A
    [Panic] asks for nothing: a release build ends the process there
    ([panic = "abort"] in [src/Cargo.toml]), and only a build that unwinds comes
    back from it. *)
Inductive MutationTarget :=
| CreateDirectoryTarget (t : CreateDirectory.CreateDirectoryGrantTarget)
| WriteFileTarget (t : WriteFile.WriteFileGrantTarget)
| CopyFileTarget (t : CopyFile.CopyFileGrantTarget)
| TrashFileTarget (t : TrashFile.TrashFileGrantTarget).

Inductive TryLockAnswer := Acquired | Poisoned | WouldBlock.

(** [AuthorizedCreateDirectoryError], [AuthorizedCopyFileError],
    [AuthorizedTrashFileError] and [AuthorizedWriteFileError]. *)
Inductive AuthorizedError :=
| Authorization (e : GrantError.t)
| Filesystem (e : AppErrors.AppError)
| Cancelled.

Inductive call :=
| SymlinkMetadata (path : bytes)
| OpenRoot (flags : list OFlag)
| Fstat (d : fd)
| Statat (dir : fd) (name : bytes)
| Openat (dir : fd) (name : bytes) (flags : list OFlag) (mode : N)
| Mkdirat (dir : fd) (name : bytes) (mode : N)
| RenameatWith (old_dir : fd) (old_name : bytes) (new_dir : fd) (new_name : bytes) (flags : RenameFlags)
| Unlinkat (dir : fd) (name : bytes) (removedir : bool)
| Fsync (d : fd)
| Fchmod (d : fd) (mode : N)
| Flock (d : fd)
| ReadDir (d : fd)
| SeekStart (file : fd) (offset : N)
| ReadToEnd (file : fd)
| Read (file : fd) (buffer : N)
| WriteAll (file : fd) (content : bytes)
| SyncAll (file : fd)
| NewUuid
| Elapsed
| Sleep (nanos : N)
| TryLock
| LockPublication
| UnlockPublication
| OnLockContention
| Authorize (target : MutationTarget)
| Panic.

Definition answer (c : call) : Type :=
  match c with
  | SymlinkMetadata _ => Result IoError Stat
  | OpenRoot _ => Result Errno fd
  | Fstat _ | Statat _ _ => Result Errno Stat
  | Openat _ _ _ _ => Result Errno fd
  | Mkdirat _ _ _ | RenameatWith _ _ _ _ _ | Unlinkat _ _ _ | Fsync _ | Fchmod _ _ | Flock _ =>
      Result Errno unit
  | ReadDir _ => Result Errno (list (Result Errno bytes))
  | SeekStart _ _ | WriteAll _ _ | SyncAll _ => Result IoError unit
  | ReadToEnd _ | Read _ _ => Result IoError bytes
  | NewUuid => bytes
  | Elapsed => N
  | Sleep _ | UnlockPublication | OnLockContention | Panic => unit
  | TryLock => TryLockAnswer
  | LockPublication => bool
  | Authorize _ => Result AuthorizedError unit
  end.

(** The calls that change the filesystem; a program that makes none is a read. *)
Definition mutating (c : call) : bool :=
  match c with
  | Openat _ _ flags _ => bool_decide (CREATE ∈ flags)
  | Mkdirat _ _ _ | RenameatWith _ _ _ _ _ | Unlinkat _ _ _ | Fchmod _ _ | WriteAll _ _ => true
  | _ => false
  end.
Definition authorizing (c : call) : bool := match c with Authorize _ => true | _ => false end.
(** Neither changes the filesystem nor asks for authorization. *)
Definition passive (c : call) : bool := negb (mutating c) && negb (authorizing c).

(** ** Programs *)

Inductive prog (A : Type) :=
| Ret (a : A)
| Do (c : call) (k : answer c → prog A).
Arguments Ret {A} a.
Arguments Do {A} c k.

Fixpoint prog_bind {A B} (p : prog A) (f : A → prog B) : prog B :=
  match p with
  | Ret a => f a
  | Do c k => Do c (λ r, prog_bind (k r) f)
  end.

(** Programs that can fail. *)
Definition fs (E A : Type) : Type := prog (Result E A).
Definition fs_bind {E A B} (p : fs E A) (f : A → fs E B) : fs E B :=
  prog_bind p (λ r, match r with Ok a => f a | Err e => Ret (Err e) end).

#[export] Instance fs_ret E : MRet (fs E) := λ A a, Ret (Ok a).
#[export] Instance fs_mbind E : MBind (fs E) := λ A B f p, fs_bind p f.

Definition lift {E A} (r : Result E A) : fs E A := Ret r.
Definition throw {E A} (e : E) : fs E A := Ret (Err e).
(** [Result::map_err]. *)
Definition or_err {E F A} (f : E → F) (p : fs E A) : fs F A :=
  prog_bind p (λ r, Ret (map_err f r)).
(** A [match] on the outcome. *)
Definition attempt {E F A B} (p : fs E A) (f : Result E A → fs F B) : fs F B := prog_bind p f.
(** A call that cannot fail. *)
Definition total {E A} (p : prog A) : fs E A := prog_bind p (λ a, Ret (Ok a)).
(** [m] and then [finally], whatever [m] answered. *)
Definition bracket {E A} (m : fs E A) (finally : prog unit) : fs E A :=
  prog_bind m (λ r, prog_bind finally (λ _, Ret r)).

Definition fstat d : fs Errno Stat := Do (Fstat d) Ret.
Definition statat dir name : fs Errno Stat := Do (Statat dir name) Ret.
Definition openat dir name flags mode : fs Errno fd := Do (Openat dir name flags mode) Ret.
Definition mkdirat dir name mode : fs Errno unit := Do (Mkdirat dir name mode) Ret.
Definition renameat_with d n d' n' flags : fs Errno unit := Do (RenameatWith d n d' n' flags) Ret.
Definition unlinkat dir name removedir : fs Errno unit := Do (Unlinkat dir name removedir) Ret.
Definition fsync d : fs Errno unit := Do (Fsync d) Ret.
Definition fchmod d mode : fs Errno unit := Do (Fchmod d mode) Ret.
Definition flock d : fs Errno unit := Do (Flock d) Ret.
Definition read_dir d : fs Errno (list (Result Errno bytes)) := Do (ReadDir d) Ret.
Definition seek file offset : fs IoError unit := Do (SeekStart file offset) Ret.
Definition write_all file content : fs IoError unit := Do (WriteAll file content) Ret.
Definition sync_all file : fs IoError unit := Do (SyncAll file) Ret.
Definition new_uuid : prog bytes := Do NewUuid Ret.

(** The first [n] bytes. *)
Fixpoint take_bytes (n : N) (l : bytes) : bytes :=
  match l with
  | [] => []
  | b :: l => if (n =? 0)%N then [] else b :: take_bytes (n - 1) l
  end.
(** [file.take(limit).read_to_end(..)]. *)
Definition read_to_end_take file (limit : N) : fs IoError bytes :=
  Do (ReadToEnd file) (λ r, Ret (take_bytes limit <$> r)).

(** [file.read(&mut buffer)]: at most the length of the buffer. *)
Definition read file (buffer : N) : fs IoError bytes :=
  Do (Read file buffer) (λ r, Ret (take_bytes buffer <$> r)).

(** A loop of at most [2 ^ d] rounds: [inl] goes on, [inr] leaves. *)
Fixpoint rounds {E A B} (d : nat) (body : A → fs E (A + B)) (a : A) : fs E (A + B) :=
  match d with
  | O => body a
  | S d =>
    r ← rounds d body a;
    match r with inl a => rounds d body a | inr b => mret (inr b) end
  end.

(** ** Runs *)

Record event := Ev { ev_call : call; ev_answer : answer ev_call }.
(** The most recent event first. *)
Abbreviation history := (list event).

Inductive exec {A} : prog A → history → A → history → Prop :=
| exec_Ret a h : exec (Ret a) h a h
| exec_Do c k r h a h' : exec (k r) (Ev c r :: h) a h' → exec (Do c k) h a h'.

(** A kernel answers calls. *)
Fixpoint run {W A} (kernel : W → ∀ c, W * answer c) (p : prog A) (w : W) (h : history)
    : W * A * history :=
  match p with
  | Ret a => (w, a, h)
  | Do c k => let '(w, r) := kernel w c in run kernel (k r) w (Ev c r :: h)
  end.

Lemma run_exec {W A} (kernel : W → ∀ c, W * answer c) (p : prog A) w h w' a h' :
  run kernel p w h = (w', a, h') → exec p h a h'.
Proof.
  revert w h; induction p as [x|c k IH]; intros w h; simpl.
  - intros [= <- <- <-]. constructor.
  - destruct (kernel w c) as [w1 r]. intros H. econstructor. eauto.
Qed.

(** ** The program logic *)

Section logic.
Context (S : call → history → Prop).

Fixpoint safe {A} (p : prog A) (h : history) (Q : A → history → Prop) : Prop :=
  match p with
  | Ret a => Q a h
  | Do c k => S c h ∧ ∀ r, safe (k r) (Ev c r :: h) Q
  end.

(** Every event of a history was allowed when it happened. *)
Fixpoint obeys (h : history) : Prop :=
  match h with
  | [] => True
  | e :: h => S (ev_call e) h ∧ obeys h
  end.

Lemma safe_mono {A} (p : prog A) h (Q Q' : A → history → Prop) :
  safe p h Q → (∀ a h', Q a h' → Q' a h') → safe p h Q'.
Proof. revert h; induction p as [a|c k IH]; simpl; intros h; [eauto|]. intros [? Hk] HQ. split; eauto. Qed.

Lemma safe_prog_bind {A B} (p : prog A) (f : A → prog B) h Q :
  safe p h (λ a h', safe (f a) h' Q) → safe (prog_bind p f) h Q.
Proof. revert h; induction p as [a|c k IH]; simpl; intros h; [done|]. intros [? Hk]. split; eauto. Qed.

Lemma safe_bind {E A B} (p : fs E A) (f : A → fs E B) h Q :
  safe p h (λ r h', match r with Ok a => safe (f a) h' Q | Err e => Q (Err e) h' end) →
  safe (p ≫= f) h Q.
Proof. intros H. apply safe_prog_bind. eapply safe_mono; [done|]. by intros []. Qed.

Lemma safe_exec {A} (p : prog A) h a h' Q :
  exec p h a h' → obeys h → safe p h Q → Q a h' ∧ obeys h'.
Proof. induction 1; simpl; [done|]. intros Ho [Hc Hk]. by apply IHexec. Qed.
End logic.

(** A program all of whose calls satisfy [P]. *)
Fixpoint calls {A} (P : call → Prop) (p : prog A) : Prop :=
  match p with
  | Ret _ => True
  | Do c k => P c ∧ ∀ r, calls P (k r)
  end.

Lemma calls_prog_bind {A B} P (p : prog A) (f : A → prog B) :
  calls P p → (∀ a, calls P (f a)) → calls P (prog_bind p f).
Proof. intros Hp Hf. induction p as [a|c k IH]; simpl in *; [done|]. destruct Hp as [? Hk]. eauto. Qed.
Lemma calls_bind {E A B} P (p : fs E A) (f : A → fs E B) :
  calls P p → (∀ a, calls P (f a)) → calls P (p ≫= f).
Proof. intros Hp Hf. apply calls_prog_bind; [done|]. by intros []. Qed.
Lemma calls_mono {A} (P P' : call → Prop) (p : prog A) :
  (∀ c, P c → P' c) → calls P p → calls P' p.
Proof. intros HP. induction p as [a|c k IH]; simpl; [done|]. intros [? Hk]. eauto. Qed.

(** A program of passive calls extends the history by passive events. *)
Definition extends (h h' : history) : Prop :=
  ∃ t, h' = t ++ h ∧ Forall (λ e, passive (ev_call e) = true) t.

Lemma extends_refl h : extends h h.
Proof. by exists []. Qed.
Lemma extends_cons h h' c r : extends h h' → passive c = true → extends h (Ev c r :: h').
Proof. intros (t & -> & Ht) Hc. exists (Ev c r :: t). split; [done|by constructor]. Qed.
Lemma extends_trans h1 h2 h3 : extends h1 h2 → extends h2 h3 → extends h1 h3.
Proof.
  intros (t & -> & Ht) (t' & -> & Ht'). exists (t' ++ t). split; [by rewrite app_assoc|].
  by apply Forall_app.
Qed.
Lemma extends_elem h h' e : extends h h' → e ∈ h → e ∈ h'.
Proof. intros (t & -> & _) He. apply elem_of_app. by right. Qed.

Lemma safe_passive {A} S (p : prog A) h :
  (∀ c h', passive c = true → extends h h' → S c h') →
  calls (λ c, passive c = true) p → safe S p h (λ _ h', extends h h').
Proof.
  intros HS Hp. assert (∀ h0, extends h h0 → safe S p h0 (λ _ h', extends h h')) as H;
    [|by apply H, extends_refl].
  induction p as [a|c k IH]; intros h0 Hh0; simpl in *; [done|].
  destruct Hp as [Hc Hk]. split; [eauto|]. intros r. by apply IH, extends_cons.
Qed.

(** ** Rules for the combinators *)

Section rules.
Context (S : call → history → Prop).

Lemma safe_or_err {E F A} (f : E → F) (p : fs E A) h Q :
  safe S p h (λ r h', Q (map_err f r) h') → safe S (or_err f p) h Q.
Proof. intros H. apply safe_prog_bind. eapply safe_mono; [done|]. done. Qed.
Lemma safe_attempt {E F A B} (p : fs E A) (f : Result E A → fs F B) h Q :
  safe S p h (λ r h', safe S (f r) h' Q) → safe S (attempt p f) h Q.
Proof. apply safe_prog_bind. Qed.
Lemma safe_total {E A} (p : prog A) h Q :
  safe S p h (λ a h', Q (Ok a) h') → safe S (total (E := E) p) h Q.
Proof. intros H. apply safe_prog_bind. done. Qed.
Lemma safe_lift {E A} (r : Result E A) h (Q : Result E A → history → Prop) :
  Q r h → safe S (lift r) h Q.
Proof. done. Qed.
Lemma safe_mret {E A} (a : A) h (Q : Result E A → history → Prop) :
  Q (Ok a) h → safe S (mret (M := fs E) a) h Q.
Proof. done. Qed.
Lemma safe_bracket {E A} (m : fs E A) finally h Q :
  safe S m h (λ r h', safe S finally h' (λ _ h'', Q r h'')) → safe S (bracket m finally) h Q.
Proof.
  intros H. apply safe_prog_bind. eapply safe_mono; [done|]. intros r h' Hf. by apply safe_prog_bind.
Qed.
End rules.

Section calls_rules.
Context (P : call → Prop).

Lemma calls_or_err {E F A} (f : E → F) (p : fs E A) : calls P p → calls P (or_err f p).
Proof. intros H. by apply calls_prog_bind. Qed.
Lemma calls_attempt {E F A B} (p : fs E A) (f : Result E A → fs F B) :
  calls P p → (∀ r, calls P (f r)) → calls P (attempt p f).
Proof. apply calls_prog_bind. Qed.
Lemma calls_total {E A} (p : prog A) : calls P p → calls P (total (E := E) p).
Proof. intros H. by apply calls_prog_bind. Qed.
Lemma calls_lift {E A} (r : Result E A) : calls P (lift r).
Proof. done. Qed.
Lemma calls_throw {E A} (e : E) : calls P (throw (A := A) e).
Proof. done. Qed.
Lemma calls_mret {E A} (a : A) : calls P (mret (M := fs E) a).
Proof. done. Qed.
Lemma calls_do {A} c (f : answer c → A) : P c → calls P (Do c (λ r, Ret (f r))).
Proof. by split. Qed.
End calls_rules.

#[global] Arguments or_err : simpl never.
#[global] Arguments attempt : simpl never.
#[global] Arguments total : simpl never.
#[global] Arguments lift : simpl never.
#[global] Arguments bracket : simpl never.

Lemma calls_rounds {E A B} P d (body : A → fs E (A + B)) a :
  (∀ a, calls P (body a)) → calls P (rounds d body a).
Proof.
  intros Hb. revert a; induction d as [|d IH]; intros a; cbn [rounds]; [done|].
  apply calls_bind; [done|]. by intros [].
Qed.

(** A loop ends within its rounds when a measure below [2 ^ d] decreases. *)
Lemma safe_rounds {E A B} S (inv : A → history → Prop) (Q : Result E B → history → Prop)
    (measure : A → N) d body a h :
  (∀ a h, inv a h → safe S (body a) h (λ r h', match r with
     | Ok (inl a') => inv a' h' ∧ (measure a' < measure a)%N
     | Ok (inr b) => Q (Ok b) h'
     | Err e => Q (Err e) h' end)) →
  inv a h → (measure a < 2 ^ N.of_nat d)%N →
  safe S (rounds d body a) h (λ r h', match r with
    | Ok (inl _) => False | Ok (inr b) => Q (Ok b) h' | Err e => Q (Err e) h' end).
Proof.
  intros Hbody Hinv Hm.
  assert (∀ a h, inv a h → safe S (rounds d body a) h (λ r h', match r with
     | Ok (inl a') => inv a' h' ∧ (measure a' + 2 ^ N.of_nat d <= measure a)%N
     | Ok (inr b) => Q (Ok b) h'
     | Err e => Q (Err e) h' end)) as H.
  { clear a h Hinv Hm. induction d as [|d IH]; intros a h Hinv; cbn [rounds].
    - eapply safe_mono; [by apply Hbody|]. intros [[]|] h'; [|done..]. intros [? ?]. split; [done|]. simpl. lia.
    - apply safe_bind. eapply safe_mono; [by apply IH|]. intros [[a'|b]|e] h'; [|done..].
      intros [Hinv' Hm']. eapply safe_mono; [by apply IH|]. intros [[a2|b]|e] h2; [|done..].
      intros [? ?]. split; [done|]. rewrite Nat2N.inj_succ, N.pow_succ_r'. lia. }
  eapply safe_mono; [by apply H|]. intros [[a'|b]|e] h'; [|done..]. intros [_ Hle]. lia.
Qed.

Create HintDb calls discriminated.

(** One call. *)
Ltac solve_call :=
  match goal with
  | |- calls _ (fstat _) => unfold fstat
  | |- calls _ (statat _ _) => unfold statat
  | |- calls _ (openat _ _ _ _) => unfold openat
  | |- calls _ (mkdirat _ _ _) => unfold mkdirat
  | |- calls _ (renameat_with _ _ _ _ _) => unfold renameat_with
  | |- calls _ (unlinkat _ _ _) => unfold unlinkat
  | |- calls _ (fsync _) => unfold fsync
  | |- calls _ (fchmod _ _) => unfold fchmod
  | |- calls _ (flock _) => unfold flock
  | |- calls _ (read_dir _) => unfold read_dir
  | |- calls _ (seek _ _) => unfold seek
  | |- calls _ (write_all _ _) => unfold write_all
  | |- calls _ (sync_all _) => unfold sync_all
  | |- calls _ (read_to_end_take _ _) => unfold read_to_end_take
  | |- calls _ (read _ _) => unfold read
  | |- calls _ new_uuid => unfold new_uuid
  end; split; [reflexivity|intros; exact I].

(** All the calls of a program: descend through the combinators. *)
Ltac solve_calls :=
  repeat match goal with
  | |- ∀ _, _ => intros
  | |- calls _ (_ ≫= _) => apply calls_bind
  | |- calls _ (or_err _ _) => apply calls_or_err
  | |- calls _ (attempt _ _) => apply calls_attempt
  | |- calls _ (total _) => apply calls_total
  | |- calls _ (lift _) => apply calls_lift
  | |- calls _ (throw _) => apply calls_throw
  | |- calls _ (mret _) => apply calls_mret
  | |- calls _ (rounds _ _ _) => apply calls_rounds
  | |- calls _ (Do _ _) => split; [reflexivity|]
  | |- True => exact I
  | |- calls _ (Ret _) => exact I
  | |- calls _ (if ?b then _ else _) => destruct b
  | |- calls _ (match ?x with _ => _ end) => destruct x
  | |- calls _ _ => first [solve_call | solve [auto 2 with calls nocore]]
  | IH : context [calls _ _] |- calls _ _ => apply IH
  end.
