(* ===== verification/SafeRoots.v ===== *)
(** * Safe roots and confined paths

    [src/src/tools/mod.rs] and the path layer of [src/src/tools/filesystem.rs]:
    the configured roots, their pinned descriptors, the anchoring of a requested
    path under a root, and the descent from a root one component at a time. *)

From stdpp Require Import sorting.
From S2P Require Import Prelude RustStd RustPath AppErrors FsCalls.

Module SafeRoots.
Import AppErrors.

Definition WRITE_FILE_QUARANTINE_DIRECTORY : bytes := bs ".termux-mcp-write-quarantine".
Definition TRASH_FILE_QUARANTINE_DIRECTORY : bytes := bs ".termux-mcp-trash-quarantine".
Definition MAX_SAFE_ROOTS : nat := 64.

Definition is_runtime_quarantine_name (name : bytes) : bool :=
  eq_ignore_ascii_case name WRITE_FILE_QUARANTINE_DIRECTORY
  || eq_ignore_ascii_case name TRASH_FILE_QUARANTINE_DIRECTORY.
#[global] Arguments is_runtime_quarantine_name : simpl never.

Inductive SafeRootConfigurationError :=
| EmptyConfiguration
| TooManyRoots
| EmptyPath
| RelativePath
| FilesystemRoot
| ReservedNamespace
| Unresolved
| NotDirectory
| SymbolicLink.

#[global] Instance safe_root_error_eq_dec : EqDecision SafeRootConfigurationError.
Proof. solve_decision. Defined.

Definition is_quarantine_component (c : Component) : bool :=
  match c with Normal name => is_runtime_quarantine_name name | _ => false end.
Definition contains_runtime_quarantine_component (path : bytes) : bool :=
  existsb is_quarantine_component (components path).

(** The loop that rebuilds a root from its names. *)
Fixpoint normalize_components (cs : list Component) (normalized : bytes)
    : Result SafeRootConfigurationError bytes :=
  match cs with
  | [] => Ok normalized
  | (RootDir | CurDir) :: cs => normalize_components cs normalized
  | Normal name :: cs => normalize_components cs (path_join normalized name)
  | ParentDir :: _ => Err Unresolved
  end.

(** The checks of one root that look only at its text. *)
Definition validated_label (root : bytes) : Result SafeRootConfigurationError bytes :=
  _ ← fail_if (bytes_eqb root []) EmptyPath;
  _ ← fail_if (negb (is_absolute root)) RelativePath;
  _ ← fail_if (path_eq root (bs "/")) FilesystemRoot;
  _ ← fail_if (contains_runtime_quarantine_component root) ReservedNamespace;
  normalized ← normalize_components (components root) (bs "/");
  _ ← fail_if (path_eq normalized (bs "/")) FilesystemRoot;
  _ ← fail_if (contains_runtime_quarantine_component normalized) ReservedNamespace;
  Ok normalized.

Section operations.
Context {FM : FileModes}.

Definition is_file (s : Stat) : bool := bool_decide (from_raw_mode (st_mode s) = RegularFile).
Definition is_dir (s : Stat) : bool := bool_decide (from_raw_mode (st_mode s) = Directory).
Definition is_symlink (s : Stat) : bool := bool_decide (from_raw_mode (st_mode s) = Symlink).
Definition stat_id (s : Stat) : N * N := (st_dev s, st_ino s).
Definition same_id (a b : N * N) : bool := (fst a =? fst b)%N && (snd a =? snd b)%N.
(** [st_mode & 0o7777]. *)
Definition permissions (s : Stat) : N := N.land (st_mode s) 4095.

(** The loop that resolves every prefix of a normalized root. *)
Fixpoint resolve_prefixes (names : list bytes) (current normalized : bytes)
    : fs SafeRootConfigurationError unit :=
  match names with
  | [] => mret ()
  | name :: names =>
    let current := path_join current name in
    metadata ← or_err (λ _, Unresolved) (Do (SymlinkMetadata current) Ret);
    _ ← lift (fail_if (is_symlink metadata) SymbolicLink);
    _ ← lift (fail_if (negb (is_dir metadata))
                (if path_eq current normalized then NotDirectory else Unresolved));
    resolve_prefixes names current normalized
  end.

Fixpoint validate_roots (safe_roots : list bytes) : fs SafeRootConfigurationError (list bytes) :=
  match safe_roots with
  | [] => mret []
  | root :: safe_roots =>
    normalized ← lift (validated_label root);
    _ ← resolve_prefixes (path_segments normalized) (bs "/") normalized;
    validated_roots ← validate_roots safe_roots;
    mret (normalized :: validated_roots)
  end.

(** [Vec::dedup]. *)
Fixpoint dedup (l : list bytes) : list bytes :=
  match l with
  | a :: (b :: _) as l' => if path_eq a b then dedup l' else a :: dedup l'
  | _ => l
  end.

Definition validated_safe_root_labels (safe_roots : list bytes)
    : fs SafeRootConfigurationError (list bytes) :=
  _ ← lift (fail_if (length safe_roots =? 0) EmptyConfiguration);
  _ ← lift (fail_if (MAX_SAFE_ROOTS <? length safe_roots) TooManyRoots);
  validated_roots ← validate_roots safe_roots;
  mret (dedup (merge_sort path_le validated_roots)).

(** ** Pinning *)

Definition PINNED_DIRECTORY : list OFlag := [PATH; DIRECTORY; NOFOLLOW; CLOEXEC].
Definition OPEN_DIRECTORY : list OFlag := [RDONLY; DIRECTORY; NOFOLLOW; CLOEXEC].
Definition OPEN_PATH : list OFlag := [PATH; NOFOLLOW; CLOEXEC].
Definition OPEN_FILE : list OFlag := [RDONLY; NOFOLLOW; NONBLOCK; CLOEXEC].

Record PinnedSafeRoot := mkPinnedRoot { descriptor : fd; root_identity : N * N }.
Record PinnedSafeRootSet := mkRootSet { labels : list bytes; roots : list PinnedSafeRoot }.

Fixpoint descend_label (cs : list Component) (descriptor : fd) : fs SafeRootConfigurationError fd :=
  match cs with
  | [] => mret descriptor
  | RootDir :: cs => descend_label cs descriptor
  | Normal name :: cs =>
    child ← or_err (λ _, Unresolved) (openat descriptor name PINNED_DIRECTORY 0);
    descend_label cs child
  | _ => throw Unresolved
  end.

Definition pin_safe_root (label : bytes) : fs SafeRootConfigurationError PinnedSafeRoot :=
  descriptor ← or_err (λ _, Unresolved) (Do (OpenRoot PINNED_DIRECTORY) Ret);
  filesystem_root_metadata ← or_err (λ _, Unresolved) (fstat descriptor);
  descriptor ← descend_label (components label) descriptor;
  metadata ← or_err (λ _, Unresolved) (fstat descriptor);
  _ ← lift (fail_if (negb (is_dir metadata)) NotDirectory);
  _ ← lift (fail_if (same_id (stat_id metadata) (stat_id filesystem_root_metadata)) FilesystemRoot);
  mret (mkPinnedRoot descriptor (stat_id metadata)).

Fixpoint pin_safe_roots (labels : list bytes) : fs SafeRootConfigurationError (list PinnedSafeRoot) :=
  match labels with
  | [] => mret []
  | label :: labels =>
    root ← pin_safe_root label;
    roots ← pin_safe_roots labels;
    mret (root :: roots)
  end.

(** [FileSystemTools::try_new]. *)
Definition try_new (safe_roots : list bytes) : fs SafeRootConfigurationError PinnedSafeRootSet :=
  labels ← validated_safe_root_labels safe_roots;
  roots ← pin_safe_roots labels;
  mret (mkRootSet labels roots).

(** ** Errors *)

Definition path_rejected : AppError := PathTraversal (bs "<redacted>").
Definition descriptor_error (e : Errno) : AppError := Io (RawOs e).
Definition other_error (message : bytes) : AppError := Io (OtherIo message).

(** ** Anchoring *)

Record AnchoredPath := mkAnchored {
  display_path : bytes;
  anchored_roots : PinnedSafeRootSet;
  root_index : nat;
  relative_path : bytes;
}.

(** [Iterator::max_by_key]: the last of the maximal elements. *)
Definition max_by_key {A} (key : A → nat) (l : list A) : option A :=
  foldl (λ best x, match best with
                   | None => Some x
                   | Some b => if key x <? key b then best else Some x
                   end) None l.

(** The roots that contain the candidate, with what remains below them. *)
Definition containing_roots (labels : list bytes) (candidate : bytes) : list (nat * bytes * bytes) :=
  omap (λ '(index, root), relative ← strip_prefix candidate root; Some (index, root, relative))
       (zip (seq 0 (length labels)) labels).

Definition is_parent_dir (c : Component) : bool := match c with ParentDir => true | _ => false end.
Definition unsafe_component (c : Component) : bool :=
  match c with Normal name => is_runtime_quarantine_name name | _ => true end.

Definition anchor (self : PinnedSafeRootSet) (input : bytes) : Result AppError AnchoredPath :=
  _ ← fail_if (trim_is_empty input || bool_decide (x00 ∈ input)) path_rejected;
  _ ← fail_if (negb (is_absolute input) || existsb is_parent_dir (components input)) path_rejected;
  '(root_index, root_path, relative_path) ←
    ok_or (max_by_key (λ '(_, root, _), length (components root)) (containing_roots (labels self) input))
      path_rejected;
  _ ← fail_if (existsb unsafe_component (components relative_path)) path_rejected;
  Ok (mkAnchored (if bytes_eqb relative_path [] then root_path else path_join root_path relative_path)
        self root_index relative_path).

(** ** Descriptors *)

Definition duplicate_directory_descriptor (directory : fd) : fs AppError fd :=
  or_err descriptor_error (openat directory (bs ".") OPEN_DIRECTORY 0).

(** [PinnedSafeRootSet::duplicate_root]. *)
Definition duplicate_root_at (self : PinnedSafeRootSet) (index : nat) : fs AppError fd :=
  root ← lift (ok_or (roots self !! index) (other_error (bs "safe-root handle is invalid")));
  duplicate ← duplicate_directory_descriptor (descriptor root);
  metadata ← or_err descriptor_error (fstat duplicate);
  _ ← lift (fail_if (negb (is_dir metadata) || negb (same_id (stat_id metadata) (root_identity root)))
              (other_error (bs "safe-root identity validation failed")));
  mret duplicate.

(** [AnchoredPath::duplicate_root]. *)
Definition duplicate_root (a : AnchoredPath) : fs AppError fd :=
  duplicate_root_at (anchored_roots a) (root_index a).

(** One iteration of the loop of [runtime_quarantine_identities]. *)
Definition quarantine_identity (parent : fd) (name : bytes) : fs AppError (option (N * N)) :=
  attempt (statat parent name) (λ r, match r with
    | Ok metadata => mret (Some (stat_id metadata))
    | Err NOENT => mret None
    | Err error => throw (descriptor_error error)
    end).
Definition runtime_quarantine_identities (parent : fd) : fs AppError (list (option (N * N))) :=
  write ← quarantine_identity parent WRITE_FILE_QUARANTINE_DIRECTORY;
  trash ← quarantine_identity parent TRASH_FILE_QUARANTINE_DIRECTORY;
  mret [write; trash].

Definition stat_matches_identity (metadata : Stat) (identity : N * N) : bool :=
  same_id (stat_id metadata) identity.
Definition stat_matches_runtime_quarantine (metadata : Stat) (identities : list (option (N * N))) : bool :=
  existsb (λ o, match o with Some i => stat_matches_identity metadata i | None => false end) identities.

Definition open_child_directory (parent : fd) (name : bytes) : fs AppError fd :=
  _ ← lift (fail_if (is_runtime_quarantine_name name) path_rejected);
  child ← or_err descriptor_error (openat parent name OPEN_DIRECTORY 0);
  metadata ← or_err descriptor_error (fstat child);
  identities ← runtime_quarantine_identities parent;
  _ ← lift (fail_if (stat_matches_runtime_quarantine metadata identities) path_rejected);
  mret child.

Fixpoint open_descendant (directory : fd) (cs : list Component) : fs AppError fd :=
  match cs with
  | [] => mret directory
  | Normal name :: cs =>
    child ← or_err (λ _, path_rejected) (open_child_directory directory name);
    open_descendant child cs
  | _ => throw path_rejected
  end.
Definition open_descendant_directory (directory : fd) (relative_path : bytes) : fs AppError fd :=
  open_descendant directory (components relative_path).

Definition not_found_error (e : Errno) : AppError :=
  if bool_decide (e = NOENT) then PathNotFound else descriptor_error e.

Fixpoint open_metadata_parent (directory : fd) (cs : list Component) : fs AppError fd :=
  match cs with
  | [] => mret directory
  | Normal name :: cs =>
    _ ← lift (fail_if (is_runtime_quarantine_name name) path_rejected);
    child ← or_err not_found_error (openat directory name OPEN_PATH 0);
    metadata ← or_err descriptor_error (fstat child);
    _ ← lift (fail_if (is_symlink metadata) path_rejected);
    _ ← lift (fail_if (negb (is_dir metadata)) PathNotFound);
    identities ← runtime_quarantine_identities directory;
    _ ← lift (fail_if (stat_matches_runtime_quarantine metadata identities) path_rejected);
    open_metadata_parent child cs
  | _ => throw path_rejected
  end.
Definition open_metadata_parent_directory (directory : fd) (relative_path : bytes) : fs AppError fd :=
  open_metadata_parent directory (components relative_path).

Definition open_mutation_parent_directory (root_fd : fd) (relative_path : bytes) : fs AppError fd :=
  parent ← open_metadata_parent_directory root_fd relative_path;
  or_err descriptor_error (openat parent (bs ".") OPEN_DIRECTORY 0).

Definition split_parent_and_name (relative_path : bytes) : Result AppError (bytes * bytes) :=
  name ← ok_or (file_name relative_path) path_rejected;
  Ok (relative_parent relative_path, name).

Definition open_metadata_descriptor (root_fd : fd) (relative_path : bytes) : fs AppError fd :=
  if bytes_eqb relative_path [] then mret root_fd
  else
    '(parent_relative, file_name) ← lift (split_parent_and_name relative_path);
    parent_fd ← open_metadata_parent_directory root_fd parent_relative;
    _ ← lift (fail_if (is_runtime_quarantine_name file_name) path_rejected);
    descriptor ← or_err not_found_error (openat parent_fd file_name OPEN_PATH 0);
    metadata ← or_err descriptor_error (fstat descriptor);
    identities ← runtime_quarantine_identities parent_fd;
    _ ← lift (fail_if (stat_matches_runtime_quarantine metadata identities) path_rejected);
    mret descriptor.

(** [FileSystemTools::sanitize]. *)
Definition sanitize (self : PinnedSafeRootSet) (input : bytes) : fs AppError bytes :=
  anchored ← lift (anchor self input);
  root_fd ← or_err (λ _, path_rejected) (duplicate_root anchored);
  if bytes_eqb (relative_path anchored) [] then mret (display_path anchored)
  else
    '(parent_relative, file_name) ←
      lift (map_err (λ _, path_rejected) (split_parent_and_name (relative_path anchored)));
    parent_fd ← or_err (λ _, path_rejected) (open_metadata_parent_directory root_fd parent_relative);
    attempt (statat parent_fd file_name) (λ r, match r with
      | Ok metadata =>
          if is_symlink metadata then throw path_rejected else mret (display_path anchored)
      | Err NOENT => mret (display_path anchored)
      | Err _ => throw path_rejected
      end).
End operations.
End SafeRoots.
