(* ===== verification/Config.v ===== *)
(** * Configuration

    [src/src/config.rs]: reading the variables of the environment, or of the
    literal runtime file of the offline issuer, and the validation of what was
    read.  The cargo features of the build and the environment are parameters. *)

From S2P Require Import Prelude RustStd RustPath Http Auth RequestLimits NetAddr TransportSecurity.
From S2P Require Import AppErrors FsCalls SafeRoots.

Module Config.
Import Auth RequestLimits TransportSecurity AppErrors.

Definition DEFAULT_FILE_SAFE_ROOT : bytes := bs "/data/data/com.termux/files/home/mcp-files".
Definition MISSING_STATIC_TOKEN_ERROR : bytes :=
  bs "MCP__AUTH__STATIC_TOKEN is required unless MCP__AUTH__ALLOW_UNAUTHENTICATED_LOCALHOST_ONLY=true is explicitly set for local-only development".
Definition REMOTE_UNAUTHENTICATED_ERROR : bytes :=
  bs "Unauthenticated mode is only allowed on localhost; set MCP__AUTH__STATIC_TOKEN or bind MCP__SERVER__HOST to localhost, 127.0.0.1, or ::1".

(** ** Data *)

Record ServerConfig := mkServer { host : bytes; port : N }.
Record FileConfig := mkFile {
  safe_roots : list bytes;
  create_directory_mutation_enabled : bool;
  write_file_mutation_enabled : bool;
  copy_file_mutation_enabled : bool;
  trash_file_mutation_enabled : bool;
}.
Record CapabilityConfig := mkCapability { key_id : option bytes; hmac_key_hex : option bytes }.
Record RishConfig := mkRish { rish_enabled : bool; dex_path : option bytes; dex_sha256 : option bytes }.
Record AndroidConfig := mkAndroid {
  battery_status_enabled : bool;
  volume_status_enabled : bool;
  volume_control_enabled : bool;
  rish : RishConfig;
}.
Record CommandConfig := mkCommand { command_enabled : bool }.
Record TransportConfig := mkTransport {
  allowed_hosts : list bytes;
  allowed_origins : list bytes;
  allow_missing_origin : bool;
  sse_enabled : bool;
  stateless_2026_07_28_enabled : bool;
  max_concurrent_requests : N;
  request_timeout_seconds : N;
  max_body_bytes : N;
}.
Record AppConfig := mkApp {
  server : ServerConfig;
  auth : AuthConfig;
  capability : CapabilityConfig;
  android : AndroidConfig;
  command : CommandConfig;
  file : FileConfig;
  transport : TransportConfig;
}.

(** [cfg!(feature = ..)]. *)
Record Features := mkFeatures {
  mcp_runtime : bool;
  android_battery_status : bool;
  android_volume_status : bool;
  android_volume_control : bool;
  android_rish : bool;
  command_execution : bool;
}.

(** [bail!]: an [anyhow::Error] is its text. *)
Abbreviation anyhow A := (Result bytes A).


(** ** Values *)

(** [uN::from_str] with the text of its [ParseIntError]. *)
Definition INVALID_DIGIT : bytes := bs "invalid digit found in string".
Definition POS_OVERFLOW : bytes := bs "number too large to fit in target type".
Definition EMPTY_INTEGER : bytes := bs "cannot parse integer from empty string".
Fixpoint parse_digits_or (max acc : N) (s : bytes) : anyhow N :=
  match s with
  | [] => Ok acc
  | b :: s =>
    if negb (is_ascii_digit b) then Err INVALID_DIGIT
    else let acc := (acc * 10 + (byte_val b - 48))%N in
         if (acc <=? max)%N then parse_digits_or max acc s else Err POS_OVERFLOW
  end.
Definition parse_unsigned_or (max : N) (s : bytes) : anyhow N :=
  match s with
  | [] => Err EMPTY_INTEGER
  | [b] => if bool_decide (b = byte_of 43) then Err INVALID_DIGIT else parse_digits_or max 0 s
  | b :: rest => parse_digits_or max 0 (if bool_decide (b = byte_of 43) then rest else s)
  end.

Definition parse_non_negative (name value : bytes) : anyhow N :=
  map_err (λ source, name ++ bs " must be a non-negative integer: " ++ source)
    (parse_unsigned_or u64_max (trim value)).
Definition parse_usize := parse_non_negative.
Definition parse_u64 := parse_non_negative.

Definition parse_bool (name value : bytes) : anyhow bool :=
  let value := trim value in
  if existsb (eq_ignore_ascii_case value) [bs "true"; bs "1"; bs "yes"; bs "on"] then Ok true
  else if existsb (eq_ignore_ascii_case value) [bs "false"; bs "0"; bs "no"; bs "off"] then Ok false
  else Err (name ++ bs " must be a boolean value: true/false, 1/0, yes/no, or on/off").

Definition split_exact_env_list (name value : bytes) : anyhow (list bytes) :=
  let items := split_on (byte_of 44) value in
  if existsb (λ item, bytes_eqb item []) items
  then Err (name ++ bs " must not contain empty list entries") else Ok items.

(** ** Variables *)

Inductive VarError := NotPresent | NotUnicode (value : bytes).

Section variables.
Context (read_variable : bytes → Result VarError bytes).

Definition read_env (name : bytes) : anyhow (option bytes) :=
  match read_variable name with
  | Ok value => Ok (Some value)
  | Err NotPresent => Ok None
  | Err (NotUnicode _) => Err (name ++ bs " must contain valid Unicode text")
  end.
Definition optional_env_string (name : bytes) : anyhow (option bytes) := read_env name.
Definition env_string (name fallback : bytes) : anyhow bytes :=
  value ← read_env name; Ok (default fallback value).
Definition env_port (name : bytes) (fallback : N) : anyhow N :=
  value ← read_env name;
  match value with
  | Some value =>
    ok_or (port ← parse_unsigned 65535 (trim value); if (port =? 0)%N then None else Some port)
      (name ++ bs " must be an integer between 1 and 65535")
  | None => Ok fallback
  end.
Definition env_usize (name : bytes) (fallback : N) : anyhow N :=
  value ← read_env name;
  match value with Some value => parse_usize name value | None => Ok fallback end.
Definition env_u64 (name : bytes) (fallback : N) : anyhow N :=
  value ← read_env name;
  match value with Some value => parse_u64 name value | None => Ok fallback end.
Definition env_bool (name : bytes) (fallback : bool) : anyhow bool :=
  value ← read_env name;
  match value with Some value => parse_bool name value | None => Ok fallback end.
Definition env_exact_string_list (name : bytes) (defaults : list bytes) : anyhow (list bytes) :=
  value ← read_env name;
  match value with Some value => split_exact_env_list name value | None => Ok defaults end.
Definition env_exact_string_list_owned := env_exact_string_list.
Definition env_path_list (name : bytes) (defaults : list bytes) : anyhow (list bytes) :=
  env_exact_string_list name defaults.
End variables.

(** ** Validation *)

(** [!cfg!(feature = ..)], [is_some] and [is_none]. *)
Definition is_some {A} (o : option A) : bool := match o with Some _ => true | None => false end.
Definition is_none {A} (o : option A) : bool := negb (is_some o).

(** [validate_runtime_auth_posture]. *)
Definition is_loopback_host (host : bytes) : bool :=
  eq_ignore_ascii_case host (bs "localhost")
  || match NetAddr.parse_ip host with
     | Some (NetAddr.IpV4 a) => (NetAddr.oct1 a =? 127)%N
     | Some (NetAddr.IpV6 a) => bool_decide (a = [0; 0; 0; 0; 0; 0; 0; 1]%N)
     | None => false
     end.
Definition validate_runtime_auth_posture (config : AppConfig) : anyhow AuthPosture :=
  match static_token (auth config) with
  | Some token => _ ← validate_bearer_token token; Ok StaticTokenConfigured
  | None =>
    if negb (allow_unauthenticated_localhost_only (auth config)) then Err MISSING_STATIC_TOKEN_ERROR
    else if negb (is_loopback_host (host (server config))) then Err REMOTE_UNAUTHENTICATED_ERROR
    else Ok PostureUnauthenticatedLocalhostOnly
  end.

Fixpoint validate_safe_root_entries (roots : list bytes) : anyhow unit :=
  match roots with
  | [] => Ok ()
  | root :: rest =>
    _ ← fail_if (bytes_eqb root []) (bs "MCP__FILE__SAFE_ROOTS contains an empty safe root");
    _ ← fail_if (negb (is_absolute root)) (bs "MCP__FILE__SAFE_ROOTS contains a non-absolute safe root");
    _ ← fail_if (path_eq root (bs "/")) (bs "MCP__FILE__SAFE_ROOTS must not include filesystem root /");
    validate_safe_root_entries rest
  end.
Definition validate_file_safe_roots (file : FileConfig) : anyhow unit :=
  _ ← fail_if (bool_decide (safe_roots file = []))
        (bs "MCP__FILE__SAFE_ROOTS must contain at least one absolute safe root");
  _ ← fail_if (SafeRoots.MAX_SAFE_ROOTS <? length (safe_roots file))
        (bs "MCP__FILE__SAFE_ROOTS must contain at most 64 safe roots");
  validate_safe_root_entries (safe_roots file).

Definition MAX_KEY_ID_BYTES : nat := 32.
Definition KEY_HEX_BYTES : nat := 64.
(** The bytes of a key identifier, and of a lower-case hexadecimal string. *)
Definition key_id_byte (b : byte) : bool :=
  is_ascii_lowercase b || is_ascii_digit b || bool_decide (b ∈ bs "-_").
Definition lower_hex_byte (b : byte) : bool := is_ascii_digit b || in_range 97 102 b.
Definition validate_capability_key_configuration (capability : CapabilityConfig) : anyhow unit :=
  _ ← match key_id capability with
      | Some key_id =>
        fail_if (bytes_eqb key_id [] || (MAX_KEY_ID_BYTES <? length key_id) || negb (forallb key_id_byte key_id))
          (bs "MCP__CAPABILITY__KEY_ID must contain 1 to 32 lowercase ASCII letters, digits, hyphens, or underscores")
      | None => Ok ()
      end;
  _ ← match hmac_key_hex capability with
      | Some key =>
        fail_if (negb (length key =? KEY_HEX_BYTES) || negb (forallb lower_hex_byte key))
          (bs "MCP__CAPABILITY__HMAC_KEY_HEX must contain exactly 64 lowercase hexadecimal characters")
      | None => Ok ()
      end;
  fail_if (negb (Bool.eqb (is_some (key_id capability)) (is_some (hmac_key_hex capability))))
    (bs "MCP__CAPABILITY__KEY_ID and MCP__CAPABILITY__HMAC_KEY_HEX must be configured together").

Definition validate_mutation_static_token (config : AppConfig) (missing_token_error : bytes) : anyhow unit :=
  token ← ok_or (static_token (auth config)) missing_token_error;
  validate_bearer_token token.

Section validation.
Context (features : Features).

(** The four [validate_*_mutation_capability] functions differ in the gate and
    its variable. *)
Definition validate_mutation_capability (enabled : bool) (variable : bytes) (config : AppConfig) : anyhow unit :=
  if negb enabled then Ok ()
  else
    _ ← fail_if (negb (mcp_runtime features))
          (variable ++ bs " requires a binary built with the mcp-runtime feature");
    _ ← validate_mutation_static_token config (variable ++ bs " requires MCP__AUTH__STATIC_TOKEN");
    fail_if (is_none (key_id (capability config)))
      (variable ++ bs " requires MCP__CAPABILITY__KEY_ID and MCP__CAPABILITY__HMAC_KEY_HEX").
Definition validate_create_directory_mutation_capability (config : AppConfig) : anyhow unit :=
  validate_mutation_capability (create_directory_mutation_enabled (file config))
    (bs "MCP__FILE__CREATE_DIRECTORY_MUTATION_ENABLED") config.
Definition validate_write_file_mutation_capability (config : AppConfig) : anyhow unit :=
  validate_mutation_capability (write_file_mutation_enabled (file config))
    (bs "MCP__FILE__WRITE_MUTATION_ENABLED") config.
Definition validate_copy_file_mutation_capability (config : AppConfig) : anyhow unit :=
  validate_mutation_capability (copy_file_mutation_enabled (file config))
    (bs "MCP__FILE__COPY_FILE_MUTATION_ENABLED") config.
Definition validate_trash_file_mutation_capability (config : AppConfig) : anyhow unit :=
  validate_mutation_capability (trash_file_mutation_enabled (file config))
    (bs "MCP__FILE__TRASH_FILE_MUTATION_ENABLED") config.

Definition validate_android_capabilities (android : AndroidConfig) : anyhow unit :=
  _ ← fail_if (battery_status_enabled android && negb (android_battery_status features))
        (bs "MCP__ANDROID__BATTERY_STATUS_ENABLED requires a binary built with the android-battery-status feature");
  _ ← fail_if (volume_status_enabled android && negb (android_volume_status features))
        (bs "MCP__ANDROID__VOLUME_STATUS_ENABLED requires a binary built with the android-volume-status feature");
  fail_if (volume_control_enabled android && negb (android_volume_control features))
    (bs "MCP__ANDROID__VOLUME_CONTROL_ENABLED requires a binary built with the android-volume-control feature").

Definition validate_android_volume_control_capability (config : AppConfig) : anyhow unit :=
  if negb (volume_control_enabled (android config)) then Ok ()
  else
    _ ← validate_mutation_static_token config
          (bs "MCP__ANDROID__VOLUME_CONTROL_ENABLED requires MCP__AUTH__STATIC_TOKEN");
    fail_if (is_none (key_id (capability config)))
      (bs "MCP__ANDROID__VOLUME_CONTROL_ENABLED requires MCP__CAPABILITY__KEY_ID and MCP__CAPABILITY__HMAC_KEY_HEX").

(** The names of a path below [/] once [.] and [..] are resolved in its text: what
    the [PathBuf] built from [/] by [push] and [pop] holds. *)
Definition normalize_absolute_path_lexically (path : bytes) : option (list bytes) :=
  if negb (is_absolute path) then None
  else Some (foldl (λ normalized component, match component with
    | RootDir | CurDir => normalized
    | ParentDir => removelast normalized
    | Normal segment => normalized ++ [segment]
    end) [] (components path)).

Fixpoint validate_outside_safe_roots (dex_path : list bytes) (roots : list bytes) : anyhow unit :=
  match roots with
  | [] => Ok ()
  | safe_root :: rest =>
    normalized_safe_root ← ok_or (normalize_absolute_path_lexically safe_root)
      (bs "MCP__FILE__SAFE_ROOTS must contain absolute Unix paths");
    _ ← fail_if (bool_decide (dex_path = normalized_safe_root)
                 || bool_decide (take (length normalized_safe_root) dex_path = normalized_safe_root))
          (bs "MCP__ANDROID__RISH_DEX_PATH must be outside every MCP__FILE__SAFE_ROOTS entry");
    validate_outside_safe_roots dex_path rest
  end.
Definition validate_android_rish_configuration (config : AppConfig) : anyhow unit :=
  let rish := rish (android config) in
  _ ← fail_if (negb (Bool.eqb (is_some (dex_path rish)) (is_some (dex_sha256 rish))))
        (bs "MCP__ANDROID__RISH_DEX_PATH and MCP__ANDROID__RISH_DEX_SHA256 must be configured together");
  _ ← match dex_sha256 rish with
      | Some digest =>
        fail_if (negb (length digest =? 64) || negb (forallb lower_hex_byte digest))
          (bs "MCP__ANDROID__RISH_DEX_SHA256 must contain exactly 64 lowercase hexadecimal characters")
      | None => Ok ()
      end;
  _ ← match dex_path rish with
      | Some dex_path =>
        _ ← fail_if (negb (is_absolute dex_path)) (bs "MCP__ANDROID__RISH_DEX_PATH must be an absolute path");
        normalized_dex_path ← ok_or (normalize_absolute_path_lexically dex_path)
          (bs "MCP__ANDROID__RISH_DEX_PATH must use an absolute Unix path");
        validate_outside_safe_roots normalized_dex_path (safe_roots (file config))
      | None => Ok ()
      end;
  if negb (rish_enabled rish) then Ok ()
  else
    _ ← fail_if (is_none (dex_path rish))
          (bs "MCP__ANDROID__RISH_ENABLED requires MCP__ANDROID__RISH_DEX_PATH and MCP__ANDROID__RISH_DEX_SHA256");
    _ ← fail_if (negb (android_rish features))
          (bs "MCP__ANDROID__RISH_ENABLED requires a binary built with the android-rish feature");
    validate_mutation_static_token config (bs "MCP__ANDROID__RISH_ENABLED requires MCP__AUTH__STATIC_TOKEN").

Definition validate_command_capability (command : CommandConfig) : anyhow unit :=
  fail_if (command_enabled command && negb (command_execution features))
    (bs "MCP__COMMAND__ENABLED requires a binary built with the command-execution feature").

Definition within (lo hi n : N) : bool := ((lo <=? n) && (n <=? hi))%N.
Definition validate_transport_security (transport : TransportConfig) : anyhow unit :=
  _ ← fail_if (bool_decide (allowed_hosts transport = []))
        (bs "MCP__TRANSPORT__ALLOWED_HOSTS must contain at least one exact host");
  _ ← fail_if (bool_decide (allowed_origins transport = []))
        (bs "MCP__TRANSPORT__ALLOWED_ORIGINS must contain at least one exact origin");
  _ ← fail_if (existsb (λ host, is_none (normalize_host host)) (allowed_hosts transport))
        (bs "MCP__TRANSPORT__ALLOWED_HOSTS contains an invalid host");
  _ ← fail_if (existsb (λ origin, is_none (normalize_origin origin)) (allowed_origins transport))
        (bs "MCP__TRANSPORT__ALLOWED_ORIGINS contains an invalid origin");
  _ ← fail_if (negb (within (N.of_nat MIN_CONFIGURED_CONCURRENT_REQUESTS)
                        (N.of_nat MAX_CONFIGURED_CONCURRENT_REQUESTS) (max_concurrent_requests transport)))
        (bs "MCP__TRANSPORT__MAX_CONCURRENT_REQUESTS must be between 1 and 64");
  _ ← fail_if (negb (within MIN_CONFIGURED_REQUEST_TIMEOUT_SECONDS MAX_CONFIGURED_REQUEST_TIMEOUT_SECONDS
                        (request_timeout_seconds transport)))
        (bs "MCP__TRANSPORT__REQUEST_TIMEOUT_SECONDS must be between 1 and 300");
  fail_if (negb (within MIN_CONFIGURED_BODY_BYTES MAX_CONFIGURED_BODY_BYTES (max_body_bytes transport)))
    (bs "MCP__TRANSPORT__MAX_BODY_BYTES must be between 1024 and 8388608").

(** ** Loading *)

Definition default_hosts (listener_port : bytes) : list bytes :=
  [bs "localhost:" ++ listener_port; bs "127.0.0.1:" ++ listener_port; bs "[::1]:" ++ listener_port].
Definition default_origins (listener_port : bytes) : list bytes :=
  [bs "http://localhost:" ++ listener_port; bs "http://127.0.0.1:" ++ listener_port;
   bs "http://[::1]:" ++ listener_port].

Section load.
Context (read_variable : bytes → Result VarError bytes).

Definition load_server : anyhow ServerConfig :=
  host ← env_string read_variable (bs "MCP__SERVER__HOST") (bs "127.0.0.1");
  port ← env_port read_variable (bs "MCP__SERVER__PORT") 8000;
  Ok (mkServer host port).
Definition load_auth : anyhow AuthConfig :=
  token ← optional_env_string read_variable (bs "MCP__AUTH__STATIC_TOKEN");
  allow ← env_bool read_variable (bs "MCP__AUTH__ALLOW_UNAUTHENTICATED_LOCALHOST_ONLY") false;
  Ok (mkAuthConfig token allow).
Definition load_capability : anyhow CapabilityConfig :=
  key_id ← optional_env_string read_variable (bs "MCP__CAPABILITY__KEY_ID");
  hmac_key_hex ← optional_env_string read_variable (bs "MCP__CAPABILITY__HMAC_KEY_HEX");
  Ok (mkCapability key_id hmac_key_hex).
Definition load_android : anyhow AndroidConfig :=
  battery ← env_bool read_variable (bs "MCP__ANDROID__BATTERY_STATUS_ENABLED") false;
  volume ← env_bool read_variable (bs "MCP__ANDROID__VOLUME_STATUS_ENABLED") false;
  control ← env_bool read_variable (bs "MCP__ANDROID__VOLUME_CONTROL_ENABLED") false;
  enabled ← env_bool read_variable (bs "MCP__ANDROID__RISH_ENABLED") false;
  dex_path ← optional_env_string read_variable (bs "MCP__ANDROID__RISH_DEX_PATH");
  dex_sha256 ← optional_env_string read_variable (bs "MCP__ANDROID__RISH_DEX_SHA256");
  Ok (mkAndroid battery volume control (mkRish enabled dex_path dex_sha256)).
Definition load_command : anyhow CommandConfig :=
  enabled ← env_bool read_variable (bs "MCP__COMMAND__ENABLED") false;
  Ok (mkCommand enabled).
Definition load_file : anyhow FileConfig :=
  safe_roots ← env_path_list read_variable (bs "MCP__FILE__SAFE_ROOTS") [DEFAULT_FILE_SAFE_ROOT];
  create ← env_bool read_variable (bs "MCP__FILE__CREATE_DIRECTORY_MUTATION_ENABLED") false;
  write ← env_bool read_variable (bs "MCP__FILE__WRITE_MUTATION_ENABLED") false;
  copy ← env_bool read_variable (bs "MCP__FILE__COPY_FILE_MUTATION_ENABLED") false;
  trash ← env_bool read_variable (bs "MCP__FILE__TRASH_FILE_MUTATION_ENABLED") false;
  Ok (mkFile safe_roots create write copy trash).
Definition load_transport (listener_port : bytes) : anyhow TransportConfig :=
  hosts ← env_exact_string_list_owned read_variable (bs "MCP__TRANSPORT__ALLOWED_HOSTS") (default_hosts listener_port);
  origins ← env_exact_string_list_owned read_variable (bs "MCP__TRANSPORT__ALLOWED_ORIGINS")
    (default_origins listener_port);
  missing ← env_bool read_variable (bs "MCP__TRANSPORT__ALLOW_MISSING_ORIGIN") false;
  sse ← env_bool read_variable (bs "MCP__TRANSPORT__SSE_ENABLED") false;
  stateless ← env_bool read_variable (bs "MCP__TRANSPORT__STATELESS_2026_07_28_ENABLED") false;
  concurrent ← env_usize read_variable (bs "MCP__TRANSPORT__MAX_CONCURRENT_REQUESTS")
    (N.of_nat DEFAULT_MAX_CONCURRENT_REQUESTS);
  timeout ← env_u64 read_variable (bs "MCP__TRANSPORT__REQUEST_TIMEOUT_SECONDS") DEFAULT_REQUEST_TIMEOUT_SECONDS;
  body ← env_usize read_variable (bs "MCP__TRANSPORT__MAX_BODY_BYTES") DEFAULT_MAX_BODY_BYTES;
  Ok (mkTransport hosts origins missing sse stateless concurrent timeout body).

Definition load_with : anyhow AppConfig :=
  server ← load_server;
  let listener_port := print_N (port server) in
  auth ← load_auth;
  capability ← load_capability;
  android ← load_android;
  command ← load_command;
  file ← load_file;
  transport ← load_transport listener_port;
  let config := mkApp server auth capability android command file transport in
  _ ← validate_file_safe_roots file;
  _ ← validate_capability_key_configuration capability;
  _ ← validate_create_directory_mutation_capability config;
  _ ← validate_write_file_mutation_capability config;
  _ ← validate_copy_file_mutation_capability config;
  _ ← validate_trash_file_mutation_capability config;
  _ ← validate_android_capabilities android;
  _ ← validate_android_volume_control_capability config;
  _ ← validate_android_rish_configuration config;
  _ ← validate_command_capability command;
  _ ← validate_transport_security transport;
  Ok config.
End load.

(** ** The literal runtime file *)

Definition MAX_RUNTIME_CONFIG_BYTES : N := 65536.

(** [str::lines]: a line ending is a newline, after a carriage return or not. *)
Definition strip_cr (line : bytes) : bytes :=
  if bool_decide (last line = Some (byte_of 13)) then removelast line else line.
Definition lines (s : bytes) : list bytes :=
  let parts := split_on (byte_of 10) s in
  let unterminated := default [] (last parts) in
  (strip_cr <$> removelast parts) ++ (if bytes_eqb unterminated [] then [] else [unterminated]).

Fixpoint name_bytes_from (index : nat) (name : bytes) : bool :=
  match name with
  | [] => true
  | b :: rest =>
    (if is_ascii_uppercase b || is_ascii_lowercase b || bool_decide (b = byte_of 95) then true
     else if is_ascii_digit b then 0 <? index else false)
    && name_bytes_from (S index) rest
  end.
Definition starts_with_bytes (prefix s : bytes) : bool := is_some (strip_str_prefix prefix s).
Definition allowlisted (name : bytes) : bool :=
  starts_with_bytes (bs "MCP__") name || bytes_eqb name (bs "RUST_LOG") || bytes_eqb name (bs "RUST_BACKTRACE").

Fixpoint parse_records (values : gmap bytes bytes) (records : list bytes) : anyhow (gmap bytes bytes) :=
  match records with
  | [] => Ok values
  | line :: rest =>
    if bytes_eqb line [] || starts_with_bytes (bs "#") line then parse_records values rest
    else
      '(name, value) ← ok_or (split_once (byte_of 61) line)
        (bs "offline issuer runtime configuration must use NAME=value records");
      _ ← fail_if (bytes_eqb name [] || negb (name_bytes_from 0 name))
            (bs "offline issuer runtime configuration contains an invalid variable name");
      _ ← fail_if (negb (allowlisted name))
            (bs "offline issuer runtime configuration variable is not allowlisted");
      _ ← fail_if (is_some (values !! name))
            (bs "offline issuer runtime configuration contains a duplicate variable");
      parse_records (<[name := value]> values) rest
  end.
Definition lookup_variable (values : gmap bytes bytes) (name : bytes) : Result VarError bytes :=
  ok_or (values !! name) NotPresent.

Context {FM : FileModes}.

(** The answers of [open], [fstat] and of reading the file, of which the first
    [MAX_RUNTIME_CONFIG_BYTES + 1] bytes are taken. *)
Definition load_from_literal_file (path : bytes) (opened : Result Errno unit) (inspected : Result Errno Stat)
    (content : Result IoError bytes) : anyhow AppConfig :=
  _ ← fail_if (negb (is_absolute path)) (bs "offline issuer runtime configuration path must be absolute");
  _ ← map_err (λ _, bs "offline issuer runtime configuration could not be opened") opened;
  metadata ← map_err (λ _, bs "offline issuer runtime configuration could not be inspected") inspected;
  _ ← fail_if (negb (bool_decide (from_raw_mode (st_mode metadata) = RegularFile)))
        (bs "offline issuer runtime configuration must be a regular non-symlink file");
  _ ← fail_if (negb (N.land (st_mode metadata) 63 =? 0)%N || (N.land (st_mode metadata) 256 =? 0)%N)
        (bs "offline issuer runtime configuration must be owner-readable and inaccessible to group/other");
  configured_bytes ← ok_or (if (st_size metadata <? 0)%Z then None else Some (Z.to_N (st_size metadata)))
    (bs "offline issuer runtime configuration size is invalid");
  _ ← fail_if (MAX_RUNTIME_CONFIG_BYTES <? configured_bytes)%N
        (bs "offline issuer runtime configuration exceeds its byte limit");
  contents ← match content with
    | Ok bytes => ok_or (from_utf8 (take_bytes (MAX_RUNTIME_CONFIG_BYTES + 1) bytes))
                    (bs "offline issuer runtime configuration is not valid UTF-8")
    | Err _ => Err (bs "offline issuer runtime configuration is not valid UTF-8")
    end;
  _ ← fail_if (MAX_RUNTIME_CONFIG_BYTES <? N.of_nat (length contents))%N
        (bs "offline issuer runtime configuration exceeds its byte limit");
  _ ← fail_if (contains_char (byte_of 13) contents || contains_char (byte_of 0) contents)
        (bs "offline issuer runtime configuration contains an invalid byte");
  values ← parse_records ∅ (lines contents);
  load_with (lookup_variable values).
End validation.
End Config.
