(* ===== verification/Quarantine.v ===== *)
(** * Recovery quarantines

    The quarantine directories of [src/src/tools/filesystem.rs]: a private
    directory beside every mutated name, whose artifacts are what a write staged
    or displaced and what a trash removed.  Their opening, locking, accounting,
    and the naming of artifacts; and the guards that remove a staged object when
    a mutation fails. *)

From S2P Require Import Prelude RustStd RequestGrantCapability AppErrors FsCalls SafeRoots WritePolicy.

Module Quarantine.
Import AppErrors SafeRoots.

Definition WRITE_FILE_ARTIFACT_PREFIX : bytes := bs ".termux-mcp-write-artifact-".
Definition TRASH_FILE_ARTIFACT_PREFIX : bytes := bs ".termux-mcp-trash-artifact-".
(** In nanoseconds. *)
Definition QUARANTINE_LOCK_RETRY_BUDGET : N := 50000000.
Definition QUARANTINE_LOCK_RETRY_INTERVAL : N := 1000000.
Definition MAX_TRASH_FILE_BYTES : N := 1048576.
Definition MAX_WRITE_FILE_QUARANTINE_ARTIFACTS : N := 32.
Definition MAX_WRITE_FILE_QUARANTINE_BYTES : N := MAX_WRITE_FILE_QUARANTINE_ARTIFACTS * 1048576.
Definition MAX_TRASH_FILE_QUARANTINE_ARTIFACTS : N := 32.
Definition MAX_TRASH_FILE_QUARANTINE_BYTES : N :=
  MAX_TRASH_FILE_QUARANTINE_ARTIFACTS * MAX_TRASH_FILE_BYTES.
(** [Mode::RUSR | Mode::WUSR | Mode::XUSR] and [Mode::RUSR | Mode::WUSR]. *)
Definition CREATE_DIRECTORY_MODE : N := 448.
Definition WRITE_FILE_MODE : N := 384.
(** [usize::MAX], for [saturating_add]. *)
Definition usize_max : N := u64_max.

Section operations.
Context {FM : FileModes} {C : Crypto}.

(** ** Cleanup guards

    A guard runs when it leaves scope, unless it was disarmed. *)

Record DescriptorDirectoryCleanup := mkDirectoryCleanup {
  dc_parent : fd;
  dc_name : bytes;
  dc_expected_identity : option (N * N);
}.
Record DescriptorCopiedFileCleanup := mkFileCleanup {
  staging_parent : fd;
  publication_parent : fd;
  published : bool;
  fc_name : bytes;
  fc_expected_identity : option (N * N);
}.

(** [Drop for DescriptorDirectoryCleanup], armed. *)
Definition drop_directory (c : DescriptorDirectoryCleanup) : prog unit :=
  match dc_expected_identity c with
  | None => Ret ()
  | Some expected =>
    prog_bind (statat (dc_parent c) (dc_name c)) (λ r, match r with
    | Err _ => Ret ()
    | Ok metadata =>
      if negb (is_dir metadata) || negb (same_id (stat_id metadata) expected) then Ret ()
      else prog_bind (unlinkat (dc_parent c) (dc_name c) true) (λ r, match r with
           | Ok _ => prog_bind (fsync (dc_parent c)) (λ _, Ret ())
           | Err _ => Ret ()
           end)
    end)
  end.

(** [Drop for DescriptorCopiedFileCleanup], armed. *)
Definition drop_copied_file (c : DescriptorCopiedFileCleanup) : prog unit :=
  match fc_expected_identity c with
  | None => Ret ()
  | Some expected =>
    let parent := if published c then publication_parent c else staging_parent c in
    prog_bind (statat parent (fc_name c)) (λ r, match r with
    | Err _ => Ret ()
    | Ok metadata =>
      if negb (is_file metadata) || negb (same_id (stat_id metadata) expected) then Ret ()
      else prog_bind (unlinkat parent (fc_name c) false) (λ r, match r with
           | Ok _ => prog_bind (fsync parent) (λ _, Ret ())
           | Err _ => Ret ()
           end)
    end)
  end.

(** A step while a guard is armed: the guard runs if the step returns early. *)
Definition guarded {E A} (drop : prog unit) (m : fs E A) : fs E A :=
  attempt m (λ r, match r with
    | Ok a => mret a
    | Err e => prog_bind drop (λ _, throw e)
    end).

(** ** Locking *)

(** [lock_quarantine_with_bounded_retry].  [elapsed] is what [started.elapsed()]
    was plus the nap, [Elapsed] answers by how much more the clock advanced. *)
Fixpoint lock_quarantine_with_bounded_retry (fuel : nat) (quarantine : fd) (elapsed : N)
    : fs Errno unit :=
  match fuel with
  | O => throw AGAIN
  | S fuel =>
    attempt (flock quarantine) (λ r, match r with
    | Ok _ => mret ()
    | Err AGAIN =>
      passed ← total (Do Elapsed Ret);
      let elapsed := (elapsed + passed)%N in
      if (QUARANTINE_LOCK_RETRY_BUDGET <=? elapsed)%N then throw AGAIN
      else
        let nap := N.min QUARANTINE_LOCK_RETRY_INTERVAL (QUARANTINE_LOCK_RETRY_BUDGET - elapsed) in
        _ ← total (Do (Sleep nap) Ret);
        lock_quarantine_with_bounded_retry fuel quarantine (elapsed + nap)
    | Err error => throw error
    end)
  end.
Definition LOCK_ATTEMPTS : nat := 51.

Definition lock_write_quarantine (quarantine : fd) : fs AppError unit :=
  or_err (λ error, if bool_decide (error = AGAIN) then WriteQuarantineBusy else descriptor_error error)
    (lock_quarantine_with_bounded_retry LOCK_ATTEMPTS quarantine 0).
Definition lock_trash_quarantine (quarantine : fd) : fs AppError unit :=
  or_err (λ error, if bool_decide (error = AGAIN) then TrashQuarantineBusy else descriptor_error error)
    (lock_quarantine_with_bounded_retry LOCK_ATTEMPTS quarantine 0).
Definition lock_trash_target (target : fd) : fs AppError unit :=
  or_err (λ error, if bool_decide (error = AGAIN) then TrashTargetChanged else descriptor_error error)
    (flock target).

(** ** Accounting *)

Definition is_canonical_artifact_name (prefix name : bytes) : bool :=
  match from_utf8 name with
  | None => false
  | Some name =>
    match strip_str_prefix prefix name with
    | None => false
    | Some identifier =>
      match uuid_parse_str identifier with
      | Some parsed => bytes_eqb (uuid_to_string parsed) identifier
      | None => false
      end
    end
  end.
Definition is_canonical_write_artifact_name : bytes → bool :=
  is_canonical_artifact_name WRITE_FILE_ARTIFACT_PREFIX.
Definition is_canonical_trash_artifact_name : bytes → bool :=
  is_canonical_artifact_name TRASH_FILE_ARTIFACT_PREFIX.

(** The loop shared by [write_quarantine_usage] and [trash_quarantine_usage],
    which differ in the name test, the size limit and the error. *)
Fixpoint count_artifacts (canonical : bytes → bool) (max_bytes : N) (error : AppError)
    (quarantine : fd) (entries : list (Result Errno bytes)) (count bytes : N) : fs AppError (N * N) :=
  match entries with
  | [] => mret (count, bytes)
  | entry :: entries =>
    name ← lift (map_err descriptor_error entry);
    if bytes_eqb name (bs ".") || bytes_eqb name (bs "..")
    then count_artifacts canonical max_bytes error quarantine entries count bytes
    else
      _ ← lift (fail_if (negb (canonical name)) error);
      metadata ← or_err (λ _, error) (statat quarantine name);
      _ ← lift (fail_if (negb (is_file metadata) || (st_size metadata <? 0)%Z
                         || negb (st_nlink metadata =? 1)%N
                         || (max_bytes <? Z.to_N (st_size metadata))%N) error);
      bytes ← lift (ok_or (checked_add64 bytes (Z.to_N (st_size metadata))) error);
      count_artifacts canonical max_bytes error quarantine entries
        (N.min (count + 1) usize_max) bytes
  end.

Definition write_quarantine_usage (quarantine : fd) : fs AppError (N * N) :=
  entries ← or_err descriptor_error (read_dir quarantine);
  count_artifacts is_canonical_write_artifact_name WritePolicy.DEFAULT_MAX_WRITE_BYTES
    WriteQuarantineCapacityExceeded quarantine entries 0 0.
Definition trash_quarantine_usage (quarantine : fd) : fs AppError (N * N) :=
  entries ← or_err descriptor_error (read_dir quarantine);
  count_artifacts is_canonical_trash_artifact_name MAX_TRASH_FILE_BYTES
    TrashQuarantineCapacityExceeded quarantine entries 0 0.

(** [bytes.checked_add(required).is_none_or(|total| total > max)]. *)
Definition exceeds (bytes required max : N) : bool :=
  match checked_add64 bytes required with Some total => (max <? total)%N | None => true end.

Definition ensure_write_quarantine_capacity (quarantine : fd) (required_bytes : N) : fs AppError unit :=
  '(count, bytes) ← write_quarantine_usage quarantine;
  lift (fail_if ((MAX_WRITE_FILE_QUARANTINE_ARTIFACTS <=? count)%N
                 || exceeds bytes required_bytes MAX_WRITE_FILE_QUARANTINE_BYTES)
          WriteQuarantineCapacityExceeded).
Definition ensure_trash_quarantine_capacity (quarantine : fd) (required_bytes : N) : fs AppError unit :=
  '(count, bytes) ← trash_quarantine_usage quarantine;
  lift (fail_if ((MAX_TRASH_FILE_QUARANTINE_ARTIFACTS <=? count)%N
                 || exceeds bytes required_bytes MAX_TRASH_FILE_QUARANTINE_BYTES)
          TrashQuarantineCapacityExceeded).

Definition validate_write_quarantine_bounds (quarantine : fd) : fs AppError unit :=
  '(count, bytes) ← write_quarantine_usage quarantine;
  lift (fail_if ((MAX_WRITE_FILE_QUARANTINE_ARTIFACTS <? count)%N
                 || (MAX_WRITE_FILE_QUARANTINE_BYTES <? bytes)%N) WriteQuarantineCapacityExceeded).
Definition validate_trash_quarantine_bounds (quarantine : fd) : fs AppError unit :=
  '(count, bytes) ← trash_quarantine_usage quarantine;
  lift (fail_if ((MAX_TRASH_FILE_QUARANTINE_ARTIFACTS <? count)%N
                 || (MAX_TRASH_FILE_QUARANTINE_BYTES <? bytes)%N) TrashQuarantineCapacityExceeded).

(** ** Opening *)

(** The answer of [mkdirat]: whether the directory was created. *)
Definition create_quarantine (parent : fd) (name : bytes) : fs AppError bool :=
  attempt (mkdirat parent name CREATE_DIRECTORY_MODE) (λ r, match r with
    | Ok _ => mret true
    | Err EXIST => mret false
    | Err error => throw (descriptor_error error)
    end).
Definition sync_created (created : bool) (quarantine parent : fd) : fs AppError unit :=
  if created
  then _ ← or_err descriptor_error (fsync quarantine); or_err descriptor_error (fsync parent)
  else mret ().

Definition open_write_file_quarantine (parent : fd) : fs AppError fd :=
  created ← create_quarantine parent WRITE_FILE_QUARANTINE_DIRECTORY;
  quarantine ← or_err (λ _, WriteTargetChanged)
    (openat parent WRITE_FILE_QUARANTINE_DIRECTORY OPEN_DIRECTORY 0);
  held ← or_err descriptor_error (fstat quarantine);
  named ← or_err (λ _, WriteTargetChanged) (statat parent WRITE_FILE_QUARANTINE_DIRECTORY);
  _ ← lift (fail_if (negb (is_dir held) || negb (is_dir named)
                     || negb (same_id (stat_id held) (stat_id named))
                     || negb (permissions held =? 448)%N || negb (permissions named =? 448)%N)
              WriteTargetChanged);
  _ ← lock_write_quarantine quarantine;
  _ ← sync_created created quarantine parent;
  mret quarantine.

Definition open_existing_trash_file_quarantine (parent : fd) : fs AppError (option fd) :=
  attempt (statat parent TRASH_FILE_QUARANTINE_DIRECTORY) (λ r, match r with
  | Err NOENT => mret None
  | Err _ => throw TrashQuarantineCapacityExceeded
  | Ok named_before =>
    quarantine ← or_err (λ _, TrashQuarantineCapacityExceeded)
      (openat parent TRASH_FILE_QUARANTINE_DIRECTORY OPEN_DIRECTORY 0);
    held ← or_err (λ _, TrashQuarantineCapacityExceeded) (fstat quarantine);
    _ ← lift (fail_if (negb (is_dir held) || negb (is_dir named_before)
                       || negb (same_id (stat_id held) (stat_id named_before))
                       || negb (permissions held =? 448)%N || negb (permissions named_before =? 448)%N)
                TrashQuarantineCapacityExceeded);
    _ ← lock_trash_quarantine quarantine;
    named_after ← or_err (λ _, TrashQuarantineCapacityExceeded)
      (statat parent TRASH_FILE_QUARANTINE_DIRECTORY);
    _ ← lift (fail_if (negb (is_dir named_after)
                       || negb (same_id (stat_id held) (stat_id named_after))
                       || negb (permissions named_after =? 448)%N) TrashQuarantineCapacityExceeded);
    mret (Some quarantine)
  end).

Definition open_trash_file_quarantine (parent : fd) : fs AppError fd :=
  created ← create_quarantine parent TRASH_FILE_QUARANTINE_DIRECTORY;
  existing ← open_existing_trash_file_quarantine parent;
  quarantine ← lift (ok_or existing TrashTargetChanged);
  _ ← sync_created created quarantine parent;
  mret quarantine.

Definition preflight_write_quarantine_capacity (parent : fd) (required_bytes : N) : fs AppError unit :=
  attempt (statat parent WRITE_FILE_QUARANTINE_DIRECTORY) (λ r, match r with
  | Err NOENT =>
    lift (fail_if (negb (required_bytes <=? MAX_WRITE_FILE_QUARANTINE_BYTES)%N)
            WriteQuarantineCapacityExceeded)
  | Err _ => throw WriteQuarantineCapacityExceeded
  | Ok expected =>
    _ ← lift (fail_if (negb (is_dir expected)) WriteQuarantineCapacityExceeded);
    quarantine ← or_err (λ _, WriteQuarantineCapacityExceeded)
      (openat parent WRITE_FILE_QUARANTINE_DIRECTORY OPEN_DIRECTORY 0);
    held ← or_err descriptor_error (fstat quarantine);
    _ ← lift (fail_if (negb (same_id (stat_id held) (stat_id expected))
                       || negb (permissions held =? 448)%N) WriteQuarantineCapacityExceeded);
    _ ← lock_write_quarantine quarantine;
    ensure_write_quarantine_capacity quarantine required_bytes
  end).

(** ** Artifacts *)

Definition ARTIFACT_ATTEMPTS : nat := 16.
Definition CREATE_ARTIFACT : list OFlag := [RDWR; CREATE; EXCL; NOFOLLOW; CLOEXEC].

(** The checks of an artifact just created, with the guard armed. *)
Definition verify_write_artifact (quarantine fd : fd) (name : bytes) : fs AppError (bytes * N * (N * N)) :=
  held ← or_err descriptor_error (fstat fd);
  let failed_creation_cleanup :=
    drop_copied_file (mkFileCleanup quarantine quarantine false name (Some (stat_id held))) in
  named ← guarded failed_creation_cleanup (or_err (λ _, WriteTargetChanged) (statat quarantine name));
  _ ← guarded failed_creation_cleanup
        (lift (fail_if (negb (is_file held) || negb (same_id (stat_id held) (stat_id named))
                        || negb (st_nlink held =? 1)%N || negb (st_nlink named =? 1)%N
                        || negb (permissions held =? WRITE_FILE_MODE)%N
                        || negb (permissions named =? WRITE_FILE_MODE)%N) WriteTargetChanged));
  mret (name, fd, stat_id held).

Fixpoint create_write_artifact_loop (attempts : nat) (quarantine : fd)
    : fs AppError (bytes * fd * (N * N)) :=
  match attempts with
  | O => throw (other_error (bs "could not allocate write quarantine artifact"))
  | S attempts =>
    uuid ← total new_uuid;
    let name := WRITE_FILE_ARTIFACT_PREFIX ++ uuid_to_string uuid in
    attempt (openat quarantine name CREATE_ARTIFACT WRITE_FILE_MODE) (λ r, match r with
    | Ok fd => verify_write_artifact quarantine fd name
    | Err EXIST => create_write_artifact_loop attempts quarantine
    | Err error => throw (descriptor_error error)
    end)
  end.
Definition create_write_artifact : fd → fs AppError (bytes * fd * (N * N)) :=
  create_write_artifact_loop ARTIFACT_ATTEMPTS.

Fixpoint allocate_trash_artifact_name_loop (attempts : nat) (quarantine : fd) : fs AppError bytes :=
  match attempts with
  | O => throw TrashQuarantineCapacityExceeded
  | S attempts =>
    uuid ← total new_uuid;
    let name := TRASH_FILE_ARTIFACT_PREFIX ++ uuid_to_string uuid in
    attempt (statat quarantine name) (λ r, match r with
    | Err NOENT => mret name
    | Ok _ => allocate_trash_artifact_name_loop attempts quarantine
    | Err error => throw (descriptor_error error)
    end)
  end.
Definition allocate_trash_artifact_name : fd → fs AppError bytes :=
  allocate_trash_artifact_name_loop ARTIFACT_ATTEMPTS.
End operations.
End Quarantine.
