(* ===== verification/FsPrepare.v ===== *)
(** * Preparing filesystem mutations

    [src/src/tools/filesystem.rs], [prepare_create_directory], [prepare_write_file],
    [prepare_copy_file] and [prepare_trash_file]: they resolve the requested path,
    read what the mutation depends on, and compute the target that a grant must
    authorize.  The instants kept for metrics are left out. *)

From S2P Require Import Prelude RustStd RustPath RequestGrantCapability AppErrors GrantTargets.
From S2P Require Import GrantToken WriteFileGrant CopyFileGrant TrashFileGrant.
From S2P Require Import CreateDirectoryGrant FsCalls SafeRoots WritePolicy Quarantine.

Module FsPrepare.
Import AppErrors SafeRoots Quarantine.

Definition MAX_CREATE_DIRECTORY_RESPONSE_BYTES : N := 16384.
Definition MAX_COPY_FILE_BYTES : N := 1048576.
Definition MAX_COPY_FILE_RESPONSE_BYTES : N := 16384.
Definition COPY_FILE_MODE : N := 384.
Definition MAX_TRASH_FILE_RESPONSE_BYTES : N := 16384.
Definition MAX_WRITE_FILE_RESPONSE_BYTES : N := 16384.

(** ** Results *)

Record CreateDirectoryResult := mkCreateDirectoryResult {
  cd_path : bytes; cd_dry_run : bool; cd_mode : bytes; cd_max_response_bytes : N }.
Record CopyFileResult := mkCopyFileResult {
  cf_dry_run : bool; cf_size_bytes : N; cf_mode : bytes; cf_max_file_bytes : N;
  cf_max_response_bytes : N }.
Record TrashFileResult := mkTrashFileResult {
  tf_dry_run : bool; tf_size_bytes : N; tf_recovery_artifact_retained : bool;
  tf_max_file_bytes : N; tf_max_response_bytes : N }.
Record WriteFileResult := mkWriteFileResult {
  wf_dry_run : bool; wf_size_bytes : N; wf_disposition : WriteFile.WriteFileDisposition;
  wf_recovery_artifact_retained : bool; wf_mode : bytes; wf_max_file_bytes : N;
  wf_max_response_bytes : N }.

Definition len (b : bytes) : N := N.of_nat (length b).

Definition create_directory_result (anchored : AnchoredPath) (dry_run : bool) : CreateDirectoryResult :=
  mkCreateDirectoryResult (to_string_lossy (display_path anchored)) dry_run (bs "0700")
    MAX_CREATE_DIRECTORY_RESPONSE_BYTES.
Definition copy_file_result (dry_run : bool) (size_bytes : N) : CopyFileResult :=
  mkCopyFileResult dry_run size_bytes (bs "0600") MAX_COPY_FILE_BYTES MAX_COPY_FILE_RESPONSE_BYTES.
Definition trash_file_result (dry_run : bool) (size_bytes : N) : TrashFileResult :=
  mkTrashFileResult dry_run size_bytes (negb dry_run) MAX_TRASH_FILE_BYTES
    MAX_TRASH_FILE_RESPONSE_BYTES.
Definition write_file_result (dry_run : bool) (size_bytes : N)
    (disposition : WriteFile.WriteFileDisposition) : WriteFileResult :=
  mkWriteFileResult dry_run size_bytes disposition
    (negb dry_run && bool_decide (disposition = WriteFile.Replace)) (bs "0600")
    (WritePolicy.max_write_bytes WritePolicy.policy_default) MAX_WRITE_FILE_RESPONSE_BYTES.

(** ** Prepared mutations *)

Record PreparedCreateDirectoryMutation := mkPreparedCreate {
  pc_result : CreateDirectoryResult;
  pc_parent_fd : fd;
  directory_name : bytes;
  pc_grant_target : CreateDirectory.CreateDirectoryGrantTarget;
}.

Record PreparedCopyFileMutation := mkPreparedCopy {
  pcf_result : CopyFileResult;
  source_root_fd : fd;
  source_root_identity : N * N;
  source_parent_fd : fd;
  source_name : bytes;
  source_file : fd;
  source_identity : FileIdentity;
  source_sha256 : bytes;
  pcf_content : bytes;
  destination_root_fd : fd;
  destination_root_identity : N * N;
  destination_parent_fd : fd;
  destination_parent_identity : N * N;
  destination_name : bytes;
  pcf_grant_target : CopyFile.CopyFileGrantTarget;
}.

Record PreparedTrashFileMutation := mkPreparedTrash {
  pt_result : TrashFileResult;
  pt_root_fd : fd;
  pt_root_identity : N * N;
  pt_parent_fd : fd;
  pt_parent_identity : N * N;
  pt_file_name : bytes;
  target_file : fd;
  target_identity : FileIdentity;
  target_sha256 : bytes;
  pt_grant_target : TrashFile.TrashFileGrantTarget;
}.

Record PreparedWriteFileMutation := mkPreparedWrite {
  pw_result : WriteFileResult;
  pw_parent_fd : fd;
  pw_file_name : bytes;
  pw_content : bytes;
  pw_disposition : WriteFile.WriteFileDisposition;
  existing_target_fd : option fd;
  pw_existing_identity : option FileIdentity;
  existing_size : option N;
  pw_grant_target : WriteFile.WriteFileGrantTarget;
}.

(** ** Identities *)

(** [u64::try_from] and [i64::try_from] of a field of [Stat]. *)
Definition u64_try_from (z : Z) : option N := if (z <? 0)%Z then None else Some (Z.to_N z).
Definition i64_try_from (z : Z) : option Z :=
  if (-9223372036854775808 <=? z)%Z && (z <=? 9223372036854775807)%Z then Some z else None.

Section operations.
Context {FM : FileModes} {C : Crypto}.

Definition write_file_existing_identity (metadata : Stat) : Result AppError FileIdentity :=
  _ ← fail_if (negb (is_file metadata)) WriteTargetChanged;
  size ← ok_or (u64_try_from (st_size metadata)) WriteTargetChanged;
  nanoseconds ← ok_or (i64_try_from (st_ctime_nsec metadata)) WriteTargetChanged;
  map_err (λ _, WriteTargetChanged)
    (WriteFile.WriteFileExistingIdentity_new (st_dev metadata) (st_ino metadata) size
       (st_ctime metadata) nanoseconds (st_nlink metadata)).

Definition copy_source_size (metadata : Stat) : Result AppError N :=
  ok_or (u64_try_from (st_size metadata)) (other_error (bs "copy source reported an invalid size")).

Definition copy_file_source_identity (metadata : Stat) : Result AppError FileIdentity :=
  _ ← fail_if (negb (is_file metadata)) CopySourceChanged;
  size ← copy_source_size metadata;
  nanoseconds ← ok_or (i64_try_from (st_ctime_nsec metadata)) CopySourceChanged;
  map_err (λ _, CopySourceChanged)
    (CopyFile.CopyFileSourceIdentity_new (st_dev metadata) (st_ino metadata) size
       (st_ctime metadata) nanoseconds (st_nlink metadata)).

Definition trash_file_identity (metadata : Stat) : Result AppError FileIdentity :=
  _ ← fail_if (negb (is_file metadata)) UnsupportedPathType;
  size ← ok_or (u64_try_from (st_size metadata)) UnsupportedPathType;
  nanoseconds ← ok_or (i64_try_from (st_ctime_nsec metadata)) UnsupportedPathType;
  map_err (λ _, UnsupportedPathType)
    (TrashFile.TrashFileIdentity_new (st_dev metadata) (st_ino metadata) size
       (st_ctime metadata) nanoseconds (st_nlink metadata)).

(** [identity(metadata).ok() == Some(expected)]. *)
Definition write_file_existing_identity_matches (metadata : Stat) (expected : FileIdentity) : bool :=
  bool_decide (write_file_existing_identity metadata = Ok expected).
Definition copy_file_source_identity_matches (metadata : Stat) (expected : FileIdentity) : bool :=
  bool_decide (copy_file_source_identity metadata = Ok expected).
Definition trash_file_identity_matches (metadata : Stat) (expected : FileIdentity) : bool :=
  bool_decide (trash_file_identity metadata = Ok expected).

(** The identity but for the change time, which a rename updates. *)
Definition retained_object_matches (metadata : Stat) (expected : FileIdentity) : bool :=
  is_file metadata && (st_dev metadata =? device expected)%N && (st_ino metadata =? inode expected)%N
  && bool_decide (u64_try_from (st_size metadata) = Some (file_size expected))
  && (st_nlink metadata =? link_count expected)%N.
Definition write_file_existing_object_matches := retained_object_matches.
Definition trash_file_retained_identity_matches := retained_object_matches.

(** A file this run staged: its inode, one link, private mode, expected size. *)
Definition staged_contract_match (mode : N) (metadata : Stat) (expected : N * N) (expected_size : N)
    : bool :=
  is_file metadata && (st_dev metadata =? fst expected)%N && (st_ino metadata =? snd expected)%N
  && (st_nlink metadata =? 1)%N && (permissions metadata =? mode)%N
  && bool_decide (u64_try_from (st_size metadata) = Some expected_size).
Definition write_file_identity_and_contract_match := staged_contract_match WRITE_FILE_MODE.
Definition copy_file_identity_and_contract_match := staged_contract_match COPY_FILE_MODE.

(** ** Reading *)

Definition read_bounded_bytes (reader : fd) (max_bytes : N) : fs AppError bytes :=
  read_limit ← lift (ok_or (checked_add64 max_bytes 1) (other_error (bs "file byte limit overflowed")));
  bytes ← or_err Io (read_to_end_take reader read_limit);
  _ ← lift (fail_if (max_bytes <? len bytes)%N (FileTooLarge (len bytes) max_bytes));
  mret bytes.

(** The loop over [relative_path.components()]. *)
Fixpoint normal_components (cs : list Component) : Result AppError (list bytes) :=
  match cs with
  | [] => Ok []
  | Normal component :: cs => rest ← normal_components cs; Ok (component :: rest)
  | _ => Err path_rejected
  end.

Definition write_policy_error_to_app_error (e : WritePolicy.WritePolicyError) : AppError :=
  match e with WritePolicy.PayloadTooLarge bytes max_bytes => WritePayloadTooLarge bytes max_bytes end.

(** ** Preparation *)

Definition prepare_create_directory (anchored : AnchoredPath) (dry_run : bool)
    : fs AppError PreparedCreateDirectoryMutation :=
  '(parent_relative, directory_name) ← lift (split_parent_and_name (relative_path anchored));
  root_fd ← duplicate_root anchored;
  root_metadata ← or_err descriptor_error (fstat root_fd);
  _ ← lift (fail_if (negb (is_dir root_metadata)) path_rejected);
  normalized_components ← lift (normal_components (components (relative_path anchored)));
  grant_target ← lift (map_err
    (λ _, other_error (bs "create directory authorization target is invalid"))
    (CreateDirectory.from_normalized_components (st_dev root_metadata) (st_ino root_metadata)
       normalized_components));
  parent_fd ← open_mutation_parent_directory root_fd parent_relative;
  _ ← attempt (statat parent_fd directory_name) (λ r, match r with
    | Ok metadata => throw (if is_symlink metadata then path_rejected else PathAlreadyExists)
    | Err NOENT => mret ()
    | Err error => throw (descriptor_error error)
    end);
  mret (mkPreparedCreate (create_directory_result anchored dry_run) parent_fd directory_name grant_target).

(** The disposition of a write, with the held target of a replacement. *)
Definition write_disposition (parent_fd : fd) (file_name : bytes)
    : fs AppError (WriteFile.WriteFileDisposition * option fd * option FileIdentity * option N) :=
  attempt (statat parent_fd file_name) (λ r, match r with
    | Err NOENT => mret (WriteFile.Create, None, None, None)
    | Err error => throw (descriptor_error error)
    | Ok metadata =>
      _ ← lift (fail_if (is_symlink metadata) path_rejected);
      _ ← lift (fail_if (negb (is_file metadata)) UnsupportedPathType);
      initial_identity ← lift (write_file_existing_identity metadata);
      let existing_size := file_size initial_identity in
      _ ← lift (fail_if (WritePolicy.max_write_bytes WritePolicy.policy_default <? existing_size)%N
                  WriteTargetChanged);
      target_fd ← or_err (λ error, if bool_decide (error = NOENT) then WriteTargetChanged
                                   else descriptor_error error)
        (openat parent_fd file_name OPEN_PATH 0);
      held_metadata ← or_err descriptor_error (fstat target_fd);
      held_identity ← lift (write_file_existing_identity held_metadata);
      _ ← lift (fail_if (negb (bool_decide (held_identity = initial_identity))) WriteTargetChanged);
      mret (WriteFile.Replace, Some target_fd, Some held_identity, Some existing_size)
    end).

Definition prepare_write_file (anchored : AnchoredPath) (content : bytes) (dry_run : bool)
    : fs AppError PreparedWriteFileMutation :=
  _ ← lift (map_err write_policy_error_to_app_error
              (WritePolicy.validate_payload_size WritePolicy.policy_default (len content)));
  '(parent_relative, file_name) ← lift (split_parent_and_name (relative_path anchored));
  root_fd ← duplicate_root anchored;
  root_metadata ← or_err descriptor_error (fstat root_fd);
  _ ← lift (fail_if (negb (is_dir root_metadata)) path_rejected);
  normalized_components ← lift (normal_components (components (relative_path anchored)));
  parent_fd ← open_mutation_parent_directory root_fd parent_relative;
  parent_metadata ← or_err descriptor_error (fstat parent_fd);
  _ ← lift (fail_if (negb (is_dir parent_metadata)) WriteTargetChanged);
  '(disposition, existing_target_fd, existing_identity, existing_size) ←
    write_disposition parent_fd file_name;
  grant_target ← lift (map_err (λ _, other_error (bs "write file authorization target is invalid"))
    (WriteFile.from_normalized_components (st_dev root_metadata) (st_ino root_metadata)
       normalized_components content disposition existing_identity));
  mret (mkPreparedWrite (write_file_result dry_run (len content) disposition) parent_fd file_name
          content disposition existing_target_fd existing_identity existing_size grant_target).

Definition copy_source_parent_error (error : AppError) : AppError :=
  match error with PathNotFound => CopySourceNotFound | other => other end.
Definition copy_destination_parent_error (error : AppError) : AppError :=
  match error with PathNotFound => CopyDestinationParentNotFound | other => other end.

(** Opening the source of a copy, or the target of a trash. *)
Definition open_file_error (not_found : AppError) (e : Errno) : AppError :=
  match e with NOENT => not_found | LOOP => path_rejected | _ => descriptor_error e end.

(** The first half of [prepare_copy_file]: the source, read under its identity. *)
Definition prepare_copy_source (source : AnchoredPath)
    : fs AppError (fd * Stat * fd * bytes * fd * FileIdentity * bytes) :=
  '(source_parent_relative, source_name) ← lift (split_parent_and_name (relative_path source));
  source_root_fd ← duplicate_root source;
  source_root_metadata ← or_err descriptor_error (fstat source_root_fd);
  _ ← lift (fail_if (negb (is_dir source_root_metadata)) path_rejected);
  source_root_again ← duplicate_directory_descriptor source_root_fd;
  source_parent_fd ← or_err copy_source_parent_error
    (open_metadata_parent_directory source_root_again source_parent_relative);
  source_before ← or_err (λ e, if bool_decide (e = NOENT) then CopySourceNotFound else descriptor_error e)
    (statat source_parent_fd source_name);
  _ ← lift (fail_if (is_symlink source_before) path_rejected);
  _ ← lift (fail_if (negb (is_file source_before)) UnsupportedPathType);
  source_size ← lift (copy_source_size source_before);
  _ ← lift (fail_if (MAX_COPY_FILE_BYTES <? source_size)%N (FileTooLarge source_size MAX_COPY_FILE_BYTES));
  source_identity ← lift (copy_file_source_identity source_before);
  source_file ← or_err (open_file_error CopySourceNotFound)
    (openat source_parent_fd source_name OPEN_FILE 0);
  source_opened ← or_err descriptor_error (fstat source_file);
  _ ← lift (fail_if (negb (copy_file_source_identity_matches source_opened source_identity))
              CopySourceChanged);
  content ← read_bounded_bytes source_file MAX_COPY_FILE_BYTES;
  source_after ← or_err descriptor_error (fstat source_file);
  source_named_after ← or_err (λ _, CopySourceChanged) (statat source_parent_fd source_name);
  _ ← lift (fail_if (negb (len content =? source_size)%N
                     || negb (copy_file_source_identity_matches source_after source_identity)
                     || negb (copy_file_source_identity_matches source_named_after source_identity))
              CopySourceChanged);
  mret (source_root_fd, source_root_metadata, source_parent_fd, source_name, source_file,
        source_identity, content).

Definition prepare_copy_file (source destination : AnchoredPath) (dry_run : bool)
    : fs AppError PreparedCopyFileMutation :=
  _ ← lift (fail_if (path_eq (display_path source) (display_path destination))
              CopySourceDestinationSame);
  '(source_root_fd, source_root_metadata, source_parent_fd, source_name, source_file,
    source_identity, content) ← prepare_copy_source source;
  let source_sha256 := sha256 content in
  '(destination_parent_relative, destination_name) ←
    lift (split_parent_and_name (relative_path destination));
  destination_root_fd ← duplicate_root destination;
  destination_root_metadata ← or_err descriptor_error (fstat destination_root_fd);
  _ ← lift (fail_if (negb (is_dir destination_root_metadata)) path_rejected);
  destination_root_again ← duplicate_directory_descriptor destination_root_fd;
  destination_parent_fd ← or_err copy_destination_parent_error
    (open_mutation_parent_directory destination_root_again destination_parent_relative);
  destination_parent_metadata ← or_err descriptor_error (fstat destination_parent_fd);
  _ ← lift (fail_if (negb (is_dir destination_parent_metadata)) CopyDestinationChanged);
  _ ← attempt (statat destination_parent_fd destination_name) (λ r, match r with
    | Ok metadata => throw (if is_symlink metadata then path_rejected else PathAlreadyExists)
    | Err NOENT => mret ()
    | Err error => throw (descriptor_error error)
    end);
  source_components ← lift (normal_components (components (relative_path source)));
  destination_components ← lift (normal_components (components (relative_path destination)));
  grant_target ← lift (map_err (λ _, other_error (bs "copy file authorization target is invalid"))
    (CopyFile.from_normalized_components (st_dev source_root_metadata) (st_ino source_root_metadata)
       source_components source_identity source_sha256 (st_dev destination_root_metadata)
       (st_ino destination_root_metadata) destination_components));
  mret (mkPreparedCopy (copy_file_result dry_run (len content)) source_root_fd
          (stat_id source_root_metadata) source_parent_fd source_name source_file source_identity
          source_sha256 content destination_root_fd (stat_id destination_root_metadata)
          destination_parent_fd (stat_id destination_parent_metadata) destination_name grant_target).

Definition prepare_trash_file (anchored : AnchoredPath) (dry_run : bool)
    : fs AppError PreparedTrashFileMutation :=
  '(parent_relative, file_name) ← lift (split_parent_and_name (relative_path anchored));
  root_fd ← duplicate_root anchored;
  root_metadata ← or_err descriptor_error (fstat root_fd);
  _ ← lift (fail_if (negb (is_dir root_metadata)) path_rejected);
  root_again ← duplicate_directory_descriptor root_fd;
  parent_fd ← open_mutation_parent_directory root_again parent_relative;
  parent_metadata ← or_err descriptor_error (fstat parent_fd);
  _ ← lift (fail_if (negb (is_dir parent_metadata)) TrashTargetChanged);
  named_before ← or_err not_found_error (statat parent_fd file_name);
  identity ← lift (trash_file_identity named_before);
  _ ← lift (fail_if (MAX_TRASH_FILE_BYTES <? file_size identity)%N
              (FileTooLarge (file_size identity) MAX_TRASH_FILE_BYTES));
  target_file ← or_err (open_file_error PathNotFound) (openat parent_fd file_name OPEN_FILE 0);
  held_before ← or_err descriptor_error (fstat target_file);
  _ ← lift (fail_if (negb (trash_file_identity_matches held_before identity)) TrashTargetChanged);
  content ← read_bounded_bytes target_file MAX_TRASH_FILE_BYTES;
  held_after ← or_err descriptor_error (fstat target_file);
  named_after ← or_err (λ _, TrashTargetChanged) (statat parent_fd file_name);
  _ ← lift (fail_if (negb (len content =? file_size identity)%N
                     || negb (trash_file_identity_matches held_after identity)
                     || negb (trash_file_identity_matches named_after identity)) TrashTargetChanged);
  normalized_components ← lift (normal_components (components (relative_path anchored)));
  let target_sha256 := sha256 content in
  grant_target ← lift (map_err (λ _, other_error (bs "trash file authorization target is invalid"))
    (TrashFile.from_normalized_components (st_dev root_metadata) (st_ino root_metadata)
       normalized_components identity target_sha256));
  mret (mkPreparedTrash (trash_file_result dry_run (len content)) root_fd (stat_id root_metadata)
          parent_fd (stat_id parent_metadata) file_name target_file identity target_sha256
          grant_target).
End operations.
End FsPrepare.
