(* ===== verification/FsReads.v ===== *)
(** * Reading tools

    [src/src/tools/filesystem.rs]: whole files, bounded binary and text ranges,
    hashing and metadata, each through the one descriptor that was verified. *)

From S2P Require Import Prelude RustStd RustPath RequestGrantCapability AppErrors Base64 GrantToken.
From S2P Require Import FsCalls SafeRoots FsPrepare.

(** The [chrono] crate: the RFC 3339 text of a number of seconds since the epoch;
    [None] when it is out of range, where the conversion panics. *)
Class Chrono := rfc3339 : N → option bytes.

Module FsReads.
Import AppErrors SafeRoots FsPrepare.

Definition MAX_READ_BYTES : N := 1048576.
Definition MAX_BINARY_READ_BYTES : N := 1048576.
Definition MAX_BINARY_READ_RESPONSE_BYTES : N := 1507328.
Definition MAX_BINARY_RANGE_FILE_BYTES : N := 67108864.
Definition MAX_BINARY_RANGE_BYTES : N := 262144.
Definition MAX_BINARY_RANGE_RESPONSE_BYTES : N := 393216.
Definition MAX_TEXT_RANGE_FILE_BYTES : N := 67108864.
Definition MIN_TEXT_RANGE_BYTES : N := 4.
Definition MAX_TEXT_RANGE_BYTES : N := 262144.
Definition MAX_TEXT_RANGE_RESPONSE_BYTES : N := 1703936.
Definition MAX_HASH_FILE_BYTES : N := 16777216.
Definition MAX_PATH_METADATA_RESPONSE_BYTES : N := 16384.
Definition HASH_BUFFER_BYTES : N := 65536.
(** [2 ^ 25] rounds are more than a file within the limit can take. *)
Definition HASH_ROUNDS : nat := 25.

Record ReadFileResult := mkReadFile { rf_path : bytes; rf_content : bytes; rf_size : N }.
Record ReadBinaryFileResult := mkReadBinary {
  rb_encoding : bytes; rb_data : bytes; rb_size_bytes : N;
  rb_max_file_bytes : N; rb_max_response_bytes : N }.
Record ReadBinaryRangeResult := mkBinaryRange {
  br_encoding : bytes; br_data : bytes; br_offset_bytes : N; br_size_bytes : N;
  br_file_size_bytes : N; br_eof : bool; br_max_read_bytes : N; br_max_file_bytes : N;
  br_max_response_bytes : N }.
Record ReadTextRangeResult := mkTextRange {
  tr_content : bytes; tr_offset_bytes : N; tr_next_offset_bytes : N; tr_size_bytes : N;
  tr_file_size_bytes : N; tr_eof : bool; tr_max_read_bytes : N; tr_max_file_bytes : N;
  tr_max_response_bytes : N }.
Record HashFileResult := mkHashFile { hf_algorithm : bytes; hf_digest : bytes; hf_size_bytes : N }.
Inductive PathMetadataKind := RegularFileKind | DirectoryKind.
Record PathMetadataResult := mkPathMetadata {
  pm_path : bytes; pm_kind : PathMetadataKind; pm_size_bytes : option N;
  pm_modified : option bytes; pm_max_response_bytes : N }.

(** [filesystem_worker_error]: the answer when the blocking worker panicked and
    the build unwinds. *)
Definition filesystem_worker_error : AppError := other_error (bs "filesystem worker failed").

Definition encode_lower_hex : bytes → bytes := encode_hex.

Record VerifiedRegularFile := mkVerified { vf_file : fd; vf_size_bytes : N }.
Record BinaryRangeRead := mkBinaryRead { brr_bytes : bytes; brr_file_size_bytes : N; brr_eof : bool }.
Record TextRangeRead := mkTextRead { trr_content : bytes; trr_file_size_bytes : N; trr_eof : bool }.

Section operations.
Context {FM : FileModes} {C : Crypto} {T : Chrono}.

Definition reported_size (metadata : Stat) : Result AppError N :=
  ok_or (u64_try_from (st_size metadata)) (other_error (bs "file reported an invalid size")).

Definition open_verified_regular_file (anchored : AnchoredPath) (max_bytes : N)
    : fs AppError VerifiedRegularFile :=
  '(parent_relative, file_name) ← lift (split_parent_and_name (relative_path anchored));
  root_fd ← duplicate_root anchored;
  parent_fd ← open_metadata_parent_directory root_fd parent_relative;
  path_metadata ← or_err not_found_error (statat parent_fd file_name);
  _ ← lift (fail_if (is_symlink path_metadata) path_rejected);
  _ ← lift (fail_if (negb (is_file path_metadata)) UnsupportedPathType);
  size ← lift (reported_size path_metadata);
  _ ← lift (fail_if (max_bytes <? size)%N (FileTooLarge size max_bytes));
  file_fd ← or_err (open_file_error PathNotFound) (openat parent_fd file_name OPEN_FILE 0);
  opened_metadata ← or_err descriptor_error (fstat file_fd);
  _ ← lift (fail_if (negb (is_file opened_metadata)) UnsupportedPathType);
  _ ← lift (fail_if (negb (same_id (stat_id opened_metadata) (stat_id path_metadata))) path_rejected);
  opened_size ← lift (reported_size opened_metadata);
  _ ← lift (fail_if (max_bytes <? opened_size)%N (FileTooLarge opened_size max_bytes));
  mret (mkVerified file_fd opened_size).

(** The part the two range reads share: seek, read, and look at the file again. *)
Definition read_range_bytes (verified : VerifiedRegularFile) (offset_bytes length_bytes : N)
    : fs AppError bytes :=
  _ ← or_err Io (seek (vf_file verified) offset_bytes);
  bytes ← or_err Io (read_to_end_take (vf_file verified) length_bytes);
  post_metadata ← or_err descriptor_error (fstat (vf_file verified));
  _ ← lift (fail_if (negb (is_file post_metadata)) UnsupportedPathType);
  post_size ← lift (reported_size post_metadata);
  _ ← lift (fail_if (negb (post_size =? vf_size_bytes verified)%N) FileChangedDuringRead);
  mret bytes.

Definition read_verified_binary_range (verified : VerifiedRegularFile) (offset_bytes length_bytes : N)
    : fs AppError BinaryRangeRead :=
  _ ← lift (fail_if ((vf_size_bytes verified <? offset_bytes)%N
                     || negb ((1 <=? length_bytes)%N && (length_bytes <=? MAX_BINARY_RANGE_BYTES)%N))
              InvalidBinaryRange);
  bytes ← read_range_bytes verified offset_bytes length_bytes;
  end_bytes ← lift (ok_or (checked_add64 offset_bytes (len bytes)) InvalidBinaryRange);
  mret (mkBinaryRead bytes (vf_size_bytes verified) (vf_size_bytes verified <=? end_bytes)%N).

(** [match std::str::from_utf8(&bytes)]. *)
Definition text_of_range (bytes : bytes) (physical_end file_size : N) : Result AppError Prelude.bytes :=
  match utf8_error bytes with
  | None => Ok bytes
  | Some (valid_up_to, error_len) =>
    if bool_decide (error_len = None) && (physical_end <? file_size)%N
    then Ok (take valid_up_to bytes) else Err InvalidFileEncoding
  end.

(** [byte & 0b1100_0000 == 0b1000_0000]. *)
Definition starts_inside (bytes : bytes) : bool :=
  match bytes with [] => false | byte :: _ => (N.land (byte_val byte) 192 =? 128)%N end.

Definition read_verified_text_range (verified : VerifiedRegularFile) (offset_bytes max_bytes : N)
    : fs AppError TextRangeRead :=
  _ ← lift (fail_if ((vf_size_bytes verified <? offset_bytes)%N
                     || negb ((MIN_TEXT_RANGE_BYTES <=? max_bytes)%N && (max_bytes <=? MAX_TEXT_RANGE_BYTES)%N))
              InvalidTextRange);
  bytes ← read_range_bytes verified offset_bytes max_bytes;
  _ ← lift (fail_if (starts_inside bytes) InvalidTextRange);
  physical_end ← lift (ok_or (checked_add64 offset_bytes (len bytes)) InvalidTextRange);
  content ← lift (text_of_range bytes physical_end (vf_size_bytes verified));
  logical_end ← lift (ok_or (checked_add64 offset_bytes (len content)) InvalidTextRange);
  mret (mkTextRead content (vf_size_bytes verified) (vf_size_bytes verified <=? logical_end)%N).

(** [modified.into()] panics on a time chrono cannot represent.  The release
    build aborts, so the process ends at the [Panic]; what follows it is what a
    build that unwinds does, where the panic ends the blocking task and the tool
    answers [filesystem_worker_error]. *)
Definition stat_modified_time (metadata : Stat) : fs AppError (option bytes) :=
  match u64_try_from (st_mtime metadata) with
  | None => mret None
  | Some seconds =>
    match rfc3339 seconds with
    | Some text => mret (Some text)
    | None => Do Panic (λ _, throw filesystem_worker_error)
    end
  end.

(** A file status among the answers of a run, and one whose modification time
    chrono cannot represent. *)
Definition stat_answered (metadata : Stat) (h : history) : Prop :=
  (∃ d, Ev (Fstat d) (Ok metadata) ∈ h) ∨ ∃ d name, Ev (Statat d name) (Ok metadata) ∈ h.
Definition time_out_of_range (h : history) : Prop :=
  ∃ metadata seconds, stat_answered metadata h ∧
    u64_try_from (st_mtime metadata) = Some seconds ∧ rfc3339 seconds = None.

(** ** The tools *)

Definition read_file (self : PinnedSafeRootSet) (path : bytes) : fs AppError ReadFileResult :=
  anchored ← lift (anchor self path);
  file ← open_verified_regular_file anchored MAX_READ_BYTES;
  bytes ← read_bounded_bytes (vf_file file) MAX_READ_BYTES;
  content ← lift (ok_or (from_utf8 bytes) InvalidFileEncoding);
  mret (mkReadFile (to_string_lossy (display_path anchored)) content (len bytes)).

Definition read_binary_file (self : PinnedSafeRootSet) (path : bytes) : fs AppError ReadBinaryFileResult :=
  anchored ← lift (anchor self path);
  file ← open_verified_regular_file anchored MAX_BINARY_READ_BYTES;
  bytes ← read_bounded_bytes (vf_file file) MAX_BINARY_READ_BYTES;
  mret (mkReadBinary (bs "base64") (Base64.encode_base64 bytes) (len bytes) MAX_BINARY_READ_BYTES
          MAX_BINARY_READ_RESPONSE_BYTES).

Definition read_binary_range (self : PinnedSafeRootSet) (path : bytes) (offset_bytes length_bytes : N)
    : fs AppError ReadBinaryRangeResult :=
  _ ← lift (fail_if ((MAX_BINARY_RANGE_FILE_BYTES <? offset_bytes)%N
                     || negb ((1 <=? length_bytes)%N && (length_bytes <=? MAX_BINARY_RANGE_BYTES)%N))
              InvalidBinaryRange);
  anchored ← lift (anchor self path);
  file ← open_verified_regular_file anchored MAX_BINARY_RANGE_FILE_BYTES;
  range ← read_verified_binary_range file offset_bytes length_bytes;
  mret (mkBinaryRange (bs "base64") (Base64.encode_base64 (brr_bytes range)) offset_bytes
          (len (brr_bytes range)) (brr_file_size_bytes range) (brr_eof range) MAX_BINARY_RANGE_BYTES
          MAX_BINARY_RANGE_FILE_BYTES MAX_BINARY_RANGE_RESPONSE_BYTES).

Definition read_text_range (self : PinnedSafeRootSet) (path : bytes) (offset_bytes max_bytes : N)
    : fs AppError ReadTextRangeResult :=
  _ ← lift (fail_if ((MAX_TEXT_RANGE_FILE_BYTES <? offset_bytes)%N
                     || negb ((MIN_TEXT_RANGE_BYTES <=? max_bytes)%N && (max_bytes <=? MAX_TEXT_RANGE_BYTES)%N))
              InvalidTextRange);
  anchored ← lift (anchor self path);
  file ← open_verified_regular_file anchored MAX_TEXT_RANGE_FILE_BYTES;
  range ← read_verified_text_range file offset_bytes max_bytes;
  next_offset_bytes ← lift (ok_or (checked_add64 offset_bytes (len (trr_content range))) InvalidTextRange);
  mret (mkTextRange (trr_content range) offset_bytes next_offset_bytes (len (trr_content range))
          (trr_file_size_bytes range) (trr_eof range) MAX_TEXT_RANGE_BYTES
          MAX_TEXT_RANGE_FILE_BYTES MAX_TEXT_RANGE_RESPONSE_BYTES).

(** One round of the hashing loop; the hasher is what it was fed, the reader what
    [take] still lets through. *)
Definition hash_round (file : fd) (st : bytes * N) : fs AppError (bytes * N + bytes) :=
  let '(hashed, remaining) := st in
  chunk ← (if (remaining =? 0)%N then mret []
           else or_err Io (read file (N.min HASH_BUFFER_BYTES remaining)));
  if bytes_eqb chunk [] then mret (inr hashed)
  else
    next_size ← lift (ok_or (checked_add64 (len hashed) (len chunk))
                        (other_error (bs "hashed byte count overflowed")));
    _ ← lift (fail_if (MAX_HASH_FILE_BYTES <? next_size)%N (FileTooLarge next_size MAX_HASH_FILE_BYTES));
    mret (inl (hashed ++ chunk, (remaining - len chunk)%N)).

(** The loop and the result of [hash_file]. *)
Definition hash_reader (file : fd) : fs AppError HashFileResult :=
  outcome ← rounds HASH_ROUNDS (hash_round file) ([], (MAX_HASH_FILE_BYTES + 1)%N);
  match outcome with
  | inl _ => throw filesystem_worker_error
  | inr hashed => mret (mkHashFile (bs "sha256") (encode_lower_hex (sha256 hashed)) (len hashed))
  end.

Definition hash_file (self : PinnedSafeRootSet) (path : bytes) : fs AppError HashFileResult :=
  anchored ← lift (anchor self path);
  file ← open_verified_regular_file anchored MAX_HASH_FILE_BYTES;
  hash_reader (vf_file file).

Definition path_metadata (self : PinnedSafeRootSet) (path : bytes) : fs AppError PathMetadataResult :=
  anchored ← lift (anchor self path);
  root_fd ← duplicate_root anchored;
  target_fd ← open_metadata_descriptor root_fd (relative_path anchored);
  metadata ← or_err descriptor_error (fstat target_fd);
  '(kind, size_bytes) ← lift (
    if is_file metadata then Ok (RegularFileKind, Some (default 0%N (u64_try_from (st_size metadata))))
    else if is_dir metadata then Ok (DirectoryKind, None)
    else if is_symlink metadata then Err path_rejected
    else Err UnsupportedPathType);
  modified ← stat_modified_time metadata;
  mret (mkPathMetadata (to_string_lossy (display_path anchored)) kind size_bytes modified
          MAX_PATH_METADATA_RESPONSE_BYTES).
End operations.
End FsReads.
