(* ===== verification/FsTraverse.v ===== *)
(** * Traversing tools

    [src/src/tools/filesystem.rs]: bounded breadth-first listing, path discovery and
    text search below a safe root.  Each traversal keeps a queue of open
    directories; its rounds are bounded because a directory is queued only with an
    entry that counts against a limit. *)

From stdpp Require Import sorting.
From S2P Require Import Prelude RustStd RustPath AppErrors FsCalls SafeRoots FsPrepare FsReads.

(** ** [BTreeMap<String, V>]: sorted by key *)

Fixpoint btree_insert {V} (key : bytes) (value : V) (m : list (bytes * V)) : list (bytes * V) * option V :=
  match m with
  | [] => ([(key, value)], None)
  | (k, v) :: m' =>
    if bytes_eqb key k then ((key, value) :: m', Some v)
    else if bytes_leb key k then ((key, value) :: m, None)
    else let '(m'', replaced) := btree_insert key value m' in ((k, v) :: m'', replaced)
  end.
Fixpoint btree_pop_last {V} (m : list (bytes * V)) : option (list (bytes * V) * (bytes * V)) :=
  match m with
  | [] => None
  | e :: m' =>
    match btree_pop_last m' with
    | None => Some ([], e)
    | Some (rest, last) => Some (e :: rest, last)
    end
  end.

(** [str::contains] and [str::match_indices] of a non-empty pattern. *)
Definition starts_with (p s : bytes) : bool := bytes_eqb (take (length p) s) p.
Fixpoint str_contains (s p : bytes) : bool :=
  starts_with p s || match s with [] => false | _ :: s => str_contains s p end.
Fixpoint match_indices_from (p : bytes) (pos skip : nat) (s : bytes) : list nat :=
  match s with
  | [] => []
  | _ :: s' =>
    match skip with
    | S skip => match_indices_from p (S pos) skip s'
    | O =>
      if starts_with p s then pos :: match_indices_from p (S pos) (length p - 1) s'
      else match_indices_from p (S pos) 0 s'
    end
  end.
Definition match_indices (s p : bytes) : list nat := match_indices_from p 0 0 s.
Definition NEWLINE : byte := byte_of 10.

Module FsTraverse.
Import AppErrors SafeRoots FsPrepare FsReads.

Definition DEFAULT_LIST_DEPTH : N := 1.
Definition MAX_LIST_DEPTH : N := 5.
Definition MAX_LIST_ENTRIES : N := 4096.
Definition MAX_LIST_RESPONSE_BYTES : N := 262144.
Definition MIN_FIND_DEPTH : N := 1.
Definition MAX_FIND_DEPTH : N := 5.
Definition MAX_FIND_QUERY_BYTES : N := 256.
Definition MAX_FIND_ENTRIES : N := 8192.
Definition MAX_FIND_MATCHES : N := 512.
Definition MAX_FIND_RESPONSE_BYTES : N := 262144.
Definition MIN_SEARCH_DEPTH : N := 1.
Definition MAX_SEARCH_DEPTH : N := 5.
Definition MAX_SEARCH_QUERY_BYTES : N := 256.
Definition MAX_SEARCH_ENTRIES : N := 8192.
Definition MAX_SEARCH_FILES : N := 4096.
Definition MAX_SEARCH_FILE_BYTES : N := 1048576.
Definition MAX_SEARCH_TOTAL_BYTES : N := 8388608.
Definition MAX_SEARCH_MATCHES : N := 256.
Definition MAX_SEARCH_RESPONSE_BYTES : N := 262144.
Definition MAX_LIST_STRUCTURED_BYTES : N := MAX_LIST_RESPONSE_BYTES - 1024.
Definition MAX_FIND_STRUCTURED_BYTES : N := MAX_FIND_RESPONSE_BYTES - 1024.
Definition MAX_SEARCH_STRUCTURED_BYTES : N := MAX_SEARCH_RESPONSE_BYTES - 1024.

(** [2 ^ 14] rounds are more than any traversal makes. *)
Definition TRAVERSAL_ROUNDS : nat := 14.

Record FileInfo := mkFileInfo { fi_path : bytes; fi_size : N; fi_is_dir : bool; fi_modified : option bytes }.
Record ListDirResult := mkListDir {
  ld_path : bytes; ld_entries : list FileInfo; ld_truncated : bool; ld_max_entries : N;
  ld_max_response_bytes : N }.
Record PendingEntry := mkPending {
  pe_info : FileInfo; pe_name : bytes; pe_display_path : bytes; pe_encoded_bytes : N }.

Inductive FindPathKind := FindRegularFile | FindDirectory.
#[global] Instance find_path_kind_eq_dec : EqDecision FindPathKind.
Proof. solve_decision. Defined.
Inductive FindPathFilter := FilterAny | FilterRegularFile | FilterDirectory.
Definition filter_matches (f : FindPathFilter) (kind : FindPathKind) : bool :=
  match f with
  | FilterAny => true
  | FilterRegularFile => bool_decide (kind = FindRegularFile)
  | FilterDirectory => bool_decide (kind = FindDirectory)
  end.
Record FindPathMatch := mkFindMatch { fm_path : bytes; fm_kind : FindPathKind }.
Record FindPathsResult := mkFindPaths {
  fr_path : bytes; fr_matches : list FindPathMatch; fr_truncated : bool; fr_entries_examined : N;
  fr_skipped_invalid_utf8_entries : N; fr_skipped_unsafe_entries : N; fr_skipped_unreadable_entries : N;
  fr_query_bytes : N; fr_kind_filter : FindPathFilter; fr_max_depth : N; fr_max_entries : N;
  fr_max_matches : N; fr_max_response_bytes : N }.
Record FindPendingEntry := mkFindPending { fp_name : bytes; fp_display_path : bytes; fp_kind : FindPathKind }.
Record FindPathsState := mkFindState {
  fs_matches : list FindPathMatch; fs_entries_examined : N; fs_skipped_invalid_utf8_entries : N;
  fs_skipped_unsafe_entries : N; fs_skipped_unreadable_entries : N; fs_truncated : bool }.
Definition find_state_new : FindPathsState := mkFindState [] 0 0 0 0 false.

Record SearchTextMatch := mkSearchMatch { sm_path : bytes; sm_line_number : N; sm_column_byte : N }.
Record SearchTextResult := mkSearchText {
  sr_path : bytes; sr_matches : list SearchTextMatch; sr_truncated : bool; sr_entries_examined : N;
  sr_files_scanned : N; sr_bytes_scanned : N; sr_skipped_oversized_files : N;
  sr_skipped_invalid_utf8_files : N; sr_skipped_unsafe_entries : N; sr_skipped_unreadable_entries : N;
  sr_query_bytes : N; sr_max_depth : N; sr_max_entries : N; sr_max_files : N; sr_max_file_bytes : N;
  sr_max_total_bytes : N; sr_max_matches : N; sr_max_response_bytes : N }.
Record SearchPendingEntry := mkSearchPending {
  sp_name : bytes; sp_display_path : bytes; sp_is_dir : bool; sp_size : N }.
Record SearchState := mkSearchState {
  ss_matches : list SearchTextMatch; ss_entries_examined : N; ss_files_scanned : N; ss_bytes_scanned : N;
  ss_skipped_oversized_files : N; ss_skipped_invalid_utf8_files : N; ss_skipped_unsafe_entries : N;
  ss_skipped_unreadable_entries : N; ss_truncated : bool }.
Definition search_state_new : SearchState := mkSearchState [] 0 0 0 0 0 0 0 false.

(** [serde_json::to_vec(&value)], of which only the length is used. *)
Class JsonLength := {
  file_info_json : FileInfo → Result IoError N;
  list_dir_json : ListDirResult → Result IoError N;
  find_paths_json : FindPathsResult → Result IoError N;
  search_text_json : SearchTextResult → Result IoError N;
}.

(** What the listing relies on: an array is encoded as its elements with a comma
    between two, and [true] is no longer than [false]. *)
Definition file_info_length `{JsonLength} (info : FileInfo) : N :=
  match file_info_json info with Ok n => n | Err _ => 0 end.
Definition infos_length `{JsonLength} (infos : list FileInfo) : N :=
  foldr (λ info n, file_info_length info + n)%N 0%N infos.
Class JsonLengthLaws (J : JsonLength) : Prop := {
  list_dir_json_entries path entries truncated max_entries max_bytes base :
    list_dir_json (mkListDir path [] false max_entries max_bytes) = Ok base →
    Forall (λ info, is_ok (file_info_json info) = true) entries →
    ∃ n, list_dir_json (mkListDir path entries truncated max_entries max_bytes) = Ok n ∧
      (n ≤ base + infos_length entries + (N.of_nat (length entries) - 1))%N;
}.

(** An open directory, its path and its depth. *)
Definition Queued : Type := fd * bytes * N.

Definition count {A} (l : list A) : N := N.of_nat (length l).
Definition clamp (lo hi n : N) : N := N.max lo (N.min hi n).
(** Names a traversal never looks at. *)
Definition skipped_name (name : bytes) : bool :=
  bytes_eqb name (bs ".") || bytes_eqb name (bs "..") || is_runtime_quarantine_name name.

Section operations.
Context {FM : FileModes} {T : Chrono} {J : JsonLength}.

(** ** Listing *)

(** The condition of the loop that drops the largest candidates. *)
Definition list_over (entries : list FileInfo) (structured_bytes candidate_bytes candidates : N) : bool :=
  (MAX_LIST_ENTRIES <? count entries + candidates)%N
  || (MAX_LIST_STRUCTURED_BYTES <?
        structured_bytes + candidate_bytes + (if count entries =? 0 then 0 else 1) + (candidates - 1))%N.

Fixpoint shrink_candidates (fuel : nat) (entries : list FileInfo) (structured_bytes : N)
    (candidates : list (bytes * PendingEntry)) (candidate_bytes : N) (truncated : bool)
    : list (bytes * PendingEntry) * N * bool :=
  if list_over entries structured_bytes candidate_bytes (count candidates) then
    match fuel, btree_pop_last candidates with
    | S fuel, Some (rest, (_, removed)) =>
      shrink_candidates fuel entries structured_bytes rest (candidate_bytes - pe_encoded_bytes removed) true
    | _, _ => (candidates, candidate_bytes, truncated)
    end
  else (candidates, candidate_bytes, truncated).

(** The loop over one directory. *)
Fixpoint list_candidates (dir_fd : fd) (dir_path : bytes) (identities : list (option (N * N)))
    (entries : list FileInfo) (structured_bytes : N) (read_dir : list (Result Errno bytes))
    (candidates : list (bytes * PendingEntry)) (candidate_bytes : N) (truncated : bool)
    : fs AppError (list (bytes * PendingEntry) * bool) :=
  match read_dir with
  | [] => mret (candidates, truncated)
  | entry :: read_dir =>
    let continue := list_candidates dir_fd dir_path identities entries structured_bytes read_dir in
    name ← lift (map_err descriptor_error entry);
    if skipped_name name then continue candidates candidate_bytes truncated
    else attempt (statat dir_fd name) (λ r, match r with
    | Err _ => continue candidates candidate_bytes truncated
    | Ok metadata =>
      if is_symlink metadata || stat_matches_runtime_quarantine metadata identities
      then continue candidates candidate_bytes truncated
      else
        let child_path := path_join dir_path name in
        modified ← stat_modified_time metadata;
        let info := mkFileInfo (to_string_lossy child_path) (default 0%N (u64_try_from (st_size metadata)))
                      (is_dir metadata) modified in
        encoded_bytes ← lift (map_err Io (file_info_json info));
        let '(candidates, replaced) :=
          btree_insert (fi_path info) (mkPending info name child_path encoded_bytes) candidates in
        let candidate_bytes := (candidate_bytes + encoded_bytes)%N in
        let candidate_bytes := match replaced with
          | Some replaced => (candidate_bytes - pe_encoded_bytes replaced)%N
          | None => candidate_bytes end in
        let '(candidates, candidate_bytes, truncated) :=
          shrink_candidates (length candidates) entries structured_bytes candidates candidate_bytes truncated in
        continue candidates candidate_bytes truncated
    end)
  end.

Record ListState := mkListState {
  ls_queue : list Queued; ls_entries : list FileInfo; ls_structured_bytes : N; ls_truncated : bool }.

(** The loop that pushes the candidates of one directory. *)
Fixpoint list_push (dir_fd : fd) (depth max_depth : N) (candidates : list (bytes * PendingEntry))
    (st : ListState) : fs AppError ListState :=
  match candidates with
  | [] => mret st
  | (_, pending) :: candidates =>
    let structured_bytes :=
      (ls_structured_bytes st + (if count (ls_entries st) =? 0 then 0 else 1) + pe_encoded_bytes pending)%N in
    let entries := ls_entries st ++ [pe_info pending] in
    if fi_is_dir (pe_info pending) && (depth <? max_depth)%N then
      attempt (open_child_directory dir_fd (pe_name pending)) (λ r,
        let queue := match r with
          | Ok child_fd => ls_queue st ++ [(child_fd, pe_display_path pending, (depth + 1)%N)]
          | Err _ => ls_queue st end in
        list_push dir_fd depth max_depth candidates
          (mkListState queue entries structured_bytes (ls_truncated st)))
    else
      list_push dir_fd depth max_depth candidates
        (mkListState (ls_queue st) entries structured_bytes (ls_truncated st))
  end.

(** One round of the traversal. *)
Definition list_round (max_depth : N) (st : ListState) : fs AppError (ListState + ListState) :=
  match ls_queue st with
  | [] => mret (inr st)
  | (dir_fd, dir_path, depth) :: queue =>
    if (MAX_LIST_ENTRIES <=? count (ls_entries st))%N
       || (MAX_LIST_STRUCTURED_BYTES <=? ls_structured_bytes st)%N
    then mret (inr (mkListState queue (ls_entries st) (ls_structured_bytes st) true))
    else
      read_dir ← or_err descriptor_error (read_dir dir_fd);
      identities ← runtime_quarantine_identities dir_fd;
      '(candidates, truncated) ←
        list_candidates dir_fd dir_path identities (ls_entries st) (ls_structured_bytes st) read_dir
          [] 0 (ls_truncated st);
      st ← list_push dir_fd depth max_depth candidates
             (mkListState queue (ls_entries st) (ls_structured_bytes st) truncated);
      mret (inl st)
  end.

(** [collect_entries_descriptor_relative]; [None] is not reached. *)
Definition collect_entries (root_fd : fd) (root_path : bytes) (max_depth structured_bytes : N)
    : fs AppError (option ListState) :=
  outcome ← rounds TRAVERSAL_ROUNDS (list_round max_depth)
              (mkListState [(root_fd, root_path, 1%N)] [] structured_bytes false);
  mret (match outcome with inl _ => None | inr st => Some st end).

Definition info_le (a b : FileInfo) : Prop := bytes_leb (fi_path a) (fi_path b) = true.
#[global] Instance info_le_dec a b : Decision (info_le a b).
Proof. unfold info_le. apply _. Defined.

Definition list_directory (self : PinnedSafeRootSet) (path : bytes) (max_depth : option N)
    : fs AppError ListDirResult :=
  anchored ← lift (anchor self path);
  let depth := clamp 1 MAX_LIST_DEPTH (default DEFAULT_LIST_DEPTH max_depth) in
  root_fd ← duplicate_root anchored;
  target_fd ← open_descendant_directory root_fd (relative_path anchored);
  let result := mkListDir (to_string_lossy (display_path anchored)) [] false MAX_LIST_ENTRIES
                  MAX_LIST_RESPONSE_BYTES in
  structured_bytes ← lift (map_err Io (list_dir_json result));
  outcome ← collect_entries target_fd (display_path anchored) depth structured_bytes;
  match outcome with
  | None => throw filesystem_worker_error
  | Some st => mret (mkListDir (ld_path result) (merge_sort info_le (ls_entries st)) (ls_truncated st)
                       MAX_LIST_ENTRIES MAX_LIST_RESPONSE_BYTES)
  end.

(** ** Path discovery *)

(** [query.chars().any(..)]: the refused characters are ASCII. *)
Definition has_any (refused query : bytes) : bool := existsb (λ c, bool_decide (c ∈ refused)) query.
Definition validate_find_query (query : bytes) : Result AppError unit :=
  fail_if (bytes_eqb query [] || (MAX_FIND_QUERY_BYTES <? len query)%N
           || has_any [x00; byte_of 10; byte_of 13; SLASH] query) InvalidFindQuery.

Definition find_exhausted (st : FindPathsState) : bool :=
  (MAX_FIND_ENTRIES <=? fs_entries_examined st)%N || (MAX_FIND_MATCHES <=? count (fs_matches st))%N.

Definition find_examined (st : FindPathsState) : FindPathsState :=
  mkFindState (fs_matches st) (fs_entries_examined st + 1) (fs_skipped_invalid_utf8_entries st)
    (fs_skipped_unsafe_entries st) (fs_skipped_unreadable_entries st) (fs_truncated st).
Definition find_unreadable (st : FindPathsState) : FindPathsState :=
  mkFindState (fs_matches st) (fs_entries_examined st) (fs_skipped_invalid_utf8_entries st)
    (fs_skipped_unsafe_entries st) (fs_skipped_unreadable_entries st + 1) (fs_truncated st).
Definition find_unsafe (st : FindPathsState) : FindPathsState :=
  mkFindState (fs_matches st) (fs_entries_examined st) (fs_skipped_invalid_utf8_entries st)
    (fs_skipped_unsafe_entries st + 1) (fs_skipped_unreadable_entries st) (fs_truncated st).
Definition find_invalid_utf8 (st : FindPathsState) : FindPathsState :=
  mkFindState (fs_matches st) (fs_entries_examined st) (fs_skipped_invalid_utf8_entries st + 1)
    (fs_skipped_unsafe_entries st) (fs_skipped_unreadable_entries st) (fs_truncated st).
Definition find_truncated (st : FindPathsState) : FindPathsState :=
  mkFindState (fs_matches st) (fs_entries_examined st) (fs_skipped_invalid_utf8_entries st)
    (fs_skipped_unsafe_entries st) (fs_skipped_unreadable_entries st) true.
Definition find_matched (m : FindPathMatch) (st : FindPathsState) : FindPathsState :=
  mkFindState (fs_matches st ++ [m]) (fs_entries_examined st) (fs_skipped_invalid_utf8_entries st)
    (fs_skipped_unsafe_entries st) (fs_skipped_unreadable_entries st) (fs_truncated st).

(** The loop over one directory. *)
Fixpoint find_candidates (dir_fd : fd) (dir_path : bytes) (identities : list (option (N * N)))
    (read_dir : list (Result Errno bytes)) (candidates : list (bytes * FindPendingEntry))
    (st : FindPathsState) : fs AppError (list (bytes * FindPendingEntry) * FindPathsState) :=
  match read_dir with
  | [] => mret (candidates, st)
  | entry :: read_dir =>
    let continue := find_candidates dir_fd dir_path identities read_dir in
    if (MAX_FIND_ENTRIES <=? fs_entries_examined st)%N then mret (candidates, find_truncated st)
    else match entry with
    | Err _ => continue candidates (find_unreadable st)
    | Ok name =>
      if skipped_name name then continue candidates st
      else
        let st := find_examined st in
        match from_utf8 name with
        | None => continue candidates (find_invalid_utf8 st)
        | Some name_key =>
          attempt (statat dir_fd name) (λ r, match r with
          | Err _ => continue candidates (find_unreadable st)
          | Ok metadata =>
            if stat_matches_runtime_quarantine metadata identities then continue candidates st
            else
              let kind := if is_file metadata then Some FindRegularFile
                          else if is_dir metadata then Some FindDirectory else None in
              match kind with
              | None => continue candidates (find_unsafe st)
              | Some kind =>
                continue (btree_insert name_key (mkFindPending name (path_join dir_path name) kind)
                            candidates).1 st
              end
          end)
        end
    end
  end.

(** The loop over the candidates of one directory; whether the traversal ends. *)
Fixpoint find_visit (query : bytes) (kind_filter : FindPathFilter) (dir_fd : fd) (depth max_depth : N)
    (candidates : list (bytes * FindPendingEntry)) (queue : list Queued) (st : FindPathsState)
    : fs AppError (bool * list Queued * FindPathsState) :=
  match candidates with
  | [] => mret (false, queue, st)
  | (name_key, pending) :: candidates =>
    let continue := find_visit query kind_filter dir_fd depth max_depth candidates in
    if (MAX_FIND_MATCHES <=? count (fs_matches st))%N then mret (true, queue, find_truncated st)
    else
      let st := if str_contains name_key query && filter_matches kind_filter (fp_kind pending)
                then find_matched (mkFindMatch (to_string_lossy (fp_display_path pending)) (fp_kind pending)) st
                else st in
      if bool_decide (fp_kind pending = FindDirectory) && (depth <? max_depth)%N then
        attempt (open_child_directory dir_fd (fp_name pending)) (λ r, match r with
        | Ok child_fd => continue (queue ++ [(child_fd, fp_display_path pending, (depth + 1)%N)]) st
        | Err _ => continue queue (find_unreadable st)
        end)
      else continue queue st
  end.

Definition find_round (query : bytes) (kind_filter : FindPathFilter) (max_depth : N)
    (qs : list Queued * FindPathsState) : fs AppError (list Queued * FindPathsState + FindPathsState) :=
  match qs with
  | ([], st) => mret (inr st)
  | ((dir_fd, dir_path, depth) :: queue, st) =>
    if find_exhausted st then mret (inr (find_truncated st))
    else
      read_dir ← or_err descriptor_error (read_dir dir_fd);
      identities ← runtime_quarantine_identities dir_fd;
      '(candidates, st) ← find_candidates dir_fd dir_path identities read_dir [] st;
      visited ← find_visit query kind_filter dir_fd depth max_depth candidates queue st;
      let '(ended, queue, st) := visited in
      mret (if ended : bool then inr st else inl (queue, st))
  end.

(** [collect_path_matches_descriptor_relative]; [None] is not reached. *)
Definition collect_path_matches (query : bytes) (kind_filter : FindPathFilter) (root_fd : fd)
    (root_path : bytes) (max_depth : N) : fs AppError (option FindPathsState) :=
  outcome ← rounds TRAVERSAL_ROUNDS (find_round query kind_filter max_depth)
              ([(root_fd, root_path, 1%N)], find_state_new);
  mret (match outcome with inl _ => None | inr st => Some st end).

(** The loop that drops matches until the response fits. *)
Fixpoint find_fit (fuel : nat) (result : FindPathsResult) : Result AppError FindPathsResult :=
  encoded ← map_err Io (find_paths_json result);
  if (MAX_FIND_STRUCTURED_BYTES <? encoded)%N then
    match fuel, fr_matches result with
    | S fuel, _ :: _ =>
      find_fit fuel (mkFindPaths (fr_path result) (removelast (fr_matches result)) true
        (fr_entries_examined result) (fr_skipped_invalid_utf8_entries result)
        (fr_skipped_unsafe_entries result) (fr_skipped_unreadable_entries result) (fr_query_bytes result)
        (fr_kind_filter result) (fr_max_depth result) (fr_max_entries result) (fr_max_matches result)
        (fr_max_response_bytes result))
    | _, _ => Err (other_error (bs "path-discovery response metadata exceeds its bound"))
    end
  else Ok result.

Definition find_le (a b : FindPathMatch) : Prop := bytes_leb (fm_path a) (fm_path b) = true.
#[global] Instance find_le_dec a b : Decision (find_le a b).
Proof. unfold find_le. apply _. Defined.

Definition find_paths (self : PinnedSafeRootSet) (path query : bytes) (kind_filter : FindPathFilter)
    (max_depth : option N) : fs AppError FindPathsResult :=
  _ ← lift (validate_find_query query);
  anchored ← lift (anchor self path);
  let depth := clamp MIN_FIND_DEPTH MAX_FIND_DEPTH (default MAX_FIND_DEPTH max_depth) in
  root_fd ← duplicate_root anchored;
  target_fd ← open_descendant_directory root_fd (relative_path anchored);
  outcome ← collect_path_matches query kind_filter target_fd (display_path anchored) depth;
  match outcome with
  | None => throw filesystem_worker_error
  | Some st =>
    lift (find_fit (length (fs_matches st))
      (mkFindPaths (to_string_lossy (display_path anchored)) (merge_sort find_le (fs_matches st))
         (fs_truncated st) (fs_entries_examined st) (fs_skipped_invalid_utf8_entries st)
         (fs_skipped_unsafe_entries st) (fs_skipped_unreadable_entries st) (len query) kind_filter depth
         MAX_FIND_ENTRIES MAX_FIND_MATCHES MAX_FIND_RESPONSE_BYTES))
  end.

(** ** Text search *)

Definition validate_search_query (query : bytes) : Result AppError unit :=
  fail_if (bytes_eqb query [] || (MAX_SEARCH_QUERY_BYTES <? len query)%N
           || has_any [x00; byte_of 10; byte_of 13] query) InvalidSearchQuery.

Definition search_exhausted (st : SearchState) : bool :=
  (MAX_SEARCH_FILES <=? ss_files_scanned st)%N || (MAX_SEARCH_TOTAL_BYTES <=? ss_bytes_scanned st)%N
  || (MAX_SEARCH_MATCHES <=? count (ss_matches st))%N.

Definition search_examined (st : SearchState) : SearchState :=
  mkSearchState (ss_matches st) (ss_entries_examined st + 1) (ss_files_scanned st) (ss_bytes_scanned st)
    (ss_skipped_oversized_files st) (ss_skipped_invalid_utf8_files st) (ss_skipped_unsafe_entries st)
    (ss_skipped_unreadable_entries st) (ss_truncated st).
Definition search_unreadable (st : SearchState) : SearchState :=
  mkSearchState (ss_matches st) (ss_entries_examined st) (ss_files_scanned st) (ss_bytes_scanned st)
    (ss_skipped_oversized_files st) (ss_skipped_invalid_utf8_files st) (ss_skipped_unsafe_entries st)
    (ss_skipped_unreadable_entries st + 1) (ss_truncated st).
Definition search_unsafe (st : SearchState) : SearchState :=
  mkSearchState (ss_matches st) (ss_entries_examined st) (ss_files_scanned st) (ss_bytes_scanned st)
    (ss_skipped_oversized_files st) (ss_skipped_invalid_utf8_files st) (ss_skipped_unsafe_entries st + 1)
    (ss_skipped_unreadable_entries st) (ss_truncated st).
Definition search_oversized (st : SearchState) : SearchState :=
  mkSearchState (ss_matches st) (ss_entries_examined st) (ss_files_scanned st) (ss_bytes_scanned st)
    (ss_skipped_oversized_files st + 1) (ss_skipped_invalid_utf8_files st) (ss_skipped_unsafe_entries st)
    (ss_skipped_unreadable_entries st) true.
Definition search_invalid_utf8 (st : SearchState) : SearchState :=
  mkSearchState (ss_matches st) (ss_entries_examined st) (ss_files_scanned st) (ss_bytes_scanned st)
    (ss_skipped_oversized_files st) (ss_skipped_invalid_utf8_files st + 1) (ss_skipped_unsafe_entries st)
    (ss_skipped_unreadable_entries st) (ss_truncated st).
Definition search_truncated (st : SearchState) : SearchState :=
  mkSearchState (ss_matches st) (ss_entries_examined st) (ss_files_scanned st) (ss_bytes_scanned st)
    (ss_skipped_oversized_files st) (ss_skipped_invalid_utf8_files st) (ss_skipped_unsafe_entries st)
    (ss_skipped_unreadable_entries st) true.
Definition search_scanned (bytes : N) (st : SearchState) : SearchState :=
  mkSearchState (ss_matches st) (ss_entries_examined st) (ss_files_scanned st + 1) (ss_bytes_scanned st + bytes)
    (ss_skipped_oversized_files st) (ss_skipped_invalid_utf8_files st) (ss_skipped_unsafe_entries st)
    (ss_skipped_unreadable_entries st) (ss_truncated st).
Definition search_matched (m : SearchTextMatch) (st : SearchState) : SearchState :=
  mkSearchState (ss_matches st ++ [m]) (ss_entries_examined st) (ss_files_scanned st) (ss_bytes_scanned st)
    (ss_skipped_oversized_files st) (ss_skipped_invalid_utf8_files st) (ss_skipped_unsafe_entries st)
    (ss_skipped_unreadable_entries st) (ss_truncated st).

(** The loop over one directory. *)
Fixpoint search_candidates (dir_fd : fd) (dir_path : bytes) (identities : list (option (N * N)))
    (read_dir : list (Result Errno bytes)) (candidates : list (bytes * SearchPendingEntry))
    (st : SearchState) : fs AppError (list (bytes * SearchPendingEntry) * SearchState) :=
  match read_dir with
  | [] => mret (candidates, st)
  | entry :: read_dir =>
    let continue := search_candidates dir_fd dir_path identities read_dir in
    if (MAX_SEARCH_ENTRIES <=? ss_entries_examined st)%N then mret (candidates, search_truncated st)
    else match entry with
    | Err _ => continue candidates (search_unreadable st)
    | Ok name =>
      if skipped_name name then continue candidates st
      else
        let st := search_examined st in
        match from_utf8 name with
        | None => continue candidates (search_unsafe st)
        | Some name_key =>
          attempt (statat dir_fd name) (λ r, match r with
          | Err _ => continue candidates (search_unreadable st)
          | Ok metadata =>
            if stat_matches_runtime_quarantine metadata identities then continue candidates st
            else if is_symlink metadata || (negb (is_dir metadata) && negb (is_file metadata))
            then continue candidates (search_unsafe st)
            else
              continue (btree_insert name_key
                (mkSearchPending name (path_join dir_path name) (is_dir metadata)
                   (default u64_max (u64_try_from (st_size metadata)))) candidates).1 st
          end)
        end
    end
  end.

(** The matches of one file, in order, until the limit; whether it was reached. *)
Fixpoint push_matches (found : list SearchTextMatch) (st : SearchState) : SearchState :=
  match found with
  | [] => st
  | m :: found =>
    if (MAX_SEARCH_MATCHES <=? count (ss_matches st))%N then search_truncated st
    else push_matches found (search_matched m st)
  end.
(** [for (line_index, line) in content.split('\n').enumerate()], and the matches
    of each line. *)
Definition line_matches (path query : bytes) (line_index : nat) (line : bytes) : list SearchTextMatch :=
  (λ column, mkSearchMatch path (N.of_nat (line_index + 1)) (N.of_nat (column + 1))) <$> match_indices line query.
Definition content_matches (path query content : bytes) : list SearchTextMatch :=
  mjoin (imap (line_matches path query) (split_on NEWLINE content)).

Definition scan_search_file (query : bytes) (parent_fd : fd) (pending : SearchPendingEntry)
    (st : SearchState) : fs AppError SearchState :=
  if (MAX_SEARCH_FILE_BYTES <? sp_size pending)%N
     || (MAX_SEARCH_TOTAL_BYTES - ss_bytes_scanned st <? sp_size pending)%N
  then mret (search_oversized st)
  else attempt (openat parent_fd (sp_name pending) OPEN_FILE 0) (λ r, match r with
  | Err _ => mret (search_unreadable st)
  | Ok file_fd =>
    attempt (fstat file_fd) (λ r, match r with
    | Err _ => mret (search_unreadable st)
    | Ok opened_metadata =>
      if negb (is_file opened_metadata) then mret (search_unsafe st)
      else
        let remaining_total := (MAX_SEARCH_TOTAL_BYTES - ss_bytes_scanned st)%N in
        let read_limit := (N.min MAX_SEARCH_FILE_BYTES remaining_total + 1)%N in
        attempt (read_to_end_take file_fd read_limit) (λ r, match r with
        | Err _ => mret (search_unreadable st)
        | Ok bytes =>
          if (MAX_SEARCH_FILE_BYTES <? len bytes)%N || (remaining_total <? len bytes)%N
          then mret (search_oversized st)
          else
            let st := search_scanned (len bytes) st in
            match from_utf8 bytes with
            | None => mret (search_invalid_utf8 st)
            | Some content =>
              mret (push_matches
                (content_matches (to_string_lossy (sp_display_path pending)) query content) st)
            end
        end)
    end)
  end).

(** The loop over the candidates of one directory. *)
Fixpoint search_visit (query : bytes) (dir_fd : fd) (depth max_depth : N)
    (candidates : list (bytes * SearchPendingEntry)) (queue : list Queued) (st : SearchState)
    : fs AppError (list Queued * SearchState) :=
  match candidates with
  | [] => mret (queue, st)
  | (_, pending) :: candidates =>
    let continue := search_visit query dir_fd depth max_depth candidates in
    if search_exhausted st then mret (queue, search_truncated st)
    else if sp_is_dir pending then
      if (depth <? max_depth)%N then
        attempt (open_child_directory dir_fd (sp_name pending)) (λ r, match r with
        | Ok child_fd => continue (queue ++ [(child_fd, sp_display_path pending, (depth + 1)%N)]) st
        | Err _ => continue queue (search_unreadable st)
        end)
      else continue queue st
    else
      st ← scan_search_file query dir_fd pending st;
      continue queue st
  end.

Definition search_round (query : bytes) (max_depth : N) (qs : list Queued * SearchState)
    : fs AppError (list Queued * SearchState + SearchState) :=
  match qs with
  | ([], st) => mret (inr st)
  | ((dir_fd, dir_path, depth) :: queue, st) =>
    if search_exhausted st || (MAX_SEARCH_ENTRIES <=? ss_entries_examined st)%N
    then mret (inr (search_truncated st))
    else
      read_dir ← or_err descriptor_error (read_dir dir_fd);
      identities ← runtime_quarantine_identities dir_fd;
      '(candidates, st) ← search_candidates dir_fd dir_path identities read_dir [] st;
      '(queue, st) ← search_visit query dir_fd depth max_depth candidates queue st;
      mret (inl (queue, st))
  end.

(** [collect_text_matches_descriptor_relative]; [None] is not reached. *)
Definition collect_text_matches (query : bytes) (root_fd : fd) (root_path : bytes) (max_depth : N)
    : fs AppError (option SearchState) :=
  outcome ← rounds TRAVERSAL_ROUNDS (search_round query max_depth)
              ([(root_fd, root_path, 1%N)], search_state_new);
  mret (match outcome with inl _ => None | inr st => Some st end).

(** The loop that drops matches until the response fits. *)
Fixpoint search_fit (fuel : nat) (result : SearchTextResult) : Result AppError SearchTextResult :=
  encoded ← map_err Io (search_text_json result);
  if (MAX_SEARCH_STRUCTURED_BYTES <? encoded)%N then
    match fuel, sr_matches result with
    | S fuel, _ :: _ =>
      search_fit fuel (mkSearchText (sr_path result) (removelast (sr_matches result)) true
        (sr_entries_examined result) (sr_files_scanned result) (sr_bytes_scanned result)
        (sr_skipped_oversized_files result) (sr_skipped_invalid_utf8_files result)
        (sr_skipped_unsafe_entries result) (sr_skipped_unreadable_entries result) (sr_query_bytes result)
        (sr_max_depth result) (sr_max_entries result) (sr_max_files result) (sr_max_file_bytes result)
        (sr_max_total_bytes result) (sr_max_matches result) (sr_max_response_bytes result))
    | _, _ => Err (other_error (bs "search response metadata exceeds its bound"))
    end
  else Ok result.

(** The order of [(&path, line_number, column_byte)]. *)
Definition search_leb (a b : SearchTextMatch) : bool :=
  if bytes_eqb (sm_path a) (sm_path b) then
    (sm_line_number a <? sm_line_number b)%N
    || ((sm_line_number a =? sm_line_number b)%N && (sm_column_byte a <=? sm_column_byte b)%N)
  else bytes_leb (sm_path a) (sm_path b).
Definition search_le (a b : SearchTextMatch) : Prop := search_leb a b = true.
#[global] Instance search_le_dec a b : Decision (search_le a b).
Proof. unfold search_le. apply _. Defined.

Definition search_text (self : PinnedSafeRootSet) (path query : bytes) (max_depth : option N)
    : fs AppError SearchTextResult :=
  _ ← lift (validate_search_query query);
  anchored ← lift (anchor self path);
  let depth := clamp MIN_SEARCH_DEPTH MAX_SEARCH_DEPTH (default MAX_SEARCH_DEPTH max_depth) in
  root_fd ← duplicate_root anchored;
  target_fd ← open_descendant_directory root_fd (relative_path anchored);
  outcome ← collect_text_matches query target_fd (display_path anchored) depth;
  match outcome with
  | None => throw filesystem_worker_error
  | Some st =>
    lift (search_fit (length (ss_matches st))
      (mkSearchText (to_string_lossy (display_path anchored)) (merge_sort search_le (ss_matches st))
         (ss_truncated st) (ss_entries_examined st) (ss_files_scanned st) (ss_bytes_scanned st)
         (ss_skipped_oversized_files st) (ss_skipped_invalid_utf8_files st) (ss_skipped_unsafe_entries st)
         (ss_skipped_unreadable_entries st) (len query) depth MAX_SEARCH_ENTRIES MAX_SEARCH_FILES
         MAX_SEARCH_FILE_BYTES MAX_SEARCH_TOTAL_BYTES MAX_SEARCH_MATCHES MAX_SEARCH_RESPONSE_BYTES))
  end.
End operations.
End FsTraverse.
