(* ===== verification/FsMutations.v ===== *)
(** * Executing filesystem mutations

    [src/src/tools/filesystem.rs], the [execute_authorized_with_commit] methods of
    the four prepared mutations: under the process-wide publication lock they
    revalidate what was prepared, ask for authorization once, and publish. *)

From S2P Require Import Prelude RustStd RequestGrantCapability AppErrors GrantTargets GrantToken.
From S2P Require Import WriteFileGrant FsCalls SafeRoots Quarantine FsPrepare.

Module FsMutations.
Import AppErrors SafeRoots Quarantine FsPrepare.

(** ** The publication lock *)

Definition publication_lock_poisoned : AppError :=
  other_error (bs "filesystem publication lock is poisoned").

(** [acquire_publication_lock_with_contention_hook]; [LockPublication] answers
    whether the lock is sound. *)
Definition acquire_filesystem_publication_lock : fs AppError unit :=
  state ← total (Do TryLock Ret);
  match state with
  | Acquired => mret ()
  | Poisoned => throw publication_lock_poisoned
  | WouldBlock =>
    _ ← total (Do OnLockContention Ret);
    sound ← total (Do LockPublication Ret);
    lift (fail_if (negb sound) publication_lock_poisoned)
  end.

(** [body] while the lock is held; its guard is dropped when it returns. *)
Definition publishing {A} (body : fs AuthorizedError A) : fs AuthorizedError A :=
  _ ← or_err Filesystem acquire_filesystem_publication_lock;
  bracket body (Do UnlockPublication Ret).

Definition authorize (target : MutationTarget) : fs AuthorizedError unit := Do (Authorize target) Ret.

(** The name is free. *)
Definition absent (parent : fd) (name : bytes) (other : Errno → AppError) : fs AppError unit :=
  attempt (statat parent name) (λ r, match r with
    | Err NOENT => mret ()
    | Ok _ => throw PathAlreadyExists
    | Err error => throw (other error)
    end).

(** A rename that must not replace anything. *)
Definition publish_noreplace (exists_error : AppError) (from : fd) (from_name : bytes) (to : fd)
    (to_name : bytes) : fs AppError unit :=
  or_err (λ error, if bool_decide (error = EXIST) then exists_error else descriptor_error error)
    (renameat_with from from_name to to_name NOREPLACE).

(** ** Creating a directory *)

Module CreateDirectoryMutation.
Section operations.
Context {FM : FileModes} {C : Crypto}.

Definition revalidate_absent_target (self : PreparedCreateDirectoryMutation) : fs AppError unit :=
  absent (pc_parent_fd self) (directory_name self) descriptor_error.

Definition created_verification_failed : AppError :=
  other_error (bs "created directory verification failed").
Definition published_verification_failed : AppError :=
  other_error (bs "published directory verification failed").

Definition execute_after_authorization (self : PreparedCreateDirectoryMutation) (temp_name : bytes)
    : fs AppError CreateDirectoryResult :=
  let parent_fd := pc_parent_fd self in
  _ ← or_err descriptor_error (mkdirat parent_fd temp_name CREATE_DIRECTORY_MODE);
  let cleanup := drop_directory (mkDirectoryCleanup parent_fd temp_name None) in
  temp_fd ← guarded cleanup (open_child_directory parent_fd temp_name);
  created_metadata ← guarded cleanup (or_err descriptor_error (fstat temp_fd));
  _ ← guarded cleanup (lift (fail_if (negb (is_dir created_metadata)) created_verification_failed));
  let cleanup :=
    drop_directory (mkDirectoryCleanup parent_fd temp_name (Some (stat_id created_metadata))) in
  _ ← guarded cleanup (or_err descriptor_error (fchmod temp_fd CREATE_DIRECTORY_MODE));
  metadata ← guarded cleanup (or_err descriptor_error (fstat temp_fd));
  _ ← guarded cleanup
        (lift (fail_if (negb (is_dir metadata)
                        || negb (same_id (stat_id metadata) (stat_id created_metadata))
                        || negb (permissions metadata =? CREATE_DIRECTORY_MODE)%N)
                 created_verification_failed));
  _ ← guarded cleanup (or_err descriptor_error (fsync temp_fd));
  _ ← guarded cleanup
        (publish_noreplace PathAlreadyExists parent_fd temp_name parent_fd (directory_name self));
  let cleanup :=
    drop_directory (mkDirectoryCleanup parent_fd (directory_name self)
                      (Some (stat_id created_metadata))) in
  published_metadata ←
    guarded cleanup (or_err descriptor_error (statat parent_fd (directory_name self)));
  _ ← guarded cleanup
        (lift (fail_if (negb (is_dir published_metadata)
                        || negb (same_id (stat_id published_metadata) (stat_id metadata)))
                 published_verification_failed));
  _ ← guarded cleanup (or_err descriptor_error (fsync parent_fd));
  mret (pc_result self).

Definition temporary_name (uuid : bytes) : bytes :=
  bs ".termux-mcp-create-directory-" ++ uuid_to_string uuid ++ bs ".tmp".

Definition execute_authorized_with_commit (self : PreparedCreateDirectoryMutation)
    : fs AuthorizedError CreateDirectoryResult :=
  publishing (
    _ ← or_err Filesystem (revalidate_absent_target self);
    uuid ← total new_uuid;
    _ ← authorize (CreateDirectoryTarget (pc_grant_target self));
    or_err Filesystem (execute_after_authorization self (temporary_name uuid))).
End operations.
End CreateDirectoryMutation.

(** ** Copying a file *)

Module CopyFileMutation.
Section operations.
Context {FM : FileModes} {C : Crypto}.

Definition revalidate_source (self : PreparedCopyFileMutation) : fs AppError unit :=
  let matches metadata := copy_file_source_identity_matches metadata (source_identity self) in
  root ← or_err descriptor_error (fstat (source_root_fd self));
  _ ← lift (fail_if (negb (is_dir root) || negb (same_id (stat_id root) (source_root_identity self)))
              CopySourceChanged);
  held_before ← or_err descriptor_error (fstat (source_file self));
  _ ← lift (fail_if (negb (matches held_before)) CopySourceChanged);
  named_before ← or_err (λ _, CopySourceChanged) (statat (source_parent_fd self) (source_name self));
  _ ← lift (fail_if (negb (matches named_before)) CopySourceChanged);
  _ ← or_err Io (seek (source_file self) 0);
  current ← read_bounded_bytes (source_file self) MAX_COPY_FILE_BYTES;
  held_after ← or_err descriptor_error (fstat (source_file self));
  named_after ← or_err (λ _, CopySourceChanged) (statat (source_parent_fd self) (source_name self));
  lift (fail_if (negb (bytes_eqb current (pcf_content self))
                 || negb (bytes_eqb (sha256 current) (source_sha256 self))
                 || negb (matches held_after) || negb (matches named_after)) CopySourceChanged).

Definition revalidate_absent_destination (self : PreparedCopyFileMutation) : fs AppError unit :=
  root ← or_err descriptor_error (fstat (destination_root_fd self));
  parent ← or_err descriptor_error (fstat (destination_parent_fd self));
  _ ← lift (fail_if (negb (is_dir root)
                     || negb (same_id (stat_id root) (destination_root_identity self))
                     || negb (is_dir parent)
                     || negb (same_id (stat_id parent) (destination_parent_identity self)))
              CopyDestinationChanged);
  absent (destination_parent_fd self) (destination_name self) (λ _, CopyDestinationChanged).

Definition staging_verification_failed : AppError :=
  other_error (bs "copy destination staging verification failed").
Definition published_verification_failed : AppError :=
  other_error (bs "published copy destination verification failed").

Definition execute_after_authorization (self : PreparedCopyFileMutation) : fs AppError CopyFileResult :=
  let parent := destination_parent_fd self in
  let size := len (pcf_content self) in
  quarantine ← open_write_file_quarantine parent;
  _ ← ensure_write_quarantine_capacity quarantine size;
  '(temp_name, destination_file, staged_identity) ← create_write_artifact quarantine;
  let cleanup := drop_copied_file (mkFileCleanup quarantine parent false temp_name None) in
  created_metadata ← guarded cleanup (or_err descriptor_error (fstat destination_file));
  _ ← guarded cleanup
        (lift (fail_if (negb (is_file created_metadata) || negb (st_nlink created_metadata =? 1)%N
                        || negb (same_id (stat_id created_metadata) staged_identity))
                 staging_verification_failed));
  let identity := stat_id created_metadata in
  let cleanup := drop_copied_file (mkFileCleanup quarantine parent false temp_name (Some identity)) in
  _ ← guarded cleanup (or_err descriptor_error (fchmod destination_file COPY_FILE_MODE));
  _ ← guarded cleanup (or_err Io (write_all destination_file (pcf_content self)));
  _ ← guarded cleanup (or_err Io (sync_all destination_file));
  staged_metadata ← guarded cleanup (or_err descriptor_error (fstat destination_file));
  _ ← guarded cleanup
        (lift (fail_if (negb (copy_file_identity_and_contract_match staged_metadata identity size))
                 staging_verification_failed));
  _ ← guarded cleanup
        (publish_noreplace PathAlreadyExists quarantine temp_name parent (destination_name self));
  let cleanup :=
    drop_copied_file (mkFileCleanup quarantine parent true (destination_name self) (Some identity)) in
  published_metadata ← guarded cleanup (or_err descriptor_error (statat parent (destination_name self)));
  held_metadata ← guarded cleanup (or_err descriptor_error (fstat destination_file));
  _ ← guarded cleanup
        (lift (fail_if (negb (copy_file_identity_and_contract_match published_metadata identity size)
                        || negb (copy_file_identity_and_contract_match held_metadata identity size))
                 published_verification_failed));
  _ ← guarded cleanup (or_err descriptor_error (fsync parent));
  _ ← guarded cleanup (or_err descriptor_error (fsync quarantine));
  _ ← guarded cleanup (validate_write_quarantine_bounds quarantine);
  mret (pcf_result self).

Definition execute_authorized_with_commit (self : PreparedCopyFileMutation)
    : fs AuthorizedError CopyFileResult :=
  publishing (
    _ ← or_err Filesystem (revalidate_source self);
    _ ← or_err Filesystem (revalidate_absent_destination self);
    _ ← or_err Filesystem
          (preflight_write_quarantine_capacity (destination_parent_fd self) (len (pcf_content self)));
    _ ← authorize (CopyFileTarget (pcf_grant_target self));
    or_err Filesystem (execute_after_authorization self)).
End operations.
End CopyFileMutation.

(** ** Trashing a file *)

Module TrashFileMutation.
Section operations.
Context {FM : FileModes} {C : Crypto}.

Definition revalidate_target (self : PreparedTrashFileMutation) : fs AppError unit :=
  let matches metadata := trash_file_identity_matches metadata (target_identity self) in
  root ← or_err descriptor_error (fstat (pt_root_fd self));
  parent ← or_err descriptor_error (fstat (pt_parent_fd self));
  held ← or_err descriptor_error (fstat (target_file self));
  named ← or_err (λ _, TrashTargetChanged) (statat (pt_parent_fd self) (pt_file_name self));
  _ ← lift (fail_if (negb (is_dir root) || negb (same_id (stat_id root) (pt_root_identity self))
                     || negb (is_dir parent) || negb (same_id (stat_id parent) (pt_parent_identity self))
                     || negb (matches held) || negb (matches named)) TrashTargetChanged);
  _ ← or_err Io (seek (target_file self) 0);
  content ← read_bounded_bytes (target_file self) MAX_TRASH_FILE_BYTES;
  held_after ← or_err descriptor_error (fstat (target_file self));
  named_after ← or_err (λ _, TrashTargetChanged) (statat (pt_parent_fd self) (pt_file_name self));
  lift (fail_if (negb (len content =? file_size (target_identity self))%N
                 || negb (bytes_eqb (sha256 content) (target_sha256 self))
                 || negb (matches held_after) || negb (matches named_after)) TrashTargetChanged).

Definition execute_after_authorization (self : PreparedTrashFileMutation) (quarantine : fd)
    (artifact_name : bytes) : fs AppError TrashFileResult :=
  let retained_matches metadata :=
    trash_file_retained_identity_matches metadata (target_identity self) in
  _ ← publish_noreplace TrashTargetChanged (pt_parent_fd self) (pt_file_name self)
        quarantine artifact_name;
  _ ← attempt (statat (pt_parent_fd self) (pt_file_name self)) (λ r, match r with
        | Err NOENT => mret ()
        | _ => throw TrashTargetChanged
        end);
  retained ← or_err (λ _, TrashTargetChanged) (statat quarantine artifact_name);
  held ← or_err descriptor_error (fstat (target_file self));
  _ ← lift (fail_if (negb (retained_matches retained) || negb (retained_matches held))
              TrashTargetChanged);
  _ ← or_err Io (seek (target_file self) 0);
  retained_content ← read_bounded_bytes (target_file self) MAX_TRASH_FILE_BYTES;
  _ ← lift (fail_if (negb (len retained_content =? file_size (target_identity self))%N
                     || negb (bytes_eqb (sha256 retained_content) (target_sha256 self)))
              TrashTargetChanged);
  _ ← or_err descriptor_error (fsync (pt_parent_fd self));
  _ ← or_err descriptor_error (fsync quarantine);
  _ ← validate_trash_quarantine_bounds quarantine;
  mret (pt_result self).

(** What is done with an existing quarantine before authorization. *)
Definition check_existing_quarantine (self : PreparedTrashFileMutation) (quarantine : option fd)
    : fs AppError unit :=
  match quarantine with
  | Some quarantine => ensure_trash_quarantine_capacity quarantine (file_size (target_identity self))
  | None => mret ()
  end.
Definition reserve_artifact_name (quarantine : option fd) : fs AppError (option bytes) :=
  match quarantine with
  | Some quarantine => name ← allocate_trash_artifact_name quarantine; mret (Some name)
  | None => mret None
  end.

Definition execute_authorized_with_commit (self : PreparedTrashFileMutation)
    : fs AuthorizedError TrashFileResult :=
  publishing (
    existing_quarantine ← or_err Filesystem (open_existing_trash_file_quarantine (pt_parent_fd self));
    _ ← or_err Filesystem (check_existing_quarantine self existing_quarantine);
    _ ← or_err Filesystem (lock_trash_target (target_file self));
    _ ← or_err Filesystem (revalidate_target self);
    _ ← or_err (Filesystem ∘ Io) (sync_all (target_file self));
    reserved_artifact_name ← or_err Filesystem (reserve_artifact_name existing_quarantine);
    _ ← authorize (TrashFileTarget (pt_grant_target self));
    quarantine ← match existing_quarantine with
      | Some quarantine => mret quarantine
      | None => or_err Filesystem (open_trash_file_quarantine (pt_parent_fd self))
      end;
    _ ← or_err Filesystem
          (ensure_trash_quarantine_capacity quarantine (file_size (target_identity self)));
    artifact_name ← match reserved_artifact_name with
      | Some name => mret name
      | None => or_err Filesystem (allocate_trash_artifact_name quarantine)
      end;
    or_err Filesystem (execute_after_authorization self quarantine artifact_name)).
End operations.
End TrashFileMutation.

(** ** Writing a file *)

Module WriteFileMutation.
Section operations.
Context {FM : FileModes} {C : Crypto}.

Definition target_changed_error (error : Errno) : AppError :=
  if bool_decide (error = NOENT) then WriteTargetChanged else descriptor_error error.

(** The held and the named target still are the file that was prepared. *)
Definition revalidate_replacement (self : PreparedWriteFileMutation) : fs AppError FileIdentity :=
  expected_identity ← lift (ok_or (pw_existing_identity self) WriteTargetChanged);
  existing_target_fd ← lift (ok_or (existing_target_fd self) WriteTargetChanged);
  held_target ← or_err descriptor_error (fstat existing_target_fd);
  _ ← lift (fail_if (negb (write_file_existing_identity_matches held_target expected_identity))
              WriteTargetChanged);
  current_target ← or_err target_changed_error (statat (pw_parent_fd self) (pw_file_name self));
  _ ← lift (fail_if (negb (write_file_existing_identity_matches current_target expected_identity))
              WriteTargetChanged);
  mret expected_identity.

Definition revalidate_disposition (self : PreparedWriteFileMutation) : fs AppError unit :=
  match pw_disposition self with
  | WriteFile.Create => absent (pw_parent_fd self) (pw_file_name self) descriptor_error
  | WriteFile.Replace => _ ← revalidate_replacement self; mret ()
  end.

(** [self.existing_size.unwrap_or(0).max(self.content.len() as u64)]. *)
Definition required_bytes (self : PreparedWriteFileMutation) : N :=
  N.max (default 0%N (existing_size self)) (len (pw_content self)).

(** The [match self.disposition] of [execute_after_authorization]. *)
Definition commit (self : PreparedWriteFileMutation) (quarantine : fd) (artifact_name : bytes)
    : fs AppError unit :=
  match pw_disposition self with
  | WriteFile.Create =>
    _ ← absent (pw_parent_fd self) (pw_file_name self) descriptor_error;
    publish_noreplace PathAlreadyExists quarantine artifact_name (pw_parent_fd self)
      (pw_file_name self)
  | WriteFile.Replace =>
    expected_identity ← revalidate_replacement self;
    _ ← or_err target_changed_error
          (renameat_with quarantine artifact_name (pw_parent_fd self) (pw_file_name self) EXCHANGE);
    captured_metadata ← or_err (λ _, WriteTargetChanged) (statat quarantine artifact_name);
    lift (fail_if (negb (write_file_existing_object_matches captured_metadata expected_identity))
            WriteTargetChanged)
  end.

Definition execute_after_authorization (self : PreparedWriteFileMutation)
    : fs AppError WriteFileResult :=
  let size := len (pw_content self) in
  quarantine ← open_write_file_quarantine (pw_parent_fd self);
  _ ← ensure_write_quarantine_capacity quarantine (required_bytes self);
  '(artifact_name, file, staged_identity) ← create_write_artifact quarantine;
  _ ← or_err Io (write_all file (pw_content self));
  _ ← or_err Io (sync_all file);
  staged_metadata ← or_err descriptor_error (fstat file);
  _ ← lift (fail_if (negb (write_file_identity_and_contract_match staged_metadata staged_identity size))
              WriteTargetChanged);
  _ ← validate_write_quarantine_bounds quarantine;
  staged_name_metadata ← or_err (λ _, WriteTargetChanged) (statat quarantine artifact_name);
  _ ← lift (fail_if
        (negb (write_file_identity_and_contract_match staged_name_metadata staged_identity size))
        WriteTargetChanged);
  _ ← commit self quarantine artifact_name;
  published_metadata ← or_err descriptor_error (statat (pw_parent_fd self) (pw_file_name self));
  held_metadata ← or_err descriptor_error (fstat file);
  _ ← lift (fail_if
        (negb (write_file_identity_and_contract_match published_metadata staged_identity size)
         || negb (write_file_identity_and_contract_match held_metadata staged_identity size))
        WriteTargetChanged);
  _ ← or_err descriptor_error (fsync (pw_parent_fd self));
  _ ← or_err descriptor_error (fsync quarantine);
  _ ← validate_write_quarantine_bounds quarantine;
  mret (pw_result self).

Definition execute_authorized_with_commit (self : PreparedWriteFileMutation)
    : fs AuthorizedError WriteFileResult :=
  publishing (
    _ ← or_err Filesystem (preflight_write_quarantine_capacity (pw_parent_fd self) (required_bytes self));
    _ ← or_err Filesystem (revalidate_disposition self);
    _ ← authorize (WriteFileTarget (pw_grant_target self));
    or_err Filesystem (execute_after_authorization self)).
End operations.
End WriteFileMutation.
End FsMutations.
