(* ===== verification/FsTools.v ===== *)
(** * The entry points around the prepared mutations

    [src/src/tools/filesystem.rs], the methods of [FileSystemTools] that preview a
    mutation, compute the target a grant must name, prepare a mutation for the
    worker of the transport, and describe its response in advance.  Metrics and
    the discarded audit event of [write_file] are left out. *)

From S2P Require Import Prelude RustStd RustPath RequestGrantCapability AppErrors WriteFileGrant CopyFileGrant.
From S2P Require Import TrashFileGrant CreateDirectoryGrant FsCalls SafeRoots WritePolicy.
From S2P Require Import Quarantine FsPrepare FsReads FsTraverse FsMutations.

Module FsTools.
Import AppErrors SafeRoots FsPrepare FsReads FsTraverse FsMutations.

Section operations.
Context {FM : FileModes} {C : Crypto}.
Context (self : PinnedSafeRootSet).

Definition validate_write_payload (content : bytes) : Result AppError unit :=
  map_err write_policy_error_to_app_error
    (WritePolicy.validate_payload_size WritePolicy.policy_default (len content)).

(** ** Preparation for the workers *)

Definition prepare_create_directory_mutation_blocking (path : bytes)
    : fs AppError PreparedCreateDirectoryMutation :=
  anchored ← lift (anchor self path);
  prepare_create_directory anchored false.

Definition prepare_copy_file_mutation_blocking (source_path destination_path : bytes)
    : fs AppError PreparedCopyFileMutation :=
  source ← lift (anchor self source_path);
  destination ← lift (anchor self destination_path);
  prepare_copy_file source destination false.

Definition prepare_trash_file_mutation_blocking (path : bytes) : fs AppError PreparedTrashFileMutation :=
  anchored ← lift (anchor self path);
  prepare_trash_file anchored false.

Definition prepare_write_file_mutation_blocking (path content : bytes)
    : fs AppError PreparedWriteFileMutation :=
  _ ← lift (validate_write_payload content);
  anchored ← lift (anchor self path);
  prepare_write_file anchored content false.

(** ** Previews: [dry_run] defaults to true, a mutation needs a grant *)

Definition create_directory (path : bytes) (dry_run : option bool) : fs AppError CreateDirectoryResult :=
  _ ← lift (fail_if (negb (default true dry_run)) CreateDirectoryMutationAuthorizationRequired);
  anchored ← lift (anchor self path);
  prepared ← prepare_create_directory anchored true;
  mret (pc_result prepared).

Definition copy_file (source_path destination_path : bytes) (dry_run : option bool)
    : fs AppError CopyFileResult :=
  _ ← lift (fail_if (negb (default true dry_run)) CopyMutationAuthorizationRequired);
  source ← lift (anchor self source_path);
  destination ← lift (anchor self destination_path);
  prepared ← prepare_copy_file source destination true;
  mret (pcf_result prepared).

Definition trash_file (path : bytes) (dry_run : option bool) : fs AppError TrashFileResult :=
  _ ← lift (fail_if (negb (default true dry_run)) TrashMutationAuthorizationRequired);
  anchored ← lift (anchor self path);
  prepared ← prepare_trash_file anchored true;
  mret (pt_result prepared).

Definition write_file (path content : bytes) (dry_run : option bool) : fs AppError WriteFileResult :=
  _ ← lift (validate_write_payload content);
  _ ← lift (fail_if (negb (default true dry_run)) WriteMutationAuthorizationRequired);
  anchored ← lift (anchor self path);
  prepared ← prepare_write_file anchored content true;
  mret (pw_result prepared).

(** ** Targets for an offline grant issuer *)

Definition create_directory_grant_target (path : bytes)
    : fs AppError CreateDirectory.CreateDirectoryGrantTarget :=
  anchored ← lift (anchor self path);
  prepared ← prepare_create_directory anchored false;
  mret (pc_grant_target prepared).

Definition copy_file_grant_target (source_path destination_path : bytes)
    : fs AppError CopyFile.CopyFileGrantTarget :=
  source ← lift (anchor self source_path);
  destination ← lift (anchor self destination_path);
  prepared ← prepare_copy_file source destination false;
  mret (pcf_grant_target prepared).

Definition trash_file_grant_target (path : bytes) : fs AppError TrashFile.TrashFileGrantTarget :=
  anchored ← lift (anchor self path);
  prepared ← prepare_trash_file anchored false;
  mret (pt_grant_target prepared).

Definition write_file_grant_target (path content : bytes) (disposition : WriteFile.WriteFileDisposition)
    : fs AppError WriteFile.WriteFileGrantTarget :=
  _ ← lift (validate_write_payload content);
  anchored ← lift (anchor self path);
  prepared ← prepare_write_file anchored content false;
  _ ← lift (fail_if (negb (bool_decide (pw_disposition prepared = disposition))) WriteTargetChanged);
  mret (pw_grant_target prepared).

(** ** Responses described in advance *)

Definition create_directory_response_preview (path : bytes) (dry_run : bool)
    : Result AppError CreateDirectoryResult :=
  anchored ← anchor self path;
  Ok (create_directory_result anchored dry_run).

Definition copy_file_response_preview (source_path destination_path : bytes) (dry_run : bool)
    : Result AppError CopyFileResult :=
  source ← anchor self source_path;
  destination ← anchor self destination_path;
  _ ← fail_if (path_eq (display_path source) (display_path destination)) CopySourceDestinationSame;
  Ok (copy_file_result dry_run MAX_COPY_FILE_BYTES).

Definition write_file_response_preview (size_bytes : N) : WriteFileResult :=
  let result := write_file_result false size_bytes WriteFile.Replace in
  mkWriteFileResult (wf_dry_run result) (wf_size_bytes result) (wf_disposition result) false
    (wf_mode result) (wf_max_file_bytes result) (wf_max_response_bytes result).
End operations.

(** ** The entry points *)

Section entry_points.
Context {FM : FileModes} {C : Crypto} {T : Chrono} {J : JsonLength} (self : PinnedSafeRootSet).

(** What [FileSystemTools] offers that only looks. *)
Inductive reading : ∀ E A, fs E A → Prop :=
| reading_sanitize path : reading _ _ (sanitize self path)
| reading_list path depth : reading _ _ (list_directory self path depth)
| reading_read path : reading _ _ (read_file self path)
| reading_binary path : reading _ _ (read_binary_file self path)
| reading_binary_range path offset n : reading _ _ (read_binary_range self path offset n)
| reading_text_range path offset n : reading _ _ (read_text_range self path offset n)
| reading_hash path : reading _ _ (hash_file self path)
| reading_metadata path : reading _ _ (path_metadata self path)
| reading_find path query kind depth : reading _ _ (find_paths self path query kind depth)
| reading_search path query depth : reading _ _ (search_text self path query depth)
| reading_create path dry_run : reading _ _ (create_directory self path dry_run)
| reading_copy source destination dry_run : reading _ _ (copy_file self source destination dry_run)
| reading_trash path dry_run : reading _ _ (trash_file self path dry_run)
| reading_write path content dry_run : reading _ _ (write_file self path content dry_run)
| reading_create_target path : reading _ _ (create_directory_grant_target self path)
| reading_copy_target source destination : reading _ _ (copy_file_grant_target self source destination)
| reading_trash_target path : reading _ _ (trash_file_grant_target self path)
| reading_write_target path content disposition :
    reading _ _ (write_file_grant_target self path content disposition).

(** What the workers of the transport do: prepare and execute. *)
Inductive mutation : ∀ E A, fs E A → Prop :=
| mutation_create path : mutation _ _
    (prepared ← or_err Filesystem (prepare_create_directory_mutation_blocking self path);
     CreateDirectoryMutation.execute_authorized_with_commit prepared)
| mutation_copy source destination : mutation _ _
    (prepared ← or_err Filesystem (prepare_copy_file_mutation_blocking self source destination);
     CopyFileMutation.execute_authorized_with_commit prepared)
| mutation_trash path : mutation _ _
    (prepared ← or_err Filesystem (prepare_trash_file_mutation_blocking self path);
     TrashFileMutation.execute_authorized_with_commit prepared)
| mutation_write path content : mutation _ _
    (prepared ← or_err Filesystem (prepare_write_file_mutation_blocking self path content);
     WriteFileMutation.execute_authorized_with_commit prepared).
End entry_points.
End FsTools.
