(* ===== verification/FsLogic.v ===== *)
(** * The passive steps of the filesystem tools

    The steps that neither change the filesystem nor ask for authorization, as
    hints for the proofs about whole tools, and what their answers tell. *)

From S2P Require Import Prelude RustStd RustPath RequestGrantCapability AppErrors GrantTargets.
From S2P Require Import FsCalls SafeRoots Quarantine FsPrepare FsMutations.

Import AppErrors SafeRoots Quarantine FsPrepare FsMutations.

Abbreviation passive_prog p := (calls (λ c, passive c = true) p).

Section passive.
Context {FM : FileModes} {C : Crypto}.

Lemma duplicate_directory_passive d : passive_prog (duplicate_directory_descriptor d).
Proof. unfold duplicate_directory_descriptor. solve_calls. Qed.
#[local] Hint Resolve duplicate_directory_passive : calls.
Lemma duplicate_root_passive a : passive_prog (duplicate_root a).
Proof. unfold duplicate_root, duplicate_root_at. solve_calls. Qed.
Lemma quarantine_identity_passive d n : passive_prog (quarantine_identity d n).
Proof. unfold quarantine_identity. solve_calls. Qed.
#[local] Hint Resolve duplicate_root_passive quarantine_identity_passive : calls.
Lemma runtime_quarantine_identities_passive d : passive_prog (runtime_quarantine_identities d).
Proof. unfold runtime_quarantine_identities. solve_calls. Qed.
#[local] Hint Resolve runtime_quarantine_identities_passive : calls.
Lemma open_child_directory_passive d n : passive_prog (open_child_directory d n).
Proof. unfold open_child_directory. solve_calls. Qed.
#[local] Hint Resolve open_child_directory_passive : calls.
Lemma open_descendant_directory_passive d p : passive_prog (open_descendant_directory d p).
Proof.
  unfold open_descendant_directory. revert d.
  induction (components p) as [|c cs IH]; intros d; cbn [open_descendant open_metadata_parent]; solve_calls.
Qed.
Lemma open_metadata_parent_directory_passive d p : passive_prog (open_metadata_parent_directory d p).
Proof.
  unfold open_metadata_parent_directory. revert d.
  induction (components p) as [|c cs IH]; intros d; cbn [open_descendant open_metadata_parent]; solve_calls.
Qed.
#[local] Hint Resolve open_descendant_directory_passive open_metadata_parent_directory_passive : calls.
Lemma open_mutation_parent_directory_passive d p : passive_prog (open_mutation_parent_directory d p).
Proof. unfold open_mutation_parent_directory. solve_calls. Qed.
Lemma open_metadata_descriptor_passive d p : passive_prog (open_metadata_descriptor d p).
Proof. unfold open_metadata_descriptor. solve_calls. Qed.
#[local] Hint Resolve open_mutation_parent_directory_passive open_metadata_descriptor_passive : calls.

Lemma lock_retry_passive fuel q e : passive_prog (lock_quarantine_with_bounded_retry fuel q e).
Proof. revert e; induction fuel as [|fuel IH]; intros e; cbn [lock_quarantine_with_bounded_retry]; solve_calls. Qed.
#[local] Hint Resolve lock_retry_passive : calls.
Lemma lock_write_quarantine_passive q : passive_prog (lock_write_quarantine q).
Proof. unfold lock_write_quarantine. solve_calls. Qed.
Lemma lock_trash_quarantine_passive q : passive_prog (lock_trash_quarantine q).
Proof. unfold lock_trash_quarantine. solve_calls. Qed.
Lemma lock_trash_target_passive f : passive_prog (lock_trash_target f).
Proof. unfold lock_trash_target. solve_calls. Qed.
#[local] Hint Resolve lock_write_quarantine_passive lock_trash_quarantine_passive
  lock_trash_target_passive : calls.

Lemma count_artifacts_passive can max err q entries n b :
  passive_prog (count_artifacts can max err q entries n b).
Proof. revert n b; induction entries as [|e entries IH]; intros n b; cbn [count_artifacts]; solve_calls. Qed.
#[local] Hint Resolve count_artifacts_passive : calls.
Lemma ensure_write_capacity_passive q n : passive_prog (ensure_write_quarantine_capacity q n).
Proof. unfold ensure_write_quarantine_capacity, write_quarantine_usage. solve_calls. Qed.
Lemma ensure_trash_capacity_passive q n : passive_prog (ensure_trash_quarantine_capacity q n).
Proof. unfold ensure_trash_quarantine_capacity, trash_quarantine_usage. solve_calls. Qed.
Lemma validate_write_bounds_passive q : passive_prog (validate_write_quarantine_bounds q).
Proof. unfold validate_write_quarantine_bounds, write_quarantine_usage. solve_calls. Qed.
Lemma validate_trash_bounds_passive q : passive_prog (validate_trash_quarantine_bounds q).
Proof. unfold validate_trash_quarantine_bounds, trash_quarantine_usage. solve_calls. Qed.
#[local] Hint Resolve ensure_write_capacity_passive ensure_trash_capacity_passive
  validate_write_bounds_passive validate_trash_bounds_passive : calls.
Lemma open_existing_trash_passive d : passive_prog (open_existing_trash_file_quarantine d).
Proof. unfold open_existing_trash_file_quarantine. solve_calls. Qed.
Lemma preflight_passive d n : passive_prog (preflight_write_quarantine_capacity d n).
Proof. unfold preflight_write_quarantine_capacity. solve_calls. Qed.
Lemma allocate_trash_name_passive q : passive_prog (allocate_trash_artifact_name q).
Proof.
  unfold allocate_trash_artifact_name. induction ARTIFACT_ATTEMPTS as [|n IH]; cbn [allocate_trash_artifact_name_loop]; solve_calls.
Qed.
Lemma sync_created_passive b q p : passive_prog (sync_created b q p).
Proof. unfold sync_created. solve_calls. Qed.
Lemma read_bounded_passive f n : passive_prog (read_bounded_bytes f n).
Proof. unfold read_bounded_bytes, read_to_end_take. solve_calls. Qed.
Lemma absent_passive d n f : passive_prog (absent d n f).
Proof. unfold absent. solve_calls. Qed.
Lemma acquire_passive : passive_prog acquire_filesystem_publication_lock.
Proof. unfold acquire_filesystem_publication_lock. solve_calls. Qed.
#[local] Hint Resolve open_existing_trash_passive preflight_passive allocate_trash_name_passive
  sync_created_passive read_bounded_passive absent_passive acquire_passive : calls.

Lemma revalidate_source_passive m : passive_prog (CopyFileMutation.revalidate_source m).
Proof. unfold CopyFileMutation.revalidate_source. solve_calls. Qed.
Lemma revalidate_destination_passive m : passive_prog (CopyFileMutation.revalidate_absent_destination m).
Proof. unfold CopyFileMutation.revalidate_absent_destination. solve_calls. Qed.
Lemma revalidate_target_passive m : passive_prog (TrashFileMutation.revalidate_target m).
Proof. unfold TrashFileMutation.revalidate_target. solve_calls. Qed.
Lemma check_existing_passive m q : passive_prog (TrashFileMutation.check_existing_quarantine m q).
Proof. unfold TrashFileMutation.check_existing_quarantine. solve_calls. Qed.
Lemma reserve_name_passive q : passive_prog (TrashFileMutation.reserve_artifact_name q).
Proof. unfold TrashFileMutation.reserve_artifact_name. solve_calls. Qed.
Lemma revalidate_replacement_passive m : passive_prog (WriteFileMutation.revalidate_replacement m).
Proof. unfold WriteFileMutation.revalidate_replacement. solve_calls. Qed.
#[local] Hint Resolve revalidate_source_passive revalidate_destination_passive
  revalidate_target_passive check_existing_passive reserve_name_passive
  revalidate_replacement_passive : calls.
Lemma revalidate_disposition_passive m : passive_prog (WriteFileMutation.revalidate_disposition m).
Proof. unfold WriteFileMutation.revalidate_disposition. solve_calls. Qed.
#[local] Hint Resolve revalidate_disposition_passive : calls.

(** Preparation only reads. *)
Lemma prepare_create_passive a b : passive_prog (prepare_create_directory a b).
Proof. unfold prepare_create_directory. solve_calls. Qed.
Lemma write_disposition_passive d n : passive_prog (write_disposition d n).
Proof. unfold write_disposition. solve_calls. Qed.
#[local] Hint Resolve write_disposition_passive : calls.
Lemma prepare_write_passive a c b : passive_prog (prepare_write_file a c b).
Proof. unfold prepare_write_file. solve_calls. Qed.
Lemma prepare_copy_source_passive a : passive_prog (prepare_copy_source a).
Proof. unfold prepare_copy_source. solve_calls. Qed.
#[local] Hint Resolve prepare_copy_source_passive : calls.
Lemma prepare_copy_passive a a' b : passive_prog (prepare_copy_file a a' b).
Proof. unfold prepare_copy_file. solve_calls. Qed.
Lemma prepare_trash_passive a b : passive_prog (prepare_trash_file a b).
Proof. unfold prepare_trash_file. solve_calls. Qed.
End passive.

#[export] Hint Resolve duplicate_directory_passive duplicate_root_passive
  runtime_quarantine_identities_passive open_child_directory_passive
  open_descendant_directory_passive open_metadata_parent_directory_passive
  open_mutation_parent_directory_passive open_metadata_descriptor_passive lock_retry_passive
  lock_write_quarantine_passive lock_trash_quarantine_passive lock_trash_target_passive
  ensure_write_capacity_passive ensure_trash_capacity_passive validate_write_bounds_passive
  validate_trash_bounds_passive open_existing_trash_passive preflight_passive
  allocate_trash_name_passive sync_created_passive read_bounded_passive absent_passive
  acquire_passive revalidate_source_passive revalidate_destination_passive
  revalidate_target_passive check_existing_passive reserve_name_passive
  revalidate_replacement_passive revalidate_disposition_passive prepare_create_passive
  prepare_write_passive prepare_copy_passive prepare_trash_passive : calls.
