(* ===== verification/FsGate.v ===== *)
(** * The gate every filesystem mutation passes

    What a mutation may do after what, as a policy over calls and histories: no
    call changes the filesystem before the transport authorized exactly the
    prepared target, it is asked once, and the guards remove only what this run
    created.  The rules that move a proof over the common steps, and
    the staging of a file that copying and writing share. *)

From S2P Require Import Prelude RustStd AppErrors RequestGrantCapability FsCalls SafeRoots Quarantine FsPrepare.
From S2P Require Import FsMutations FsLogic.

Import AppErrors SafeRoots Quarantine FsPrepare FsMutations.

Definition is_passive (e : event) : Prop := passive (ev_call e) = true.

(** The publication lock was taken. *)
Definition locked (h : history) : Prop := Ev TryLock Acquired ∈ h ∨ Ev LockPublication true ∈ h.

(** [ready] is what was established before asking, [steps] says which changes are
    allowed once authorized. *)
Definition gate (target : MutationTarget) (ready : history → Prop) (steps : call → history → Prop)
    (c : call) (h : history) : Prop :=
  match c with
  | Authorize t => t = target ∧ Forall is_passive h ∧ locked h ∧ ready h
  | _ => mutating c = true → Ev (Authorize target) (Ok ()) ∈ h ∧ steps c h
  end.

Definition later (h h' : history) : Prop := ∃ t, h' = t ++ h.

Lemma later_refl h : later h h.
Proof. by exists []. Qed.
Lemma later_cons h h' e : later h h' → later h (e :: h').
Proof. intros [t ->]. by exists (e :: t). Qed.
Lemma later_trans h1 h2 h3 : later h1 h2 → later h2 h3 → later h1 h3.
Proof. intros [t ->] [t' ->]. exists (t' ++ t). by rewrite app_assoc. Qed.
Lemma later_elem h h' e : later h h' → e ∈ h → e ∈ h'.
Proof. intros [t ->] He. apply elem_of_app. by right. Qed.
Lemma extends_later h h' : extends h h' → later h h'.
Proof. intros (t & -> & _). by exists t. Qed.

Lemma passive_gate target ready steps c h : passive c = true → gate target ready steps c h.
Proof. unfold passive, gate. destruct c; simpl; try done. by destruct (bool_decide _). Qed.

(** A call is allowed once authorized if its step is. *)
Lemma gate_step target ready steps c h :
  Ev (Authorize target) (Ok ()) ∈ h → authorizing c = false → (mutating c = true → steps c h) →
  gate target ready steps c h.
Proof. intros Ha Hc Hs. unfold gate. destruct c; try done; intros Hm; by split; [|apply Hs]. Qed.

(** Nothing changes before the authorization, which happens at most once and
    names the prepared target. *)
Lemma gate_no_mutation target ready steps h :
  obeys (gate target ready steps) h → Ev (Authorize target) (Ok ()) ∉ h →
  Forall (λ e, mutating (ev_call e) = false) h.
Proof.
  induction h as [|[c r] h IH]; simpl; [constructor|]. intros [Hc Ho] Hn.
  apply not_elem_of_cons in Hn as [_ Hn]. constructor; [|by apply IH]. simpl.
  destruct (mutating c) eqn:E; [|done]. exfalso. destruct c; try done; by apply Hc in E as [? _].
Qed.

Lemma gate_once target ready steps h1 t r h2 :
  obeys (gate target ready steps) (h1 ++ Ev (Authorize t) r :: h2) →
  t = target ∧ Forall is_passive h2 ∧ Forall (λ e, authorizing (ev_call e) = false) h1.
Proof.
  induction h1 as [|[c r'] h1 IH]; simpl; [by intros [(-> & ? & _) _]|]. intros [Hc Ho].
  destruct (IH Ho) as (-> & Hp & Hn). split_and!; [done..|]. constructor; [|done]. simpl.
  destruct (authorizing c) eqn:E; [|done]. destruct c; try done. destruct Hc as (_ & Hall & _).
  apply Forall_app in Hall as [_ Hall]. by apply Forall_cons in Hall as [? _].
Qed.

(** ** Rules *)

(** A postcondition about results: nothing is asked of an error. *)
Definition on_ok {E A} (P : A → history → Prop) (r : Result E A) (h : history) : Prop :=
  match r with Ok a => P a h | Err _ => True end.

Section rules.
Context (S : call → history → Prop) (Hpassive : ∀ c h, passive c = true → S c h).

Definition drops (drop : prog unit) (h : history) : Prop :=
  ∀ h', later h h' → safe S drop h' (λ _ _, True).

Lemma drops_later drop h h' : drops drop h → later h h' → drops drop h'.
Proof. intros Hd Hl h'' Hl'. apply Hd. by eapply later_trans. Qed.

Lemma safe_reads {A} (p : prog A) h (Q : A → history → Prop) :
  calls (λ c, passive c = true) p → (∀ a h', extends h h' → Q a h') → safe S p h Q.
Proof. intros Hp HQ. eapply safe_mono; [apply safe_passive; eauto|]. eauto. Qed.

Context {E A B : Type} (P : B → history → Prop).

Lemma step_reads (p : fs E A) (f : A → fs E B) h :
  calls (λ c, passive c = true) p →
  (∀ a h', extends h h' → safe S (f a) h' (on_ok P)) → safe S (p ≫= f) h (on_ok P).
Proof. intros Hp Ha. apply safe_bind, safe_reads; [done|]. intros [] h' Hh; [by apply Ha|done]. Qed.

Lemma step_reads_guarded drop (p : fs E A) (f : A → fs E B) h :
  calls (λ c, passive c = true) p → drops drop h →
  (∀ a h', extends h h' → safe S (f a) h' (on_ok P)) →
  safe S (guarded drop p ≫= f) h (on_ok P).
Proof.
  intros Hp Hd Ha. apply safe_bind. apply safe_prog_bind, safe_reads; [done|].
  intros [a|e] h' Hh; [by apply Ha|]. apply safe_prog_bind. eapply safe_mono; [|done].
  by apply Hd, extends_later.
Qed.

(** One fallible call. *)
Lemma step_call {E'} (g : E' → E) c (k : answer c → Result E' A) (f : A → fs E B) h :
  S c h →
  (∀ r a, k r = Ok a → safe S (f a) (Ev c r :: h) (on_ok P)) →
  safe S (or_err g (Do c (λ r, Ret (k r))) ≫= f) h (on_ok P).
Proof.
  intros Hc Hf. apply safe_bind, safe_or_err. split; [done|]. intros r. simpl.
  destruct (k r) as [a|e] eqn:Er; simpl; eauto.
Qed.

Lemma step_call_guarded {E'} drop (g : E' → E) c (k : answer c → Result E' A) (f : A → fs E B) h :
  S c h → drops drop h →
  (∀ r a, k r = Ok a → safe S (f a) (Ev c r :: h) (on_ok P)) →
  safe S (guarded drop (or_err g (Do c (λ r, Ret (k r)))) ≫= f) h (on_ok P).
Proof.
  intros Hc Hd Hf. apply safe_bind, safe_attempt, safe_or_err. split; [done|]. intros r. simpl.
  destruct (k r) as [a|e] eqn:Er; simpl; [eauto|]. apply safe_prog_bind.
  eapply safe_mono; [|done]. apply Hd, later_cons, later_refl.
Qed.

(** A check. *)
Lemma step_check (b : bool) (e : E) (f : unit → fs E B) h :
  (b = false → safe S (f ()) h (on_ok P)) → safe S (lift (fail_if b e) ≫= f) h (on_ok P).
Proof. intros Hf. apply safe_bind, safe_lift. destruct b; simpl; [done|by apply Hf]. Qed.

Lemma step_check_guarded drop (b : bool) (e : E) (f : unit → fs E B) h :
  drops drop h → (b = false → safe S (f ()) h (on_ok P)) →
  safe S (guarded drop (lift (fail_if b e)) ≫= f) h (on_ok P).
Proof.
  intros Hd Hf. apply safe_bind, safe_attempt, safe_lift. destruct b; simpl; [|by apply Hf].
  apply safe_prog_bind. eapply safe_mono; [|done]. apply Hd, later_refl.
Qed.

(** A computation that makes no call. *)
Lemma step_lift (r : Result E A) (f : A → fs E B) h :
  (∀ a, r = Ok a → safe S (f a) h (on_ok P)) → safe S (lift r ≫= f) h (on_ok P).
Proof. intros Hf. apply safe_bind, safe_lift. destruct r; simpl; [by apply Hf|done]. Qed.

(** A step with a specification of its own. *)
Lemma safe_later {X} (p : prog X) h (Q : X → history → Prop) :
  safe S p h Q → safe S p h (λ a h', later h h' ∧ Q a h').
Proof.
  intros H. assert (∀ h0, later h0 h → safe S p h (λ a h', later h0 h' ∧ Q a h')) as Hg;
    [|by apply Hg, later_refl].
  revert h H. induction p as [a|c k IH]; intros h H h0 Hl; simpl in *; [done|].
  destruct H as [Hc Hk]. split; [done|]. intros r. apply IH; [done|]. by apply later_cons.
Qed.

Lemma step_spec (R : A → history → Prop) (p : fs E A) (f : A → fs E B) h :
  safe S p h (on_ok R) →
  (∀ a h', later h h' → R a h' → safe S (f a) h' (on_ok P)) → safe S (p ≫= f) h (on_ok P).
Proof.
  intros Hp Hf. apply safe_bind. eapply safe_mono; [by apply safe_later|].
  intros [a|e] h' [Hl HR]; [by apply Hf|done].
Qed.

Lemma step_spec_guarded (R : A → history → Prop) drop (p : fs E A) (f : A → fs E B) h :
  safe S p h (on_ok R) → drops drop h →
  (∀ a h', later h h' → R a h' → safe S (f a) h' (on_ok P)) →
  safe S (guarded drop p ≫= f) h (on_ok P).
Proof.
  intros Hp Hd Hf. apply safe_bind, safe_attempt. eapply safe_mono; [by apply safe_later|].
  intros [a|e] h' [Hl HR]; [by apply Hf|]. apply safe_prog_bind. eapply safe_mono; [|done]. by apply Hd.
Qed.

(** A renamed error, at the end of a program. *)
Lemma safe_or_err_ok {E'} (g : E' → E) (p : fs E' B) h :
  safe S p h (on_ok P) → safe S (or_err g p) h (on_ok P).
Proof. intros Hp. apply safe_or_err. eapply safe_mono; [done|]. by intros []. Qed.
End rules.

(** ** The guards *)

(** An object may be removed when the kernel just said it is the one [own] talks
    about. *)
Definition removes (kind : Stat → bool) (own : history → N * N → Prop) (h : history) (d : fd)
    (n : bytes) : Prop :=
  ∃ st h0, h = Ev (Statat d n) (Ok st) :: h0 ∧ kind st = true ∧ own h0 (stat_id st).

Section guards.
Context {FM : FileModes} (S : call → history → Prop) (Hpassive : ∀ c h, passive c = true → S c h).
Context (own : history → N * N → Prop) (Hown : ∀ h h' id, own h id → later h h' → own h' id).

Lemma same_id_true a b : same_id a b = true ↔ a = b.
Proof.
  destruct a, b. unfold same_id. simpl. rewrite andb_true_iff, !N.eqb_eq. naive_solver.
Qed.

Lemma drop_directory_drops parent name id h :
  own h id →
  (∀ h', later h h' → removes is_dir own h' parent name → S (Unlinkat parent name true) h') →
  drops S (drop_directory (mkDirectoryCleanup parent name (Some id))) h.
Proof.
  intros Ho Hu h' Hl. unfold drop_directory. simpl. split; [by apply Hpassive|]. intros [st|]; [|done].
  destruct (negb (is_dir st) || negb (same_id (stat_id st) id)) eqn:E; [done|].
  reflect_guards. match goal with H : same_id _ _ = true |- _ => apply same_id_true in H end.
  split.
  - apply Hu; [by apply later_cons|]. exists st, h'. split_and!; [done..|].
    match goal with H : stat_id _ = _ |- _ => rewrite H end. by eapply Hown.
  - intros [[]|]; [|done]. split; [by apply Hpassive|done].
Qed.

Lemma drop_copied_file_drops staging publication pub name id h :
  own h id →
  (∀ h', later h h' → removes is_file own h' (if pub : bool then publication else staging) name →
     S (Unlinkat (if pub then publication else staging) name false) h') →
  drops S (drop_copied_file (mkFileCleanup staging publication pub name (Some id))) h.
Proof.
  intros Ho Hu h' Hl. unfold drop_copied_file. simpl. split; [by apply Hpassive|]. intros [st|]; [|done].
  destruct (negb (is_file st) || negb (same_id (stat_id st) id)) eqn:E; [done|].
  reflect_guards. match goal with H : same_id _ _ = true |- _ => apply same_id_true in H end.
  split.
  - apply Hu; [by apply later_cons|]. exists st, h'. split_and!; [done..|].
    match goal with H : stat_id _ = _ |- _ => rewrite H end. by eapply Hown.
  - intros [[]|]; [|done]. split; [by apply Hpassive|done].
Qed.
End guards.

Lemma drops_nothing S h : drops S (Ret ()) h.
Proof. by intros h' _. Qed.

(** ** The publication lock *)

Lemma acquire_safe S h :
  (∀ c h, passive c = true → S c h) →
  safe S acquire_filesystem_publication_lock h (on_ok (λ _ h', extends h h' ∧ locked h')).
Proof.
  intros Hp. split; [by apply Hp|]. intros [| |]; [|done|].
  - split; [apply extends_cons; [apply extends_refl|done]|left; apply list_elem_of_here].
  - split; [by apply Hp|]. intros []. split; [by apply Hp|]. intros [|]; [|done].
    split; [|right; apply list_elem_of_here].
    do 3 (apply extends_cons; [|done]). apply extends_refl.
Qed.

Lemma locked_later h h' : locked h → later h h' → locked h'.
Proof. intros [H|H] Hl; [left|right]; by eapply later_elem. Qed.

Lemma safe_publishing {A} S (body : fs AuthorizedError A) (P : A → history → Prop) h :
  (∀ c h, passive c = true → S c h) →
  (∀ h', extends h h' → locked h' →
     safe S body h' (on_ok (λ a h'', P a (Ev UnlockPublication () :: h'')))) →
  safe S (publishing body) h (on_ok P).
Proof.
  intros Hp Hb. unfold publishing.
  eapply step_spec; [by apply safe_or_err_ok, acquire_safe|]. intros [] h' _ [Hh Hlock].
  apply safe_bracket. eapply safe_mono; [by apply Hb|]. intros r h'' Hr. simpl.
  split; [by apply Hp|]. intros []. by destruct r.
Qed.

Lemma extends_passive h : extends [] h → Forall is_passive h.
Proof. intros (t & -> & Ht). by rewrite app_nil_r. Qed.

(** The authorization, between what was prepared and what follows. *)
Lemma step_authorize {B} target ready steps (P : B → history → Prop) f h :
  extends [] h → locked h → ready h →
  (safe (gate target ready steps) (f ()) (Ev (Authorize target) (Ok ()) :: h) (on_ok P)) →
  safe (gate target ready steps) (authorize target ≫= f) h (on_ok P).
Proof.
  intros He Hl Hr Hf. apply safe_bind. split; [split_and!; [done|by apply extends_passive|done..]|].
  by intros [[]|].
Qed.

(** A bounded read. *)
Lemma read_bounded_safe S file max h :
  (∀ c h, passive c = true → S c h) →
  safe S (read_bounded_bytes file max) h
    (on_ok (λ b h', ∃ answer,
       h' = Ev (ReadToEnd file) (Ok answer) :: h ∧ b = take_bytes (max + 1) answer ∧ (len b ≤ max)%N)).
Proof.
  intros Hp. unfold read_bounded_bytes, read_to_end_take. apply step_lift. intros limit Hl.
  apply ok_or_Ok, checked_add64_Some in Hl as [-> _].
  apply (step_call S _ _ (ReadToEnd file)); [by apply Hp|].
  intros [answer|] b; simpl; [|done]. intros [= <-].
  apply step_check. intros Hle. reflect_guards. apply safe_mret.
  by exists answer.
Qed.

(** A name seen to be free. *)
Lemma absent_safe S parent name other h :
  (∀ c h, passive c = true → S c h) →
  safe S (absent parent name other) h
    (on_ok (λ _ h', extends h h' ∧ Ev (Statat parent name) (Err NOENT) ∈ h')).
Proof.
  intros Hp. split; [by apply Hp|]. intros [st|[]]; try done. split; [|apply list_elem_of_here].
  apply extends_cons; [apply extends_refl|done].
Qed.

(** Membership in a history that only grew, and that it did. *)
Ltac in_history :=
  first
    [ eassumption
    | apply list_elem_of_here
    | apply list_elem_of_further; in_history
    | match goal with
      | H : extends ?h ?h' |- _ ∈ ?h' => apply (extends_elem h h' _ H); in_history
      | H : later ?h ?h' |- _ ∈ ?h' => apply (later_elem h h' _ H); in_history
      end ].
Ltac is_later :=
  first
    [ assumption
    | apply later_refl
    | apply later_cons; is_later
    | match goal with
      | H : extends ?h ?h' |- later _ ?h' => apply (later_trans _ h h'); [is_later|by apply extends_later]
      | H : later ?h ?h' |- later _ ?h' => apply (later_trans _ h h'); [is_later|done]
      end ].
Ltac is_extended :=
  first
    [ assumption
    | apply extends_refl
    | apply extends_cons; [is_extended|reflexivity]
    | match goal with
      | H : extends ?h ?h' |- extends _ ?h' => apply (extends_trans _ h h'); [is_extended|exact H]
      end ].

(** * Staging a file in the write quarantine

    What copying and writing share: the quarantine is opened or made, a fresh
    artifact is created in it, and a failed creation removes only what it made. *)

Module FsStaging.
Import AppErrors SafeRoots Quarantine FsPrepare FsMutations.

Section staging.
Context {FM : FileModes} {C : Crypto}.

(** [quarantine] is the directory opened under the quarantine's name. *)
Definition quarantine_of (name : bytes) (parent quarantine : fd) (h : history) : Prop :=
  Ev (Openat parent name OPEN_DIRECTORY 0) (Ok quarantine) ∈ h.

(** [file] was created in [quarantine] as [name], exclusively, with that identity. *)
Definition staged_file (quarantine : fd) (name : bytes) (file : fd) (id : N * N) (h : history) : Prop :=
  Ev (Openat quarantine name CREATE_ARTIFACT WRITE_FILE_MODE) (Ok file) ∈ h ∧
  ∃ st, Ev (Fstat file) (Ok st) ∈ h ∧ stat_id st = id.
Definition made_file (h : history) (id : N * N) : Prop :=
  ∃ quarantine name file, staged_file quarantine name file id h.

(** The changes of staging [content] beside [parent]. *)
Definition staging_step (parent : fd) (content : bytes) (c : call) (h : history) : Prop :=
  match c with
  | Mkdirat d n mode => d = parent ∧ n = WRITE_FILE_QUARANTINE_DIRECTORY ∧ mode = CREATE_DIRECTORY_MODE
  | Openat q n flags mode =>
      flags = CREATE_ARTIFACT ∧ mode = WRITE_FILE_MODE ∧
      quarantine_of WRITE_FILE_QUARANTINE_DIRECTORY parent q h
  | WriteAll file data => data = content ∧ ∃ q n id, staged_file q n file id h
  | Unlinkat d n removedir => removedir = false ∧ removes is_file made_file h d n
  | _ => False
  end.

Lemma staged_file_later q n f id h h' : staged_file q n f id h → later h h' → staged_file q n f id h'.
Proof.
  intros (? & st & ? & ?) Hl. split; [in_history|]. exists st. split; [in_history|done].
Qed.
Lemma made_file_later h h' id : made_file h id → later h h' → made_file h' id.
Proof. intros (q & n & f & ?) Hl. exists q, n, f. by eapply staged_file_later. Qed.

Section specs.
Context (S : call → history → Prop) (Hp : ∀ c h, passive c = true → S c h).
Context (parent : fd) (content : bytes) (h : history).
Context (Hstage : ∀ c h', later h h' → authorizing c = false → staging_step parent content c h' → S c h').

Lemma open_write_file_quarantine_safe :
  safe S (open_write_file_quarantine parent) h
    (on_ok (λ q h', quarantine_of WRITE_FILE_QUARANTINE_DIRECTORY parent q h')).
Proof.
  unfold open_write_file_quarantine. apply safe_bind, safe_attempt.
  split; [by apply Hstage; [apply later_refl|..]|]. intros r.
  assert (∀ created h', later h h' → safe S
    (quarantine ← or_err (λ _, WriteTargetChanged)
       (openat parent WRITE_FILE_QUARANTINE_DIRECTORY OPEN_DIRECTORY 0);
     held ← or_err descriptor_error (fstat quarantine);
     named ← or_err (λ _, WriteTargetChanged) (statat parent WRITE_FILE_QUARANTINE_DIRECTORY);
     _ ← lift (fail_if (negb (is_dir held) || negb (is_dir named)
                        || negb (same_id (stat_id held) (stat_id named))
                        || negb (permissions held =? 448)%N || negb (permissions named =? 448)%N)
                 WriteTargetChanged);
     _ ← lock_write_quarantine quarantine;
     _ ← sync_created created quarantine parent;
     mret quarantine) h'
    (on_ok (λ q h', quarantine_of WRITE_FILE_QUARANTINE_DIRECTORY parent q h'))) as Hrest.
  { intros created h' _.
    apply (step_call S _ _ (Openat parent _ OPEN_DIRECTORY 0)); [by apply Hp|]. intros ? q ->.
    apply (step_call S _ _ (Fstat q)); [by apply Hp|]. intros ? held ->.
    apply (step_call S _ _ (Statat parent _)); [by apply Hp|]. intros ? named ->.
    apply step_check. intros _.
    apply step_reads; [done|auto with calls|]. intros [] h1 Hh1.
    apply step_reads; [done|auto with calls|]. intros [] h2 Hh2.
    apply safe_mret. cbv beta iota delta [on_ok quarantine_of]. in_history. }
  destruct r as [[]|[]]; try done; apply Hrest; is_later.
Qed.

Lemma staged_drops q n f id h' :
  staged_file q n f id h' → later h h' →
  ∀ staging publication (pub : bool) name,
    drops S (drop_copied_file (mkFileCleanup staging publication pub name (Some id))) h'.
Proof.
  intros Hs Hl staging publication pub name.
  eapply drop_copied_file_drops; [done|apply made_file_later|by exists q, n, f|].
  intros h'' Hl' Hr. apply Hstage; [is_later|done|]. by split.
Qed.

Lemma create_write_artifact_safe q :
  quarantine_of WRITE_FILE_QUARANTINE_DIRECTORY parent q h →
  safe S (create_write_artifact q) h (on_ok (λ r h', staged_file q (fst (fst r)) (snd (fst r)) (snd r) h')).
Proof.
  intros Hq. unfold create_write_artifact.
  assert (∀ n h0, later h h0 → safe S (create_write_artifact_loop n q) h0
            (on_ok (λ r h', staged_file q (fst (fst r)) (snd (fst r)) (snd r) h'))) as H;
    [|apply H, later_refl].
  intros n. induction n as [|n IH]; intros h0 Hl; [done|]. cbn [create_write_artifact_loop].
  apply safe_bind, safe_total. split; [by apply Hp|]. intros uuid.
  set (name := WRITE_FILE_ARTIFACT_PREFIX ++ uuid_to_string uuid).
  apply safe_attempt. split.
  { apply Hstage; [is_later|done|]. split_and!; [done..|]. unfold quarantine_of in *. in_history. }
  intros [file|[]]; try done; [|apply IH; is_later].
  unfold verify_write_artifact.
  apply (step_call S _ _ (Fstat file)); [by apply Hp|]. intros ? held ->.
  set (h1 := Ev (Fstat file) (Ok held) :: _).
  assert (staged_file q name file (stat_id held) h1) as Hs.
  { split; [in_history|]. exists held. split; [in_history|done]. }
  assert (later h h1) as Hl1 by (subst h1; is_later).
  apply (step_call_guarded S _ _ _ (Statat q name)); [by apply Hp|by eapply staged_drops|].
  intros ? named ->.
  apply step_check_guarded.
  { eapply drops_later; [by eapply staged_drops|is_later]. }
  intros _. apply safe_mret. eapply staged_file_later; [exact Hs|is_later].
Qed.
End specs.
End staging.
End FsStaging.
