(* ===== verification/FsExample.v ===== *)
(** * A kernel to run the filesystem tools on

    A small in-memory filesystem that answers the calls of [FsCalls], for the
    worked examples of the development.  It is one kernel among all those the
    theorems quantify over. *)

From S2P Require Import Prelude RustStd RustPath RequestGrantCapability AppErrors GrantToken.
From S2P Require Import FsCalls SafeRoots Quarantine FsPrepare FsMutations.

#[export] Instance example_file_modes : FileModes := λ mode,
  let kind := N.land mode 61440 in
  if (kind =? 32768)%N then RegularFile
  else if (kind =? 16384)%N then Directory
  else if (kind =? 40960)%N then Symlink
  else OtherFileType.

Module FsExample.
Import AppErrors SafeRoots Quarantine FsPrepare FsMutations.

Record Node := mkNode { n_mode : N; n_links : N; n_content : bytes; n_entries : list (bytes * N) }.
Record World := mkWorld {
  nodes : list (N * Node);
  (** Descriptor, inode and position. *)
  fds : list (N * (N * N));
  fresh : N;
  allowed : bool;
}.

Definition assoc {A} (k : N) (l : list (N * A)) : option A :=
  find_map (λ '(k', a), if (k =? k')%N then Some a else None) l.
Definition entry (name : bytes) (l : list (bytes * N)) : option N :=
  find_map (λ '(k', a), if bytes_eqb name k' then Some a else None) l.
Definition without (name : bytes) (l : list (bytes * N)) : list (bytes * N) :=
  List.filter (λ '(k', _), negb (bytes_eqb name k')) l.

Definition set_node (i : N) (n : Node) (w : World) : World :=
  mkWorld ((i, n) :: nodes w) (fds w) (fresh w) (allowed w).
Definition set_entries (i : N) (f : list (bytes * N) → list (bytes * N)) (w : World) : World :=
  match assoc i (nodes w) with
  | Some n => set_node i (mkNode (n_mode n) (n_links n) (n_content n) (f (n_entries n))) w
  | None => w
  end.
Definition next (w : World) : World := mkWorld (nodes w) (fds w) (fresh w + 1) (allowed w).
Definition set_fd (d i pos : N) (w : World) : World :=
  mkWorld (nodes w) ((d, (i, pos)) :: fds w) (fresh w) (allowed w).

Definition inode_of (w : World) (d : fd) : option N := fst <$> assoc d (fds w).
Definition node_of (w : World) (d : fd) : option (N * Node) :=
  i ← inode_of w d; n ← assoc i (nodes w); Some (i, n).
Definition child (w : World) (d : fd) (name : bytes) : option (N * Node) :=
  '(i, n) ← node_of w d;
  if bytes_eqb name (bs ".") then Some (i, n)
  else j ← entry name (n_entries n); n ← assoc j (nodes w); Some (j, n).

Definition stat_of (i : N) (n : Node) : Stat :=
  mkStat (n_mode n) 7 i (n_links n) (Z.of_nat (length (n_content n))) 1000 0 1000.
Definition enoent {A} (o : option A) : Result Errno A := ok_or o NOENT.
Definition eio : IoError := RawOs (OtherErrno 5).

Definition open_fd (w : World) (i : N) : World * Result Errno fd :=
  (set_fd (fresh w) i 0 (next w), Ok (fresh w)).

Definition openat_world (w : World) (d : fd) (name : bytes) (flags : list OFlag) (mode : N)
    : World * Result Errno fd :=
  match child w d name with
  | Some (i, n) =>
    if bool_decide (CREATE ∈ flags) then (w, Err EXIST)
    else if bool_decide (DIRECTORY ∈ flags) && negb (bool_decide (from_raw_mode (n_mode n) = Directory))
    then (w, Err (OtherErrno 20))
    else if bool_decide (from_raw_mode (n_mode n) = Symlink) && negb (bool_decide (PATH ∈ flags))
    then (w, Err LOOP)
    else open_fd w i
  | None =>
    if bool_decide (CREATE ∈ flags) then
      match inode_of w d with
      | Some p =>
        let i := fresh w in
        let w := set_node i (mkNode (32768 + mode) 1 [] []) (next w) in
        open_fd (set_entries p (cons (name, i)) w) i
      | None => (w, Err NOENT)
      end
    else (w, Err NOENT)
  end.

Definition mkdirat_world (w : World) (d : fd) (name : bytes) (mode : N) : World * Result Errno unit :=
  match child w d name, inode_of w d with
  | None, Some p =>
    let i := fresh w in
    let w := set_node i (mkNode (16384 + mode) 2 [] []) (next w) in
    (set_entries p (cons (name, i)) w, Ok ())
  | Some _, _ => (w, Err EXIST)
  | _, None => (w, Err NOENT)
  end.

Definition rename_world (w : World) (d : fd) (n : bytes) (d' : fd) (n' : bytes) (flags : RenameFlags)
    : World * Result Errno unit :=
  match child w d n, child w d' n', inode_of w d, inode_of w d' with
  | Some (i, _), None, Some p, Some p' =>
    match flags with
    | NOREPLACE => (set_entries p' (cons (n', i)) (set_entries p (without n) w), Ok ())
    | EXCHANGE => (w, Err NOENT)
    end
  | Some (i, _), Some (j, _), Some p, Some p' =>
    match flags with
    | NOREPLACE => (w, Err EXIST)
    | EXCHANGE =>
      (set_entries p' (λ l, (n', i) :: without n' l) (set_entries p (λ l, (n, j) :: without n l) w), Ok ())
    end
  | _, _, _, _ => (w, Err NOENT)
  end.

Definition resolve_path (w : World) (path : bytes) : option (N * Node) :=
  foldl (λ o name, '(i, n) ← o; j ← entry name (n_entries n); n ← assoc j (nodes w); Some (j, n))
    (n ← assoc 1 (nodes w); Some (1%N, n)) (path_segments path).

Definition kernel (w : World) (c : call) : World * answer c :=
  match c as c return World * answer c with
  | SymlinkMetadata path =>
      (w, ok_or ((λ '(i, n), stat_of i n) <$> resolve_path w path) eio)
  | OpenRoot _ => open_fd w 1
  | Fstat d => (w, enoent ((λ '(i, n), stat_of i n) <$> node_of w d))
  | Statat d name => (w, enoent ((λ '(i, n), stat_of i n) <$> child w d name))
  | Openat d name flags mode => openat_world w d name flags mode
  | Mkdirat d name mode => mkdirat_world w d name mode
  | RenameatWith d n d' n' flags => rename_world w d n d' n' flags
  | Unlinkat d n _ =>
      match inode_of w d with Some p => (set_entries p (without n) w, Ok ()) | None => (w, Err NOENT) end
  | Fsync _ | Flock _ => (w, Ok ())
  | Fchmod d mode =>
      match node_of w d with
      | Some (i, n) =>
        (set_node i (mkNode (N.land (n_mode n) 61440 + mode) (n_links n) (n_content n) (n_entries n)) w,
         Ok ())
      | None => (w, Err NOENT)
      end
  | ReadDir d => (w, enoent ((λ '(_, n), Ok <$> ([bs "."; bs ".."] ++ (fst <$> n_entries n)))
                               <$> node_of w d))
  | SeekStart f pos =>
      match inode_of w f with Some i => (set_fd f i pos w, Ok ()) | None => (w, Err eio) end
  | ReadToEnd f =>
      match node_of w f, assoc f (fds w) with
      | Some (i, n), Some (_, pos) =>
        (set_fd f i (len (n_content n)) w, Ok (drop (N.to_nat pos) (n_content n)))
      | _, _ => (w, Err eio)
      end
  | Read f size =>
      match node_of w f, assoc f (fds w) with
      | Some (i, n), Some (_, pos) =>
        let r := take_bytes size (drop (N.to_nat pos) (n_content n)) in
        (set_fd f i (pos + len r) w, Ok r)
      | _, _ => (w, Err eio)
      end
  | WriteAll f content =>
      match node_of w f with
      | Some (i, n) =>
        (set_node i (mkNode (n_mode n) (n_links n) (n_content n ++ content) (n_entries n)) w, Ok ())
      | None => (w, Err eio)
      end
  | SyncAll _ => (w, Ok ())
  | NewUuid => (next w, replicate 15 x61 ++ [byte_of (fresh w mod 256)])
  | Elapsed => (w, 1%N)
  | Sleep _ | UnlockPublication | OnLockContention | Panic => (w, ())
  | TryLock => (w, Acquired)
  | LockPublication => (w, true)
  | Authorize _ => (w, if allowed w then Ok () else Err (Authorization GrantError.Missing))
  end.

(** [/data/note.txt] and the empty directory [/data/sub]. *)
Definition start (allowed : bool) : World :=
  mkWorld
    [(1%N, mkNode (16384 + 493) 3 [] [(bs "data", 2%N)]);
     (2%N, mkNode (16384 + 448) 3 [] [(bs "note.txt", 3%N); (bs "sub", 4%N)]);
     (3%N, mkNode (32768 + 384) 1 (bs "hello") []);
     (4%N, mkNode (16384 + 448) 2 [] [])]
    [] 100 allowed.

(** The answer of a run, and the world after it. *)
Definition outcome {E A} (p : fs E A) (w : World) : World * Result E A :=
  let '(w, r, _) := run kernel p w [] in (w, r).
Definition trace {E A} (p : fs E A) (w : World) : history := snd (run kernel p w []).

Lemma outcome_exec {E A} (p : fs E A) w : exec p [] (snd (outcome p w)) (trace p w).
Proof.
  unfold outcome, trace. destruct (run kernel p w []) as [[w' r] h] eqn:Er. simpl.
  by eapply run_exec.
Qed.

(** The tools over [/data], with two paths below it. *)
Definition tools (w : World) : World * Result SafeRootConfigurationError PinnedSafeRootSet :=
  outcome (try_new [bs "/data/."]) w.
Definition prepared {A} (w : World) (path : bytes) (f : AnchoredPath → fs AppError A)
    : World * Result AppError A :=
  match tools w with
  | (w, Ok set) =>
    match anchor set path with
    | Ok anchored => outcome (f anchored) w
    | Err e => (w, Err e)
    end
  | (w, Err _) => (w, Err Unauthorized)
  end.

(** The value of a computation that succeeds. *)
Definition get {E A} (r : Result E A) : is_ok r = true → A :=
  match r with Ok a => λ _, a | Err e => λ H, match Bool.diff_false_true H with end end.

#[local] Existing Instance example_crypto.

Definition create_run := prepared (start true) (bs "/data/sub/new") (λ a, prepare_create_directory a false).
Definition example_create : PreparedCreateDirectoryMutation :=
  Eval vm_compute in get (snd create_run) eq_refl.
Definition write_run := prepared (start true) (bs "/data/note.txt") (λ a, prepare_write_file a (bs "new") false).
Definition example_write : PreparedWriteFileMutation := Eval vm_compute in get (snd write_run) eq_refl.
Definition trash_run := prepared (start true) (bs "/data/note.txt") (λ a, prepare_trash_file a false).
Definition example_trash : PreparedTrashFileMutation := Eval vm_compute in get (snd trash_run) eq_refl.
Definition copy_run :=
  prepared (start true) (bs "/data/note.txt") (λ a,
    destination ← lift (anchor (anchored_roots a) (bs "/data/copy.txt"));
    prepare_copy_file a destination false).
Definition example_copy : PreparedCopyFileMutation := Eval vm_compute in get (snd copy_run) eq_refl.
End FsExample.
