(* ===== verification/Configured.v ===== *)
(** * What a loaded configuration guarantees

    The theorems on [Config]: what every accepted configuration satisfies, that
    the services of the process can be built from it, that a gate is open only
    when its variable says so, and that the literal runtime file is read back as
    it was written. *)

From S2P Require Import Prelude RustStd RustPath Http Auth RequestLimits NetAddr TransportSecurity HostPolicy.
From S2P Require Import RequestGrantCapability GrantReplay GrantToken CreateDirectoryGrant WriteFileGrant.
From S2P Require Import CopyFileGrant TrashFileGrant AndroidVolumeGrant AppErrors FsCalls SafeRoots Config FsExample.

Module Configured.
Import AppErrors Auth Config.

(** ** Reading off an accepted configuration *)

Lemma bind_unit {E A} (m : Result E unit) (f : unit → Result E A) a :
  m ≫= f = Ok a → m = Ok () ∧ f () = Ok a.
Proof. by destruct m as [[]|]. Qed.

(** The stages of [load_with] that succeeded. *)
Record loaded (features : Features) (read : bytes → Result VarError bytes) (c : AppConfig) : Prop := mkLoaded {
  l_server : load_server read = Ok (server c);
  l_auth : load_auth read = Ok (auth c);
  l_capability : load_capability read = Ok (capability c);
  l_android : load_android read = Ok (android c);
  l_command : load_command read = Ok (command c);
  l_file : load_file read = Ok (file c);
  l_transport : load_transport read (print_N (port (server c))) = Ok (transport c);
  l_roots : validate_file_safe_roots (file c) = Ok ();
  l_key : validate_capability_key_configuration (capability c) = Ok ();
  l_create : validate_create_directory_mutation_capability features c = Ok ();
  l_write : validate_write_file_mutation_capability features c = Ok ();
  l_copy : validate_copy_file_mutation_capability features c = Ok ();
  l_trash : validate_trash_file_mutation_capability features c = Ok ();
  l_android_ok : validate_android_capabilities features (android c) = Ok ();
  l_volume : validate_android_volume_control_capability c = Ok ();
  l_rish : validate_android_rish_configuration features c = Ok ();
  l_command_ok : validate_command_capability features (command c) = Ok ();
  l_transport_ok : validate_transport_security (transport c) = Ok ();
}.

Lemma load_with_loaded features read c : load_with features read = Ok c ↔ loaded features read c.
Proof.
  unfold load_with. split.
  - intros H.
    apply bind_Ok in H as (sv & H1 & H). cbv zeta in H.
    apply bind_Ok in H as (au & H2 & H). apply bind_Ok in H as (ca & H3 & H).
    apply bind_Ok in H as (an & H4 & H). apply bind_Ok in H as (co & H5 & H).
    apply bind_Ok in H as (fi & H6 & H). apply bind_Ok in H as (tr & H7 & H).
    repeat (apply bind_unit in H as [? H]). injection H as <-. by constructor.
  - intros []. destruct c. simpl in *.
    repeat match goal with H : ?m = Ok _ |- context [?m] => rewrite H; cbn [mbind Result_bind] end.
    done.
Qed.

(** ** Secrets *)

(** A bearer token and a signing key that the authorities accept. *)
Definition secrets (c : AppConfig) (token kid hex : bytes) : Prop :=
  static_token (auth c) = Some token ∧ validate_bearer_token token = Ok () ∧
  Config.key_id (capability c) = Some kid ∧ hmac_key_hex (capability c) = Some hex ∧
  valid_key_id kid = true ∧ is_Some (decode_hex_array GRANT_KEY_BYTES hex).

Lemma key_id_byte_valid b : key_id_byte b = is_ascii_lowercase b || is_ascii_digit b
  || bool_decide (b = byte_of 45) || bool_decide (b = byte_of 95).
Proof. by destruct b. Qed.
Lemma lower_hex_digit b : lower_hex_byte b = true → is_Some (decode_hex_digit b) ∧ is_ascii_byte b = true.
Proof. destruct b; try discriminate; by intros _; vm_compute; split; [eexists|]. Qed.
Lemma lower_hex_decodes n hex : length hex = n * 2 → forallb lower_hex_byte hex = true →
  is_Some (decode_hex_array n hex).
Proof.
  intros Hl Hh. unfold decode_hex_array. rewrite (proj2 (Nat.eqb_eq _ _) Hl). simpl.
  assert (is_ascii hex = true) as ->.
  { apply forallb_forall. intros b Hb. rewrite forallb_forall in Hh. by apply lower_hex_digit, Hh. }
  simpl. revert hex Hl Hh. induction n as [|n IH]; intros hex Hl Hh; [by destruct hex|].
  destruct hex as [|a [|b hex]]; [done|done|]. simpl in Hl, Hh. apply andb_true_iff in Hh as [Ha Hh].
  apply andb_true_iff in Hh as [Hb Hh]. cbn [decode_hex_pairs].
  destruct (proj1 (lower_hex_digit _ Ha)) as [hi ->], (proj1 (lower_hex_digit _ Hb)) as [lo ->].
  cbn [mbind option_bind]. destruct (IH hex) as [out ->]; [lia|done|by eexists].
Qed.
Lemma forallb_ext' {A} (f g : A → bool) l : (∀ x, f x = g x) → forallb f l = forallb g l.
Proof. intros H. induction l as [|x l IH]; simpl; [done|]. by rewrite H, IH. Qed.

Lemma key_configuration c kid :
  validate_capability_key_configuration (capability c) = Ok () → Config.key_id (capability c) = Some kid →
  ∃ hex, hmac_key_hex (capability c) = Some hex ∧ valid_key_id kid = true ∧
    is_Some (decode_hex_array GRANT_KEY_BYTES hex).
Proof.
  intros H Hk. unfold validate_capability_key_configuration in H. rewrite Hk in H.
  apply bind_unit in H as [H1%fail_if_Ok H]. apply bind_unit in H as [H2 H3%fail_if_Ok].
  destruct (hmac_key_hex (capability c)) as [hex|]; [|done]. apply fail_if_Ok in H2.
  apply orb_false_iff in H1 as [H1 Hb%negb_false_iff]. apply orb_false_iff in H1 as [Hne Hlen%Nat.ltb_ge].
  apply orb_false_iff in H2 as [Hl%negb_false_iff%Nat.eqb_eq Hh%negb_false_iff].
  exists hex. split_and!; [done| |by apply lower_hex_decodes].
  unfold valid_key_id. change MAX_GRANT_KEY_ID_BYTES with MAX_KEY_ID_BYTES.
  rewrite Hne, (proj2 (Nat.leb_le _ _) Hlen). simpl.
  rewrite <-Hb. apply forallb_ext'. intros b. by rewrite key_id_byte_valid.
Qed.
Lemma static_token_secret c m : validate_mutation_static_token c m = Ok () →
  ∃ token, static_token (auth c) = Some token ∧ validate_bearer_token token = Ok ().
Proof. intros (token & Ht%ok_or_Ok & Hv)%bind_Ok. by exists token. Qed.
Lemma mutation_secrets features enabled variable c :
  validate_capability_key_configuration (capability c) = Ok () →
  validate_mutation_capability features enabled variable c = Ok () → enabled = true →
  mcp_runtime features = true ∧ ∃ token kid hex, secrets c token kid hex.
Proof.
  intros Hkey H ->. unfold validate_mutation_capability in H. cbn [negb] in H.
  apply bind_unit in H as [Hf%fail_if_Ok%negb_false_iff H].
  apply bind_unit in H as [(token & Ht & Hv)%static_token_secret Hk%fail_if_Ok].
  split; [done|]. destruct (Config.key_id (capability c)) as [kid|] eqn:Ek; [|done].
  destruct (key_configuration _ _ Hkey Ek) as (hex & Hh & Hkid & Hhex). exists token, kid, hex.
  unfold secrets. by rewrite Ek.
Qed.
Lemma volume_secrets c :
  validate_capability_key_configuration (capability c) = Ok () →
  validate_android_volume_control_capability c = Ok () → volume_control_enabled (android c) = true →
  ∃ token kid hex, secrets c token kid hex.
Proof.
  intros Hkey H Hon. unfold validate_android_volume_control_capability in H. rewrite Hon in H. cbn [negb] in H.
  apply bind_unit in H as [(token & Ht & Hv)%static_token_secret Hk%fail_if_Ok].
  destruct (Config.key_id (capability c)) as [kid|] eqn:Ek; [|done].
  destruct (key_configuration _ _ Hkey Ek) as (hex & Hh & Hkid & Hhex). exists token, kid, hex.
  unfold secrets. by rewrite Ek.
Qed.

(** ** Paths *)

(** A safe root: absolute and not [/]. *)
Definition root_ok (root : bytes) : Prop := is_absolute root = true ∧ path_segments root ≠ [].
Lemma roots_ok f : validate_file_safe_roots f = Ok () →
  1 ≤ length (safe_roots f) ≤ SafeRoots.MAX_SAFE_ROOTS ∧ Forall root_ok (safe_roots f).
Proof.
  intros H. unfold validate_file_safe_roots in H. apply bind_unit in H as [H1%fail_if_Ok%bool_decide_eq_false H].
  apply bind_unit in H as [H2%fail_if_Ok%Nat.ltb_ge H].
  split; [split; [destruct (safe_roots f); simpl; [done|lia]|done]|].
  induction (safe_roots f) as [|r roots IH] in H |- *; [constructor|]. cbn [validate_safe_root_entries] in H.
  apply bind_unit in H as [_ H]. apply bind_unit in H as [Ha%fail_if_Ok%negb_false_iff H].
  apply bind_unit in H as [Hr%fail_if_Ok H]. constructor; [|by apply IH]. split; [done|]. intros Hs.
  apply bool_decide_eq_false in Hr. apply Hr. unfold components. by rewrite Ha, Hs.
Qed.

(** Lexically outside a root: the resolved names of the root do not come first. *)
Definition outside (dex root : bytes) : Prop :=
  ∃ d r, normalize_absolute_path_lexically dex = Some d ∧ normalize_absolute_path_lexically root = Some r ∧
    ¬ r `prefix_of` d.
Lemma outside_roots dex d roots : normalize_absolute_path_lexically dex = Some d →
  validate_outside_safe_roots d roots = Ok () → Forall (outside dex) roots.
Proof.
  intros Hd. induction roots as [|root roots IH]; [constructor|]. cbn [validate_outside_safe_roots]. intros H.
  apply bind_Ok in H as (r & Hr%ok_or_Ok & H). apply bind_unit in H as [Hf%fail_if_Ok H].
  constructor; [|by apply IH]. exists d, r. split_and!; [done..|]. intros [t ->].
  apply orb_false_iff in Hf as [_ Hf%bool_decide_eq_false]. apply Hf. by rewrite take_app_length.
Qed.
Definition rish_ok (c : AppConfig) : Prop :=
  ∃ path digest token, dex_path (rish (android c)) = Some path ∧ dex_sha256 (rish (android c)) = Some digest ∧
    is_absolute path = true ∧ is_Some (decode_hex_array DIGEST_BYTES digest) ∧
    Forall (outside path) (safe_roots (file c)) ∧
    static_token (auth c) = Some token ∧ validate_bearer_token token = Ok ().
Lemma rish_configured features c : validate_android_rish_configuration features c = Ok () →
  rish_enabled (rish (android c)) = true → android_rish features = true ∧ rish_ok c.
Proof.
  intros H Hon. unfold validate_android_rish_configuration in H. cbv zeta in H. rewrite Hon in H.
  apply bind_unit in H as [H1%fail_if_Ok H]. apply bind_unit in H as [H2 H]. apply bind_unit in H as [H3 H].
  cbn [negb] in H. apply bind_unit in H as [H4%fail_if_Ok H]. apply bind_unit in H as [H5%fail_if_Ok%negb_false_iff H].
  apply static_token_secret in H as (token & Ht & Hv). split; [done|].
  destruct (dex_path (rish (android c))) as [path|] eqn:Ep; [|done].
  destruct (dex_sha256 (rish (android c))) as [digest|] eqn:Ed; [|done].
  apply bind_unit in H3 as [H3%fail_if_Ok%negb_false_iff H]. apply bind_Ok in H as (d & Hd%ok_or_Ok & H).
  apply fail_if_Ok, orb_false_iff in H2 as [Hl%negb_false_iff%Nat.eqb_eq Hh%negb_false_iff].
  exists path, digest, token. unfold rish_ok. rewrite Ep, Ed.
  split_and!; try done; [by apply lower_hex_decodes|by eapply outside_roots].
Qed.

(** ** The transport *)

Lemma existsb_is_none (f : bytes → option bytes) l :
  existsb (λ x, is_none (f x)) l = false → Forall (λ x, is_Some (f x)) l.
Proof.
  induction l as [|x l IH]; [constructor|]. cbn [existsb]. intros [Hx Hl]%orb_false_iff.
  constructor; [|by apply IH]. destruct (f x); [by eexists|done].
Qed.
Definition transport_ok (t : TransportConfig) : Prop :=
  Config.allowed_hosts t ≠ [] ∧ Config.allowed_origins t ≠ [] ∧
  Forall (λ h, is_Some (TransportSecurity.normalize_host h)) (Config.allowed_hosts t) ∧
  Forall (λ o, is_Some (TransportSecurity.normalize_origin o)) (Config.allowed_origins t) ∧
  (1 ≤ max_concurrent_requests t ≤ 64 ∧ 1 ≤ request_timeout_seconds t ≤ 300 ∧
   1024 ≤ max_body_bytes t ≤ 8388608)%N.
Lemma within_true lo hi n : within lo hi n = true → (lo ≤ n ≤ hi)%N.
Proof. unfold within. rewrite andb_true_iff, !N.leb_le. done. Qed.
Lemma transport_valid t : validate_transport_security t = Ok () → transport_ok t.
Proof.
  intros H. unfold validate_transport_security in H.
  apply bind_unit in H as [H1%fail_if_Ok%bool_decide_eq_false H].
  apply bind_unit in H as [H2%fail_if_Ok%bool_decide_eq_false H].
  apply bind_unit in H as [H3%fail_if_Ok%existsb_is_none H].
  apply bind_unit in H as [H4%fail_if_Ok%existsb_is_none H].
  apply bind_unit in H as [H5%fail_if_Ok%negb_false_iff%within_true H].
  apply bind_unit in H as [H6%fail_if_Ok%negb_false_iff%within_true H].
  apply fail_if_Ok, negb_false_iff, within_true in H. split_and!; [done|done|done|done|apply H5|apply H5|apply H6|apply H6|apply H|apply H].
Qed.

Lemma port_ok read name fallback p : (0 < fallback ≤ 65535)%N → env_port read name fallback = Ok p →
  (0 < p ≤ 65535)%N.
Proof.
  intros Hf. unfold env_port. intros (v & _ & H)%bind_Ok. destruct v as [v|]; [|by injection H as <-].
  apply ok_or_Ok in H. destruct (parse_unsigned 65535 (trim v)) as [n|] eqn:E; [|done]. simpl in H.
  destruct (N.eqb_spec n 0); [done|]. injection H as <-. unfold parse_unsigned in E.
  case_match; [done|]. apply parse_digits_Some in E as (_ & _ & ?); lia.
Qed.

(** ** Well-formed configurations *)

(** The gates of the five mutations, as the configuration holds them. *)
Inductive gate := GateCreate | GateWrite | GateCopy | GateTrash | GateVolume.
Definition gate_open (g : gate) (c : AppConfig) : bool :=
  match g with
  | GateCreate => create_directory_mutation_enabled (file c)
  | GateWrite => write_file_mutation_enabled (file c)
  | GateCopy => copy_file_mutation_enabled (file c)
  | GateTrash => trash_file_mutation_enabled (file c)
  | GateVolume => volume_control_enabled (android c)
  end.
Definition gate_feature (g : gate) (features : Features) : bool :=
  match g with GateVolume => android_volume_control features | _ => mcp_runtime features end.

Lemma open_gate features read c g : loaded features read c → gate_open g c = true →
  gate_feature g features = true ∧ ∃ token kid hex, secrets c token kid hex.
Proof.
  intros [] Hg. destruct g; cbn [gate_open gate_feature] in *.
  - exact (mutation_secrets _ _ _ _ l_key0 l_create0 Hg).
  - exact (mutation_secrets _ _ _ _ l_key0 l_write0 Hg).
  - exact (mutation_secrets _ _ _ _ l_key0 l_copy0 Hg).
  - exact (mutation_secrets _ _ _ _ l_key0 l_trash0 Hg).
  - split; [|by apply volume_secrets].
    apply bind_unit in l_android_ok0 as [_ H]. apply bind_unit in H as [_ H%fail_if_Ok].
    rewrite Hg in H. by destruct (android_volume_control features).
Qed.

Lemma device_features features read c : loaded features read c →
  (battery_status_enabled (android c) = true → android_battery_status features = true) ∧
  (volume_status_enabled (android c) = true → android_volume_status features = true) ∧
  (command_enabled (command c) = true → command_execution features = true).
Proof.
  intros []. split_and!; intros Hb.
  - apply bind_unit in l_android_ok0 as [Hf%fail_if_Ok _]. rewrite Hb in Hf. by destruct (android_battery_status features).
  - apply bind_unit in l_android_ok0 as [_ Hf]. apply bind_unit in Hf as [Hf%fail_if_Ok _].
    rewrite Hb in Hf. by destruct (android_volume_status features).
  - apply fail_if_Ok in l_command_ok0. rewrite Hb in l_command_ok0. by destruct (command_execution features).
Qed.
(** C37: what every accepted configuration satisfies.  The port is one; there are
    between 1 and 64 absolute safe roots and none is [/]; every allowed host and
    origin has a normal form and every limit is in its range; a mutation gate is
    open only in a build with its feature and with a bearer token and a signing
    key the grant authorities accept; every read-only gate is open only in a
    build with its feature; and an enabled rish backend has a bearer token, the
    digest of its DEX, and a DEX outside every safe root, whatever [.] and [..]
    the paths contain. *)
Theorem loaded_config_well_formed features read c :
  load_with features read = Ok c →
  (0 < port (server c) ≤ 65535)%N ∧
  (1 ≤ length (safe_roots (file c)) ≤ SafeRoots.MAX_SAFE_ROOTS ∧ Forall root_ok (safe_roots (file c))) ∧
  transport_ok (transport c) ∧
  (∀ g, gate_open g c = true → gate_feature g features = true ∧ ∃ token kid hex, secrets c token kid hex) ∧
  (battery_status_enabled (android c) = true → android_battery_status features = true) ∧
  (volume_status_enabled (android c) = true → android_volume_status features = true) ∧
  (command_enabled (command c) = true → command_execution features = true) ∧
  (rish_enabled (rish (android c)) = true → android_rish features = true ∧ rish_ok c).
Proof.
  intros H%load_with_loaded. pose proof H as [].
  refine (conj _ (conj _ (conj _ (conj _ (conj _ (conj _ (conj _ _))))))).
  - unfold load_server in l_server0. apply bind_Ok in l_server0 as (h & _ & Hs).
    apply bind_Ok in Hs as (p & Hp & [= Hs]). rewrite <-Hs. simpl.
    refine (port_ok _ _ _ _ _ Hp). lia.
  - by apply roots_ok.
  - by apply transport_valid.
  - intros g. by eapply open_gate.
  - by apply (device_features _ _ _ H).
  - by apply (device_features _ _ _ H).
  - by apply (device_features _ _ _ H).
  - by apply rish_configured.
Qed.

(** ** Starting from a configuration *)

(** A signing key of the configuration is accepted by every grant family: building
    its authority can fail only for want of replay state. *)
Lemma secrets_accepted `{C : Crypto} c token kid hex capability domain w capacity :
  secrets c token kid hex → capacity ≠ 0%N →
  let '(_, r) := from_hex_key_with_capacity capability domain w kid hex token capacity in
  ∀ e, r = Err e → e = GrantError.StateUnavailable.
Proof.
  intros (_ & Htoken & _ & _ & Hkid & [key Hkey]) Hcap. unfold from_hex_key_with_capacity.
  rewrite Hkid. pose proof Hkey as Hkey'. unfold decode_hex_array in Hkey'.
  destruct (negb (length hex =? GRANT_KEY_BYTES * 2)) eqn:El; [done|].
  change GRANT_KEY_HEX_BYTES with (GRANT_KEY_BYTES * 2). rewrite El.
  assert (bytes_eqb token [] = false) as ->.
  { unfold validate_bearer_token in Htoken. by destruct (bytes_eqb token []). }
  rewrite (proj2 (N.eqb_neq _ _) Hcap). cbn [negb orb]. rewrite Hkey. cbv zeta.
  destruct (shared_replay_state w capability kid key _ capacity) as [w' [s|e]]; by intros ? [= <-].
Qed.

Lemma services_build `{S : Semaphore} features read c : loaded features read c →
  (∃ p, TransportSecurity.new (Config.allowed_hosts (transport c)) (Config.allowed_origins (transport c))
          (Config.allow_missing_origin (transport c)) = Ok p) ∧
  (∃ l, RequestLimits.from_seconds (N.to_nat (max_concurrent_requests (transport c)))
          (request_timeout_seconds (transport c)) (max_body_bytes (transport c)) = Ok l).
Proof.
  intros H. pose proof (transport_valid _ (l_transport_ok _ _ _ H)) as (_ & _ & Hh & Ho & H1 & H2 & H3).
  split; [by apply HostPolicy.new_builds|].
  eexists. apply RequestLimits.limits_new_Ok. unfold RequestLimits.duration_from_secs. split_and!; try lia. done.
Qed.
(** The policy of an accepted posture. *)
Lemma posture_policy c posture : validate_runtime_auth_posture c = Ok posture →
  ∃ p, from_config (auth c) posture = Ok p ∧ policy_valid p ∧ static_principal p = static_token (auth c) ∧
    (static_token (auth c) = None →
     allow_unauthenticated_localhost_only (auth c) = true ∧ is_loopback_host (host (server c)) = true).
Proof.
  unfold validate_runtime_auth_posture, from_config, static_bearer.
  destruct (static_token (auth c)) as [token|] eqn:Et.
  - intros (u & Hv & [= <-])%bind_Ok. destruct u. cbn [ok_or mbind Result_bind]. rewrite Hv.
    eexists. split; [reflexivity|]. done.
  - destruct (allow_unauthenticated_localhost_only (auth c)); [|done]. cbn [negb].
    destruct (is_loopback_host (host (server c))); [|done]. intros [= <-]. eexists. split; [reflexivity|]. done.
Qed.

(** A process starts from every accepted configuration.  Its host and origin
    lists make a transport policy, its limits make request limits, an accepted
    posture makes an authentication policy, which asks for the configured token
    or is tied to a loopback host, and for every open mutation gate the grant
    authority of every family accepts the configured key and token: it can only
    fail for want of replay state, never as misconfigured. *)
Theorem loaded_config_starts `{C : Crypto} `{S : Semaphore} features read c :
  load_with features read = Ok c →
  (∃ p, TransportSecurity.new (Config.allowed_hosts (transport c)) (Config.allowed_origins (transport c))
          (Config.allow_missing_origin (transport c)) = Ok p) ∧
  (∃ l, RequestLimits.from_seconds (N.to_nat (max_concurrent_requests (transport c)))
          (request_timeout_seconds (transport c)) (max_body_bytes (transport c)) = Ok l) ∧
  (∀ posture, validate_runtime_auth_posture c = Ok posture →
     ∃ p, from_config (auth c) posture = Ok p ∧
       match static_principal p with
       | Some token => static_token (auth c) = Some token
       | None => static_token (auth c) = None ∧ allow_unauthenticated_localhost_only (auth c) = true ∧
                 is_loopback_host (host (server c)) = true
       end) ∧
  (∀ g, gate_open g c = true → ∃ token kid hex,
     static_token (auth c) = Some token ∧ Config.key_id (capability c) = Some kid ∧
     hmac_key_hex (capability c) = Some hex ∧
     ∀ cap domain w e, snd (from_hex_key_with_capacity cap domain w kid hex token MAX_CONSUMED_GRANTS) = Err e →
       e = GrantError.StateUnavailable).
Proof.
  intros H%load_with_loaded. destruct (services_build _ _ _ H) as [Hpolicy Hlimits]. split_and!; [done|done| |].
  - intros posture (p & Hp & _ & Hs & Hn)%posture_policy. exists p. split; [done|]. rewrite Hs.
    destruct (static_token (auth c)); [done|]. by destruct (Hn eq_refl).
  - intros g Hg. destruct (open_gate _ _ _ _ H Hg) as (_ & token & kid & hex & Hs).
    exists token, kid, hex. pose proof Hs as (? & _ & ? & ? & _). split_and!; [done..|].
    intros cap domain w e He. pose proof (secrets_accepted c token kid hex cap domain w MAX_CONSUMED_GRANTS Hs) as Ha.
    destruct (from_hex_key_with_capacity cap domain w kid hex token MAX_CONSUMED_GRANTS) as [w' r].
    by apply Ha.
Qed.

(** ** Explicit gates *)

Definition gate_variable (g : gate) : bytes :=
  match g with
  | GateCreate => bs "MCP__FILE__CREATE_DIRECTORY_MUTATION_ENABLED"
  | GateWrite => bs "MCP__FILE__WRITE_MUTATION_ENABLED"
  | GateCopy => bs "MCP__FILE__COPY_FILE_MUTATION_ENABLED"
  | GateTrash => bs "MCP__FILE__TRASH_FILE_MUTATION_ENABLED"
  | GateVolume => bs "MCP__ANDROID__VOLUME_CONTROL_ENABLED"
  end.
(** A variable that says yes. *)
Definition says_yes (value : Result VarError bytes) : bool :=
  match value with
  | Ok v => existsb (eq_ignore_ascii_case (trim v)) [bs "true"; bs "1"; bs "yes"; bs "on"]
  | Err _ => false
  end.
Lemma env_bool_says read name b : env_bool read name false = Ok b → b = says_yes (read name).
Proof.
  unfold env_bool, read_env, says_yes. destruct (read name) as [v|[|v]]; [|by intros [= <-]|done].
  cbn [mbind Result_bind]. unfold parse_bool. cbv zeta.
  destruct (existsb _ [bs "true"; _; _; _]); [by intros [= <-]|]. by destruct (existsb _ _); [intros [= <-]|].
Qed.

Definition default_config : AppConfig :=
  mkApp (mkServer (bs "127.0.0.1") 8000) (mkAuthConfig None false) (mkCapability None None)
    (mkAndroid false false false (mkRish false None None)) (mkCommand false)
    (mkFile [DEFAULT_FILE_SAFE_ROOT] false false false false)
    (mkTransport (default_hosts (bs "8000")) (default_origins (bs "8000")) false false false 4 30 2097152).

(** A mutation is enabled only explicitly.  In every accepted configuration
    the gate of each of the five mutations is exactly what its own variable says,
    and closed when the variable is missing; and an empty environment is accepted
    in every build with every gate closed, the listener on localhost and hosts and
    origins of that listener only. *)
Theorem gates_are_explicit features :
  (∀ read c g, load_with features read = Ok c → gate_open g c = says_yes (read (gate_variable g))) ∧
  load_with features (λ _, Err NotPresent) = Ok default_config ∧
  (∀ g, gate_open g default_config = false).
Proof.
  refine (conj _ (conj _ _)).
  - intros read c g [? ? ? Ha ? Hf]%load_with_loaded.
    unfold load_file in Hf. apply bind_Ok in Hf as (roots & _ & Hf). apply bind_Ok in Hf as (b1 & E1 & Hf).
    apply bind_Ok in Hf as (b2 & E2 & Hf). apply bind_Ok in Hf as (b3 & E3 & Hf).
    apply bind_Ok in Hf as (b4 & E4 & [= Hf]).
    unfold load_android in Ha. apply bind_Ok in Ha as (a1 & _ & Ha). apply bind_Ok in Ha as (a2 & _ & Ha).
    apply bind_Ok in Ha as (a3 & E5 & Ha). apply bind_Ok in Ha as (a4 & _ & Ha).
    apply bind_Ok in Ha as (a5 & _ & Ha). apply bind_Ok in Ha as (a6 & _ & [= Ha]).
    destruct g; cbn [gate_open gate_variable]; rewrite <-?Hf, <-?Ha; cbn; by apply env_bool_says.
  - destruct features. vm_compute. reflexivity.
  - by intros [].
Qed.

(** ** The literal runtime file *)

Abbreviation EQUALS := (byte_of 61).
Abbreviation NEWLINE := (byte_of 10).
Definition record_line (r : bytes * bytes) : bytes := r.1 ++ EQUALS :: r.2.
Definition write_records (records : list (bytes * bytes)) : bytes :=
  concat ((λ r, record_line r ++ [NEWLINE]) <$> records).
(** A record the file may hold. *)
Definition record_ok (r : bytes * bytes) : Prop :=
  r.1 ≠ [] ∧ name_bytes_from 0 r.1 = true ∧ allowlisted r.1 = true ∧
  NEWLINE ∉ r.2 ∧ byte_of 13 ∉ r.2 ∧ byte_of 0 ∉ r.2.

Lemma name_bytes_chars i n : name_bytes_from i n = true →
  Forall (λ c, c ≠ EQUALS ∧ c ≠ NEWLINE ∧ c ≠ byte_of 13 ∧ c ≠ byte_of 0 ∧ c ≠ byte_of 35) n.
Proof.
  revert i; induction n as [|c n IH]; intros i; [constructor|]. cbn [name_bytes_from].
  intros [Hc Hn]%andb_true_iff. constructor; [|by eapply IH].
  destruct c; try (by vm_compute in Hc); by split_and!.
Qed.
Lemma not_in_name n c : name_bytes_from 0 n = true →
  c ∈ [EQUALS; NEWLINE; byte_of 13; byte_of 0; byte_of 35] → c ∉ n.
Proof.
  intros H%name_bytes_chars Hc Hin. rewrite Forall_forall in H. apply H in Hin as (? & ? & ? & ? & ?).
  rewrite !elem_of_cons in Hc. destruct Hc as [?|[?|[?|[?|[?|?%not_elem_of_nil]]]]]; done.
Qed.
Lemma record_line_no r c : record_ok r → c ∈ [NEWLINE; byte_of 13; byte_of 0] → c ∉ record_line r.
Proof.
  intros (_ & Hn & _ & H1 & H2 & H3) Hc. unfold record_line. rewrite not_elem_of_app, not_elem_of_cons.
  split_and!.
  - apply not_in_name; [done|]. rewrite !elem_of_cons in *. tauto.
  - intros ->. revert Hc. rewrite !elem_of_cons. by intros [?|[?|[?|?%not_elem_of_nil]]].
  - rewrite !elem_of_cons in Hc. destruct Hc as [->|[->|[->|?%not_elem_of_nil]]]; done.
Qed.

Lemma split_records records : Forall record_ok records →
  split_on NEWLINE (write_records records) = (record_line <$> records) ++ [[]].
Proof.
  induction 1 as [|r records Hr _ IH]; [done|].
  change (write_records (r :: records)) with ((record_line r ++ [NEWLINE]) ++ write_records records).
  rewrite <-app_assoc. simpl. rewrite split_on_app; [by rewrite IH|].
  apply record_line_no; [done|]. apply list_elem_of_here.
Qed.
Lemma lines_records records : Forall record_ok records → lines (write_records records) = record_line <$> records.
Proof.
  intros H. unfold lines. rewrite (split_records _ H), last_snoc, removelast_last.
  change (default [] (Some [])) with (@nil byte). rewrite bytes_eqb_refl, app_nil_r, <-list_fmap_compose.
  apply list_fmap_ext. intros i r Hr. rewrite Forall_lookup in H. apply H in Hr. simpl. unfold strip_cr.
  case_bool_decide as Hl; [|done]. apply last_Some_elem_of in Hl.
  exfalso. revert Hl. apply record_line_no; [done|]. apply list_elem_of_further, list_elem_of_here.
Qed.

Lemma skip_record r : record_ok r →
  bytes_eqb (record_line r) [] || starts_with_bytes (bs "#") (record_line r) = false.
Proof.
  intros (Hne & Hn & _). unfold record_line. destruct (r.1) as [|c n]; [done|].
  apply name_bytes_chars, Forall_cons in Hn as [(_ & _ & _ & _ & Hc) _]. simpl.
  unfold starts_with_bytes. destruct (strip_str_prefix _ _) as [x|] eqn:E; [|done].
  apply strip_str_prefix_Some in E. by injection E as E.
Qed.
Lemma parse_records_written records : ∀ values,
  Forall record_ok records → NoDup records.*1 → (∀ r, r ∈ records → values !! r.1 = None) →
  parse_records values (record_line <$> records) = Ok (list_to_map records ∪ values).
Proof.
  induction records as [|[n v] records IH]; intros values Hok Hnd Hfresh.
  { simpl. f_equal. symmetry. apply (left_id_L ∅ (∪)). }
  apply Forall_cons in Hok as [Hr Hok]. apply NoDup_cons in Hnd as [Hn Hnd].
  cbn [fmap list_fmap parse_records]. rewrite (skip_record _ Hr).
  pose proof Hr as (Hne & Hbytes & Hallow & _). simpl in Hne, Hbytes, Hallow.
  change (record_line (n, v)) with (n ++ EQUALS :: v). rewrite split_once_app.
  2: { apply not_in_name; [done|]. apply list_elem_of_here. }
  cbn [ok_or mbind Result_bind fst snd]. rewrite (proj2 (bytes_eqb_false _ _) Hne), Hbytes, Hallow. cbn.
  rewrite (Hfresh (n, v) (list_elem_of_here _ _) : values !! n = None). cbn. rewrite IH; [|done|done|].
  - f_equal. rewrite <-insert_union_r; [apply insert_union_l|]. by apply not_elem_of_list_to_map_1.
  - intros r Hr'. rewrite lookup_insert_ne; [by apply Hfresh, list_elem_of_further|].
    intros ->. apply Hn. change (r.1 ∈ records.*1). by apply list_elem_of_fmap_2.
Qed.

Lemma take_bytes_all n s : (N.of_nat (length s) ≤ n)%N → take_bytes n s = s.
Proof.
  revert n; induction s as [|b s IH]; intros n Hn; [done|]. cbn [take_bytes length] in *.
  destruct (N.eqb_spec n 0); [lia|]. f_equal. apply IH. lia.
Qed.
(** A read that did not fill the limit and one byte was complete. *)
Lemma take_bytes_short n s : (N.of_nat (length (take_bytes (n + 1) s)) ≤ n)%N → take_bytes (n + 1) s = s.
Proof.
  revert n; induction s as [|b s IH]; intros n Hn; [done|]. cbn [take_bytes] in *.
  destruct (N.eqb_spec (n + 1) 0); [lia|]. cbn [length] in Hn. f_equal.
  replace (n + 1 - 1)%N with (n - 1 + 1)%N in * by lia. apply IH. lia.
Qed.
Lemma written_clean records c : Forall record_ok records → c ∈ [byte_of 13; byte_of 0] → c ∉ write_records records.
Proof.
  intros H Hc. induction H as [|r records Hr _ IH]; [apply not_elem_of_nil|].
  change (write_records (r :: records)) with ((record_line r ++ [NEWLINE]) ++ write_records records).
  rewrite !not_elem_of_app. split_and!; [|intros ->%list_elem_of_singleton|done].
  - apply record_line_no; [done|]. by apply list_elem_of_further.
  - revert Hc. rewrite !elem_of_cons. by intros [?|[?|?%not_elem_of_nil]].
Qed.

(** A file the issuer may read. *)
Definition private_file `{FileModes} (metadata : Stat) : Prop :=
  from_raw_mode (st_mode metadata) = RegularFile ∧ N.land (st_mode metadata) 63 = 0%N ∧
  N.land (st_mode metadata) 256 ≠ 0%N ∧ (0 ≤ st_size metadata ≤ 65536)%Z.

(** The offline issuer sees the variables it was given.  A private regular
    file that holds the given records, one [NAME=value] line each, with distinct
    allowlisted names and values without line endings or zero bytes, is read as an
    environment of exactly those variables, whatever else the values contain; and
    a file that is not private, not regular, too large, at a relative path, or
    that holds any other line, is refused. *)
Theorem literal_file_round_trip `{FM : FileModes} features path opened inspected content records metadata :
  (is_absolute path = true → private_file metadata → NoDup records.*1 → Forall record_ok records →
   utf8_valid (write_records records) = true → (N.of_nat (length (write_records records)) ≤ MAX_RUNTIME_CONFIG_BYTES)%N →
   load_from_literal_file features path (Ok ()) (Ok metadata) (Ok (write_records records)) =
     load_with features (lookup_variable (list_to_map records))) ∧
  (∀ c, load_from_literal_file features path opened inspected content = Ok c →
     is_absolute path = true ∧ opened = Ok () ∧ (∃ st, inspected = Ok st ∧ private_file st) ∧
     ∃ bytes values, content = Ok bytes ∧ utf8_valid bytes = true ∧ (N.of_nat (length bytes) ≤ MAX_RUNTIME_CONFIG_BYTES)%N ∧
       byte_of 13 ∉ bytes ∧ byte_of 0 ∉ bytes ∧
       parse_records ∅ (lines bytes) = Ok values ∧ load_with features (lookup_variable values) = Ok c).
Proof.
  split.
  - intros Hp (Hreg & H63 & H256 & Hsz) Hnd Hok Hutf Hlen. unfold load_from_literal_file, MAX_RUNTIME_CONFIG_BYTES in *.
    rewrite Hp. cbn [negb fail_if mbind Result_bind map_err].
    rewrite Hreg, bool_decide_true by done. cbn [negb fail_if mbind Result_bind].
    rewrite H63, (proj2 (N.eqb_neq _ _) H256). cbn [N.eqb negb orb fail_if mbind Result_bind].
    rewrite (proj2 (Z.ltb_ge _ _)) by lia. cbn [ok_or mbind Result_bind].
    rewrite (proj2 (N.ltb_ge _ _)) by lia. cbn [fail_if mbind Result_bind].
    rewrite take_bytes_all by lia. unfold from_utf8. rewrite Hutf.
    cbn [ok_or mbind Result_bind].
    rewrite (proj2 (N.ltb_ge _ _)) by lia. cbn [fail_if mbind Result_bind].
    rewrite !(proj2 (HostPolicy.contains_char_false _ _)).
    2: { apply written_clean; [done|]. apply list_elem_of_further, list_elem_of_here. }
    2: { apply written_clean; [done|]. apply list_elem_of_here. }
    cbn [orb fail_if mbind Result_bind]. rewrite (lines_records _ Hok), parse_records_written; [|done|done|done].
    cbn [mbind Result_bind]. by rewrite (right_id_L ∅ (∪)).
  - intros c H. unfold load_from_literal_file in H.
    apply bind_unit in H as [Hp%fail_if_Ok%negb_false_iff H]. apply bind_Ok in H as ([] & Ho & H).
    apply bind_Ok in H as (st & Hs & H). apply bind_unit in H as [Hreg%fail_if_Ok%negb_false_iff H].
    apply bool_decide_eq_true in Hreg. apply bind_unit in H as [Hmode%fail_if_Ok H].
    apply orb_false_iff in Hmode as [H63%negb_false_iff%N.eqb_eq H256%N.eqb_neq].
    apply bind_Ok in H as (size & Hsize%ok_or_Ok & H). apply bind_unit in H as [Hlimit%fail_if_Ok%N.ltb_ge H].
    apply bind_Ok in H as (contents & Hc & H). apply bind_unit in H as [Hlen%fail_if_Ok%N.ltb_ge H].
    apply bind_unit in H as [Hclean%fail_if_Ok%orb_false_iff H].
    rewrite !HostPolicy.contains_char_false in Hclean. destruct Hclean as [H13 H0].
    apply bind_Ok in H as (values & Hv & H).
    destruct opened as [[]|]; [|done]. destruct inspected as [st'|]; [|done]. injection Hs as ->.
    destruct (Z.ltb_spec (st_size st) 0); [done|]. injection Hsize as <-.
    destruct content as [bytes|]; [|done]. apply ok_or_Ok in Hc. unfold from_utf8 in Hc.
    destruct (utf8_valid _) eqn:Eu; [|done]. injection Hc as <-.
    assert (take_bytes (MAX_RUNTIME_CONFIG_BYTES + 1) bytes = bytes) as Et by by apply take_bytes_short.
    rewrite Et in *. unfold MAX_RUNTIME_CONFIG_BYTES in *.
    split_and!; [done|done|exists st; split; [done|unfold private_file; split_and!; [done|done|done|lia|lia]]|].
    exists bytes, values. by split_and!.
Qed.

(** ** Examples *)

#[local] Existing Instances example_crypto example_file_modes example_semaphore.

Definition all_features : Features := mkFeatures true true true true true true.
Definition example_records : list (bytes * bytes) :=
  [(bs "MCP__AUTH__STATIC_TOKEN", bs "s3cret=token");
   (bs "MCP__CAPABILITY__KEY_ID", bs "primary-1");
   (bs "MCP__CAPABILITY__HMAC_KEY_HEX", bs "000102030405060708090a0b0c0d0e0f101112131415161718191a1b1c1d1e1f");
   (bs "MCP__FILE__SAFE_ROOTS", bs "/data/a,/data/b");
   (bs "MCP__FILE__WRITE_MUTATION_ENABLED", bs " Yes ");
   (bs "MCP__TRANSPORT__ALLOWED_HOSTS", bs "Example.com:8443")].
Definition example_env : bytes → Result VarError bytes := lookup_variable (list_to_map example_records).
Definition opens (g : gate) (r : anyhow AppConfig) : bool :=
  match r with Ok c => gate_open g c | Err _ => false end.
Lemma opens_Ok g r : opens g r = true → ∃ c, r = Ok c ∧ gate_open g c = true.
Proof. destruct r as [c|]; [by exists c|done]. Qed.
Lemma example_opens : opens GateWrite (load_with all_features example_env) = true.
Proof. vm_compute. reflexivity. Qed.

Lemma loaded_config_well_formed_witness :
  ∃ c, load_with all_features example_env = Ok c ∧ gate_open GateWrite c = true ∧
    ∃ token kid hex, secrets c token kid hex.
Proof.
  destruct (opens_Ok _ _ example_opens) as (c & E & Hg). exists c. split; [exact E|]. split; [exact Hg|].
  destruct (loaded_config_well_formed _ _ _ E) as (_ & _ & _ & H & _). exact (proj2 (H _ Hg)).
Defined.
Lemma loaded_config_starts_witness :
  ∃ c, load_with all_features example_env = Ok c ∧
    ∃ p, TransportSecurity.new (Config.allowed_hosts (transport c)) (Config.allowed_origins (transport c))
           (Config.allow_missing_origin (transport c)) = Ok p.
Proof.
  destruct (opens_Ok _ _ example_opens) as (c & E & Hg). exists c. split; [exact E|].
  exact (proj1 (loaded_config_starts _ _ _ E)).
Defined.
Lemma gates_are_explicit_witness :
  ∃ c, load_with all_features example_env = Ok c ∧ gate_open GateCopy c = false.
Proof.
  destruct (opens_Ok _ _ example_opens) as (c & E & Hg). exists c. split; [exact E|].
  exact (proj1 (gates_are_explicit all_features) _ _ GateCopy E).
Defined.

Definition example_metadata : Stat := mkStat (32768 + 384) 7 9 1 300 1000 0 1000.
Lemma literal_file_round_trip_witness :
  load_from_literal_file all_features (bs "/etc/edge.env") (Ok ()) (Ok example_metadata)
    (Ok (write_records example_records)) = load_with all_features example_env ∧
  is_ok (load_with all_features example_env) = true.
Proof.
  split.
  - apply (proj1 (literal_file_round_trip all_features (bs "/etc/edge.env") (Ok ()) (Ok example_metadata)
      (Ok (write_records example_records)) example_records example_metadata)).
    + reflexivity.
    + repeat split; discriminate.
    + apply (bool_decide_unpack _). vm_compute. reflexivity.
    + repeat apply Forall_cons_2; try apply Forall_nil_2;
        (split; [discriminate|split; [reflexivity|split; [reflexivity|
          repeat split; apply HostPolicy.contains_char_false; vm_compute; reflexivity]]]).
    + vm_compute. reflexivity.
    + vm_compute. discriminate.
  - vm_compute. reflexivity.
Defined.
End Configured.
