(* ===== verification/FsReading.v ===== *)
(** * What the reading tools return

    The bytes, ranges, pages and digests of [FsReads], for arbitrary answers of the
    kernel and for a file that does not change. *)

From S2P Require Import Prelude RustStd RustPath RequestGrantCapability AppErrors GrantToken.
From S2P Require Import FsCalls SafeRoots FsPrepare FsReads FsMutations FsLogic FsGate FsExample.

Module FsReading.
Import AppErrors SafeRoots FsPrepare FsReads.

(** ** UTF-8 *)

Lemma take_bytes_take n l : take_bytes n l = take (N.to_nat n) l.
Proof.
  revert n; induction l as [|b l IH]; intros n; simpl; [by destruct (N.to_nat n)|].
  destruct (N.eqb_spec n 0) as [->|Hn]; [done|]. rewrite IH.
  replace (N.to_nat n) with (S (N.to_nat (n - 1))) by lia. done.
Qed.

Lemma utf8_valid_drop a b : utf8_valid a = true → utf8_valid (a ++ b) = true → utf8_valid b = true.
Proof.
  induction a as [a IH] using (induction_ltof1 _ (@length byte)). unfold ltof in IH.
  destruct a as [|b0 a1]; [done|]. cbn [utf8_valid app].
  destruct (is_ascii_byte b0); [apply IH; simpl; lia|].
  destruct a1 as [|b1 a2]; [done|]. cbn [app]. destruct (in_range 194 223 b0).
  { rewrite !andb_true_iff. intros [_ Ha] [_ Hb]. revert Ha Hb. apply IH. simpl. lia. }
  destruct a2 as [|b2 a3]; [done|]. cbn [app]. destruct (in_range 224 239 b0).
  { rewrite !andb_true_iff. intros [_ Ha] [_ Hb]. revert Ha Hb. apply IH. simpl. lia. }
  destruct a3 as [|b3 a4]; [done|]. cbn [app].
  rewrite !andb_true_iff. intros [_ Ha] [_ Hb]. revert Ha Hb. apply IH. simpl. lia.
Qed.

(** A cut through valid text falls inside at most one character. *)
Lemma utf8_scan_cut s : ∀ n pos,
  utf8_valid s = true →
  utf8_scan pos (take n s) = None ∨
  ∃ v, utf8_scan pos (take n s) = Some (pos + v, None) ∧ n < length s ∧ v < n ≤ v + 3.
Proof.
  induction s as [s IH] using (induction_ltof1 _ (@length byte)). unfold ltof in IH. intros n pos.
  destruct s as [|b0 s1]; [rewrite take_nil; by left|]. cbn [utf8_valid length].
  destruct n as [|n]; [by left|]. cbn [take utf8_scan].
  (* one more character of [k] bytes, then the rest *)
  assert (∀ k j s', length s' < length (b0 :: s1) → k + length s' = length (b0 :: s1) → k + j = S n →
    utf8_valid s' = true →
    utf8_scan (k + pos) (take j s') = None ∨
    ∃ v, utf8_scan (k + pos) (take j s') = Some (pos + v, None)
         ∧ S n < S (length s1) ∧ v < S n ≤ v + 3) as Hrest.
  { intros k j s' Hl Hk Hkn Hs'. destruct (IH s' Hl j (k + pos) Hs') as [?|(v & Hv & ?)]; [by left|].
    right. exists (k + v). rewrite Hv. simpl in *. split_and!; [f_equal; f_equal; lia|lia..]. }
  assert (∀ m, m < length s1 → n ≤ m → m ≤ 2 → ∃ v, Some (pos, None) = Some (pos + v, @None nat)
            ∧ S n < S (length s1) ∧ v < S n ≤ v + 3) as Hcut.
  { intros m Hm Hn Hm2. exists 0. rewrite Nat.add_0_r. split_and!; [done|lia..]. }
  simpl length in Hrest.
  destruct (is_ascii_byte b0) eqn:E0.
  { intros Hs1. apply (Hrest 1); simpl; try lia; done. }
  destruct (lead_classes b0 E0)
    as [(-> & H0 & H0' & H0'')|[(-> & ->)|[(-> & -> & H0' & H1 & H2)|(-> & -> & H0' & H0'' & H1 & H2)]]];
    cbn [negb].
  - rewrite H0, H0'. destruct s1 as [|b1 [|b2 [|b3 s4]]]; try done.
    intros Hv. exfalso. rewrite !andb_true_iff in Hv. destruct Hv as [[[[Hv _] _] _] _]. congruence.
  - destruct s1 as [|b1 s2]; [done|]. rewrite andb_true_iff. intros [E1 Hs2].
    destruct n as [|n]; cbn [take]; [right; apply (Hcut 0); simpl; lia|]. rewrite E1.
    apply (Hrest 2); simpl; try lia; done.
  - unfold second_ok. rewrite H1, H2, H0'. destruct s1 as [|b1 [|b2 s3]]; try done.
    rewrite !andb_true_iff. intros [[E1 E2] Hs3].
    destruct n as [|n]; cbn [take]; [right; apply (Hcut 0); simpl; lia|]. rewrite E1. cbn [negb].
    destruct n as [|n]; cbn [take]; [right; apply (Hcut 1); simpl; lia|]. rewrite E2. cbn [negb].
    apply (Hrest 3); simpl; try lia; done.
  - unfold second_ok. rewrite H1, H2, H0'. destruct s1 as [|b1 [|b2 [|b3 s4]]]; try done.
    rewrite !andb_true_iff. intros [[[[_ E1] E2] E3] Hs4].
    destruct n as [|n]; cbn [take]; [right; apply (Hcut 0); simpl; lia|]. rewrite E1. cbn [negb].
    destruct n as [|n]; cbn [take]; [right; apply (Hcut 1); simpl; lia|]. rewrite E2. cbn [negb].
    destruct n as [|n]; cbn [take]; [right; apply (Hcut 2); simpl; lia|]. rewrite E3.
    apply (Hrest 4); simpl; try lia; done.
Qed.

Lemma starts_inside_valid s : utf8_valid s = true → starts_inside s = false.
Proof.
  destruct s as [|b0 s1]; [done|]. cbn [utf8_valid starts_inside].
  assert (forallb (λ b, negb (N.land (byte_val b) 192 =? 128)%N || in_range 128 191 b)
            (byte_of <$> (N.of_nat <$> seq 0 256)) = true) as H by (vm_compute; reflexivity).
  eapply forallb_forall in H; [apply orb_true_iff in H as [H|H]; [by rewrite negb_true_iff in H|]|].
  - assert (128 ≤ byte_val b0 ≤ 191)%N as Hb by (unfold in_range in H; rewrite andb_true_iff, !N.leb_le in H; lia).
    assert (∀ lo hi, (hi < 128 ∨ 191 < lo)%N → in_range lo hi b0 = false) as Hout.
    { intros lo hi Hr. unfold in_range. rewrite andb_false_iff, !N.leb_gt. lia. }
    unfold is_ascii_byte. rewrite !Hout by lia. by destruct s1 as [|b1 [|b2 [|b3 s4]]].
  - apply list_elem_of_In. rewrite <-(byte_of_val b0) at 1. apply list_elem_of_fmap_2.
    rewrite <-(N2Nat.id (byte_val b0)). apply list_elem_of_fmap_2, elem_of_seq.
    pose proof (byte_val_lt b0). lia.
Qed.

(** ** Ranges *)

Section ranges.
Context {FM : FileModes} {C : Crypto}.

(** The three calls of a range read, last first: the file was found unchanged. *)
Definition range_read (v : VerifiedRegularFile) (offset : N) (answer : bytes) (st : Stat) : history :=
  [Ev (Fstat (vf_file v)) (Ok st); Ev (ReadToEnd (vf_file v)) (Ok answer);
   Ev (SeekStart (vf_file v) offset) (Ok ())].

Lemma read_range_safe v offset n h :
  safe (λ _ _, True) (read_range_bytes v offset n) h
    (on_ok (λ b h', ∃ answer st, h' = range_read v offset answer st ++ h ∧ b = take (N.to_nat n) answer
                    ∧ is_file st = true ∧ st_size st = Z.of_N (vf_size_bytes v))).
Proof.
  unfold read_range_bytes, seek, read_to_end_take.
  apply (step_call _ _ _ (SeekStart (vf_file v) offset)); [done|]. intros ? [] ->.
  apply (step_call _ _ _ (ReadToEnd (vf_file v))); [done|]. intros [answer|] b Hb; [|done].
  injection Hb as <-.
  apply (step_call _ _ _ (Fstat (vf_file v))); [done|]. intros ? st ->.
  apply step_check. intros Hf. apply step_lift. intros size Hs. apply step_check. intros He.
  apply safe_mret. exists answer, st. reflect_guards. rewrite take_bytes_take. split_and!; try done.
  unfold reported_size, u64_try_from in Hs. apply ok_or_Ok in Hs.
  destruct (Z.ltb_spec (st_size st) 0); simplify_eq. lia.
Qed.

Lemma exec_safe_ok {E A} (p : fs E A) a h (P : A → history → Prop) :
  exec p [] (Ok a) h → safe (λ _ _, True) p [] (on_ok P) → P a h.
Proof. intros He Hs. by eapply safe_exec in He as [? _]; [|done|exact Hs]. Qed.

(** A binary range is what the file holds there, whatever else the kernel
    answers: the bytes the descriptor answered at that offset, at most as many as
    asked for, of a file whose size was the verified one after the read; the end
    of the file is reported exactly when the range reaches it; and requests
    outside the file or the limit are refused without a call. *)
Theorem binary_range_exact v offset n :
  (∀ r h, exec (read_verified_binary_range v offset n) [] (Ok r) h →
    (offset ≤ vf_size_bytes v)%N ∧ (1 ≤ n ≤ MAX_BINARY_RANGE_BYTES)%N ∧
    ∃ answer st, h = range_read v offset answer st ∧ is_file st = true ∧
      st_size st = Z.of_N (vf_size_bytes v) ∧ brr_file_size_bytes r = vf_size_bytes v ∧
      brr_bytes r = take (N.to_nat n) answer ∧ (len (brr_bytes r) ≤ n)%N ∧
      (brr_eof r = true ↔ (vf_size_bytes v ≤ offset + len (brr_bytes r))%N)) ∧
  ((vf_size_bytes v < offset ∨ n = 0 ∨ MAX_BINARY_RANGE_BYTES < n)%N →
    ∀ r h, exec (read_verified_binary_range v offset n) [] r h → r = Err InvalidBinaryRange ∧ h = []).
Proof.
  split.
  - intros r h He. eapply (exec_safe_ok _ _ _ (λ r h, _)) in He; [exact He|]. clear He.
    apply step_check. intros Hb. reflect_guards.
    eapply step_spec; [apply read_range_safe|]. intros b h' _ (answer & st & -> & -> & Hf & Hs).
    apply step_lift. intros e He. apply ok_or_Ok, checked_add64_Some in He as [-> _].
    apply safe_mret. simpl. split_and!; [done..|]. exists answer, st. split_and!; try done.
    + unfold len. rewrite length_take. lia.
    + apply N.leb_le.
  - intros Hbad r h. unfold read_verified_binary_range.
    assert ((vf_size_bytes v <? offset)%N || negb ((1 <=? n)%N && (n <=? MAX_BINARY_RANGE_BYTES)%N) = true) as ->.
    { rewrite orb_true_iff, negb_true_iff, andb_false_iff, N.ltb_lt, !N.leb_gt. lia. }
    cbn. by inversion 1; simplify_eq.
Qed.

Lemma text_of_range_Ok b e size content :
  text_of_range b e size = Ok content →
  utf8_valid content = true ∧ content `prefix_of` b ∧ (content = b ∨ e < size)%N.
Proof.
  unfold text_of_range. destruct (utf8_error b) as [[v o]|] eqn:E.
  - destruct (bool_decide (o = None) && (e <? size)%N) eqn:Eb; [|done]. intros [= <-].
    apply andb_true_iff in Eb as [_ Hlt%N.ltb_lt]. apply utf8_error_prefix in E as [_ Hv].
    split_and!; [done| |by right]. exists (drop v b). by rewrite take_drop.
  - intros [= <-]. apply utf8_error_None in E. split_and!; [done|done|by left].
Qed.

(** A text range is text, whatever the kernel answers: its content is valid
    UTF-8 and begins the bytes the descriptor answered at that offset, of a file
    whose size was the verified one after the read; only before the end of the
    file may it stop short of them; the end is reported exactly when it is
    reached. *)
Theorem text_range_exact v offset max r h :
  exec (read_verified_text_range v offset max) [] (Ok r) h →
  (offset ≤ vf_size_bytes v)%N ∧ (MIN_TEXT_RANGE_BYTES ≤ max ≤ MAX_TEXT_RANGE_BYTES)%N ∧
  ∃ answer st, h = range_read v offset answer st ∧ is_file st = true ∧
    st_size st = Z.of_N (vf_size_bytes v) ∧ trr_file_size_bytes r = vf_size_bytes v ∧
    let bytes := take (N.to_nat max) answer in
    trr_content r `prefix_of` bytes ∧ utf8_valid (trr_content r) = true ∧ starts_inside bytes = false ∧
    (trr_content r = bytes ∨ (offset + len bytes < vf_size_bytes v)%N) ∧
    (trr_eof r = true ↔ (vf_size_bytes v ≤ offset + len (trr_content r))%N).
Proof.
  intros He. eapply (exec_safe_ok _ _ _ (λ r h, _)) in He; [exact He|]. clear He.
  apply step_check. intros Hb. reflect_guards.
  eapply step_spec; [apply read_range_safe|]. intros b h' _ (answer & st & -> & -> & Hf & Hs).
  apply step_check. intros Hin. apply step_lift. intros e He. apply ok_or_Ok, checked_add64_Some in He as [-> _].
  apply step_lift. intros content (Hv & Hp & Hor)%text_of_range_Ok.
  apply step_lift. intros e He. apply ok_or_Ok, checked_add64_Some in He as [-> _].
  apply safe_mret. simpl. split_and!; [done..|]. exists answer, st. split_and!; try done. apply N.leb_le.
Qed.

(** ** Pages *)

(** A file that does not change, under a descriptor with a position. *)
Definition stable (st : Stat) (s : bytes) (pos : N) (c : call) : N * answer c :=
  match c as c return N * answer c with
  | SymlinkMetadata _ => (pos, Err (OtherIo []))
  | OpenRoot _ | Openat _ _ _ _ => (pos, Err NOENT)
  | Statat _ _ | Fstat _ => (pos, Ok st)
  | Mkdirat _ _ _ | RenameatWith _ _ _ _ _ | Unlinkat _ _ _ | Fsync _ | Fchmod _ _ | Flock _ =>
      (pos, Err NOENT)
  | ReadDir _ => (pos, Ok [])
  | SeekStart _ offset => (offset, Ok ())
  | WriteAll _ _ | SyncAll _ => (pos, Err (OtherIo []))
  | ReadToEnd _ => (len s, Ok (drop (N.to_nat pos) s))
  | Read _ n => ((pos + n)%N, Ok (take_bytes n (drop (N.to_nat pos) s)))
  | NewUuid => (pos, [])
  | Elapsed => (pos, 0%N)
  | Sleep _ | UnlockPublication | OnLockContention | Panic => (pos, ())
  | TryLock => (pos, Acquired)
  | LockPublication => (pos, true)
  | Authorize _ => (pos, Err Cancelled)
  end.

Definition page (st : Stat) (s : bytes) v offset max : Result AppError TextRangeRead :=
  (run (stable st s) (read_verified_text_range v offset max) 0%N []).1.2.

(** A client that asks for the next page until the end. *)
Fixpoint read_pages (n : nat) (st : Stat) (s : bytes) v (offset max : N) : option bytes :=
  match n with
  | O => None
  | S n =>
    match page st s v offset max with
    | Ok r =>
      if trr_eof r then Some (trr_content r)
      else rest ← read_pages n st s v (offset + len (trr_content r)) max; Some (trr_content r ++ rest)
    | Err _ => None
    end
  end.

Lemma page_eq st s v offset max :
  is_file st = true → st_size st = Z.of_N (len s) → vf_size_bytes v = len s →
  (len s ≤ MAX_TEXT_RANGE_FILE_BYTES)%N → (offset ≤ len s)%N →
  (MIN_TEXT_RANGE_BYTES ≤ max ≤ MAX_TEXT_RANGE_BYTES)%N →
  utf8_valid (drop (N.to_nat offset) s) = true →
  ∃ content, page st s v offset max = Ok (mkTextRead content (len s) (len s <=? offset + len content)%N) ∧
    content `prefix_of` drop (N.to_nat offset) s ∧ utf8_valid content = true ∧
    (content = [] → offset = len s).
Proof.
  intros Hf Hs Hv Hmax Ho Hm Hvalid. set (rest := drop (N.to_nat offset) s) in *.
  set (b := take (N.to_nat max) rest).
  assert (len b ≤ len s - offset)%N as Hb.
  { unfold len, b, rest in *. rewrite length_take, length_drop. lia. }
  assert (∃ content, text_of_range b (offset + len b) (len s) = Ok content ∧ content `prefix_of` rest
            ∧ utf8_valid content = true ∧ (content = [] → offset = len s)) as (content & Hc & Hp & Hcv & Hne).
  { unfold text_of_range, b. pose proof (utf8_scan_cut rest (N.to_nat max) 0 Hvalid) as Hcut.
    change (utf8_scan 0) with utf8_error in Hcut. fold b in Hcut |- *. destruct Hcut as [E|(n & E & Hn & Hl)].
    - rewrite E. exists b. split_and!; [done|apply prefix_take|by apply utf8_error_None|].
      intros Hz. apply (f_equal length) in Hz. unfold b, rest, len in *.
      rewrite length_take, length_drop in Hz. simpl in Hz. unfold MIN_TEXT_RANGE_BYTES in *. lia.
    - rewrite E. simpl. assert ((offset + len b <? len s)%N = true) as ->.
      { apply N.ltb_lt. unfold b, rest, len in *. rewrite length_take, length_drop in *. lia. }
      apply utf8_error_prefix in E as [_ Hpv]. exists (take n b). split_and!; [done| |done|].
      + unfold b. rewrite take_take. apply prefix_take.
      + intros Hz. apply (f_equal length) in Hz. unfold b, rest, len in *.
        rewrite !length_take in Hz. simpl in Hz. unfold MIN_TEXT_RANGE_BYTES in *. lia. }
  exists content. split; [|done].
  assert (len content ≤ len s - offset)%N as Hcl.
  { unfold len, rest in *. apply prefix_length in Hp. rewrite length_drop in Hp. lia. }
  unfold page, read_verified_text_range, read_range_bytes, or_err, lift.
  assert ((vf_size_bytes v <? offset)%N || negb ((MIN_TEXT_RANGE_BYTES <=? max)%N && (max <=? MAX_TEXT_RANGE_BYTES)%N)
          = false) as ->.
  { rewrite orb_false_iff, negb_false_iff, andb_true_iff, N.ltb_ge, !N.leb_le. lia. }
  assert (reported_size st = Ok (len s)) as Hsize.
  { unfold reported_size, u64_try_from. rewrite Hs. destruct (Z.ltb_spec (Z.of_N (len s)) 0); [lia|].
    by rewrite N2Z.id. }
  assert (utf8_valid content = true → starts_inside b = false) as Hin.
  { intros _. assert (starts_inside rest = false) as Hr by by apply starts_inside_valid. unfold b.
    destruct rest as [|x rest']; [by rewrite take_nil|]. by destruct (N.to_nat max). }
  assert (checked_add64 offset (len b) = Some (offset + len b)%N) as Hadd.
  { apply checked_add64_Some. unfold MAX_TEXT_RANGE_FILE_BYTES, u64_max in *. split; [done|lia]. }
  assert (checked_add64 offset (len content) = Some (offset + len content)%N) as Hadd'.
  { apply checked_add64_Some. unfold MAX_TEXT_RANGE_FILE_BYTES, u64_max in *. split; [done|lia]. }
  cbn -[take_bytes is_file reported_size starts_inside checked_add64 text_of_range N.leb len].
  rewrite Hf, Hsize. cbn -[take_bytes starts_inside checked_add64 text_of_range N.leb len N.eqb].
  rewrite Hv, N.eqb_refl. cbn -[take_bytes starts_inside checked_add64 text_of_range N.leb len].
  rewrite take_bytes_take. fold rest. fold b. rewrite (Hin Hcv), Hadd.
  cbn -[checked_add64 text_of_range N.leb len]. rewrite Hc. cbn -[checked_add64 N.leb len]. by rewrite Hadd'.
Qed.

(** C25: pages of text tile a file.  Asked page by page from the start, each time
    from the offset the last page ended at, a valid UTF-8 file that does not
    change comes back whole: no page splits a character, none is lost or given
    twice, and after at most as many pages as the file has bytes (and one more)
    the end is reported.  The page size may be anything the tool accepts. *)
Theorem text_pages_tile st s v max :
  utf8_valid s = true → is_file st = true → st_size st = Z.of_N (len s) → vf_size_bytes v = len s →
  (len s ≤ MAX_TEXT_RANGE_FILE_BYTES)%N → (MIN_TEXT_RANGE_BYTES ≤ max ≤ MAX_TEXT_RANGE_BYTES)%N →
  read_pages (S (length s)) st s v 0 max = Some s.
Proof.
  intros Hvalid Hf Hs Hv Hsmall Hm.
  assert (∀ n done rest, s = done ++ rest → utf8_valid rest = true → length rest < n →
            read_pages n st s v (len done) max = Some rest) as H.
  { induction n as [|n IH]; intros done rest -> Hr Hn; [lia|]. cbn [read_pages].
    assert (drop (N.to_nat (len done)) (done ++ rest) = rest) as Hd.
    { unfold len. by rewrite Nat2N.id, drop_app_length. }
    assert (len (done ++ rest) = len done + len rest)%N as Hl by (unfold len; rewrite length_app; lia).
    destruct (page_eq st (done ++ rest) v (len done) max) as (content & -> & Hp & Hcv & Hne);
      rewrite ?Hd; try done; [lia|]. rewrite Hd in Hp. destruct Hp as [more ->]. simpl trr_eof. simpl trr_content.
    assert (len (content ++ more) = len content + len more)%N as Hl' by (unfold len; rewrite length_app; lia).
    destruct (N.leb_spec (len (done ++ content ++ more)) (len done + len content)) as [Hle|Hlt].
    - assert (more = []) as -> by (destruct more; [done|]; unfold len in *; simpl in *; lia).
      by rewrite app_nil_r.
    - replace (len done + len content)%N with (len (done ++ content)) by (unfold len; rewrite length_app; lia).
      rewrite (IH (done ++ content) more).
      + done.
      + by rewrite <-app_assoc.
      + by eapply utf8_valid_drop.
      + assert (content ≠ []) as Hc by (intros ->; specialize (Hne eq_refl); unfold len in *; simpl in *; lia).
        destruct content; [done|]. rewrite length_app in Hn. simpl in Hn. lia. }
  apply (H (S (length s)) [] s); [done|done|lia].
Qed.

(** ** Digests *)

(** What the reads of a run answered, in order. *)
Definition answered (e : event) : bytes :=
  match e with
  | Ev (Read _ n) r => match r with Ok b => take_bytes n b | Err _ => [] end
  | _ => []
  end.
Fixpoint bytes_read (h : history) : bytes :=
  match h with [] => [] | e :: h => bytes_read h ++ answered e end.

Lemma len_take_bytes n l : (len (take_bytes n l) ≤ n)%N.
Proof. rewrite take_bytes_take. unfold len. rewrite length_take. lia. Qed.

(** The file was read to its end: the last read answered nothing. *)
Definition read_out (file : fd) (h : history) : Prop :=
  ∃ n b h0, h = Ev (Read file n) (Ok b) :: h0 ∧ take_bytes n b = [] ∧ (0 < n)%N.

Lemma hash_rounds_safe file :
  safe (λ _ _, True) (rounds HASH_ROUNDS (hash_round file) ([], (MAX_HASH_FILE_BYTES + 1)%N)) []
    (λ r h, match r with
       | Ok (inl _) => False
       | Ok (inr hashed) => hashed = bytes_read h ∧ (len hashed ≤ MAX_HASH_FILE_BYTES)%N ∧ read_out file h
       | Err _ => True end).
Proof.
  eapply (safe_rounds _ (λ '(hashed, remaining) h,
      hashed = bytes_read h ∧ (len hashed + remaining = MAX_HASH_FILE_BYTES + 1)%N
      ∧ (len hashed ≤ MAX_HASH_FILE_BYTES)%N)
    (λ r h, match r with Ok hashed => hashed = bytes_read h ∧ (len hashed ≤ MAX_HASH_FILE_BYTES)%N
                                      ∧ read_out file h | Err _ => True end) snd);
    [|done|vm_compute; done].
  intros [hashed remaining] h (-> & Hsum & Hle). unfold hash_round.
  assert ((remaining =? 0)%N = false) as -> by (apply N.eqb_neq; lia).
  apply safe_bind, safe_or_err. split; [done|]. intros [b|e]; [|done].
  cbn [safe fmap Result_fmap map_err]. set (n := N.min HASH_BUFFER_BYTES remaining). pose proof (len_take_bytes n b) as Hn.
  destruct (bytes_eqb (take_bytes n b) []) eqn:E; reflect_guards.
  - apply safe_mret. split_and!; [simpl; by rewrite E, app_nil_r|done|]. exists n, b, h.
    split_and!; [done..|]. unfold n, HASH_BUFFER_BYTES. lia.
  - assert (0 < len (take_bytes n b))%N as Hpos.
    { unfold len. destruct (take_bytes n b); [done|]. simpl. lia. }
    apply safe_bind, safe_lift. destruct (checked_add64 _ _) as [next|] eqn:Ea; [|done].
    apply checked_add64_Some in Ea as [-> _]. simpl.
    destruct (MAX_HASH_FILE_BYTES <? _)%N eqn:El; [done|]. reflect_guards. simpl. split; [|lia].
    assert (len (bytes_read h ++ take_bytes n b) = len (bytes_read h) + len (take_bytes n b))%N as ->
      by (unfold len; rewrite length_app; lia).
    split_and!; [done| |done]. unfold n in *. lia.
Qed.

(** A digest is of the whole file.  The hashing loop always ends within its
    rounds, whatever the reads answer; and a digest is given only when a read of
    at least one byte answered nothing, that is at the end of the file: it is the
    SHA-256 of everything the reads answered, in order, in lower-case
    hexadecimal, with the number of those bytes, which is within the limit. *)
Theorem hash_file_exact file :
  (∀ st h, ¬ exec (rounds HASH_ROUNDS (hash_round file) ([], (MAX_HASH_FILE_BYTES + 1)%N)) []
               (Ok (inl st)) h) ∧
  (∀ r h, exec (hash_reader file) [] (Ok r) h →
    decode_hex_pairs (hf_digest r) = Some (sha256 (bytes_read h)) ∧
    hf_size_bytes r = len (bytes_read h) ∧ (hf_size_bytes r ≤ MAX_HASH_FILE_BYTES)%N ∧ read_out file h).
Proof.
  split.
  - intros st h He. by eapply safe_exec in He as [HQ _]; [|done|apply hash_rounds_safe].
  - intros r h He. eapply (exec_safe_ok _ _ _ (λ r h, _)) in He; [exact He|]. clear He.
    apply safe_bind. eapply safe_mono; [apply hash_rounds_safe|]. intros [[st|hashed]|e] h'; [done| |done].
    intros (-> & Hle & Hr). apply safe_mret. simpl. split_and!; [apply decode_encode_hex|done..].
Qed.
End ranges.

(** ** Examples *)

(** Two letters, a character of three bytes, and one more letter. *)
Definition example_text : bytes := [x61; x62; xe2; x82; xac; x63].
Definition example_stat : Stat := mkStat 33152 7 9 1 6 1000 0 1000.
Definition example_file : VerifiedRegularFile := mkVerified 3%N 6.
Definition run_stable {A} (p : fs AppError A) := run (stable example_stat example_text) p 0%N [].

Lemma run_stable_exec {A} (p : fs AppError A) : exec p [] (run_stable p).1.2 (run_stable p).2.
Proof.
  unfold run_stable. destruct (run _ p 0%N []) as [[w r] h] eqn:E. simpl. by eapply run_exec.
Qed.

Lemma text_range_exact_witness :
  ∃ r h, exec (read_verified_text_range example_file 0 4) [] (Ok r) h ∧ trr_content r = [x61; x62] ∧
    (trr_eof r = true ↔ (6 ≤ 0 + len (trr_content r))%N).
Proof.
  pose proof (run_stable_exec (read_verified_text_range example_file 0 4)) as He.
  assert ((run_stable (read_verified_text_range example_file 0 4)).1.2 = Ok (mkTextRead [x61; x62] 6 false)) as Hr
    by (vm_compute; reflexivity).
  rewrite Hr in He. destruct (text_range_exact _ _ _ _ _ He) as (_ & _ & answer & st & _ & _ & _ & _ & _ & _ & _ & _ & H).
  eexists _, _. split; [exact He|]. split; [reflexivity|exact H].
Defined.

Lemma text_pages_tile_witness : read_pages 7 example_stat example_text example_file 0 4 = Some example_text.
Proof.
  apply (text_pages_tile example_stat example_text example_file 4);
    [vm_compute; reflexivity..|vm_compute; discriminate|split; vm_compute; discriminate].
Defined.

Lemma binary_range_exact_witness :
  ∃ r h, exec (read_verified_binary_range example_file 2 4) [] (Ok r) h ∧ brr_bytes r = drop 2 example_text ∧
    (2 ≤ vf_size_bytes example_file)%N.
Proof.
  pose proof (run_stable_exec (read_verified_binary_range example_file 2 4)) as He.
  assert ((run_stable (read_verified_binary_range example_file 2 4)).1.2
          = Ok (mkBinaryRead (drop 2 example_text) 6 true)) as Hr by (vm_compute; reflexivity).
  rewrite Hr in He. destruct (proj1 (binary_range_exact example_file 2 4) _ _ He) as [H _].
  eexists _, _. split; [exact He|]. split; [reflexivity|exact H].
Defined.

Lemma hash_file_exact_witness :
  ∃ r h, exec (hash_reader (C := example_crypto) 3%N) [] (Ok r) h ∧ bytes_read h = example_text ∧
    decode_hex_pairs (hf_digest r) = Some (sha256 (Crypto := example_crypto) example_text) ∧ hf_size_bytes r = 6%N.
Proof.
  pose (p := hash_reader (C := example_crypto) 3%N).
  pose proof (run_stable_exec p) as He.
  destruct (run_stable p).1.2 as [r|] eqn:Hr; [|vm_compute in Hr; discriminate Hr].
  assert (bytes_read (run_stable p).2 = example_text) as Hb by (vm_compute; reflexivity).
  pose proof (proj2 (hash_file_exact (C := example_crypto) 3%N) _ _ He) as (H1 & H2 & _). rewrite Hb in H1, H2.
  exists r, (run_stable p).2. split; [exact He|]. split; [exact Hb|]. split; [exact H1|exact H2].
Defined.
End FsReading.
