(* ===== verification/FsBounds.v ===== *)
(** * The traversals stay within their bounds

    Listing, path discovery and text search end, examine and return no more than
    their limits, and return only what was asked for, whatever the directories
    hold and however they change. *)

From stdpp Require Import sorting.
From S2P Require Import Prelude RustStd RustPath AppErrors FsCalls SafeRoots FsPrepare FsReads.
From S2P Require Import FsTraverse FsMutations FsLogic FsGate.

Module FsBounds.
Import AppErrors SafeRoots FsPrepare FsReads FsTraverse.

(** ** Sorted maps *)

Lemma btree_insert_Forall {V} (P : bytes * V → Prop) k v m :
  P (k, v) → Forall P m → Forall P (btree_insert k v m).1.
Proof.
  intros Hk. induction 1 as [|[k' v'] m Hk' Hm IH]; simpl; [by repeat constructor|].
  destruct (bytes_eqb k k'); [by constructor|]. destruct (bytes_leb k k'); [by repeat constructor|].
  destruct (btree_insert k v m) as [m' r]. by constructor.
Qed.
Lemma btree_insert_length {V} k (v : V) m : length (btree_insert k v m).1 ≤ S (length m).
Proof.
  induction m as [|[k' v'] m IH]; simpl; [lia|].
  destruct (bytes_eqb k k'); simpl; [lia|]. destruct (bytes_leb k k'); simpl; [lia|].
  destruct (btree_insert k v m) as [m' r]. simpl in *. lia.
Qed.
Lemma btree_pop_last_Some {V} (m : list (bytes * V)) rest e :
  btree_pop_last m = Some (rest, e) → m = rest ++ [e].
Proof.
  revert rest; induction m as [|e' m IH]; intros rest; simpl; [done|].
  destruct (btree_pop_last m) as [[r l]|] eqn:E; intros [= <- <-].
  - by rewrite (IH r).
  - destruct m as [|x m]; [done|]. simpl in E. by destruct (btree_pop_last m) as [[??]|].
Qed.
Lemma btree_pop_last_None {V} (m : list (bytes * V)) : btree_pop_last m = None → m = [].
Proof. destruct m as [|e m]; simpl; [done|]. by destruct (btree_pop_last m) as [[??]|]. Qed.

(** ** Results of runs, whatever the calls answer *)

Section returns.
Context {A : Type}.

(** [Q] holds of whatever [p] returns. *)
Fixpoint returns (p : prog A) (Q : A → Prop) : Prop :=
  match p with Ret a => Q a | Do c k => ∀ r, returns (k r) Q end.

Lemma returns_safe (p : prog A) Q h : returns p Q → safe (λ _ _, True) p h (λ a _, Q a).
Proof. revert h; induction p as [a|c k IH]; simpl; intros h H; [done|]. split; [done|]. intros r. by apply IH. Qed.
Lemma returns_exec (p : prog A) Q h a h' : exec p h a h' → returns p Q → Q a.
Proof. induction 1; simpl; eauto. Qed.
Lemma returns_mono (p : prog A) (Q Q' : A → Prop) : (∀ a, Q a → Q' a) → returns p Q → returns p Q'.
Proof. intros H. induction p; simpl; eauto. Qed.
Lemma returns_true (p : prog A) : returns p (λ _, True).
Proof. induction p; simpl; eauto. Qed.
End returns.

Definition ok_of {E A} (Q : A → Prop) (r : Result E A) : Prop := match r with Ok a => Q a | Err _ => True end.

Lemma returns_prog_bind {A B} (p : prog A) (f : A → prog B) Q :
  returns p (λ a, returns (f a) Q) → returns (prog_bind p f) Q.
Proof. induction p as [a|c k IH]; simpl; eauto. Qed.

Section ok_rules.
Context {E A B : Type} (Q : B → Prop).
Lemma returns_bind (R : A → Prop) (p : fs E A) (f : A → fs E B) :
  returns p (ok_of R) → (∀ a, R a → returns (f a) (ok_of Q)) → returns (p ≫= f) (ok_of Q).
Proof. intros Hp Hf. apply returns_prog_bind. eapply returns_mono; [|exact Hp]. intros [a|e]; simpl; eauto. Qed.
Lemma returns_attempt {E'} (p : fs E' A) (f : Result E' A → fs E B) :
  (∀ r, returns (f r) (ok_of Q)) → returns (attempt p f) (ok_of Q).
Proof. intros Hf. apply returns_prog_bind. eapply returns_mono; [|apply returns_true]. eauto. Qed.
Lemma returns_any (p : fs E A) (f : A → fs E B) :
  (∀ a, returns (f a) (ok_of Q)) → returns (p ≫= f) (ok_of Q).
Proof.
  intros Hf. apply (returns_bind (λ _, True)); [|eauto].
  eapply returns_mono; [|apply returns_true]. by intros [].
Qed.
End ok_rules.

Lemma returns_lift {E A} (r : Result E A) (Q : A → Prop) : ok_of Q r → returns (lift r) (ok_of Q).
Proof. done. Qed.

(** The loop rule of [safe_rounds] without histories. *)
Lemma returns_rounds {E A B} (inv : A → Prop) (Q : B → Prop) (measure : A → N) d (body : A → fs E (A + B)) a :
  (∀ a, inv a → returns (body a) (ok_of (λ r, match r with
     | inl a' => inv a' ∧ (measure a' < measure a)%N | inr b => Q b end))) →
  inv a → (measure a < 2 ^ N.of_nat d)%N →
  returns (rounds d body a) (ok_of (λ r, match r with inl _ => False | inr b => Q b end)).
Proof.
  intros Hb Hi Hm.
  assert (∀ (p : prog (Result E (A + B))) R, safe (λ _ _, True) p [] (λ a _, R a) → returns p R) as Hsafe.
  { intros p R. generalize ([] : history) as h. induction p as [r|c k IH]; simpl; [done|].
    intros h [_ Hk] r. by eapply IH. }
  apply Hsafe. eapply safe_mono.
  - eapply (safe_rounds _ (λ a _, inv a) (λ r _, match r with Ok b => Q b | Err _ => True end) measure);
      [|exact Hi|exact Hm].
    intros a' h Ha. eapply safe_mono; [apply returns_safe, Hb, Ha|]. by intros [[]|].
  - by intros [[]|].
Qed.

(** ** Strings *)

Lemma starts_with_true p s : starts_with p s = true ↔ ∃ b, s = p ++ b.
Proof.
  unfold starts_with. rewrite bytes_eqb_true. split.
  - intros <-. exists (drop (length p) s). by rewrite take_drop.
  - intros [b ->]. by rewrite take_app_length.
Qed.
Lemma str_contains_true s p : str_contains s p = true ↔ ∃ a b, s = a ++ p ++ b.
Proof.
  induction s as [|c s IH]; cbn [str_contains]; rewrite orb_true_iff, starts_with_true.
  - split; [intros [[b Hb]|]; [by exists [], b|done]|]. intros (a & b & H). left. destruct a; [|done]. by exists b.
  - rewrite IH. split.
    + intros [[b ->]|(a & b & ->)]; [by exists [], b|by exists (c :: a), b].
    + intros ([|c' a] & b & H); [left; by exists b|right]. injection H as <- ->. by exists a, b.
Qed.

(** ** Where an entry was found *)

Section traversals.
Context {FM : FileModes} {T : Chrono} {J : JsonLength}.

(** A path reached from the root through names a traversal looks at. *)
Definition good_name (n : bytes) : Prop := skipped_name n = false.
Definition reached (root : bytes) (max_depth : N) (path : bytes) : Prop :=
  ∃ names, path = foldl path_join root names ∧ names ≠ [] ∧ (count names ≤ max_depth)%N ∧
    Forall good_name names.
(** A queued directory: the root, or one reached above the last level. *)
Definition queued_ok (root : bytes) (max_depth : N) (q : Queued) : Prop :=
  ∃ names, q.1.2 = foldl path_join root names ∧ q.2 = (count names + 1)%N ∧ (q.2 ≤ max_depth)%N ∧
    Forall good_name names.

Lemma queued_child root max_depth d p depth name :
  queued_ok root max_depth (d, p, depth) → good_name name → reached root max_depth (path_join p name).
Proof.
  intros (names & Hp & Hd & Hle & Hn) Hname. simpl in *. exists (names ++ [name]).
  rewrite foldl_app, <-Hp. unfold count in *. rewrite length_app. simpl.
  split_and!; [done|by destruct names|lia|]. apply Forall_app. by repeat constructor.
Qed.
Lemma queued_push root max_depth d p depth name d' :
  queued_ok root max_depth (d, p, depth) → good_name name → (depth < max_depth)%N →
  queued_ok root max_depth (d', path_join p name, (depth + 1)%N).
Proof.
  intros (names & Hp & Hd & Hle & Hn) Hname Hlt. simpl in *. exists (names ++ [name]).
  rewrite foldl_app, <-Hp. unfold count in *. rewrite length_app. simpl.
  split_and!; [done|lia|lia|]. apply Forall_app. by repeat constructor.
Qed.

(** ** Path discovery *)

Section find.
Context (query : bytes) (kind_filter : FindPathFilter) (root : bytes) (max_depth : N).

Definition find_match_ok (m : FindPathMatch) : Prop :=
  filter_matches kind_filter (fm_kind m) = true ∧
  ∃ dir name, fm_path m = to_string_lossy (path_join dir name) ∧ reached root max_depth (path_join dir name)
    ∧ utf8_valid name = true ∧ good_name name ∧ ∃ a b, name = a ++ query ++ b.

Definition find_ok (st : FindPathsState) : Prop :=
  (fs_entries_examined st ≤ MAX_FIND_ENTRIES)%N ∧ (count (fs_matches st) ≤ MAX_FIND_MATCHES)%N ∧
  Forall find_match_ok (fs_matches st).

Definition find_candidate_ok (dir_path : bytes) (c : bytes * FindPendingEntry) : Prop :=
  fp_name c.2 = c.1 ∧ fp_display_path c.2 = path_join dir_path c.1 ∧ utf8_valid c.1 = true ∧ good_name c.1.

Lemma from_utf8_Some b b' : from_utf8 b = Some b' → b' = b ∧ utf8_valid b = true.
Proof. unfold from_utf8. destruct (utf8_valid b) eqn:E; naive_solver. Qed.

Lemma find_candidates_spec dir_fd dir_path ids entries : ∀ candidates st,
  find_ok st → Forall (find_candidate_ok dir_path) candidates →
  returns (find_candidates dir_fd dir_path ids entries candidates st) (ok_of (λ '(candidates', st'),
    find_ok st' ∧ Forall (find_candidate_ok dir_path) candidates' ∧
    (count candidates' + fs_entries_examined st ≤ count candidates + fs_entries_examined st')%N)).
Proof.
  induction entries as [|entry entries IH]; intros candidates st Hst Hc; cbn [find_candidates];
    [split_and!; [done..|lia]|].
  destruct (MAX_FIND_ENTRIES <=? fs_entries_examined st)%N eqn:Ee; reflect_guards;
    [split_and!; [done..|simpl; lia]|].
  destruct entry as [name|e]; [|by apply (IH candidates (find_unreadable st))].
  destruct (skipped_name name) eqn:Eskip; [by apply IH|].
  assert (find_ok (find_examined st)) as Hst'.
  { destruct Hst as (? & ? & ?). split_and!; [simpl; lia|done..]. }
  (* the entry counted against the limit *)
  assert (∀ candidates' st', find_ok st' → fs_entries_examined st' = (fs_entries_examined st + 1)%N →
    Forall (find_candidate_ok dir_path) candidates' → (count candidates' ≤ count candidates + 1)%N →
    returns (find_candidates dir_fd dir_path ids entries candidates' st') (ok_of (λ '(c', s'),
      find_ok s' ∧ Forall (find_candidate_ok dir_path) c' ∧
      (count c' + fs_entries_examined st ≤ count candidates + fs_entries_examined s')%N))) as Hnext.
  { intros c' s' Hs' He Hc' Hn. eapply returns_mono; [|by apply IH]. intros [[c2 s2]|]; [|done].
    intros (? & ? & ?). split_and!; [done..|lia]. }
  destruct (from_utf8 name) as [key|] eqn:Eu; [|apply Hnext; [done..|lia]].
  apply from_utf8_Some in Eu as [-> Hu].
  apply returns_attempt. intros [metadata|]; [|apply Hnext; [done..|lia]].
  destruct (stat_matches_runtime_quarantine metadata ids); [apply Hnext; [done..|lia]|].
  assert (∀ kind, returns (find_candidates dir_fd dir_path ids entries
            (btree_insert name (mkFindPending name (path_join dir_path name) kind) candidates).1
            (find_examined st)) (ok_of (λ '(c', s'), find_ok s' ∧ Forall (find_candidate_ok dir_path) c' ∧
      (count c' + fs_entries_examined st ≤ count candidates + fs_entries_examined s')%N))) as Hinsert.
  { intros kind. apply Hnext; [done|done|by apply btree_insert_Forall|].
    pose proof (btree_insert_length name (mkFindPending name (path_join dir_path name) kind) candidates).
    unfold count. lia. }
  destruct (is_file metadata); [apply Hinsert|]. destruct (is_dir metadata); [apply Hinsert|].
  apply Hnext; [done..|lia].
Qed.

Lemma find_visit_spec dir_fd dir_path depth candidates : ∀ queue st,
  queued_ok root max_depth (dir_fd, dir_path, depth) →
  find_ok st → Forall (find_candidate_ok dir_path) candidates → Forall (queued_ok root max_depth) queue →
  returns (find_visit query kind_filter dir_fd depth max_depth candidates queue st)
    (ok_of (λ '(_, queue', st'), find_ok st' ∧ fs_entries_examined st' = fs_entries_examined st ∧
       Forall (queued_ok root max_depth) queue' ∧ (count queue' ≤ count queue + count candidates)%N)).
Proof.
  intros queue st Hd. revert queue st.
  induction candidates as [|[key pending] candidates IH]; intros queue st Hst Hc Hq; cbn [find_visit];
    [split_and!; [done..|unfold count; simpl; lia]|].
  apply Forall_cons in Hc as [(Hname & Hpath & Hu & Hgood) Hc]. simpl in *.
  destruct (MAX_FIND_MATCHES <=? count (fs_matches st))%N eqn:Em; reflect_guards;
    [split_and!; [done..|unfold count; simpl; lia]|].
  set (st1 := if str_contains key query && _ then _ else _).
  assert (find_ok st1 ∧ fs_entries_examined st1 = fs_entries_examined st) as [Hst1 He1].
  { subst st1. destruct (str_contains key query && _) eqn:E; [|done]. apply andb_true_iff in E as [Ec Ef].
    destruct Hst as (? & ? & ?). split; [|done]. split_and!; [done| |].
    - unfold count in *. simpl. rewrite length_app. simpl. lia.
    - apply Forall_app. split; [done|]. repeat constructor; [done|]. exists dir_path, key. rewrite <-Hpath.
      split_and!; [done| |done..|by apply str_contains_true]. rewrite Hpath. by eapply queued_child. }
  assert (∀ queue' st', find_ok st' → fs_entries_examined st' = fs_entries_examined st →
    Forall (queued_ok root max_depth) queue' → (count queue' ≤ count queue + 1)%N →
    returns (find_visit query kind_filter dir_fd depth max_depth candidates queue' st')
      (ok_of (λ '(_, q, s'), find_ok s' ∧ fs_entries_examined s' = fs_entries_examined st ∧
         Forall (queued_ok root max_depth) q ∧ (count q ≤ count queue + count ((key, pending) :: candidates))%N)))
    as Hnext.
  { intros q' s' Hs' He Hq' Hn. eapply returns_mono; [|by apply IH]. intros [[[? q2] s2]|]; [|done].
    intros (? & ? & ? & ?). split_and!; [done|congruence|done|]. unfold count in *. simpl in *. lia. }
  destruct (bool_decide (fp_kind pending = FindDirectory) && _) eqn:Ed; [|apply Hnext; [done..|lia]].
  apply andb_true_iff in Ed as [_ Hlt%N.ltb_lt].
  apply returns_attempt. intros [child_fd|]; apply Hnext; try done; [| |lia].
  - apply Forall_app. split; [done|]. repeat constructor. rewrite Hpath. by eapply queued_push.
  - unfold count. rewrite length_app. simpl. lia.
Qed.

Definition find_measure (qs : list Queued * FindPathsState) : N :=
  (count qs.1 + (MAX_FIND_ENTRIES - fs_entries_examined qs.2))%N.

Lemma find_round_spec qs :
  find_ok qs.2 ∧ Forall (queued_ok root max_depth) qs.1 →
  returns (find_round query kind_filter max_depth qs) (ok_of (λ r, match r with
    | inl qs' => (find_ok qs'.2 ∧ Forall (queued_ok root max_depth) qs'.1) ∧ (find_measure qs' < find_measure qs)%N
    | inr st => find_ok st end)).
Proof.
  destruct qs as [[|[[dir_fd dir_path] depth] queue] st]; cbn [find_round]; [by intros []|]. intros [Hst Hq].
  apply Forall_cons in Hq as [Hd Hq]. simpl in Hst. destruct (find_exhausted st); [done|].
  apply returns_any. intros entries. apply returns_any. intros ids.
  eapply returns_bind; [by apply find_candidates_spec|]. intros [candidates st1] (Hst1 & Hc & Hn). simpl in Hn.
  eapply returns_bind; [by apply (find_visit_spec _ dir_path)|].
  intros [[ended queue'] st2] (Hst2 & He & Hq' & Hn').
  destruct ended; [done|]. split; [done|]. unfold find_measure, count in *. simpl in *.
  destruct Hst1 as (? & _ & _). lia.
Qed.

Lemma collect_path_matches_spec root_fd :
  (1 ≤ max_depth)%N →
  returns (collect_path_matches query kind_filter root_fd root max_depth)
    (ok_of (λ o, ∃ st, o = Some st ∧ find_ok st)).
Proof.
  intros Hdepth. eapply returns_bind.
  - eapply (returns_rounds _ find_ok find_measure); [apply find_round_spec| |vm_compute; done].
    split; [by split_and!; [done|done|constructor]|]. repeat constructor. exists []. by split_and!.
  - intros [qs|st] H; [done|]. by exists st.
Qed.

Lemma find_fit_Ok fuel : ∀ r r',
  find_fit fuel r = Ok r' →
  fr_matches r' `prefix_of` fr_matches r ∧ fr_entries_examined r' = fr_entries_examined r ∧
  fr_max_depth r' = fr_max_depth r ∧ fr_path r' = fr_path r ∧
  (fr_truncated r' = fr_truncated r ∨ fr_truncated r' = true) ∧
  (fr_truncated r' = false → fr_matches r' = fr_matches r) ∧
  ∃ n, find_paths_json r' = Ok n ∧ (n ≤ MAX_FIND_STRUCTURED_BYTES)%N.
Proof.
  induction fuel as [|fuel IH]; intros r r'; cbn [find_fit]; destruct (find_paths_json r) as [n|] eqn:Ej;
    simpl; try done; destruct (MAX_FIND_STRUCTURED_BYTES <? n)%N eqn:En; reflect_guards; try done.
  - intros [= <-]. split_and!; eauto.
  - destruct (fr_matches r) as [|m ms] eqn:Em; [done|]. intros (Hp & H1 & H2 & H3 & H4 & H5 & H6)%IH.
    simpl in *. assert (fr_truncated r' = true) as Ht by (by destruct H4). split_and!; [|done..|by right|congruence|done].
    etrans; [exact Hp|]. exists [List.last (m :: ms) m]. by apply app_removelast_last.
  - intros [= <-]. split_and!; eauto.
Qed.
End find.

Lemma bytes_leb_total a b : bytes_leb a b = true ∨ bytes_leb b a = true.
Proof.
  revert b; induction a as [|x a IH]; intros [|y b]; simpl; try (by left); try (by right).
  destruct (N.ltb_spec (byte_val x) (byte_val y)); [by left|].
  destruct (N.ltb_spec (byte_val y) (byte_val x)); [by right|]. apply IH.
Qed.
#[local] Instance find_le_total : Total find_le.
Proof. intros a b. apply bytes_leb_total. Qed.
#[local] Instance info_le_total : Total info_le.
Proof. intros a b. apply bytes_leb_total. Qed.

Lemma Sorted_prefix {A} (R : relation A) l k : l `prefix_of` k → Sorted R k → Sorted R l.
Proof.
  intros [x ->]. induction l as [|a l IH]; [constructor|]. simpl. intros H. inversion_clear H as [|? ? Hs Hh].
  constructor; [by apply IH|]. destruct l; constructor. by inversion_clear Hh.
Qed.
Lemma Forall_prefix {A} (P : A → Prop) l k : l `prefix_of` k → Forall P k → Forall P l.
Proof. intros [x ->]. by rewrite Forall_app; intros []. Qed.
Lemma count_prefix {A} (l k : list A) : l `prefix_of` k → (count l ≤ count k)%N.
Proof. intros H%prefix_length. unfold count. lia. Qed.
Lemma count_merge_sort {A} (R : relation A) `{∀ x y, Decision (R x y)} l : count (merge_sort R l) = count l.
Proof. unfold count. by rewrite merge_sort_Permutation. Qed.
Lemma clamp_bounds lo hi n : (lo ≤ hi)%N → (lo ≤ clamp lo hi n ≤ hi)%N.
Proof. unfold clamp. lia. Qed.

(** Path discovery stays within its bounds, whatever the directories hold and
    however they change: the traversal always ends within its rounds; it examines
    at most 8192 entries and returns at most 512 matches in an encoding within
    the limit; every match lies below the anchored root at no more than the depth
    asked for, through names that are neither dots nor a quarantine, contains the
    query in its own name, which is UTF-8, and is of the kind asked for; and the
    matches are sorted. *)
Theorem find_paths_bounded self path query kind_filter max_depth :
  (∀ root_fd root depth h, (1 ≤ depth)%N →
     ¬ exec (collect_path_matches query kind_filter root_fd root depth) [] (Ok None) h) ∧
  (∀ r h, exec (find_paths self path query kind_filter max_depth) [] (Ok r) h →
    ∃ a, anchor self path = Ok a ∧ query ≠ [] ∧
      (fr_entries_examined r ≤ MAX_FIND_ENTRIES)%N ∧ (count (fr_matches r) ≤ MAX_FIND_MATCHES)%N ∧
      (MIN_FIND_DEPTH ≤ fr_max_depth r ≤ MAX_FIND_DEPTH)%N ∧
      Forall (find_match_ok query kind_filter (display_path a) (fr_max_depth r)) (fr_matches r) ∧
      Sorted find_le (fr_matches r) ∧
      ∃ n, find_paths_json r = Ok n ∧ (n ≤ MAX_FIND_STRUCTURED_BYTES)%N).
Proof.
  split.
  - intros root_fd root depth h Hd He.
    eapply returns_exec in He; [|by apply (collect_path_matches_spec query kind_filter root depth)].
    by destruct He as (? & [=] & _).
  - intros r h He. eapply (returns_exec _ (ok_of (λ r, _))) in He; [exact He|]. clear He.
    set (depth := clamp MIN_FIND_DEPTH MAX_FIND_DEPTH (default MAX_FIND_DEPTH max_depth)).
    assert (MIN_FIND_DEPTH ≤ depth ≤ MAX_FIND_DEPTH)%N as Hdepth by by apply clamp_bounds.
    eapply (returns_bind _ (λ _, query ≠ [])).
    { apply returns_lift. unfold validate_find_query.
      destruct (bytes_eqb query [] || _ || _) eqn:E; [done|]. simpl. by reflect_guards. }
    intros _ Hquery. eapply (returns_bind _ (λ a, anchor self path = Ok a)).
    { apply returns_lift. by destruct (anchor self path). }
    intros a Ha. apply returns_any. intros root_fd. apply returns_any. intros target_fd.
    eapply returns_bind; [apply (collect_path_matches_spec query kind_filter); unfold MIN_FIND_DEPTH in *; lia|].
    intros o (st & -> & Hex & Hm & Hok). apply returns_lift. destruct (find_fit _ _) as [r'|] eqn:Ef; [|done].
    apply find_fit_Ok in Ef as (Hp & He & Hd & _ & _ & _ & Hn). simpl in *. exists a.
    rewrite He, Hd. split_and!; try done; try lia.
    + etrans; [by apply count_prefix|]. by rewrite count_merge_sort.
    + eapply Forall_prefix; [exact Hp|]. by rewrite merge_sort_Permutation.
    + eapply Sorted_prefix; [exact Hp|]. apply Sorted_merge_sort. apply _.
Qed.

(** ** Listing *)

Section list.
Context (root : bytes) (max_depth base : N).

Definition pending_sum (c : list (bytes * PendingEntry)) : N :=
  foldr (λ e n, pe_encoded_bytes e.2 + n)%N 0%N c.

Definition listed_ok (info : FileInfo) : Prop :=
  is_ok (file_info_json info) = true ∧
  ∃ path, fi_path info = to_string_lossy path ∧ reached root max_depth path.

Definition pending_ok (dir_path : bytes) (c : bytes * PendingEntry) : Prop :=
  good_name (pe_name c.2) ∧ pe_display_path c.2 = path_join dir_path (pe_name c.2) ∧
  fi_path (pe_info c.2) = to_string_lossy (pe_display_path c.2) ∧
  file_info_json (pe_info c.2) = Ok (pe_encoded_bytes c.2).

Lemma btree_insert_sum k v m :
  (pending_sum (btree_insert k v m).1 +
     match (btree_insert k v m).2 with Some r => pe_encoded_bytes r | None => 0 end
   = pending_sum m + pe_encoded_bytes v)%N.
Proof.
  induction m as [|[k' v'] m IH]; simpl; [lia|].
  destruct (bytes_eqb k k'); simpl; [lia|]. destruct (bytes_leb k k'); simpl; [lia|].
  destruct (btree_insert k v m) as [m' r]. simpl in *. lia.
Qed.
Lemma pending_sum_app a b : pending_sum (a ++ b) = (pending_sum a + pending_sum b)%N.
Proof. induction a as [|e a IH]; simpl; [done|]. rewrite IH. lia. Qed.

Definition fits (entries : list FileInfo) (structured_bytes : N) (c : list (bytes * PendingEntry)) : Prop :=
  c = [] ∨ list_over entries structured_bytes (pending_sum c) (count c) = false.

Lemma shrink_spec P entries sb fuel : ∀ c t,
  length c ≤ fuel → Forall P c →
  ∃ c' t', shrink_candidates fuel entries sb c (pending_sum c) t = (c', pending_sum c', t') ∧
    Forall P c' ∧ fits entries sb c'.
Proof.
  induction fuel as [|fuel IH]; intros c t Hl Hc; cbn [shrink_candidates];
    destruct (list_over entries sb (pending_sum c) (count c)) eqn:Eo.
  - destruct c; [|simpl in Hl; lia]. exists [], t. split_and!; [done..|by left].
  - exists c, t. split_and!; [done..|by right].
  - destruct (btree_pop_last c) as [[rest [k removed]]|] eqn:Ep.
    + apply btree_pop_last_Some in Ep as ->. rewrite length_app in Hl. simpl in Hl.
      apply Forall_app in Hc as [Hc _]. rewrite pending_sum_app. simpl.
      replace (pending_sum rest + (pe_encoded_bytes removed + 0) - pe_encoded_bytes removed)%N
        with (pending_sum rest) by lia. apply IH; [lia|done].
    + apply btree_pop_last_None in Ep as ->. exists [], t. split_and!; [done..|by left].
  - exists c, t. split_and!; [done..|by right].
Qed.

Lemma list_candidates_spec dir_fd dir_path ids entries sb read_dir : ∀ c t,
  fits entries sb c → Forall (pending_ok dir_path) c →
  returns (list_candidates dir_fd dir_path ids entries sb read_dir c (pending_sum c) t)
    (ok_of (λ '(c', _), fits entries sb c' ∧ Forall (pending_ok dir_path) c')).
Proof.
  induction read_dir as [|entry read_dir IH]; intros c t Hf Hc; cbn [list_candidates]; [done|].
  apply returns_any. intros name. destruct (skipped_name name) eqn:Es; [by apply IH|].
  apply returns_attempt. intros [metadata|]; [|by apply IH].
  destruct (is_symlink metadata || _); [by apply IH|].
  apply returns_any. intros modified.
  set (info := mkFileInfo _ _ _ _). eapply (returns_bind _ (λ n, file_info_json info = Ok n)).
  { apply returns_lift. by destruct (file_info_json info). }
  intros enc Henc. set (v := mkPending info name (path_join dir_path name) enc).
  pose proof (btree_insert_sum (fi_path info) v c) as Hsum.
  pose proof (btree_insert_Forall (pending_ok dir_path) (fi_path info) v c) as HF.
  destruct (btree_insert (fi_path info) v c) as [c1 replaced]. simpl in Hsum, HF.
  assert (match replaced with Some r => pending_sum c + enc - pe_encoded_bytes r | None => pending_sum c + enc end
          = pending_sum c1)%N as Hcb by (destruct replaced; lia).
  cbn zeta. rewrite Hcb.
  destruct (shrink_spec (pending_ok dir_path) entries sb (length c1) c1 t) as (c2 & t2 & -> & Hc2 & Hf2);
    [done| |by apply IH]. apply HF; [|done]. by split_and!.
Qed.

Definition entries_sum (entries : list FileInfo) : N := infos_length entries.
Lemma infos_length_app a b : infos_length (a ++ b) = (infos_length a + infos_length b)%N.
Proof. induction a as [|e a IH]; simpl; [done|]. rewrite IH. lia. Qed.

(** The bytes counted so far are those of the entries. *)
Definition list_counted (st : ListState) : Prop :=
  (ls_structured_bytes st = base + infos_length (ls_entries st) + (count (ls_entries st) - 1))%N.

Definition list_ok (st : ListState) : Prop :=
  (count (ls_entries st) ≤ MAX_LIST_ENTRIES)%N ∧ Forall listed_ok (ls_entries st) ∧ list_counted st ∧
  (ls_entries st = [] ∨ (ls_structured_bytes st ≤ MAX_LIST_STRUCTURED_BYTES)%N).

Lemma count_app {A} (a b : list A) : count (a ++ b) = (count a + count b)%N.
Proof. unfold count. rewrite length_app. lia. Qed.

Lemma list_push_spec dir_fd dir_path depth c : ∀ st,
  queued_ok root max_depth (dir_fd, dir_path, depth) →
  Forall (pending_ok dir_path) c → Forall listed_ok (ls_entries st) → list_counted st →
  Forall (queued_ok root max_depth) (ls_queue st) →
  returns (list_push dir_fd depth max_depth c st) (ok_of (λ st',
    Forall listed_ok (ls_entries st') ∧ list_counted st' ∧ Forall (queued_ok root max_depth) (ls_queue st') ∧
    count (ls_entries st') = (count (ls_entries st) + count c)%N ∧
    infos_length (ls_entries st') = (infos_length (ls_entries st) + pending_sum c)%N ∧
    (count (ls_queue st') ≤ count (ls_queue st) + count c)%N)).
Proof.
  intros st Hd. revert st. induction c as [|[k p] c IH]; intros st Hc He Hn Hq; cbn [list_push].
  { split_and!; try done; unfold count; simpl; lia. }
  apply Forall_cons in Hc as [(Hg & Hp & Hi & Hj) Hc]. simpl in Hg, Hp, Hi, Hj.
  set (entries := ls_entries st ++ [pe_info p]).
  set (sb := (ls_structured_bytes st + _ + pe_encoded_bytes p)%N).
  assert (infos_length entries = infos_length (ls_entries st) + pe_encoded_bytes p)%N as Hlen.
  { unfold entries. rewrite infos_length_app. simpl. unfold file_info_length. rewrite Hj. lia. }
  assert (count entries = count (ls_entries st) + 1)%N as Hcnt by (unfold entries; by rewrite count_app).
  assert (sb = base + infos_length entries + (count entries - 1))%N as Hsb.
  { rewrite Hlen, Hcnt. unfold sb. rewrite Hn. destruct (N.eqb_spec (count (ls_entries st)) 0); lia. }
  assert (Forall listed_ok entries) as Hent.
  { apply Forall_app. split; [done|]. repeat constructor; [by rewrite Hj|]. exists (pe_display_path p).
    split; [done|]. rewrite Hp. by eapply queued_child. }
  assert (∀ q, Forall (queued_ok root max_depth) q → (count q ≤ count (ls_queue st) + 1)%N →
    returns (list_push dir_fd depth max_depth c (mkListState q entries sb (ls_truncated st))) (ok_of (λ st',
      Forall listed_ok (ls_entries st') ∧ list_counted st' ∧ Forall (queued_ok root max_depth) (ls_queue st') ∧
      count (ls_entries st') = (count (ls_entries st) + count ((k, p) :: c))%N ∧
      infos_length (ls_entries st') = (infos_length (ls_entries st) + pending_sum ((k, p) :: c))%N ∧
      (count (ls_queue st') ≤ count (ls_queue st) + count ((k, p) :: c))%N))) as Hnext.
  { intros q Hq' Hcq. eapply returns_mono; [|by apply IH]. intros [st'|]; [|done]. simpl.
    intros (? & ? & ? & H1 & H2 & H3). rewrite H1, H2, Hlen, Hcnt. unfold count in *. simpl in *.
    split_and!; try done; lia. }
  destruct (fi_is_dir (pe_info p) && (depth <? max_depth)%N) eqn:Ed; [|apply Hnext; [done|lia]].
  apply andb_true_iff in Ed as [_ Hlt%N.ltb_lt].
  apply returns_attempt. intros [child_fd|]; apply Hnext; [| |done|lia].
  - apply Forall_app. split; [done|]. repeat constructor. rewrite Hp. by eapply queued_push.
  - rewrite count_app. unfold count. simpl. lia.
Qed.

Definition list_measure (st : ListState) : N :=
  (count (ls_queue st) + (MAX_LIST_ENTRIES - count (ls_entries st)))%N.

Lemma list_round_spec st :
  list_ok st ∧ Forall (queued_ok root max_depth) (ls_queue st) →
  returns (list_round max_depth st) (ok_of (λ r, match r with
    | inl st' => (list_ok st' ∧ Forall (queued_ok root max_depth) (ls_queue st')) ∧
                 (list_measure st' < list_measure st)%N
    | inr st' => list_ok st' end)).
Proof.
  intros [Hst Hq]. unfold list_round.
  destruct (ls_queue st) as [|[[dir_fd dir_path] depth] queue] eqn:Eq; [done|].
  apply Forall_cons in Hq as [Hd Hq].
  destruct ((MAX_LIST_ENTRIES <=? _)%N || _) eqn:Ex; [by destruct Hst as (? & ? & ? & ?); split_and!|].
  reflect_guards. destruct Hst as (Hcount & Hlisted & Hcounted & _).
  apply returns_any. intros entries. apply returns_any. intros ids.
  eapply returns_bind.
  { apply (list_candidates_spec dir_fd dir_path ids (ls_entries st) (ls_structured_bytes st) entries [] _);
      [by left|constructor]. }
  intros [c t] [Hf Hc]. eapply returns_bind; [by apply (list_push_spec dir_fd dir_path depth)|].
  intros st' (Hl' & Hn' & Hq' & Hcnt & Hlen & Hcq). simpl in *.
  unfold list_counted in *.
  assert ((count (ls_entries st') ≤ MAX_LIST_ENTRIES)%N ∧
          (ls_structured_bytes st' ≤ MAX_LIST_STRUCTURED_BYTES)%N) as [H1 H2].
  { rewrite Hn', Hcnt, Hlen. destruct Hf as [->|Hover].
    - unfold count in *. simpl in *. lia.
    - unfold list_over in Hover. apply orb_false_iff in Hover as [Ho1%N.ltb_ge Ho2%N.ltb_ge].
      assert (count c = 0 → pending_sum c = 0)%N as Hz by (destruct c; [done|unfold count; simpl; lia]).
      destruct (N.eqb_spec (count (ls_entries st)) 0); lia. }
  split; [split; [|done]; split; [done|]; split; [done|]; split; [done|by right]|].
  unfold list_measure. rewrite Eq, Hcnt.
  unfold count in *. simpl in *. lia.
Qed.

Lemma collect_entries_spec root_fd :
  (1 ≤ max_depth)%N →
  returns (collect_entries root_fd root max_depth base) (ok_of (λ o, ∃ st, o = Some st ∧ list_ok st)).
Proof.
  intros Hdepth. eapply returns_bind.
  - eapply (returns_rounds _ list_ok list_measure); [apply list_round_spec| |vm_compute; done].
    split; [split; [done|]; split; [constructor|]; split; [|by left]|].
    + unfold list_counted, count. simpl. lia.
    + repeat constructor. exists []. by split_and!.
  - intros [st|st] H; [done|]. by exists st.
Qed.
End list.

Lemma infos_length_perm l k : l ≡ₚ k → infos_length l = infos_length k.
Proof. induction 1; simpl; lia. Qed.

(** C24: listing stays within its bounds, whatever the directories hold and however
    they change.  The depth it works with is the one asked for, one where none is,
    brought within 1 and 5.  The traversal always ends within its rounds; at most
    4096 entries are returned, sorted by path, each reached from the anchored root
    at no more than that depth, through names that are neither dots nor a
    quarantine.  The answer can be encoded: within the limit when it has an entry,
    and otherwise in no more than its frame, the path and no entry, takes. *)
Theorem list_directory_bounded {L : JsonLengthLaws J} self path max_depth :
  let depth := clamp 1 MAX_LIST_DEPTH (default DEFAULT_LIST_DEPTH max_depth) in
  (1 ≤ depth ≤ MAX_LIST_DEPTH)%N ∧
  (∀ root_fd root depth base h, (1 ≤ depth)%N →
     ¬ exec (collect_entries root_fd root depth base) [] (Ok None) h) ∧
  (∀ r h, exec (list_directory self path max_depth) [] (Ok r) h →
    ∃ a n, anchor self path = Ok a ∧ ld_path r = to_string_lossy (display_path a) ∧
      (count (ld_entries r) ≤ MAX_LIST_ENTRIES)%N ∧
      Forall (listed_ok (display_path a) depth) (ld_entries r) ∧ Sorted info_le (ld_entries r) ∧
      list_dir_json r = Ok n ∧ (ld_entries r ≠ [] → (n ≤ MAX_LIST_STRUCTURED_BYTES)%N) ∧
      (ld_entries r = [] → ∃ base, (n ≤ base)%N ∧
         list_dir_json (mkListDir (ld_path r) [] false (ld_max_entries r) (ld_max_response_bytes r)) = Ok base)).
Proof.
  intros depth. assert (1 ≤ depth ≤ MAX_LIST_DEPTH)%N as Hdepth by by apply clamp_bounds.
  split_and!; [lia..| |].
  - intros root_fd root d base h Hd He.
    eapply returns_exec in He; [|by apply (collect_entries_spec root d base)]. by destruct He as (? & [=] & _).
  - intros r h He. eapply (returns_exec _ (ok_of (λ r, _))) in He; [exact He|]. clear He.
    eapply (returns_bind _ (λ a, anchor self path = Ok a)).
    { apply returns_lift. by destruct (anchor self path). }
    intros a Ha. apply returns_any. intros root_fd. apply returns_any. intros target_fd.
    set (empty := mkListDir _ _ _ _ _).
    eapply (returns_bind _ (λ n, list_dir_json empty = Ok n)).
    { apply returns_lift. by destruct (list_dir_json empty). }
    intros base Hbase. match goal with |- context [collect_entries _ _ ?d _] => change d with depth end.
    eapply returns_bind; [apply (collect_entries_spec (display_path a) depth base); lia|].
    intros o (st & -> & Hcount & Hlisted & Hcounted & Hfit). simpl.
    pose proof (merge_sort_Permutation info_le (ls_entries st)) as Hp.
    destruct (list_dir_json_entries _ (merge_sort info_le (ls_entries st)) (ls_truncated st) _ _ _ Hbase)
      as (n & Hn & Hnle).
    { rewrite Hp. eapply Forall_impl; [exact Hlisted|]. by intros ? []. }
    rewrite (infos_length_perm _ _ Hp), Hp in Hnle. exists a, n. split_and!; try done.
    + by rewrite count_merge_sort.
    + by rewrite Hp.
    + apply Sorted_merge_sort. apply _.
    + intros Hne. destruct Hfit as [Hz|Hle]; [rewrite Hz in Hne; done|].
      unfold list_counted, count in Hcounted. lia.
    + intros He. exists base. split; [|exact Hbase].
      rewrite He in Hp. apply Permutation_nil_l in Hp. rewrite <-Hp in Hnle. simpl in Hnle. lia.
Qed.
End traversals.
End FsBounds.
