(* ===== verification/FsSearch.v ===== *)
(** * Text search stays within its bounds and tells the truth

    The traversal of [search_text], its limits, and what a match means: the query
    stands at the reported line and column of the file as it was read. *)

From stdpp Require Import sorting.
From S2P Require Import Prelude RustStd RustPath AppErrors FsCalls SafeRoots FsPrepare FsReads.
From S2P Require Import FsTraverse FsMutations FsLogic FsGate FsExample FsReading FsBounds.

Module FsSearch.
Import AppErrors SafeRoots FsPrepare FsReads FsTraverse FsReading FsBounds.

(** ** Occurrences *)

Lemma match_indices_from_sound p s : ∀ pos skip i,
  i ∈ match_indices_from p pos skip s → ∃ a b, s = a ++ p ++ b ∧ i = pos + length a.
Proof.
  induction s as [|c s IH]; intros pos skip i; cbn [match_indices_from]; [set_solver|].
  assert (∀ pos' skip', pos' = S pos → i ∈ match_indices_from p pos' skip' s →
            ∃ a b, c :: s = a ++ p ++ b ∧ i = pos + length a) as Hstep.
  { intros pos' skip' -> (a & b & -> & ->)%IH. exists (c :: a), b. split; [done|]. simpl. lia. }
  destruct skip as [|skip]; [|by apply Hstep].
  destruct (starts_with p (c :: s)) eqn:E; [|by apply Hstep].
  intros [->|Hi]%elem_of_cons; [|by eapply Hstep].
  apply starts_with_true in E as [b Hb]. exists [], b. simpl. split; [done|lia].
Qed.

Section search.
Context {FM : FileModes} {T : Chrono} {J : JsonLength}.
Context (query root : bytes) (max_depth : N).

Notation free := (λ (_ : call) (_ : history), True).

(** The query stands at that line and column. *)
Definition located (content : bytes) (m : SearchTextMatch) : Prop :=
  ∃ index line before after, split_on NEWLINE content !! index = Some line ∧
    sm_line_number m = N.of_nat (index + 1) ∧ line = before ++ query ++ after ∧
    sm_column_byte m = N.of_nat (length before + 1).

(** A match in a file that this run opened and read to its end. *)
Definition search_match_ok (h : history) (m : SearchTextMatch) : Prop :=
  ∃ dir_fd dir name file content,
    sm_path m = to_string_lossy (path_join dir name) ∧ reached root max_depth (path_join dir name) ∧
    utf8_valid name = true ∧ Ev (Openat dir_fd name OPEN_FILE 0) (Ok file) ∈ h ∧
    Ev (ReadToEnd file) (Ok content) ∈ h ∧ utf8_valid content = true ∧ located content m.

Definition search_ok (h : history) (st : SearchState) : Prop :=
  (ss_entries_examined st ≤ MAX_SEARCH_ENTRIES)%N ∧ (ss_files_scanned st ≤ MAX_SEARCH_FILES)%N ∧
  (ss_bytes_scanned st ≤ MAX_SEARCH_TOTAL_BYTES)%N ∧ (count (ss_matches st) ≤ MAX_SEARCH_MATCHES)%N ∧
  Forall (search_match_ok h) (ss_matches st).

Lemma search_match_later h h' m : search_match_ok h m → later h h' → search_match_ok h' m.
Proof.
  intros (d & dir & n & f & c & ? & ? & ? & ? & ? & ? & ?) Hl. exists d, dir, n, f, c.
  split_and!; try done; by eapply later_elem.
Qed.
Lemma search_ok_later h h' st : search_ok h st → later h h' → search_ok h' st.
Proof.
  intros (? & ? & ? & ? & Hm) Hl. split_and!; try done.
  eapply Forall_impl; [exact Hm|]. intros m ?. by eapply search_match_later.
Qed.

Lemma content_matches_located path content m :
  m ∈ content_matches path query content → located content m ∧ sm_path m = path.
Proof.
  unfold content_matches. intros (ms & Hm & Hms)%list_elem_of_join.
  apply list_elem_of_lookup_1 in Hms as [i Hi]. rewrite list_lookup_imap in Hi.
  destruct (split_on NEWLINE content !! i) as [line|] eqn:El; [|done]. injection Hi as <-.
  apply list_elem_of_fmap in Hm as (column & -> & Hc).
  apply match_indices_from_sound in Hc as (a & b & -> & ->). split; [|done].
  exists i, (a ++ query ++ b), a, b. by split_and!.
Qed.

Lemma push_matches_spec found : ∀ st,
  (count (ss_matches st) ≤ MAX_SEARCH_MATCHES)%N →
  let st' := push_matches found st in
  (count (ss_matches st') ≤ MAX_SEARCH_MATCHES)%N ∧ ss_entries_examined st' = ss_entries_examined st ∧
  ss_files_scanned st' = ss_files_scanned st ∧ ss_bytes_scanned st' = ss_bytes_scanned st ∧
  ∀ m, m ∈ ss_matches st' → m ∈ ss_matches st ∨ m ∈ found.
Proof.
  induction found as [|m found IH]; intros st Hst; cbn [push_matches]; [split_and!; try done; by left|].
  destruct (MAX_SEARCH_MATCHES <=? _)%N eqn:E; reflect_guards; [split_and!; try done; by left|].
  destruct (IH (search_matched m st)) as (H1 & H2 & H3 & H4 & H5).
  { simpl. rewrite count_app. unfold count at 2. simpl. lia. }
  split_and!; [done..|]. intros m' [Hm|Hm]%H5; [|set_solver]. simpl in Hm. set_solver.
Qed.

(** ** One file *)

Lemma attempt_call {A} c (f : answer c → fs AppError A) h Q :
  (∀ r, safe free (f r) (Ev c r :: h) Q) → safe free (prog_bind (Do c Ret) f) h Q.
Proof. intros Hf. split; [done|exact Hf]. Qed.

Lemma scan_search_file_safe dir_fd dir pending st h :
  reached root max_depth (path_join dir (sp_name pending)) → utf8_valid (sp_name pending) = true →
  sp_display_path pending = path_join dir (sp_name pending) →
  search_ok h st → search_exhausted st = false →
  safe free (scan_search_file query dir_fd pending st) h
    (on_ok (λ st' h', search_ok h' st' ∧ ss_entries_examined st' = ss_entries_examined st)).
Proof.
  intros Hreach Hname Hpath Hst Hex. unfold scan_search_file, search_exhausted in *.
  apply orb_false_iff in Hex as [[Hfiles Hbytes]%orb_false_iff _]. reflect_guards.
  assert (∀ st' h', later h h' → search_ok h st → ss_matches st' = ss_matches st →
    ss_entries_examined st' = ss_entries_examined st → ss_files_scanned st' = ss_files_scanned st →
    ss_bytes_scanned st' = ss_bytes_scanned st →
    search_ok h' st' ∧ ss_entries_examined st' = ss_entries_examined st) as Hskip.
  { intros st' h' Hl Ho H1 H2 H3 H4. split; [|done]. apply (search_ok_later _ h') in Ho; [|done].
    unfold search_ok. by rewrite H1, H2, H3, H4. }
  destruct ((MAX_SEARCH_FILE_BYTES <? _)%N || _); [apply safe_mret, Hskip; done || is_later|].
  apply attempt_call. intros [file|]; [|apply safe_mret, Hskip; try done; is_later].
  apply attempt_call. intros [metadata|]; [|apply safe_mret, Hskip; try done; is_later].
  destruct (is_file metadata); cbn [negb]; [|apply safe_mret, Hskip; try done; is_later].
  apply safe_attempt. split; [done|]. intros [answer|]; [|apply safe_mret, Hskip; try done; is_later].
  cbn [safe fmap Result_fmap]. set (limit := (N.min _ _ + 1)%N).
  destruct ((MAX_SEARCH_FILE_BYTES <? len _)%N || _) eqn:Ebig; [apply safe_mret, Hskip; try done; is_later|].
  reflect_guards.
  assert (take_bytes limit answer = answer) as Hwhole.
  { rewrite take_bytes_take in *. unfold len in *. rewrite length_take in *. apply take_ge. unfold limit in *. lia. }
  rewrite Hwhole in *. set (h' := _ :: _ :: _ :: h). assert (later h h') as Hl by (unfold h'; is_later).
  apply (search_ok_later _ h') in Hst; [|done]. destruct Hst as (He & Hf & Hb & Hc & Hm).
  assert (search_ok h' (search_scanned (len answer) st)) as Hscan.
  { split_and!; simpl; try done; [lia|]. unfold MAX_SEARCH_TOTAL_BYTES in *. lia. }
  destruct (from_utf8 answer) as [content|] eqn:Eu; [|by apply safe_mret].
  apply from_utf8_Some in Eu as [-> Hu]. apply safe_mret. unfold on_ok.
  set (found := content_matches _ _ _).
  destruct (push_matches_spec found (search_scanned (len answer) st)) as (P1 & P2 & P3 & P4 & P5); [done|].
  split; [|by rewrite P2]. unfold search_ok. rewrite P2, P3, P4. destruct Hscan as (? & ? & ? & _ & _).
  split_and!; try done. apply Forall_forall. intros m [Hin|Hin]%P5.
  - simpl in Hin. rewrite Forall_forall in Hm. by apply Hm.
  - apply content_matches_located in Hin as [Hloc Hp].
    exists dir_fd, dir, (sp_name pending), file, answer. rewrite Hp, Hpath.
    split_and!; try done; unfold h'; in_history.
Qed.

(** ** One directory *)

Definition search_candidate_ok (dir_path : bytes) (c : bytes * SearchPendingEntry) : Prop :=
  sp_name c.2 = c.1 ∧ sp_display_path c.2 = path_join dir_path c.1 ∧ utf8_valid c.1 = true ∧ good_name c.1.

Definition same_but_examined (st st' : SearchState) : Prop :=
  ss_matches st' = ss_matches st ∧ ss_files_scanned st' = ss_files_scanned st ∧
  ss_bytes_scanned st' = ss_bytes_scanned st ∧ (ss_entries_examined st' ≤ MAX_SEARCH_ENTRIES)%N.

Lemma search_candidates_spec dir_fd dir_path ids entries : ∀ candidates st,
  (ss_entries_examined st ≤ MAX_SEARCH_ENTRIES)%N → Forall (search_candidate_ok dir_path) candidates →
  returns (search_candidates dir_fd dir_path ids entries candidates st) (ok_of (λ '(candidates', st'),
    same_but_examined st st' ∧ Forall (search_candidate_ok dir_path) candidates' ∧
    (count candidates' + ss_entries_examined st ≤ count candidates + ss_entries_examined st')%N)).
Proof.
  induction entries as [|entry entries IH]; intros candidates st Hst Hc; cbn [search_candidates];
    [split_and!; try done; lia|].
  destruct (MAX_SEARCH_ENTRIES <=? ss_entries_examined st)%N eqn:Ee; reflect_guards;
    [split_and!; try done; simpl; lia|].
  (* an entry that counted, or not, against the limit *)
  assert (∀ k candidates' st', same_but_examined st st' → (k ≤ 1)%N →
    ss_entries_examined st' = (ss_entries_examined st + k)%N →
    Forall (search_candidate_ok dir_path) candidates' → (count candidates' ≤ count candidates + k)%N →
    returns (search_candidates dir_fd dir_path ids entries candidates' st') (ok_of (λ '(c', s'),
      same_but_examined st s' ∧ Forall (search_candidate_ok dir_path) c' ∧
      (count c' + ss_entries_examined st ≤ count candidates + ss_entries_examined s')%N))) as Hnext.
  { intros k c' s' (H1 & H2 & H3 & H4) Hk He Hc' Hn. eapply returns_mono; [|by apply IH].
    intros [[c2 s2]|]; [|done]. intros ((G1 & G2 & G3 & G4) & ? & ?).
    split; [by repeat split; first [congruence|done]|]. split; [done|lia]. }
  assert (∀ st', same_but_examined st st' → ss_entries_examined st' = (ss_entries_examined st + 0)%N →
    returns (search_candidates dir_fd dir_path ids entries candidates st') (ok_of (λ '(c', s'),
      same_but_examined st s' ∧ Forall (search_candidate_ok dir_path) c' ∧
      (count c' + ss_entries_examined st ≤ count candidates + ss_entries_examined s')%N))) as Hskip.
  { intros st' H1 H2. apply (Hnext 0%N); try done; lia. }
  assert (same_but_examined st (search_examined st)) as Hex by (repeat split; simpl; lia).
  destruct entry as [name|e]; [|apply Hskip; [by split_and!|simpl; lia]].
  destruct (skipped_name name) eqn:Eskip; [apply Hskip; [by split_and!|lia]|].
  destruct (from_utf8 name) as [key|] eqn:Eu; [|apply (Hnext 1%N); try done; lia].
  apply from_utf8_Some in Eu as [-> Hu].
  apply returns_attempt. intros [metadata|]; [|apply (Hnext 1%N); try done; lia].
  destruct (stat_matches_runtime_quarantine metadata ids); [apply (Hnext 1%N); try done; lia|].
  destruct (is_symlink metadata || _); [apply (Hnext 1%N); try done; lia|].
  apply (Hnext 1%N); [done|lia|done|by apply btree_insert_Forall|].
  match goal with |- context [btree_insert name ?v candidates] =>
    pose proof (btree_insert_length name v candidates) end.
  unfold count. lia.
Qed.

Lemma safe_returns {A} (p : prog A) (R : A → Prop) h :
  returns p R → safe free p h (λ a h', later h h' ∧ R a).
Proof. intros Hp. by apply safe_later, returns_safe. Qed.

Lemma step_returns {A B} (R : A → Prop) (P : B → history → Prop) (p : fs AppError A) f h :
  returns p (ok_of R) → (∀ a h', later h h' → R a → safe free (f a) h' (on_ok P)) →
  safe free (p ≫= f) h (on_ok P).
Proof.
  intros Hp Hf. apply safe_bind. eapply safe_mono; [by apply safe_returns|].
  intros [a|e] h' [Hl HR]; [by apply Hf|done].
Qed.

Lemma step_any {A B} (P : B → history → Prop) (p : fs AppError A) f h :
  (∀ a h', later h h' → safe free (f a) h' (on_ok P)) → safe free (p ≫= f) h (on_ok P).
Proof.
  intros Hf. eapply (step_returns (λ _, True)); [|eauto].
  eapply returns_mono; [|apply returns_true]. by intros [].
Qed.

Lemma search_visit_safe dir_fd dir_path depth candidates : ∀ queue st h,
  queued_ok root max_depth (dir_fd, dir_path, depth) →
  search_ok h st → Forall (search_candidate_ok dir_path) candidates → Forall (queued_ok root max_depth) queue →
  safe free (search_visit query dir_fd depth max_depth candidates queue st) h
    (on_ok (λ '(queue', st') h', search_ok h' st' ∧ ss_entries_examined st' = ss_entries_examined st ∧
       Forall (queued_ok root max_depth) queue' ∧ (count queue' ≤ count queue + count candidates)%N)).
Proof.
  intros queue st h Hd. revert queue st h.
  induction candidates as [|[key pending] candidates IH]; intros queue st h Hst Hc Hq; cbn [search_visit];
    [apply safe_mret; split_and!; try done; lia|].
  apply Forall_cons in Hc as [(Hname & Hpath & Hu & Hgood) Hc]. simpl in Hname, Hpath, Hu, Hgood.
  destruct (search_exhausted st) eqn:Ex.
  { apply safe_mret. destruct Hst as (? & ? & ? & ? & ?).
    split_and!; try done. unfold count. simpl. lia. }
  assert (∀ queue' st' h', search_ok h' st' → ss_entries_examined st' = ss_entries_examined st →
    Forall (queued_ok root max_depth) queue' → (count queue' ≤ count queue + 1)%N →
    safe free (search_visit query dir_fd depth max_depth candidates queue' st') h'
      (on_ok (λ '(q, s') h'', search_ok h'' s' ∧ ss_entries_examined s' = ss_entries_examined st ∧
         Forall (queued_ok root max_depth) q ∧ (count q ≤ count queue + count ((key, pending) :: candidates))%N)))
    as Hnext.
  { intros q' s' h' Hs' He Hq' Hn. eapply safe_mono; [by apply IH|]. intros [[q2 s2]|] h2; [|done].
    intros (? & ? & ? & ?). split_and!; [done|congruence|done|]. unfold count in *. simpl in *. lia. }
  destruct (sp_is_dir pending).
  - destruct (N.ltb_spec depth max_depth) as [Hlt|]; [|apply Hnext; try done; lia].
    apply safe_attempt. eapply safe_mono; [apply safe_returns, returns_true|]. intros r h' [Hl _].
    apply (search_ok_later _ h') in Hst; [|done].
    destruct r as [child_fd|]; apply Hnext; try done; [| |lia].
    + apply Forall_app. split; [done|]. repeat constructor. rewrite Hpath. by eapply queued_push.
    + rewrite count_app. unfold count. simpl. lia.
  - eapply step_spec.
    + apply (scan_search_file_safe _ dir_path); rewrite ?Hname; try done. by eapply queued_child.
    + intros st' h' Hl [Hst' He']. apply Hnext; try done. lia.
Qed.

(** ** The traversal *)

Definition search_measure (qs : list Queued * SearchState) : N :=
  (count qs.1 + (MAX_SEARCH_ENTRIES - ss_entries_examined qs.2))%N.

Lemma search_round_safe qs h :
  search_ok h qs.2 ∧ Forall (queued_ok root max_depth) qs.1 →
  safe free (search_round query max_depth qs) h (λ r h', match r with
    | Ok (inl qs') => (search_ok h' qs'.2 ∧ Forall (queued_ok root max_depth) qs'.1) ∧
                      (search_measure qs' < search_measure qs)%N
    | Ok (inr st) => search_ok h' st
    | Err _ => True end).
Proof.
  intros Hinv. eapply (safe_mono _ _ _ (on_ok (λ r h', match r with
    | inl qs' => (search_ok h' qs'.2 ∧ Forall (queued_ok root max_depth) qs'.1) ∧
                 (search_measure qs' < search_measure qs)%N
    | inr st => search_ok h' st end))); [|by intros [[]|]].
  destruct qs as [[|[[dir_fd dir_path] depth] queue] st]; cbn [search_round];
    [by destruct Hinv|]. destruct Hinv as [Hst Hq].
  apply Forall_cons in Hq as [Hd Hq]. simpl in Hst.
  destruct (search_exhausted st || _) eqn:Ex.
  { apply safe_mret. by destruct Hst as (? & ? & ? & ? & ?); split_and!. }
  apply step_any. intros entries h1 Hl1.
  apply step_any. intros ids h2 Hl2.
  eapply step_returns; [apply (search_candidates_spec dir_fd dir_path); [by destruct Hst|constructor]|].
  intros [candidates st1] h3 Hl3 (Hsame & Hc & Hn). unfold count at 2 in Hn. simpl in Hn.
  assert (search_ok h3 st1) as Hst1.
  { apply (search_ok_later _ h3) in Hst; [|is_later]. destruct Hst as (_ & ? & ? & ? & ?).
    destruct Hsame as (E1 & E2 & E3 & ?). unfold search_ok. by rewrite E1, E2, E3. }
  eapply step_spec; [by apply (search_visit_safe dir_fd dir_path)|].
  intros [queue' st2] h4 Hl4 (Hst2 & He & Hq' & Hn'). apply safe_mret. split; [done|].
  unfold search_measure, count in *. simpl in *. destruct Hsame as (_ & _ & _ & ?). lia.
Qed.

Lemma collect_text_matches_safe root_fd h :
  (1 ≤ max_depth)%N →
  safe free (collect_text_matches query root_fd root max_depth) h
    (on_ok (λ o h', ∃ st, o = Some st ∧ search_ok h' st)).
Proof.
  intros Hdepth. apply safe_bind. eapply safe_mono.
  - eapply (safe_rounds _ (λ qs h, search_ok h qs.2 ∧ Forall (queued_ok root max_depth) qs.1)
      (λ r h, match r with Ok st => search_ok h st | Err _ => True end) search_measure);
      [apply search_round_safe| |vm_compute; done].
    split; [by split_and!; try done; constructor|]. repeat constructor. exists []. by split_and!.
  - intros [[qs|st]|] h'; try done. intros H. apply safe_mret. by exists st.
Qed.

Lemma search_fit_Ok fuel : ∀ r r',
  search_fit fuel r = Ok r' →
  sr_matches r' `prefix_of` sr_matches r ∧ sr_entries_examined r' = sr_entries_examined r ∧
  sr_files_scanned r' = sr_files_scanned r ∧ sr_bytes_scanned r' = sr_bytes_scanned r ∧
  sr_max_depth r' = sr_max_depth r ∧
  ∃ n, search_text_json r' = Ok n ∧ (n ≤ MAX_SEARCH_STRUCTURED_BYTES)%N.
Proof.
  induction fuel as [|fuel IH]; intros r r'; cbn [search_fit]; destruct (search_text_json r) as [n|] eqn:Ej;
    simpl; try done; destruct (MAX_SEARCH_STRUCTURED_BYTES <? n)%N eqn:En; reflect_guards; try done.
  - intros [= <-]. split_and!; eauto.
  - destruct (sr_matches r) as [|m ms] eqn:Em; [done|]. intros (Hp & H1 & H2 & H3 & H4 & H5)%IH.
    simpl in *. split_and!; [|done..].
    etrans; [exact Hp|]. exists [List.last (m :: ms) m]. by apply app_removelast_last.
  - intros [= <-]. split_and!; eauto.
Qed.
End search.

(** C23: text search stays within its bounds and reports only what stands there,
    whatever the directories hold and however they change: the traversal always
    ends within its rounds; it examines at most 8192 entries, scans at most 4096
    files and 8 MiB and returns at most 256 matches in an encoding within the
    limit; and for every match this run opened a file of that name, without
    following a link, read it to its end as UTF-8, and found the query at the
    reported line and column of what it read, below the anchored root at no more
    than the depth asked for. *)
Theorem search_text_bounded {FM : FileModes} {J : JsonLength} self path query max_depth :
  (∀ root_fd root depth h, (1 ≤ depth)%N →
     ¬ exec (collect_text_matches query root_fd root depth) [] (Ok None) h) ∧
  (∀ r h, exec (search_text self path query max_depth) [] (Ok r) h →
    ∃ a, anchor self path = Ok a ∧ query ≠ [] ∧
      (sr_entries_examined r ≤ MAX_SEARCH_ENTRIES)%N ∧ (sr_files_scanned r ≤ MAX_SEARCH_FILES)%N ∧
      (sr_bytes_scanned r ≤ MAX_SEARCH_TOTAL_BYTES)%N ∧ (count (sr_matches r) ≤ MAX_SEARCH_MATCHES)%N ∧
      (MIN_SEARCH_DEPTH ≤ sr_max_depth r ≤ MAX_SEARCH_DEPTH)%N ∧
      Forall (search_match_ok query (display_path a) (sr_max_depth r) h) (sr_matches r) ∧
      ∃ n, search_text_json r = Ok n ∧ (n ≤ MAX_SEARCH_STRUCTURED_BYTES)%N).
Proof.
  split.
  - intros root_fd root depth h Hd He.
    eapply exec_safe_ok in He; [|by apply (collect_text_matches_safe query root depth)].
    by destruct He as (? & [=] & _).
  - intros r h He. eapply (exec_safe_ok _ _ _ (λ r h, _)) in He; [exact He|]. clear He.
    set (depth := clamp MIN_SEARCH_DEPTH MAX_SEARCH_DEPTH (default MAX_SEARCH_DEPTH max_depth)).
    assert (MIN_SEARCH_DEPTH ≤ depth ≤ MAX_SEARCH_DEPTH)%N as Hdepth by by apply clamp_bounds.
    apply step_lift. intros [] Hquery. apply fail_if_Ok in Hquery. apply orb_false_iff in Hquery as [Hquery _].
    apply orb_false_iff in Hquery as [Hquery _]. apply bytes_eqb_false in Hquery.
    apply step_lift. intros a Ha.
    apply step_any. intros root_fd h1 _.
    apply step_any. intros target_fd h2 _.
    eapply step_spec; [apply (collect_text_matches_safe query); unfold MIN_SEARCH_DEPTH in *; lia|].
    intros o h3 _ (st & -> & Hex & Hfi & Hby & Hm & Hok). apply safe_lift.
    destruct (search_fit _ _) as [r'|] eqn:Ef; [|done].
    apply search_fit_Ok in Ef as (Hp & He & Hf & Hb & Hd & Hn). simpl in *. exists a.
    rewrite He, Hf, Hb, Hd. split_and!; try done; try lia.
    + etrans; [by apply count_prefix|]. by rewrite count_merge_sort.
    + eapply Forall_prefix; [exact Hp|]. by rewrite merge_sort_Permutation.
Qed.

(** ** Examples *)

#[local] Existing Instance example_file_modes.
#[local] Instance example_chrono : Chrono := λ n, Some (print_N n).
#[local] Instance example_json : JsonLength := {|
  file_info_json info := Ok (len (fi_path info) + 50)%N;
  list_dir_json r := Ok (len (ld_path r) + 90
    + foldr (λ info n, len (fi_path info) + 50 + n) 0 (ld_entries r) + (N.of_nat (length (ld_entries r)) - 1))%N;
  find_paths_json r := Ok (200 + 60 * N.of_nat (length (fr_matches r)))%N;
  search_text_json r := Ok (200 + 60 * N.of_nat (length (sr_matches r)))%N;
|}.
#[local] Instance example_json_laws : JsonLengthLaws example_json.
Proof.
  constructor. intros path entries truncated me mb base. cbn. intros [= <-] _. eexists. split; [reflexivity|].
  change (infos_length entries) with (foldr (λ info n, len (fi_path info) + 50 + n)%N 0%N entries). lia.
Qed.

Definition world : FsExample.World := fst (FsExample.tools (FsExample.start true)).
Definition roots : PinnedSafeRootSet := Eval vm_compute in FsExample.get (snd (FsExample.tools (FsExample.start true))) eq_refl.

Lemma list_directory_bounded_witness :
  ∃ r h, exec (list_directory roots (bs "/data") (Some 9%N)) [] (Ok r) h ∧
    (fi_path <$> ld_entries r) = [bs "/data/note.txt"; bs "/data/sub"] ∧
    (count (ld_entries r) ≤ MAX_LIST_ENTRIES)%N.
Proof.
  pose (p := list_directory roots (bs "/data") (Some 9%N)).
  pose proof (FsExample.outcome_exec p world) as He.
  destruct (snd (FsExample.outcome p world)) as [r|] eqn:Hr; [|vm_compute in Hr; discriminate Hr].
  destruct (proj2 (proj2 (list_directory_bounded roots (bs "/data") (Some 9%N))) _ _ He) as (a & n & _ & _ & H & _).
  exists r, (FsExample.trace p world). split; [exact He|]. split; [|exact H].
  vm_compute in Hr. injection Hr as <-. reflexivity.
Defined.

Lemma find_paths_bounded_witness :
  ∃ r h, exec (find_paths roots (bs "/data") (bs "note") FilterAny None) [] (Ok r) h ∧
    (fm_path <$> fr_matches r) = [bs "/data/note.txt"] ∧ (count (fr_matches r) ≤ MAX_FIND_MATCHES)%N.
Proof.
  pose (p := find_paths roots (bs "/data") (bs "note") FilterAny None).
  pose proof (FsExample.outcome_exec p world) as He.
  destruct (snd (FsExample.outcome p world)) as [r|] eqn:Hr; [|vm_compute in Hr; discriminate Hr].
  destruct (proj2 (find_paths_bounded roots (bs "/data") (bs "note") FilterAny None) _ _ He)
    as (a & _ & _ & _ & H & _).
  exists r, (FsExample.trace p world). split; [exact He|]. split; [|exact H].
  vm_compute in Hr. injection Hr as <-. reflexivity.
Defined.

Lemma search_text_bounded_witness :
  ∃ r h, exec (search_text roots (bs "/data") (bs "l") None) [] (Ok r) h ∧
    (sm_column_byte <$> sr_matches r) = [3%N; 4%N] ∧ (count (sr_matches r) ≤ MAX_SEARCH_MATCHES)%N.
Proof.
  pose (p := search_text roots (bs "/data") (bs "l") None).
  pose proof (FsExample.outcome_exec p world) as He.
  destruct (snd (FsExample.outcome p world)) as [r|] eqn:Hr; [|vm_compute in Hr; discriminate Hr].
  destruct (proj2 (search_text_bounded roots (bs "/data") (bs "l") None) _ _ He)
    as (a & _ & _ & _ & _ & _ & H & _).
  exists r, (FsExample.trace p world). split; [exact He|]. split; [|exact H].
  vm_compute in Hr. injection Hr as <-. reflexivity.
Defined.
End FsSearch.
