(* ===== verification/FsConfine.v ===== *)
(** * Confinement to the pinned roots: the logic

    Which calls stay below the pinned roots: those on a descriptor that is a
    pinned root or was opened by this run from such a one, by a single name and
    without following a link.  The rules that carry this through a program, and
    the steps that open descriptors. *)

From S2P Require Import Prelude RustStd RustPath RequestGrantCapability AppErrors GrantTargets.
From S2P Require Import FsCalls SafeRoots Quarantine FsPrepare FsReads FsTraverse FsMutations FsGate.

Import AppErrors SafeRoots Quarantine FsPrepare FsReads FsMutations.

(** One component of a path, which neither stays nor goes up. *)
Definition plain (n : bytes) : Prop := n ≠ [] ∧ n ≠ bs "." ∧ n ≠ bs ".." ∧ SLASH ∉ n.
(** The kernel listed it in this run. *)
Definition listed (h : history) (n : bytes) : Prop :=
  ∃ d entries, Ev (ReadDir d) (Ok entries) ∈ h ∧ Ok n ∈ entries.
(** An artifact of this run. *)
Definition generated `{Crypto} (h : history) (n : bytes) : Prop :=
  ∃ u, Ev NewUuid u ∈ h ∧
    n ∈ [WRITE_FILE_ARTIFACT_PREFIX ++ uuid_to_string u; TRASH_FILE_ARTIFACT_PREFIX ++ uuid_to_string u;
         CreateDirectoryMutation.temporary_name u].
Definition named `{Crypto} (h : history) (n : bytes) : Prop :=
  plain n ∨ (listed h n ∧ n ≠ bs "." ∧ n ≠ bs "..") ∨ generated h n.

(** A descriptor that is a pinned root or was opened by this run. *)
Definition held (pinned : list fd) (h : history) (d : fd) : Prop :=
  d ∈ pinned ∨ ∃ dir n flags mode, Ev (Openat dir n flags mode) (Ok d) ∈ h.

(** What the tools may ask of the kernel, and when they may panic. *)
Definition confined `{Crypto} {T : Chrono} (pinned : list fd) (c : call) (h : history) : Prop :=
  match c with
  | SymlinkMetadata _ | OpenRoot _ => False
  | Fstat d | Fsync d | Fchmod d _ | Flock d | ReadDir d | SeekStart d _ | ReadToEnd d | Read d _
  | WriteAll d _ | SyncAll d => held pinned h d
  | Statat d n | Mkdirat d n _ | Unlinkat d n _ => held pinned h d ∧ named h n
  | Openat d n flags _ => held pinned h d ∧ NOFOLLOW ∈ flags ∧ (n = bs "." ∨ named h n)
  | RenameatWith d n d' n' _ => held pinned h d ∧ named h n ∧ held pinned h d' ∧ named h n'
  | NewUuid | Elapsed | Sleep _ | TryLock | LockPublication | UnlockPublication | OnLockContention
  | Authorize _ => True
  | Panic => time_out_of_range h
  end.

Section logic.
Context {FM : FileModes} {C : Crypto} {T : Chrono} (R : list fd).

Lemma listed_later h h' n : later h h' → listed h n → listed h' n.
Proof. intros L (d & es & He & Hn). exists d, es. split; [by eapply later_elem|done]. Qed.
Lemma named_later h h' n : later h h' → named h n → named h' n.
Proof.
  intros L [Hp|[[Hl Hd]|(u & Hu & Hn)]]; [by left|right; left|right; right].
  - split; [by eapply listed_later|done].
  - exists u. split; [by eapply later_elem|done].
Qed.
Lemma held_later h h' d : later h h' → held R h d → held R h' d.
Proof.
  intros L [Hp|(dir & n & flags & mode & He)]; [by left|]. right. exists dir, n, flags, mode.
  by eapply later_elem.
Qed.

(** What a traversal keeps: directories to visit, candidates of one directory. *)
Definition queue_held (h : history) (queue : list FsTraverse.Queued) : Prop :=
  Forall (λ q, held R h q.1.1) queue.
Definition all_named {V} (name : V → bytes) (h : history) (candidates : list (bytes * V)) : Prop :=
  Forall (λ c, named h (name c.2)) candidates.
Lemma queue_held_later h h' queue : later h h' → queue_held h queue → queue_held h' queue.
Proof. intros L H. eapply Forall_impl; [exact H|]. intros q. by apply held_later. Qed.
Lemma all_named_later {V} (name : V → bytes) h h' c : later h h' → all_named name h c → all_named name h' c.
Proof. intros L H. eapply Forall_impl; [exact H|]. intros q. by apply named_later. Qed.

(** A confined run panics only after the kernel reported a time out of range. *)
Lemma obeys_elem S h e : obeys S h → e ∈ h → ∃ h', later h' h ∧ S (ev_call e) h'.
Proof.
  induction h as [|e' h IH]; [by intros _ ?%not_elem_of_nil|].
  intros [Hs Ho] [->|He]%elem_of_cons; [exists h; split; [apply later_cons, later_refl|done]|].
  destruct (IH Ho He) as (h' & L & H). exists h'. split; [by apply later_cons|done].
Qed.
Lemma confined_panic h : obeys (confined R) h → Ev Panic () ∈ h → time_out_of_range h.
Proof.
  intros Ho Hp. destruct (obeys_elem _ _ _ Ho Hp) as (h' & L & m & seconds & Hm & Ht).
  exists m, seconds. split; [|done]. destruct Hm as [(d & H)|(d & n & H)]; [left; exists d|right; exists d, n];
    by eapply later_elem.
Qed.

(** A program that stays confined, and what holds of its result. *)
Definition conf {E A} (h : history) (p : fs E A) (V : A → history → Prop) : Prop :=
  safe (confined R) p h (λ r h', later h h' ∧ match r with Ok a => V a h' | Err _ => True end).
Definition anything {A} (_ : A) (_ : history) : Prop := True.

Lemma conf_mono {E A} h (p : fs E A) (V V' : A → history → Prop) :
  conf h p V → (∀ a h', later h h' → V a h' → V' a h') → conf h p V'.
Proof. intros Hp HV. eapply safe_mono; [apply Hp|]. intros [a|e] h' [? ?]; split; auto. Qed.
Lemma conf_any {E A} h (p : fs E A) V : conf h p V → conf h p anything.
Proof. intros Hp. by eapply conf_mono. Qed.
Lemma conf_mret {E A} h (a : A) (V : A → history → Prop) : V a h → conf h (mret (M := fs E) a) V.
Proof. intros HV. split; [apply later_refl|done]. Qed.
Lemma conf_throw {E A} h (e : E) (V : A → history → Prop) : conf h (throw e) V.
Proof. split; [apply later_refl|done]. Qed.
Lemma conf_lift {E A} h (r : Result E A) (V : A → history → Prop) :
  (∀ a, r = Ok a → V a h) → conf h (lift r) V.
Proof. intros HV. split; [apply later_refl|]. destruct r; [by apply HV|done]. Qed.
Lemma conf_bind {E A B} h (p : fs E A) (f : A → fs E B) V V' :
  conf h p V → (∀ a h', later h h' → V a h' → conf h' (f a) V') → conf h (p ≫= f) V'.
Proof.
  intros Hp Hf. apply safe_bind. eapply safe_mono; [apply Hp|]. intros [a|e] h' [L HV]; [|by split].
  eapply safe_mono; [by apply Hf|]. intros r h2 [L2 ?]. split; [by eapply later_trans|done].
Qed.
Lemma conf_bind_lift {E A B} h (r : Result E A) (f : A → fs E B) V :
  (∀ a, r = Ok a → conf h (f a) V) → conf h (lift r ≫= f) V.
Proof.
  intros Hf. eapply conf_bind; [apply (conf_lift _ _ (λ a h', r = Ok a ∧ h' = h)); intros a ->; done|].
  intros a h' _ [Ha ->]. by apply Hf.
Qed.
Lemma conf_or_err {E F A} h (e : E → F) (p : fs E A) V : conf h p V → conf h (or_err e p) V.
Proof. intros Hp. apply safe_or_err. eapply safe_mono; [apply Hp|]. by intros [a|x]. Qed.
Lemma conf_attempt {E F A B} h (p : fs E A) (f : Result E A → fs F B) V V' :
  conf h p V → (∀ a h', later h h' → V a h' → conf h' (f (Ok a)) V') →
  (∀ e h', later h h' → conf h' (f (Err e)) V') → conf h (attempt p f) V'.
Proof.
  intros Hp Hok Herr. apply safe_attempt. eapply safe_mono; [apply Hp|]. intros [a|e] h' [L HV].
  - eapply safe_mono; [by apply Hok|]. intros r h2 [L2 ?]. split; [by eapply later_trans|done].
  - eapply safe_mono; [by apply Herr|]. intros r h2 [L2 ?]. split; [by eapply later_trans|done].
Qed.
Lemma conf_rounds {E A B} (inv : A → history → Prop) (V : B → history → Prop) n (body : A → fs E (A + B)) :
  (∀ a h, inv a h → conf h (body a) (λ r h', match r with inl a => inv a h' | inr b => V b h' end)) →
  ∀ a h, inv a h → conf h (rounds n body a) (λ r h', match r with inl a => inv a h' | inr b => V b h' end).
Proof.
  intros Hb. induction n as [|n IH]; intros a h Ha; cbn [rounds]; [by apply Hb|].
  eapply conf_bind; [by apply IH|]. intros [a'|b] h' _ H'; [by apply IH|by apply conf_mret].
Qed.

(** A cleanup, which returns nothing. *)
Definition conf_unit (h : history) (p : prog unit) : Prop :=
  safe (confined R) p h (λ _ h', later h h').

Lemma conf_unit_ret h : conf_unit h (Ret ()).
Proof. apply later_refl. Qed.
Lemma conf_unit_bind {E A} h (p : fs E A) (f : Result E A → prog unit) :
  conf h p anything → (∀ r h', later h h' → conf_unit h' (f r)) → conf_unit h (prog_bind p f).
Proof.
  intros Hp Hf. apply safe_prog_bind. eapply safe_mono; [apply Hp|]. intros r h' [L _].
  eapply safe_mono; [by apply Hf|]. intros u h2 L2. by eapply later_trans.
Qed.

Lemma conf_guarded {E A} h drop (p : fs E A) V :
  conf h p V → (∀ h', later h h' → conf_unit h' drop) → conf h (guarded drop p) V.
Proof.
  intros Hp Hd. eapply conf_attempt; [done|intros a h' _ HV; by apply conf_mret|].
  intros e h' L. apply safe_prog_bind. eapply safe_mono; [by apply Hd|]. intros [] h2 L2. by split.
Qed.
Lemma conf_bracket {E A} h (p : fs E A) drop V :
  conf h p anything → (∀ h', later h h' → conf_unit h' drop) → (∀ a h', V a h') →
  conf h (bracket p drop) V.
Proof.
  intros Hp Hd HV. apply safe_bracket. eapply safe_mono; [apply Hp|]. intros r h' [L _].
  eapply safe_mono; [by apply Hd|]. intros ? h2 L2. split; [by eapply later_trans|]. by destruct r.
Qed.

(** ** Calls *)

Lemma conf_call {E A} h c (k : answer c → Result E A) (V : A → history → Prop) :
  confined R c h → (∀ r a, k r = Ok a → V a (Ev c r :: h)) → conf h (Do c (λ r, Ret (k r))) V.
Proof.
  intros Hc HV. split; [done|]. intros r. split; [apply later_cons, later_refl|].
  destruct (k r) eqn:Ek; [by apply HV|done].
Qed.

Lemma conf_fstat h d : held R h d → conf h (fstat d) anything.
Proof. intros. by refine (conf_call _ (Fstat d) (λ r, r) _ _ _). Qed.
Lemma conf_statat h d n : held R h d → named h n → conf h (statat d n) anything.
Proof. intros. by refine (conf_call _ (Statat d n) (λ r, r) _ _ _). Qed.
(** What the kernel said of a file is known of the rest of the run. *)
Lemma conf_fstat_answered h d : held R h d → conf h (fstat d) stat_answered.
Proof.
  intros. refine (conf_call _ (Fstat d) (λ r, r) _ _ _); [done|]. intros r m ->. left. exists d.
  by apply list_elem_of_here.
Qed.
Lemma conf_statat_answered h d n : held R h d → named h n → conf h (statat d n) stat_answered.
Proof.
  intros. refine (conf_call _ (Statat d n) (λ r, r) _ _ _); [done|]. intros r m ->. right. exists d, n.
  by apply list_elem_of_here.
Qed.
Lemma conf_stat_modified_time h m : stat_answered m h → conf h (stat_modified_time m) anything.
Proof.
  intros Hm. unfold stat_modified_time. destruct (u64_try_from _) as [seconds|] eqn:Es; [|by apply conf_mret].
  destruct (rfc3339 seconds) eqn:Et; [by apply conf_mret|]. split; [by exists m, seconds|].
  intros []. split; [apply later_cons, later_refl|done].
Qed.
Lemma stat_answered_later h h' m : later h h' → stat_answered m h → stat_answered m h'.
Proof.
  intros L [(d & H)|(d & n & H)]; [left; exists d|right; exists d, n]; by eapply later_elem.
Qed.
Lemma conf_openat h d n flags mode :
  held R h d → n = bs "." ∨ named h n → NOFOLLOW ∈ flags →
  conf h (openat d n flags mode) (λ d' h', held R h' d').
Proof.
  intros. refine (conf_call _ (Openat d n flags mode) (λ r, r) _ _ _); [done|]. intros r d' ->. right. exists d, n, flags, mode.
  by apply list_elem_of_here.
Qed.
Lemma conf_mkdirat h d n mode : held R h d → named h n → conf h (mkdirat d n mode) anything.
Proof. intros. by refine (conf_call _ (Mkdirat d n mode) (λ r, r) _ _ _). Qed.
Lemma conf_renameat h d n d' n' flags :
  held R h d → named h n → held R h d' → named h n' → conf h (renameat_with d n d' n' flags) anything.
Proof. intros. by refine (conf_call _ (RenameatWith d n d' n' flags) (λ r, r) _ _ _). Qed.
Lemma conf_fsync h d : held R h d → conf h (fsync d) anything.
Proof. intros. by refine (conf_call _ (Fsync d) (λ r, r) _ _ _). Qed.
Lemma conf_fchmod h d mode : held R h d → conf h (fchmod d mode) anything.
Proof. intros. by refine (conf_call _ (Fchmod d mode) (λ r, r) _ _ _). Qed.
Lemma conf_flock h d : held R h d → conf h (flock d) anything.
Proof. intros. by refine (conf_call _ (Flock d) (λ r, r) _ _ _). Qed.
Lemma conf_seek h d o : held R h d → conf h (seek d o) anything.
Proof. intros. by refine (conf_call _ (SeekStart d o) (λ r, r) _ _ _). Qed.
Lemma conf_write_all h d b : held R h d → conf h (write_all d b) anything.
Proof. intros. by refine (conf_call _ (WriteAll d b) (λ r, r) _ _ _). Qed.
Lemma conf_sync_all h d : held R h d → conf h (sync_all d) anything.
Proof. intros. by refine (conf_call _ (SyncAll d) (λ r, r) _ _ _). Qed.
Lemma conf_read_to_end h d n : held R h d → conf h (read_to_end_take d n) anything.
Proof. intros. by refine (conf_call _ (ReadToEnd d) (λ r, take_bytes n <$> r) _ _ _). Qed.
Lemma conf_read h d n : held R h d → conf h (read d n) anything.
Proof. intros. by refine (conf_call _ (Read d n) (λ r, take_bytes n <$> r) _ _ _). Qed.
Lemma conf_read_dir h d :
  held R h d → conf h (read_dir d) (λ entries h', ∀ n, Ok n ∈ entries → listed h' n).
Proof.
  intros. refine (conf_call _ (ReadDir d) (λ r, r) _ _ _); [done|]. intros r es -> n Hn. exists d, es.
  split; [by apply list_elem_of_here|done].
Qed.
Lemma conf_new_uuid {E} h :
  conf h (total (E := E) new_uuid) (λ u h', Ev NewUuid u ∈ h').
Proof. apply safe_total. split; [done|]. intros u. split; [apply later_cons, later_refl|by apply list_elem_of_here]. Qed.
Lemma conf_total {E} h c : confined R c h → conf h (total (E := E) (Do c Ret)) anything.
Proof. intros Hc. apply safe_total. split; [done|]. intros r. split; [apply later_cons, later_refl|done]. Qed.

(** ** Names *)

Lemma plain_named h n : plain n → named h n.
Proof. by left. Qed.
Lemma write_quarantine_plain : plain WRITE_FILE_QUARANTINE_DIRECTORY.
Proof. split_and!; try (vm_compute; discriminate); apply (bool_decide_unpack _); by vm_compute. Qed.
Lemma trash_quarantine_plain : plain TRASH_FILE_QUARANTINE_DIRECTORY.
Proof. split_and!; try (vm_compute; discriminate); apply (bool_decide_unpack _); by vm_compute. Qed.
Lemma segment_plain p n : n ∈ path_segments p → n ≠ bs ".." → plain n.
Proof.
  intros Hn Hd. unfold path_segments in Hn. apply list_elem_of_In, filter_In in Hn as [Hn Hs].
  apply list_elem_of_In in Hn. unfold skipped in Hs. rewrite negb_true_iff, orb_false_iff in Hs.
  destruct Hs as [Hne Hdot]. reflect_guards. split_and!; [done..|].
  pose proof (split_on_no_sep SLASH p) as H. rewrite Forall_forall in H. by apply H.
Qed.
Lemma component_plain p n : Normal n ∈ components p → plain n.
Proof.
  intros Hn. assert (Normal n ∈ (segment_component <$> path_segments p)) as H.
  { unfold components in Hn. destruct (is_absolute p).
    - by apply elem_of_cons in Hn as [?|?].
    - apply elem_of_app in Hn as [Hn|?]; [|done]. destruct (bytes_eqb _ _); [|by apply not_elem_of_nil in Hn].
      by apply list_elem_of_singleton in Hn. }
  apply list_elem_of_fmap in H as (s & Hs & Hin). unfold segment_component in Hs.
  destruct (bytes_eqb s (bs "..")) eqn:E; [done|]. reflect_guards. simplify_eq. by eapply segment_plain.
Qed.
Lemma anchor_roots self path a : anchor self path = Ok a → anchored_roots a = self.
Proof.
  unfold anchor. intros H. inv_ok H. destruct x1 as [[i root] rel]. inv_ok H. by simplify_eq.
Qed.
Lemma split_name_plain rel parent n : split_parent_and_name rel = Ok (parent, n) → plain n.
Proof.
  unfold split_parent_and_name. destruct (file_name rel) as [m|] eqn:E; simpl; [|done].
  intros [= _ <-]. apply file_name_Some in E as [Hl Hd]. eapply segment_plain; [|done].
  by apply last_Some_elem_of.
Qed.
End logic.

(** ** Automation

    [conf_steps] walks through a program: the facts about descriptors and names
    move along the history, a step known to the database [conf] leaves what its
    result owns. *)

Create HintDb conf discriminated.
#[export] Hint Constants Opaque : conf.
#[export] Hint Resolve conf_fstat conf_statat conf_openat conf_mkdirat conf_renameat conf_fsync
  conf_fchmod conf_flock conf_seek conf_write_all conf_sync_all conf_read_to_end conf_read
  conf_read_dir conf_new_uuid conf_or_err conf_throw : conf.
#[export] Hint Resolve plain_named write_quarantine_plain trash_quarantine_plain : conf.
#[export] Hint Extern 1 (held _ _ _) => assumption : conf.
#[export] Hint Extern 1 (_ = descriptor <$> roots _) => congruence : conf.
#[export] Hint Extern 2 (conf _ _ (lift _) _) => apply (conf_lift _ _ _ anything); intros; exact I : conf.
#[export] Hint Extern 2 (conf _ _ (total _) _) => apply conf_total; exact I : conf.
#[export] Hint Extern 1 (named _ _) => assumption : conf.
#[export] Hint Extern 1 (_ = _ ∨ named _ _) => first [left; reflexivity | right] : conf.
#[export] Hint Extern 1 (NOFOLLOW ∈ _) => apply (bool_decide_unpack _); vm_compute; exact I : conf.

Ltac advance L :=
  match type of L with
  | later ?h ?h' =>
    repeat match goal with
    | H : held _ h _ |- _ => apply (held_later _ _ _ _ L) in H
    | H : named h _ |- _ => apply (named_later _ _ _ L) in H
    | H : queue_held _ h _ |- _ => apply (queue_held_later _ _ _ _ L) in H
    | H : all_named _ h _ |- _ => apply (all_named_later _ _ _ _ L) in H
    | H : _ ∈ h |- _ => apply (later_elem _ _ _ L) in H
    | H : ∀ n, Ok n ∈ _ → listed h n |- _ => 
        let H' := fresh H in
        pose proof (λ n Hn, listed_later _ _ n L (H n Hn)) as H'; clear H
    | H : ∀ n, _ = Some n → named h n |- _ =>
        let H' := fresh H in
        pose proof (λ n Hn, named_later _ _ n L (H n Hn)) as H'; clear H
    | H : ∀ d, _ = Some d → held ?R h d |- _ =>
        let H' := fresh H in
        pose proof (λ d Hd, held_later R _ _ d L (H d Hd)) as H'; clear H
    end; clear L
  end.

Ltac conf_leaf := solve [eauto 7 with conf].
Ltac owned :=
  cbv beta;
  match goal with
  | |- anything _ _ => exact I
  | |- held _ _ _ => assumption
  | |- _ => idtac
  end.
Ltac conf_step :=
  match goal with
  | |- conf _ _ (let _ := _ in _) _ => cbv zeta
  | |- conf _ _ (mret _) _ => apply conf_mret; owned
  | |- conf _ _ (throw _) _ => apply conf_throw
  | |- conf _ ?h (lift (split_parent_and_name _) ≫= _) _ =>
      let p := fresh "parent" in let n := fresh "n" in let Hn := fresh "Hn" in
      apply conf_bind_lift; intros [p n] Hn%split_name_plain;
      apply (plain_named h) in Hn; cbv beta iota
  | |- conf _ _ (lift (anchor _ _) ≫= _) _ =>
      let a := fresh "a" in let Ha := fresh "Ha" in
      apply conf_bind_lift; intros a Ha%anchor_roots
  | |- conf _ _ (lift _ ≫= _) _ =>
      let a := fresh "a" in let Ha := fresh "Heq" in
      apply conf_bind_lift; intros a Ha; try (destruct a as [? ?]; try clear Ha)
  | |- conf _ _ (lift _) anything => apply conf_lift; intros; exact I
  | |- conf _ _ (_ ≫= _) _ =>
      eapply conf_bind;
      [first [conf_leaf | apply (conf_any _ _ _ anything); repeat conf_step]
      |let a := fresh "r" in let h' := fresh "h" in let L := fresh "L" in let V := fresh "V" in
       intros a h' L V; advance L; cbv beta in V]
  | |- conf _ _ (attempt _ _) _ =>
      eapply conf_attempt;
      [first [conf_leaf | apply (conf_any _ _ _ anything); repeat conf_step]
      |let a := fresh "r" in let h' := fresh "h" in let L := fresh "L" in let V := fresh "V" in
       intros a h' L V; advance L; cbv beta in V; cbv beta iota
      |let e := fresh "e" in let h' := fresh "h" in let L := fresh "L" in
       intros e h' L; advance L; cbv beta iota]
  | |- conf _ _ (if ?b then _ else _) _ => destruct b
  | |- conf _ _ (match ?x with _ => _ end) _ => destruct x
  | |- conf _ _ _ _ => conf_leaf
  end.
Ltac conf_steps := repeat conf_step.

Section steps.
Context {FM : FileModes} {C : Crypto} {T : Chrono} (R : list fd).

Lemma duplicate_directory_conf h d :
  held R h d → conf R h (duplicate_directory_descriptor d) (λ d' h', held R h' d').
Proof. intros. unfold duplicate_directory_descriptor. conf_steps. Qed.
#[local] Hint Resolve duplicate_directory_conf : conf.
Lemma quarantine_identity_conf h d n :
  held R h d → named h n → conf R h (quarantine_identity d n) anything.
Proof. intros. unfold quarantine_identity. conf_steps. Qed.
#[local] Hint Resolve quarantine_identity_conf : conf.
Lemma runtime_quarantine_identities_conf h d :
  held R h d → conf R h (runtime_quarantine_identities d) anything.
Proof. intros. unfold runtime_quarantine_identities. conf_steps. Qed.
#[local] Hint Resolve runtime_quarantine_identities_conf : conf.
Lemma duplicate_root_conf h a :
  R = descriptor <$> roots (anchored_roots a) → conf R h (duplicate_root a) (λ d h', held R h' d).
Proof.
  intros HR. unfold duplicate_root, duplicate_root_at. apply conf_bind_lift. intros root Hroot.
  assert (held R h (descriptor root)).
  { left. subst R. apply list_elem_of_fmap_2. destruct (roots _ !! _) eqn:E; [|done]. simplify_eq/=.
    by eapply list_elem_of_lookup_2. }
  clear Hroot. conf_steps.
Qed.
#[local] Hint Resolve duplicate_root_conf : conf.
Lemma open_child_directory_conf h d n :
  held R h d → named h n → conf R h (open_child_directory d n) (λ d h', held R h' d).
Proof. intros. unfold open_child_directory. conf_steps. Qed.
#[local] Hint Resolve open_child_directory_conf : conf.

Lemma open_descendant_conf cs h d :
  held R h d → (∀ n, Normal n ∈ cs → plain n) →
  conf R h (open_descendant d cs) (λ d h', held R h' d).
Proof.
  revert h d; induction cs as [|c cs IH]; intros h d Hd Hcs; cbn [open_descendant]; [by apply conf_mret|].
  destruct c as [| | |n]; try apply conf_throw. assert (named h n) by (left; apply Hcs; set_solver).
  conf_step. apply IH; [done|]. intros m Hm. apply Hcs. by apply list_elem_of_further.
Qed.
Lemma open_metadata_parent_conf cs h d :
  held R h d → (∀ n, Normal n ∈ cs → plain n) →
  conf R h (open_metadata_parent d cs) (λ d h', held R h' d).
Proof.
  revert h d; induction cs as [|c cs IH]; intros h d Hd Hcs; cbn [open_metadata_parent]; [by apply conf_mret|].
  destruct c as [| | |n]; try apply conf_throw. assert (named h n) by (left; apply Hcs; set_solver).
  do 7 conf_step. apply IH; [done|]. intros m Hm. apply Hcs. by apply list_elem_of_further.
Qed.
Lemma open_descendant_directory_conf h d p :
  held R h d → conf R h (open_descendant_directory d p) (λ d h', held R h' d).
Proof. intros. apply open_descendant_conf; [done|]. intros n. apply component_plain. Qed.
Lemma open_metadata_parent_directory_conf h d p :
  held R h d → conf R h (open_metadata_parent_directory d p) (λ d h', held R h' d).
Proof. intros. apply open_metadata_parent_conf; [done|]. intros n. apply component_plain. Qed.
#[local] Hint Resolve open_descendant_directory_conf open_metadata_parent_directory_conf : conf.
Lemma open_mutation_parent_directory_conf h d p :
  held R h d → conf R h (open_mutation_parent_directory d p) (λ d h', held R h' d).
Proof. intros. unfold open_mutation_parent_directory. conf_steps. Qed.
Lemma open_metadata_descriptor_conf h d p :
  held R h d → conf R h (open_metadata_descriptor d p) (λ d h', held R h' d).
Proof.
  intros. unfold open_metadata_descriptor. destruct (bytes_eqb p []); [by apply conf_mret|].
  conf_steps.
Qed.
End steps.

#[export] Hint Resolve duplicate_directory_conf duplicate_root_conf runtime_quarantine_identities_conf
  open_child_directory_conf open_descendant_directory_conf open_metadata_parent_directory_conf
  open_mutation_parent_directory_conf open_metadata_descriptor_conf : conf.
