(* ===== verification/FsConfinement.v ===== *)
(** * No tool leaves the pinned roots

    Every call that a tool of [src/src/tools/filesystem.rs] makes, in every run,
    is confined in the sense of [FsConfine]. *)

From S2P Require Import Prelude RustStd RustPath RequestGrantCapability AppErrors GrantTargets.
From S2P Require Import FsCalls SafeRoots Quarantine FsPrepare FsReads FsTraverse FsMutations.
From S2P Require Import FsGate FsExample FsBounds FsSearch FsTools FsConfine.

Module FsConfinement.
Import AppErrors SafeRoots Quarantine FsPrepare FsReads FsTraverse FsMutations.

Section steps.
Context {FM : FileModes} {C : Crypto} {T : Chrono} (R : list fd).

(** ** Quarantines *)

Lemma lock_retry_conf fuel h q e :
  held R h q → conf R h (lock_quarantine_with_bounded_retry fuel q e) anything.
Proof.
  revert h e; induction fuel as [|fuel IH]; intros h e Hq; cbn [lock_quarantine_with_bounded_retry]; [conf_step|].
  eapply conf_attempt; [conf_leaf|intros; by apply conf_mret|]. intros x h' L. advance L.
  destruct x; conf_steps.
Qed.
Lemma lock_write_quarantine_conf h q : held R h q → conf R h (lock_write_quarantine q) anything.
Proof. intros. by apply conf_or_err, lock_retry_conf. Qed.
Lemma lock_trash_quarantine_conf h q : held R h q → conf R h (lock_trash_quarantine q) anything.
Proof. intros. by apply conf_or_err, lock_retry_conf. Qed.
Lemma lock_trash_target_conf h f : held R h f → conf R h (lock_trash_target f) anything.
Proof. intros. unfold lock_trash_target. conf_steps. Qed.
#[local] Hint Resolve lock_write_quarantine_conf lock_trash_quarantine_conf lock_trash_target_conf : conf.

Lemma count_artifacts_conf can max err q entries h n b :
  held R h q → (∀ n, Ok n ∈ entries → listed h n) →
  conf R h (count_artifacts can max err q entries n b) anything.
Proof.
  revert h n b; induction entries as [|e entries IH]; intros h n b Hq Hl; cbn [count_artifacts]; [conf_step|].
  apply conf_bind_lift. intros name Hname. destruct e as [m|]; [injection Hname as ->|done].
  assert (listed h name) as Hn by (apply Hl; set_solver).
  assert (∀ n, Ok n ∈ entries → listed h n) as Hl' by (intros; apply Hl; set_solver). clear Hl.
  destruct (bytes_eqb name (bs ".") || bytes_eqb name (bs "..")) eqn:Ed; [by apply IH|].
  apply orb_false_iff in Ed as [? ?]. reflect_guards. assert (named h name) by (right; left; done). clear Hn.
  conf_steps.
Qed.
#[local] Hint Resolve count_artifacts_conf : conf.
Lemma write_usage_conf h q : held R h q → conf R h (write_quarantine_usage q) anything.
Proof. intros. unfold write_quarantine_usage. conf_steps. Qed.
Lemma trash_usage_conf h q : held R h q → conf R h (trash_quarantine_usage q) anything.
Proof. intros. unfold trash_quarantine_usage. conf_steps. Qed.
#[local] Hint Resolve write_usage_conf trash_usage_conf : conf.
Lemma ensure_write_conf h q n : held R h q → conf R h (ensure_write_quarantine_capacity q n) anything.
Proof. intros. unfold ensure_write_quarantine_capacity. conf_steps. Qed.
Lemma ensure_trash_conf h q n : held R h q → conf R h (ensure_trash_quarantine_capacity q n) anything.
Proof. intros. unfold ensure_trash_quarantine_capacity. conf_steps. Qed.
Lemma validate_write_conf h q : held R h q → conf R h (validate_write_quarantine_bounds q) anything.
Proof. intros. unfold validate_write_quarantine_bounds. conf_steps. Qed.
Lemma validate_trash_conf h q : held R h q → conf R h (validate_trash_quarantine_bounds q) anything.
Proof. intros. unfold validate_trash_quarantine_bounds. conf_steps. Qed.
#[local] Hint Resolve ensure_write_conf ensure_trash_conf validate_write_conf validate_trash_conf : conf.

Lemma create_quarantine_conf h d n : held R h d → named h n → conf R h (create_quarantine d n) anything.
Proof. intros. unfold create_quarantine. conf_steps. Qed.
Lemma sync_created_conf h b q d : held R h q → held R h d → conf R h (sync_created b q d) anything.
Proof. intros. unfold sync_created. conf_steps. Qed.
#[local] Hint Resolve create_quarantine_conf sync_created_conf : conf.
Lemma open_write_quarantine_conf h d :
  held R h d → conf R h (open_write_file_quarantine d) (λ q h', held R h' q).
Proof. intros. unfold open_write_file_quarantine. conf_steps. Qed.
Lemma open_existing_trash_conf h d :
  held R h d → conf R h (open_existing_trash_file_quarantine d) (λ o h', ∀ q, o = Some q → held R h' q).
Proof.
  intros. unfold open_existing_trash_file_quarantine. conf_steps; [by intros q [= <-]|done].
Qed.
#[local] Hint Resolve open_write_quarantine_conf open_existing_trash_conf : conf.
Lemma open_trash_quarantine_conf h d :
  held R h d → conf R h (open_trash_file_quarantine d) (λ q h', held R h' q).
Proof.
  intros. unfold open_trash_file_quarantine. do 2 conf_step. apply conf_bind_lift. intros q Hq.
  destruct r0 as [q'|]; simplify_eq/=. specialize (V0 q eq_refl). conf_steps.
Qed.
Lemma preflight_conf h d n : held R h d → conf R h (preflight_write_quarantine_capacity d n) anything.
Proof. intros. unfold preflight_write_quarantine_capacity. conf_steps. Qed.
#[local] Hint Resolve open_trash_quarantine_conf preflight_conf : conf.

(** ** Artifacts and guards *)

Lemma conf_unlinkat h d n dir : held R h d → named h n → conf R h (unlinkat d n dir) anything.
Proof. intros. by refine (conf_call _ _ (Unlinkat d n dir) (λ r, r) _ _ _). Qed.
#[local] Hint Resolve conf_unlinkat : conf.
(** Both guards remove what is named as long as it is what they created. *)
Lemma remove_conf h d n dir (test : Stat → bool) :
  held R h d → named h n →
  conf_unit R h (prog_bind (statat d n) (λ r, match r with
    | Err _ => Ret ()
    | Ok metadata =>
      if test metadata then Ret ()
      else prog_bind (unlinkat d n dir) (λ r, match r with
           | Ok _ => prog_bind (fsync d) (λ _, Ret ())
           | Err _ => Ret ()
           end)
    end)).
Proof.
  intros Hd Hn. apply conf_unit_bind; [conf_leaf|]. intros [m|] h' L; [|apply conf_unit_ret]. advance L.
  destruct (test m); [apply conf_unit_ret|]. apply conf_unit_bind; [conf_leaf|].
  intros [u|] h2 L; [|apply conf_unit_ret]. advance L. apply conf_unit_bind; [conf_leaf|].
  intros r h3 L. apply conf_unit_ret.
Qed.
Lemma drop_directory_conf h c :
  held R h (dc_parent c) → named h (dc_name c) → conf_unit R h (drop_directory c).
Proof.
  intros Hd Hn. unfold drop_directory. destruct (dc_expected_identity c); [|apply conf_unit_ret].
  by apply (remove_conf h _ _ true (λ m, negb (is_dir m) || negb (same_id (stat_id m) _))).
Qed.
Lemma drop_copied_file_conf h c :
  held R h (staging_parent c) → held R h (publication_parent c) → named h (fc_name c) →
  conf_unit R h (drop_copied_file c).
Proof.
  intros Hs Hp Hn. unfold drop_copied_file. destruct (fc_expected_identity c); [|apply conf_unit_ret].
  apply (remove_conf h _ _ false (λ m, negb (is_file m) || negb (same_id (stat_id m) _))); [|done].
  by destruct (published c).
Qed.
End steps.

(** The guard of a step: its descriptors and its name move along. *)
#[export] Hint Extern 3 (conf _ _ (guarded _ _) _) =>
  apply conf_guarded;
  [|let L := fresh "L" in intros ? L; advance L;
    first [apply drop_directory_conf | apply drop_copied_file_conf]; cbn; assumption] : conf.

Section artifacts.
Context {FM : FileModes} {C : Crypto} {T : Chrono} (R : list fd).

(** A new artifact: its name and its descriptor. *)
Definition artifact_held (a : bytes * fd * (N * N)) (h : history) : Prop :=
  named h a.1.1 ∧ held R h a.1.2.

Lemma verify_artifact_conf h q d n :
  held R h q → held R h d → named h n → conf R h (verify_write_artifact q d n) artifact_held.
Proof. intros. unfold verify_write_artifact. conf_steps. by split. Qed.
Lemma create_artifact_conf h q : held R h q → conf R h (create_write_artifact q) artifact_held.
Proof.
  unfold create_write_artifact. revert h. induction ARTIFACT_ATTEMPTS as [|n IH]; intros h Hq;
    cbn [create_write_artifact_loop]; [apply conf_throw|].
  conf_step. cbv zeta. set (name := WRITE_FILE_ARTIFACT_PREFIX ++ _).
  assert (named h0 name) as Hname by (right; right; exists r; split; [done|set_solver]). clear V.
  conf_step; [by apply verify_artifact_conf|]. destruct e; conf_steps.
Qed.
Lemma allocate_name_conf h q :
  held R h q → conf R h (allocate_trash_artifact_name q) (λ n h', named h' n).
Proof.
  unfold allocate_trash_artifact_name. revert h. induction ARTIFACT_ATTEMPTS as [|n IH]; intros h Hq;
    cbn [allocate_trash_artifact_name_loop]; [apply conf_throw|].
  conf_step. cbv zeta. set (name := TRASH_FILE_ARTIFACT_PREFIX ++ _).
  assert (named h0 name) as Hname by (right; right; exists r; split; [done|set_solver]). clear V.
  conf_step; [by apply IH|]. destruct e; conf_steps. done.
Qed.

Lemma read_bounded_conf h f n : held R h f → conf R h (read_bounded_bytes f n) anything.
Proof. intros. unfold read_bounded_bytes. conf_steps. Qed.
Lemma absent_conf h d n f : held R h d → named h n → conf R h (absent d n f) anything.
Proof. intros. unfold absent. conf_steps. Qed.
Lemma publish_noreplace_conf h e d n d' n' :
  held R h d → named h n → held R h d' → named h n' → conf R h (publish_noreplace e d n d' n') anything.
Proof. intros. unfold publish_noreplace. conf_steps. Qed.
End artifacts.

#[export] Hint Resolve lock_trash_target_conf write_usage_conf trash_usage_conf ensure_write_conf
  ensure_trash_conf validate_write_conf validate_trash_conf open_write_quarantine_conf
  open_existing_trash_conf open_trash_quarantine_conf preflight_conf create_artifact_conf
  allocate_name_conf read_bounded_conf absent_conf publish_noreplace_conf : conf.


(** ** Prepared mutations *)

Section mutations.
Context {FM : FileModes} {C : Crypto} {T : Chrono} (self : PinnedSafeRootSet).
Notation R := (descriptor <$> roots self).

Definition create_held (m : PreparedCreateDirectoryMutation) (h : history) : Prop :=
  held R h (pc_parent_fd m) ∧ named h (directory_name m).
Definition write_held (m : PreparedWriteFileMutation) (h : history) : Prop :=
  held R h (pw_parent_fd m) ∧ named h (pw_file_name m) ∧
  (∀ d, existing_target_fd m = Some d → held R h d).
Definition copy_held (m : PreparedCopyFileMutation) (h : history) : Prop :=
  held R h (source_root_fd m) ∧ held R h (source_parent_fd m) ∧ named h (source_name m) ∧
  held R h (source_file m) ∧ held R h (destination_root_fd m) ∧
  held R h (destination_parent_fd m) ∧ named h (destination_name m).
Definition trash_held (m : PreparedTrashFileMutation) (h : history) : Prop :=
  held R h (pt_root_fd m) ∧ held R h (pt_parent_fd m) ∧ named h (pt_file_name m) ∧
  held R h (target_file m).

Lemma prepare_create_conf h a b :
  anchored_roots a = self → conf R h (prepare_create_directory a b) create_held.
Proof. intros Ha. unfold prepare_create_directory. conf_steps. by split. Qed.
Lemma write_disposition_conf h d n :
  held R h d → named h n →
  conf R h (write_disposition d n) (λ '(_, o, _, _) h', ∀ d, o = Some d → held R h' d).
Proof. intros. unfold write_disposition. conf_steps; naive_solver. Qed.
#[local] Hint Resolve write_disposition_conf : conf.
Lemma prepare_write_conf h a c b :
  anchored_roots a = self → conf R h (prepare_write_file a c b) write_held.
Proof. intros Ha. unfold prepare_write_file. conf_steps. by split. Qed.
Lemma prepare_copy_source_conf h a :
  anchored_roots a = self →
  conf R h (prepare_copy_source a) (λ '(root, _, parent, name, file, _, _) h',
    held R h' root ∧ held R h' parent ∧ named h' name ∧ held R h' file).
Proof. intros Ha. unfold prepare_copy_source. conf_steps. by split_and!. Qed.
#[local] Hint Resolve prepare_copy_source_conf : conf.
Lemma prepare_copy_conf h a a' b :
  anchored_roots a = self → anchored_roots a' = self → conf R h (prepare_copy_file a a' b) copy_held.
Proof.
  intros Ha Ha'. unfold prepare_copy_file. conf_step. conf_step.
  destruct r as [[[[[[root st] parent] name] file] identity] content], V as (? & ? & ? & ?).
  conf_steps. by repeat split.
Qed.
Lemma prepare_trash_conf h a b :
  anchored_roots a = self → conf R h (prepare_trash_file a b) trash_held.
Proof. intros Ha. unfold prepare_trash_file. conf_steps. by repeat split. Qed.

(** ** Executing them *)

Lemma publishing_conf {A} h (body : fs AuthorizedError A) :
  (∀ h', later h h' → conf R h' body anything) → conf R h (publishing body) anything.
Proof.
  intros Hb. unfold publishing, acquire_filesystem_publication_lock.
  eapply conf_bind with anything.
  { apply conf_or_err. conf_step. destruct r; conf_steps. }
  intros _ h' L _. apply conf_bracket; [by apply Hb| |done].
  intros h2 _. split; [done|]. intros []. apply later_cons, later_refl.
Qed.
Lemma authorize_conf h t : conf R h (authorize t) anything.
Proof. by refine (conf_call _ _ (Authorize t) (λ r, r) _ _ _). Qed.
#[local] Hint Resolve authorize_conf : conf.

Lemma temporary_named h u : Ev NewUuid u ∈ h → named h (CreateDirectoryMutation.temporary_name u).
Proof. intros. right; right. exists u. split; [done|set_solver]. Qed.

Ltac publish := intros; apply publishing_conf; let L := fresh "L" in intros ? L; advance L.

Lemma execute_create_conf h m :
  create_held m h → conf R h (CreateDirectoryMutation.execute_authorized_with_commit m) anything.
Proof.
  intros [Hd Hn]. unfold CreateDirectoryMutation.execute_authorized_with_commit. publish.
  conf_step; [unfold CreateDirectoryMutation.revalidate_absent_target; conf_leaf|].
  conf_step. apply temporary_named in V0.
  conf_step. apply conf_or_err. unfold CreateDirectoryMutation.execute_after_authorization. conf_steps.
Qed.

Lemma revalidate_source_conf h m :
  copy_held m h → conf R h (CopyFileMutation.revalidate_source m) anything.
Proof. intros (?&?&?&?&?&?&?). unfold CopyFileMutation.revalidate_source. conf_steps. Qed.
Lemma revalidate_destination_conf h m :
  copy_held m h → conf R h (CopyFileMutation.revalidate_absent_destination m) anything.
Proof. intros (?&?&?&?&?&?&?). unfold CopyFileMutation.revalidate_absent_destination. conf_steps. Qed.
Lemma after_copy_conf h m :
  copy_held m h → conf R h (CopyFileMutation.execute_after_authorization m) anything.
Proof.
  intros (?&?&?&?&?&?&?). unfold CopyFileMutation.execute_after_authorization. do 3 conf_step.
  match goal with V : artifact_held _ ?r _ |- _ => destruct r as [[name file] identity], V end.
  cbn [fst snd] in *. conf_steps.
Qed.

Lemma revalidate_target_conf h m :
  trash_held m h → conf R h (TrashFileMutation.revalidate_target m) anything.
Proof. intros (?&?&?&?). unfold TrashFileMutation.revalidate_target. conf_steps. Qed.
Lemma check_existing_conf h m o :
  (∀ q, o = Some q → held R h q) → conf R h (TrashFileMutation.check_existing_quarantine m o) anything.
Proof.
  intros Ho. destruct o as [q|]; [|by apply conf_mret].
  specialize (Ho q eq_refl). cbn [TrashFileMutation.check_existing_quarantine]. conf_steps.
Qed.
Lemma reserve_name_conf h o :
  (∀ q, o = Some q → held R h q) →
  conf R h (TrashFileMutation.reserve_artifact_name o) (λ o h', ∀ n, o = Some n → named h' n).
Proof.
  intros Ho. destruct o as [q|]; [|by apply conf_mret].
  specialize (Ho q eq_refl). cbn [TrashFileMutation.reserve_artifact_name]. conf_steps. by intros n [= <-].
Qed.
Lemma after_trash_conf h m q n :
  trash_held m h → held R h q → named h n →
  conf R h (TrashFileMutation.execute_after_authorization m q n) anything.
Proof. intros (?&?&?&?) ? ?. unfold TrashFileMutation.execute_after_authorization. conf_steps. Qed.

Lemma revalidate_replacement_conf h m :
  write_held m h → conf R h (WriteFileMutation.revalidate_replacement m) anything.
Proof.
  intros (?&?&Ho). unfold WriteFileMutation.revalidate_replacement. conf_step.
  apply conf_bind_lift. intros d Hd. assert (held R h d).
  { apply Ho. by destruct (existing_target_fd m); simplify_eq/=. }
  clear Hd. conf_steps.
Qed.
Lemma revalidate_disposition_conf h m :
  write_held m h → conf R h (WriteFileMutation.revalidate_disposition m) anything.
Proof.
  intros Hm. unfold WriteFileMutation.revalidate_disposition. destruct (pw_disposition m).
  - destruct Hm as (?&?&_). conf_steps.
  - eapply conf_bind; [by apply revalidate_replacement_conf|]. intros. by apply conf_mret.
Qed.
Lemma write_held_later h h' m : later h h' → write_held m h → write_held m h'.
Proof. intros L (Hd & Hn & Ho). advance L. by split. Qed.
Lemma commit_conf h m q n :
  write_held m h → held R h q → named h n → conf R h (WriteFileMutation.commit m q n) anything.
Proof.
  intros Hm Hq Hn. pose proof Hm as (?&?&Ho). unfold WriteFileMutation.commit. destruct (pw_disposition m).
  - clear Hm. conf_steps.
  - eapply conf_bind; [by apply revalidate_replacement_conf|]. intros i h' L _. clear Hm. advance L. conf_steps.
Qed.
#[local] Hint Extern 1 (write_held _ _) => by split_and! : conf.
#[local] Hint Extern 1 (copy_held _ _) => by split_and! : conf.
#[local] Hint Extern 1 (trash_held _ _) => by split_and! : conf.
#[local] Hint Resolve commit_conf revalidate_disposition_conf revalidate_source_conf
  revalidate_destination_conf revalidate_target_conf check_existing_conf reserve_name_conf : conf.
Lemma after_write_conf h m :
  write_held m h → conf R h (WriteFileMutation.execute_after_authorization m) anything.
Proof.
  intros (?&?&?). unfold WriteFileMutation.execute_after_authorization. do 3 conf_step.
  match goal with V : artifact_held _ ?r _ |- _ => destruct r as [[name file] identity], V end.
  cbn [fst snd] in *. conf_steps.
Qed.
#[local] Hint Resolve after_copy_conf after_trash_conf after_write_conf : conf.

Lemma execute_copy_conf h m :
  copy_held m h → conf R h (CopyFileMutation.execute_authorized_with_commit m) anything.
Proof.
  intros (?&?&?&?&?&?&?). unfold CopyFileMutation.execute_authorized_with_commit. publish. conf_steps.
Qed.
Lemma execute_write_conf h m :
  write_held m h → conf R h (WriteFileMutation.execute_authorized_with_commit m) anything.
Proof.
  intros (?&?&?). unfold WriteFileMutation.execute_authorized_with_commit. publish. conf_steps.
Qed.
Lemma execute_trash_conf h m :
  trash_held m h → conf R h (TrashFileMutation.execute_authorized_with_commit m) anything.
Proof.
  intros (?&?&?&?). unfold TrashFileMutation.execute_authorized_with_commit. publish. do 7 conf_step.
  eapply (conf_bind _ _ _ _ (λ q h', held R h' q)).
  { destruct r as [q|]; [apply conf_mret; auto|conf_leaf]. }
  intros q hq L Hq. advance L. conf_step.
  eapply (conf_bind _ _ _ _ (λ n h', named h' n)).
  { match goal with |- conf _ _ (match ?o with _ => _ end) _ => destruct o end; [apply conf_mret; auto|conf_leaf]. }
  intros n hn L Hn. advance L. conf_leaf.
Qed.
End mutations.


(** ** Reading *)

Section reading.
Context {FM : FileModes} {C : Crypto} {T : Chrono} (self : PinnedSafeRootSet).
Notation R := (descriptor <$> roots self).

Lemma open_verified_conf h a n :
  anchored_roots a = self → conf R h (open_verified_regular_file a n) (λ v h', held R h' (vf_file v)).
Proof. intros Ha. unfold open_verified_regular_file. conf_steps. Qed.
Lemma read_range_bytes_conf h v o n :
  held R h (vf_file v) → conf R h (read_range_bytes v o n) anything.
Proof. intros. unfold read_range_bytes. conf_steps. Qed.
#[local] Hint Resolve open_verified_conf read_range_bytes_conf : conf.
Lemma read_binary_conf h v o n :
  held R h (vf_file v) → conf R h (read_verified_binary_range v o n) anything.
Proof. intros. unfold read_verified_binary_range. conf_steps. Qed.
Lemma read_text_conf h v o n :
  held R h (vf_file v) → conf R h (read_verified_text_range v o n) anything.
Proof. intros. unfold read_verified_text_range. conf_steps. Qed.
Lemma hash_round_conf h f st : held R h f → conf R h (hash_round f st) anything.
Proof. intros. unfold hash_round. destruct st as [hashed remaining]. conf_steps. Qed.
Lemma hash_reader_conf h f : held R h f → conf R h (hash_reader f) anything.
Proof.
  intros Hf. unfold hash_reader. eapply conf_bind; [|intros [] h' L _; conf_steps].
  apply (conf_rounds R (λ _ h', held R h' f) (λ _ _, True)); [|done].
  intros st h1 H1. unfold hash_round. destruct st as [hashed remaining].
  do 2 conf_step; [by apply conf_mret|]. do 2 conf_step. by apply conf_mret.
Qed.
#[local] Hint Resolve read_binary_conf read_text_conf hash_reader_conf : conf.
End reading.

(** ** Traversals *)

Section traversals.
Context {FM : FileModes} {C : Crypto} {T : Chrono} {J : JsonLength} (R : list fd).

Lemma listed_entry h (entry : Result Errno bytes) entries :
  (∀ n, Ok n ∈ entry :: entries → listed h n) →
  (∀ n, entry = Ok n → skipped_name n = false → named h n) ∧ (∀ n, Ok n ∈ entries → listed h n).
Proof.
  intros Hl. split; [|set_solver]. intros n -> Hs. right; left. split; [apply Hl; set_solver|].
  unfold skipped_name in Hs. rewrite !orb_false_iff in Hs. destruct Hs as [[H1 H2] _]. by reflect_guards.
Qed.

Lemma find_candidates_conf d p ids entries : ∀ h c st,
  held R h d → (∀ n, Ok n ∈ entries → listed h n) → all_named fp_name h c →
  conf R h (find_candidates d p ids entries c st) (λ r h', all_named fp_name h' r.1).
Proof.
  induction entries as [|e entries IH]; intros h c st Hd Hl Hc; cbn [find_candidates]; [by apply conf_mret|].
  apply listed_entry in Hl as [He Hl]. destruct (_ <=? _)%N; [by apply conf_mret|].
  destruct e as [name|]; [|by apply IH]. destruct (skipped_name name) eqn:Es; [by apply IH|].
  specialize (He name eq_refl Es). cbv zeta. destruct (from_utf8 name); [|by apply IH].
  conf_step; [|by apply IH]. destruct (stat_matches_runtime_quarantine _ _); [by apply IH|].
  destruct (is_file r); [|destruct (is_dir r); [|by apply IH]].
  all: apply IH; [done..|]; by apply FsBounds.btree_insert_Forall.
Qed.
Lemma find_visit_conf q k d depth mx c : ∀ h queue st,
  held R h d → all_named fp_name h c → queue_held R h queue →
  conf R h (find_visit q k d depth mx c queue st) (λ r h', queue_held R h' r.1.2).
Proof.
  induction c as [|[name pending] c IH]; intros h queue st Hd Hc Hq; cbn [find_visit]; [by apply conf_mret|].
  apply Forall_cons in Hc as [Hn Hc]. fold (all_named fp_name h c) in Hc. simpl in Hn.
  destruct (_ <=? _)%N; [by apply conf_mret|]. cbv zeta. destruct (_ && _); [|by apply IH].
  conf_step; apply IH; try done. apply Forall_app. split; [done|]. by apply Forall_singleton.
Qed.
Lemma collect_path_matches_conf h q k d p mx :
  held R h d → conf R h (collect_path_matches q k d p mx) anything.
Proof.
  intros Hd. unfold collect_path_matches. eapply conf_bind; [|intros o h' L _; by apply conf_mret].
  apply (conf_rounds R (λ qs h', queue_held R h' qs.1) (λ _ _, True)); [|by apply Forall_singleton].
  intros [queue st] h1 Hq. simpl in Hq. unfold find_round.
  destruct queue as [|[[d' p'] depth] queue]; [by apply conf_mret|].
  apply Forall_cons in Hq as [Hd' Hq]. fold (queue_held R h1 queue) in Hq. simpl in Hd'. clear Hd.
  destruct (find_exhausted st); [by apply conf_mret|]. do 2 conf_step.
  eapply conf_bind; [apply find_candidates_conf; [done..|by constructor]|].
  intros [c st'] hc L Hc. advance L. simpl in Hc.
  eapply conf_bind; [by apply find_visit_conf|]. intros [[b queue'] st2] hv L Hq'. simpl in Hq'.
  apply conf_mret. by destruct b.
Qed.

Lemma search_candidates_conf d p ids entries : ∀ h c st,
  held R h d → (∀ n, Ok n ∈ entries → listed h n) → all_named sp_name h c →
  conf R h (search_candidates d p ids entries c st) (λ r h', all_named sp_name h' r.1).
Proof.
  induction entries as [|e entries IH]; intros h c st Hd Hl Hc; cbn [search_candidates]; [by apply conf_mret|].
  apply listed_entry in Hl as [He Hl]. destruct (_ <=? _)%N; [by apply conf_mret|].
  destruct e as [name|]; [|by apply IH]. destruct (skipped_name name) eqn:Es; [by apply IH|].
  specialize (He name eq_refl Es). cbv zeta. destruct (from_utf8 name); [|by apply IH].
  conf_step; [|by apply IH]. destruct (stat_matches_runtime_quarantine _ _); [by apply IH|].
  destruct (_ || _); [by apply IH|]. apply IH; [done..|]. by apply FsBounds.btree_insert_Forall.
Qed.
Lemma scan_conf h q d pending st :
  held R h d → named h (sp_name pending) → conf R h (scan_search_file q d pending st) anything.
Proof. intros. unfold scan_search_file. conf_steps. Qed.
#[local] Hint Resolve scan_conf : conf.
Lemma search_visit_conf q d depth mx c : ∀ h queue st,
  held R h d → all_named sp_name h c → queue_held R h queue →
  conf R h (search_visit q d depth mx c queue st) (λ r h', queue_held R h' r.1).
Proof.
  induction c as [|[name pending] c IH]; intros h queue st Hd Hc Hq; cbn [search_visit]; [by apply conf_mret|].
  apply Forall_cons in Hc as [Hn Hc]. fold (all_named sp_name h c) in Hc. simpl in Hn.
  destruct (search_exhausted st); [by apply conf_mret|]. cbv zeta. destruct (sp_is_dir pending).
  - destruct (_ <? _)%N; [|by apply IH]. conf_step; apply IH; try done.
    apply Forall_app. split; [done|]. by apply Forall_singleton.
  - conf_step. by apply IH.
Qed.
Lemma collect_text_matches_conf h q d p mx :
  held R h d → conf R h (collect_text_matches q d p mx) anything.
Proof.
  intros Hd. unfold collect_text_matches. eapply conf_bind; [|intros o h' L _; by apply conf_mret].
  apply (conf_rounds R (λ qs h', queue_held R h' qs.1) (λ _ _, True)); [|by apply Forall_singleton].
  intros [queue st] h1 Hq. simpl in Hq. unfold search_round.
  destruct queue as [|[[d' p'] depth] queue]; [by apply conf_mret|].
  apply Forall_cons in Hq as [Hd' Hq]. fold (queue_held R h1 queue) in Hq. simpl in Hd'. clear Hd.
  destruct (_ || _); [by apply conf_mret|]. do 2 conf_step.
  eapply conf_bind; [apply search_candidates_conf; [done..|by constructor]|].
  intros [c st'] hc L Hc. advance L. simpl in Hc.
  eapply conf_bind; [by apply search_visit_conf|]. intros [queue' st2] hv L Hq'. by apply conf_mret.
Qed.

Lemma shrink_Forall (P : bytes * PendingEntry → Prop) entries sb fuel : ∀ c b t,
  Forall P c → Forall P (shrink_candidates fuel entries sb c b t).1.1.
Proof.
  induction fuel as [|fuel IH]; intros c b t Hc; cbn [shrink_candidates];
    destruct (list_over entries sb b (count c)); try done.
  destruct (btree_pop_last c) as [[rest [k removed]]|] eqn:Ep; [|done].
  apply FsBounds.btree_pop_last_Some in Ep as ->. apply IH. by apply Forall_app in Hc as [? _].
Qed.
Lemma list_candidates_conf d p ids infos sb entries : ∀ h c b t,
  held R h d → (∀ n, Ok n ∈ entries → listed h n) → all_named pe_name h c →
  conf R h (list_candidates d p ids infos sb entries c b t) (λ r h', all_named pe_name h' r.1).
Proof.
  induction entries as [|e entries IH]; intros h c b t Hd Hl Hc; cbn [list_candidates]; [by apply conf_mret|].
  apply listed_entry in Hl as [He Hl]. cbv zeta. apply conf_bind_lift. intros name Hname.
  destruct e as [m|]; [injection Hname as ->|done]. specialize (He name eq_refl).
  destruct (skipped_name name) eqn:Es; [by apply IH|]. specialize (He eq_refl).
  eapply conf_attempt; [by apply conf_statat_answered| |intros x h' L; advance L; by apply IH].
  intros m h0 L Hm. advance L. destruct (_ || _); [by apply IH|].
  eapply conf_bind; [by apply conf_stat_modified_time|]. intros modified h1 L _. advance L.
  apply conf_bind_lift. intros bytes _.
  match goal with |- conf _ _ (match btree_insert ?k ?v c with _ => _ end) _ =>
    pose proof (FsBounds.btree_insert_Forall (λ e, named h1 (pe_name e.2)) k v c He Hc) as Hi;
    destruct (btree_insert k v c) as [c1 replaced] end.
  match goal with |- conf _ _ (match shrink_candidates ?f ?i ?s ?c ?b ?t with _ => _ end) _ =>
    pose proof (shrink_Forall _ i s f c b t Hi) as Hs;
    destruct (shrink_candidates f i s c b t) as [[c2 b2] t2] end.
  by apply IH.
Qed.
Lemma list_push_conf d depth mx c : ∀ h st,
  held R h d → all_named pe_name h c → queue_held R h (ls_queue st) →
  conf R h (list_push d depth mx c st) (λ st h', queue_held R h' (ls_queue st)).
Proof.
  induction c as [|[name pending] c IH]; intros h st Hd Hc Hq; cbn [list_push]; [by apply conf_mret|].
  apply Forall_cons in Hc as [Hn Hc]. fold (all_named pe_name h c) in Hc. simpl in Hn.
  cbv zeta. destruct (_ && _); [|by apply IH].
  conf_step; apply IH; try done. apply Forall_app. split; [done|]. by apply Forall_singleton.
Qed.
Lemma collect_entries_conf h d p mx sb : held R h d → conf R h (collect_entries d p mx sb) anything.
Proof.
  intros Hd. unfold collect_entries. eapply conf_bind; [|intros o h' L _; by apply conf_mret].
  apply (conf_rounds R (λ st h', queue_held R h' (ls_queue st)) (λ _ _, True)); [|by apply Forall_singleton].
  intros [queue infos sb' t] h1 Hq. simpl in Hq. unfold list_round. simpl ls_queue. cbv iota.
  destruct queue as [|[[d' p'] depth] queue]; [by apply conf_mret|].
  apply Forall_cons in Hq as [Hd' Hq]. fold (queue_held R h1 queue) in Hq. simpl in Hd'. clear Hd.
  destruct (_ || _); [by apply conf_mret|]. do 2 conf_step.
  eapply conf_bind; [apply list_candidates_conf; [done..|by constructor]|].
  intros [c t'] hc L Hc. advance L. simpl in Hc.
  eapply conf_bind; [by apply list_push_conf|]. intros st2 hv L Hq'. by apply conf_mret.
Qed.
End traversals.

#[export] Hint Resolve prepare_create_conf prepare_write_conf prepare_copy_conf prepare_trash_conf
  execute_create_conf execute_write_conf execute_copy_conf execute_trash_conf open_verified_conf
  read_bounded_conf read_binary_conf read_text_conf hash_reader_conf collect_entries_conf
  collect_path_matches_conf collect_text_matches_conf : conf.

(** ** The tools *)

Section tools.
Context {FM : FileModes} {C : Crypto} {T : Chrono} {J : JsonLength} (self : PinnedSafeRootSet).
Notation R := (descriptor <$> roots self).
Import FsTools.

Lemma sanitize_conf h path : conf R h (sanitize self path) anything.
Proof.
  unfold sanitize. do 2 conf_step. conf_step; [conf_step|]. apply conf_bind_lift. intros [parent n] Hn.
  assert (named h0 n) by (left; destruct (split_parent_and_name _) as [[p m]|] eqn:E; simplify_eq/=;
    by eapply split_name_plain). clear Hn.
  conf_steps.
Qed.
Lemma path_metadata_conf h path : conf R h (path_metadata self path) anything.
Proof.
  unfold path_metadata. do 3 conf_step.
  eapply conf_bind; [by apply conf_or_err, conf_fstat_answered|]. intros m h' L Hm. advance L.
  apply conf_bind_lift. intros [kind size] _.
  eapply conf_bind; [by apply conf_stat_modified_time|]. intros modified h2 L _. by apply conf_mret.
Qed.
Lemma reading_conf {E A} (p : fs E A) : reading self E A p → conf R [] p anything.
Proof.
  destruct 1; [apply sanitize_conf|unfold list_directory|unfold read_file|unfold read_binary_file
    |unfold read_binary_range|unfold read_text_range|unfold hash_file|apply path_metadata_conf
    |unfold find_paths|unfold search_text|unfold create_directory|unfold copy_file|unfold trash_file
    |unfold write_file|unfold create_directory_grant_target|unfold copy_file_grant_target
    |unfold trash_file_grant_target|unfold write_file_grant_target].
  all: conf_steps.
Qed.

Lemma mutation_conf {E A} (p : fs E A) : mutation self E A p → conf R [] p anything.
Proof.
  destruct 1; (eapply conf_bind; [apply conf_or_err|intros m h' L Hm; conf_leaf]).
  - unfold prepare_create_directory_mutation_blocking. conf_steps.
  - unfold prepare_copy_file_mutation_blocking. conf_steps.
  - unfold prepare_trash_file_mutation_blocking. conf_steps.
  - unfold prepare_write_file_mutation_blocking. conf_steps.
Qed.

Lemma conf_obeys {E A} (p : fs E A) r h : conf R [] p anything → exec p [] r h → obeys (confined R) h.
Proof. intros Hp He. by eapply safe_exec in Hp as [_ ?]. Qed.
Lemma reading_panics {E A} (p : fs E A) r h :
  reading self E A p → exec p [] r h → Ev Panic () ∈ h → time_out_of_range h.
Proof. intros Hp He. eapply confined_panic, conf_obeys; [by apply reading_conf|exact He]. Qed.

(** C14: no tool leaves the pinned safe roots.  In every run of every tool,
    whatever the kernel answers, each call is made on a descriptor that is a
    pinned root or was opened in this run from such a one; each name is a single
    component, that is one that neither stays nor goes up, or one the kernel
    listed, or a fresh artifact of this run; no descriptor is opened by following
    a link; and no path is resolved from the root of the filesystem. *)
Theorem tools_confined {E A} (p : fs E A) r h :
  reading self E A p ∨ mutation self E A p → exec p [] r h → obeys (confined R) h.
Proof. intros [Hp|Hp]; apply conf_obeys; [by apply reading_conf|by apply mutation_conf]. Qed.
End tools.

#[local] Existing Instances example_crypto example_file_modes FsSearch.example_chrono FsSearch.example_json.

Lemma tools_confined_witness :
  ∃ r h, exec (prepared ← or_err Filesystem
                 (FsTools.prepare_write_file_mutation_blocking FsSearch.roots (bs "/data/note.txt") (bs "new"));
               WriteFileMutation.execute_authorized_with_commit prepared) [] (Ok r) h ∧
    length h = 42 ∧ obeys (confined (descriptor <$> roots FsSearch.roots)) h.
Proof.
  pose (p := (prepared ← or_err Filesystem
                 (FsTools.prepare_write_file_mutation_blocking FsSearch.roots (bs "/data/note.txt") (bs "new"));
               WriteFileMutation.execute_authorized_with_commit prepared)).
  pose proof (FsExample.outcome_exec p FsSearch.world) as He.
  destruct (snd (FsExample.outcome p FsSearch.world)) as [r|] eqn:Hr; [|vm_compute in Hr; discriminate Hr].
  exists r, (FsExample.trace p FsSearch.world). split; [exact He|]. split; [vm_compute; reflexivity|].
  apply (tools_confined FsSearch.roots p (Ok r)); [|exact He]. right. apply FsTools.mutation_write.
Defined.
End FsConfinement.
