(* ===== verification/FsReadOnly.v ===== *)
(** * What only looks changes nothing

    The readers, the traversals, the previews and the grant targets of
    [src/src/tools/filesystem.rs] make no call that changes the filesystem. *)

From S2P Require Import Prelude RustStd RustPath RequestGrantCapability AppErrors GrantTargets.
From S2P Require Import WriteFileGrant WritePolicy FsCalls SafeRoots Quarantine FsPrepare FsReads.
From S2P Require Import FsTraverse FsMutations FsLogic FsGate FsExample FsBounds FsSearch FsTools.

Module FsReadOnly.
Import AppErrors SafeRoots Quarantine FsPrepare FsReads FsTraverse FsMutations FsTools FsBounds.

Section passive.
Context {FM : FileModes} {C : Crypto} {T : Chrono} {J : JsonLength}.

Lemma open_verified_passive a n : passive_prog (open_verified_regular_file a n).
Proof. unfold open_verified_regular_file. solve_calls. Qed.
Lemma read_range_passive v o n : passive_prog (read_range_bytes v o n).
Proof. unfold read_range_bytes. solve_calls. Qed.
#[local] Hint Resolve open_verified_passive read_range_passive : calls.
Lemma read_binary_passive v o n : passive_prog (read_verified_binary_range v o n).
Proof. unfold read_verified_binary_range. solve_calls. Qed.
Lemma read_text_passive v o n : passive_prog (read_verified_text_range v o n).
Proof. unfold read_verified_text_range. solve_calls. Qed.
Lemma hash_reader_passive f : passive_prog (hash_reader f).
Proof.
  unfold hash_reader. apply calls_bind; [|solve_calls]. apply calls_rounds. intros [hashed remaining].
  unfold hash_round. solve_calls.
Qed.
#[local] Hint Resolve read_binary_passive read_text_passive hash_reader_passive : calls.

Lemma stat_modified_time_passive m : passive_prog (stat_modified_time m).
Proof. unfold stat_modified_time. solve_calls. Qed.
#[local] Hint Resolve stat_modified_time_passive : calls.
Lemma list_candidates_passive d p ids infos sb entries : ∀ c b t,
  passive_prog (list_candidates d p ids infos sb entries c b t).
Proof. induction entries as [|e entries IH]; intros c b t; cbn [list_candidates]; solve_calls. Qed.
Lemma list_push_passive d depth mx c : ∀ st, passive_prog (list_push d depth mx c st).
Proof. induction c as [|[name pending] c IH]; intros st; cbn [list_push]; cbv zeta; solve_calls. Qed.
Lemma find_candidates_passive d p ids entries : ∀ c st, passive_prog (find_candidates d p ids entries c st).
Proof. induction entries as [|e entries IH]; intros c st; cbn [find_candidates]; cbv zeta; solve_calls. Qed.
Lemma find_visit_passive q k d depth mx c : ∀ queue st, passive_prog (find_visit q k d depth mx c queue st).
Proof. induction c as [|[name pending] c IH]; intros queue st; cbn [find_visit]; cbv zeta; solve_calls. Qed.
Lemma search_candidates_passive d p ids entries : ∀ c st,
  passive_prog (search_candidates d p ids entries c st).
Proof. induction entries as [|e entries IH]; intros c st; cbn [search_candidates]; cbv zeta; solve_calls. Qed.
Lemma scan_passive q d pending st : passive_prog (scan_search_file q d pending st).
Proof. unfold scan_search_file. cbv zeta. solve_calls. Qed.
#[local] Hint Resolve scan_passive : calls.
Lemma search_visit_passive q d depth mx c : ∀ queue st, passive_prog (search_visit q d depth mx c queue st).
Proof. induction c as [|[name pending] c IH]; intros queue st; cbn [search_visit]; cbv zeta; solve_calls. Qed.
#[local] Hint Resolve list_candidates_passive list_push_passive find_candidates_passive find_visit_passive
  search_candidates_passive search_visit_passive : calls.
Lemma collect_entries_passive d p mx sb : passive_prog (collect_entries d p mx sb).
Proof. unfold collect_entries. apply calls_bind; [|solve_calls]. apply calls_rounds. intros st. unfold list_round. solve_calls. Qed.
Lemma collect_path_matches_passive q k d p mx : passive_prog (collect_path_matches q k d p mx).
Proof. unfold collect_path_matches. apply calls_bind; [|solve_calls]. apply calls_rounds. intros st. unfold find_round. solve_calls. Qed.
Lemma collect_text_matches_passive q d p mx : passive_prog (collect_text_matches q d p mx).
Proof. unfold collect_text_matches. apply calls_bind; [|solve_calls]. apply calls_rounds. intros st. unfold search_round. solve_calls. Qed.
#[local] Hint Resolve collect_entries_passive collect_path_matches_passive collect_text_matches_passive : calls.

Lemma reading_passive self E A (p : fs E A) : reading self E A p → passive_prog p.
Proof.
  destruct 1; [unfold sanitize|unfold list_directory|unfold read_file|unfold read_binary_file
    |unfold read_binary_range|unfold read_text_range|unfold hash_file|unfold path_metadata
    |unfold find_paths|unfold search_text|unfold create_directory|unfold copy_file|unfold trash_file
    |unfold write_file|unfold create_directory_grant_target|unfold copy_file_grant_target
    |unfold trash_file_grant_target|unfold write_file_grant_target].
  all: cbv zeta; solve_calls.
Qed.

Lemma passive_exec {A} (p : prog A) r h : passive_prog p → exec p [] r h → Forall is_passive h.
Proof.
  intros Hp He. pose proof (safe_passive (λ _ _, True) p [] (λ _ _ _ _, I) Hp) as Hs.
  destruct (safe_exec _ _ _ _ _ _ He I Hs) as [(t & -> & Ht) _]. by rewrite app_nil_r.
Qed.

(** What a preparation is asked to say about itself. *)
Ltac prepared :=
  repeat match goal with
  | |- returns (_ ≫= _) (ok_of _) => apply returns_any; intros
  | |- returns (match ?x with _ => _ end) _ => destruct x
  | |- returns (mret _) _ => reflexivity
  end.
Lemma prepare_create_dry a b : returns (prepare_create_directory a b) (ok_of (λ m, cd_dry_run (pc_result m) = b)).
Proof. unfold prepare_create_directory. prepared. Qed.
Lemma prepare_copy_dry a a' b : returns (prepare_copy_file a a' b) (ok_of (λ m, cf_dry_run (pcf_result m) = b)).
Proof. unfold prepare_copy_file. prepared. Qed.
Lemma prepare_trash_dry a b : returns (prepare_trash_file a b) (ok_of (λ m, tf_dry_run (pt_result m) = b)).
Proof. unfold prepare_trash_file. prepared. Qed.
Lemma prepare_write_dry a c b : returns (prepare_write_file a c b) (ok_of (λ m, wf_dry_run (pw_result m) = b)).
Proof. unfold prepare_write_file. prepared. Qed.

(** C17: what only looks changes nothing.  Every reader, traversal, preview and
    grant target makes only calls that neither change the filesystem nor ask for
    authorization, whatever the kernel answers; a caller that says
    [dry_run = false] without going through a grant is refused before the first
    call; and every preview that is answered says that it was a dry run. *)
Theorem reads_change_nothing self :
  (∀ E A (p : fs E A) r h, reading self E A p → exec p [] r h → Forall is_passive h) ∧
  (∀ path r h, exec (create_directory self path (Some false)) [] r h →
     r = Err CreateDirectoryMutationAuthorizationRequired ∧ h = []) ∧
  (∀ source destination r h, exec (copy_file self source destination (Some false)) [] r h →
     r = Err CopyMutationAuthorizationRequired ∧ h = []) ∧
  (∀ path r h, exec (trash_file self path (Some false)) [] r h →
     r = Err TrashMutationAuthorizationRequired ∧ h = []) ∧
  (∀ path content r h, exec (write_file self path content (Some false)) [] r h →
     h = [] ∧ r = if (len content <=? WritePolicy.DEFAULT_MAX_WRITE_BYTES)%N
                  then Err WriteMutationAuthorizationRequired
                  else Err (WritePayloadTooLarge (len content) WritePolicy.DEFAULT_MAX_WRITE_BYTES)) ∧
  (∀ path d r h, exec (create_directory self path d) [] (Ok r) h → cd_dry_run r = true) ∧
  (∀ source destination d r h, exec (copy_file self source destination d) [] (Ok r) h → cf_dry_run r = true) ∧
  (∀ path d r h, exec (trash_file self path d) [] (Ok r) h → tf_dry_run r = true) ∧
  (∀ path content d r h, exec (write_file self path content d) [] (Ok r) h → wf_dry_run r = true).
Proof.
  split_and!.
  - intros E A p r h Hp. by apply passive_exec, (reading_passive self).
  - intros path r h He. by inversion He.
  - intros source destination r h He. by inversion He.
  - intros path r h He. by inversion He.
  - intros path content r h. unfold write_file, validate_write_payload, WritePolicy.validate_payload_size.
    change (WritePolicy.max_write_bytes WritePolicy.policy_default) with WritePolicy.DEFAULT_MAX_WRITE_BYTES.
    rewrite N.leb_antisym. destruct (_ <? _)%N; intros He; by inversion He.
  - intros path d r h He. apply (returns_exec _ (ok_of (λ r, cd_dry_run r = true))) in He; [done|].
    unfold create_directory. do 2 (apply returns_any; intros).
    eapply returns_bind; [apply prepare_create_dry|]. done.
  - intros source destination d r h He. apply (returns_exec _ (ok_of (λ r, cf_dry_run r = true))) in He; [done|].
    unfold copy_file. do 3 (apply returns_any; intros).
    eapply returns_bind; [apply prepare_copy_dry|]. done.
  - intros path d r h He. apply (returns_exec _ (ok_of (λ r, tf_dry_run r = true))) in He; [done|].
    unfold trash_file. do 2 (apply returns_any; intros).
    eapply returns_bind; [apply prepare_trash_dry|]. done.
  - intros path content d r h He. apply (returns_exec _ (ok_of (λ r, wf_dry_run r = true))) in He; [done|].
    unfold write_file. do 3 (apply returns_any; intros).
    eapply returns_bind; [apply prepare_write_dry|]. done.
Qed.
End passive.

#[local] Existing Instances example_crypto example_file_modes FsSearch.example_chrono FsSearch.example_json.

Lemma reads_change_nothing_witness :
  ∃ r h, exec (write_file FsSearch.roots (bs "/data/note.txt") (bs "new") None) [] (Ok r) h ∧
    wf_dry_run r = true ∧ wf_disposition r = WriteFile.Replace ∧ h ≠ [] ∧ Forall is_passive h.
Proof.
  pose (p := write_file FsSearch.roots (bs "/data/note.txt") (bs "new") None).
  pose proof (FsExample.outcome_exec p FsSearch.world) as He.
  destruct (snd (FsExample.outcome p FsSearch.world)) as [r|] eqn:Hr; [|vm_compute in Hr; discriminate Hr].
  pose proof (reads_change_nothing FsSearch.roots) as (H & _ & _ & _ & _ & _ & _ & _ & Hdry).
  exists r, (FsExample.trace p FsSearch.world). split; [exact He|]. split; [exact (Hdry _ _ _ _ _ He)|].
  split; [vm_compute in Hr; injection Hr as <-; reflexivity|].
  split; [vm_compute; discriminate|]. exact (H _ _ p _ _ (reading_write _ _ _ _) He).
Defined.
End FsReadOnly.
