(* ===== verification/Anchoring.v ===== *)
(** * What anchoring accepts

    [FileSystemTools::try_new] and [FileSystemTools::anchor] of
    [src/src/tools/filesystem.rs]: the labels of the roots a server starts with,
    and exactly which requested paths lie under them. *)

From stdpp Require Import sorting.
From S2P Require Import Prelude RustStd RustPath AppErrors FsCalls SafeRoots FsExample FsBounds FsSearch FsConfine.

Module Anchoring.
Import AppErrors SafeRoots FsBounds.

(** ** Paths *)

Lemma split_on_app_any sep a b : split_on sep (a ++ sep :: b) = split_on sep a ++ split_on sep b.
Proof.
  induction a as [|c a IH]; simpl; [by rewrite bool_decide_true|].
  case_bool_decide; [by rewrite IH|]. rewrite IH.
  pose proof (split_on_ne sep a). by destruct (split_on sep a).
Qed.
Lemma path_segments_app a b : path_segments (a ++ SLASH :: b) = path_segments a ++ path_segments b.
Proof. unfold path_segments. by rewrite split_on_app_any, List.filter_app. Qed.
Lemma path_segments_trailing a : path_segments (a ++ [SLASH]) = path_segments a.
Proof. rewrite path_segments_app. apply app_nil_r. Qed.

(** Joining a relative path appends its names. *)
Lemma path_join_segments base p :
  is_absolute p = false → path_segments (path_join base p) = path_segments base ++ path_segments p.
Proof.
  intros Hp. unfold path_join. rewrite Hp. case_bool_decide as Hl; simpl; [|by rewrite path_segments_app].
  destruct (last base) as [c|] eqn:E.
  - assert (c = SLASH) as -> by set_solver. apply last_Some in E as [b' ->].
    rewrite <-app_assoc. simpl. by rewrite path_segments_app, path_segments_trailing.
  - by apply last_None in E as ->.
Qed.
Lemma path_join_absolute base p :
  is_absolute base = true → is_absolute (path_join base p) = true.
Proof.
  intros Hb. unfold path_join. destruct (is_absolute p) eqn:Hp; [done|].
  unfold is_absolute in *. apply bool_decide_eq_true in Hb. apply bool_decide_eq_true.
  by destruct base.
Qed.

Lemma strip_segments_complete prefix : ∀ raw rest,
  names raw = prefix ++ rest → is_Some (strip_segments prefix raw).
Proof.
  induction prefix as [|b prefix IH]; intros raw rest Hn; simpl; [by eexists|].
  rewrite <-names_trim_left in Hn. destruct (trim_left_head raw) as [E|(s & r & E & Hs)]; rewrite E in *; [done|].
  unfold names in Hn. simpl in Hn. rewrite Hs in Hn. simpl in Hn. injection Hn as -> Hn.
  replace (bytes_eqb b b) with true by (symmetry; by apply bytes_eqb_true). by eapply IH.
Qed.
(** [strip_prefix] succeeds exactly when the names of the base come first. *)
Lemma strip_prefix_iff p base :
  is_Some (strip_prefix p base) ↔ path_segments base `prefix_of` path_segments p.
Proof.
  split.
  - intros [rel Hr]. eexists. by apply strip_prefix_segments.
  - intros [rest Hr]. unfold strip_prefix. rewrite path_segments_names in Hr at 1.
    apply strip_segments_complete in Hr as [raw ->]. by eexists.
Qed.
Lemma strip_prefix_relative p base rel : strip_prefix p base = Some rel → is_absolute rel = false.
Proof.
  intros Hr%strip_prefix_components. destruct (is_absolute rel) eqn:E; [|done].
  unfold components in Hr. rewrite E in Hr. destruct (path_segments rel) as [|s l]; [done|].
  simpl in Hr. injection Hr as Hr _. unfold segment_component in Hr. by destruct (bytes_eqb s (bs "..")).
Qed.

Lemma plain_segments n : plain n → path_segments n = [n] ∧ is_absolute n = false.
Proof.
  intros (Hne & Hdot & _ & Hs). split.
  - unfold path_segments. rewrite split_on_none by done. simpl. unfold skipped.
    replace (bytes_eqb n []) with false by (symmetry; by apply bytes_eqb_false).
    by replace (bytes_eqb n (bs ".")) with false by (symmetry; by apply bytes_eqb_false).
  - unfold is_absolute. apply bool_decide_eq_false. intros H. destruct n as [|c n]; [done|].
    simpl in H. simplify_eq. apply Hs. by apply list_elem_of_here.
Qed.

(** ** Labels *)

Definition safe_name (n : bytes) : Prop := plain n ∧ is_runtime_quarantine_name n = false.
(** A label is an absolute path below the root of the filesystem, through names
    that are neither dots nor a quarantine. *)
Definition label_ok (l : bytes) : Prop :=
  is_absolute l = true ∧ path_segments l ≠ [] ∧ Forall safe_name (path_segments l).

Lemma normalize_components_Ok cs : ∀ acc n,
  normalize_components cs acc = Ok n → is_absolute acc = true → Forall plain (path_segments acc) →
  (∀ m, Normal m ∈ cs → plain m) → is_absolute n = true ∧ Forall plain (path_segments n).
Proof.
  induction cs as [|c cs IH]; intros acc n; simpl; [by intros [= ->]|].
  intros Hn Ha Hp Hcs. assert (∀ m, Normal m ∈ cs → plain m) by (intros; apply Hcs; set_solver).
  destruct c as [| | |m]; [by eapply IH|by eapply IH|done|].
  assert (plain m) as Hm by (apply Hcs; set_solver). destruct (plain_segments m Hm) as [Hs Hrel].
  eapply IH; [done|by apply path_join_absolute| |done].
  rewrite path_join_segments, Hs by done. apply Forall_app. split; [done|]. by apply Forall_singleton.
Qed.
Lemma components_absolute p : is_absolute p = true → components p = RootDir :: (segment_component <$> path_segments p).
Proof. unfold components. by intros ->. Qed.
Lemma validated_label_Ok root n : validated_label root = Ok n → label_ok n.
Proof.
  unfold validated_label. intros H. inv_ok H. simplify_eq/=. reflect_guards.
  match goal with E : normalize_components _ _ = Ok _ |- _ => apply normalize_components_Ok in E as [Ha Hp] end;
    [|done|by constructor|intros m; apply component_plain].
  split_and!; [done| |].
  - intros Hs. match goal with E : path_eq n _ = false |- _ =>
      unfold path_eq in E; apply bool_decide_eq_false in E; apply E end.
    by rewrite components_absolute, Hs.
  - rewrite Forall_forall in Hp |- *. intros m Hm. split; [by apply Hp|].
    match goal with E : contains_runtime_quarantine_component n = false |- _ => rename E into Hq end.
    unfold contains_runtime_quarantine_component in Hq. rewrite components_absolute in Hq by done.
    simpl in Hq. destruct (is_runtime_quarantine_name m) eqn:Em; [|done]. exfalso.
    rewrite <-not_true_iff_false in Hq. apply Hq. apply existsb_exists. exists (segment_component m).
    split; [apply list_elem_of_In; by apply list_elem_of_fmap_2|].
    unfold segment_component. destruct (Hp m Hm) as (_ & _ & Hdd & _).
    replace (bytes_eqb m (bs "..")) with false by (symmetry; by apply bytes_eqb_false). done.
Qed.

(** *** Their order *)

Lemma bytes_leb_antisym a : ∀ b, bytes_leb a b = true → bytes_leb b a = true → a = b.
Proof.
  induction a as [|x a IH]; intros [|y b]; simpl; try done.
  destruct (N.ltb_spec (byte_val x) (byte_val y)), (N.ltb_spec (byte_val y) (byte_val x)); try done; try lia.
  intros. f_equal; [apply byte_val_inj; lia|by apply IH].
Qed.
Lemma bytes_leb_trans a : ∀ b c, bytes_leb a b = true → bytes_leb b c = true → bytes_leb a c = true.
Proof.
  induction a as [|x a IH]; intros [|y b] [|z c]; simpl; try done.
  destruct (N.ltb_spec (byte_val x) (byte_val y)), (N.ltb_spec (byte_val y) (byte_val x)),
    (N.ltb_spec (byte_val y) (byte_val z)), (N.ltb_spec (byte_val z) (byte_val y)),
    (N.ltb_spec (byte_val x) (byte_val z)), (N.ltb_spec (byte_val z) (byte_val x)); try done; try lia.
  apply IH.
Qed.
Lemma names_leb_antisym a : ∀ b, names_leb a b = true → names_leb b a = true → a = b.
Proof.
  induction a as [|x a IH]; intros [|y b]; simpl; try done.
  destruct (bytes_eqb x y) eqn:E; reflect_guards.
  - subst. replace (bytes_eqb y y) with true by (symmetry; by apply bytes_eqb_true). intros. f_equal. by apply IH.
  - replace (bytes_eqb y x) with false by (symmetry; by apply bytes_eqb_false). intros.
    destruct E. by apply bytes_leb_antisym.
Qed.
Lemma names_leb_trans a : ∀ b c, names_leb a b = true → names_leb b c = true → names_leb a c = true.
Proof.
  induction a as [|x a IH]; intros [|y b] [|z c]; simpl; try done.
  destruct (bytes_eqb x y) eqn:E1, (bytes_eqb y z) eqn:E2, (bytes_eqb x z) eqn:E3;
    reflect_guards; subst; try done; intros H1 H2.
  - by eapply IH.
  - destruct E2. by apply bytes_leb_antisym.
  - by eapply bytes_leb_trans.
Qed.
Lemma names_leb_total a : ∀ b, names_leb a b = true ∨ names_leb b a = true.
Proof.
  induction a as [|x a IH]; intros [|y b]; simpl; auto.
  destruct (bytes_eqb x y) eqn:E; reflect_guards.
  - subst. replace (bytes_eqb y y) with true by (symmetry; by apply bytes_eqb_true). apply IH.
  - replace (bytes_eqb y x) with false by (symmetry; by apply bytes_eqb_false). apply bytes_leb_total.
Qed.
#[local] Instance path_le_trans : Transitive path_le.
Proof. intros a b c. apply names_leb_trans. Qed.
#[local] Instance path_le_total : Total path_le.
Proof. intros a b. apply names_leb_total. Qed.

(** Strictly before, in the order of the labels. *)
Definition path_lt (a b : bytes) : Prop := path_le a b ∧ path_segments a ≠ path_segments b.

Lemma path_eq_segments a b :
  is_absolute a = true → is_absolute b = true → path_eq a b = true ↔ path_segments a = path_segments b.
Proof.
  intros Ha Hb. unfold path_eq. rewrite bool_decide_eq_true, !components_absolute by done.
  split; [|by intros ->]. intros [= H]. revert H. generalize (path_segments b).
  induction (path_segments a) as [|x l IH]; intros [|y k]; try done. simpl. intros [= Hxy Hl].
  f_equal; [|by apply IH]. unfold segment_component in Hxy.
  destruct (bytes_eqb x (bs "..")) eqn:E1, (bytes_eqb y (bs "..")) eqn:E2; reflect_guards; congruence.
Qed.
Lemma dedup_cons a b l :
  dedup (a :: b :: l) = if path_eq a b then dedup (b :: l) else a :: dedup (b :: l).
Proof. done. Qed.
Lemma dedup_elem x l : x ∈ dedup l → x ∈ l.
Proof.
  induction l as [|a [|b l] IH]; simpl; [done..|]. destruct (path_eq a b).
  - intros Hx. apply list_elem_of_further. by apply IH.
  - intros [->|Hx]%elem_of_cons; [apply list_elem_of_here|apply list_elem_of_further]. by apply IH.
Qed.
Lemma dedup_nonempty l : l ≠ [] → dedup l ≠ [].
Proof. induction l as [|a [|b l] IH]; simpl; [done..|]. intros _. destruct (path_eq a b); [by apply IH|done]. Qed.
Lemma dedup_length l : length (dedup l) ≤ length l.
Proof. induction l as [|a [|b l] IH]; simpl in *; [lia..|]. destruct (path_eq a b); simpl; lia. Qed.
Lemma dedup_sorted l :
  Forall label_ok l → StronglySorted path_le l → StronglySorted path_lt (dedup l).
Proof.
  induction l as [|a [|b l] IH]; intros Hok Hs; [constructor|by repeat constructor|].
  apply Forall_cons in Hok as [Ha Hok]. apply StronglySorted_inv in Hs as [Hs Hab]. rewrite dedup_cons.
  destruct (path_eq a b) eqn:E; [by apply IH|]. constructor; [by apply IH|].
  apply Forall_cons in Hok as [Hb Hok]. destruct Ha as [Ha _], Hb as [Hb _].
  apply Forall_forall. intros x Hx%dedup_elem. rewrite Forall_forall in Hab.
  split; [by apply Hab|]. intros Hxa.
  assert (path_le b x) as Hbx.
  { apply elem_of_cons in Hx as [->|Hx]; [by destruct (path_le_total b b)|].
    apply StronglySorted_inv in Hs as [_ Hs]. rewrite Forall_forall in Hs. by apply Hs. }
  assert (path_eq a b = true) as Hab'; [|congruence]. apply path_eq_segments; [done..|].
  apply names_leb_antisym; [by apply Hab; apply list_elem_of_here|]. by rewrite Hxa.
Qed.

(** ** Starting *)

(** The roots a server runs with. *)
Definition well_formed (self : PinnedSafeRootSet) : Prop :=
  length (roots self) = length (labels self) ∧ 1 ≤ length (labels self) ≤ MAX_SAFE_ROOTS ∧
  Forall label_ok (labels self) ∧ StronglySorted path_lt (labels self).

Section starting.
Context {FM : FileModes}.

Lemma validate_roots_returns safe_roots :
  returns (validate_roots safe_roots)
    (ok_of (λ ls, Forall label_ok ls ∧ length ls = length safe_roots)).
Proof.
  induction safe_roots as [|root safe_roots IH]; cbn [validate_roots]; [by repeat constructor|].
  apply (returns_bind _ label_ok).
  { apply returns_lift. destruct (validated_label root) eqn:E; [|done]. by eapply validated_label_Ok. }
  intros n Hn. apply returns_any. intros _. eapply returns_bind; [exact IH|]. intros ls [Hls Hl].
  split; [by constructor|simpl; by rewrite Hl].
Qed.
Lemma pin_safe_roots_returns ls : returns (pin_safe_roots ls) (ok_of (λ r, length r = length ls)).
Proof.
  induction ls as [|l ls IH]; cbn [pin_safe_roots]; [done|]. apply returns_any. intros r.
  eapply returns_bind; [exact IH|]. intros rs Hrs. simpl. by rewrite Hrs.
Qed.

(** C16: a server starts only with well-formed roots: between 1 and 64 of them,
    each with its pinned descriptor; every label is an absolute path, other than
    the root of the filesystem, through names that are neither dots nor a
    quarantine; and the labels are strictly sorted, so no directory is listed
    twice, whatever was configured and whatever the kernel answers. *)
Theorem try_new_well_formed safe_roots self h :
  exec (try_new safe_roots) [] (Ok self) h → well_formed self.
Proof.
  intros He. apply (returns_exec _ (ok_of well_formed)) in He; [done|]. clear He. unfold try_new.
  apply (returns_bind _ (λ ls, 1 ≤ length ls ≤ MAX_SAFE_ROOTS ∧ Forall label_ok ls ∧ StronglySorted path_lt ls)).
  - unfold validated_safe_root_labels. apply (returns_bind _ (λ _, length safe_roots ≠ 0)).
    { apply returns_lift. by destruct (Nat.eqb_spec (length safe_roots) 0). }
    intros [] H0. apply (returns_bind _ (λ _, length safe_roots ≤ MAX_SAFE_ROOTS)).
    { apply returns_lift. destruct (Nat.ltb_spec MAX_SAFE_ROOTS (length safe_roots)); [done|]. simpl. lia. }
    intros [] H1. eapply returns_bind; [apply validate_roots_returns|]. intros ls [Hok Hl]. simpl.
    set (sorted := merge_sort path_le ls).
    assert (length sorted = length safe_roots) as Hlen
      by (rewrite <-Hl; apply Permutation_length, merge_sort_Permutation).
    assert (Forall label_ok sorted) as Hsok by (by unfold sorted; rewrite merge_sort_Permutation).
    split_and!.
    + pose proof (dedup_nonempty sorted). destruct (dedup sorted); simpl in *; [|lia].
      destruct sorted; simpl in *; [lia|]. naive_solver.
    + pose proof (dedup_length sorted). lia.
    + rewrite Forall_forall in Hsok |- *. intros x Hx%dedup_elem. by apply Hsok.
    + apply dedup_sorted; [done|]. apply StronglySorted_merge_sort; apply _.
  - intros ls (Hl & Hok & Hs). eapply returns_bind; [apply pin_safe_roots_returns|]. intros rs Hrs.
    unfold well_formed. simpl. split_and!; try done; lia.
Qed.
End starting.

(** ** Anchoring *)

Lemma max_by_key_spec {A} (key : A → nat) l :
  match max_by_key key l with
  | None => l = []
  | Some x => x ∈ l ∧ Forall (λ y, key y ≤ key x) l
  end.
Proof.
  unfold max_by_key. induction l as [|x l IH] using rev_ind; [done|]. rewrite foldl_app. simpl.
  destruct (foldl _ None l) as [b|].
  - destruct IH as [Hb Hl]. destruct (Nat.ltb_spec (key x) (key b)).
    + split; [set_solver|]. apply Forall_app. split; [done|]. apply Forall_singleton. lia.
    + split; [set_solver|]. apply Forall_app. split; [|by apply Forall_singleton].
      eapply Forall_impl; [exact Hl|]. simpl. lia.
  - subst. simpl. split; [set_solver|]. by apply Forall_singleton.
Qed.

Lemma containing_roots_elem ls candidate i root rel :
  (i, root, rel) ∈ containing_roots ls candidate ↔
  ls !! i = Some root ∧ strip_prefix candidate root = Some rel.
Proof.
  unfold containing_roots. rewrite list_elem_of_omap. split.
  - intros ([j r] & Hin & Hs). apply list_elem_of_lookup_1 in Hin as [k Hk].
    apply lookup_zip_with_Some in Hk as (x & y & Hxy & Hx & Hy). simplify_eq.
    apply lookup_seq in Hx as [-> _]. destruct (strip_prefix candidate y) eqn:E; by simplify_eq/=.
  - intros [Hi Hs]. exists (i, root). rewrite Hs. split; [|done].
    apply list_elem_of_lookup_2 with i. apply lookup_zip_with_Some. exists i, root.
    split_and!; [done| |done]. apply lookup_seq. split; [done|]. by apply lookup_lt_Some in Hi.
Qed.

(** Where a request was anchored: under the longest root whose names begin its
    own, and what remains avoids the quarantines. *)
Definition anchored_at (self : PinnedSafeRootSet) (input : bytes) (a : AnchoredPath) : Prop :=
  ∃ root, labels self !! root_index a = Some root ∧ is_Some (roots self !! root_index a) ∧
    anchored_roots a = self ∧
    path_segments input = path_segments root ++ path_segments (relative_path a) ∧
    components (relative_path a) = Normal <$> path_segments (relative_path a) ∧
    Forall safe_name (path_segments (relative_path a)) ∧
    path_segments (display_path a) = path_segments input ∧
    (∀ other, other ∈ labels self → path_segments other `prefix_of` path_segments input →
       length (path_segments other) ≤ length (path_segments root)).

Section anchoring.
Context (self : PinnedSafeRootSet) (input : bytes).

(** The part of [anchor] after the textual checks. *)
Lemma chosen_root :
  Forall label_ok (labels self) →
  match max_by_key (λ '(_, root, _), length (components root)) (containing_roots (labels self) input) with
  | None => ∀ root, root ∈ labels self → ¬ path_segments root `prefix_of` path_segments input
  | Some (i, root, rel) =>
      labels self !! i = Some root ∧ strip_prefix input root = Some rel ∧
      (∀ other, other ∈ labels self → path_segments other `prefix_of` path_segments input →
         length (path_segments other) ≤ length (path_segments root))
  end.
Proof.
  intros Hok. pose proof (max_by_key_spec (λ '(_, root, _), length (components root))
    (containing_roots (labels self) input)) as H.
  assert (∀ other, other ∈ labels self → path_segments other `prefix_of` path_segments input →
    ∃ i rel, (i, other, rel) ∈ containing_roots (labels self) input) as Hc.
  { intros other [i Hi]%list_elem_of_lookup_1 [rel Hrel]%strip_prefix_iff. exists i, rel.
    by apply containing_roots_elem. }
  assert (∀ other, other ∈ labels self → length (components other) = S (length (path_segments other))) as Hl.
  { rewrite Forall_forall in Hok. intros other Ho. rewrite components_absolute by (by apply Hok).
    simpl. by rewrite length_fmap. }
  destruct (max_by_key _ _) as [[[i root] rel]|].
  - destruct H as [[Hi Hs]%containing_roots_elem Hmax]. split_and!; [done..|].
    intros other Ho Hp. destruct (Hc other Ho Hp) as (j & rel' & Hin). rewrite Forall_forall in Hmax.
    apply Hmax in Hin. rewrite !Hl in Hin; [lia|by eapply list_elem_of_lookup_2|done].
  - intros root Hr Hp. destruct (Hc root Hr Hp) as (i & rel & Hin). rewrite H in Hin.
    by apply not_elem_of_nil in Hin.
Qed.

Lemma unsafe_components rel :
  components rel = segment_component <$> path_segments rel →
  existsb unsafe_component (components rel) = false ↔
  Forall (λ n, n ≠ bs ".." ∧ is_runtime_quarantine_name n = false) (path_segments rel).
Proof.
  intros ->. induction (path_segments rel) as [|n l IH]; simpl; [by split|].
  rewrite orb_false_iff, IH, Forall_cons. unfold segment_component.
  destruct (bytes_eqb n (bs "..")) eqn:E; reflect_guards; simpl; naive_solver.
Qed.
Lemma parent_components :
  is_absolute input = true →
  existsb is_parent_dir (components input) = false ↔ bs ".." ∉ path_segments input.
Proof.
  intros Ha. rewrite components_absolute by done. simpl.
  induction (path_segments input) as [|n l IH]; simpl; [by split; [intros _; apply not_elem_of_nil|]|].
  rewrite orb_false_iff, IH, not_elem_of_cons. unfold segment_component.
  destruct (bytes_eqb n (bs "..")) eqn:E; reflect_guards; simpl; naive_solver.
Qed.

Lemma anchor_Ok a :
  length (roots self) = length (labels self) → Forall label_ok (labels self) →
  anchor self input = Ok a → anchored_at self input a.
Proof.
  intros Hlen Hok H. pose proof (chosen_root Hok) as Hroot. unfold anchor in H. inv_ok H.
  destruct x1 as [[i root] rel]. inv_ok H. reflect_guards. simplify_eq.
  match goal with E : max_by_key _ _ = _ |- _ => rewrite E in Hroot end.
  destruct Hroot as (Hi & Hs & Hmax). pose proof (strip_prefix_components _ _ _ Hs) as Hc.
  pose proof (strip_prefix_segments _ _ _ Hs) as Hsegs.
  match goal with E : existsb unsafe_component _ = false |- _ => apply (unsafe_components rel Hc) in E as Hsafe end.
  assert (Forall safe_name (path_segments rel)) as Hnames.
  { rewrite Forall_forall in Hsafe |- *. intros n Hn. destruct (Hsafe n Hn). split; [|done].
    by eapply segment_plain. }
  exists root. split_and!; simpl; try done.
  - apply lookup_lt_is_Some. rewrite Hlen. by apply lookup_lt_Some in Hi.
  - rewrite Hc. apply list_fmap_ext. intros j n Hj%list_elem_of_lookup_2.
    rewrite Forall_forall in Hsafe. destruct (Hsafe n Hj) as [Hd _]. unfold segment_component.
    by replace (bytes_eqb n (bs "..")) with false by (symmetry; by apply bytes_eqb_false).
  - rewrite Hsegs. destruct (bytes_eqb rel []) eqn:E; reflect_guards; [subst; by rewrite app_nil_r|].
    apply path_join_segments. by eapply strip_prefix_relative.
Qed.

(** C15: anchoring accepts exactly the paths under a safe root.  A request is
    accepted if and only if it is not blank, holds no NUL, is absolute, climbs
    nowhere, and its names begin with those of a root and go on outside the
    quarantines; it is then anchored under the longest such root, at plain names
    only, and shown under the very names that were asked for; everything else is
    refused with the same error, which tells nothing about the roots. *)
Theorem anchor_exact :
  well_formed self →
  (∀ a, anchor self input = Ok a → anchored_at self input a) ∧
  (is_ok (anchor self input) = true ↔
     trim_is_empty input = false ∧ x00 ∉ input ∧ is_absolute input = true ∧
     bs ".." ∉ path_segments input ∧
     ∃ root rest, root ∈ labels self ∧ path_segments input = path_segments root ++ rest ∧
       Forall (λ n, is_runtime_quarantine_name n = false) rest) ∧
  (∀ e, anchor self input = Err e → e = path_rejected).
Proof.
  intros (Hlen & _ & Hok & _). pose proof (chosen_root Hok) as Hroot. split_and!.
  - intros a. by apply anchor_Ok.
  - split.
    + intros H. destruct (anchor self input) as [a|] eqn:E; [|done].
      destruct (anchor_Ok a Hlen Hok E) as (root & Hi & _ & _ & Hsegs & _ & Hsafe & _).
      unfold anchor in E. inv_ok E. reflect_guards.
      match goal with E : existsb is_parent_dir _ = false |- _ => apply parent_components in E; [|done] end.
      split_and!; try done. exists root, (path_segments (relative_path a)).
      split_and!; [by eapply list_elem_of_lookup_2|done|]. eapply Forall_impl; [exact Hsafe|]. by intros n [].
    + intros (Ht & Hn & Ha & Hd & root & rest & Hr & Hsegs & Hrest). unfold anchor.
      rewrite Ht, Ha, bool_decide_false by done. simpl.
      rewrite (proj2 (parent_components Ha)) by done. simpl.
      assert (path_segments root `prefix_of` path_segments input) as Hp by (by exists rest).
      destruct (max_by_key _ _) as [[[i best] rel]|]; [|by apply Hroot in Hp]. simpl.
      destruct Hroot as (Hi & Hs & Hmax). apply Hmax in Hp; [|done].
      rewrite (proj2 (unsafe_components rel (strip_prefix_components _ _ _ Hs))); [done|].
      apply strip_prefix_segments in Hs. rewrite Hs in Hsegs, Hd.
      apply app_eq_inv in Hsegs as [(k & _ & ->)|(k & Hk & Hrel)].
      * apply Forall_forall. intros n Hn'. split; [intros ->; set_solver|].
        rewrite Forall_forall in Hrest. apply Hrest. set_solver.
      * rewrite Hk, length_app in Hp. destruct k; [|simpl in Hp; lia]. simpl in Hrel. subst rest.
        apply Forall_forall. intros n Hn'. split; [intros ->; set_solver|].
        rewrite Forall_forall in Hrest. by apply Hrest.
  - intros e. unfold anchor.
    repeat match goal with |- context [fail_if ?b ?x] => destruct b; simpl; [by intros [= <-]|] end.
    destruct (max_by_key _ _) as [[[i best] rel]|]; simpl; [|by intros [= <-]].
    destruct (existsb _ _); simpl; by intros [= <-] || done.
Qed.
End anchoring.

#[local] Existing Instance example_file_modes.

Lemma try_new_well_formed_witness :
  ∃ self h, exec (try_new [bs "/data/."]) [] (Ok self) h ∧ labels self = [bs "/data"] ∧ well_formed self.
Proof.
  pose (p := try_new [bs "/data/."]).
  pose proof (FsExample.outcome_exec p (FsExample.start true)) as He.
  destruct (snd (FsExample.outcome p (FsExample.start true))) as [self|] eqn:Hr;
    [|vm_compute in Hr; discriminate Hr].
  exists self, (FsExample.trace p (FsExample.start true)). split; [exact He|].
  split; [vm_compute in Hr; injection Hr as <-; reflexivity|]. apply (try_new_well_formed _ _ _ He).
Defined.

Lemma anchor_exact_witness :
  (∃ a, anchor FsSearch.roots (bs "/data//sub/./x") = Ok a ∧ anchored_at FsSearch.roots (bs "/data//sub/./x") a) ∧
  is_ok (anchor FsSearch.roots (bs "/data/../etc")) = false.
Proof.
  assert (well_formed FsSearch.roots) as Hw.
  { split_and!; try (vm_compute; lia); [|by repeat constructor]. apply Forall_singleton. split_and!.
    - reflexivity.
    - vm_compute. discriminate.
    - change (path_segments (bs "/data")) with [bs "data"]. apply Forall_singleton.
      split; [|vm_compute; reflexivity].
      split_and!; try (vm_compute; discriminate); apply (bool_decide_unpack _); by vm_compute. }
  split.
  - destruct (anchor FsSearch.roots (bs "/data//sub/./x")) as [a|] eqn:E; [|vm_compute in E; discriminate E].
    exists a. split; [reflexivity|]. exact (proj1 (anchor_exact FsSearch.roots (bs "/data//sub/./x") Hw) a E).
  - destruct (anchor_exact FsSearch.roots (bs "/data/../etc") Hw) as (_ & H & _).
    destruct (is_ok _) eqn:E; [|reflexivity]. destruct (proj1 H eq_refl) as (_ & _ & _ & Hd & _).
    exfalso. apply Hd. apply (bool_decide_unpack _). by vm_compute.
Defined.
End Anchoring.
