(* ===== verification/FsCreateSafety.v ===== *)
(** * Creating a directory is safe

    Every run of an authorized directory creation, against arbitrary answers of
    the kernel, keeps to its protocol. *)

From S2P Require Import Prelude RustStd RequestGrantCapability AppErrors FsCalls SafeRoots.
From S2P Require Import Quarantine FsPrepare FsMutations FsLogic FsGate FsExample.

Module FsCreateSafety.
Import AppErrors SafeRoots Quarantine FsPrepare FsMutations CreateDirectoryMutation.

Section safety.
Context {FM : FileModes} {C : Crypto}.

(** This run made a directory, opened it and saw that identity. *)
Definition made_directory (h : history) (id : N * N) : Prop :=
  ∃ parent temp file st,
    Ev (Mkdirat parent temp CREATE_DIRECTORY_MODE) (Ok ()) ∈ h ∧
    Ev (Openat parent temp OPEN_DIRECTORY 0) (Ok file) ∈ h ∧
    Ev (Fstat file) (Ok st) ∈ h ∧ stat_id st = id.

(** The change of the filesystem that follows a history. *)
Definition create_step (m : PreparedCreateDirectoryMutation) (c : call) (h : history) : Prop :=
  match c with
  | Mkdirat d n mode => d = pc_parent_fd m ∧ mode = CREATE_DIRECTORY_MODE
  | Fchmod file mode =>
      mode = CREATE_DIRECTORY_MODE ∧ ∃ st, Ev (Fstat file) (Ok st) ∈ h ∧ made_directory h (stat_id st)
  | RenameatWith d n d' n' flags =>
      flags = NOREPLACE ∧ d = pc_parent_fd m ∧ d' = pc_parent_fd m ∧ n' = directory_name m ∧
      ∃ file st, Ev (Openat d n OPEN_DIRECTORY 0) (Ok file) ∈ h ∧ Ev (Fstat file) (Ok st) ∈ h ∧
        made_directory h (stat_id st) ∧ is_dir st = true ∧ permissions st = CREATE_DIRECTORY_MODE
  | Unlinkat d n removedir => removedir = true ∧ removes is_dir made_directory h d n
  | _ => False
  end.

(** What was seen before authorization is asked for. *)
Definition create_ready (m : PreparedCreateDirectoryMutation) (h : history) : Prop :=
  Ev (Statat (pc_parent_fd m) (directory_name m)) (Err NOENT) ∈ h.

Definition create_policy (m : PreparedCreateDirectoryMutation) : call → history → Prop :=
  gate (CreateDirectoryTarget (pc_grant_target m)) (create_ready m) (create_step m).

(** What a run that answered has done, its last calls first. *)
Definition created (m : PreparedCreateDirectoryMutation) (h : history) : Prop :=
  let parent := pc_parent_fd m in
  ∃ temp file st published h0,
    h = Ev UnlockPublication () :: Ev (Fsync parent) (Ok ())
        :: Ev (Statat parent (directory_name m)) (Ok published)
        :: Ev (RenameatWith parent temp parent (directory_name m) NOREPLACE) (Ok ())
        :: Ev (Fsync file) (Ok ()) :: Ev (Fstat file) (Ok st)
        :: Ev (Fchmod file CREATE_DIRECTORY_MODE) (Ok ()) :: h0 ∧
    Ev (Mkdirat parent temp CREATE_DIRECTORY_MODE) (Ok ()) ∈ h0 ∧
    Ev (Openat parent temp OPEN_DIRECTORY 0) (Ok file) ∈ h0 ∧
    is_dir st = true ∧ permissions st = CREATE_DIRECTORY_MODE ∧
    is_dir published = true ∧ stat_id published = stat_id st.

Lemma made_directory_later h h' id : made_directory h id → later h h' → made_directory h' id.
Proof.
  intros (p & t & f & st & ? & ? & ? & ?) Hl. exists p, t, f, st.
  split_and!; [by eapply later_elem..|done].
Qed.

(** What [open_child_directory] tells. *)
Lemma open_child_directory_safe S (Hp : ∀ c h, passive c = true → S c h) parent name h :
  safe S (open_child_directory parent name) h
    (on_ok (λ file h', extends h h' ∧ Ev (Openat parent name OPEN_DIRECTORY 0) (Ok file) ∈ h')).
Proof.
  unfold open_child_directory. apply step_check. intros _.
  apply (step_call S _ _ (Openat parent name OPEN_DIRECTORY 0)); [by apply Hp|].
  intros ? child ->.
  apply (step_call S _ _ (Fstat child)); [by apply Hp|]. intros ? metadata ->.
  apply step_reads; [done|auto with calls|]. intros ids h' Hh.
  apply step_check. intros _. apply safe_mret. split; [is_extended|in_history].
Qed.

Lemma create_after_authorization_safe m temp h :
  let S := create_policy m in
  Ev (Authorize (CreateDirectoryTarget (pc_grant_target m))) (Ok ()) ∈ h →
  safe S (execute_after_authorization m temp) h
    (on_ok (λ v h', v = pc_result m ∧ created m (Ev UnlockPublication () :: h'))).
Proof.
  intros S Ha. assert (∀ c h, passive c = true → S c h) as Hp by (intros; by apply passive_gate).
  set (parent := pc_parent_fd m).
  assert (∀ name id h', Ev (Authorize (CreateDirectoryTarget (pc_grant_target m))) (Ok ()) ∈ h' →
            made_directory h' id → drops S (drop_directory (mkDirectoryCleanup parent name (Some id))) h')
    as Hdrop.
  { intros name id h' Ha' Hm. eapply drop_directory_drops; [done|apply made_directory_later|done|].
    intros h'' Hl Hr. apply gate_step; [by in_history|done|]. done. }
  unfold execute_after_authorization. fold parent.
  apply (step_call S _ _ (Mkdirat parent temp _)); [by apply gate_step|]. intros ? [] ->.
  eapply step_spec_guarded; [by apply open_child_directory_safe|apply drops_nothing|].
  intros file h1 _ [Hh1 Hopen].
  apply (step_call_guarded S _ _ _ (Fstat file)); [by apply Hp|apply drops_nothing|]. intros ? st ->.
  apply step_check_guarded; [apply drops_nothing|]. intros Hdir.
  set (h2 := Ev (Fstat file) (Ok st) :: h1).
  assert (made_directory h2 (stat_id st)) as Hmade.
  { exists parent, temp, file, st. split_and!; [in_history..|done]. }
  assert (∀ name h', later h2 h' →
    drops S (drop_directory (mkDirectoryCleanup parent name (Some (stat_id st)))) h') as Hd.
  { intros name h' Hl. apply Hdrop; [in_history|]. by eapply made_directory_later. }
  apply (step_call_guarded S _ _ _ (Fchmod file _)); [|apply Hd; is_later|].
  { apply gate_step; [in_history|done|]. intros _. split; [done|]. exists st. split; [in_history|done]. }
  intros ? [] ->.
  apply (step_call_guarded S _ _ _ (Fstat file)); [by apply Hp|apply Hd; is_later|]. intros ? staged ->.
  apply step_check_guarded; [apply Hd; is_later|]. intros Hs. reflect_guards.
  match goal with H : same_id _ _ = true |- _ => apply same_id_true in H as Hid end.
  apply (step_call_guarded S _ _ _ (Fsync file)); [by apply Hp|apply Hd; is_later|]. intros ? [] ->.
  apply (step_call_guarded S _ _ _ (RenameatWith parent temp parent (directory_name m) NOREPLACE));
    [|apply Hd; is_later|].
  { apply gate_step; [in_history|done|]. intros _. split_and!; [done..|]. exists file, staged.
    split_and!; [in_history..| |done|done]. rewrite Hid. eapply made_directory_later; [exact Hmade|is_later]. }
  intros ? [] ->.
  apply (step_call_guarded S _ _ _ (Statat parent (directory_name m)));
    [by apply Hp|apply Hd; is_later|]. intros ? published ->.
  apply step_check_guarded; [apply Hd; is_later|]. intros Hpub. reflect_guards.
  match goal with H : same_id _ (stat_id staged) = true |- _ => apply same_id_true in H end.
  apply (step_call_guarded S _ _ _ (Fsync parent)); [by apply Hp|apply Hd; is_later|]. intros ? [] ->.
  apply safe_mret. split; [done|]. exists temp, file, staged, published, h2. split_and!; try done; in_history.
Qed.

Lemma create_execute_safe m :
  safe (create_policy m) (execute_authorized_with_commit m) []
    (on_ok (λ v h, v = pc_result m ∧ created m h)).
Proof.
  assert (∀ c h, passive c = true → create_policy m c h) as Hp by (intros; by apply passive_gate).
  apply safe_publishing; [done|]. intros h Hh Hlock.
  eapply step_spec; [by apply safe_or_err_ok, absent_safe|]. intros [] h1 _ [Hh1 Hready].
  apply safe_bind, safe_total. split; [by apply Hp|]. intros uuid.
  apply step_authorize.
  - is_extended.
  - by eapply locked_later; [|apply later_cons, extends_later].
  - by apply list_elem_of_further.
  - apply safe_or_err_ok, create_after_authorization_safe, list_elem_of_here.
Qed.

(** C22: creating a directory keeps to its protocol, whatever the kernel answers.
    Nothing changes before the transport authorized exactly the prepared target,
    which it is asked once, under the publication lock and after the name was seen
    to be free; the directory is made under a temporary name, gets its private
    mode before it is published, and is published by a rename that replaces
    nothing, of a directory this run made and verified; nothing is removed but
    such a directory.  An answer means that the directory seen under the name is
    the one that was made, and that the parent was synced. *)
Theorem create_directory_protocol m r h :
  exec (execute_authorized_with_commit m) [] r h →
  obeys (create_policy m) h ∧
  ∀ v, r = Ok v → v = pc_result m ∧ created m h.
Proof.
  intros He. eapply safe_exec in He as [HQ Ho]; [|done|apply create_execute_safe].
  split; [done|]. by intros v ->.
Qed.
End safety.

Lemma create_directory_protocol_witness :
  ∃ r h, exec (execute_authorized_with_commit (C := example_crypto) FsExample.example_create) [] r h ∧
    r = Ok (pc_result FsExample.example_create) ∧ created FsExample.example_create h.
Proof.
  pose (p := execute_authorized_with_commit (C := example_crypto) FsExample.example_create).
  pose proof (FsExample.outcome_exec p (fst FsExample.create_run)) as He.
  assert (snd (FsExample.outcome p (fst FsExample.create_run)) = Ok (pc_result FsExample.example_create)) as Hr
    by (vm_compute; reflexivity).
  destruct (create_directory_protocol (C := example_crypto) _ _ _ He) as [_ H].
  eexists _, _. split; [exact He|]. split; [exact Hr|]. apply (H _ Hr).
Defined.
End FsCreateSafety.
