(* ===== verification/FsCopySafety.v ===== *)
(** * Copying a file is safe

    Every run of an authorized copy, against arbitrary answers of the kernel,
    keeps to its protocol. *)

From S2P Require Import Prelude RustStd RequestGrantCapability AppErrors FsCalls SafeRoots.
From S2P Require Import Quarantine FsPrepare FsMutations FsLogic FsGate FsExample.

Module FsCopySafety.
Import AppErrors SafeRoots Quarantine FsPrepare FsMutations CopyFileMutation FsStaging.

Section safety.
Context {FM : FileModes} {C : Crypto}.

Definition copy_step (m : PreparedCopyFileMutation) (c : call) (h : history) : Prop :=
  match c with
  | RenameatWith q n d' n' flags =>
      flags = NOREPLACE ∧ d' = destination_parent_fd m ∧ n' = destination_name m ∧
      quarantine_of WRITE_FILE_QUARANTINE_DIRECTORY (destination_parent_fd m) q h ∧
      ∃ file id st, staged_file q n file id h ∧ Ev (WriteAll file (pcf_content m)) (Ok ()) ∈ h ∧
        Ev (SyncAll file) (Ok ()) ∈ h ∧ Ev (Fstat file) (Ok st) ∈ h ∧
        copy_file_identity_and_contract_match st id (len (pcf_content m)) = true
  | Fchmod file mode => mode = COPY_FILE_MODE ∧ ∃ q n id, staged_file q n file id h
  | _ => staging_step (destination_parent_fd m) (pcf_content m) c h
  end.

(** The source was just read again, under its name and its descriptor, and the
    destination was seen to be free. *)
Definition source_unchanged (m : PreparedCopyFileMutation) (h : history) : Prop :=
  ∃ held named answer,
    Ev (Fstat (source_file m)) (Ok held) ∈ h ∧
    Ev (Statat (source_parent_fd m) (source_name m)) (Ok named) ∈ h ∧
    Ev (ReadToEnd (source_file m)) (Ok answer) ∈ h ∧
    take_bytes (MAX_COPY_FILE_BYTES + 1) answer = pcf_content m ∧
    sha256 (pcf_content m) = source_sha256 m ∧
    copy_file_source_identity_matches held (source_identity m) = true ∧
    copy_file_source_identity_matches named (source_identity m) = true.
Definition copy_ready (m : PreparedCopyFileMutation) (h : history) : Prop :=
  source_unchanged m h ∧
  Ev (Statat (destination_parent_fd m) (destination_name m)) (Err NOENT) ∈ h.

Definition copy_policy (m : PreparedCopyFileMutation) : call → history → Prop :=
  gate (CopyFileTarget (pcf_grant_target m)) (copy_ready m) (copy_step m).

(** What a run that answered has done. *)
Definition copied (m : PreparedCopyFileMutation) (h : history) : Prop :=
  let parent := destination_parent_fd m in
  let content := pcf_content m in
  ∃ quarantine temp file id staged published held h0 h1,
    h = Ev UnlockPublication () :: h1 ∧
    extends
      (Ev (Fsync quarantine) (Ok ()) :: Ev (Fsync parent) (Ok ())
       :: Ev (Fstat file) (Ok held)
       :: Ev (Statat parent (destination_name m)) (Ok published)
       :: Ev (RenameatWith quarantine temp parent (destination_name m) NOREPLACE) (Ok ())
       :: Ev (Fstat file) (Ok staged) :: Ev (SyncAll file) (Ok ())
       :: Ev (WriteAll file content) (Ok ()) :: Ev (Fchmod file COPY_FILE_MODE) (Ok ()) :: h0) h1 ∧
    staged_file quarantine temp file id h0 ∧
    copy_file_identity_and_contract_match staged id (len content) = true ∧
    copy_file_identity_and_contract_match published id (len content) = true ∧
    copy_file_identity_and_contract_match held id (len content) = true.

Lemma revalidate_source_safe S (Hp : ∀ c h, passive c = true → S c h) m h :
  safe S (revalidate_source m) h (on_ok (λ _ h', extends h h' ∧ source_unchanged m h')).
Proof.
  unfold revalidate_source.
  apply (step_call S _ _ (Fstat _)); [by apply Hp|]. intros ? root ->. apply step_check. intros _.
  apply (step_call S _ _ (Fstat _)); [by apply Hp|]. intros ? before ->. apply step_check. intros _.
  apply (step_call S _ _ (Statat _ _)); [by apply Hp|]. intros ? named0 ->. apply step_check. intros _.
  apply (step_call S _ _ (SeekStart _ _)); [by apply Hp|]. intros ? [] ->.
  eapply step_spec; [by apply read_bounded_safe|]. intros current h1 _ (answer & -> & Hc & _).
  apply (step_call S _ _ (Fstat _)); [by apply Hp|]. intros ? held ->.
  apply (step_call S _ _ (Statat _ _)); [by apply Hp|]. intros ? named ->.
  apply safe_lift. destruct (_ || _) eqn:E; simpl; [done|]. reflect_guards. split.
  - is_extended.
  - exists held, named, answer. split_and!; try in_history; congruence.
Qed.

Lemma revalidate_destination_safe S (Hp : ∀ c h, passive c = true → S c h) m h :
  safe S (revalidate_absent_destination m) h
    (on_ok (λ _ h', extends h h' ∧
       Ev (Statat (destination_parent_fd m) (destination_name m)) (Err NOENT) ∈ h')).
Proof.
  unfold revalidate_absent_destination.
  apply (step_call S _ _ (Fstat _)); [by apply Hp|]. intros ? root ->.
  apply (step_call S _ _ (Fstat _)); [by apply Hp|]. intros ? parent ->. apply step_check. intros _.
  eapply safe_mono; [by apply absent_safe|]. intros [[]|] h' H; [|done]. destruct H as [Hh Hn].
  split; [is_extended|done].
Qed.

Lemma copy_after_authorization_safe m h :
  Ev (Authorize (CopyFileTarget (pcf_grant_target m))) (Ok ()) ∈ h →
  safe (copy_policy m) (execute_after_authorization m) h
    (on_ok (λ v h', v = pcf_result m ∧ copied m (Ev UnlockPublication () :: h'))).
Proof.
  intros Ha. set (S := copy_policy m).
  assert (∀ c h, passive c = true → S c h) as Hp by (intros; by apply passive_gate).
  set (parent := destination_parent_fd m).
  assert (∀ h0, later h h0 → ∀ c h', later h0 h' → authorizing c = false →
            staging_step parent (pcf_content m) c h' → S c h') as Hstage.
  { intros h0 Hl0 c h' Hl Hc Hs. apply gate_step; [in_history|done|]. intros _. by destruct c. }
  unfold execute_after_authorization. fold parent.
  eapply step_spec; [eapply open_write_file_quarantine_safe; [done|apply Hstage, later_refl]|].
  intros q h1 Hl1 Hq.
  apply step_reads; [done|auto with calls|]. intros [] h2 Hh2.
  eapply step_spec.
  { eapply create_write_artifact_safe; [done|apply Hstage; is_later|]. unfold quarantine_of in *. in_history. }
  intros [[temp file] id] h3 Hl3 Hst. simpl in Hst. cbv beta iota.
  assert (∀ h', later h3 h' → ∀ pub name,
    drops S (drop_copied_file (mkFileCleanup q parent pub name (Some id))) h') as Hd.
  { intros h' Hl pub name. eapply staged_drops; [done|eapply Hstage; exact Hl1| |].
    - eapply staged_file_later; [exact Hst|exact Hl].
    - is_later. }
  apply (step_call_guarded S _ _ _ (Fstat file)); [by apply Hp|apply drops_nothing|]. intros ? st ->.
  apply step_check_guarded; [apply drops_nothing|]. intros Hc. reflect_guards.
  match goal with H : same_id _ _ = true |- _ => apply same_id_true in H as -> end.
  assert (∀ h', later h3 h' → S (Fchmod file COPY_FILE_MODE) h' ∧ S (WriteAll file (pcf_content m)) h')
    as Hwrite.
  { intros h' Hl. split; (apply gate_step; [in_history|done|]); intros _; (split; [done|]);
      exists q, temp, id; eapply staged_file_later; [exact Hst|exact Hl|exact Hst|exact Hl]. }
  apply (step_call_guarded S _ _ _ (Fchmod file _)); [apply Hwrite; is_later|apply Hd; is_later|].
  intros ? [] ->.
  apply (step_call_guarded S _ _ _ (WriteAll file _)); [apply Hwrite; is_later|apply Hd; is_later|].
  intros ? [] ->.
  apply (step_call_guarded S _ _ _ (SyncAll file)); [by apply Hp|apply Hd; is_later|]. intros ? [] ->.
  apply (step_call_guarded S _ _ _ (Fstat file)); [by apply Hp|apply Hd; is_later|]. intros ? staged ->.
  apply step_check_guarded; [apply Hd; is_later|]. intros Hsc. reflect_guards.
  set (h4 := Ev (Fstat file) (Ok st) :: h3) in *.
  apply (step_call_guarded S _ _ _ (RenameatWith q temp parent (destination_name m) NOREPLACE));
    [|apply Hd; is_later|].
  { apply gate_step; [in_history|done|]. intros _. split_and!; [done..| |].
    - unfold quarantine_of in *. in_history.
    - exists file, id, staged. split_and!; [|in_history..|done].
      eapply staged_file_later; [exact Hst|is_later]. }
  intros ? [] ->.
  apply (step_call_guarded S _ _ _ (Statat parent (destination_name m)));
    [by apply Hp|apply Hd; is_later|]. intros ? published ->.
  apply (step_call_guarded S _ _ _ (Fstat file)); [by apply Hp|apply Hd; is_later|]. intros ? held ->.
  apply step_check_guarded; [apply Hd; is_later|]. intros Hpub. reflect_guards.
  apply (step_call_guarded S _ _ _ (Fsync parent)); [by apply Hp|apply Hd; is_later|]. intros ? [] ->.
  apply (step_call_guarded S _ _ _ (Fsync q)); [by apply Hp|apply Hd; is_later|]. intros ? [] ->.
  apply step_reads_guarded; [done|auto with calls|apply Hd; is_later|]. intros [] h5 Hh5.
  apply safe_mret. split; [done|].
  exists q, temp, file, id, staged, published, held, h4, h5.
  split_and!; [done|exact Hh5|eapply staged_file_later; [exact Hst|is_later]|done..].
Qed.

Lemma copy_execute_safe m :
  safe (copy_policy m) (execute_authorized_with_commit m) []
    (on_ok (λ v h, v = pcf_result m ∧ copied m h)).
Proof.
  assert (∀ c h, passive c = true → copy_policy m c h) as Hp by (intros; by apply passive_gate).
  apply safe_publishing; [done|]. intros h Hh Hlock.
  eapply step_spec; [by apply safe_or_err_ok, revalidate_source_safe|]. intros [] h1 _ [Hh1 Hsource].
  eapply step_spec; [by apply safe_or_err_ok, revalidate_destination_safe|]. intros [] h2 _ [Hh2 Hready].
  apply step_reads; [done|solve_calls|]. intros [] h3 Hh3.
  apply step_authorize.
  - is_extended.
  - eapply locked_later; [exact Hlock|is_later].
  - split; [|in_history]. destruct Hsource as (held & named & answer & ? & ? & ? & ?).
    exists held, named, answer. split_and!; try in_history; naive_solver.
  - apply safe_or_err_ok, copy_after_authorization_safe, list_elem_of_here.
Qed.

(** C21: copying a file keeps to its protocol, whatever the kernel answers.  Nothing
    changes before the transport authorized exactly the prepared target, which it
    is asked once, under the publication lock, after the source was read again
    and found to be the very bytes and identity that were prepared, and the
    destination was seen to be free.  The bytes that were prepared go to a file
    this run created exclusively in the quarantine, which is published only after
    it was synced and seen private, with one link and of the right size, by a
    rename that replaces nothing; nothing is removed but such a file.  An answer
    means that the file seen under the destination is that file, and that both
    directories were synced. *)
Theorem copy_file_protocol m r h :
  exec (execute_authorized_with_commit m) [] r h →
  obeys (copy_policy m) h ∧
  ∀ v, r = Ok v → v = pcf_result m ∧ copied m h.
Proof.
  intros He. eapply safe_exec in He as [HQ Ho]; [|done|apply copy_execute_safe].
  split; [done|]. by intros v ->.
Qed.
End safety.

Lemma copy_file_protocol_witness :
  ∃ r h, exec (execute_authorized_with_commit (C := example_crypto) FsExample.example_copy) [] r h ∧
    r = Ok (pcf_result FsExample.example_copy) ∧ copied FsExample.example_copy h.
Proof.
  pose (p := execute_authorized_with_commit (C := example_crypto) FsExample.example_copy).
  pose proof (FsExample.outcome_exec p (fst FsExample.copy_run)) as He.
  assert (snd (FsExample.outcome p (fst FsExample.copy_run)) = Ok (pcf_result FsExample.example_copy)) as Hr
    by (vm_compute; reflexivity).
  destruct (copy_file_protocol (C := example_crypto) _ _ _ He) as [_ H].
  eexists _, _. split; [exact He|]. split; [exact Hr|]. apply (H _ Hr).
Defined.
End FsCopySafety.
