(* ===== verification/FsTrashSafety.v ===== *)
(** * Trashing a file is safe

    Every run of an authorized trash, against arbitrary answers of the kernel,
    keeps to its protocol: it renames one file once, and deletes nothing. *)

From S2P Require Import Prelude RustStd RequestGrantCapability AppErrors GrantTargets FsCalls.
From S2P Require Import SafeRoots Quarantine FsPrepare FsMutations FsLogic FsGate.
From S2P Require Import FsExample.

Module FsTrashSafety.
Import AppErrors SafeRoots Quarantine FsPrepare FsMutations TrashFileMutation FsStaging.

Section safety.
Context {FM : FileModes} {C : Crypto}.

Definition trash_step (m : PreparedTrashFileMutation) (c : call) (h : history) : Prop :=
  match c with
  | Mkdirat d n mode =>
      d = pt_parent_fd m ∧ n = TRASH_FILE_QUARANTINE_DIRECTORY ∧ mode = CREATE_DIRECTORY_MODE
  | RenameatWith d n q n' flags =>
      flags = NOREPLACE ∧ d = pt_parent_fd m ∧ n = pt_file_name m ∧
      quarantine_of TRASH_FILE_QUARANTINE_DIRECTORY (pt_parent_fd m) q h ∧
      Ev (Statat q n') (Err NOENT) ∈ h
  | _ => False
  end.

(** The target was just read again, under its name and its descriptor. *)
Definition target_unchanged (m : PreparedTrashFileMutation) (h : history) : Prop :=
  ∃ held named answer,
    let content := take_bytes (MAX_TRASH_FILE_BYTES + 1) answer in
    Ev (Fstat (target_file m)) (Ok held) ∈ h ∧
    Ev (Statat (pt_parent_fd m) (pt_file_name m)) (Ok named) ∈ h ∧
    Ev (ReadToEnd (target_file m)) (Ok answer) ∈ h ∧
    len content = file_size (target_identity m) ∧ sha256 content = target_sha256 m ∧
    trash_file_identity_matches held (target_identity m) = true ∧
    trash_file_identity_matches named (target_identity m) = true.
Definition trash_ready (m : PreparedTrashFileMutation) (h : history) : Prop :=
  target_unchanged m h ∧ Ev (Flock (target_file m)) (Ok ()) ∈ h ∧
  Ev (SyncAll (target_file m)) (Ok ()) ∈ h.

Definition trash_policy (m : PreparedTrashFileMutation) : call → history → Prop :=
  gate (TrashFileTarget (pt_grant_target m)) (trash_ready m) (trash_step m).

(** What a run that answered has done. *)
Definition trashed (m : PreparedTrashFileMutation) (h : history) : Prop :=
  let parent := pt_parent_fd m in
  ∃ quarantine artifact retained held answer h0 h1,
    let content := take_bytes (MAX_TRASH_FILE_BYTES + 1) answer in
    h = Ev UnlockPublication () :: h1 ∧
    extends
      (Ev (Fsync quarantine) (Ok ()) :: Ev (Fsync parent) (Ok ())
       :: Ev (ReadToEnd (target_file m)) (Ok answer) :: Ev (SeekStart (target_file m) 0) (Ok ())
       :: Ev (Fstat (target_file m)) (Ok held) :: Ev (Statat quarantine artifact) (Ok retained)
       :: Ev (Statat parent (pt_file_name m)) (Err NOENT)
       :: Ev (RenameatWith parent (pt_file_name m) quarantine artifact NOREPLACE) (Ok ()) :: h0) h1 ∧
    quarantine_of TRASH_FILE_QUARANTINE_DIRECTORY parent quarantine h0 ∧
    trash_file_retained_identity_matches retained (target_identity m) = true ∧
    trash_file_retained_identity_matches held (target_identity m) = true ∧
    len content = file_size (target_identity m) ∧ sha256 content = target_sha256 m.

Section specs.
Context (S : call → history → Prop) (Hp : ∀ c h, passive c = true → S c h).

Lemma revalidate_target_safe m h :
  safe S (revalidate_target m) h (on_ok (λ _ h', extends h h' ∧ target_unchanged m h')).
Proof.
  unfold revalidate_target.
  apply (step_call S _ _ (Fstat _)); [by apply Hp|]. intros ? root ->.
  apply (step_call S _ _ (Fstat _)); [by apply Hp|]. intros ? parent ->.
  apply (step_call S _ _ (Fstat _)); [by apply Hp|]. intros ? before ->.
  apply (step_call S _ _ (Statat _ _)); [by apply Hp|]. intros ? named0 ->. apply step_check. intros _.
  apply (step_call S _ _ (SeekStart _ _)); [by apply Hp|]. intros ? [] ->.
  eapply step_spec; [by apply read_bounded_safe|]. intros current h1 _ (answer & -> & Hc & _).
  apply (step_call S _ _ (Fstat _)); [by apply Hp|]. intros ? held ->.
  apply (step_call S _ _ (Statat _ _)); [by apply Hp|]. intros ? named ->.
  apply safe_lift. destruct (_ || _) eqn:E; simpl; [done|]. reflect_guards. split.
  - is_extended.
  - exists held, named, answer. cbv zeta. rewrite <-Hc. split_and!; try in_history; congruence.
Qed.

(** An existing quarantine is opened by its name. *)
Lemma open_existing_safe parent h :
  safe S (open_existing_trash_file_quarantine parent) h
    (on_ok (λ o h', extends h h' ∧
       ∀ q, o = Some q → quarantine_of TRASH_FILE_QUARANTINE_DIRECTORY parent q h')).
Proof.
  unfold open_existing_trash_file_quarantine. apply safe_attempt.
  split; [by apply Hp|]. intros [before|[]]; try done.
  2: { split; [is_extended|done]. }
  apply (step_call S _ _ (Openat parent _ OPEN_DIRECTORY 0)); [by apply Hp|]. intros ? q ->.
  apply (step_call S _ _ (Fstat _)); [by apply Hp|]. intros ? held ->. apply step_check. intros _.
  apply step_reads; [done|auto with calls|]. intros [] h1 Hh1.
  apply (step_call S _ _ (Statat _ _)); [by apply Hp|]. intros ? after ->. apply step_check. intros _.
  apply safe_mret. split.
  - is_extended.
  - intros q' [= <-]. unfold quarantine_of. in_history.
Qed.

Lemma allocate_safe q h :
  safe S (allocate_trash_artifact_name q) h
    (on_ok (λ n h', extends h h' ∧ Ev (Statat q n) (Err NOENT) ∈ h')).
Proof.
  unfold allocate_trash_artifact_name.
  assert (∀ k h0, extends h h0 → safe S (allocate_trash_artifact_name_loop k q) h0
            (on_ok (λ n h', extends h h' ∧ Ev (Statat q n) (Err NOENT) ∈ h'))) as H;
    [|apply H, extends_refl].
  intros k. induction k as [|k IH]; intros h0 Hh0; [done|]. cbn [allocate_trash_artifact_name_loop].
  apply safe_bind, safe_total. split; [by apply Hp|]. intros uuid.
  apply safe_attempt. split; [by apply Hp|].
  assert (∀ r, extends h (Ev (Statat q (TRASH_FILE_ARTIFACT_PREFIX ++ uuid_to_string uuid)) r
                          :: Ev NewUuid uuid :: h0)) as He.
  { intros r. is_extended. }
  intros [st|[]]; try done; [by apply IH|]. split; [done|]. apply list_elem_of_here.
Qed.
End specs.

(** The end of the run: the rename and what verifies it. *)
Lemma trash_after_authorization_safe m q artifact h :
  Ev (Authorize (TrashFileTarget (pt_grant_target m))) (Ok ()) ∈ h →
  quarantine_of TRASH_FILE_QUARANTINE_DIRECTORY (pt_parent_fd m) q h →
  Ev (Statat q artifact) (Err NOENT) ∈ h →
  safe (trash_policy m) (execute_after_authorization m q artifact) h
    (on_ok (λ v h', v = pt_result m ∧ trashed m (Ev UnlockPublication () :: h'))).
Proof.
  intros Ha Hq Hn. set (S := trash_policy m).
  assert (∀ c h, passive c = true → S c h) as Hp by (intros; by apply passive_gate).
  unfold execute_after_authorization.
  apply (step_call S _ _ (RenameatWith _ _ _ _ _)).
  { apply gate_step; [in_history|done|]. intros _. by split_and!. }
  intros ? [] ->.
  apply safe_bind, safe_attempt. split; [by apply Hp|]. intros [st|[]]; try done.
  apply (step_call S _ _ (Statat q artifact)); [by apply Hp|]. intros ? retained ->.
  apply (step_call S _ _ (Fstat _)); [by apply Hp|]. intros ? held ->.
  apply step_check. intros Hc. reflect_guards.
  apply (step_call S _ _ (SeekStart _ _)); [by apply Hp|]. intros ? [] ->.
  eapply step_spec; [by apply read_bounded_safe|]. intros content h1 _ (answer & -> & Hb & _).
  apply step_check. intros Hcontent. reflect_guards.
  apply (step_call S _ _ (Fsync _)); [by apply Hp|]. intros ? [] ->.
  apply (step_call S _ _ (Fsync _)); [by apply Hp|]. intros ? [] ->.
  apply step_reads; [done|auto with calls|]. intros [] h1 Hh1.
  apply safe_mret. split; [done|].
  exists q, artifact, retained, held, answer, h, h1. cbv zeta. rewrite <-Hb. by split_and!.
Qed.

(** A quarantine made or found after authorization. *)
Lemma open_trash_safe m h :
  Ev (Authorize (TrashFileTarget (pt_grant_target m))) (Ok ()) ∈ h →
  safe (trash_policy m) (open_trash_file_quarantine (pt_parent_fd m)) h
    (on_ok (λ q h', quarantine_of TRASH_FILE_QUARANTINE_DIRECTORY (pt_parent_fd m) q h')).
Proof.
  intros Ha. set (S := trash_policy m).
  assert (∀ c h, passive c = true → S c h) as Hp by (intros; by apply passive_gate).
  unfold open_trash_file_quarantine.
  eapply (step_spec S _ (λ _ h', True)).
  { apply safe_attempt. split; [by apply gate_step|]. by intros [[]|[]]. }
  intros created h1 Hl1 _.
  eapply step_spec; [by apply open_existing_safe|]. intros o h2 _ [Hh2 Ho].
  apply step_lift. intros q Hq. apply ok_or_Ok in Hq as ->.
  apply step_reads; [done|auto with calls|]. intros [] h3 Hh3.
  apply safe_mret. pose proof (Ho q eq_refl). unfold quarantine_of in *. red. in_history.
Qed.

Lemma trash_execute_safe m :
  safe (trash_policy m) (execute_authorized_with_commit m) []
    (on_ok (λ v h, v = pt_result m ∧ trashed m h)).
Proof.
  set (S := trash_policy m).
  assert (∀ c h, passive c = true → S c h) as Hp by (intros; by apply passive_gate).
  apply safe_publishing; [done|]. intros h Hh Hlock.
  eapply step_spec; [by apply safe_or_err_ok, open_existing_safe|]. intros existing h1 _ [Hh1 Hex].
  apply step_reads; [done|solve_calls|]. intros [] h2 Hh2.
  eapply step_spec.
  { apply (safe_or_err_ok S (λ _ h', extends h2 h' ∧ Ev (Flock (target_file m)) (Ok ()) ∈ h')).
    apply safe_or_err. split; [by apply Hp|]. intros [[]|e]; [|done]. split; [is_extended|in_history]. }
  intros [] h3 _ [Hh3 Hflock].
  eapply step_spec; [by apply safe_or_err_ok, revalidate_target_safe|]. intros [] h4 _ [Hh4 Hun].
  apply (step_call S _ _ (SyncAll _)); [by apply Hp|]. intros ? [] ->.
  eapply (step_spec S _ (λ o h', extends (Ev (SyncAll (target_file m)) (Ok ()) :: h4) h' ∧
    ∀ n, o = Some n → ∃ q, existing = Some q ∧ Ev (Statat q n) (Err NOENT) ∈ h')).
  { apply safe_or_err_ok. unfold reserve_artifact_name. destruct existing as [q|].
    - eapply step_spec; [by apply allocate_safe|]. intros n h5 _ [He Hn]. apply safe_mret.
      split; [done|]. intros ? [= <-]. by exists q.
    - apply safe_mret. split; [apply extends_refl|]. done. }
  intros reserved h5 _ [Hh5 Hres].
  apply step_authorize; [is_extended|eapply locked_later; [exact Hlock|is_later]| |].
  { split_and!; [|in_history..]. destruct Hun as (held & named & answer & ? & ? & ? & ? & ? & ? & ?).
    exists held, named, answer. cbv zeta in *. split_and!; try in_history; done. }
  set (h6 := Ev (Authorize _) (Ok ()) :: h5).
  eapply (step_spec S _ (λ q h', quarantine_of TRASH_FILE_QUARANTINE_DIRECTORY (pt_parent_fd m) q h' ∧
    ∀ n, reserved = Some n → Ev (Statat q n) (Err NOENT) ∈ h')).
  { destruct existing as [q|].
    - apply safe_mret. split; [pose proof (Hex q eq_refl); unfold quarantine_of in *; subst h6; in_history|].
      intros n Hn. destruct (Hres n Hn) as (? & [= <-] & ?). subst h6. in_history.
    - apply safe_or_err_ok. eapply safe_mono; [apply open_trash_safe; subst h6; in_history|].
      intros [q|] h' Hq; [|done]. split; [done|]. intros n Hn. by destruct (Hres n Hn) as (? & ? & _). }
  intros q h7 Hl7 [Hq Hname].
  apply step_reads; [done|solve_calls|]. intros [] h8 Hh8.
  eapply (step_spec S _ (λ n h', Ev (Statat q n) (Err NOENT) ∈ h')).
  { destruct reserved as [n|].
    - apply safe_mret. pose proof (Hname n eq_refl). red. in_history.
    - apply safe_or_err_ok. eapply safe_mono; [by apply allocate_safe|]. by intros [n|] h' H; [destruct H|]. }
  intros n h9 Hl9 Hn. apply safe_or_err_ok. unfold quarantine_of in *.
  apply trash_after_authorization_safe; [subst h6|red|]; in_history.
Qed.

(** C20: trashing a file keeps to its protocol, whatever the kernel answers.
    Nothing changes before the transport authorized exactly the prepared target,
    which it is asked once, under the publication lock, after the file was
    locked, read again, found to be the very identity and digest that were
    prepared, and synced.  The only changes are the creation of the quarantine
    and one rename of the file into it, under a name seen to be free and
    replacing nothing: no run removes or overwrites anything.  An answer means
    that the name is gone, that the quarantine holds the very file with the very
    content, and that both directories were synced. *)
Theorem trash_file_protocol m r h :
  exec (execute_authorized_with_commit m) [] r h →
  obeys (trash_policy m) h ∧
  ∀ v, r = Ok v → v = pt_result m ∧ trashed m h.
Proof.
  intros He. eapply safe_exec in He as [HQ Ho]; [|done|apply trash_execute_safe].
  split; [done|]. by intros v ->.
Qed.
End safety.

Lemma trash_file_protocol_witness :
  ∃ r h, exec (execute_authorized_with_commit (C := example_crypto) FsExample.example_trash) [] r h ∧
    r = Ok (pt_result FsExample.example_trash) ∧ trashed (C := example_crypto) FsExample.example_trash h.
Proof.
  pose (p := execute_authorized_with_commit (C := example_crypto) FsExample.example_trash).
  pose proof (FsExample.outcome_exec p (fst FsExample.trash_run)) as He.
  assert (snd (FsExample.outcome p (fst FsExample.trash_run)) = Ok (pt_result FsExample.example_trash)) as Hr
    by (vm_compute; reflexivity).
  destruct (trash_file_protocol (C := example_crypto) _ _ _ He) as [_ H].
  eexists _, _. split; [exact He|]. split; [exact Hr|]. apply (H _ Hr).
Defined.
End FsTrashSafety.
