(* ===== verification/FsWriteSafety.v ===== *)
(** * Writing a file is safe

    Every run of an authorized write, against arbitrary answers of the kernel,
    keeps to its protocol; a replaced file survives in the quarantine. *)

From S2P Require Import Prelude RustStd RequestGrantCapability AppErrors GrantTargets.
From S2P Require Import WriteFileGrant FsCalls SafeRoots Quarantine FsPrepare FsMutations FsLogic.
From S2P Require Import FsGate FsExample.

Module FsWriteSafety.
Import AppErrors SafeRoots Quarantine FsPrepare FsMutations WriteFileMutation FsStaging.

Section safety.
Context {FM : FileModes} {C : Crypto}.

(** The target of a replacement, under its descriptor and its name. *)
Definition target_seen (m : PreparedWriteFileMutation) (held current : event) : Prop :=
  ∃ expected target held_st current_st,
    pw_existing_identity m = Some expected ∧ existing_target_fd m = Some target ∧
    held = Ev (Fstat target) (Ok held_st) ∧
    current = Ev (Statat (pw_parent_fd m) (pw_file_name m)) (Ok current_st) ∧
    write_file_existing_identity_matches held_st expected = true ∧
    write_file_existing_identity_matches current_st expected = true.
Definition target_free (m : PreparedWriteFileMutation) : event :=
  Ev (Statat (pw_parent_fd m) (pw_file_name m)) (Err NOENT).

Definition write_step (m : PreparedWriteFileMutation) (c : call) (h : history) : Prop :=
  match c with
  | RenameatWith q n d' n' flags =>
      d' = pw_parent_fd m ∧ n' = pw_file_name m ∧
      quarantine_of WRITE_FILE_QUARANTINE_DIRECTORY (pw_parent_fd m) q h ∧
      (∃ file id st, staged_file q n file id h ∧ Ev (WriteAll file (pw_content m)) (Ok ()) ∈ h ∧
         Ev (SyncAll file) (Ok ()) ∈ h ∧ Ev (Fstat file) (Ok st) ∈ h ∧
         write_file_identity_and_contract_match st id (len (pw_content m)) = true) ∧
      match pw_disposition m with
      | WriteFile.Create => flags = NOREPLACE ∧ ∃ h0, h = target_free m :: h0
      | WriteFile.Replace =>
          flags = EXCHANGE ∧ ∃ held current h0, h = current :: held :: h0 ∧ target_seen m held current
      end
  | _ => staging_step (pw_parent_fd m) (pw_content m) c h
  end.

Definition write_ready (m : PreparedWriteFileMutation) (h : history) : Prop :=
  match pw_disposition m with
  | WriteFile.Create => target_free m ∈ h
  | WriteFile.Replace => ∃ held current, held ∈ h ∧ current ∈ h ∧ target_seen m held current
  end.

Definition write_policy (m : PreparedWriteFileMutation) : call → history → Prop :=
  gate (WriteFileTarget (pw_grant_target m)) (write_ready m) (write_step m).

(** The commit: the artifact becomes the name, and what the name was before an
    exchange is the artifact. *)
Definition committed (m : PreparedWriteFileMutation) (quarantine : fd) (artifact : bytes)
    (h h0 : history) : Prop :=
  match pw_disposition m with
  | WriteFile.Create =>
      h = Ev (RenameatWith quarantine artifact (pw_parent_fd m) (pw_file_name m) NOREPLACE) (Ok ()) :: h0
  | WriteFile.Replace =>
      ∃ expected captured, pw_existing_identity m = Some expected ∧
        h = Ev (Statat quarantine artifact) (Ok captured)
            :: Ev (RenameatWith quarantine artifact (pw_parent_fd m) (pw_file_name m) EXCHANGE) (Ok ())
            :: h0 ∧
        write_file_existing_object_matches captured expected = true
  end.

(** What a run that answered has done. *)
Definition written (m : PreparedWriteFileMutation) (h : history) : Prop :=
  let parent := pw_parent_fd m in
  let size := len (pw_content m) in
  ∃ quarantine artifact file id published held h0 h1 h2,
    h = Ev UnlockPublication () :: h2 ∧
    extends
      (Ev (Fsync quarantine) (Ok ()) :: Ev (Fsync parent) (Ok ()) :: Ev (Fstat file) (Ok held)
       :: Ev (Statat parent (pw_file_name m)) (Ok published) :: h1) h2 ∧
    committed m quarantine artifact h1 h0 ∧
    staged_file quarantine artifact file id h0 ∧
    Ev (WriteAll file (pw_content m)) (Ok ()) ∈ h0 ∧ Ev (SyncAll file) (Ok ()) ∈ h0 ∧
    write_file_identity_and_contract_match published id size = true ∧
    write_file_identity_and_contract_match held id size = true.

Lemma revalidate_replacement_safe S (Hp : ∀ c h, passive c = true → S c h) m h :
  safe S (revalidate_replacement m) h
    (on_ok (λ expected h', pw_existing_identity m = Some expected ∧
       ∃ held current, h' = current :: held :: h ∧ extends h h' ∧ target_seen m held current)).
Proof.
  unfold revalidate_replacement. apply step_lift. intros expected He. apply ok_or_Ok in He.
  apply step_lift. intros target Ht. apply ok_or_Ok in Ht.
  apply (step_call S _ _ (Fstat target)); [by apply Hp|]. intros ? held ->. apply step_check. intros Hh.
  apply (step_call S _ _ (Statat _ _)); [by apply Hp|]. intros ? current ->. apply step_check. intros Hc.
  reflect_guards. apply safe_mret. split; [done|]. eexists _, _.
  split_and!; [done|is_extended|]. by exists expected, target, held, current.
Qed.

Lemma revalidate_disposition_safe S (Hp : ∀ c h, passive c = true → S c h) m h :
  safe S (revalidate_disposition m) h (on_ok (λ _ h', extends h h' ∧ write_ready m h')).
Proof.
  unfold revalidate_disposition, write_ready. destruct (pw_disposition m).
  - by apply absent_safe.
  - eapply step_spec; [by apply revalidate_replacement_safe|].
    intros expected h' _ (_ & held & current & -> & He & Hs). apply safe_mret. split; [done|].
    exists held, current. split_and!; [in_history..|done].
Qed.

Lemma commit_safe m q artifact h :
  Ev (Authorize (WriteFileTarget (pw_grant_target m))) (Ok ()) ∈ h →
  quarantine_of WRITE_FILE_QUARANTINE_DIRECTORY (pw_parent_fd m) q h →
  (∃ file id st, staged_file q artifact file id h ∧ Ev (WriteAll file (pw_content m)) (Ok ()) ∈ h ∧
     Ev (SyncAll file) (Ok ()) ∈ h ∧ Ev (Fstat file) (Ok st) ∈ h ∧
     write_file_identity_and_contract_match st id (len (pw_content m)) = true) →
  safe (write_policy m) (commit m q artifact) h
    (on_ok (λ _ h', ∃ h0, later h h0 ∧ committed m q artifact h' h0)).
Proof.
  intros Ha Hq Hst. set (S := write_policy m).
  assert (∀ c h, passive c = true → S c h) as Hp by (intros; by apply passive_gate).
  assert (∀ h' flags, later h h' →
    match pw_disposition m with
    | WriteFile.Create => flags = NOREPLACE ∧ ∃ h0, h' = target_free m :: h0
    | WriteFile.Replace =>
        flags = EXCHANGE ∧ ∃ held current h0, h' = current :: held :: h0 ∧ target_seen m held current
    end →
    S (RenameatWith q artifact (pw_parent_fd m) (pw_file_name m) flags) h') as Hrename.
  { intros h' flags Hl Hd. apply gate_step; [in_history|done|]. intros _.
    unfold quarantine_of in *. split_and!; [done..|red; in_history| |done].
    destruct Hst as (file & id & st & Hsf & ? & ? & ? & ?). exists file, id, st.
    split_and!; [by eapply staged_file_later|in_history..|done]. }
  unfold commit, committed. destruct (pw_disposition m).
  - unfold absent. apply safe_bind, safe_attempt. split; [by apply Hp|].
    intros [st|[]]; try done. unfold publish_noreplace. apply safe_or_err. split.
    { apply Hrename; [is_later|]. by split; [|eexists]. }
    intros [[]|e]; [|done]. eexists. split; [|done]. is_later.
  - eapply step_spec; [by apply revalidate_replacement_safe|].
    intros expected h' _ (He & held & current & -> & Hex & Hs).
    apply (step_call S _ _ (RenameatWith _ _ _ _ _)).
    { apply Hrename; [is_later|]. split; [done|]. by eexists _, _, _. }
    intros ? [] ->.
    apply (step_call S _ _ (Statat q artifact)); [by apply Hp|]. intros ? captured ->.
    apply safe_lift. destruct (negb _) eqn:E; simpl; [done|]. reflect_guards.
    eexists. split; [|exists expected, captured; split_and!; [done|reflexivity|done]]. is_later.
Qed.

Lemma write_after_authorization_safe m h :
  Ev (Authorize (WriteFileTarget (pw_grant_target m))) (Ok ()) ∈ h →
  safe (write_policy m) (execute_after_authorization m) h
    (on_ok (λ v h', v = pw_result m ∧ written m (Ev UnlockPublication () :: h'))).
Proof.
  intros Ha. set (S := write_policy m).
  assert (∀ c h, passive c = true → S c h) as Hp by (intros; by apply passive_gate).
  set (parent := pw_parent_fd m).
  assert (∀ h0, later h h0 → ∀ c h', later h0 h' → authorizing c = false →
            staging_step parent (pw_content m) c h' → S c h') as Hstage.
  { intros h0 Hl0 c h' Hl Hc Hs. apply gate_step; [in_history|done|]. intros _. by destruct c. }
  unfold execute_after_authorization. fold parent.
  eapply step_spec; [eapply open_write_file_quarantine_safe; [done|apply Hstage, later_refl]|].
  intros q h1 Hl1 Hq.
  apply step_reads; [done|auto with calls|]. intros [] h2 Hh2.
  eapply step_spec.
  { eapply create_write_artifact_safe; [done|apply Hstage; is_later|]. unfold quarantine_of in *. in_history. }
  intros [[artifact file] id] h3 Hl3 Hst. simpl in Hst. cbv beta iota.
  apply (step_call S _ _ (WriteAll file (pw_content m))).
  { apply (Hstage h1 ltac:(is_later)); [is_later|done|]. split; [done|]. by exists q, artifact, id. }
  intros ? [] ->.
  apply (step_call S _ _ (SyncAll file)); [by apply Hp|]. intros ? [] ->.
  apply (step_call S _ _ (Fstat file)); [by apply Hp|]. intros ? staged ->.
  apply step_check. intros Hstaged. reflect_guards.
  apply step_reads; [done|auto with calls|]. intros [] h4 Hh4.
  apply (step_call S _ _ (Statat q artifact)); [by apply Hp|]. intros ? named ->.
  apply step_check. intros _.
  set (h5 := Ev (Statat q artifact) (Ok named) :: h4).
  assert (staged_file q artifact file id h5) as Hst5 by (eapply staged_file_later; [exact Hst|is_later]).
  eapply step_spec.
  { apply commit_safe; [in_history|unfold quarantine_of in *; red; in_history|].
    exists file, id, staged. split_and!; [done|in_history..|done]. }
  intros [] h6 Hl6 (h0 & Hl0 & Hc).
  apply (step_call S _ _ (Statat parent (pw_file_name m))); [by apply Hp|]. intros ? published ->.
  apply (step_call S _ _ (Fstat file)); [by apply Hp|]. intros ? held ->.
  apply step_check. intros Hpub. reflect_guards.
  apply (step_call S _ _ (Fsync parent)); [by apply Hp|]. intros ? [] ->.
  apply (step_call S _ _ (Fsync q)); [by apply Hp|]. intros ? [] ->.
  apply step_reads; [done|auto with calls|]. intros [] h7 Hh7.
  apply safe_mret. split; [done|]. exists q, artifact, file, id, published, held, h0, h6, h7.
  split_and!; [done|exact Hh7|done| | |in_history|done..];
    [by eapply staged_file_later|in_history].
Qed.

Lemma write_execute_safe m :
  safe (write_policy m) (execute_authorized_with_commit m) []
    (on_ok (λ v h, v = pw_result m ∧ written m h)).
Proof.
  assert (∀ c h, passive c = true → write_policy m c h) as Hp by (intros; by apply passive_gate).
  apply safe_publishing; [done|]. intros h Hh Hlock.
  apply step_reads; [done|solve_calls|]. intros [] h1 Hh1.
  eapply step_spec; [by apply safe_or_err_ok, revalidate_disposition_safe|]. intros [] h2 _ [Hh2 Hready].
  apply step_authorize; [is_extended|eapply locked_later; [exact Hlock|is_later]|done|].
  apply safe_or_err_ok, write_after_authorization_safe, list_elem_of_here.
Qed.

(** C19: writing a file keeps to its protocol, whatever the kernel answers.  Nothing
    changes before the transport authorized exactly the prepared target, which it
    is asked once, under the publication lock, after the name was seen to be free
    (a creation) or to be the very file that was prepared (a replacement).  The
    bytes go to a file this run created exclusively in the quarantine, synced
    and seen private, with one link and of the right size; a creation publishes it
    by a rename that replaces nothing, a replacement by one exchange made right
    after the target was seen again; nothing is removed but a file this run
    created.  An answer means that the name is that file, that the file it
    replaced is the artifact, untouched, and that both directories were synced. *)
Theorem write_file_protocol m r h :
  exec (execute_authorized_with_commit m) [] r h →
  obeys (write_policy m) h ∧
  ∀ v, r = Ok v → v = pw_result m ∧ written m h.
Proof.
  intros He. eapply safe_exec in He as [HQ Ho]; [|done|apply write_execute_safe].
  split; [done|]. by intros v ->.
Qed.
End safety.

Lemma write_file_protocol_witness :
  ∃ r h, exec (execute_authorized_with_commit (C := example_crypto) FsExample.example_write) [] r h ∧
    r = Ok (pw_result FsExample.example_write) ∧ written FsExample.example_write h.
Proof.
  pose (p := execute_authorized_with_commit (C := example_crypto) FsExample.example_write).
  pose proof (FsExample.outcome_exec p (fst FsExample.write_run)) as He.
  assert (snd (FsExample.outcome p (fst FsExample.write_run)) = Ok (pw_result FsExample.example_write)) as Hr
    by (vm_compute; reflexivity).
  destruct (write_file_protocol (C := example_crypto) _ _ _ He) as [_ H].
  eexists _, _. split; [exact He|]. split; [exact Hr|]. apply (H _ Hr).
Defined.
End FsWriteSafety.
