(* ===== verification/MutationWorkers.v ===== *)
(** * The workers that carry out filesystem mutations

    [src/src/mcp_transport.rs], from the audit guards to the workers: a permit
    admits one worker, which prepares the mutation, claims the commit from the
    waiting request, consumes the caller's grant for exactly what was prepared,
    executes, and records one audit event.  A worker is the program it runs; the
    answer of its authorization callback is computed by [authorize_and_commit] on
    the state of the process at that moment. *)

From S2P Require Import Prelude RustStd RequestGrantCapability GrantReplay GrantToken AppErrors.
From S2P Require Import WriteFileGrant CopyFileGrant TrashFileGrant CreateDirectoryGrant AuditEvents.
From S2P Require Import FsCalls SafeRoots FsPrepare FsMutations FsTools.

Module MutationWorkers.
Import AppErrors SafeRoots FsPrepare FsMutations FsTools.

(** ** Labels *)

Definition CREATE_DIRECTORY_TOOL : bytes := bs "create_directory".
Definition COPY_FILE_TOOL : bytes := bs "copy_file".
Definition TRASH_FILE_TOOL : bytes := bs "trash_file".
Definition WRITE_FILE_TOOL : bytes := bs "write_file".
Definition FILESYSTEM_WRITE_GATE : bytes := bs "filesystem_write".
Definition FILESYSTEM_SAFE_ROOT_REJECTED : bytes := bs "safe_root_rejected".
Definition FILESYSTEM_CREATE_ALLOWED : bytes := bs "safe_root_directory_created".
Definition FILESYSTEM_CREATE_EXISTS : bytes := bs "filesystem_destination_exists".
Definition FILESYSTEM_CREATE_PARENT_NOT_FOUND : bytes := bs "filesystem_parent_not_found".
Definition FILESYSTEM_CREATE_FAILED : bytes := bs "filesystem_directory_create_failed".
Definition FILESYSTEM_COPY_ALLOWED : bytes := bs "safe_root_file_copied".
Definition FILESYSTEM_COPY_SOURCE_NOT_FOUND : bytes := bs "filesystem_copy_source_not_found".
Definition FILESYSTEM_COPY_PARENT_NOT_FOUND : bytes := bs "filesystem_copy_parent_not_found".
Definition FILESYSTEM_COPY_SAME_PATH : bytes := bs "filesystem_copy_same_path".
Definition FILESYSTEM_COPY_SOURCE_UNSUPPORTED : bytes := bs "filesystem_copy_source_type_unsupported".
Definition FILESYSTEM_COPY_SOURCE_TOO_LARGE : bytes := bs "filesystem_copy_source_too_large".
Definition FILESYSTEM_COPY_SOURCE_CHANGED : bytes := bs "filesystem_copy_source_changed".
Definition FILESYSTEM_COPY_DESTINATION_CHANGED : bytes := bs "filesystem_copy_destination_changed".
Definition FILESYSTEM_COPY_QUARANTINE_FULL : bytes := bs "filesystem_copy_quarantine_capacity_exceeded".
Definition FILESYSTEM_COPY_QUARANTINE_BUSY : bytes := bs "filesystem_copy_quarantine_busy".
Definition FILESYSTEM_COPY_FAILED : bytes := bs "filesystem_copy_failed".
Definition FILESYSTEM_TRASH_ALLOWED : bytes := bs "safe_root_file_trashed_recovery_retained".
Definition FILESYSTEM_TRASH_NOT_FOUND : bytes := bs "filesystem_trash_target_not_found".
Definition FILESYSTEM_TRASH_UNSUPPORTED : bytes := bs "filesystem_trash_target_type_unsupported".
Definition FILESYSTEM_TRASH_TOO_LARGE : bytes := bs "filesystem_trash_target_too_large".
Definition FILESYSTEM_TRASH_TARGET_CHANGED : bytes := bs "filesystem_trash_target_changed".
Definition FILESYSTEM_TRASH_MUTATION_DISABLED : bytes := bs "trash_file_mutation_disabled".
Definition FILESYSTEM_TRASH_QUARANTINE_FULL : bytes := bs "trash_quarantine_capacity_exceeded".
Definition FILESYSTEM_TRASH_QUARANTINE_BUSY : bytes := bs "trash_quarantine_busy".
Definition FILESYSTEM_TRASH_FAILED : bytes := bs "filesystem_trash_failed".
Definition FILESYSTEM_WRITE_ALLOWED : bytes := bs "explicit_write_allowed".
Definition FILESYSTEM_WRITE_TOO_LARGE : bytes := bs "write_size_limit_exceeded".
Definition FILESYSTEM_WRITE_TARGET_CHANGED : bytes := bs "filesystem_write_target_changed".
Definition FILESYSTEM_WRITE_TARGET_NOT_FOUND : bytes := bs "filesystem_write_target_not_found".
Definition FILESYSTEM_WRITE_TARGET_UNSUPPORTED : bytes := bs "filesystem_write_target_type_unsupported".
Definition FILESYSTEM_WRITE_QUARANTINE_FULL : bytes := bs "write_quarantine_capacity_exceeded".
Definition FILESYSTEM_WRITE_QUARANTINE_BUSY : bytes := bs "write_quarantine_busy".
Definition FILESYSTEM_WRITE_FAILED : bytes := bs "filesystem_write_failed".
Definition FILESYSTEM_MUTATION_REQUEST_CANCELLED : bytes := bs "filesystem_mutation_request_cancelled".

Definition create_directory_filesystem_reason (error : AppError) : bytes :=
  match error with
  | PathTraversal _ => FILESYSTEM_SAFE_ROOT_REJECTED
  | PathNotFound => FILESYSTEM_CREATE_PARENT_NOT_FOUND
  | PathAlreadyExists => FILESYSTEM_CREATE_EXISTS
  | _ => FILESYSTEM_CREATE_FAILED
  end.
Definition copy_file_filesystem_reason (error : AppError) : bytes :=
  match error with
  | PathTraversal _ => FILESYSTEM_SAFE_ROOT_REJECTED
  | CopySourceNotFound => FILESYSTEM_COPY_SOURCE_NOT_FOUND
  | CopyDestinationParentNotFound => FILESYSTEM_COPY_PARENT_NOT_FOUND
  | CopySourceDestinationSame => FILESYSTEM_COPY_SAME_PATH
  | PathAlreadyExists => FILESYSTEM_CREATE_EXISTS
  | UnsupportedPathType => FILESYSTEM_COPY_SOURCE_UNSUPPORTED
  | FileTooLarge _ _ => FILESYSTEM_COPY_SOURCE_TOO_LARGE
  | CopySourceChanged => FILESYSTEM_COPY_SOURCE_CHANGED
  | CopyDestinationChanged => FILESYSTEM_COPY_DESTINATION_CHANGED
  | WriteQuarantineCapacityExceeded => FILESYSTEM_COPY_QUARANTINE_FULL
  | WriteQuarantineBusy => FILESYSTEM_COPY_QUARANTINE_BUSY
  | _ => FILESYSTEM_COPY_FAILED
  end.
Definition trash_file_filesystem_reason (error : AppError) : bytes :=
  match error with
  | PathTraversal _ => FILESYSTEM_SAFE_ROOT_REJECTED
  | PathNotFound => FILESYSTEM_TRASH_NOT_FOUND
  | UnsupportedPathType => FILESYSTEM_TRASH_UNSUPPORTED
  | FileTooLarge _ _ => FILESYSTEM_TRASH_TOO_LARGE
  | TrashTargetChanged => FILESYSTEM_TRASH_TARGET_CHANGED
  | TrashMutationAuthorizationRequired => FILESYSTEM_TRASH_MUTATION_DISABLED
  | TrashQuarantineCapacityExceeded => FILESYSTEM_TRASH_QUARANTINE_FULL
  | TrashQuarantineBusy => FILESYSTEM_TRASH_QUARANTINE_BUSY
  | _ => FILESYSTEM_TRASH_FAILED
  end.
Definition write_file_filesystem_reason (error : AppError) : bytes :=
  match error with
  | PathTraversal _ => FILESYSTEM_SAFE_ROOT_REJECTED
  | WritePayloadTooLarge _ _ => FILESYSTEM_WRITE_TOO_LARGE
  | PathNotFound => FILESYSTEM_WRITE_TARGET_NOT_FOUND
  | UnsupportedPathType => FILESYSTEM_WRITE_TARGET_UNSUPPORTED
  | PathAlreadyExists | WriteTargetChanged => FILESYSTEM_WRITE_TARGET_CHANGED
  | WriteQuarantineCapacityExceeded => FILESYSTEM_WRITE_QUARANTINE_FULL
  | WriteQuarantineBusy => FILESYSTEM_WRITE_QUARANTINE_BUSY
  | _ => FILESYSTEM_WRITE_FAILED
  end.

(** ** Audit guards

    The event a guard records; [now] is the clock when it does. *)

Definition record_filesystem_allowed (tool gate : bytes) (mode : Audit.AuditMode) (reason : bytes) (now : N)
    : Audit.AuditEvent := Audit.filesystem_allowed_event now tool gate mode reason.
Definition record_filesystem_denied (tool gate : bytes) (mode : Audit.AuditMode) (reason : bytes) (now : N)
    : Audit.AuditEvent := Audit.filesystem_denied_event now tool gate mode reason.

Section guards.
Context (tool allowed_reason failed_reason : bytes) (reason : AppError → bytes) (now : N).

(** [Drop]: what was not recorded is recorded as failed. *)
Definition guard_drop (recorded : bool) : list Audit.AuditEvent :=
  if recorded then []
  else [record_filesystem_denied tool FILESYSTEM_WRITE_GATE Audit.Mutating failed_reason now].
(** [finish], and the drop of the finished guard. *)
Definition guard_finish {A} (outcome : Result AuthorizedError A) : list Audit.AuditEvent :=
  match outcome with
  | Ok _ => record_filesystem_allowed tool FILESYSTEM_WRITE_GATE Audit.Mutating allowed_reason now
  | Err (Authorization error) =>
      record_filesystem_denied tool FILESYSTEM_WRITE_GATE Audit.Mutating (GrantError.reason_code error) now
  | Err (Filesystem error) =>
      record_filesystem_denied tool FILESYSTEM_WRITE_GATE Audit.Mutating (reason error) now
  | Err Cancelled =>
      record_filesystem_denied tool FILESYSTEM_WRITE_GATE Audit.Mutating
        FILESYSTEM_MUTATION_REQUEST_CANCELLED now
  end :: guard_drop true.
Definition guard_cancelled : list Audit.AuditEvent :=
  record_filesystem_denied tool FILESYSTEM_WRITE_GATE Audit.Mutating
    FILESYSTEM_MUTATION_REQUEST_CANCELLED now :: guard_drop true.
End guards.

Module CreateDirectoryAudit.
Definition drop := guard_drop CREATE_DIRECTORY_TOOL FILESYSTEM_CREATE_FAILED.
Definition finish {A} now (outcome : Result AuthorizedError A) :=
  guard_finish CREATE_DIRECTORY_TOOL FILESYSTEM_CREATE_ALLOWED FILESYSTEM_CREATE_FAILED
    create_directory_filesystem_reason now outcome.
Definition cancelled := guard_cancelled CREATE_DIRECTORY_TOOL FILESYSTEM_CREATE_FAILED.
End CreateDirectoryAudit.
Module CopyFileAudit.
Definition drop := guard_drop COPY_FILE_TOOL FILESYSTEM_COPY_FAILED.
Definition finish {A} now (outcome : Result AuthorizedError A) :=
  guard_finish COPY_FILE_TOOL FILESYSTEM_COPY_ALLOWED FILESYSTEM_COPY_FAILED
    copy_file_filesystem_reason now outcome.
Definition cancelled := guard_cancelled COPY_FILE_TOOL FILESYSTEM_COPY_FAILED.
End CopyFileAudit.
Module TrashFileAudit.
Definition drop := guard_drop TRASH_FILE_TOOL FILESYSTEM_TRASH_FAILED.
Definition finish {A} now (outcome : Result AuthorizedError A) :=
  guard_finish TRASH_FILE_TOOL FILESYSTEM_TRASH_ALLOWED FILESYSTEM_TRASH_FAILED
    trash_file_filesystem_reason now outcome.
Definition cancelled := guard_cancelled TRASH_FILE_TOOL FILESYSTEM_TRASH_FAILED.
End TrashFileAudit.
Module WriteFileAudit.
Definition drop := guard_drop WRITE_FILE_TOOL FILESYSTEM_WRITE_FAILED.
Definition finish {A} now (outcome : Result AuthorizedError A) :=
  guard_finish WRITE_FILE_TOOL FILESYSTEM_WRITE_ALLOWED FILESYSTEM_WRITE_FAILED
    write_file_filesystem_reason now outcome.
Definition cancelled := guard_cancelled WRITE_FILE_TOOL FILESYSTEM_WRITE_FAILED.
End WriteFileAudit.

(** ** The commit guard

    One [AtomicU8] shared by the request that waits and the worker. *)

Definition MUTATION_COMMIT_PENDING : N := 0.
Definition MUTATION_COMMIT_CANCELLED : N := 1.
Definition MUTATION_COMMIT_WORKER_OWNED : N := 2.

(** [AtomicU8::compare_exchange]: the new value, and whether it was exchanged. *)
Definition compare_exchange (state current new : N) : N * bool :=
  if (state =? current)%N then (new, true) else (state, false).

(** [FilesystemMutationWorkerCommitGuard::claim]. *)
Definition claim (state : N) : N * bool :=
  compare_exchange state MUTATION_COMMIT_PENDING MUTATION_COMMIT_WORKER_OWNED.

Record WaiterGuard := mkWaiter { armed : bool }.
Definition filesystem_mutation_commit_guards : N * WaiterGuard := (MUTATION_COMMIT_PENDING, mkWaiter true).
(** [Drop for FilesystemMutationWaiterGuard]. *)
Definition waiter_drop (self : WaiterGuard) (state : N) : N :=
  if armed self
  then fst (compare_exchange state MUTATION_COMMIT_PENDING MUTATION_COMMIT_CANCELLED) else state.
(** [complete], which drops the disarmed guard. *)
Definition waiter_complete (self : WaiterGuard) (state : N) : N := waiter_drop (mkWaiter false) state.

(** ** Admission *)

Definition MAX_CONCURRENT_FILESYSTEM_MUTATION_WORKERS : nat := 1.
Record FilesystemMutationWorkerCapacity := mkCapacity { permits : nat }.
Definition capacity_default : FilesystemMutationWorkerCapacity :=
  mkCapacity MAX_CONCURRENT_FILESYSTEM_MUTATION_WORKERS.
(** [try_acquire]: whether a permit was free. *)
Definition try_acquire (self : FilesystemMutationWorkerCapacity) : FilesystemMutationWorkerCapacity * bool :=
  match permits self with O => (self, false) | S n => (mkCapacity n, true) end.
(** The permit a worker owns is dropped when its closure ends. *)
Definition release (self : FilesystemMutationWorkerCapacity) : FilesystemMutationWorkerCapacity :=
  mkCapacity (S (permits self)).

(** ** Workers *)

Inductive WorkerOutcome (A : Type) :=
| Completed (outcome : Result AuthorizedError A)
| WorkerCancelled.
#[global] Arguments Completed {A} outcome.
#[global] Arguments WorkerCancelled {A}.

(** The callback [authorize_and_commit]: claim the commit, then consume the
    grant, with the state of the process at that moment. *)
Definition authorize_and_commit {T} (consume : T → ReplayWorld * GrantResult unit) (w : ReplayWorld)
    (state : N) (target : T) : N * ReplayWorld * Result AuthorizedError unit :=
  let '(state, claimed) := claim state in
  if negb claimed then (state, w, Err Cancelled)
  else let '(w, r) := consume target in (state, w, map_err Authorization r).

Section worker.
Context {P A : Type} (execute : P → fs AuthorizedError A).
Context (finish : Result AuthorizedError A → list Audit.AuditEvent) (cancelled : list Audit.AuditEvent).

Definition run_prepared (prepared : P) : prog (WorkerOutcome A * list Audit.AuditEvent) :=
  prog_bind (execute prepared) (λ outcome, match outcome with
    | Err Cancelled => Ret (WorkerCancelled, cancelled)
    | _ => Ret (Completed outcome, finish outcome)
    end).
Definition run_worker (prepare : fs AppError P) : prog (WorkerOutcome A * list Audit.AuditEvent) :=
  prog_bind prepare (λ r, match r with
    | Err error =>
      let outcome := Err (Filesystem error) in Ret (Completed outcome, finish outcome)
    | Ok prepared => run_prepared prepared
    end).
End worker.

Section workers.
Context {FM : FileModes} {C : Crypto} (file_tools : PinnedSafeRootSet) (now : N).

Definition run_create_directory_mutation_worker (path : bytes)
    : prog (WorkerOutcome CreateDirectoryResult * list Audit.AuditEvent) :=
  run_worker CreateDirectoryMutation.execute_authorized_with_commit
    (CreateDirectoryAudit.finish now) (CreateDirectoryAudit.cancelled now)
    (prepare_create_directory_mutation_blocking file_tools path).
Definition run_copy_file_mutation_worker (source_path destination_path : bytes)
    : prog (WorkerOutcome CopyFileResult * list Audit.AuditEvent) :=
  run_worker CopyFileMutation.execute_authorized_with_commit
    (CopyFileAudit.finish now) (CopyFileAudit.cancelled now)
    (prepare_copy_file_mutation_blocking file_tools source_path destination_path).
Definition run_trash_file_mutation_worker (path : bytes)
    : prog (WorkerOutcome TrashFileResult * list Audit.AuditEvent) :=
  run_worker TrashFileMutation.execute_authorized_with_commit
    (TrashFileAudit.finish now) (TrashFileAudit.cancelled now)
    (prepare_trash_file_mutation_blocking file_tools path).
Definition run_write_file_mutation_worker (path content : bytes)
    : prog (WorkerOutcome WriteFileResult * list Audit.AuditEvent) :=
  run_worker WriteFileMutation.execute_authorized_with_commit
    (WriteFileAudit.finish now) (WriteFileAudit.cancelled now)
    (prepare_write_file_mutation_blocking file_tools path content).
End workers.

(** What each worker consumes: the directory worker with the transport's clock,
    the others with the clock of their grant module. *)
Record Credentials := mkCredentials {
  authority : GrantAuthority; capability_grant : option bytes; session_id : bytes }.

(** [current_unix_seconds] of the transport: zero before the epoch. *)
Definition current_unix_seconds (clock : option N) : N := default 0%N clock.

Section callbacks.
Context {C : Crypto} (c : Credentials) (clock : option N) (w : ReplayWorld).

Definition create_directory_consume (target : CreateDirectory.CreateDirectoryGrantTarget)
    : ReplayWorld * GrantResult unit :=
  CreateDirectory.consume_at (authority c) w (capability_grant c) (session_id c) target
    (current_unix_seconds clock).
Definition copy_file_consume (target : CopyFile.CopyFileGrantTarget) : ReplayWorld * GrantResult unit :=
  CopyFile.consume (authority c) w (capability_grant c) (session_id c) target clock.
Definition trash_file_consume (target : TrashFile.TrashFileGrantTarget) : ReplayWorld * GrantResult unit :=
  TrashFile.consume (authority c) w (capability_grant c) (session_id c) target clock.
Definition write_file_consume (target : WriteFile.WriteFileGrantTarget) : ReplayWorld * GrantResult unit :=
  WriteFile.consume (authority c) w (capability_grant c) (session_id c) target clock.
End callbacks.
End MutationWorkers.
