(* ===== verification/WorkersSafety.v ===== *)
(** * A mutation happens only under a grant for exactly it

    The workers of [MutationWorkers] composed with the preparation, the execution
    and the grants: what a worker changes, what it asked to be authorized, what
    the grant it consumed was issued for, and what it recorded. *)

From S2P Require Import Prelude RustStd RustPath RequestGrantCapability GrantReplay GrantToken AppErrors.
From S2P Require Import GrantTargets OpaqueGrant WriteFileGrant CopyFileGrant TrashFileGrant.
From S2P Require Import CreateDirectoryGrant AuditEvents FsCalls SafeRoots Quarantine FsPrepare.
From S2P Require Import FsReads FsMutations FsTools FsLogic FsGate FsExample FsBounds FsSearch FsConfine FsConfinement.
From S2P Require Import FsCreateSafety FsCopySafety FsTrashSafety FsWriteSafety FsReadOnly.
From S2P Require Import MutationWorkers.

Module WorkersSafety.
Import AppErrors SafeRoots Quarantine FsPrepare FsMutations FsTools FsBounds MutationWorkers.

(** ** Runs *)

Lemma worker_exec_frame {A} (p : prog A) h a h' :
  exec p h a h' → ∃ t, h' = t ++ h ∧ ∀ h2, exec p h2 a (t ++ h2).
Proof.
  induction 1 as [a h|c k r h a h' _ (t & -> & IH)].
  - exists []. split; [done|]. constructor.
  - exists (t ++ [Ev c r]). split; [by rewrite <-app_assoc|]. intros h2. rewrite <-app_assoc.
    by econstructor.
Qed.
Lemma exec_inv {A} (p : prog A) h a h' :
  exec p h a h' →
  match p with
  | Ret b => a = b ∧ h' = h
  | Do c k => ∃ r, exec (k r) (Ev c r :: h) a h'
  end.
Proof. destruct 1; eauto. Qed.
Lemma exec_prog_bind {A B} (p : prog A) (f : A → prog B) h b h' :
  exec (prog_bind p f) h b h' → ∃ a h1, exec p h a h1 ∧ exec (f a) h1 b h'.
Proof.
  revert h; induction p as [a|c k IH]; intros h He; [by exists a, h; split; [constructor|]|].
  apply exec_inv in He as [r He]. apply IH in He as (a & h1 & Ha & Hb).
  exists a, h1. split; [by econstructor|done].
Qed.

(** ** Where an error comes from *)

(** Anything but an error of the filesystem is the callback's answer. *)
Definition accounted {A} (r : Result AuthorizedError A) (h : history) : Prop :=
  match r with
  | Ok _ | Err (Filesystem _) => True
  | Err e => ∃ t, Ev (Authorize t) (Err e) ∈ h
  end.
Definition accounts {A} (p : fs AuthorizedError A) : Prop :=
  ∀ h, safe (λ _ _, True) p h (λ r h', later h h' ∧ accounted r h').

Lemma trivially_safe {A} (p : prog A) h : safe (λ _ _, True) p h (λ _ h', later h h').
Proof.
  assert (∀ h0, later h h0 → safe (λ _ _, True) p h0 (λ _ h', later h h')) as H; [|apply H, later_refl].
  induction p as [a|c k IH]; intros h0 L; simpl; [done|]. split; [done|]. intros r. by apply IH, later_cons.
Qed.
Lemma accounts_or_err {E A} (f : E → AppError) (p : fs E A) : accounts (or_err (Filesystem ∘ f) p).
Proof.
  intros h. apply safe_or_err. eapply safe_mono; [apply trivially_safe|]. intros [a|e] h' L; by split.
Qed.
Lemma accounts_bind {A B} (p : fs AuthorizedError A) (f : A → fs AuthorizedError B) :
  accounts p → (∀ a, accounts (f a)) → accounts (p ≫= f).
Proof.
  intros Hp Hf h. apply safe_bind. eapply safe_mono; [apply Hp|]. intros [a|e] h' [L He]; [|done].
  eapply safe_mono; [apply Hf|]. intros r h2 [L2 ?]. split; [by eapply later_trans|done].
Qed.
Lemma accounts_mret {A} (a : A) : accounts (mret a).
Proof. intros h. split; [apply later_refl|done]. Qed.
Lemma accounts_total {A} (p : prog A) : accounts (total p).
Proof. intros h. apply safe_total. eapply safe_mono; [apply trivially_safe|]. done. Qed.
Lemma accounts_authorize t : accounts (authorize t).
Proof.
  intros h. split; [done|]. intros r. split; [apply later_cons, later_refl|].
  destruct r as [[]|[]]; simpl; try done; exists t; apply list_elem_of_here.
Qed.
Lemma accounts_publishing {A} (body : fs AuthorizedError A) : accounts body → accounts (publishing body).
Proof.
  intros Hb. apply accounts_bind; [apply (accounts_or_err id)|]. intros _ h. apply safe_bracket.
  eapply safe_mono; [apply Hb|]. intros r h' [L Hr]. split; [done|]. intros [].
  split; [by apply later_cons|]. destruct r as [|[]]; simpl in *; try done;
    destruct Hr as [t Ht]; exists t; by apply list_elem_of_further.
Qed.

Ltac accounts :=
  repeat match goal with
  | |- accounts (publishing _) => apply accounts_publishing
  | |- accounts (_ ≫= _) => apply accounts_bind; [|intros]
  | |- accounts (or_err Filesystem _) => apply (accounts_or_err id)
  | |- accounts (or_err (Filesystem ∘ _) _) => apply accounts_or_err
  | |- accounts (mret _) => apply accounts_mret
  | |- accounts (total _) => apply accounts_total
  | |- accounts (authorize _) => apply accounts_authorize
  | |- accounts (match ?x with _ => _ end) => destruct x
  end.

Section accounts.
Context {FM : FileModes} {C : Crypto}.
Lemma create_accounts m : accounts (CreateDirectoryMutation.execute_authorized_with_commit m).
Proof. unfold CreateDirectoryMutation.execute_authorized_with_commit. accounts. Qed.
Lemma copy_accounts m : accounts (CopyFileMutation.execute_authorized_with_commit m).
Proof. unfold CopyFileMutation.execute_authorized_with_commit. accounts. Qed.
Lemma trash_accounts m : accounts (TrashFileMutation.execute_authorized_with_commit m).
Proof. unfold TrashFileMutation.execute_authorized_with_commit. accounts. Qed.
Lemma write_accounts m : accounts (WriteFileMutation.execute_authorized_with_commit m).
Proof. unfold WriteFileMutation.execute_authorized_with_commit. accounts. Qed.
End accounts.

(** ** What an execution may do *)

Lemma gate_mutation target ready steps h e :
  obeys (gate target ready steps) h → e ∈ h → mutating (ev_call e) = true →
  Ev (Authorize target) (Ok ()) ∈ h.
Proof.
  induction h as [|[c r] h IH]; simpl; [by intros _ ?%not_elem_of_nil|]. intros [Hc Ho] He Hm.
  apply list_elem_of_further. apply elem_of_cons in He as [->|He]; [|by apply IH].
  simpl in Hm. destruct c; try done; by destruct (Hc Hm) as [? _].
Qed.
Lemma gate_asks target ready steps h t r :
  obeys (gate target ready steps) h → Ev (Authorize t) r ∈ h →
  t = target ∧ ∀ t' r', Ev (Authorize t') r' ∈ h → Ev (Authorize t') r' = Ev (Authorize t) r.
Proof.
  intros Ho Hin. apply list_elem_of_split in Hin as (h1 & h2 & ->).
  apply gate_once in Ho as (-> & Hp & Hn). split; [done|]. intros t' r' Hin.
  rewrite Forall_forall in Hp, Hn. apply elem_of_app in Hin as [Hin|Hin]; [by apply Hn in Hin|].
  apply elem_of_cons in Hin as [?|Hin]; [done|]. by apply Hp in Hin.
Qed.

Definition answered (e : event) : option (Result AuthorizedError unit) :=
  match e with
  | Ev c r => match c return answer c → option (Result AuthorizedError unit) with Authorize _ => Some | _ => λ _, None end r
  end.

(** An execution obeys a gate for [target], accounts for its errors, and answers
    only after a change. *)
Definition executes {A} (target : MutationTarget) (p : fs AuthorizedError A) : Prop :=
  ∀ r h, exec p [] r h →
    (∃ ready steps, obeys (gate target ready steps) h) ∧ accounted r h ∧
    (∀ v, r = Ok v → ∃ e, e ∈ h ∧ mutating (ev_call e) = true).

Lemma executes_intro {A} target ready steps (p : fs AuthorizedError A) (P : A → history → Prop) :
  safe (gate target ready steps) p [] (on_ok P) → accounts p →
  (∀ v h, P v h → ∃ e, e ∈ h ∧ mutating (ev_call e) = true) → executes target p.
Proof.
  intros Hs Ha HP r h He. split_and!.
  - eapply safe_exec in Hs as [_ ?]; [by eexists _, _|exact He|done].
  - by destruct (safe_exec _ _ _ _ _ _ He I (Ha [])) as [[_ ?] _].
  - intros v ->. eapply safe_exec in Hs as [? _]; [|exact He|done]. by eapply HP.
Qed.

Lemma extends_has h h' : extends h h' → (∃ e, e ∈ h ∧ mutating (ev_call e) = true) →
  ∃ e, e ∈ h' ∧ mutating (ev_call e) = true.
Proof. intros Hh (e & He & Hm). exists e. split; [by eapply extends_elem|done]. Qed.

Section executions.
Context {FM : FileModes} {C : Crypto}.

Lemma create_executes m :
  executes (CreateDirectoryTarget (pc_grant_target m)) (CreateDirectoryMutation.execute_authorized_with_commit m).
Proof.
  eapply executes_intro; [apply FsCreateSafety.create_execute_safe|apply create_accounts|].
  intros v h (_ & temp & file & st & published & h0 & -> & _). eexists (Ev (Fchmod _ _) _).
  split; [do 6 apply list_elem_of_further; apply list_elem_of_here|done].
Qed.
Lemma copy_executes m :
  executes (CopyFileTarget (pcf_grant_target m)) (CopyFileMutation.execute_authorized_with_commit m).
Proof.
  eapply executes_intro; [apply FsCopySafety.copy_execute_safe|apply copy_accounts|].
  intros v h (_ & quarantine & temp & file & id & staged & published & hd & h0 & h1 & -> & He & _).
  eapply (extends_has _ (_ :: h1)); [apply extends_cons; [exact He|done]|].
  eexists (Ev (RenameatWith _ _ _ _ _) _). split; [do 4 apply list_elem_of_further; apply list_elem_of_here|done].
Qed.
Lemma trash_executes m :
  executes (TrashFileTarget (pt_grant_target m)) (TrashFileMutation.execute_authorized_with_commit m).
Proof.
  eapply executes_intro; [apply FsTrashSafety.trash_execute_safe|apply trash_accounts|].
  intros v h (_ & quarantine & artifact & retained & hd & answer & h0 & h1 & -> & He & _).
  eapply (extends_has _ (_ :: h1)); [apply extends_cons; [exact He|done]|].
  eexists (Ev (RenameatWith _ _ _ _ _) _). split; [do 7 apply list_elem_of_further; apply list_elem_of_here|done].
Qed.
Lemma write_executes m :
  executes (WriteFileTarget (pw_grant_target m)) (WriteFileMutation.execute_authorized_with_commit m).
Proof.
  eapply executes_intro; [apply FsWriteSafety.write_execute_safe|apply write_accounts|].
  intros v h (_ & quarantine & artifact & file & id & published & hd & h0 & h1 & h2 & -> & He & Hc & Hs & Hw & _).
  eapply (extends_has _ (_ :: h2)); [apply extends_cons; [exact He|done]|].
  eexists (Ev (WriteAll _ _) _). split; [|done]. do 4 apply list_elem_of_further.
  unfold FsWriteSafety.committed in Hc. destruct (pw_disposition m).
  - subst. by apply list_elem_of_further.
  - destruct Hc as (? & ? & _ & -> & _). by do 2 apply list_elem_of_further.
Qed.
End executions.

(** ** What was prepared *)

Lemma returns_bind_lift {E A B} (r : Result E A) (f : A → fs E B) (Q : Result E B → Prop) :
  (∀ e, Q (Err e)) → (∀ a, r = Ok a → returns (f a) Q) → returns (lift r ≫= f) Q.
Proof. intros He Hf. destruct r as [a|e]; [by apply Hf|apply He]. Qed.
Lemma normal_components_Ok cs : ∀ l, normal_components cs = Ok l → cs = Normal <$> l.
Proof.
  induction cs as [|c cs IH]; simpl; intros l; [by intros [= <-]|]. destruct c; try done. intros H. inv_ok H.
  simplify_eq. simpl. f_equal. by apply IH.
Qed.
Section targets.
Context {FM : FileModes} {C : Crypto} (self : PinnedSafeRootSet).

(** The endpoint of a request: the root it was anchored under, by the identity
    the kernel gave it, and the names below. *)
Definition endpoint (path : bytes) (names : list bytes) : Prop :=
  ∃ a, anchor self path = Ok a ∧ components (relative_path a) = Normal <$> names.

Definition create_target (path : bytes) (t : CreateDirectory.CreateDirectoryGrantTarget) : Prop :=
  ∃ names dev ino, endpoint path names ∧ CreateDirectory.from_normalized_components dev ino names = Ok t.
Definition write_target (path content : bytes) (t : WriteFile.WriteFileGrantTarget) : Prop :=
  ∃ names dev ino disposition existing, endpoint path names ∧
    WriteFile.from_normalized_components dev ino names content disposition existing = Ok t.
Definition trash_target (path : bytes) (t : TrashFile.TrashFileGrantTarget) : Prop :=
  ∃ names dev ino identity content, endpoint path names ∧
    TrashFile.from_normalized_components dev ino names identity (sha256 content) = Ok t.
Definition copy_target (source destination : bytes) (t : CopyFile.CopyFileGrantTarget) : Prop :=
  ∃ names dev ino identity content names' dev' ino', endpoint source names ∧ endpoint destination names' ∧
    CopyFile.from_normalized_components dev ino names identity (sha256 content) dev' ino' names' = Ok t.

Ltac targets :=
  repeat match goal with
  | |- returns (lift _ ≫= _) _ => apply returns_bind_lift; [done|intros]
  | |- returns (_ ≫= _) (ok_of _) => apply returns_any; intros
  | |- returns (match ?x with _ => _ end) _ => destruct x
  end;
  repeat match goal with
  | H : normal_components _ = Ok _ |- _ => apply normal_components_Ok in H
  | H : map_err _ _ = Ok _ |- _ => apply map_err_Ok in H
  end.

Lemma prepare_create_target path :
  returns (prepare_create_directory_mutation_blocking self path)
    (ok_of (λ m, create_target path (pc_grant_target m))).
Proof.
  unfold prepare_create_directory_mutation_blocking, prepare_create_directory. targets.
  eexists _, _, _. split; [by eexists|done].
Qed.
Lemma prepare_write_target path content :
  returns (prepare_write_file_mutation_blocking self path content)
    (ok_of (λ m, write_target path content (pw_grant_target m))).
Proof.
  unfold prepare_write_file_mutation_blocking, prepare_write_file. targets.
  eexists _, _, _, _, _. split; [by eexists|done].
Qed.
Lemma prepare_trash_target path :
  returns (prepare_trash_file_mutation_blocking self path)
    (ok_of (λ m, trash_target path (pt_grant_target m))).
Proof.
  unfold prepare_trash_file_mutation_blocking, prepare_trash_file. targets.
  eexists _, _, _, _, _. split; [by eexists|done].
Qed.
Lemma prepare_copy_target source destination :
  returns (prepare_copy_file_mutation_blocking self source destination)
    (ok_of (λ m, copy_target source destination (pcf_grant_target m))).
Proof.
  unfold prepare_copy_file_mutation_blocking, prepare_copy_file. targets.
  eexists _, _, _, _, _, _, _, _. split_and!; [by eexists|by eexists|done].
Qed.
End targets.

(** ** Accounting for a worker *)

Definition unchanged (h : history) : Prop := Forall (λ e, mutating (ev_call e) = false) h.
Definition changed (h : history) : Prop := ∃ e, e ∈ h ∧ mutating (ev_call e) = true.
Lemma changed_unchanged h : unchanged h → ¬ changed h.
Proof. intros Hu (e & He & Hm). unfold unchanged in Hu. rewrite Forall_forall in Hu. by rewrite Hu in Hm. Qed.

(** The authorization callback answered what it computes. *)
Definition honest {T} (inject : T → MutationTarget) (consume : T → ReplayWorld * GrantResult unit)
    (w : ReplayWorld) (state : N) (h : history) : Prop :=
  ∀ t answer, Ev (Authorize (inject t)) answer ∈ h →
    answer = snd (authorize_and_commit consume w state t).

(** What is true of a worker that ended with [outcome], recorded [audits] and
    made the calls [h]: it recorded one event, which is an allowance exactly when
    it answered; a change or an answer means that it owned the commit and that
    the grant was consumed for the target that was prepared; a refused grant or a
    commit lost to the waiting request means that nothing was changed, and in the
    latter case that no grant was touched. *)
Definition accountable {T A} (inject : T → MutationTarget) (describes : T → Prop)
    (consume : T → ReplayWorld * GrantResult unit) (w : ReplayWorld) (state : N)
    (outcome : WorkerOutcome A) (audits : list Audit.AuditEvent) (h : history) : Prop :=
  (∃ e, audits = [e] ∧ Audit.mode e = Audit.Mutating ∧
     (Audit.decision e = Audit.Allowed ↔ ∃ v, outcome = Completed (Ok v))) ∧
  (changed h ∨ (∃ v, outcome = Completed (Ok v)) →
     state = MUTATION_COMMIT_PENDING ∧
     ∃ t, describes t ∧ Ev (Authorize (inject t)) (Ok ()) ∈ h ∧ snd (consume t) = Ok ()) ∧
  (∀ e, outcome = Completed (Err (Authorization e)) →
     unchanged h ∧ state = MUTATION_COMMIT_PENDING ∧ ∃ t, describes t ∧ snd (consume t) = Err e) ∧
  (outcome = WorkerCancelled → unchanged h ∧ state ≠ MUTATION_COMMIT_PENDING) ∧
  (state ≠ MUTATION_COMMIT_PENDING →
     unchanged h ∧ ∀ t, authorize_and_commit consume w state t = (state, w, Err Cancelled)).

Section accounting.
Context {T P A : Type} (inject : T → MutationTarget) (target : P → T) (describes : T → Prop).
Context (execute : P → fs AuthorizedError A) (prepare : fs AppError P).
Context (tool allowed_reason failed_reason : bytes) (reason : AppError → bytes) (now : N).
Context (consume : T → ReplayWorld * GrantResult unit) (w : ReplayWorld) (state : N).
Hypothesis (Hprepare : returns prepare (ok_of (λ m, describes (target m)))).
Hypothesis (Hpassive : passive_prog prepare).
Hypothesis (Hexecute : ∀ m, executes (inject (target m)) (execute m)).

Lemma is_passive_unchanged h : Forall is_passive h → unchanged h.
Proof.
  intros H. eapply Forall_impl; [exact H|]. intros e. unfold is_passive, passive.
  by destruct (mutating (ev_call e)), (authorizing (ev_call e)).
Qed.
Lemma claim_lost t : state ≠ MUTATION_COMMIT_PENDING →
  authorize_and_commit consume w state t = (state, w, Err Cancelled).
Proof.
  intros Hs. unfold authorize_and_commit, claim, compare_exchange.
  by rewrite (proj2 (N.eqb_neq _ _) Hs).
Qed.
Lemma claim_won t : state = MUTATION_COMMIT_PENDING →
  snd (authorize_and_commit consume w state t) = map_err Authorization (snd (consume t)).
Proof. intros ->. unfold authorize_and_commit. simpl. by destruct (consume t). Qed.

Lemma finish_event (r : Result AuthorizedError A) :
  ∃ e, guard_finish tool allowed_reason failed_reason reason now r = [e] ∧ Audit.mode e = Audit.Mutating ∧
    (Audit.decision e = Audit.Allowed ↔ ∃ v, r = Ok v).
Proof. destruct r as [v|[]]; eexists; (split; [reflexivity|split; [reflexivity|]]); naive_solver. Qed.

(** The answer of the only question, and what it says of the run. *)
Lemma asked m r h t answer :
  executes (inject (target m)) (execute m) → exec (execute m) [] r h → honest inject consume w state h →
  Ev (Authorize t) answer ∈ h →
  t = inject (target m) ∧ answer = snd (authorize_and_commit consume w state (target m)) ∧
  (answer ≠ Ok () → unchanged h).
Proof.
  intros Hx He Hh Hin. destruct (Hx _ _ He) as ((ready & steps & Ho) & _ & _).
  destruct (gate_asks _ _ _ _ _ _ Ho Hin) as [-> Hsame]. split_and!; [done|by apply Hh|].
  intros Hne. apply Forall_forall. intros e Hin'. destruct (mutating (ev_call e)) eqn:Em; [|done].
  apply (gate_mutation _ _ _ _ _ Ho Hin') in Em. apply Hsame in Em.
  exfalso. apply Hne. apply (f_equal answered) in Em. by injection Em as <-.
Qed.

Definition worker : prog (WorkerOutcome A * list Audit.AuditEvent) :=
  run_worker execute (guard_finish tool allowed_reason failed_reason reason now)
    (guard_cancelled tool failed_reason now) prepare.

(** A worker's run is a passive preparation, which may fail, and an execution. *)
Lemma worker_run outcome audits h :
  exec worker [] (outcome, audits) h →
  (∃ e, outcome = Completed (Err (Filesystem e)) ∧ unchanged h ∧
     audits = guard_finish tool allowed_reason failed_reason reason now (Err (Filesystem e) : Result _ A)) ∨
  (∃ m r t0 t, h = t ++ t0 ∧ unchanged t0 ∧ describes (target m) ∧ exec (execute m) [] r t ∧
     (outcome, audits) = match r with
       | Err Cancelled => (WorkerCancelled, guard_cancelled tool failed_reason now)
       | _ => (Completed r, guard_finish tool allowed_reason failed_reason reason now r)
       end).
Proof.
  intros (p & h1 & Hp & He)%exec_prog_bind.
  pose proof (is_passive_unchanged _ (FsReadOnly.passive_exec _ _ _ Hpassive Hp)) as Hu.
  destruct p as [m|e]; [|apply exec_inv in He as [[= -> ->] ->]; left; by eexists].
  right. apply exec_prog_bind in He as (r & h2 & Hx & Hr).
  apply worker_exec_frame in Hx as (t & -> & Hx). specialize (Hx []). rewrite app_nil_r in Hx.
  pose proof (returns_exec _ _ _ _ _ Hp Hprepare) as Hd.
  exists m, r, h1, t. by destruct r as [v|[]]; apply exec_inv in Hr as [-> ->].
Qed.

(** A change was preceded by the consumption of the grant. *)
Lemma granted m r h :
  exec (execute m) [] r h → honest inject consume w state h → changed h →
  state = MUTATION_COMMIT_PENDING ∧ Ev (Authorize (inject (target m))) (Ok ()) ∈ h ∧
  snd (consume (target m)) = Ok ().
Proof.
  intros He Hh (e & Hin & Hm). destruct (Hexecute _ _ _ He) as ((ready & steps & Ho) & _ & _).
  pose proof (gate_mutation _ _ _ _ _ Ho Hin Hm) as Ha.
  destruct (asked _ _ _ _ _ (Hexecute m) He Hh Ha) as (_ & Hans & _).
  destruct (decide (state = MUTATION_COMMIT_PENDING)) as [Hs|Hs].
  - split_and!; [done..|]. rewrite (claim_won _ Hs) in Hans. by destruct (snd (consume _)) as [[]|].
  - by rewrite (claim_lost _ Hs) in Hans.
Qed.
(** An error that is not the filesystem's is the callback's, and nothing was
    changed. *)
Lemma refused m e h :
  exec (execute m) [] (Err e) h → honest inject consume w state h → (∀ e', e ≠ Filesystem e') →
  snd (authorize_and_commit consume w state (target m)) = Err e ∧ unchanged h.
Proof.
  intros He Hh Hne. destruct (Hexecute _ _ _ He) as (_ & Ha & _).
  assert (∃ t, Ev (Authorize t) (Err e) ∈ h) as [t Hin] by (destruct e; [done|by destruct (Hne e)|done]).
  destruct (asked _ _ _ _ _ (Hexecute m) He Hh Hin) as (_ & <- & Hu). split; [done|by apply Hu].
Qed.
Lemma changed_or_not h : changed h ∨ unchanged h.
Proof.
  induction h as [|e h [(e' & ? & ?)|IH]]; [right; constructor|left; exists e'; split; [by right|done]|].
  destruct (mutating (ev_call e)) eqn:Em; [left|right; by constructor].
  exists e. split; [apply list_elem_of_here|done].
Qed.
Lemma changed_app t h : unchanged h → changed (t ++ h) → changed t.
Proof.
  intros Hu (e & [He|He]%elem_of_app & Hm); [by exists e|]. destruct (changed_unchanged _ Hu). by exists e.
Qed.

Lemma refused_by_grant t e : snd (authorize_and_commit consume w state t) = Err (Authorization e) →
  state = MUTATION_COMMIT_PENDING ∧ snd (consume t) = Err e.
Proof.
  destruct (decide (state = MUTATION_COMMIT_PENDING)) as [Hs|Hs]; [|by rewrite claim_lost].
  rewrite claim_won by done. destruct (snd (consume t)) as [|]; [done|]. by intros [= ->].
Qed.
Lemma refused_by_claim t : snd (authorize_and_commit consume w state t) = Err Cancelled →
  state ≠ MUTATION_COMMIT_PENDING.
Proof. intros H Hs. rewrite (claim_won _ Hs) in H. by destruct (snd (consume t)). Qed.

Lemma worker_accountable outcome audits h :
  exec worker [] (outcome, audits) h → honest inject consume w state h →
  accountable inject describes consume w state outcome audits h.
Proof.
  intros [(e & -> & Hu & ->)|(m & r & t0 & t & -> & Hu & Hd & He & Hout)]%worker_run Hh.
  { pose proof (changed_unchanged _ Hu). split_and!; try done; [|naive_solver..|].
    - destruct (finish_event (Err (Filesystem e))) as (ev & -> & Hm & Ha). exists ev. naive_solver.
    - intros Hs. split; [done|]. intros. by apply claim_lost. }
  assert (honest inject consume w state t) as Ht by (intros ???; apply Hh, elem_of_app; by left).
  destruct (Hexecute _ _ _ He) as (_ & _ & Hok).
  assert (changed t ∨ (∃ v, r = Ok v) → state = MUTATION_COMMIT_PENDING ∧
    Ev (Authorize (inject (target m))) (Ok ()) ∈ t ∧ snd (consume (target m)) = Ok ()) as Hg.
  { intros Hc. apply (granted _ _ _ He Ht). destruct Hc as [?|[v Hv]]; [done|]. by apply (Hok v). }
  assert (∀ v, outcome = Completed (Ok v) → r = Ok v) as Hres by (destruct r as [|[]]; naive_solver).
  assert (∀ e, r = Err e → (∀ e', e ≠ Filesystem e') →
    snd (authorize_and_commit consume w state (target m)) = Err e ∧ unchanged (t ++ t0)) as Hr.
  { intros e -> Hne. destruct (refused _ _ _ He Ht Hne). split; [done|by apply Forall_app]. }
  split_and!.
  - destruct r as [v|[e|e|]]; injection Hout as -> ->; eexists; (split; [reflexivity|]); naive_solver.
  - intros Hc. destruct Hg as (? & Hin & ?).
    { destruct Hc as [Hc%changed_app|[v Hv]]; [by left|done|right; exists v; by apply Hres]. }
    split; [done|]. exists (target m). split_and!; [done|apply elem_of_app; by left|done].
  - intros e ->. assert (r = Err (Authorization e)) as -> by (destruct r as [|[]]; naive_solver).
    destruct (Hr _ eq_refl) as [[? ?]%refused_by_grant ?]; [done|]. eauto.
  - intros ->. assert (r = Err Cancelled) as -> by (destruct r as [|[]]; naive_solver).
    destruct (Hr _ eq_refl) as [?%refused_by_claim ?]; [done|]. done.
  - intros Hs. split; [|intros; by apply claim_lost]. apply Forall_app. split; [|done].
    destruct (changed_or_not t) as [Hc|]; [|done]. by destruct Hg as [? _]; [left|].
Qed.
End accounting.

(** ** The four workers *)

Section workers.
Context {FM : FileModes} {C : Crypto} (self : PinnedSafeRootSet).

Lemma create_blocking_passive path : passive_prog (prepare_create_directory_mutation_blocking self path).
Proof. unfold prepare_create_directory_mutation_blocking. solve_calls. Qed.
Lemma copy_blocking_passive source destination :
  passive_prog (prepare_copy_file_mutation_blocking self source destination).
Proof. unfold prepare_copy_file_mutation_blocking. solve_calls. Qed.
Lemma trash_blocking_passive path : passive_prog (prepare_trash_file_mutation_blocking self path).
Proof. unfold prepare_trash_file_mutation_blocking. solve_calls. Qed.
Lemma write_blocking_passive path content :
  passive_prog (prepare_write_file_mutation_blocking self path content).
Proof. unfold prepare_write_file_mutation_blocking. solve_calls. Qed.

Section each.
Context (c : Credentials) (clock : option N) (w : ReplayWorld) (state now : N).

Lemma create_worker_accountable path outcome audits h :
  exec (run_create_directory_mutation_worker self now path) [] (outcome, audits) h →
  honest CreateDirectoryTarget (create_directory_consume c clock w) w state h →
  accountable CreateDirectoryTarget (create_target self path) (create_directory_consume c clock w)
    w state outcome audits h.
Proof.
  intros. eapply worker_accountable; try eassumption;
    [apply prepare_create_target|apply create_blocking_passive|apply create_executes].
Qed.
Lemma copy_worker_accountable source destination outcome audits h :
  exec (run_copy_file_mutation_worker self now source destination) [] (outcome, audits) h →
  honest CopyFileTarget (copy_file_consume c clock w) w state h →
  accountable CopyFileTarget (copy_target self source destination) (copy_file_consume c clock w)
    w state outcome audits h.
Proof.
  intros. eapply worker_accountable; try eassumption;
    [apply prepare_copy_target|apply copy_blocking_passive|apply copy_executes].
Qed.
Lemma trash_worker_accountable path outcome audits h :
  exec (run_trash_file_mutation_worker self now path) [] (outcome, audits) h →
  honest TrashFileTarget (trash_file_consume c clock w) w state h →
  accountable TrashFileTarget (trash_target self path) (trash_file_consume c clock w) w state outcome audits h.
Proof.
  intros. eapply worker_accountable; try eassumption;
    [apply prepare_trash_target|apply trash_blocking_passive|apply trash_executes].
Qed.
Lemma write_worker_accountable path content outcome audits h :
  exec (run_write_file_mutation_worker self now path content) [] (outcome, audits) h →
  honest WriteFileTarget (write_file_consume c clock w) w state h →
  accountable WriteFileTarget (write_target self path content) (write_file_consume c clock w)
    w state outcome audits h.
Proof.
  intros. eapply worker_accountable; try eassumption;
    [apply prepare_write_target|apply write_blocking_passive|apply write_executes].
Qed.
End each.

(** Every mutation of the filesystem is paid for by one grant and accounted
    for by one audit event.  Whatever the kernel answers a worker, if its
    authorization callback answers what [authorize_and_commit] computes: it
    records exactly one mutating event, an allowance if and only if it answers a
    result; it changes the filesystem, or answers a result, only if it won the
    commit against the waiting request and the caller's grant was consumed for a
    target that describes the requested path (and, for a write, the content);
    when the grant is refused nothing is changed; and when the request gave up
    first nothing is changed and the grant is left unspent. *)
Theorem mutations_require_grants c clock w state now :
  (∀ path outcome audits h,
     exec (run_create_directory_mutation_worker self now path) [] (outcome, audits) h →
     honest CreateDirectoryTarget (create_directory_consume c clock w) w state h →
     accountable CreateDirectoryTarget (create_target self path) (create_directory_consume c clock w)
       w state outcome audits h) ∧
  (∀ source destination outcome audits h,
     exec (run_copy_file_mutation_worker self now source destination) [] (outcome, audits) h →
     honest CopyFileTarget (copy_file_consume c clock w) w state h →
     accountable CopyFileTarget (copy_target self source destination) (copy_file_consume c clock w)
       w state outcome audits h) ∧
  (∀ path outcome audits h,
     exec (run_trash_file_mutation_worker self now path) [] (outcome, audits) h →
     honest TrashFileTarget (trash_file_consume c clock w) w state h →
     accountable TrashFileTarget (trash_target self path) (trash_file_consume c clock w)
       w state outcome audits h) ∧
  (∀ path content outcome audits h,
     exec (run_write_file_mutation_worker self now path content) [] (outcome, audits) h →
     honest WriteFileTarget (write_file_consume c clock w) w state h →
     accountable WriteFileTarget (write_target self path content) (write_file_consume c clock w)
       w state outcome audits h).
Proof.
  split_and!; intros;
    by first [ eapply create_worker_accountable | eapply copy_worker_accountable
             | eapply trash_worker_accountable | eapply write_worker_accountable ].
Qed.
End workers.

(** ** A worker never panics

    Its calls are those of its mutation, none of which depends on how a time is
    printed. *)

Lemma run_worker_calls {P A} S (execute : P → fs AuthorizedError A) finish cancelled prepare h :
  safe S (prepared ← or_err Filesystem prepare; execute prepared) h (λ _ _, True) →
  safe S (run_worker execute finish cancelled prepare) h (λ _ _, True).
Proof.
  unfold run_worker, or_err. revert h; induction prepare as [[p|e]|c k IH]; intros h.
  - intros H. change (safe S (execute p) h (λ _ _, True)) in H. cbn [prog_bind]. unfold run_prepared.
    apply safe_prog_bind. eapply safe_mono; [exact H|]. by intros [|[]].
  - done.
  - intros [Hc Hk]. split; [done|]. intros r. apply IH, Hk.
Qed.
Lemma worker_never_panics {FM : FileModes} {C : Crypto} (self : PinnedSafeRootSet) {P A}
    (execute : P → fs AuthorizedError A) finish cancelled prepare o h :
  mutation self _ _ (prepared ← or_err Filesystem prepare; execute prepared) →
  exec (run_worker execute finish cancelled prepare) [] o h → Ev Panic () ∉ h.
Proof.
  intros Hm He Hp. set (every_time := (λ _, Some []) : Chrono).
  assert (safe (FsConfine.confined (T := every_time) (descriptor <$> roots self))
            (run_worker execute finish cancelled prepare) [] (λ _ _, True)) as Hs.
  { apply run_worker_calls. eapply safe_mono; [by apply FsConfinement.mutation_conf|done]. }
  destruct (safe_exec _ _ _ _ _ _ He I Hs) as [_ Ho].
  by destruct (FsConfine.confined_panic _ _ Ho Hp) as (m & seconds & _ & _ & ?).
Qed.

(** ** A worker that answers its own callback *)

Section callback.
Context {W : Type} (k : W → ∀ c, W * answer c) (callback : MutationTarget → Result AuthorizedError unit).

Definition with_callback (w : W) (c : call) : W * answer c :=
  match c as c return W * answer c with
  | Authorize t => (w, callback t)
  | c => k w c
  end.
Lemma run_callback {A} (p : prog A) : ∀ w h,
  (∀ t r, Ev (Authorize t) r ∈ h → r = callback t) →
  ∀ t r, Ev (Authorize t) r ∈ snd (run with_callback p w h) → r = callback t.
Proof.
  induction p as [a|c f IH]; intros w h Hh; [done|]. cbn [run].
  destruct (with_callback w c) as [w' r'] eqn:Ew. apply IH. intros t r [He|He]%elem_of_cons; [|by apply Hh].
  pose proof (f_equal ev_call He) as Hc. simpl in Hc. subst c. apply (f_equal answered) in He.
  injection He as ->. injection Ew as _ <-. done.
Qed.
End callback.

#[local] Existing Instances example_crypto example_file_modes.

Definition example_clock : option N := Some 101%N.
Definition example_credentials : Credentials := mkCredentials CreateDirectory.example_authority
  (Some (token_for (F := CreateDirectory.family) CreateDirectory.example_authority example_id example_session
     (pc_grant_target FsExample.example_create) 100 160)) example_session.
Definition example_consume : CreateDirectory.CreateDirectoryGrantTarget → ReplayWorld * GrantResult unit :=
  create_directory_consume example_credentials example_clock example_world.
Definition example_callback (t : MutationTarget) : Result AuthorizedError unit :=
  match t with
  | CreateDirectoryTarget t =>
    snd (authorize_and_commit example_consume example_world MUTATION_COMMIT_PENDING t)
  | _ => Err Cancelled
  end.

Definition example_worker := run_create_directory_mutation_worker FsSearch.roots 101 (bs "/data/sub/new").
Definition example_run := run (with_callback FsExample.kernel example_callback) example_worker FsSearch.world [].
Lemma example_run_completes : ∃ w v audits h, example_run = (w, (Completed (Ok v), audits), h).
Proof.
  assert (match example_run with (_, (Completed (Ok _), _), _) => true | _ => false end = true) as H
    by (vm_compute; reflexivity).
  destruct example_run as [[w [[[v|]|] audits]] h]; [|done..]. by exists w, v, audits, h.
Qed.
Lemma example_run_answers t r : Ev (Authorize t) r ∈ snd example_run → r = example_callback t.
Proof. apply run_callback. by intros ?? ?%not_elem_of_nil. Qed.

(** The grant for [/data/sub/new] creates it; the worker reports one allowance. *)
Lemma mutations_require_grants_witness :
  ∃ v audit h, exec example_worker [] (Completed (Ok v), [audit]) h ∧
    Audit.decision audit = Audit.Allowed ∧
    ∃ t, create_target FsSearch.roots (bs "/data/sub/new") t ∧ snd (example_consume t) = Ok ().
Proof.
  destruct example_run_completes as (w & v & audits & h & Er).
  pose proof (run_exec _ _ _ _ _ _ _ Er) as He. pose proof example_run_answers as Hc. rewrite Er in Hc.
  destruct (proj1 (mutations_require_grants FsSearch.roots example_credentials example_clock example_world
    MUTATION_COMMIT_PENDING 101) _ _ _ _ He (λ t, Hc (CreateDirectoryTarget t)))
    as ((audit & -> & _ & Ha) & Hg & _).
  exists v, audit, h. split; [exact He|]. split; [apply Ha; by exists v|].
  destruct Hg as (_ & t & Ht & _ & Hs); [right; exists v; reflexivity|]. exists t. split; [exact Ht|exact Hs].
Defined.
End WorkersSafety.
