(* ===== verification/McpWire.v ===== *)
(** * What the transport reads of a request

    [src/src/mcp_transport.rs], the readers of headers and request parts: single
    and bounded header values, media types, the routing name in canonical base64,
    event cursors, and the schemas of the initialization and of the stateless
    request metadata. *)

From S2P Require Import Prelude RustStd RustPath Http RequestGrantCapability JsonRpc.

Module McpWire.
Import JsonRpc.

(** ** Names *)

Definition MCP_PROTOCOL_VERSION : bytes := bs "2025-11-25".
Definition MCP_STATELESS_PROTOCOL_VERSION : bytes := bs "2026-07-28".
Definition MCP_PROTOCOL_VERSION_HEADER : bytes := bs "mcp-protocol-version".
Definition MCP_METHOD_HEADER : bytes := bs "mcp-method".
Definition MCP_NAME_HEADER : bytes := bs "mcp-name".
Definition MCP_SESSION_ID_HEADER : bytes := bs "mcp-session-id".
Definition MCP_LAST_EVENT_ID_HEADER : bytes := bs "last-event-id".
Definition MAX_MCP_LAST_EVENT_ID_BYTES : nat := 64.
Definition HOST : bytes := bs "host".
Definition ORIGIN : bytes := bs "origin".
Definition ALLOW : bytes := bs "allow".
Definition ACCEPT : bytes := bs "accept".
Definition APPLICATION_JSON : bytes := bs "application/json".
Definition TEXT_EVENT_STREAM : bytes := bs "text/event-stream".
Definition MAX_MCP_ROUTING_METHOD_BYTES : nat := 128.
Definition MAX_MCP_ROUTING_NAME_BYTES : nat := 128.
Definition MAX_MCP_ROUTING_HEADER_BYTES : nat := 512.

(** ** JSON access *)

(** [Value::as_object], [as_array], [as_str], [get(..).and_then(Value::as_object)]. *)
Definition as_object (v : Json) : option (list (bytes * Json)) :=
  match v with JObject members => Some members | _ => None end.
Definition as_array (v : Json) : option (list Json) :=
  match v with JArray items => Some items | _ => None end.
Definition as_str (v : Json) : option bytes := match v with JString s => Some s | _ => None end.
Definition is_boolean (v : Json) : bool := match v with JBool _ => true | _ => false end.
Definition is_number (v : Json) : bool := match v with JNumber _ => true | _ => false end.

(** [is_some_and], [is_none_or]. *)
Definition is_some_and {A} (p : A → bool) (o : option A) : bool :=
  match o with Some a => p a | None => false end.
Definition is_none_or {A} (p : A → bool) (o : option A) : bool :=
  match o with Some a => p a | None => true end.

(** Keys of which a present one fails [p]. *)
Definition some_fails (p : Json → bool) (members : list (bytes * Json)) (keys : list bytes) : bool :=
  existsb (λ key, is_some_and (λ value, negb (p value)) (json_get key members)) keys.

(** ** Headers *)

Section headers.
Context {L : HttpLib}.

Definition contains_key (headers : Headers) (name : bytes) : bool :=
  match header_get headers name with Some _ => true | None => false end.

Definition single_header_value (headers : Headers) (name : bytes) : Result unit (option bytes) :=
  match header_get_all headers name with
  | [] => Ok None
  | [first] => value ← ok_or (header_to_str first) (); Ok (Some value)
  | _ => Err ()
  end.

Definition declares_exact_stateless_protocol_header (headers : Headers) : bool :=
  existsb (λ value, bytes_eqb value MCP_STATELESS_PROTOCOL_VERSION)
    (header_get_all headers MCP_PROTOCOL_VERSION_HEADER).

Definition bounded_visible_header (headers : Headers) (name : bytes) (max_bytes : nat)
    : Result unit bytes :=
  match single_header_value headers name with
  | Ok (Some value) =>
    if negb (bytes_eqb value []) && (length value <=? max_bytes) && forallb (in_range 33 126) value
    then Ok value else Err ()
  | _ => Err ()
  end.

(** [value.split(';').next()] is the media type. *)
Definition media_type_is (value expected : bytes) : bool :=
  is_some_and (λ media_type, eq_ignore_ascii_case (trim media_type) expected)
    (head (split_on (byte_of 59) value)).

Definition has_json_content_type (headers : Headers) : bool :=
  match single_header_value headers CONTENT_TYPE with
  | Ok (Some value) => media_type_is value APPLICATION_JSON
  | _ => false
  end.
End headers.

(** ** Quality values

    [str::parse::<f32>]: what was parsed is kept exactly, and the two comparisons
    of the source say what they are of the nearest [f32]: the reals that round to
    at most one are those up to 1 + 2^-24, and those that round to zero are those
    up to 2^-150 (ties go to the even neighbour). *)

Inductive F32 :=
| NaN
| Infinite (negative : bool)
| Decimal (negative : bool) (mantissa : N) (exponent : Z).

Fixpoint take_digits (s : bytes) : bytes * bytes :=
  match s with
  | [] => ([], [])
  | b :: rest =>
    if is_ascii_digit b then let '(digits, rest) := take_digits rest in (b :: digits, rest) else ([], s)
  end.
Definition take_sign (s : bytes) : bool * bytes :=
  match s with
  | b :: rest =>
    if bool_decide (b = byte_of 45) then (true, rest)
    else if bool_decide (b = byte_of 43) then (false, rest) else (false, s)
  | [] => (false, [])
  end.
Definition parse_exponent (s : bytes) : option Z :=
  match s with
  | [] => Some 0%Z
  | e :: s =>
    if bool_decide (byte_to_lower e = byte_of 101) then
      let '(negative, s) := take_sign s in
      let '(digits, rest) := take_digits s in
      if bytes_eqb digits [] || negb (bytes_eqb rest []) then None
      else Some (if negative then - Z.of_N (decimal digits) else Z.of_N (decimal digits))%Z
    else None
  end.
Definition parse_f32 (s : bytes) : option F32 :=
  let '(negative, s) := take_sign s in
  if eq_ignore_ascii_case s (bs "nan") then Some NaN
  else if eq_ignore_ascii_case s (bs "inf") || eq_ignore_ascii_case s (bs "infinity")
  then Some (Infinite negative)
  else
    let '(whole, s) := take_digits s in
    let '(fraction, s) :=
      match s with
      | dot :: rest => if bool_decide (dot = byte_of 46) then take_digits rest else ([], s)
      | [] => ([], [])
      end in
    if bytes_eqb (whole ++ fraction) [] then None
    else
      exponent ← parse_exponent s;
      Some (Decimal negative (decimal (whole ++ fraction)) (exponent - Z.of_nat (length fraction))).

(** [mantissa * 10 ^ exponent <= numerator / 2 ^ shift]. *)
Definition decimal_le (mantissa : N) (exponent : Z) (numerator shift : N) : bool :=
  if (0 <=? exponent)%Z
  then (mantissa * 10 ^ Z.to_N exponent * 2 ^ shift <=? numerator)%N
  else (mantissa * 2 ^ shift <=? numerator * 10 ^ Z.to_N (- exponent))%N.
Definition rounds_to_zero (mantissa : N) (exponent : Z) : bool := decimal_le mantissa exponent 1 150.

(** [(0.0..=1.0).contains(&parsed)] and [parsed > 0.0]. *)
Definition in_unit_interval (parsed : F32) : bool :=
  match parsed with
  | Decimal false mantissa exponent => decimal_le mantissa exponent (2 ^ 24 + 1) 24
  | Decimal true mantissa exponent => rounds_to_zero mantissa exponent
  | _ => false
  end.
Definition is_positive (parsed : F32) : bool :=
  match parsed with
  | Decimal negative mantissa exponent => negb negative && negb (rounds_to_zero mantissa exponent)
  | Infinite negative => negb negative
  | NaN => false
  end.

(** The loop over the parameters of a media range. *)
Fixpoint media_parameters (segments : list bytes) (quality : F32) (saw_quality : bool) : bool :=
  match segments with
  | [] => is_positive quality
  | parameter :: segments =>
    match split_once (byte_of 61) (trim parameter) with
    | None => false
    | Some (name, value) =>
      if eq_ignore_ascii_case (trim name) (bs "q") then
        if saw_quality then false
        else match parse_f32 (trim value) with
             | None => false
             | Some parsed =>
               if in_unit_interval parsed then media_parameters segments parsed true else false
             end
      else media_parameters segments quality saw_quality
    end
  end.
Definition acceptable_media_range (item expected : bytes) : bool :=
  match split_on (byte_of 59) item with
  | media_type :: segments =>
    eq_ignore_ascii_case (trim media_type) expected
    && media_parameters segments (Decimal false 1 0) false
  | [] => false
  end.
Definition accepts_media_type `{HttpLib} (headers : Headers) (expected : bytes) : bool :=
  existsb (λ item, acceptable_media_range item expected)
    (concat (split_on (byte_of 44) <$> omap header_to_str (header_get_all headers ACCEPT))).

(** ** The routing name of a stateless request *)

(** Octet arithmetic: [<<] on [u8] drops the bits it shifts out. *)
Definition shl8 (v n : N) : N := (N.shiftl v n mod 256)%N.

Definition decode_base64_sextet (byte : byte) : option N :=
  if in_range 65 90 byte then Some (byte_val byte - 65)%N
  else if in_range 97 122 byte then Some (byte_val byte - 97 + 26)%N
  else if in_range 48 57 byte then Some (byte_val byte - 48 + 52)%N
  else if bool_decide (byte = byte_of 43) then Some 62%N
  else if bool_decide (byte = byte_of 47) then Some 63%N
  else None.

(** One group of four characters: the padding it ends with and its octets. *)
Definition decode_chunk (c0 c1 c2 c3 : byte) (last : bool) : option bytes :=
  let is_equals c := bool_decide (c = byte_of 61) in
  padding ← (if is_equals c2 && is_equals c3 then Some 2%N
             else if is_equals c3 then Some 1%N
             else if is_equals c2 then None else Some 0%N);
  if negb (padding =? 0)%N && negb last then None
  else
    first ← decode_base64_sextet c0;
    second ← decode_base64_sextet c1;
    third ← (if (padding =? 2)%N then Some 0%N else decode_base64_sextet c2);
    fourth ← (if (padding =? 0)%N then decode_base64_sextet c3 else Some 0%N);
    if ((padding =? 2)%N && negb (N.land second 15 =? 0)%N)
       || ((padding =? 1)%N && negb (N.land third 3 =? 0)%N)
    then None
    else Some (byte_of (N.lor (shl8 first 2) (N.shiftr second 4))
               :: (if (padding <? 2)%N then [byte_of (N.lor (shl8 second 4) (N.shiftr third 2))] else [])
               ++ (if (padding =? 0)%N then [byte_of (N.lor (shl8 third 6) fourth)] else [])).

(** The loop over [chunks_exact(4)]; [None] also where the length was refused. *)
Fixpoint decode_chunks (s decoded : bytes) : option bytes :=
  match s with
  | [] => Some decoded
  | c0 :: c1 :: c2 :: c3 :: rest =>
    group ← decode_chunk c0 c1 c2 c3 (bytes_eqb rest []);
    let decoded := decoded ++ group in
    if MAX_MCP_ROUTING_NAME_BYTES <? length decoded then None else decode_chunks rest decoded
  | _ => None
  end.
Definition decode_canonical_padded_base64 (encoded : bytes) : option bytes :=
  if bytes_eqb encoded [] || negb (length encoded mod 4 =? 0) then None else decode_chunks encoded [].

Definition is_plain_ascii_routing_value (value : bytes) : bool :=
  let blank b := bool_decide (b = byte_of 32) || bool_decide (b = byte_of 9) in
  if bytes_eqb value [] || is_some_and blank (head value) || is_some_and blank (last value) then false
  else forallb (λ byte, bool_decide (byte = byte_of 9) || in_range 32 126 byte) value.

(** [str::strip_suffix]. *)
Definition strip_str_suffix (suffix s : bytes) : option bytes :=
  @rev byte <$> strip_str_prefix (rev suffix) (rev s).

Definition stateless_name_header `{HttpLib} (headers : Headers) : Result unit bytes :=
  match single_header_value headers MCP_NAME_HEADER with
  | Ok (Some raw) =>
    if negb (bytes_eqb raw []) && (length raw <=? MAX_MCP_ROUTING_HEADER_BYTES) then
      match value ← strip_str_prefix (bs "=?base64?") raw; strip_str_suffix (bs "?=") value with
      | Some encoded =>
        decoded ← ok_or (decode_canonical_padded_base64 encoded) ();
        if bytes_eqb decoded [] || (MAX_MCP_ROUTING_NAME_BYTES <? length decoded) then Err ()
        else ok_or (from_utf8 decoded) ()
      | None =>
        if (MAX_MCP_ROUTING_NAME_BYTES <? length raw) || negb (is_plain_ascii_routing_value raw)
        then Err () else Ok raw
      end
    else Err ()
  | _ => Err ()
  end.

(** ** Event cursors *)

(** [str::rsplit_once]. *)
Definition rsplit_once (c : byte) (s : bytes) : option (bytes * bytes) :=
  '(suffix, prefix) ← split_once c (rev s);
  Some (rev prefix, rev suffix).

Definition valid_last_event_id `{Crypto} (value : bytes) : bool :=
  if bytes_eqb value [] || (MAX_MCP_LAST_EVENT_ID_BYTES <? length value)
     || negb (forallb (in_range 33 126) value) then false
  else match rsplit_once (byte_of 58) value with
  | None => false
  | Some (stream_id, sequence) =>
    if bytes_eqb sequence []
       || ((1 <? length sequence) && bool_decide (head sequence = Some (byte_of 48)))
       || bool_decide (parse_unsigned u64_max sequence = None)
    then false
    else is_some_and (λ parsed, bytes_eqb (uuid_to_string parsed) stream_id) (uuid_parse_str stream_id)
  end.

(** ** Request metadata *)

Definition valid_stateless_protocol_version (value : bytes) : bool :=
  negb (bytes_eqb value []) && (length value <=? 32) && forallb (in_range 33 126) value.
Definition valid_progress_token (value : Json) : bool := is_string value || is_number value.
Definition valid_logging_level (value : Json) : bool :=
  match as_str value with
  | Some level => existsb (bytes_eqb level)
      [bs "debug"; bs "info"; bs "notice"; bs "warning"; bs "error"; bs "critical"; bs "alert"; bs "emergency"]
  | None => false
  end.

Definition valid_task_capabilities (tasks : list (bytes * Json)) : bool :=
  if some_fails is_object tasks [bs "cancel"; bs "list"] then false
  else match json_get (bs "requests") tasks with
  | None => true
  | Some requests =>
    match as_object requests with
    | None => false
    | Some requests =>
      forallb (λ '(group, request),
        match json_get group requests with
        | None => true
        | Some group =>
          match as_object group with
          | None => false
          | Some group => negb (is_some_and (λ value, negb (is_object value)) (json_get request group))
          end
        end) [(bs "elicitation", bs "create"); (bs "sampling", bs "createMessage")]
    end
  end.

Definition valid_client_capabilities (capabilities : list (bytes * Json)) : bool :=
  let nested key := json_get key capabilities ≫= as_object in
  if some_fails is_object capabilities [bs "roots"; bs "sampling"; bs "elicitation"; bs "tasks"] then false
  else if match json_get (bs "experimental") capabilities with
          | Some experimental =>
            match as_object experimental with
            | None => true
            | Some experimental => existsb (λ member, negb (is_object member.2)) experimental
            end
          | None => false
          end then false
  else if is_some_and (λ roots, some_fails is_boolean roots [bs "listChanged"]) (nested (bs "roots")) then false
  else if is_some_and (λ sampling, some_fails is_object sampling [bs "context"; bs "tools"])
            (nested (bs "sampling")) then false
  else if is_some_and (λ elicitation, some_fails is_object elicitation [bs "form"; bs "url"])
            (nested (bs "elicitation")) then false
  else is_none_or valid_task_capabilities (nested (bs "tasks")).

Definition valid_icon (icon : Json) : bool :=
  match as_object icon with
  | None => false
  | Some icon =>
    is_some_and is_string (json_get (bs "src") icon)
    && is_none_or is_string (json_get (bs "mimeType") icon)
    && is_none_or (λ sizes, is_some_and (forallb is_string) (as_array sizes)) (json_get (bs "sizes") icon)
    && is_none_or (λ theme, match as_str theme with
                            | Some theme => bytes_eqb theme (bs "light") || bytes_eqb theme (bs "dark")
                            | None => false
                            end) (json_get (bs "theme") icon)
  end.
Definition valid_client_implementation (info : list (bytes * Json)) : bool :=
  if negb (is_some_and is_string (json_get (bs "name") info))
     || negb (is_some_and is_string (json_get (bs "version") info)) then false
  else if some_fails is_string info [bs "title"; bs "description"; bs "websiteUrl"] then false
  else match json_get (bs "icons") info with
  | None => true
  | Some icons => is_some_and (forallb valid_icon) (as_array icons)
  end.

Definition valid_meta (meta : Json) : bool :=
  is_some_and (λ meta, is_none_or (λ token, is_string token || is_integer_number token)
                         (json_get (bs "progressToken") meta)) (as_object meta).

Definition valid_initialize_params (params : option Json) : bool :=
  match params ≫= as_object with
  | None => false
  | Some params =>
    is_some_and is_string (json_get (bs "protocolVersion") params)
    && is_some_and valid_client_capabilities (json_get (bs "capabilities") params ≫= as_object)
    && is_some_and valid_client_implementation (json_get (bs "clientInfo") params ≫= as_object)
    && is_none_or valid_meta (json_get (bs "_meta") params)
  end.

(** ** Checks *)

Example quality_examples :
  Forall (λ s, acceptable_media_range (bs s) APPLICATION_JSON = true)
    ["application/json"; " Application/JSON ; q=0.5"; "application/json;q=1"; "application/json;v=1;Q=1e-3";
     "application/json;q=1.00000005"; "application/json;q=.5"; "application/json;q=+1."]%string ∧
  Forall (λ s, acceptable_media_range (bs s) APPLICATION_JSON = false)
    ["text/json"; "application/json;q=0"; "application/json;q=-0"; "application/json;q=1.0000002";
     "application/json;q=1;q=1"; "application/json;v"; "application/json;q=nan"; "application/json;q=inf";
     "application/json;q=1e-46"; "application/json;q="; "application/json;q=.";
     "application/json;q=1e"; "*/*"]%string.
Proof. split; repeat constructor. Qed.

Example routing_name_examples :
  decode_canonical_padded_base64 (bs "cmVhZF9maWxl") = Some (bs "read_file") ∧
  decode_canonical_padded_base64 (bs "YQ==") = Some (bs "a") ∧
  decode_canonical_padded_base64 (bs "YR==") = None ∧
  decode_canonical_padded_base64 (bs "YQ==YQ==") = None.
Proof. split_and!; by vm_compute. Qed.
End McpWire.
