(* ===== verification/RoutingName.v ===== *)
(** * The routing name of a stateless request has one meaning

    The decoder of [McpWire] against the canonical RFC 4648 reference of
    [Base64]. *)

From S2P Require Import Prelude RustStd RustPath Http Base64 McpWire.

Module RoutingName.
Import McpWire.

(** ** Canonical base64 has one spelling *)

Lemma div_mod_join q k r : (r < k)%N → ((q * k + r) / k = q ∧ (q * k + r) mod k = r)%N.
Proof.
  intros Hr. split; [symmetry; apply (N.div_unique _ _ _ r); lia|symmetry; apply (N.mod_unique _ _ q); lia].
Qed.
Lemma split_word n k : (k ≠ 0)%N → n = (n / k * k + n mod k)%N.
Proof. intros Hk. pose proof (N.div_mod n k Hk). lia. Qed.

Lemma letter_value c v : Base64.value c = Some v → Base64.letter v = c ∧ (v < 64)%N.
Proof.
  intros H.
  assert (forallb (λ c, match Base64.value c with
    | Some v => bool_decide (Base64.letter v = c) && (v <? 64)%N | None => true end) Base64.all_bytes = true)
    as Hall by (vm_compute; reflexivity).
  apply Base64.all_bytes_forallb with (b := c) in Hall. rewrite H in Hall.
  by rewrite andb_true_iff, bool_decide_eq_true, N.ltb_lt in Hall.
Qed.

Lemma val_join hi lo : (hi mod 256 + lo < 256)%N → byte_val (Base64.join_byte hi lo) = (hi mod 256 + lo)%N.
Proof.
  intros H. unfold Base64.join_byte. rewrite <-N.Div0.add_mod_idemp_l, (N.mod_small (_ + lo)) by done.
  by apply byte_val_of.
Qed.

(** What the encoder makes of decoded bytes. *)
Lemma sextets_join v1 v2 v3 v4 :
  (v1 < 64)%N → (v2 < 64)%N → (v3 < 64)%N → (v4 < 64)%N →
  ∀ b1 b2 b3, b1 = Base64.join_byte (v1 * 4) (v2 / 16) → b2 = Base64.join_byte (v2 * 16) (v3 / 4) →
  b3 = Base64.join_byte (v3 * 64) v4 →
  Base64.sextet1 b1 = v1 ∧ Base64.sextet2 b1 b2 = v2 ∧ Base64.sextet3 b2 b3 = v3 ∧ Base64.sextet4 b3 = v4.
Proof.
  intros H1 H2 H3 H4 b1 b2 b3 B1 B2 B3.
  assert (byte_val b1 = v1 * 4 + v2 / 16)%N as E1.
  { pose proof (N.Div0.div_lt_upper_bound v2 16 4 ltac:(lia)).
    rewrite B1, val_join; rewrite N.mod_small by lia; lia. }
  assert (byte_val b2 = v2 mod 16 * 16 + v3 / 4)%N as E2.
  { pose proof (N.Div0.div_lt_upper_bound v3 4 16 ltac:(lia)). pose proof (N.mod_lt v2 16 ltac:(done)).
    assert ((v2 * 16) mod 256 = v2 mod 16 * 16)%N as Em.
    { rewrite (split_word v2 16) at 1 by done.
      replace ((v2 / 16 * 16 + v2 mod 16) * 16)%N with (v2 mod 16 * 16 + v2 / 16 * 256)%N by lia.
      rewrite N.Div0.mod_add, N.mod_small; lia. }
    rewrite B2, val_join; rewrite Em; lia. }
  assert (byte_val b3 = v3 mod 4 * 64 + v4)%N as E3.
  { pose proof (N.mod_lt v3 4 ltac:(done)).
    assert ((v3 * 64) mod 256 = v3 mod 4 * 64)%N as Em.
    { rewrite (split_word v3 4) at 1 by done.
      replace ((v3 / 4 * 4 + v3 mod 4) * 64)%N with (v3 mod 4 * 64 + v3 / 4 * 256)%N by lia.
      rewrite N.Div0.mod_add, N.mod_small; lia. }
    rewrite B3, val_join; rewrite Em; lia. }
  destruct (Base64.sextets_decode b1 b2) as (_ & _ & _ & _ & D1 & D2 & _ & _ & D3 & _).
  destruct (Base64.sextets_decode b2 b3) as (_ & _ & _ & _ & _ & _ & D4 & D5 & _ & _).
  destruct (Base64.sextets_decode b3 b3) as (_ & _ & _ & _ & _ & _ & _ & _ & _ & D6).
  rewrite E1 in D1, D3. rewrite E2 in D2, D4. rewrite E3 in D5, D6.
  assert (v2 / 16 < 4)%N as L2 by (apply N.Div0.div_lt_upper_bound; lia).
  assert (v3 / 4 < 16)%N as L3 by (apply N.Div0.div_lt_upper_bound; lia).
  rewrite (proj1 (div_mod_join v1 4 _ L2)) in D3. rewrite (proj2 (div_mod_join v1 4 _ L2)) in D1.
  rewrite (proj1 (div_mod_join (v2 mod 16) 16 _ L3)) in D2.
  rewrite (proj2 (div_mod_join (v2 mod 16) 16 _ L3)) in D4.
  rewrite (proj1 (div_mod_join (v3 mod 4) 64 _ H4)) in D5.
  rewrite (proj2 (div_mod_join (v3 mod 4) 64 _ H4)) in D6.
  split_and!; [done| | |done].
  - by rewrite (split_word (Base64.sextet2 b1 b2) 16), D1, D2, <-split_word.
  - by rewrite (split_word (Base64.sextet3 b2 b3) 4), D4, D5, <-split_word.
Qed.

(** A group of four characters is what the encoder writes for its octets. *)
Lemma decode_group_canonical c1 c2 c3 c4 g :
  Base64.decode_group c1 c2 c3 c4 = Some g →
  Base64.encode_base64 g = [c1; c2; c3; c4] ∧ g ≠ [] ∧ length g ≤ 3.
Proof.
  unfold Base64.decode_group. intros H.
  destruct (Base64.value c1) as [v1|] eqn:E1; [|done]. destruct (Base64.value c2) as [v2|] eqn:E2; [|done].
  apply letter_value in E1 as [<- L1], E2 as [<- L2]. simpl in H.
  case_bool_decide as Hc3; [subst c3|].
  - case_bool_decide as Hc4; simpl in H; [subst c4|done]. destruct (N.eqb_spec (v2 mod 16) 0) as [Hz|]; [|done].
    injection H as <-. split; [|split; [done|simpl; lia]]. cbn [Base64.encode_base64].
    destruct (sextets_join v1 v2 0 0 L1 L2 ltac:(lia) ltac:(lia) _ _ _ eq_refl eq_refl eq_refl) as (-> & S2 & _).
    rewrite (proj1 (Base64.sextet_zero _)).
    replace (Base64.join_byte (v2 * 16) (0 / 4)) with x00 in S2; [by rewrite S2|].
    symmetry. apply Base64.join_byte_eq. change (byte_val x00) with 0%N.
    rewrite (split_word v2 16), Hz by done. rewrite !N.add_0_r, <-N.mul_assoc. apply N.Div0.mod_mul.
  - destruct (Base64.value c3) as [v3|] eqn:E3; [|done]. apply letter_value in E3 as [<- L3]. simpl in H.
    case_bool_decide as Hc4.
    + subst c4. destruct (N.eqb_spec (v3 mod 4) 0) as [Hz|]; [|done]. injection H as <-. split; [|split; [done|simpl; lia]].
      cbn [Base64.encode_base64]. destruct (sextets_join v1 v2 v3 0 L1 L2 L3 ltac:(lia) _ _ _ eq_refl eq_refl eq_refl) as (-> & -> & S3 & _).
      rewrite (proj2 (Base64.sextet_zero _)).
      replace (Base64.join_byte (v3 * 64) 0) with x00 in S3; [by rewrite S3|].
      symmetry. apply Base64.join_byte_eq. change (byte_val x00) with 0%N.
      rewrite (split_word v3 4), Hz by done. rewrite !N.add_0_r, <-N.mul_assoc. apply N.Div0.mod_mul.
    + destruct (Base64.value c4) as [v4|] eqn:E4; [|done]. apply letter_value in E4 as [<- L4]. simpl in H.
      injection H as <-. split; [|split; [done|simpl; lia]]. cbn [Base64.encode_base64].
      by destruct (sextets_join v1 v2 v3 v4 L1 L2 L3 L4 _ _ _ eq_refl eq_refl eq_refl) as (-> & -> & -> & ->).
Qed.

Lemma encode_full_app g rest :
  length g = 3 → Base64.encode_base64 (g ++ rest) = Base64.encode_base64 g ++ Base64.encode_base64 rest.
Proof. intros Hg. by destruct g as [|a [|b [|c [|]]]]. Qed.

(** The groups of four of a text, for induction. *)
Lemma chunks_ind (P : bytes → Prop) :
  P [] → (∀ c1 c2 c3 c4 rest, P rest → P (c1 :: c2 :: c3 :: c4 :: rest)) →
  (∀ s, 0 < length s < 4 → P s) → ∀ s, P s.
Proof.
  intros H0 H4 Hs s. induction s as [s IH] using (induction_ltof1 _ (@length byte)). unfold ltof in IH.
  destruct s as [|c1 [|c2 [|c3 [|c4 rest]]]]; [done|apply Hs; simpl; lia..|]. apply H4, IH. simpl. lia.
Qed.

Lemma decode_base64_canonical s b : Base64.decode_base64 s = Some b → s = Base64.encode_base64 b.
Proof.
  revert b; induction s as [|c1 c2 c3 c4 rest IH|s Hs] using chunks_ind; intros b.
  - by intros [= <-].
  - cbn [Base64.decode_base64]. destruct (Base64.decode_group c1 c2 c3 c4) as [g|] eqn:Eg; [|done].
    apply decode_group_canonical in Eg as (Eg & _ & _). simpl. case_bool_decide as Hr.
    { intros [= <-]. by rewrite Hr, Eg. }
    destruct (Nat.eqb_spec (length g) 3) as [Hg|]; [|done].
    destruct (Base64.decode_base64 rest) as [d|] eqn:Ed; [|done]. intros [= <-].
    rewrite encode_full_app by done. by rewrite Eg, <-(IH d).
  - destruct s as [|? [|? [|? [|]]]]; simpl in Hs; try lia; done.
Qed.

(** ** The decoder of the transport *)

Lemma sextet_value c : decode_base64_sextet c = Base64.value c.
Proof.
  assert (forallb (λ c, bool_decide (decode_base64_sextet c = Base64.value c)) Base64.all_bytes = true) as H
    by (vm_compute; reflexivity).
  apply Base64.all_bytes_forallb with (b := c) in H. by apply bool_decide_eq_true in H.
Qed.

Lemma octets a b : (a < 64)%N → (b < 64)%N →
  byte_of (N.lor (shl8 a 2) (N.shiftr b 4)) = Base64.join_byte (a * 4) (b / 16) ∧
  byte_of (N.lor (shl8 a 4) (N.shiftr b 2)) = Base64.join_byte (a * 16) (b / 4) ∧
  byte_of (N.lor (shl8 a 6) b) = Base64.join_byte (a * 64) b ∧
  N.land a 15 = (a mod 16)%N ∧ N.land a 3 = (a mod 4)%N.
Proof.
  pose (f a b := bool_decide (
    byte_of (N.lor (shl8 a 2) (N.shiftr b 4)) = Base64.join_byte (a * 4) (b / 16) ∧
    byte_of (N.lor (shl8 a 4) (N.shiftr b 2)) = Base64.join_byte (a * 16) (b / 4) ∧
    byte_of (N.lor (shl8 a 6) b) = Base64.join_byte (a * 64) b ∧
    N.land a 15 = (a mod 16)%N ∧ N.land a 3 = (a mod 4)%N)).
  assert (forallb (λ a, forallb (f a) (N.of_nat <$> seq 0 64)) (N.of_nat <$> seq 0 64) = true) as H
    by (vm_compute; reflexivity).
  assert (∀ n, (n < 64)%N → In n (N.of_nat <$> seq 0 64)) as Hin.
  { intros n Hn. rewrite <-list_elem_of_In, <-(N2Nat.id n). apply list_elem_of_fmap_2, elem_of_seq. lia. }
  intros Ha Hb. eapply forallb_forall in H; [|exact (Hin a Ha)].
  eapply forallb_forall in H; [|exact (Hin b Hb)]. unfold f in H. by apply bool_decide_eq_true in H.
Qed.

Lemma decode_chunk_group c1 c2 c3 c4 last :
  decode_chunk c1 c2 c3 c4 last =
    match Base64.decode_group c1 c2 c3 c4 with
    | Some g => if (length g =? 3) || last then Some g else None
    | None => None
    end.
Proof.
  unfold decode_chunk, Base64.decode_group. change (byte_of 61) with Base64.EQUALS. rewrite !sextet_value.
  assert (Base64.value Base64.EQUALS = None) as He by done.
  destruct (Base64.value c1) as [v1|] eqn:E1; [|by repeat (case_bool_decide || destruct last)].
  destruct (Base64.value c2) as [v2|] eqn:E2; [|by repeat (case_bool_decide || destruct last)].
  apply letter_value in E1 as [_ L1], E2 as [_ L2]. destruct (octets v1 v2 L1 L2) as (O1 & _).
  simpl. case_bool_decide as Hc3; [subst c3|].
  - case_bool_decide as Hc4; [|done]. destruct (octets v2 0 L2 ltac:(lia)) as (_ & _ & _ & Hl & _).
    destruct last; simpl; [|by destruct (_ =? _)%N]. rewrite Hl, O1. by destruct (v2 mod 16 =? 0)%N.
  - simpl. destruct (Base64.value c3) as [v3|] eqn:E3; [|by case_bool_decide; destruct last].
    apply letter_value in E3 as [_ L3]. destruct (octets v2 v3 L2 L3) as (_ & O2 & _).
    destruct (octets v3 0 L3 ltac:(lia)) as (_ & _ & _ & _ & Hl). simpl. case_bool_decide as Hc4.
    + destruct last; simpl; [|by destruct (_ =? _)%N]. rewrite Hl, O1, O2. by destruct (v3 mod 4 =? 0)%N.
    + destruct (Base64.value c4) as [v4|] eqn:E4; [|done]. apply letter_value in E4 as [_ L4].
      destruct (octets v3 v4 L3 L4) as (_ & _ & O3 & _). simpl. by rewrite O1, O2, O3.
Qed.

Lemma decode_chunks_spec s : ∀ acc, length acc ≤ MAX_MCP_ROUTING_NAME_BYTES → ∀ r,
  decode_chunks s acc = Some r ↔
  ∃ b, Base64.decode_base64 s = Some b ∧ r = acc ++ b ∧ length r ≤ MAX_MCP_ROUTING_NAME_BYTES.
Proof.
  induction s as [|c1 c2 c3 c4 rest IH|s Hs] using chunks_ind; intros acc Hacc r.
  - cbn [decode_chunks Base64.decode_base64]. split; [intros [= <-]; exists []; by rewrite app_nil_r|].
    intros (b & [= <-] & -> & _). by rewrite app_nil_r.
  - cbn [decode_chunks Base64.decode_base64]. rewrite decode_chunk_group.
    destruct (Base64.decode_group c1 c2 c3 c4) as [g|] eqn:Eg; simpl; [|naive_solver].
    apply decode_group_canonical in Eg as (_ & _ & Hg). unfold bytes_eqb.
    destruct (decide (rest = [])) as [->|Hr].
    + rewrite orb_true_r. rewrite !bool_decide_eq_true_2 by done. simpl.
      destruct (Nat.ltb_spec MAX_MCP_ROUTING_NAME_BYTES (length (acc ++ g))) as [Hlt|Hle].
      * split; [done|]. intros (b & [= <-] & -> & ?). lia.
      * split; [intros [= <-]; by exists g|]. by intros (b & [= <-] & -> & ?).
    + rewrite !bool_decide_eq_false_2 by done. rewrite orb_false_r.
      destruct (Nat.eqb_spec (length g) 3) as [Hg3|]; simpl; [|naive_solver].
      destruct (Nat.ltb_spec MAX_MCP_ROUTING_NAME_BYTES (length (acc ++ g))) as [Hlt|Hle].
      * split; [done|]. destruct (Base64.decode_base64 rest) as [d|]; [|naive_solver].
        intros (b & [= <-] & -> & Hb). rewrite !length_app in *. lia.
      * rewrite IH by done. destruct (Base64.decode_base64 rest) as [d|]; [|naive_solver]. simpl. split.
        -- intros (b & [= <-] & -> & ?). exists (g ++ d). by rewrite app_assoc.
        -- intros (b & [= <-] & -> & ?). exists d. by rewrite <-app_assoc.
  - destruct s as [|? [|? [|? [|]]]]; simpl in Hs; try lia; cbn; naive_solver.
Qed.

(** The decoder of the transport accepts the canonical spelling of at most 128
    octets, and nothing else. *)
Lemma decode_canonical s b :
  decode_canonical_padded_base64 s = Some b ↔
  s = Base64.encode_base64 b ∧ b ≠ [] ∧ length b ≤ MAX_MCP_ROUTING_NAME_BYTES.
Proof.
  unfold decode_canonical_padded_base64. split.
  - destruct (bytes_eqb s []) eqn:Es; [done|]. simpl. destruct (negb _); [done|].
    rewrite decode_chunks_spec by (simpl; lia). intros (b' & Hd & -> & Hl). simpl in *.
    apply decode_base64_canonical in Hd as ->. split_and!; [done| |done]. intros ->. discriminate Es.
  - intros (-> & Hb & Hl). rewrite (proj2 (bytes_eqb_false _ _)); [|by destruct b as [|? [|? [|? ?]]]].
    assert (length (Base64.encode_base64 b) mod 4 = 0) as ->.
    { pose proof (Base64.length_encode_base64 b) as Hn.
      replace (length (Base64.encode_base64 b)) with (N.to_nat ((N.of_nat (length b) + 2) / 3) * 4) by lia.
      apply Nat.Div0.mod_mul. }
    simpl. rewrite decode_chunks_spec by (simpl; lia). exists b.
    split_and!; [apply Base64.decode_encode_base64|done|done].
Qed.

Lemma strip_str_suffix_Some suffix s t : strip_str_suffix suffix s = Some t ↔ s = t ++ suffix.
Proof.
  unfold strip_str_suffix. split.
  - destruct (strip_str_prefix _ _) as [x|] eqn:E; [|done]. intros [= <-]. apply strip_str_prefix_Some in E.
    by rewrite <-(rev_involutive s), E, rev_app_distr, rev_involutive.
  - intros ->. rewrite rev_app_distr. rewrite (proj2 (strip_str_prefix_Some _ _ (rev t))) by done. simpl.
    by rewrite rev_involutive.
Qed.

Definition encoded_name (e : bytes) : bytes := bs "=?base64?" ++ e ++ bs "?=".

Lemma strip_encoded raw e :
  (value ← strip_str_prefix (bs "=?base64?") raw; strip_str_suffix (bs "?=") value) = Some e ↔
  raw = encoded_name e.
Proof.
  unfold encoded_name. destruct (strip_str_prefix _ raw) as [v|] eqn:E.
  - apply strip_str_prefix_Some in E as ->. cbn [mbind option_bind]. rewrite strip_str_suffix_Some.
    split; [by intros ->|]. by intros ?%(inj (app _)).
  - split; [done|]. intros ->. by rewrite (proj2 (strip_str_prefix_Some _ _ _) eq_refl) in E.
Qed.

(** C35: The routing name of a stateless request has one meaning.  A name is read
    exactly when there is one [MCP-Name] value and it is either the canonical
    padded base64 of the name between [=?base64?] and [?=], for a UTF-8 name, or,
    when it does not have that form, the name itself in plain ASCII; a name is
    never empty and never longer than 128 octets, and the bound on the header
    admits the encoding of every such name. *)
Theorem routing_name_exact `{HttpLib} headers name :
  stateless_name_header headers = Ok name ↔
  ∃ raw, single_header_value headers MCP_NAME_HEADER = Ok (Some raw) ∧
    name ≠ [] ∧ length name ≤ MAX_MCP_ROUTING_NAME_BYTES ∧
    ((raw = encoded_name (Base64.encode_base64 name) ∧ utf8_valid name = true) ∨
     ((∀ e, raw ≠ encoded_name e) ∧ name = raw ∧ is_plain_ascii_routing_value raw = true)).
Proof.
  unfold stateless_name_header. destruct (single_header_value headers MCP_NAME_HEADER) as [[raw|]|];
    [|naive_solver..].
  set (o := value ← strip_str_prefix (bs "=?base64?") raw; strip_str_suffix (bs "?=") value).
  pose proof (strip_encoded raw) as Hs. fold o in Hs.
  destruct o as [e|] eqn:Eo.
  - assert (raw = encoded_name e) as -> by (by apply Hs).
    rewrite (proj2 (bytes_eqb_false (encoded_name e) [])) by done. simpl negb. cbn [andb]. split.
    + destruct (length _ <=? _); [|done]. destruct (decode_canonical_padded_base64 e) as [d|] eqn:Ed; [|done].
      apply decode_canonical in Ed as (-> & Hd & Hl). simpl. rewrite (proj2 (bytes_eqb_false _ _)) by done.
      rewrite (proj2 (Nat.ltb_ge _ _)) by done. simpl. unfold from_utf8.
      destruct (utf8_valid d) eqn:Eu; [|done]. intros [= <-]. eexists. split_and!; try done. by left.
    + intros (raw & [= <-] & Hn & Hl & [[He Hu]|(Hne & _)]); [|by destruct (Hne e)].
      apply Hs in He. injection He as ->. rewrite (proj2 (Nat.leb_le _ _)).
      * rewrite (proj2 (decode_canonical _ name)) by done. simpl. rewrite (proj2 (bytes_eqb_false _ _)) by done.
        rewrite (proj2 (Nat.ltb_ge _ _)) by done. simpl. unfold from_utf8. by rewrite Hu.
      * unfold encoded_name. rewrite !length_app. pose proof (Base64.length_encode_base64 name) as Hb.
        change (length (bs "=?base64?")) with 9. change (length (bs "?=")) with 2.
        unfold MAX_MCP_ROUTING_NAME_BYTES, MAX_MCP_ROUTING_HEADER_BYTES in *.
        assert ((N.of_nat (length name) + 2) / 3 < 44)%N by (apply N.Div0.div_lt_upper_bound; lia). lia.
  - assert (∀ e, raw ≠ encoded_name e) as Hne by (intros e He; by apply Hs in He). split.
    + destruct (bytes_eqb raw []) eqn:Er; [done|]. apply bytes_eqb_false in Er. cbn [negb andb].
      destruct (length raw <=? MAX_MCP_ROUTING_HEADER_BYTES); [|done].
      destruct (Nat.ltb_spec MAX_MCP_ROUTING_NAME_BYTES (length raw)) as [|Hl]; [done|].
      destruct (is_plain_ascii_routing_value raw) eqn:Ep; [|done]. intros [= <-]. exists raw. naive_solver.
    + intros (raw' & [= <-] & Hn & Hl & [[-> _]|(_ & -> & Hp)]); [by destruct (Hne _ eq_refl)|].
      rewrite (proj2 (bytes_eqb_false _ _)) by done. rewrite (proj2 (Nat.leb_le _ _)).
      * rewrite (proj2 (Nat.ltb_ge _ _)) by done. by rewrite Hp.
      * unfold MAX_MCP_ROUTING_NAME_BYTES, MAX_MCP_ROUTING_HEADER_BYTES in *. lia.
Qed.
End RoutingName.
