(* ===== verification/McpResponses.v ===== *)
(** * The responses of the transport

    [src/src/mcp_transport.rs], the builders of responses: JSON-RPC results and
    errors, transport errors, and the bounds on what is serialized.  The members
    of a JSON object are listed in the order of the source. *)

From S2P Require Import Prelude RustStd RustPath Http McpSession FsReads FsTraverse FsPrepare McpWire.

(** Third-party code: [serde_json::to_vec] on a [Value], which does not fail. *)
Class JsonText := json_to_vec : Json → bytes.

Module McpResponses.
Import McpWire McpSession FsReads FsTraverse FsPrepare.

Definition jstr (s : string) : Json := JString (bs s).
Definition jnum (n : N) : Json := JNumber (PosInt n).
Definition jneg (z : Z) : Json := JNumber (NegInt z).

Definition MAX_MCP_JSON_RPC_ID_BYTES : N := 1048576.
Definition MAX_STATELESS_RESPONSE_METADATA_BYTES : N := 2048.

(** [maximum_response_contract]. *)
Definition maximum_response_contract (contracts : list N) : N :=
  foldl (λ maximum contract, if (maximum <? contract)%N then contract else maximum) 0%N contracts.
Definition MAX_READ_RESPONSE_BYTES : N := 1114112.
Definition MAX_HASH_FILE_RESPONSE_BYTES : N := 16384.
(** The budgets of the filesystem tools, in the order of the source. *)
Definition MAX_MCP_COLLECTED_JSON_RESPONSE_BYTES : N := maximum_response_contract
  [MAX_LIST_RESPONSE_BYTES; MAX_READ_RESPONSE_BYTES; MAX_BINARY_READ_RESPONSE_BYTES;
   MAX_BINARY_RANGE_RESPONSE_BYTES; MAX_TEXT_RANGE_RESPONSE_BYTES; MAX_HASH_FILE_RESPONSE_BYTES;
   MAX_PATH_METADATA_RESPONSE_BYTES; MAX_CREATE_DIRECTORY_RESPONSE_BYTES; MAX_COPY_FILE_RESPONSE_BYTES;
   MAX_TRASH_FILE_RESPONSE_BYTES; MAX_WRITE_FILE_RESPONSE_BYTES; MAX_FIND_RESPONSE_BYTES;
   MAX_SEARCH_RESPONSE_BYTES].

(** [Option<Value>::unwrap_or(Value::Null)]. *)
Definition id_or_null (id : option Json) : Json := default JNull id.

Definition error_body (id : option Json) (code : Z) (message : bytes) (data : Json) : Json :=
  JObject [(bs "jsonrpc", jstr "2.0"); (bs "id", id_or_null id);
    (bs "error", JObject [(bs "code", jneg code); (bs "message", JString message); (bs "data", data)])].

Definition result_body (id : option Json) (text : bytes) (structured_content : Json) : Json :=
  JObject [(bs "jsonrpc", jstr "2.0"); (bs "id", id_or_null id);
    (bs "result", JObject
      [(bs "content", JArray [JObject [(bs "type", jstr "text"); (bs "text", JString text)]]);
       (bs "structuredContent", structured_content); (bs "isError", JBool false)])].

(** [StatusCode::into_response]. *)
Definition status_response (status : N) : Response := mkResponse status [] (OpaqueBody []).

Definition sse_events_body (events : list SseReplayEvent) : Body :=
  OpaqueBody (foldl (λ output event, append_wire_bytes event output) [] events).

Section responses.
Context {L : HttpLib} {J : JsonText}.

Definition json_len (value : Json) : N := N.of_nat (length (json_to_vec value)).

Definition json_response_fits (body : Json) (max_response_bytes : N) : bool :=
  (json_len body <=? max_response_bytes)%N.
Definition json_rpc_id_fits (id : Json) : bool := (json_len id <=? MAX_MCP_JSON_RPC_ID_BYTES)%N.

Definition transport_error (status : N) (error message : bytes) : Response :=
  json_response status (JObject [(bs "error", JString error); (bs "message", JString message)]).

Definition result_response (body : Json) : Response := json_response 200 body.

Definition payload_too_large (id : option Json) (message : bytes) : Response :=
  json_response 413 (error_body id (-32001) (bs "Payload too large") (JString message)).
Definition bounded_payload_too_large (id : option Json) (message : bytes) (max_response_bytes : N)
    : Response :=
  let body := error_body id (-32001) (bs "Payload too large") (JString message) in
  if json_response_fits body max_response_bytes then json_response 413 body
  else payload_too_large None message.

Definition bounded_json_rpc_ok (id : option Json) (body : Json) (message : bytes) : Response :=
  if json_response_fits body MAX_MCP_COLLECTED_JSON_RESPONSE_BYTES then result_response body
  else bounded_payload_too_large id message MAX_MCP_COLLECTED_JSON_RESPONSE_BYTES.

Definition bounded_ok_result (id : option Json) (text : bytes) (structured_content : Json)
    (max_response_bytes : N) : option Response :=
  let body := result_body id text structured_content in
  if (max_response_bytes <? json_len body)%N then None else Some (result_response body).

Definition ok_result (id : option Json) (text : bytes) (structured_content : Json) : Response :=
  default (bounded_payload_too_large id
             (bs "Tool result exceeds the bounded transport response byte limit.")
             MAX_MCP_COLLECTED_JSON_RESPONSE_BYTES)
    (bounded_ok_result id text structured_content MAX_MCP_COLLECTED_JSON_RESPONSE_BYTES).

Definition tool_error_result (id : option Json) (tool_name error_name reason_code : bytes) : Response :=
  bounded_json_rpc_ok id
    (JObject [(bs "jsonrpc", jstr "2.0"); (bs "id", id_or_null id);
      (bs "result", JObject
        [(bs "content", JArray [JObject [(bs "type", jstr "text");
            (bs "text", JString (tool_name ++ bs " unavailable: " ++ reason_code))]]);
         (bs "structuredContent",
            JObject [(bs "error", JString error_name); (bs "reasonCode", JString reason_code)]);
         (bs "isError", JBool true)])])
    (bs "Tool error result exceeds the bounded transport response byte limit.").

Definition json_rpc_id_too_large : Response :=
  bounded_payload_too_large None (bs "JSON-RPC request id exceeds the bounded transport byte limit.")
    MAX_MCP_COLLECTED_JSON_RESPONSE_BYTES.

Definition parse_error (detail : bytes) : Response :=
  json_response 400 (error_body None (-32700) (bs "Parse error") (JString detail)).
Definition invalid_request (id : option Json) (message : bytes) : Response :=
  json_response 400 (error_body id (-32600) (bs "Invalid Request") (JString message)).
Definition invalid_params_json (id : option Json) (message : bytes) (data : Json) : Response :=
  json_response 400 (error_body id (-32602) message data).
Definition invalid_params (id : option Json) (message : bytes) : Response :=
  invalid_params_json id (bs "Invalid params") (JString message).
Definition internal_error (id : option Json) (message : bytes) : Response :=
  json_response 500 (error_body id (-32603) (bs "Internal error") (JString message)).
Definition resource_changed (id : option Json) (message : bytes) : Response :=
  json_response 409 (error_body id (-32004) (bs "Resource changed") (JString message)).

Definition write_recovery_capacity_exhausted (id : option Json) : Response :=
  json_response 507 (error_body id (-32005) (bs "Write recovery capacity exhausted")
    (jstr "Write recovery quarantine capacity is exhausted.")).
Definition write_recovery_busy (id : option Json) : Response :=
  json_response 409 (error_body id (-32006) (bs "Write recovery busy")
    (jstr "Another cooperating writer owns the recovery quarantine lock.")).
Definition copy_staging_capacity_exhausted (id : option Json) : Response :=
  json_response 507 (error_body id (-32005) (bs "Copy staging capacity exhausted")
    (jstr "Private copy staging capacity is exhausted.")).
Definition copy_staging_busy (id : option Json) : Response :=
  json_response 409 (error_body id (-32006) (bs "Copy staging busy")
    (jstr "Another cooperating filesystem publisher owns the private staging lock.")).
Definition trash_recovery_capacity_exhausted (id : option Json) : Response :=
  json_response 507 (error_body id (-32005) (bs "Trash recovery capacity exhausted")
    (jstr "Private trash recovery quarantine capacity is exhausted.")).
Definition trash_recovery_busy (id : option Json) : Response :=
  json_response 409 (error_body id (-32006) (bs "Trash recovery busy")
    (jstr "Another cooperating filesystem publisher owns the private trash recovery lock.")).

Definition filesystem_mutation_worker_capacity_exhausted (id : option Json) : Response :=
  with_header (with_header
    (json_response 503 (error_body id (-32007) (bs "Filesystem mutation capacity unavailable")
      (jstr "The filesystem mutation worker capacity is currently exhausted.")))
    CACHE_CONTROL (bs "no-store")) RETRY_AFTER (bs "1").
Definition filesystem_mutation_request_cancelled (id : option Json) : Response :=
  with_header
    (json_response 409 (error_body id (-32008) (bs "Filesystem mutation cancelled")
      (jstr "The request was cancelled before filesystem mutation commit.")))
    CACHE_CONTROL (bs "no-store").

Definition method_not_available (id : option Json) (message : bytes) : Response :=
  json_response 501 (error_body id (-32601) (bs "Method not found") (JString message)).
Definition server_not_initialized (id : option Json) : Response :=
  json_response 400 (error_body id (-32000) (bs "Server not initialized")
    (jstr "Send notifications/initialized before normal operations.")).
Definition capability_context_not_allowed (id : option Json) : Response :=
  json_response 400 (error_body id (-32600) (bs "Invalid Request")
    (jstr "A request-scoped capability grant is accepted only for an exact grant-authorized tool call.")).
Definition capability_authorization_denied (id : option Json) (reason_code : bytes) : Response :=
  json_response 403 (error_body id (-32003) (bs "Capability authorization denied")
    (JObject [(bs "reason", JString reason_code)])).
Definition bounded_capability_authorization_denied (id : option Json) (reason_code : bytes)
    (max_response_bytes : N) : Response :=
  let body := error_body id (-32003) (bs "Capability authorization denied")
                (JObject [(bs "reason", JString reason_code)]) in
  if json_response_fits body max_response_bytes then json_response 403 body
  else capability_authorization_denied None reason_code.

Definition stateless_header_mismatch (id : option Json) (data : bytes) : Response :=
  json_response 400 (error_body id (-32020) (bs "Header mismatch") (JString data)).
Definition stateless_method_not_found (id : option Json) : Response :=
  json_response 404 (error_body id (-32601) (bs "Method not found")
    (jstr "Only server/discover, tools/list, and tools/call are available.")).
Definition stateless_method_not_allowed : Response :=
  with_header (status_response 405) ALLOW (bs "POST").
Definition method_not_allowed : Response :=
  with_header (status_response 405) ALLOW (bs "POST, GET, DELETE").

Definition session_store_error_response (error : SessionStoreError.t) : Response :=
  match error with
  | SessionStoreError.CapacityExhausted =>
    transport_error 503 (bs "session_capacity_reached")
      (bs "The bounded MCP session capacity is currently exhausted.")
  | SessionStoreError.NotFound =>
    transport_error 404 (bs "session_not_found") (bs "The MCP session does not exist or has expired.")
  | SessionStoreError.Poisoned =>
    transport_error 500 (bs "session_state_unavailable") (bs "MCP session state is unavailable.")
  end.

Definition sse_replay_error_response (error : SseReplayError.t) : Response :=
  match error with
  | SseReplayError.SessionNotFound =>
    transport_error 404 (bs "session_not_found") (bs "The MCP session does not exist or has expired.")
  | SseReplayError.CursorNotFound =>
    transport_error 404 (bs "sse_cursor_not_found")
      (bs "The SSE replay cursor is unavailable for this session.")
  | SseReplayError.EventDataTooLarge =>
    transport_error 500 (bs "sse_replay_unavailable")
      (bs "The SSE replay response exceeds its bounded retention posture.")
  | SseReplayError.Poisoned =>
    transport_error 500 (bs "session_state_unavailable") (bs "MCP session state is unavailable.")
  end.

Definition sse_events_response (events : list SseReplayEvent) : Response :=
  mkResponse 200 [(CONTENT_TYPE, bs "text/event-stream; charset=utf-8")] (sse_events_body events).

(** [axum::body::to_bytes], and the bytes of a response. *)
Definition body_bytes (body : Body) : bytes :=
  match body with JsonBody value => json_to_vec value | OpaqueBody content => content end.
Definition to_bytes (body : Body) (limit : N) : option bytes :=
  let content := body_bytes body in
  if (N.of_nat (length content) <=? limit)%N then Some content else None.

(** [HeaderMap::remove]. *)
Definition header_remove (h : Headers) (name : bytes) : Headers :=
  List.filter (λ kv, negb (bytes_eqb kv.1 name)) h.

(** Whether a response is a JSON result. *)
Definition is_json_ok (response : Response) : bool :=
  (status response =? 200)%N
  && is_some_and (λ value, media_type_is value APPLICATION_JSON)
       (value ← header_get (headers response) CONTENT_TYPE; header_to_str value).

Definition ping_response (id : option Json) : Response :=
  bounded_json_rpc_ok id
    (JObject [(bs "jsonrpc", jstr "2.0"); (bs "id", id_or_null id); (bs "result", JObject [])])
    (bs "Ping response exceeds the bounded transport response byte limit.").
End responses.
End McpResponses.
