(* ===== verification/McpArguments.v ===== *)
(** * Tool arguments and results on the wire

    [src/src/mcp_transport.rs], the argument structs; the results of
    [src/src/tools/filesystem.rs] and of the providers as JSON.  The structs derive
    [Deserialize] with [deny_unknown_fields]: [serde_json::from_value] reads one
    from an object whose keys are fields of the struct, or from an array of the
    fields in their order. *)

From S2P Require Import Prelude RustStd RustPath Http JsonRpc WriteFileGrant FsCalls SafeRoots FsPrepare.
From S2P Require Import FsReads FsTraverse AndroidVolumeGrant AndroidVolumeControl CommandExecution.
From S2P Require Import McpSession McpWire McpResponses.

Module McpArguments.
Import McpWire McpResponses FsPrepare FsReads FsTraverse.

(** ** Deserialization *)

Abbreviation Decoder A := (Json → option A) (only parsing).

Definition decode_string : Decoder bytes := as_str.
Definition decode_bool : Decoder bool := λ v, match v with JBool b => Some b | _ => None end.
Definition decode_unsigned (max : N) : Decoder N := λ v,
  match v with JNumber (PosInt n) => if (n <=? max)%N then Some n else None | _ => None end.
Definition decode_i64 : Decoder Z := as_i64.
(** [Option<T>]. *)
Definition decode_option {A} (decode : Decoder A) : Decoder (option A) := λ v,
  match v with JNull => Some None | _ => Some <$> decode v end.

(** The fields of a struct, by name; [None] where the value is not one. *)
Definition struct_fields (names : list bytes) (value : Json) : option (bytes → option Json) :=
  match value with
  | JObject members =>
    if forallb (λ member, contains names member.1) members
    then Some (λ name, json_get name members) else None
  | JArray items =>
    if length items <=? length names
    then Some (λ name, '(index, _) ← list_find (λ x, x = name) names; items !! index) else None
  | _ => None
  end.
Definition required {A} (decode : Decoder A) (field : option Json) : option A := field ≫= decode.
(** [#[serde(default)]]. *)
Definition defaulted {A} (decode : Decoder A) (value : A) (field : option Json) : option A :=
  match field with Some v => decode v | None => Some value end.

(** ** The call of a tool *)

Inductive ToolArguments := Omitted | Present (value : Json).
Definition into_value (self : ToolArguments) : option Json :=
  match self with Omitted => None | Present value => Some value end.
Definition is_omitted_or_empty_object (self : ToolArguments) : bool :=
  match self with Omitted | Present (JObject []) => true | _ => false end.

Record ToolCallParams := mkToolCall { call_name : bytes; call_arguments : ToolArguments }.
Definition decode_tool_call : Decoder ToolCallParams := λ v,
  field ← struct_fields [bs "name"; bs "arguments"] v;
  name ← required decode_string (field (bs "name"));
  arguments ← defaulted (λ v, Some (Present v)) Omitted (field (bs "arguments"));
  Some (mkToolCall name arguments).

Record ProjectServiceStatusArguments := mkServiceArgs { service_name : bytes }.
Definition decode_project_service_status : Decoder ProjectServiceStatusArguments := λ v,
  field ← struct_fields [bs "service_name"] v;
  service_name ← required decode_string (field (bs "service_name"));
  Some (mkServiceArgs service_name).

Record ListDirectoryArguments := mkListArgs { list_path : bytes; list_max_depth : option N }.
Definition decode_list_directory : Decoder ListDirectoryArguments := λ v,
  field ← struct_fields [bs "path"; bs "max_depth"] v;
  path ← required decode_string (field (bs "path"));
  max_depth ← defaulted (decode_option (decode_unsigned u32_max)) None (field (bs "max_depth"));
  Some (mkListArgs path max_depth).

(** [ReadFileArguments], [ReadBinaryFileArguments], [HashFileArguments] and
    [PathMetadataArguments] have the one field [path]. *)
Definition decode_path : Decoder bytes := λ v,
  field ← struct_fields [bs "path"] v;
  required decode_string (field (bs "path")).
Definition decode_read_file : Decoder bytes := decode_path.
Definition decode_read_binary_file : Decoder bytes := decode_path.
Definition decode_hash_file : Decoder bytes := decode_path.
Definition decode_path_metadata : Decoder bytes := decode_path.

Record RangeArguments := mkRangeArgs { range_path : bytes; range_offset : N; range_bytes : N }.
Definition decode_range (length_field : bytes) : Decoder RangeArguments := λ v,
  field ← struct_fields [bs "path"; bs "offset_bytes"; length_field] v;
  path ← required decode_string (field (bs "path"));
  offset ← required (decode_unsigned u64_max) (field (bs "offset_bytes"));
  length ← required (decode_unsigned u64_max) (field length_field);
  Some (mkRangeArgs path offset length).
Definition decode_read_binary_range : Decoder RangeArguments := decode_range (bs "length_bytes").
Definition decode_read_text_range : Decoder RangeArguments := decode_range (bs "max_bytes").

(** [CreateDirectoryArguments] and [TrashFileArguments]. *)
Record PathMutationArguments := mkPathMutation { mutation_path : bytes; mutation_dry_run : option bool }.
Definition decode_path_mutation : Decoder PathMutationArguments := λ v,
  field ← struct_fields [bs "path"; bs "dry_run"] v;
  path ← required decode_string (field (bs "path"));
  dry_run ← defaulted (decode_option decode_bool) None (field (bs "dry_run"));
  Some (mkPathMutation path dry_run).
Definition decode_create_directory : Decoder PathMutationArguments := decode_path_mutation.
Definition decode_trash_file : Decoder PathMutationArguments := decode_path_mutation.

Record CopyFileArguments := mkCopyArgs {
  copy_source_path : bytes; copy_destination_path : bytes; copy_dry_run : option bool }.
Definition decode_copy_file : Decoder CopyFileArguments := λ v,
  field ← struct_fields [bs "source_path"; bs "destination_path"; bs "dry_run"] v;
  source ← required decode_string (field (bs "source_path"));
  destination ← required decode_string (field (bs "destination_path"));
  dry_run ← defaulted (decode_option decode_bool) None (field (bs "dry_run"));
  Some (mkCopyArgs source destination dry_run).

(** A unit variant is its name, or an object that maps its name to null. *)
Definition find_path_filter (name : bytes) : option FindPathFilter :=
  if bytes_eqb name (bs "any") then Some FilterAny
  else if bytes_eqb name (bs "regular_file") then Some FilterRegularFile
  else if bytes_eqb name (bs "directory") then Some FilterDirectory
  else None.
Definition decode_find_path_filter : Decoder FindPathFilter := λ v,
  match v with
  | JString name => find_path_filter name
  | JObject [(name, JNull)] => find_path_filter name
  | _ => None
  end.

Record FindPathsArguments := mkFindArgs {
  find_path : bytes; find_query : bytes; find_kind : FindPathFilter; find_max_depth : option N }.
Definition decode_find_paths : Decoder FindPathsArguments := λ v,
  field ← struct_fields [bs "path"; bs "query"; bs "kind"; bs "max_depth"] v;
  path ← required decode_string (field (bs "path"));
  query ← required decode_string (field (bs "query"));
  kind ← defaulted decode_find_path_filter FilterAny (field (bs "kind"));
  max_depth ← defaulted (decode_option (decode_unsigned u32_max)) None (field (bs "max_depth"));
  Some (mkFindArgs path query kind max_depth).

Record SearchTextArguments := mkSearchArgs {
  search_path : bytes; search_query : bytes; search_max_depth : option N }.
Definition decode_search_text : Decoder SearchTextArguments := λ v,
  field ← struct_fields [bs "path"; bs "query"; bs "max_depth"] v;
  path ← required decode_string (field (bs "path"));
  query ← required decode_string (field (bs "query"));
  max_depth ← defaulted (decode_option (decode_unsigned u32_max)) None (field (bs "max_depth"));
  Some (mkSearchArgs path query max_depth).

Record WriteFileArguments := mkWriteArgs {
  write_path : bytes; write_content : bytes; write_dry_run : option bool }.
Definition decode_write_file : Decoder WriteFileArguments := λ v,
  field ← struct_fields [bs "path"; bs "content"; bs "dry_run"] v;
  path ← required decode_string (field (bs "path"));
  content ← required decode_string (field (bs "content"));
  dry_run ← defaulted (decode_option decode_bool) None (field (bs "dry_run"));
  Some (mkWriteArgs path content dry_run).

Definition decode_run_command_profile : Decoder bytes := λ v,
  field ← struct_fields [bs "profile"] v;
  required decode_string (field (bs "profile")).

Record SetAndroidVolumeArguments := mkVolumeArgs {
  volume_stream : bytes; volume_level : Z; volume_dry_run : option bool }.
Definition decode_set_android_volume : Decoder SetAndroidVolumeArguments := λ v,
  field ← struct_fields [bs "stream"; bs "level"; bs "dry_run"] v;
  stream ← required decode_string (field (bs "stream"));
  level ← required decode_i64 (field (bs "level"));
  dry_run ← defaulted (decode_option decode_bool) None (field (bs "dry_run"));
  Some (mkVolumeArgs stream level dry_run).

(** ** Serialization *)

Definition jbytes (s : bytes) : Json := JString s.
Definition joption {A} (f : A → Json) (o : option A) : Json := match o with Some a => f a | None => JNull end.

Definition file_info_value (r : FileInfo) : Json :=
  JObject [(bs "path", jbytes (fi_path r)); (bs "size", jnum (fi_size r)); (bs "is_dir", JBool (fi_is_dir r));
    (bs "modified", joption jbytes (fi_modified r))].
Definition list_dir_value (r : ListDirResult) : Json :=
  JObject [(bs "path", jbytes (ld_path r)); (bs "entries", JArray (file_info_value <$> ld_entries r));
    (bs "truncated", JBool (ld_truncated r)); (bs "maxEntries", jnum (ld_max_entries r));
    (bs "maxResponseBytes", jnum (ld_max_response_bytes r))].
Definition read_file_value (r : ReadFileResult) : Json :=
  JObject [(bs "path", jbytes (rf_path r)); (bs "content", jbytes (rf_content r)); (bs "size", jnum (rf_size r))].
Definition read_binary_file_value (r : ReadBinaryFileResult) : Json :=
  JObject [(bs "encoding", jbytes (rb_encoding r)); (bs "data", jbytes (rb_data r));
    (bs "sizeBytes", jnum (rb_size_bytes r)); (bs "maxFileBytes", jnum (rb_max_file_bytes r));
    (bs "maxResponseBytes", jnum (rb_max_response_bytes r))].
Definition read_binary_range_value (r : ReadBinaryRangeResult) : Json :=
  JObject [(bs "encoding", jbytes (br_encoding r)); (bs "data", jbytes (br_data r));
    (bs "offsetBytes", jnum (br_offset_bytes r)); (bs "sizeBytes", jnum (br_size_bytes r));
    (bs "fileSizeBytes", jnum (br_file_size_bytes r)); (bs "eof", JBool (br_eof r));
    (bs "maxReadBytes", jnum (br_max_read_bytes r)); (bs "maxFileBytes", jnum (br_max_file_bytes r));
    (bs "maxResponseBytes", jnum (br_max_response_bytes r))].
Definition read_text_range_value (r : ReadTextRangeResult) : Json :=
  JObject [(bs "content", jbytes (tr_content r)); (bs "offsetBytes", jnum (tr_offset_bytes r));
    (bs "nextOffsetBytes", jnum (tr_next_offset_bytes r)); (bs "sizeBytes", jnum (tr_size_bytes r));
    (bs "fileSizeBytes", jnum (tr_file_size_bytes r)); (bs "eof", JBool (tr_eof r));
    (bs "maxReadBytes", jnum (tr_max_read_bytes r)); (bs "maxFileBytes", jnum (tr_max_file_bytes r));
    (bs "maxResponseBytes", jnum (tr_max_response_bytes r))].
Definition path_metadata_value (r : PathMetadataResult) : Json :=
  JObject [(bs "path", jbytes (pm_path r));
    (bs "kind", match pm_kind r with RegularFileKind => jstr "regular_file" | DirectoryKind => jstr "directory" end);
    (bs "sizeBytes", joption jnum (pm_size_bytes r)); (bs "modified", joption jbytes (pm_modified r));
    (bs "maxResponseBytes", jnum (pm_max_response_bytes r))].
Definition hash_file_value (r : HashFileResult) : Json :=
  JObject [(bs "algorithm", jbytes (hf_algorithm r)); (bs "digest", jbytes (hf_digest r));
    (bs "sizeBytes", jnum (hf_size_bytes r))].
Definition create_directory_value (r : CreateDirectoryResult) : Json :=
  JObject [(bs "path", jbytes (cd_path r)); (bs "dryRun", JBool (cd_dry_run r)); (bs "mode", jbytes (cd_mode r));
    (bs "maxResponseBytes", jnum (cd_max_response_bytes r))].
Definition copy_file_value (r : CopyFileResult) : Json :=
  JObject [(bs "dryRun", JBool (cf_dry_run r)); (bs "sizeBytes", jnum (cf_size_bytes r));
    (bs "mode", jbytes (cf_mode r)); (bs "maxFileBytes", jnum (cf_max_file_bytes r));
    (bs "maxResponseBytes", jnum (cf_max_response_bytes r))].
Definition trash_file_value (r : TrashFileResult) : Json :=
  JObject [(bs "dryRun", JBool (tf_dry_run r)); (bs "sizeBytes", jnum (tf_size_bytes r));
    (bs "recoveryArtifactRetained", JBool (tf_recovery_artifact_retained r));
    (bs "maxFileBytes", jnum (tf_max_file_bytes r)); (bs "maxResponseBytes", jnum (tf_max_response_bytes r))].
Definition disposition_value (d : WriteFile.WriteFileDisposition) : Json :=
  match d with WriteFile.Create => jstr "create" | WriteFile.Replace => jstr "replace" end.
Definition write_file_value (r : WriteFileResult) : Json :=
  JObject [(bs "dryRun", JBool (wf_dry_run r)); (bs "sizeBytes", jnum (wf_size_bytes r));
    (bs "disposition", disposition_value (wf_disposition r));
    (bs "recoveryArtifactRetained", JBool (wf_recovery_artifact_retained r)); (bs "mode", jbytes (wf_mode r));
    (bs "maxFileBytes", jnum (wf_max_file_bytes r)); (bs "maxResponseBytes", jnum (wf_max_response_bytes r))].

Definition find_match_value (r : FindPathMatch) : Json :=
  JObject [(bs "path", jbytes (fm_path r));
    (bs "kind", match fm_kind r with FindRegularFile => jstr "regular_file" | FindDirectory => jstr "directory" end)].
Definition find_filter_value (f : FindPathFilter) : Json :=
  match f with
  | FilterAny => jstr "any" | FilterRegularFile => jstr "regular_file" | FilterDirectory => jstr "directory"
  end.
Definition find_paths_value (r : FindPathsResult) : Json :=
  JObject [(bs "path", jbytes (fr_path r)); (bs "matches", JArray (find_match_value <$> fr_matches r));
    (bs "truncated", JBool (fr_truncated r)); (bs "entriesExamined", jnum (fr_entries_examined r));
    (bs "skippedInvalidUtf8Entries", jnum (fr_skipped_invalid_utf8_entries r));
    (bs "skippedUnsafeEntries", jnum (fr_skipped_unsafe_entries r));
    (bs "skippedUnreadableEntries", jnum (fr_skipped_unreadable_entries r));
    (bs "queryBytes", jnum (fr_query_bytes r)); (bs "kindFilter", find_filter_value (fr_kind_filter r));
    (bs "maxDepth", jnum (fr_max_depth r)); (bs "maxEntries", jnum (fr_max_entries r));
    (bs "maxMatches", jnum (fr_max_matches r)); (bs "maxResponseBytes", jnum (fr_max_response_bytes r))].
Definition search_match_value (r : SearchTextMatch) : Json :=
  JObject [(bs "path", jbytes (sm_path r)); (bs "lineNumber", jnum (sm_line_number r));
    (bs "columnByte", jnum (sm_column_byte r))].
Definition search_text_value (r : SearchTextResult) : Json :=
  JObject [(bs "path", jbytes (sr_path r)); (bs "matches", JArray (search_match_value <$> sr_matches r));
    (bs "truncated", JBool (sr_truncated r)); (bs "entriesExamined", jnum (sr_entries_examined r));
    (bs "filesScanned", jnum (sr_files_scanned r)); (bs "bytesScanned", jnum (sr_bytes_scanned r));
    (bs "skippedOversizedFiles", jnum (sr_skipped_oversized_files r));
    (bs "skippedInvalidUtf8Files", jnum (sr_skipped_invalid_utf8_files r));
    (bs "skippedUnsafeEntries", jnum (sr_skipped_unsafe_entries r));
    (bs "skippedUnreadableEntries", jnum (sr_skipped_unreadable_entries r));
    (bs "queryBytes", jnum (sr_query_bytes r)); (bs "maxDepth", jnum (sr_max_depth r));
    (bs "maxEntries", jnum (sr_max_entries r)); (bs "maxFiles", jnum (sr_max_files r));
    (bs "maxFileBytes", jnum (sr_max_file_bytes r)); (bs "maxTotalBytes", jnum (sr_max_total_bytes r));
    (bs "maxMatches", jnum (sr_max_matches r)); (bs "maxResponseBytes", jnum (sr_max_response_bytes r))].

Definition jint (z : Z) : Json := JNumber (if (z <? 0)%Z then NegInt z else PosInt (Z.to_N z)).
Definition volume_stream_value (r : VolumeStatus.AndroidVolumeStream) : Json :=
  JObject [(bs "stream", jbytes (VolumeStatus.stream r)); (bs "volume", jint (VolumeStatus.volume r));
    (bs "maxVolume", jint (VolumeStatus.max_volume r))].
Definition volume_status_value (r : VolumeStatus.AndroidVolumeStatus) : Json :=
  JObject [(bs "streams", JArray (volume_stream_value <$> VolumeStatus.streams r))].
Definition volume_control_value (r : VolumeControl.AndroidVolumeControlResult) : Json :=
  JObject [(bs "stream", jbytes (AndroidVolume.stream_as_str (VolumeControl.r_stream r)));
    (bs "previousLevel", jint (VolumeControl.previous_level r));
    (bs "requestedLevel", jint (VolumeControl.requested_level r));
    (bs "maxVolume", jint (VolumeControl.r_max_volume r)); (bs "dryRun", JBool (VolumeControl.dry_run r));
    (bs "changed", JBool (VolumeControl.changed r)); (bs "verified", JBool (VolumeControl.verified r));
    (bs "outcome", jbytes (VolumeControl.outcome r)); (bs "rollback", jbytes (VolumeControl.rollback r))].
Definition command_result_value (r : CommandExecution.CommandExecutionResult) : Json :=
  JObject [(bs "profile", jbytes (CommandExecution.profile r)); (bs "exitCode", jint (CommandExecution.exit_code r));
    (bs "stdout", jbytes (CommandExecution.c_stdout r)); (bs "stderr", jbytes (CommandExecution.c_stderr r));
    (bs "stdoutBytes", jnum (CommandExecution.stdout_bytes r));
    (bs "stderrBytes", jnum (CommandExecution.stderr_bytes r));
    (bs "durationMilliseconds", jnum (CommandExecution.duration_milliseconds r))].

(** ** What was decoded *)

(** A call decoded from an object says so in its members. *)
Lemma struct_fields_object names members field name :
  struct_fields names (JObject members) = Some field → field name = json_get name members.
Proof. simpl. by destruct (forallb _ _); intros [= <-]. Qed.

Lemma defaulted_bool field b : defaulted (decode_option decode_bool) None field = Some (Some b) → field = Some (JBool b).
Proof. destruct field as [[]|]; simpl; naive_solver. Qed.

(** ** Checks *)

Example decoding_examples :
  decode_create_directory (JObject [(bs "path", jstr "/a"); (bs "dry_run", JNull)]) = Some (mkPathMutation (bs "/a") None) ∧
  decode_create_directory (JArray [jstr "/a"; JBool false]) = Some (mkPathMutation (bs "/a") (Some false)) ∧
  decode_create_directory (JArray [jstr "/a"]) = Some (mkPathMutation (bs "/a") None) ∧
  decode_create_directory (JArray [jstr "/a"; JNull; JNull]) = None ∧
  decode_create_directory (JObject [(bs "path", jstr "/a"); (bs "mode", JNull)]) = None ∧
  decode_create_directory (JObject []) = None ∧
  decode_find_paths (JObject [(bs "path", jstr "/a"); (bs "query", jstr "x"); (bs "kind", JObject [(bs "any", JNull)])])
    = Some (mkFindArgs (bs "/a") (bs "x") FilterAny None).
Proof. repeat split. Qed.
End McpArguments.
