(* ===== verification/AndroidBattery.v ===== *)
(** * Android battery status

    [src/src/android_battery.rs]: one fixed provider program whose output is read
    through an allow-list of fields.  The child process runs through the interface
    [ProcessRunner], the JSON parser through [HttpLib]. *)

From S2P Require Import Prelude RustStd Http BoundedProcess AndroidVolumeControl.

(** Third-party and machine arithmetic: a JSON number as an [f64], whether it is
    finite and between two integers, and the number it is written as. *)
Class Float64 := {
  f64 : Type;
  as_f64 : JsonNumber → f64;
  f64_between : Z → Z → f64 → bool;
  f64_value : f64 → JsonNumber;
}.

Module AndroidBattery.
Import BoundedProcess.

Definition TERMUX_BATTERY_STATUS_PROGRAM : bytes :=
  bs "/data/data/com.termux/files/usr/bin/termux-battery-status".
Definition BATTERY_STATUS_TIMEOUT : N := millis 5000.
Definition MAX_BATTERY_STDOUT_BYTES : N := 16 * 1024.
Definition MAX_BATTERY_STDERR_BYTES : N := 4 * 1024.
Definition MAX_STATUS_LABEL_BYTES : nat := 32.
Definition MIN_TEMPERATURE_CELSIUS : Z := -100.
Definition MAX_TEMPERATURE_CELSIUS : Z := 200.

Inductive AndroidBatteryError :=
| ApiUnavailable
| SpawnFailed
| WaitFailed
| TimedOut
| StdoutLimitExceeded
| StderrLimitExceeded
| ApiFailed
| InvalidUtf8
| InvalidJson
| InvalidField.

Definition reason_code (e : AndroidBatteryError) : bytes :=
  match e with
  | ApiUnavailable => bs "battery_api_unavailable"
  | SpawnFailed => bs "battery_api_spawn_failed"
  | WaitFailed => bs "battery_api_wait_failed"
  | TimedOut => bs "battery_api_timeout"
  | StdoutLimitExceeded => bs "battery_stdout_limit_exceeded"
  | StderrLimitExceeded => bs "battery_stderr_limit_exceeded"
  | ApiFailed => bs "battery_api_failed"
  | InvalidUtf8 => bs "battery_output_invalid_utf8"
  | InvalidJson => bs "battery_output_invalid_json"
  | InvalidField => bs "battery_output_invalid_field"
  end.

Definition from_provider_error (e : Provider.AndroidProviderError) : AndroidBatteryError :=
  match e with
  | Provider.ProgramUnavailable => ApiUnavailable
  | Provider.SpawnFailed => SpawnFailed
  | Provider.WaitFailed => WaitFailed
  | Provider.TimedOut => TimedOut
  | Provider.StdoutLimitExceeded => StdoutLimitExceeded
  | Provider.StderrLimitExceeded => StderrLimitExceeded
  | Provider.ProgramFailed => ApiFailed
  end.

Section status.
Context {F : Float64}.

Record AndroidBatteryStatus := mkBatteryStatus {
  present : option bool;
  health : option bytes;
  plugged : option bytes;
  status : option bytes;
  temperature_celsius : option f64;
  voltage_millivolts : option Z;
  current_microamps : option Z;
  current_average_microamps : option Z;
  percentage : option Z;
  level : option Z;
  scale : option Z;
  charge_counter_microamp_hours : option Z;
  energy_nanowatt_hours : option Z;
  cycle_count : option Z;
}.

(** ** Fields

    A reader takes the counter of recognized fields and gives it back. *)

Abbreviation Object := (list (bytes * Json)) (only parsing).
Definition Reader (A : Type) : Type := Object → N → Result AndroidBatteryError (option A * N).

Definition optional {A} (key : bytes) (read : Json → Result AndroidBatteryError A) : Reader A :=
  λ object recognized,
    match json_get key object with
    | None => Ok (None, recognized)
    | Some value => a ← read value; Ok (Some a, saturating_add64 recognized 1)
    end.

Definition optional_bool (key : bytes) : Reader bool :=
  optional key (λ value, match value with JBool b => Ok b | _ => Err InvalidField end).
Definition valid_label_byte (b : byte) : bool :=
  is_ascii_uppercase b || is_ascii_digit b || bool_decide (b = byte_of 95) || bool_decide (b = byte_of 45).
Definition optional_label (key : bytes) : Reader bytes :=
  optional key (λ value,
    value ← ok_or (as_str value) InvalidField;
    if bytes_eqb value [] || (MAX_STATUS_LABEL_BYTES <? length value) || negb (forallb valid_label_byte value)
    then Err InvalidField else Ok value).
Definition optional_float (key : bytes) (minimum maximum : Z) : Reader f64 :=
  optional key (λ value,
    value ← match value with JNumber n => Ok (as_f64 n) | _ => Err InvalidField end;
    if f64_between minimum maximum value then Ok value else Err InvalidField).
Definition optional_integer (key : bytes) (minimum maximum : Z) : Reader Z :=
  optional key (λ value,
    value ← ok_or (as_i64 value) InvalidField;
    if (minimum <=? value)%Z && (value <=? maximum)%Z then Ok value else Err InvalidField).

Definition parse_battery_object (object : Object) : Result AndroidBatteryError AndroidBatteryStatus :=
  '(present, n) ← optional_bool (bs "present") object 0%N;
  '(health, n) ← optional_label (bs "health") object n;
  '(plugged, n) ← optional_label (bs "plugged") object n;
  '(status, n) ← optional_label (bs "status") object n;
  '(temperature, n) ← optional_float (bs "temperature") MIN_TEMPERATURE_CELSIUS MAX_TEMPERATURE_CELSIUS object n;
  '(voltage, n) ← optional_integer (bs "voltage") 0 100000 object n;
  '(current, n) ← optional_integer (bs "current") (-1000000000) 1000000000 object n;
  '(current_average, n) ← optional_integer (bs "current_average") (-1000000000) 1000000000 object n;
  '(percentage, n) ← optional_integer (bs "percentage") 0 100 object n;
  '(level, n) ← optional_integer (bs "level") 0 1000000 object n;
  '(scale, n) ← optional_integer (bs "scale") 1 1000000 object n;
  '(charge, n) ← optional_integer (bs "charge_counter") (-1000000000000) 1000000000000 object n;
  '(energy, n) ← optional_integer (bs "energy") (-1000000000000000) 1000000000000000 object n;
  '(cycle, n) ← optional_integer (bs "cycle") 0 1000000 object n;
  if (n =? 0)%N || match level, scale with Some level, Some scale => (scale <? level)%Z | _, _ => false end
  then Err InvalidField
  else Ok (mkBatteryStatus present health plugged status temperature voltage current current_average percentage
             level scale charge energy cycle).

Definition parse_battery_status `{HttpLib} (input : bytes) : Result AndroidBatteryError AndroidBatteryStatus :=
  value ← map_err (λ _, InvalidJson) (json_from_slice input);
  object ← match value with JObject object => Ok object | _ => Err InvalidJson end;
  parse_battery_object object.

(** ** The client *)

Definition try_termux : Result () BoundedProcess :=
  map_err (λ _, ()) (Provider.provider_new TERMUX_BATTERY_STATUS_PROGRAM BATTERY_STATUS_TIMEOUT
    MAX_BATTERY_STDOUT_BYTES MAX_BATTERY_STDERR_BYTES).

Definition collect `{HttpLib} {R : ProcessRunner} (provider : BoundedProcess) (w : world)
    : world * Result AndroidBatteryError AndroidBatteryStatus :=
  let '(w, r) := VolumeStatus.collect_stdout provider w in
  (w, stdout ← map_err from_provider_error r;
      stdout ← ok_or (from_utf8 stdout) InvalidUtf8;
      parse_battery_status stdout).

(** The [Serialize] of a status: absent fields are left out. *)
Definition battery_status_value (r : AndroidBatteryStatus) : Json :=
  let field {A} (key : string) (f : A → Json) (o : option A) : list (bytes * Json) :=
    match o with Some a => [(bs key, f a)] | None => [] end in
  let integer (z : Z) : Json := JNumber (if (z <? 0)%Z then NegInt z else PosInt (Z.to_N z)) in
  JObject (field "present" JBool (present r) ++ field "health" JString (health r)
    ++ field "plugged" JString (plugged r) ++ field "status" JString (status r)
    ++ field "temperature_celsius" (λ t, JNumber (f64_value t)) (temperature_celsius r)
    ++ field "voltage_millivolts" integer (voltage_millivolts r)
    ++ field "current_microamps" integer (current_microamps r)
    ++ field "current_average_microamps" integer (current_average_microamps r)
    ++ field "percentage" integer (percentage r) ++ field "level" integer (level r)
    ++ field "scale" integer (scale r)
    ++ field "charge_counter_microamp_hours" integer (charge_counter_microamp_hours r)
    ++ field "energy_nanowatt_hours" integer (energy_nanowatt_hours r)
    ++ field "cycle_count" integer (cycle_count r)).

(** ** What a status says *)

Definition RECOGNIZED_KEYS : list bytes :=
  [bs "present"; bs "health"; bs "plugged"; bs "status"; bs "temperature"; bs "voltage"; bs "current";
   bs "current_average"; bs "percentage"; bs "level"; bs "scale"; bs "charge_counter"; bs "energy"; bs "cycle"].

(** What an optional field may be, given what it reads and what it must satisfy. *)
Definition reads {A} (object : Object) (key : bytes) (decode : Json → option A) (ok : A → Prop)
    (field : option A) : Prop :=
  match json_get key object with
  | None => field = None
  | Some value => ∃ a, decode value = Some a ∧ field = Some a ∧ ok a
  end.
Definition label_ok (s : bytes) : Prop :=
  s ≠ [] ∧ length s ≤ MAX_STATUS_LABEL_BYTES ∧ Forall (λ b, valid_label_byte b = true) s.
Definition between (minimum maximum : Z) (z : Z) : Prop := (minimum ≤ z ≤ maximum)%Z.
Definition decode_bool (v : Json) : option bool := match v with JBool b => Some b | _ => None end.
Definition decode_f64 (v : Json) : option f64 := match v with JNumber n => Some (as_f64 n) | _ => None end.

Record describes (o : Object) (r : AndroidBatteryStatus) : Prop := mkDescribes {
  d_present : reads o (bs "present") decode_bool (λ _, True) (present r);
  d_health : reads o (bs "health") as_str label_ok (health r);
  d_plugged : reads o (bs "plugged") as_str label_ok (plugged r);
  d_status : reads o (bs "status") as_str label_ok (status r);
  d_temperature : reads o (bs "temperature") decode_f64
    (λ t, f64_between MIN_TEMPERATURE_CELSIUS MAX_TEMPERATURE_CELSIUS t = true) (temperature_celsius r);
  d_voltage : reads o (bs "voltage") as_i64 (between 0 100000) (voltage_millivolts r);
  d_current : reads o (bs "current") as_i64 (between (-1000000000) 1000000000) (current_microamps r);
  d_current_average : reads o (bs "current_average") as_i64 (between (-1000000000) 1000000000)
    (current_average_microamps r);
  d_percentage : reads o (bs "percentage") as_i64 (between 0 100) (percentage r);
  d_level : reads o (bs "level") as_i64 (between 0 1000000) (level r);
  d_scale : reads o (bs "scale") as_i64 (between 1 1000000) (scale r);
  d_charge : reads o (bs "charge_counter") as_i64 (between (-1000000000000) 1000000000000)
    (charge_counter_microamp_hours r);
  d_energy : reads o (bs "energy") as_i64 (between (-1000000000000000) 1000000000000000)
    (energy_nanowatt_hours r);
  d_cycle : reads o (bs "cycle") as_i64 (between 0 1000000) (cycle_count r);
  d_some : Exists (λ key, json_get key o ≠ None) RECOGNIZED_KEYS;
  d_level_scale : ∀ l s, level r = Some l → scale r = Some s → (l ≤ s)%Z;
}.

(** ** Lemmas *)

(** The counter after one more key. *)
Definition counted (o : Object) (key : bytes) (n : N) : N :=
  match json_get key o with Some _ => saturating_add64 n 1 | None => n end.

Lemma optional_spec {A} key (read : Json → Result AndroidBatteryError A) decode ok o n field m :
  (∀ v a, read v = Ok a ↔ decode v = Some a ∧ ok a) →
  optional key read o n = Ok (field, m) ↔ reads o key decode ok field ∧ m = counted o key n.
Proof.
  intros Hread. unfold optional, reads, counted. destruct (json_get key o) as [v|]; [|naive_solver].
  destruct (read v) as [a|e] eqn:E; simpl.
  - apply Hread in E as [? ?]. naive_solver.
  - split; [done|]. intros [(a & Hd & -> & Ha) _]. pose proof (proj2 (Hread v a) (conj Hd Ha)). congruence.
Qed.

Lemma optional_bool_spec key o n field m :
  optional_bool key o n = Ok (field, m) ↔ reads o key decode_bool (λ _, True) field ∧ m = counted o key n.
Proof. apply optional_spec. intros [] ?; simpl; naive_solver. Qed.
Lemma optional_label_spec key o n field m :
  optional_label key o n = Ok (field, m) ↔ reads o key as_str label_ok field ∧ m = counted o key n.
Proof.
  apply optional_spec. intros v a. unfold label_ok. destruct (as_str v) as [s|]; simpl; [|naive_solver].
  rewrite Forall_forall. destruct (bytes_eqb s []) eqn:E; simpl.
  { apply bytes_eqb_true in E as ->. naive_solver. }
  apply bytes_eqb_false in E. destruct (Nat.ltb_spec MAX_STATUS_LABEL_BYTES (length s)); simpl.
  { split; [done|]. intros ([= ->] & _ & ? & _). lia. }
  destruct (forallb valid_label_byte s) eqn:Ef; simpl.
  - rewrite forallb_forall in Ef. split; [|naive_solver]. intros [= <-]. split_and!; try done.
    intros b ?. apply Ef. by apply list_elem_of_In.
  - split; [done|]. intros ([= ->] & _ & _ & Hf). apply not_true_iff_false in Ef. destruct Ef.
    apply forallb_forall. intros b ?. apply Hf. by apply list_elem_of_In.
Qed.
Lemma optional_float_spec key lo hi o n field m :
  optional_float key lo hi o n = Ok (field, m) ↔
  reads o key decode_f64 (λ t, f64_between lo hi t = true) field ∧ m = counted o key n.
Proof.
  apply optional_spec. intros v a. destruct v as [| |x| | |]; simpl; try (split; [done|by intros [? _]]).
  destruct (f64_between lo hi (as_f64 x)) eqn:E; (split; [|intros [[= <-] Hb]]); try congruence.
  by intros [= <-].
Qed.
Lemma optional_integer_spec key lo hi o n field m :
  optional_integer key lo hi o n = Ok (field, m) ↔
  reads o key as_i64 (between lo hi) field ∧ m = counted o key n.
Proof.
  apply optional_spec. intros v a. unfold between. destruct (as_i64 v) as [z|]; simpl; [|naive_solver].
  destruct (Z.leb_spec lo z), (Z.leb_spec z hi); simpl; split; intros; simplify_eq; naive_solver lia.
Qed.

Lemma bind_reader {A B} (r : Result AndroidBatteryError (option A * N)) (P : option A → Prop) m
    (f : option A * N → Result AndroidBatteryError B) b :
  (∀ field n, r = Ok (field, n) ↔ P field ∧ n = m) →
  r ≫= f = Ok b ↔ ∃ field, P field ∧ f (field, m) = Ok b.
Proof.
  intros Hr. rewrite bind_Ok. split.
  - intros ([field n] & [HP ->]%Hr & Hf). eauto.
  - intros (field & HP & Hf). exists (field, m). split; [by apply Hr|done].
Qed.

Lemma counted_0 o key n : counted o key n = 0%N ↔ json_get key o = None ∧ n = 0%N.
Proof.
  unfold counted, saturating_add64, u64_max. destruct (json_get key o); [|naive_solver].
  split; [intros|intros [? _]; done]. exfalso. lia.
Qed.

(** The fields are read one after the other. *)
Ltac read_field :=
  erewrite bind_reader by (intros;
    first [apply optional_bool_spec|apply optional_label_spec|apply optional_float_spec
          |apply optional_integer_spec]).
Ltac read_fields H :=
  repeat (match type of H with _ ≫= _ = Ok _ => idtac end;
    let x := fresh "x" in let Hx := fresh "Hx" in
    (erewrite bind_reader in H by (intros;
       first [apply optional_bool_spec|apply optional_label_spec|apply optional_float_spec
             |apply optional_integer_spec]));
    destruct H as (x & Hx & H); cbn beta iota in H).

(** C36: The battery status is exactly the recognized fields.  A parsed object is
    answered with a status if and only if every recognized key that is present
    has a value of its type within its bounds, at least one is present, and the
    level does not exceed the scale; the status then holds those values and
    nothing else, so nothing an unrecognized key says can appear in an answer. *)
Theorem battery_status_exact o r :
  (parse_battery_object o = Ok r ↔ describes o r) ∧
  (∀ o', (∀ key, key ∈ RECOGNIZED_KEYS → json_get key o' = json_get key o) →
     parse_battery_object o' = parse_battery_object o).
Proof.
  split.
  - split.
    + intros H. unfold parse_battery_object in H. read_fields H.
      match type of H with (if ?a || ?b then _ else _) = _ => destruct a eqn:En, b eqn:El; try done end.
      apply N.eqb_neq in En. injection H as <-.
      constructor; simpl; try done.
      * rewrite !counted_0 in En. unfold RECOGNIZED_KEYS. rewrite !Exists_cons.
        repeat match goal with |- context [json_get ?k o] => destruct (json_get k o); [by auto 20|] end. tauto.
      * intros l s -> ->. by apply Z.ltb_ge in El.
    + intros []. destruct r as [r1 r2 r3 r4 r5 r6 r7 r8 r9 r10 r11 r12 r13 r14]. simpl in *.
      unfold parse_battery_object. do 14 (read_field; eexists; split; [eassumption|]; cbn beta iota).
      rewrite (proj2 (N.eqb_neq _ _)).
      * destruct r10, r11; try done. rewrite (proj2 (Z.ltb_ge _ _)) by eauto. done.
      * rewrite !counted_0. intros Hc. unfold RECOGNIZED_KEYS in d_some0. rewrite !Exists_cons, Exists_nil in d_some0.
        tauto.
  - intros o' Hk. unfold parse_battery_object, optional_bool, optional_label, optional_float, optional_integer, optional.
    rewrite !Hk by (unfold RECOGNIZED_KEYS; set_solver). done.
Qed.
End status.

(** Floats that are integers, for the worked status. *)
#[export] Instance example_float : Float64 := {|
  f64 := Z; as_f64 n := match n with PosInt n => Z.of_N n | NegInt z => z | Float _ => 0%Z end;
  f64_between low high v := (low <=? v)%Z && (v <=? high)%Z; f64_value v := NegInt v |}.
Definition example_object : list (bytes * Json) := [(bs "percentage", JNumber (PosInt 80)); (bs "health", JString (bs "GOOD"))].
Lemma battery_status_exact_witness :
  ∃ r, describes example_object r ∧ percentage r = Some 80%Z ∧
    parse_battery_object ((bs "serial", JString (bs "secret")) :: example_object) = Ok r.
Proof.
  destruct (parse_battery_object example_object) as [r|e] eqn:E; [|discriminate].
  destruct (battery_status_exact example_object r) as [H Hk]. exists r. split; [apply H; exact E|]. split.
  - injection E as <-. reflexivity.
  - rewrite Hk; [exact E|]. intros key Hkey. unfold RECOGNIZED_KEYS in Hkey.
    repeat (apply elem_of_cons in Hkey as [->|Hkey]; [reflexivity|]). destruct (proj1 (elem_of_nil key) Hkey).
Defined.
End AndroidBattery.
