(* ===== verification/McpCalls.v ===== *)
(** * Labels of the transport, and handlers of requests as trees of calls

    First the tool, gate, reason and metadata names of [src/src/mcp_transport.rs]
    and [src/src/command_policy.rs]. *)

From S2P Require Import Prelude RustStd AppErrors Http RequestGrantCapability GrantReplay GrantToken.
From S2P Require Import AndroidVolumeGrant McpSession AuditEvents TransportSecurity BoundedProcess.
From S2P Require Import AndroidVolumeControl CommandPolicy CommandExecution FsCalls SafeRoots Config FsPrepare.
From S2P Require Import FsTraverse MutationWorkers AndroidBattery.

Module McpLabels.
Definition STATELESS_PROTOCOL_VERSION_META : bytes := bs "io.modelcontextprotocol/protocolVersion".
Definition STATELESS_CLIENT_CAPABILITIES_META : bytes := bs "io.modelcontextprotocol/clientCapabilities".
Definition STATELESS_CLIENT_INFO_META : bytes := bs "io.modelcontextprotocol/clientInfo".
Definition STATELESS_SERVER_INFO_META : bytes := bs "io.modelcontextprotocol/serverInfo".
Definition RUNTIME_STATUS_TOOL : bytes := bs "runtime_status".
Definition PLATFORM_INFO_TOOL : bytes := bs "platform_info".
Definition ANDROID_STATUS_TOOL : bytes := bs "android_status".
Definition ANDROID_BATTERY_STATUS_TOOL : bytes := bs "android_battery_status".
Definition ANDROID_VOLUME_STATUS_TOOL : bytes := bs "android_volume_status".
Definition SET_ANDROID_VOLUME_TOOL : bytes := bs "set_android_volume".
Definition ANDROID_RISH_STATUS_TOOL : bytes := bs "android_rish_status".
Definition PROJECT_SERVICE_STATUS_TOOL : bytes := bs "project_service_status".
Definition FIND_PATHS_TOOL : bytes := bs "find_paths".
Definition HASH_FILE_TOOL : bytes := bs "hash_file".
Definition LIST_DIRECTORY_TOOL : bytes := bs "list_directory".
Definition PATH_METADATA_TOOL : bytes := bs "path_metadata".
Definition READ_BINARY_FILE_TOOL : bytes := bs "read_binary_file".
Definition READ_BINARY_RANGE_TOOL : bytes := bs "read_binary_range".
Definition READ_FILE_TOOL : bytes := bs "read_file".
Definition READ_TEXT_RANGE_TOOL : bytes := bs "read_text_range".
Definition SEARCH_TEXT_TOOL : bytes := bs "search_text".
Definition RUNTIME_STATUS_GATE : bytes := bs "runtime_metadata".
Definition PLATFORM_INFO_GATE : bytes := bs "platform_metadata".
Definition ANDROID_STATUS_GATE : bytes := bs "android_read_only_status".
Definition ANDROID_BATTERY_STATUS_GATE : bytes := bs "android_battery_status".
Definition ANDROID_VOLUME_STATUS_GATE : bytes := bs "android_volume_status".
Definition ANDROID_VOLUME_CONTROL_GATE : bytes := bs "android_volume_control".
Definition ANDROID_RISH_STATUS_GATE : bytes := bs "android_rish_status".
Definition PROJECT_SERVICE_STATUS_GATE : bytes := bs "project_service_state".
Definition FILESYSTEM_METADATA_GATE : bytes := bs "filesystem_metadata".
Definition FILESYSTEM_READ_GATE : bytes := bs "filesystem_read".
Definition RUNTIME_STATUS_ALLOWED : bytes := bs "staged_runtime_metadata".
Definition RUNTIME_STATUS_ARGUMENTS_DENIED : bytes := bs "arguments_not_empty_or_not_object".
Definition PLATFORM_INFO_ALLOWED : bytes := bs "read_only_platform_metadata".
Definition PLATFORM_INFO_ARGUMENTS_DENIED : bytes := bs "arguments_not_supported".
Definition ANDROID_STATUS_ALLOWED : bytes := bs "allowlisted_status_metadata".
Definition ANDROID_STATUS_ARGUMENTS_DENIED : bytes := bs "arguments_not_empty_or_not_object".
Definition ANDROID_RISH_STATUS_ALLOWED : bytes := bs "rish_uid_predicate_observed".
Definition ANDROID_RISH_STATUS_ARGUMENTS_DENIED : bytes := bs "rish_arguments_invalid".
Definition ANDROID_RISH_STATUS_FEATURE_DISABLED : bytes := bs "rish_feature_not_compiled".
Definition ANDROID_RISH_STATUS_RUNTIME_DISABLED : bytes := bs "rish_runtime_disabled".
Definition ANDROID_BATTERY_STATUS_ALLOWED : bytes := bs "battery_status_read".
Definition ANDROID_BATTERY_STATUS_ARGUMENTS_DENIED : bytes := bs "arguments_not_empty_or_not_object".
Definition ANDROID_BATTERY_STATUS_FEATURE_DISABLED : bytes := bs "battery_feature_not_compiled".
Definition ANDROID_BATTERY_STATUS_RUNTIME_DISABLED : bytes := bs "battery_runtime_disabled".
Definition ANDROID_VOLUME_STATUS_ALLOWED : bytes := bs "volume_status_read".
Definition ANDROID_VOLUME_STATUS_ARGUMENTS_DENIED : bytes := bs "arguments_not_empty_or_not_object".
Definition ANDROID_VOLUME_CONTROL_INVALID_ARGUMENTS : bytes := bs "volume_control_arguments_invalid".
Definition ANDROID_VOLUME_CONTROL_PREVIEW_ALLOWED : bytes := bs "volume_control_preview".
Definition ANDROID_VOLUME_CONTROL_MUTATION_ALLOWED : bytes := bs "volume_control_mutation_verified".
Definition ANDROID_VOLUME_STATUS_FEATURE_DISABLED : bytes := bs "volume_feature_not_compiled".
Definition ANDROID_VOLUME_STATUS_RUNTIME_DISABLED : bytes := bs "volume_runtime_disabled".
Definition ANDROID_VOLUME_CONTROL_FEATURE_DISABLED : bytes := bs "volume_control_feature_not_compiled".
Definition ANDROID_VOLUME_CONTROL_RUNTIME_DISABLED : bytes := bs "volume_control_runtime_disabled".
Definition PROJECT_SERVICE_STATUS_ALLOWED : bytes := bs "allowlisted_project_service".
Definition PROJECT_SERVICE_STATUS_MISSING_ARGUMENTS : bytes := bs "missing_service_name".
Definition PROJECT_SERVICE_STATUS_INVALID_ARGUMENTS : bytes := bs "invalid_service_arguments".
Definition PROJECT_SERVICE_STATUS_UNSUPPORTED : bytes := bs "unsupported_service".
Definition FILESYSTEM_MISSING_ARGUMENTS : bytes := bs "missing_arguments".
Definition FILESYSTEM_INVALID_ARGUMENTS : bytes := bs "invalid_arguments".
Definition FILESYSTEM_INVALID_DEPTH : bytes := bs "invalid_max_depth".
Definition FILESYSTEM_LIST_ALLOWED : bytes := bs "safe_root_listed".
Definition FILESYSTEM_METADATA_ALLOWED : bytes := bs "safe_root_metadata_read".
Definition FILESYSTEM_METADATA_NOT_FOUND : bytes := bs "filesystem_path_not_found".
Definition FILESYSTEM_METADATA_UNSUPPORTED : bytes := bs "filesystem_path_type_unsupported".
Definition FILESYSTEM_METADATA_FAILED : bytes := bs "filesystem_metadata_failed".
Definition FILESYSTEM_READ_ALLOWED : bytes := bs "safe_root_read".
Definition FILESYSTEM_BINARY_READ_ALLOWED : bytes := bs "safe_root_binary_read".
Definition FILESYSTEM_BINARY_READ_NOT_FOUND : bytes := bs "filesystem_binary_read_target_not_found".
Definition FILESYSTEM_BINARY_READ_UNSUPPORTED : bytes := bs "filesystem_binary_read_type_unsupported".
Definition FILESYSTEM_BINARY_READ_TOO_LARGE : bytes := bs "filesystem_binary_read_size_limit_exceeded".
Definition FILESYSTEM_BINARY_READ_FAILED : bytes := bs "filesystem_binary_read_failed".
Definition FILESYSTEM_BINARY_RANGE_ALLOWED : bytes := bs "safe_root_binary_range_read".
Definition FILESYSTEM_BINARY_RANGE_NOT_FOUND : bytes := bs "filesystem_binary_range_target_not_found".
Definition FILESYSTEM_BINARY_RANGE_UNSUPPORTED : bytes := bs "filesystem_binary_range_type_unsupported".
Definition FILESYSTEM_BINARY_RANGE_INVALID : bytes := bs "filesystem_binary_range_invalid".
Definition FILESYSTEM_BINARY_RANGE_TOO_LARGE : bytes := bs "filesystem_binary_range_file_too_large".
Definition FILESYSTEM_BINARY_RANGE_CHANGED : bytes := bs "filesystem_binary_range_changed_during_read".
Definition FILESYSTEM_BINARY_RANGE_FAILED : bytes := bs "filesystem_binary_range_failed".
Definition FILESYSTEM_TEXT_RANGE_ALLOWED : bytes := bs "safe_root_text_range_read".
Definition FILESYSTEM_TEXT_RANGE_NOT_FOUND : bytes := bs "filesystem_text_range_target_not_found".
Definition FILESYSTEM_TEXT_RANGE_UNSUPPORTED : bytes := bs "filesystem_text_range_type_unsupported".
Definition FILESYSTEM_TEXT_RANGE_INVALID : bytes := bs "filesystem_text_range_invalid".
Definition FILESYSTEM_TEXT_RANGE_TOO_LARGE : bytes := bs "filesystem_text_range_file_too_large".
Definition FILESYSTEM_TEXT_RANGE_ENCODING_INVALID : bytes := bs "filesystem_text_range_encoding_invalid".
Definition FILESYSTEM_TEXT_RANGE_CHANGED : bytes := bs "filesystem_text_range_changed_during_read".
Definition FILESYSTEM_TEXT_RANGE_FAILED : bytes := bs "filesystem_text_range_failed".
Definition FILESYSTEM_HASH_ALLOWED : bytes := bs "safe_root_file_hashed".
Definition FILESYSTEM_HASH_NOT_FOUND : bytes := bs "filesystem_hash_target_not_found".
Definition FILESYSTEM_HASH_UNSUPPORTED : bytes := bs "filesystem_hash_target_type_unsupported".
Definition FILESYSTEM_HASH_TOO_LARGE : bytes := bs "filesystem_hash_size_limit_exceeded".
Definition FILESYSTEM_HASH_FAILED : bytes := bs "filesystem_hash_failed".
Definition FILESYSTEM_SEARCH_ALLOWED : bytes := bs "safe_root_text_searched".
Definition FILESYSTEM_SEARCH_INVALID_QUERY : bytes := bs "search_query_invalid".
Definition FILESYSTEM_SEARCH_FAILED : bytes := bs "filesystem_search_failed".
Definition FILESYSTEM_READ_TOO_LARGE : bytes := bs "read_size_limit_exceeded".
Definition FILESYSTEM_READ_ENCODING_INVALID : bytes := bs "read_encoding_invalid".
Definition FILESYSTEM_RESPONSE_TOO_LARGE : bytes := bs "response_size_limit_exceeded".
Definition FILESYSTEM_CREATE_MUTATION_DISABLED : bytes := bs "create_directory_mutation_disabled".
Definition FILESYSTEM_COPY_MUTATION_DISABLED : bytes := bs "copy_file_mutation_disabled".
Definition FILESYSTEM_FIND_ALLOWED : bytes := bs "safe_root_paths_found".
Definition FILESYSTEM_FIND_INVALID_QUERY : bytes := bs "find_query_invalid".
Definition FILESYSTEM_FIND_FAILED : bytes := bs "filesystem_find_failed".
Definition FILESYSTEM_READ_FAILED : bytes := bs "filesystem_read_failed".
Definition FILESYSTEM_DRY_RUN_ALLOWED : bytes := bs "dry_run_preview".
Definition FILESYSTEM_WRITE_MUTATION_DISABLED : bytes := bs "write_file_mutation_disabled".
Definition FILESYSTEM_MUTATION_WORKER_CAPACITY_EXCEEDED : bytes := bs "filesystem_mutation_worker_capacity_exceeded".
Definition STATELESS_MUTATION_NOT_AVAILABLE : bytes := bs "stateless_transport_preview_only".
Definition COMMAND_EXECUTION_ERROR : bytes := bs "command_profile_execution_failed".
Definition TOOL_CALL_PARAMS_INVALID : bytes := bs "tools/call params do not match the required schema.".
Definition TOOL_ARGUMENTS_INVALID : bytes := bs "Tool arguments do not match the advertised input schema.".
Definition COMMAND_FEATURE_DISABLED_REASON : bytes := bs "command_feature_not_compiled".
Definition COMMAND_MISSING_ARGUMENTS_REASON : bytes := bs "command_profile_missing_arguments".
Definition COMMAND_INVALID_ARGUMENTS_REASON : bytes := bs "command_profile_invalid_arguments".
Definition COMMAND_PROGRAM_UNAVAILABLE_REASON : bytes := bs "command_program_unavailable".
Definition COMMAND_SPAWN_FAILED_REASON : bytes := bs "command_spawn_failed".
Definition COMMAND_WAIT_FAILED_REASON : bytes := bs "command_wait_failed".
Definition COMMAND_TIMEOUT_REASON : bytes := bs "command_timeout".
Definition COMMAND_STDOUT_LIMIT_REASON : bytes := bs "command_stdout_limit_exceeded".
Definition COMMAND_STDERR_LIMIT_REASON : bytes := bs "command_stderr_limit_exceeded".
Definition COMMAND_PROGRAM_FAILED_REASON : bytes := bs "command_program_failed".
Definition COMMAND_OUTPUT_INVALID_UTF8_REASON : bytes := bs "command_output_invalid_utf8".
Definition COMMAND_CONCURRENCY_LIMIT_REASON : bytes := bs "command_concurrency_limit_exceeded".
End McpLabels.

(** * Handlers of requests as trees of calls

    A handler of [src/src/mcp_transport.rs] is a [handler]: the tree of what it
    asks of the rest of the process (the clock, the audit counters, the session
    store, the filesystem tools, the mutation workers, the device providers), one
    branch for every answer.  [served] runs one against arbitrary answers and
    keeps what happened; [allowed_all] is the logic of [FsCalls] for these
    calls. *)

Module McpCalls.
Import AppErrors SafeRoots FsPrepare MutationWorkers McpLabels.

(** The client of the rish backend ([RishBackend]) is present or absent here; a
    probe is one call, answered by the JSON of its status or its reason code. *)
Record McpTransportState := mkTransport {
  security_policy : TransportSecurity.TransportSecurityPolicy;
  file_tools : PinnedSafeRootSet;
  sse_enabled : bool;
  stateless_2026_07_28_enabled : bool;
  android_battery_status_enabled : bool;
  android_volume_status_enabled : bool;
  android_volume_control_enabled : bool;
  android_rish_enabled : bool;
  command_execution_enabled : bool;
  create_directory_authority : option GrantAuthority;
  copy_file_authority : option GrantAuthority;
  trash_file_authority : option GrantAuthority;
  write_file_authority : option GrantAuthority;
  android_volume_control_authority : option GrantAuthority;
  has_command_execution_client : bool;
  has_rish_backend_client : bool;
}.

Section calls.
Context {F : Float64}.

(** The members of the state that handlers share are asked for what they do: the
    audit counters, the session store, the capacity and the clients.  A [Look] is
    an awaited method of the filesystem tools; a [Spawn] starts a mutation worker
    with a permit and waits for it, and answers nothing when the worker panicked;
    a [Panic] is not answered. *)
Inductive call : Type :=
| CurrentUnixSeconds
| RecordAuditEvent (event : Audit.AuditEvent)
| AuditCountersSnapshot
| CreateSession
| PhaseOfSession (session_id : bytes)
| ActivateSession (session_id : bytes)
| TerminateSession (session_id : bytes)
| RecordSseResponse (session_id data : bytes)
| ReplaySseAfter (session_id last_event_id : bytes)
| Look (A : Type) (tool : fs AppError A)
| TryAcquireWorker
| SpawnCreateDirectory (credentials : Credentials) (path : bytes)
| SpawnCopyFile (credentials : Credentials) (source_path destination_path : bytes)
| SpawnTrashFile (credentials : Credentials) (path : bytes)
| SpawnWriteFile (credentials : Credentials) (path content : bytes)
| AvailableParallelism
| CollectBattery
| CollectVolume
| ProbeRish
| PreviewVolume (stream : AndroidVolume.AndroidVolumeStreamName) (level : Z)
| PrepareVolume (stream : AndroidVolume.AndroidVolumeStreamName) (level : Z)
| ConsumeVolumeGrant (authority : GrantAuthority) (token : option bytes) (session_id : bytes)
    (target : AndroidVolume.AndroidVolumeGrantTarget) (now : N)
| ExecuteVolume (prepared : VolumeControl.PreparedAndroidVolumeMutation)
| ExecuteCommand (profile : CommandPolicy.CommandProfile)
| Panic.

Definition answer (c : call) : Type :=
  match c with
  | CurrentUnixSeconds => N
  | AvailableParallelism => option N
  | RecordAuditEvent _ => unit
  | AuditCountersSnapshot => option Audit.AuditCounters
  | CreateSession => Result McpSession.SessionStoreError.t bytes
  | PhaseOfSession _ => Result McpSession.SessionStoreError.t McpSession.SessionPhase
  | ActivateSession _ | TerminateSession _ => Result McpSession.SessionStoreError.t unit
  | RecordSseResponse _ _ | ReplaySseAfter _ _ =>
      Result McpSession.SseReplayError.t (list McpSession.SseReplayEvent)
  | Look A _ => Result AppError A
  | TryAcquireWorker => bool
  | SpawnCreateDirectory _ _ => option (WorkerOutcome CreateDirectoryResult)
  | SpawnCopyFile _ _ _ => option (WorkerOutcome CopyFileResult)
  | SpawnTrashFile _ _ => option (WorkerOutcome TrashFileResult)
  | SpawnWriteFile _ _ _ => option (WorkerOutcome WriteFileResult)
  | CollectBattery => Result AndroidBattery.AndroidBatteryError AndroidBattery.AndroidBatteryStatus
  | CollectVolume => Result VolumeStatus.AndroidVolumeError VolumeStatus.AndroidVolumeStatus
  | ProbeRish => Result bytes Json
  | PreviewVolume _ _ =>
      Result VolumeControl.AndroidVolumeControlError VolumeControl.AndroidVolumeControlResult
  | PrepareVolume _ _ =>
      Result VolumeControl.AndroidVolumeControlError VolumeControl.PreparedAndroidVolumeMutation
  | ConsumeVolumeGrant _ _ _ _ _ => GrantResult unit
  | ExecuteVolume _ =>
      option (Result VolumeControl.AndroidVolumeControlError VolumeControl.AndroidVolumeControlResult)
  | ExecuteCommand _ => Result CommandExecution.CommandExecutionError CommandExecution.CommandExecutionResult
  | Panic => Empty_set
  end.

(** ** Handlers *)

Inductive handler (A : Type) : Type :=
| Return (a : A)
| Ask (c : call) (k : answer c → handler A).
#[global] Arguments Return {A} a.
#[global] Arguments Ask {A} c k.

Fixpoint handler_bind {A B} (p : handler A) (f : A → handler B) : handler B :=
  match p with
  | Return a => f a
  | Ask c k => Ask c (λ r, handler_bind (k r) f)
  end.
#[export] Instance handler_ret : MRet handler := λ A a, Return a.
#[export] Instance handler_mbind : MBind handler := λ A B f p, handler_bind p f.

Definition ask (c : call) : handler (answer c) := Ask c Return.
(** [Option::expect]. *)
Definition expect {A} (o : option A) : handler A :=
  match o with Some a => Return a | None => Ask Panic (λ r, match r with end) end.

(** ** Runs *)

Record event := Event { event_call : call; event_answer : answer event_call }.
(** The most recent event first. *)
Abbreviation trace := (list event).

Inductive served {A} : handler A → trace → A → trace → Prop :=
| served_Return a t : served (Return a) t a t
| served_Ask c k r t a t' : served (k r) (Event c r :: t) a t' → served (Ask c k) t a t'.

(** A handler answered by a process, which never answers a panic. *)
Definition reply (c : call) : Type := match c with Panic => unit | c => answer c end.
Fixpoint serve {W A} (process : W → ∀ c, W * reply c) (p : handler A) (w : W) (t : trace) : option (W * A * trace) :=
  match p with
  | Return a => Some (w, a, t)
  | Ask c k =>
    match c as c return (answer c → handler A) → W * reply c → option (W * A * trace) with
    | Panic => λ _ _, None
    | c => λ k r, serve process (k (snd r)) (fst r) (Event c (snd r) :: t)
    end k (process w c)
  end.

(** An event whose answer the process gave. *)
Definition replied {W} (process : W → ∀ c, W * reply c) (e : event) : Prop :=
  ∃ w, match event_call e as c return answer c → reply c → Prop with
       | Panic => λ _ _, False
       | _ => λ a b, a = b
       end (event_answer e) (snd (process w (event_call e))).

Lemma serve_ask {W A} (process : W → ∀ c, W * reply c) c (k : answer c → handler A) w t :
  c ≠ Panic → ∃ w' a, replied process (Event c a) ∧ serve process (Ask c k) w t = serve process (k a) w' (Event c a :: t).
Proof. intros Hc. destruct c; try done; eexists _, _; (split; [|reflexivity]); by exists w. Qed.
Lemma serve_served {W A} (process : W → ∀ c, W * reply c) (p : handler A) w t w' a t' :
  serve process p w t = Some (w', a, t') → served p t a t' ∧ ∀ e, e ∈ t' → e ∈ t ∨ replied process e.
Proof.
  revert w t; induction p as [b|c k IH]; intros w t H.
  - injection H as <- <- <-. split; [constructor|]. intros e. by left.
  - assert (c ≠ Panic) as Hc by (intros ->; discriminate).
    destruct (serve_ask process c k w t Hc) as (w1 & r & Hr & E). rewrite E in H. apply IH in H as [Hs He].
    split; [by econstructor|]. intros e Hin. destruct (He e Hin) as [[->|Ht]%elem_of_cons|]; [by right|by left|by right].
Qed.

(** ** The logic of calls *)

Section logic.
Context (S : call → trace → Prop).

Fixpoint allowed_all {A} (p : handler A) (t : trace) (Q : A → trace → Prop) : Prop :=
  match p with
  | Return a => Q a t
  | Ask c k => S c t ∧ ∀ r, allowed_all (k r) (Event c r :: t) Q
  end.

Fixpoint all_allowed (t : trace) : Prop :=
  match t with
  | [] => True
  | e :: t => S (event_call e) t ∧ all_allowed t
  end.

Lemma allowed_mono {A} (p : handler A) t (Q Q' : A → trace → Prop) :
  allowed_all p t Q → (∀ a t', Q a t' → Q' a t') → allowed_all p t Q'.
Proof. revert t; induction p as [a|c k IH]; simpl; intros t; [eauto|]. intros [? Hk] HQ. split; eauto. Qed.

Lemma allowed_bind {A B} (p : handler A) (f : A → handler B) t Q :
  allowed_all p t (λ a t', allowed_all (f a) t' Q) → allowed_all (p ≫= f) t Q.
Proof. revert t; induction p as [a|c k IH]; simpl; intros t; [done|]. intros [? Hk]. split; eauto. Qed.

Lemma served_allowed {A} (p : handler A) t a t' Q :
  served p t a t' → all_allowed t → allowed_all p t Q → Q a t' ∧ all_allowed t'.
Proof. induction 1; simpl; [done|]. intros Ho [Hc Hk]. by apply IHserved. Qed.

(** Without permission to panic, every handler ends. *)
Lemma serve_total {W A} (process : W → ∀ c, W * reply c) (P : trace → Prop) (p : handler A) w t Q :
  allowed_all p t Q → P t → (∀ t, P t → ¬ S Panic t) → (∀ e t, P t → replied process e → P (e :: t)) →
  ∃ w' a t', serve process p w t = Some (w', a, t') ∧ Q a t'.
Proof.
  intros Hp Ht HP Hstep. revert w t Hp Ht; induction p as [a|c k IH]; intros w t Hp Ht; [by eexists _, _, _|].
  destruct Hp as [Hc Hk]. assert (c ≠ Panic) as Hn by (intros ->; by eapply HP).
  destruct (serve_ask process c k w t Hn) as (w1 & r & Hr & ->). eapply IH; [apply Hk|by apply Hstep].
Qed.
Lemma all_allowed_elem t e : all_allowed t → e ∈ t → ∃ t1 t2, t = t1 ++ e :: t2 ∧ S (event_call e) t2.
Proof.
  induction t as [|e' t IH]; simpl; [by intros _ ?%not_elem_of_nil|].
  intros [Hs Ht] [->|He]%elem_of_cons; [by exists [], t|].
  destruct (IH Ht He) as (t1 & t2 & -> & ?). by exists (e' :: t1), t2.
Qed.
End logic.

(** ** Audit *)

Definition record_audit_event (event : Audit.AuditEvent) : handler unit := ask (RecordAuditEvent event).
Definition record_read_only_allowed (tool gate reason : bytes) : handler unit :=
  now ← ask CurrentUnixSeconds;
  record_audit_event (Audit.read_only_allowed_event now tool gate reason).
Definition record_read_only_denied (tool gate reason : bytes) : handler unit :=
  now ← ask CurrentUnixSeconds;
  record_audit_event (Audit.read_only_denied_event now tool gate reason).
Definition record_filesystem_allowed (tool gate : bytes) (mode : Audit.AuditMode) (reason : bytes) : handler unit :=
  now ← ask CurrentUnixSeconds;
  record_audit_event (MutationWorkers.record_filesystem_allowed tool gate mode reason now).
Definition record_filesystem_denied (tool gate : bytes) (mode : Audit.AuditMode) (reason : bytes) : handler unit :=
  now ← ask CurrentUnixSeconds;
  record_audit_event (MutationWorkers.record_filesystem_denied tool gate mode reason now).

Definition record_volume_control_decision (mode : Audit.AuditMode) (decision : Audit.AuditDecision) (reason : bytes)
    : handler unit :=
  now ← ask CurrentUnixSeconds;
  record_audit_event
    (Audit.AuditEvent_new now SET_ANDROID_VOLUME_TOOL ANDROID_VOLUME_CONTROL_GATE mode decision reason).
Definition filesystem_write_mode (dry_run : bool) : Audit.AuditMode :=
  if dry_run then Audit.DryRun else Audit.Mutating.
Definition filesystem_write_allowed_reason (dry_run : bool) : bytes :=
  if dry_run then FILESYSTEM_DRY_RUN_ALLOWED else FILESYSTEM_WRITE_ALLOWED.

(** Who calls a tool: a session of the 2025-11-25 transport, or nobody. *)
Inductive ToolInvocationContext := LegacySession (session_id : bytes) | StatelessReadPreview.
Definition legacy_session (self : ToolInvocationContext) : option bytes :=
  match self with LegacySession session_id => Some session_id | StatelessReadPreview => None end.
End calls.
End McpCalls.
