(* ===== verification/StatusTools.v ===== *)
(** * Status tools

    [src/src/platform_info.rs], [src/src/android_status.rs] and
    [src/src/service_status.rs]: fixed metadata, the allow-lists and deny-lists of
    its fields, and its JSON.  What [std::env::consts] and [Cargo.toml] say of the
    build is the class [Build]. *)

From S2P Require Import Prelude RustStd Http McpResponses.

(** [std::env::consts] and [CARGO_PKG_VERSION]. *)
Class Build := mkBuild { OS : bytes; ARCH : bytes; FAMILY : bytes; PACKAGE_VERSION : bytes }.

(** ** Platform information *)

Module PlatformInfo.
Import McpResponses.
Record PlatformInfo := mkPlatformInfo {
  os : bytes; arch : bytes; family : bytes; available_parallelism : N; package_version : bytes }.

(** [parallelism] is [available_parallelism().ok()]. *)
Definition collect_platform_info `{Build} (parallelism : option N) : PlatformInfo :=
  mkPlatformInfo OS ARCH FAMILY (default 1%N parallelism) PACKAGE_VERSION.
Definition platform_info_value (r : PlatformInfo) : Json :=
  JObject [(bs "os", JString (os r)); (bs "arch", JString (arch r)); (bs "family", JString (family r));
    (bs "available_parallelism", jnum (available_parallelism r));
    (bs "package_version", JString (package_version r))].
End PlatformInfo.

(** ** Android status *)

Module AndroidStatus.
Import McpResponses.
Definition ANDROID_STATUS_ALLOWED_FIELDS : list bytes :=
  bs <$> ["status_mode"; "target_os"; "target_arch"; "target_family"; "package_version";
    "termux_runtime_hint"; "android_api_access"; "android_control_enabled"; "shell_fallback_enabled";
    "command_execution_enabled"; "high_impact_controls_enabled"]%string.
Definition ANDROID_STATUS_DENIED_FIELDS : list bytes :=
  bs <$> ["android_id"; "advertising_id"; "device_serial"; "imei"; "imsi"; "subscriber_id";
    "phone_number"; "accounts"; "contacts"; "sms"; "notifications"; "location"; "camera"; "microphone";
    "accessibility_state"; "installed_packages"; "package_inventory"; "processes"; "environment"; "env";
    "secrets"; "tokens"; "shell"; "command_output"]%string.

Record AndroidStatus := mkStatus {
  status_mode : bytes; target_os : bytes; target_arch : bytes; target_family : bytes;
  package_version : bytes; termux_runtime_hint : bytes; android_api_access : bytes;
  android_control_enabled : bool; shell_fallback_enabled : bool; command_execution_enabled : bool;
  high_impact_controls_enabled : bool }.

(** [cfg!(target_os = "android")] is what [OS] says. *)
Definition collect_android_status `{Build} (command_execution_enabled : bool) : AndroidStatus :=
  mkStatus (bs "read_only_allowlisted_status") OS ARCH FAMILY PACKAGE_VERSION
    (if bytes_eqb OS (bs "android") then bs "android_termux_candidate"
     else bs "non_android_build_or_test_host")
    (bs "not_used") false false command_execution_enabled false.
Definition android_status_value (r : AndroidStatus) : Json :=
  JObject [(bs "status_mode", JString (status_mode r)); (bs "target_os", JString (target_os r));
    (bs "target_arch", JString (target_arch r)); (bs "target_family", JString (target_family r));
    (bs "package_version", JString (package_version r));
    (bs "termux_runtime_hint", JString (termux_runtime_hint r));
    (bs "android_api_access", JString (android_api_access r));
    (bs "android_control_enabled", JBool (android_control_enabled r));
    (bs "shell_fallback_enabled", JBool (shell_fallback_enabled r));
    (bs "command_execution_enabled", JBool (command_execution_enabled r));
    (bs "high_impact_controls_enabled", JBool (high_impact_controls_enabled r))].
End AndroidStatus.

(** ** Project services *)

Module ProjectService.
Import McpResponses.
Definition PROJECT_SERVICE_ALLOWLIST : list bytes := [bs "mcp_runtime"].
Definition PROJECT_SERVICE_STATUS_ALLOWED_FIELDS : list bytes :=
  bs <$> ["service_name"; "ownership"; "status_mode"; "lifecycle_state"; "health";
    "pid_inspection_enabled"; "process_listing_enabled"; "command_line_exposed"; "environment_exposed";
    "command_execution_enabled"; "mutation_enabled"]%string.
Definition PROJECT_SERVICE_STATUS_DENIED_FIELDS : list bytes :=
  bs <$> ["pid"; "ppid"; "uid"; "gid"; "processes"; "process_list"; "process_inventory"; "command"; "cmd";
    "cmdline"; "command_line"; "argv"; "args"; "environment"; "env"; "cwd"; "exe"; "open_files";
    "sockets"; "ports"; "package_name"; "installed_packages"; "android_services"; "system_services";
    "unit_name"; "service_file"; "logs"; "stdout"; "stderr"; "restart"; "stop"; "start"; "kill"]%string.

Record ProjectServiceStatus := mkService {
  service_name : bytes; ownership : bytes; status_mode : bytes; lifecycle_state : bytes; health : bytes;
  pid_inspection_enabled : bool; process_listing_enabled : bool; command_line_exposed : bool;
  environment_exposed : bool; command_execution_enabled : bool; mutation_enabled : bool }.
Record UnsupportedProjectService := mkUnsupported {
  error : bytes; requested_service : bytes; allowed_services : list bytes }.
Inductive ProjectServiceStatusError := UnsupportedService (requested_service : bytes).

Definition collect_project_service_status (name : bytes)
    : Result ProjectServiceStatusError ProjectServiceStatus :=
  if bytes_eqb name (bs "mcp_runtime")
  then Ok (mkService (bs "mcp_runtime") (bs "project_owned_allowlisted")
         (bs "read_only_project_service_status") (bs "available_in_process")
         (bs "transport_runtime_available") false false false false false false)
  else Err (UnsupportedService name).
Definition unsupported_project_service_error (name : bytes) : UnsupportedProjectService :=
  mkUnsupported (bs "unsupported_project_service") name PROJECT_SERVICE_ALLOWLIST.

Definition project_service_status_value (r : ProjectServiceStatus) : Json :=
  JObject [(bs "service_name", JString (service_name r)); (bs "ownership", JString (ownership r));
    (bs "status_mode", JString (status_mode r)); (bs "lifecycle_state", JString (lifecycle_state r));
    (bs "health", JString (health r));
    (bs "pid_inspection_enabled", JBool (pid_inspection_enabled r));
    (bs "process_listing_enabled", JBool (process_listing_enabled r));
    (bs "command_line_exposed", JBool (command_line_exposed r));
    (bs "environment_exposed", JBool (environment_exposed r));
    (bs "command_execution_enabled", JBool (command_execution_enabled r));
    (bs "mutation_enabled", JBool (mutation_enabled r))].
End ProjectService.

(** ** What the statuses say *)

Module StatusTools.
Definition keys (value : Json) : list bytes := match value with JObject members => members.*1 | _ => [] end.

(** The status tools say what their allow-lists say, and nothing is asked of
    the device.  The JSON of the Android status and of a project service has
    exactly the fields of its allow-list, and none of its deny-list; the Android
    status never claims control, a shell or high-impact tools, and repeats the
    posture of command execution; a service has a status exactly when it is on
    the allow-list, and that status claims no inspection, execution or mutation. *)
Theorem status_fields_exact `{Build} (command_execution_enabled : bool) (name : bytes) :
  let status := AndroidStatus.collect_android_status command_execution_enabled in
  keys (AndroidStatus.android_status_value status) = AndroidStatus.ANDROID_STATUS_ALLOWED_FIELDS ∧
  (∀ k, k ∈ keys (AndroidStatus.android_status_value status) → k ∉ AndroidStatus.ANDROID_STATUS_DENIED_FIELDS) ∧
  AndroidStatus.android_control_enabled status = false ∧
  AndroidStatus.shell_fallback_enabled status = false ∧
  AndroidStatus.high_impact_controls_enabled status = false ∧
  AndroidStatus.command_execution_enabled status = command_execution_enabled ∧
  match ProjectService.collect_project_service_status name with
  | Ok service =>
    name ∈ ProjectService.PROJECT_SERVICE_ALLOWLIST ∧ ProjectService.service_name service = name ∧
    keys (ProjectService.project_service_status_value service)
      = ProjectService.PROJECT_SERVICE_STATUS_ALLOWED_FIELDS ∧
    (∀ k, k ∈ keys (ProjectService.project_service_status_value service) →
       k ∉ ProjectService.PROJECT_SERVICE_STATUS_DENIED_FIELDS) ∧
    ProjectService.pid_inspection_enabled service = false ∧
    ProjectService.command_execution_enabled service = false ∧
    ProjectService.mutation_enabled service = false
  | Err (ProjectService.UnsupportedService requested) =>
    name ∉ ProjectService.PROJECT_SERVICE_ALLOWLIST ∧ requested = name
  end.
Proof.
  assert (∀ fields denied : list bytes, forallb (λ k, negb (contains denied k)) fields = true →
    ∀ k, k ∈ fields → k ∉ denied) as Hdisjoint.
  { intros fields denied Hf k Hk Hd. rewrite List.forallb_forall in Hf. apply list_elem_of_In in Hk.
    specialize (Hf k Hk). apply contains_true in Hd. by rewrite Hd in Hf. }
  simpl. split_and!; try done.
  { apply Hdisjoint. vm_compute. reflexivity. }
  unfold ProjectService.collect_project_service_status, bytes_eqb.
  case_bool_decide as Hn; simpl.
  - split_and!; try done; [rewrite Hn; apply list_elem_of_here|].
    apply Hdisjoint. vm_compute. reflexivity.
  - split; [|done]. intros [?|?%not_elem_of_nil]%elem_of_cons; done.
Qed.
End StatusTools.
