(* ===== verification/McpReadTools.v ===== *)
(** * Reading tools of the transport

    [src/src/mcp_transport.rs], the handlers that look at the filesystem: arguments,
    bounds on the response, the call of [FileSystemTools], and one audit event for
    every answer. *)

From S2P Require Import Prelude RustStd RustPath Http RequestGrantCapability GrantToken AppErrors AuditEvents JsonRpc.
From S2P Require Import AndroidBattery FsCalls SafeRoots FsPrepare FsReads FsTraverse MutationWorkers.
From S2P Require Import McpResponses McpArguments McpCalls.

Module McpReadTools.
Import AppErrors SafeRoots FsPrepare FsReads FsTraverse MutationWorkers McpResponses McpArguments McpLabels McpCalls.

Definition MIN_LIST_DIRECTORY_DEPTH : N := 1.
Definition MAX_LIST_DIRECTORY_DEPTH : N := 5.
Definition MAX_FIND_STRUCTURED_CONTENT_BYTES : N := MAX_FIND_RESPONSE_BYTES - 1024.
Definition MAX_BINARY_READ_BASE64_BYTES : N := 1398104.
Definition MAX_BINARY_RANGE_BASE64_BYTES : N := 349528.
Definition MAX_TEXT_RANGE_ESCAPED_BYTES : N := MAX_TEXT_RANGE_BYTES * 6.

Definition PATH_OUTSIDE : bytes := bs "Path is outside the configured filesystem safe roots.".
Definition SAFE_ROOT_FAILED : bytes :=
  bs "Filesystem safe-root validation failed: requested path is outside the configured safe roots.".

(** [str::chars().any(..)] for ASCII characters. *)
Definition has_char (chars : list N) (s : bytes) : bool :=
  existsb (λ b, existsb (N.eqb (byte_val b)) chars) s.
Definition print_nat (n : nat) : bytes := print_N (N.of_nat n).

Section reads.
Context {F : Float64} {FM : FileModes} {C : Crypto} {T : Chrono} {JL : JsonLength} {L : HttpLib} {JT : JsonText}.

(** ** The parts the handlers share *)

Definition denied_read (tool gate reason : bytes) (response : Response) : handler Response :=
  _ ← record_filesystem_denied tool gate Audit.ReadOnly reason;
  mret response.
Definition read_arguments {A} (tool gate : bytes) (id : option Json) (decode : Json → option A) (missing : bytes)
    (arguments : option Json) (k : A → handler Response) : handler Response :=
  match arguments with
  | None => denied_read tool gate FILESYSTEM_MISSING_ARGUMENTS (invalid_params id missing)
  | Some arguments =>
    match decode arguments with
    | None => denied_read tool gate FILESYSTEM_INVALID_ARGUMENTS (invalid_params id TOOL_ARGUMENTS_INVALID)
    | Some args => k args
    end
  end.
Definition finish_read (tool gate allowed : bytes) (id : option Json) (summary : bytes) (value : Json) (limit : N)
    (message : bytes) : handler Response :=
  match bounded_ok_result id summary value limit with
  | None => denied_read tool gate FILESYSTEM_RESPONSE_TOO_LARGE (bounded_payload_too_large id message limit)
  | Some response =>
    _ ← record_filesystem_allowed tool gate Audit.ReadOnly allowed;
    mret response
  end.
Definition depth_guard (tool gate : bytes) (id : option Json) (low high : N) (argument : bytes) (max_depth : option N)
    (k : handler Response) : handler Response :=
  match max_depth with
  | Some depth =>
    if negb ((low <=? depth)%N && (depth <=? high)%N)
    then denied_read tool gate FILESYSTEM_INVALID_DEPTH
           (invalid_params id (argument ++ bs ".max_depth must be between " ++ print_N low ++ bs " and "
              ++ print_N high ++ bs "."))
    else k
  | None => k
  end.

(** ** Metadata, files and ranges *)

Definition handle_path_metadata_call (id arguments : option Json) (file_tools : PinnedSafeRootSet) : handler Response :=
  read_arguments PATH_METADATA_TOOL FILESYSTEM_METADATA_GATE id decode_path_metadata
    (bs "path_metadata requires a path argument.") arguments (λ args,
  result ← ask (Look _ (path_metadata file_tools args));
  match result with
  | Ok result =>
    finish_read PATH_METADATA_TOOL FILESYSTEM_METADATA_GATE FILESYSTEM_METADATA_ALLOWED id
      (bs "Read bounded metadata for one safe-rooted filesystem object.")
      (path_metadata_value result) MAX_PATH_METADATA_RESPONSE_BYTES
      (bs "Filesystem metadata exceeds the staged response byte limit.")
  | Err (PathTraversal _) =>
    denied_read PATH_METADATA_TOOL FILESYSTEM_METADATA_GATE FILESYSTEM_SAFE_ROOT_REJECTED
      (invalid_params id SAFE_ROOT_FAILED)
  | Err PathNotFound =>
    denied_read PATH_METADATA_TOOL FILESYSTEM_METADATA_GATE FILESYSTEM_METADATA_NOT_FOUND
      (invalid_params id (bs "Filesystem object does not exist."))
  | Err UnsupportedPathType =>
    denied_read PATH_METADATA_TOOL FILESYSTEM_METADATA_GATE FILESYSTEM_METADATA_UNSUPPORTED
      (invalid_params id (bs "Filesystem object type is not supported."))
  | Err _ =>
    denied_read PATH_METADATA_TOOL FILESYSTEM_METADATA_GATE FILESYSTEM_METADATA_FAILED (internal_error id (bs "Filesystem metadata lookup failed."))
  end).

(** A response envelope with room for [content] more bytes. *)
Definition envelope_fits (id : option Json) (summary : bytes) (structured : Json) (content limit : N) : bool :=
  (json_len (result_body id summary structured) + content <=? limit)%N.
Definition binary_read_success_envelope_fits (id : option Json) : bool :=
  envelope_fits id
    (bs "Read and base64-encoded " ++ print_N MAX_BINARY_READ_BYTES
       ++ bs " bytes from one safe-rooted regular file.")
    (JObject [(bs "encoding", jstr "base64"); (bs "data", jstr ""); (bs "sizeBytes", jnum MAX_BINARY_READ_BYTES);
       (bs "maxFileBytes", jnum MAX_BINARY_READ_BYTES);
       (bs "maxResponseBytes", jnum MAX_BINARY_READ_RESPONSE_BYTES)])
    MAX_BINARY_READ_BASE64_BYTES MAX_BINARY_READ_RESPONSE_BYTES.

Definition handle_read_binary_file_call (id arguments : option Json) (file_tools : PinnedSafeRootSet) : handler Response :=
  if negb (binary_read_success_envelope_fits id) then
    denied_read READ_BINARY_FILE_TOOL FILESYSTEM_READ_GATE FILESYSTEM_RESPONSE_TOO_LARGE
      (bounded_payload_too_large id (bs "Binary file response exceeds the staged read_binary_file response byte limit.")
         MAX_BINARY_READ_RESPONSE_BYTES)
  else
  read_arguments READ_BINARY_FILE_TOOL FILESYSTEM_READ_GATE id decode_read_binary_file
    (bs "read_binary_file requires a path argument.") arguments (λ args,
  result ← ask (Look _ (read_binary_file file_tools args));
  match result with
  | Ok result =>
    finish_read READ_BINARY_FILE_TOOL FILESYSTEM_READ_GATE FILESYSTEM_BINARY_READ_ALLOWED id
      (bs "Read and base64-encoded " ++ print_N (rb_size_bytes result)
         ++ bs " bytes from one safe-rooted regular file.")
      (read_binary_file_value result) MAX_BINARY_READ_RESPONSE_BYTES
      (bs "Binary file response exceeds the staged read_binary_file response byte limit.")
  | Err (PathTraversal _) =>
    denied_read READ_BINARY_FILE_TOOL FILESYSTEM_READ_GATE FILESYSTEM_SAFE_ROOT_REJECTED
      (invalid_params id PATH_OUTSIDE)
  | Err PathNotFound =>
    denied_read READ_BINARY_FILE_TOOL FILESYSTEM_READ_GATE FILESYSTEM_BINARY_READ_NOT_FOUND
      (invalid_params id (bs "Binary file does not exist."))
  | Err UnsupportedPathType =>
    denied_read READ_BINARY_FILE_TOOL FILESYSTEM_READ_GATE FILESYSTEM_BINARY_READ_UNSUPPORTED
      (invalid_params id (bs "Binary read target must be one regular file."))
  | Err (FileTooLarge _ _) =>
    denied_read READ_BINARY_FILE_TOOL FILESYSTEM_READ_GATE FILESYSTEM_BINARY_READ_TOO_LARGE
      (payload_too_large id (bs "Binary file exceeds the staged read_binary_file byte limit."))
  | Err _ =>
    denied_read READ_BINARY_FILE_TOOL FILESYSTEM_READ_GATE FILESYSTEM_BINARY_READ_FAILED (internal_error id (bs "Binary file read failed."))
  end).

Definition binary_range_success_envelope_fits (id : option Json) : bool :=
  envelope_fits id
    (bs "Read and base64-encoded " ++ print_N MAX_BINARY_RANGE_BYTES
       ++ bs " bytes from one bounded safe-rooted file range.")
    (JObject [(bs "encoding", jstr "base64"); (bs "data", jstr "");
       (bs "offsetBytes", jnum MAX_BINARY_RANGE_FILE_BYTES); (bs "sizeBytes", jnum MAX_BINARY_RANGE_BYTES);
       (bs "fileSizeBytes", jnum MAX_BINARY_RANGE_FILE_BYTES); (bs "eof", JBool false);
       (bs "maxReadBytes", jnum MAX_BINARY_RANGE_BYTES); (bs "maxFileBytes", jnum MAX_BINARY_RANGE_FILE_BYTES);
       (bs "maxResponseBytes", jnum MAX_BINARY_RANGE_RESPONSE_BYTES)])
    MAX_BINARY_RANGE_BASE64_BYTES MAX_BINARY_RANGE_RESPONSE_BYTES.

Definition handle_read_binary_range_call (id arguments : option Json) (file_tools : PinnedSafeRootSet) : handler Response :=
  if negb (binary_range_success_envelope_fits id) then
    denied_read READ_BINARY_RANGE_TOOL FILESYSTEM_READ_GATE FILESYSTEM_RESPONSE_TOO_LARGE
      (bounded_payload_too_large id (bs "Binary range response exceeds the staged read_binary_range response byte limit.")
         MAX_BINARY_RANGE_RESPONSE_BYTES)
  else
  read_arguments READ_BINARY_RANGE_TOOL FILESYSTEM_READ_GATE id decode_read_binary_range
    (bs "read_binary_range requires path, offset_bytes, and length_bytes arguments.") arguments (λ args,
  result ← ask (Look _ (read_binary_range file_tools (range_path args) (range_offset args) (range_bytes args)));
  match result with
  | Ok result =>
    finish_read READ_BINARY_RANGE_TOOL FILESYSTEM_READ_GATE FILESYSTEM_BINARY_RANGE_ALLOWED id
      (bs "Read and base64-encoded " ++ print_N (br_size_bytes result)
         ++ bs " bytes from one bounded safe-rooted file range.")
      (read_binary_range_value result) MAX_BINARY_RANGE_RESPONSE_BYTES
      (bs "Binary range response exceeds the staged read_binary_range response byte limit.")
  | Err (PathTraversal _) =>
    denied_read READ_BINARY_RANGE_TOOL FILESYSTEM_READ_GATE FILESYSTEM_SAFE_ROOT_REJECTED
      (invalid_params id PATH_OUTSIDE)
  | Err PathNotFound =>
    denied_read READ_BINARY_RANGE_TOOL FILESYSTEM_READ_GATE FILESYSTEM_BINARY_RANGE_NOT_FOUND
      (invalid_params id (bs "Binary range file does not exist."))
  | Err UnsupportedPathType =>
    denied_read READ_BINARY_RANGE_TOOL FILESYSTEM_READ_GATE FILESYSTEM_BINARY_RANGE_UNSUPPORTED
      (invalid_params id (bs "Binary range target must be one regular file."))
  | Err InvalidBinaryRange =>
    denied_read READ_BINARY_RANGE_TOOL FILESYSTEM_READ_GATE FILESYSTEM_BINARY_RANGE_INVALID
      (invalid_params id INVALID_BINARY_RANGE_PUBLIC_MESSAGE)
  | Err (FileTooLarge _ _) =>
    denied_read READ_BINARY_RANGE_TOOL FILESYSTEM_READ_GATE FILESYSTEM_BINARY_RANGE_TOO_LARGE
      (payload_too_large id (bs "Binary range file exceeds the staged file byte limit."))
  | Err FileChangedDuringRead =>
    denied_read READ_BINARY_RANGE_TOOL FILESYSTEM_READ_GATE FILESYSTEM_BINARY_RANGE_CHANGED
      (resource_changed id (bs "Binary range file changed during the bounded read."))
  | Err _ =>
    denied_read READ_BINARY_RANGE_TOOL FILESYSTEM_READ_GATE FILESYSTEM_BINARY_RANGE_FAILED (internal_error id (bs "Binary range read failed."))
  end).

Definition text_range_success_envelope_fits (id : option Json) : bool :=
  envelope_fits id
    (bs "Read " ++ print_N MAX_TEXT_RANGE_BYTES ++ bs " UTF-8 bytes from one bounded safe-rooted file range.")
    (JObject [(bs "content", jstr ""); (bs "offsetBytes", jnum MAX_TEXT_RANGE_FILE_BYTES);
       (bs "nextOffsetBytes", jnum MAX_TEXT_RANGE_FILE_BYTES); (bs "sizeBytes", jnum MAX_TEXT_RANGE_BYTES);
       (bs "fileSizeBytes", jnum MAX_TEXT_RANGE_FILE_BYTES); (bs "eof", JBool false);
       (bs "maxReadBytes", jnum MAX_TEXT_RANGE_BYTES); (bs "maxFileBytes", jnum MAX_TEXT_RANGE_FILE_BYTES);
       (bs "maxResponseBytes", jnum MAX_TEXT_RANGE_RESPONSE_BYTES)])
    MAX_TEXT_RANGE_ESCAPED_BYTES MAX_TEXT_RANGE_RESPONSE_BYTES.

Definition handle_read_text_range_call (id arguments : option Json) (file_tools : PinnedSafeRootSet) : handler Response :=
  if negb (text_range_success_envelope_fits id) then
    denied_read READ_TEXT_RANGE_TOOL FILESYSTEM_READ_GATE FILESYSTEM_RESPONSE_TOO_LARGE
      (bounded_payload_too_large id (bs "Text range response exceeds the staged read_text_range response byte limit.")
         MAX_TEXT_RANGE_RESPONSE_BYTES)
  else
  read_arguments READ_TEXT_RANGE_TOOL FILESYSTEM_READ_GATE id decode_read_text_range
    (bs "read_text_range requires path, offset_bytes, and max_bytes arguments.") arguments (λ args,
  result ← ask (Look _ (read_text_range file_tools (range_path args) (range_offset args) (range_bytes args)));
  match result with
  | Ok result =>
    finish_read READ_TEXT_RANGE_TOOL FILESYSTEM_READ_GATE FILESYSTEM_TEXT_RANGE_ALLOWED id
      (bs "Read " ++ print_N (tr_size_bytes result) ++ bs " UTF-8 bytes from one bounded safe-rooted file range.")
      (read_text_range_value result) MAX_TEXT_RANGE_RESPONSE_BYTES
      (bs "Text range response exceeds the staged read_text_range response byte limit.")
  | Err (PathTraversal _) =>
    denied_read READ_TEXT_RANGE_TOOL FILESYSTEM_READ_GATE FILESYSTEM_SAFE_ROOT_REJECTED
      (invalid_params id PATH_OUTSIDE)
  | Err PathNotFound =>
    denied_read READ_TEXT_RANGE_TOOL FILESYSTEM_READ_GATE FILESYSTEM_TEXT_RANGE_NOT_FOUND
      (invalid_params id (bs "Text range file does not exist."))
  | Err UnsupportedPathType =>
    denied_read READ_TEXT_RANGE_TOOL FILESYSTEM_READ_GATE FILESYSTEM_TEXT_RANGE_UNSUPPORTED
      (invalid_params id (bs "Text range target must be one regular file."))
  | Err InvalidTextRange =>
    denied_read READ_TEXT_RANGE_TOOL FILESYSTEM_READ_GATE FILESYSTEM_TEXT_RANGE_INVALID
      (invalid_params id INVALID_TEXT_RANGE_PUBLIC_MESSAGE)
  | Err (FileTooLarge _ _) =>
    denied_read READ_TEXT_RANGE_TOOL FILESYSTEM_READ_GATE FILESYSTEM_TEXT_RANGE_TOO_LARGE
      (payload_too_large id (bs "Text range file exceeds the staged file byte limit."))
  | Err InvalidFileEncoding =>
    denied_read READ_TEXT_RANGE_TOOL FILESYSTEM_READ_GATE FILESYSTEM_TEXT_RANGE_ENCODING_INVALID
      (invalid_params id (bs "Selected text range must contain valid UTF-8."))
  | Err FileChangedDuringRead =>
    denied_read READ_TEXT_RANGE_TOOL FILESYSTEM_READ_GATE FILESYSTEM_TEXT_RANGE_CHANGED
      (resource_changed id (bs "Text range file changed during the bounded read."))
  | Err _ =>
    denied_read READ_TEXT_RANGE_TOOL FILESYSTEM_READ_GATE FILESYSTEM_TEXT_RANGE_FAILED (internal_error id (bs "Text range read failed."))
  end).

Definition handle_read_file_call (id arguments : option Json) (file_tools : PinnedSafeRootSet) : handler Response :=
  read_arguments READ_FILE_TOOL FILESYSTEM_READ_GATE id decode_read_file
    (bs "read_file requires a path argument.") arguments (λ args,
  result ← ask (Look _ (read_file file_tools args));
  match result with
  | Ok result =>
    finish_read READ_FILE_TOOL FILESYSTEM_READ_GATE FILESYSTEM_READ_ALLOWED id
      (bs "Read " ++ print_N (rf_size result) ++ bs " UTF-8 bytes from a safe-rooted file.")
      (read_file_value result) MAX_READ_RESPONSE_BYTES
      (bs "File content exceeds the staged read_file response byte limit.")
  | Err (PathTraversal _) =>
    denied_read READ_FILE_TOOL FILESYSTEM_READ_GATE FILESYSTEM_SAFE_ROOT_REJECTED
      (invalid_params id SAFE_ROOT_FAILED)
  | Err (FileTooLarge _ _) =>
    denied_read READ_FILE_TOOL FILESYSTEM_READ_GATE FILESYSTEM_READ_TOO_LARGE
      (payload_too_large id (bs "File content exceeds the staged read_file byte limit."))
  | Err InvalidFileEncoding =>
    denied_read READ_FILE_TOOL FILESYSTEM_READ_GATE FILESYSTEM_READ_ENCODING_INVALID
      (invalid_params id (bs "File content must be valid UTF-8."))
  | Err _ =>
    denied_read READ_FILE_TOOL FILESYSTEM_READ_GATE FILESYSTEM_READ_FAILED (internal_error id (bs "Filesystem read failed."))
  end).

(** [bounded_ok_result(..).is_some()]. *)
Definition response_fits (id : option Json) (summary : bytes) (value : Json) (limit : N) : bool :=
  match bounded_ok_result id summary value limit with Some _ => true | None => false end.
Definition hash_success_fits (id : option Json) : bool :=
  response_fits id
    (bs "Computed a SHA-256 digest for " ++ print_N MAX_HASH_FILE_BYTES
       ++ bs " bytes from one safe-rooted regular file.")
    (JObject [(bs "algorithm", jstr "sha256"); (bs "digest", JString (replicate 64 (byte_of 102)));
       (bs "sizeBytes", jnum MAX_HASH_FILE_BYTES)])
    MAX_HASH_FILE_RESPONSE_BYTES.

Definition handle_hash_file_call (id arguments : option Json) (file_tools : PinnedSafeRootSet) : handler Response :=
  if negb (hash_success_fits id) then
    denied_read HASH_FILE_TOOL FILESYSTEM_READ_GATE FILESYSTEM_RESPONSE_TOO_LARGE
      (bounded_payload_too_large id (bs "File digest response exceeds the staged hash_file response byte limit.")
         MAX_HASH_FILE_RESPONSE_BYTES)
  else
  read_arguments HASH_FILE_TOOL FILESYSTEM_READ_GATE id decode_hash_file
    (bs "hash_file requires a path argument.") arguments (λ args,
  result ← ask (Look _ (hash_file file_tools args));
  match result with
  | Ok result =>
    finish_read HASH_FILE_TOOL FILESYSTEM_READ_GATE FILESYSTEM_HASH_ALLOWED id
      (bs "Computed a SHA-256 digest for " ++ print_N (hf_size_bytes result)
         ++ bs " bytes from one safe-rooted regular file.")
      (hash_file_value result) MAX_HASH_FILE_RESPONSE_BYTES
      (bs "File digest response exceeds the staged hash_file response byte limit.")
  | Err (PathTraversal _) =>
    denied_read HASH_FILE_TOOL FILESYSTEM_READ_GATE FILESYSTEM_SAFE_ROOT_REJECTED
      (invalid_params id SAFE_ROOT_FAILED)
  | Err PathNotFound =>
    denied_read HASH_FILE_TOOL FILESYSTEM_READ_GATE FILESYSTEM_HASH_NOT_FOUND
      (invalid_params id (bs "Filesystem hash target does not exist."))
  | Err UnsupportedPathType =>
    denied_read HASH_FILE_TOOL FILESYSTEM_READ_GATE FILESYSTEM_HASH_UNSUPPORTED
      (invalid_params id (bs "Filesystem hash target must be a regular file."))
  | Err (FileTooLarge _ _) =>
    denied_read HASH_FILE_TOOL FILESYSTEM_READ_GATE FILESYSTEM_HASH_TOO_LARGE
      (payload_too_large id (bs "File exceeds the staged hash_file byte limit."))
  | Err _ =>
    denied_read HASH_FILE_TOOL FILESYSTEM_READ_GATE FILESYSTEM_HASH_FAILED (internal_error id (bs "Filesystem hashing failed."))
  end).

(** ** Traversals *)

(** A summary that says when the result was cut. *)
Definition summarized (count : nat) (before after truncated : bytes) (cut : bool) : bytes :=
  before ++ print_nat count ++ after ++ (if cut then truncated else bs ".").

Definition handle_list_directory_call (id arguments : option Json) (file_tools : PinnedSafeRootSet) : handler Response :=
  read_arguments LIST_DIRECTORY_TOOL FILESYSTEM_READ_GATE id decode_list_directory
    (bs "list_directory requires a path argument.") arguments (λ args,
  depth_guard LIST_DIRECTORY_TOOL FILESYSTEM_READ_GATE id MIN_LIST_DIRECTORY_DEPTH MAX_LIST_DIRECTORY_DEPTH
    (bs "list_directory") (list_max_depth args) (
  result ← ask (Look _ (list_directory file_tools (list_path args) (list_max_depth args)));
  match result with
  | Ok result =>
    finish_read LIST_DIRECTORY_TOOL FILESYSTEM_READ_GATE FILESYSTEM_LIST_ALLOWED id
      (summarized (length (ld_entries result)) (bs "Listed ") (bs " safe-rooted filesystem entries")
         (bs "; the bounded result was truncated.") (ld_truncated result))
      (list_dir_value result) MAX_LIST_RESPONSE_BYTES
      (bs "Directory listing exceeds the staged response byte limit.")
  | Err (PathTraversal _) =>
    denied_read LIST_DIRECTORY_TOOL FILESYSTEM_READ_GATE FILESYSTEM_SAFE_ROOT_REJECTED
      (invalid_params id SAFE_ROOT_FAILED)
  | Err _ =>
    denied_read LIST_DIRECTORY_TOOL FILESYSTEM_READ_GATE FILESYSTEM_READ_FAILED (internal_error id (bs "Filesystem operation failed."))
  end)).

Definition find_paths_success_envelope_fits (id : option Json) : bool :=
  let structured := JObject
    [(bs "path", jstr ""); (bs "matches", JArray []); (bs "truncated", JBool true);
     (bs "entriesExamined", jnum MAX_FIND_ENTRIES); (bs "skippedInvalidUtf8Entries", jnum MAX_FIND_ENTRIES);
     (bs "skippedUnsafeEntries", jnum MAX_FIND_ENTRIES); (bs "skippedUnreadableEntries", jnum MAX_FIND_ENTRIES);
     (bs "queryBytes", jnum MAX_FIND_QUERY_BYTES); (bs "kindFilter", jstr "regular_file");
     (bs "maxDepth", jnum MAX_FIND_DEPTH); (bs "maxEntries", jnum MAX_FIND_ENTRIES);
     (bs "maxMatches", jnum MAX_FIND_MATCHES); (bs "maxResponseBytes", jnum MAX_FIND_RESPONSE_BYTES)] in
  if (MAX_FIND_STRUCTURED_CONTENT_BYTES <? json_len structured)%N then false
  else envelope_fits id
    (bs "Located " ++ print_N MAX_FIND_MATCHES
       ++ bs " safe-rooted literal basename matches; the bounded discovery was truncated.")
    structured (MAX_FIND_STRUCTURED_CONTENT_BYTES - json_len structured) MAX_FIND_RESPONSE_BYTES.
Definition query_refused (max_bytes : N) (chars : list N) (query : bytes) : bool :=
  bytes_eqb query [] || (max_bytes <? N.of_nat (length query))%N || has_char chars query.

Definition handle_find_paths_call (id arguments : option Json) (file_tools : PinnedSafeRootSet) : handler Response :=
  if negb (find_paths_success_envelope_fits id) then
    denied_read FIND_PATHS_TOOL FILESYSTEM_READ_GATE FILESYSTEM_RESPONSE_TOO_LARGE
      (bounded_payload_too_large id (bs "Path-discovery response exceeds the staged find_paths response byte limit.")
         MAX_FIND_RESPONSE_BYTES)
  else
  read_arguments FIND_PATHS_TOOL FILESYSTEM_READ_GATE id decode_find_paths
    (bs "find_paths requires path and query arguments.") arguments (λ args,
  if query_refused MAX_FIND_QUERY_BYTES [0; 10; 13; 47]%N (find_query args) then
    denied_read FIND_PATHS_TOOL FILESYSTEM_READ_GATE FILESYSTEM_FIND_INVALID_QUERY
      (invalid_params id (bs "find_paths.query must be one non-empty literal basename substring of at most "
         ++ print_N MAX_FIND_QUERY_BYTES ++ bs " UTF-8 bytes."))
  else depth_guard FIND_PATHS_TOOL FILESYSTEM_READ_GATE id MIN_FIND_DEPTH MAX_FIND_DEPTH
    (bs "find_paths") (find_max_depth args) (
  result ← ask (Look _ (find_paths file_tools (find_path args) (find_query args) (find_kind args) (find_max_depth args)));
  match result with
  | Ok result =>
    finish_read FIND_PATHS_TOOL FILESYSTEM_READ_GATE FILESYSTEM_FIND_ALLOWED id
      (summarized (length (fr_matches result)) (bs "Located ") (bs " safe-rooted literal basename matches")
         (bs "; the bounded discovery was truncated.") (fr_truncated result))
      (find_paths_value result) MAX_FIND_RESPONSE_BYTES
      (bs "Path-discovery results exceed the staged find_paths response byte limit.")
  | Err (PathTraversal _) =>
    denied_read FIND_PATHS_TOOL FILESYSTEM_READ_GATE FILESYSTEM_SAFE_ROOT_REJECTED
      (invalid_params id SAFE_ROOT_FAILED)
  | Err InvalidFindQuery =>
    denied_read FIND_PATHS_TOOL FILESYSTEM_READ_GATE FILESYSTEM_FIND_INVALID_QUERY
      (invalid_params id (bs "Path-discovery query does not satisfy the literal basename contract."))
  | Err _ =>
    denied_read FIND_PATHS_TOOL FILESYSTEM_READ_GATE FILESYSTEM_FIND_FAILED (internal_error id (bs "Filesystem path discovery failed."))
  end)).

Definition handle_search_text_call (id arguments : option Json) (file_tools : PinnedSafeRootSet) : handler Response :=
  read_arguments SEARCH_TEXT_TOOL FILESYSTEM_READ_GATE id decode_search_text
    (bs "search_text requires path and query arguments.") arguments (λ args,
  if query_refused MAX_SEARCH_QUERY_BYTES [0; 10; 13]%N (search_query args) then
    denied_read SEARCH_TEXT_TOOL FILESYSTEM_READ_GATE FILESYSTEM_SEARCH_INVALID_QUERY
      (invalid_params id (bs "search_text.query must be one non-empty line of at most "
         ++ print_N MAX_SEARCH_QUERY_BYTES ++ bs " UTF-8 bytes."))
  else depth_guard SEARCH_TEXT_TOOL FILESYSTEM_READ_GATE id MIN_SEARCH_DEPTH MAX_SEARCH_DEPTH
    (bs "search_text") (search_max_depth args) (
  result ← ask (Look _ (search_text file_tools (search_path args) (search_query args) (search_max_depth args)));
  match result with
  | Ok result =>
    finish_read SEARCH_TEXT_TOOL FILESYSTEM_READ_GATE FILESYSTEM_SEARCH_ALLOWED id
      (summarized (length (sr_matches result)) (bs "Located ") (bs " safe-rooted literal text matches")
         (bs "; the bounded search was truncated.") (sr_truncated result))
      (search_text_value result) MAX_SEARCH_RESPONSE_BYTES
      (bs "Text-search results exceed the staged response byte limit.")
  | Err (PathTraversal _) =>
    denied_read SEARCH_TEXT_TOOL FILESYSTEM_READ_GATE FILESYSTEM_SAFE_ROOT_REJECTED
      (invalid_params id SAFE_ROOT_FAILED)
  | Err InvalidSearchQuery =>
    denied_read SEARCH_TEXT_TOOL FILESYSTEM_READ_GATE FILESYSTEM_SEARCH_INVALID_QUERY
      (invalid_params id (bs "Search query does not satisfy the literal text-search contract."))
  | Err _ =>
    denied_read SEARCH_TEXT_TOOL FILESYSTEM_READ_GATE FILESYSTEM_SEARCH_FAILED (internal_error id (bs "Filesystem search failed."))
  end)).

End reads.
End McpReadTools.
