(* ===== verification/McpDeviceTools.v ===== *)
(** * Status and device tools of the transport

    [src/src/mcp_transport.rs], the handlers that report the posture of the
    process, ask a device provider, change an audio stream or run a reviewed
    command.  What a build leaves out is decided by its cargo features. *)

From S2P Require Import Prelude RustStd RustPath Http RequestGrantCapability GrantToken AppErrors AuditEvents JsonRpc.
From S2P Require Import BoundedProcess AndroidVolumeGrant AndroidVolumeControl AndroidBattery CommandPolicy.
From S2P Require Import CommandExecution Config FsCalls SafeRoots FsPrepare FsReads FsTraverse MutationWorkers.
From S2P Require Import StatusTools McpResponses McpArguments McpCalls.

Module McpDeviceTools.
Import FsTraverse MutationWorkers McpResponses McpArguments McpLabels McpCalls.

Section tools.
Context {F : Float64} {FM : FileModes} {C : Crypto} {T : Chrono} {JL : JsonLength} {L : HttpLib} {JT : JsonText}.
Context {B : Build} (features : Config.Features).

Definition denied_tool (tool gate reason : bytes) (response : Response) : handler Response :=
  _ ← record_read_only_denied tool gate reason;
  mret response.
Definition allowed_tool (tool gate reason : bytes) (response : Response) : handler Response :=
  _ ← record_read_only_allowed tool gate reason;
  mret response.

(** ** Tools without arguments *)

Record NoArgumentToolContract := mkContract {
  nc_tool_name : bytes;
  nc_gate_name : bytes;
  nc_allowed_reason : bytes;
  nc_denied_reason : bytes;
  response_builder : option Json → bool → handler Response;
}.
Definition handle_no_argument_tool_call (id : option Json) (arguments : ToolArguments)
    (command_execution_enabled : bool) (contract : NoArgumentToolContract) : handler Response :=
  if negb (is_omitted_or_empty_object arguments) then
    denied_tool (nc_tool_name contract) (nc_gate_name contract) (nc_denied_reason contract)
      (invalid_params id TOOL_ARGUMENTS_INVALID)
  else
    _ ← record_read_only_allowed (nc_tool_name contract) (nc_gate_name contract) (nc_allowed_reason contract);
    response_builder contract id command_execution_enabled.

Definition print_bool (b : bool) : bytes := if b then bs "true" else bs "false".

Definition platform_info_response (id : option Json) (_ : bool) : handler Response :=
  parallelism ← ask AvailableParallelism;
  let info := PlatformInfo.collect_platform_info parallelism in
  mret (ok_result id
    (bs "platform_info: os=" ++ PlatformInfo.os info ++ bs ", arch=" ++ PlatformInfo.arch info
       ++ bs ", family=" ++ PlatformInfo.family info ++ bs ", parallelism="
       ++ print_N (PlatformInfo.available_parallelism info) ++ bs ", version="
       ++ PlatformInfo.package_version info)
    (PlatformInfo.platform_info_value info)).
Definition android_status_response (id : option Json) (command_execution_enabled : bool) : handler Response :=
  let status := AndroidStatus.collect_android_status command_execution_enabled in
  mret (ok_result id
    (bs "android_status: mode=" ++ AndroidStatus.status_mode status
       ++ bs ", target_os=" ++ AndroidStatus.target_os status
       ++ bs ", target_arch=" ++ AndroidStatus.target_arch status
       ++ bs ", android_api_access=" ++ AndroidStatus.android_api_access status
       ++ bs ", android_control_enabled=" ++ print_bool (AndroidStatus.android_control_enabled status)
       ++ bs ", shell_fallback_enabled=" ++ print_bool (AndroidStatus.shell_fallback_enabled status)
       ++ bs ", command_execution_enabled=" ++ print_bool (AndroidStatus.command_execution_enabled status)
       ++ bs ", high_impact_controls_enabled="
       ++ print_bool (AndroidStatus.high_impact_controls_enabled status))
    (AndroidStatus.android_status_value status)).
Definition platform_info_contract : NoArgumentToolContract :=
  mkContract PLATFORM_INFO_TOOL PLATFORM_INFO_GATE PLATFORM_INFO_ALLOWED PLATFORM_INFO_ARGUMENTS_DENIED
    platform_info_response.
Definition android_status_contract : NoArgumentToolContract :=
  mkContract ANDROID_STATUS_TOOL ANDROID_STATUS_GATE ANDROID_STATUS_ALLOWED ANDROID_STATUS_ARGUMENTS_DENIED
    android_status_response.

(** ** Project services *)

Definition project_service_status_response (id arguments : option Json) : handler Response :=
  let denied := denied_tool PROJECT_SERVICE_STATUS_TOOL PROJECT_SERVICE_STATUS_GATE in
  match arguments with
  | None => denied PROJECT_SERVICE_STATUS_MISSING_ARGUMENTS
      (invalid_params id (bs "project_service_status requires a service_name argument."))
  | Some arguments =>
    match decode_project_service_status arguments with
    | None => denied PROJECT_SERVICE_STATUS_INVALID_ARGUMENTS (invalid_params id TOOL_ARGUMENTS_INVALID)
    | Some args =>
      match ProjectService.collect_project_service_status (service_name args) with
      | Ok status =>
        allowed_tool PROJECT_SERVICE_STATUS_TOOL PROJECT_SERVICE_STATUS_GATE PROJECT_SERVICE_STATUS_ALLOWED
          (ok_result id
             (bs "project_service_status: service_name=" ++ ProjectService.service_name status
                ++ bs ", ownership=" ++ ProjectService.ownership status
                ++ bs ", mode=" ++ ProjectService.status_mode status
                ++ bs ", lifecycle_state=" ++ ProjectService.lifecycle_state status
                ++ bs ", health=" ++ ProjectService.health status)
             (ProjectService.project_service_status_value status))
      | Err (ProjectService.UnsupportedService _) =>
        denied PROJECT_SERVICE_STATUS_UNSUPPORTED (invalid_params id TOOL_ARGUMENTS_INVALID)
      end
    end
  end.

(** ** Providers *)

(** A provider that is asked only when its tool is compiled in and enabled. *)
Definition provider_call {A E} (tool gate unavailable arguments_denied feature_disabled runtime_disabled allowed : bytes)
    (compiled enabled : bool) (collect : handler (Result E A)) (reason_code : E → bytes) (text : bytes)
    (value : A → Json) (id : option Json) (arguments : ToolArguments) : handler Response :=
  let denied reason := denied_tool tool gate reason (tool_error_result id tool unavailable reason) in
  if negb (is_omitted_or_empty_object arguments) then
    denied_tool tool gate arguments_denied (invalid_params id TOOL_ARGUMENTS_INVALID)
  else if negb compiled then denied feature_disabled
  else if negb enabled then denied runtime_disabled
  else
    outcome ← collect;
    match outcome with
    | Ok status => allowed_tool tool gate allowed (ok_result id text (value status))
    | Err error => denied (reason_code error)
    end.

Definition handle_android_battery_status_call (id : option Json) (arguments : ToolArguments)
    (state : McpTransportState) : handler Response :=
  provider_call ANDROID_BATTERY_STATUS_TOOL ANDROID_BATTERY_STATUS_GATE
    (bs "android_battery_status_unavailable") ANDROID_BATTERY_STATUS_ARGUMENTS_DENIED
    ANDROID_BATTERY_STATUS_FEATURE_DISABLED ANDROID_BATTERY_STATUS_RUNTIME_DISABLED
    ANDROID_BATTERY_STATUS_ALLOWED (Config.android_battery_status features) (android_battery_status_enabled state)
    (ask CollectBattery) AndroidBattery.reason_code
    (bs "android_battery_status: bounded read-only Termux:API telemetry collected.")
    AndroidBattery.battery_status_value id arguments.
Definition handle_android_volume_status_call (id : option Json) (arguments : ToolArguments)
    (state : McpTransportState) : handler Response :=
  provider_call ANDROID_VOLUME_STATUS_TOOL ANDROID_VOLUME_STATUS_GATE
    (bs "android_volume_status_unavailable") ANDROID_VOLUME_STATUS_ARGUMENTS_DENIED
    ANDROID_VOLUME_STATUS_FEATURE_DISABLED ANDROID_VOLUME_STATUS_RUNTIME_DISABLED
    ANDROID_VOLUME_STATUS_ALLOWED (Config.android_volume_status features) (android_volume_status_enabled state)
    (ask CollectVolume) VolumeStatus.status_reason_code
    (bs "android_volume_status: bounded read-only Termux:API telemetry collected.")
    volume_status_value id arguments.
Definition handle_android_rish_status_call (id : option Json) (arguments : ToolArguments)
    (state : McpTransportState) : handler Response :=
  provider_call ANDROID_RISH_STATUS_TOOL ANDROID_RISH_STATUS_GATE
    (bs "android_rish_status_unavailable") ANDROID_RISH_STATUS_ARGUMENTS_DENIED
    ANDROID_RISH_STATUS_FEATURE_DISABLED ANDROID_RISH_STATUS_RUNTIME_DISABLED
    ANDROID_RISH_STATUS_ALLOWED (Config.android_rish features) (has_rish_backend_client state)
    (ask ProbeRish) (λ reason_code : bytes, reason_code)
    (bs "android_rish_status: exact UID-2000 predicate token observed in one local capture; remote exit status, stream separation, typed Binder identity/lifecycle, and S3 authority remain unqualified, and no shell or mutation is exposed.")
    (λ status : Json, status) id arguments.

(** ** Commands *)

Definition command_execution_error_reason (error : CommandExecution.CommandExecutionError) : bytes :=
  match error with
  | CommandExecution.CommandProgramUnavailable => COMMAND_PROGRAM_UNAVAILABLE_REASON
  | CommandExecution.CommandSpawnFailed => COMMAND_SPAWN_FAILED_REASON
  | CommandExecution.CommandWaitFailed => COMMAND_WAIT_FAILED_REASON
  | CommandExecution.CommandTimedOut => COMMAND_TIMEOUT_REASON
  | CommandExecution.CommandStdoutLimitExceeded => COMMAND_STDOUT_LIMIT_REASON
  | CommandExecution.CommandStderrLimitExceeded => COMMAND_STDERR_LIMIT_REASON
  | CommandExecution.CommandProgramFailed => COMMAND_PROGRAM_FAILED_REASON
  | CommandExecution.CommandInvalidUtf8 => COMMAND_OUTPUT_INVALID_UTF8_REASON
  | CommandExecution.CommandConcurrencyLimitExceeded => COMMAND_CONCURRENCY_LIMIT_REASON
  end.
Definition record_command_policy_decision (decision : CommandPolicy.CommandPolicyDecision) : handler unit :=
  now ← ask CurrentUnixSeconds;
  record_audit_event (CommandPolicy.audit_decision now decision).

Definition command_refused (id : option Json) (failure : CommandPolicy.CommandPolicyDecision) : handler Response :=
  _ ← record_command_policy_decision failure;
  mret (tool_error_result id CommandPolicy.RUN_COMMAND_PROFILE_TOOL COMMAND_EXECUTION_ERROR
          (CommandPolicy.d_reason_code failure)).
Definition handle_run_command_profile_call (id arguments : option Json) (state : McpTransportState)
    : handler Response :=
  let denied := denied_tool CommandPolicy.RUN_COMMAND_PROFILE_TOOL CommandPolicy.COMMAND_EXECUTION_GATE in
  match arguments with
  | None => denied COMMAND_MISSING_ARGUMENTS_REASON
      (invalid_params id (bs "run_command_profile requires a profile argument."))
  | Some arguments =>
    match decode_run_command_profile arguments with
    | None => denied COMMAND_INVALID_ARGUMENTS_REASON (invalid_params id TOOL_ARGUMENTS_INVALID)
    | Some profile_id =>
      if negb (Config.command_execution features) then
        denied COMMAND_FEATURE_DISABLED_REASON
          (tool_error_result id CommandPolicy.RUN_COMMAND_PROFILE_TOOL COMMAND_EXECUTION_ERROR
             COMMAND_FEATURE_DISABLED_REASON)
      else
        let decision := CommandPolicy.evaluate profile_id (command_execution_enabled state)
          (0 <? length (SafeRoots.labels (file_tools state))) in
        if negb (CommandPolicy.allowed decision) then
          if bytes_eqb (CommandPolicy.d_reason_code decision) CommandPolicy.COMMAND_PROFILE_NOT_ALLOWLISTED_REASON
          then _ ← record_command_policy_decision decision; mret (invalid_params id TOOL_ARGUMENTS_INVALID)
          else command_refused id decision
        else
          profile ← expect (CommandPolicy.profile decision);
          if negb (has_command_execution_client state) then
            command_refused id
              (CommandPolicy.mkDecision false COMMAND_PROGRAM_UNAVAILABLE_REASON (Some profile))
          else
            outcome ← ask (ExecuteCommand profile);
            match outcome with
            | Ok result =>
              _ ← record_command_policy_decision decision;
              mret (ok_result id
                (bs "run_command_profile: fixed read-only profile " ++ CommandPolicy.id profile
                   ++ bs " completed within all bounds.") (command_result_value result))
            | Err error =>
              command_refused id
                (CommandPolicy.mkDecision false (command_execution_error_reason error) (Some profile))
            end
    end
  end.

(** ** Volume control *)

(** [AndroidVolumeMutationAuditGuard]: [finish], or the drop of a guard whose
    worker panicked. *)
Definition volume_audit_finish {A} (outcome : option (Result VolumeControl.AndroidVolumeControlError A))
    : handler unit :=
  match outcome with
  | Some (Ok _) => record_volume_control_decision Audit.Mutating Audit.Allowed ANDROID_VOLUME_CONTROL_MUTATION_ALLOWED
  | Some (Err error) =>
      record_volume_control_decision Audit.Mutating Audit.Denied (VolumeControl.control_reason_code error)
  | None =>
      record_volume_control_decision Audit.Mutating Audit.Denied
        (VolumeControl.control_reason_code VolumeControl.WorkerFailed)
  end.
Definition volume_control_worker_error_response (id : option Json)
    (error : VolumeControl.AndroidVolumeControlError) : Response :=
  tool_error_result id SET_ANDROID_VOLUME_TOOL (bs "android_volume_control_failed")
    (VolumeControl.control_reason_code error).
Definition volume_control_error_response (id : option Json) (mode : Audit.AuditMode)
    (error : VolumeControl.AndroidVolumeControlError) : handler Response :=
  _ ← record_volume_control_decision mode Audit.Denied (VolumeControl.control_reason_code error);
  mret (tool_error_result id SET_ANDROID_VOLUME_TOOL (bs "android_volume_control_failed")
          (VolumeControl.control_reason_code error)).

Definition volume_denied (mode : Audit.AuditMode) (reason : bytes) (response : Response) : handler Response :=
  _ ← record_volume_control_decision mode Audit.Denied reason;
  mret response.

(** What follows the preparation of a live change. *)
Definition apply_volume (id : option Json) (state : McpTransportState) (session_id : bytes)
    (capability_grant : option bytes) (stream : AndroidVolume.AndroidVolumeStreamName) (level : Z)
    (prepared : VolumeControl.PreparedAndroidVolumeMutation) : handler Response :=
  let denied reason := volume_denied Audit.Mutating reason (capability_authorization_denied id reason) in
  match AndroidVolume.AndroidVolumeGrantTarget_new stream level with
  | Err error => denied (GrantError.reason_code error)
  | Ok target =>
    authority ← expect (android_volume_control_authority state);
    now ← ask CurrentUnixSeconds;
    consumed ← ask (ConsumeVolumeGrant authority capability_grant session_id target now);
    match consumed with
    | Err error => denied (GrantError.reason_code error)
    | Ok _ =>
      outcome ← ask (ExecuteVolume prepared);
      _ ← volume_audit_finish outcome;
      mret match outcome with
        | Some (Ok result) =>
          ok_result id (bs "set_android_volume: exact stream mutation completed and was verified.")
            (volume_control_value result)
        | Some (Err error) => volume_control_worker_error_response id error
        | None => volume_control_worker_error_response id VolumeControl.WorkerFailed
        end
    end
  end.

Definition handle_set_android_volume_call (id arguments : option Json) (state : McpTransportState)
    (invocation : ToolInvocationContext) (capability_grant : option bytes) : handler Response :=
  match arguments ≫= decode_set_android_volume with
  | None => volume_denied Audit.DryRun ANDROID_VOLUME_CONTROL_INVALID_ARGUMENTS
      (invalid_params id (bs "set_android_volume requires exact stream, level, and optional dry_run arguments."))
  | Some args =>
    let dry_run := default true (volume_dry_run args) in
    let mode := if dry_run then Audit.DryRun else Audit.Mutating in
    let unavailable reason := volume_denied mode reason
      (tool_error_result id SET_ANDROID_VOLUME_TOOL (bs "android_volume_control_unavailable") reason) in
    if negb dry_run && negb (match legacy_session invocation with Some _ => true | None => false end) then
      volume_denied mode STATELESS_MUTATION_NOT_AVAILABLE
        (invalid_params id (bs "Stateless MCP does not permit live Android volume mutations."))
    else if negb (Config.android_volume_control features) then
      unavailable ANDROID_VOLUME_CONTROL_FEATURE_DISABLED
    else if negb (android_volume_control_enabled state) then
      unavailable ANDROID_VOLUME_CONTROL_RUNTIME_DISABLED
    else
      match AndroidVolume.stream_from_str (volume_stream args) with
      | None => volume_denied mode (VolumeControl.control_reason_code VolumeControl.InvalidStream)
          (invalid_params id (bs "set_android_volume stream is not allowlisted."))
      | Some stream =>
        if dry_run then
          preview ← ask (PreviewVolume stream (volume_level args));
          match preview with
          | Ok result =>
            _ ← record_volume_control_decision mode Audit.Allowed ANDROID_VOLUME_CONTROL_PREVIEW_ALLOWED;
            mret (ok_result id
              (bs "set_android_volume: validated one exact stream and level without mutation.")
              (volume_control_value result))
          | Err error => volume_control_error_response id mode error
          end
        else
          session_id ← expect (legacy_session invocation);
          prepared ← ask (PrepareVolume stream (volume_level args));
          match prepared with
          | Err error => volume_control_error_response id mode error
          | Ok prepared => apply_volume id state session_id capability_grant stream (volume_level args) prepared
          end
      end
  end.
End tools.
End McpDeviceTools.
