(* ===== verification/McpMutations.v ===== *)
(** * Mutating tools of the transport

    [src/src/mcp_transport.rs], the handlers of [create_directory], [copy_file],
    [trash_file] and [write_file]: what is refused before the filesystem is
    touched, the preview, and the worker that a live call waits for. *)

From S2P Require Import Prelude RustStd RustPath Http RequestGrantCapability GrantToken AppErrors AuditEvents JsonRpc.
From S2P Require Import WriteFileGrant WritePolicy AndroidBattery FsCalls SafeRoots Quarantine FsPrepare FsReads.
From S2P Require Import FsTraverse FsMutations FsTools MutationWorkers McpResponses McpArguments McpCalls.
From S2P Require Import McpReadTools.

Module McpMutations.
Import AppErrors SafeRoots FsPrepare FsReads FsTraverse FsTools MutationWorkers.
Import McpResponses McpArguments McpLabels McpCalls McpReadTools.

Definition is_some_grant (capability_grant : option bytes) : bool :=
  match capability_grant with Some _ => true | None => false end.

Section mutations.
Context {F : Float64} {FM : FileModes} {C : Crypto} {T : Chrono} {JL : JsonLength} {L : HttpLib} {JT : JsonText}.

(** ** Errors *)

Definition create_directory_filesystem_error_response (id : option Json) (error : AppError) : Response :=
  match error with
  | PathTraversal _ => invalid_params id SAFE_ROOT_FAILED
  | PathNotFound => invalid_params id (bs "Filesystem parent directory does not exist.")
  | PathAlreadyExists => invalid_params id (bs "Filesystem destination already exists.")
  | _ => internal_error id (bs "Filesystem directory creation failed.")
  end.
Definition copy_file_filesystem_error_response (id : option Json) (error : AppError) : Response :=
  match error with
  | PathTraversal _ => invalid_params id SAFE_ROOT_FAILED
  | CopySourceNotFound => invalid_params id (bs "Filesystem copy source does not exist.")
  | CopyDestinationParentNotFound => invalid_params id (bs "Filesystem copy destination parent does not exist.")
  | CopySourceDestinationSame => invalid_params id (bs "Filesystem copy source and destination must differ.")
  | PathAlreadyExists => invalid_params id (bs "Filesystem copy destination already exists.")
  | UnsupportedPathType => invalid_params id (bs "Filesystem copy source must be a single-link regular file.")
  | FileTooLarge _ _ => payload_too_large id (bs "File exceeds the staged copy_file byte limit.")
  | CopySourceChanged => resource_changed id (bs "Filesystem copy source changed after validation.")
  | CopyDestinationChanged => resource_changed id (bs "Filesystem copy destination changed after validation.")
  | WriteQuarantineCapacityExceeded => copy_staging_capacity_exhausted id
  | WriteQuarantineBusy => copy_staging_busy id
  | _ => internal_error id (bs "Filesystem copy failed.")
  end.
Definition trash_file_filesystem_error_response (id : option Json) (error : AppError) : Response :=
  match error with
  | PathTraversal _ => invalid_params id SAFE_ROOT_FAILED
  | PathNotFound => invalid_params id (bs "Filesystem trash target does not exist.")
  | UnsupportedPathType => invalid_params id (bs "Filesystem trash target must be a single-link regular file.")
  | FileTooLarge _ _ => payload_too_large id (bs "File exceeds the staged trash_file byte limit.")
  | TrashTargetChanged => resource_changed id (bs "Filesystem trash target changed after validation.")
  | TrashMutationAuthorizationRequired =>
    bounded_capability_authorization_denied id FILESYSTEM_TRASH_MUTATION_DISABLED MAX_TRASH_FILE_RESPONSE_BYTES
  | TrashQuarantineCapacityExceeded => trash_recovery_capacity_exhausted id
  | TrashQuarantineBusy => trash_recovery_busy id
  | _ => internal_error id (bs "Filesystem trash failed.")
  end.
Definition write_file_filesystem_error_response (id : option Json) (error : AppError) : Response :=
  match error with
  | PathTraversal _ => invalid_params id SAFE_ROOT_FAILED
  | WritePayloadTooLarge _ _ => payload_too_large id (bs "File content exceeds the staged write_file byte limit.")
  | PathNotFound => invalid_params id (bs "File write parent or prepared replacement target was not found.")
  | UnsupportedPathType => invalid_params id (bs "File write target must be absent or an existing regular file.")
  | PathAlreadyExists | WriteTargetChanged =>
    resource_changed id (bs "File write target changed after validation.")
  | WriteQuarantineCapacityExceeded => write_recovery_capacity_exhausted id
  | WriteQuarantineBusy => write_recovery_busy id
  | _ => internal_error id (bs "Filesystem write failed.")
  end.

Definition denied_write (tool : bytes) (mode : Audit.AuditMode) (reason : bytes) (response : Response)
    : handler Response :=
  _ ← record_filesystem_denied tool FILESYSTEM_WRITE_GATE mode reason;
  mret response.

Definition create_directory_filesystem_error (id : option Json) (mode : Audit.AuditMode) (error : AppError)
    : handler Response :=
  denied_write CREATE_DIRECTORY_TOOL mode (create_directory_filesystem_reason error)
    (create_directory_filesystem_error_response id error).
Definition copy_file_filesystem_error (id : option Json) (mode : Audit.AuditMode) (error : AppError)
    : handler Response :=
  denied_write COPY_FILE_TOOL mode (copy_file_filesystem_reason error)
    (copy_file_filesystem_error_response id error).
Definition trash_file_filesystem_error (id : option Json) (mode : Audit.AuditMode) (error : AppError)
    : handler Response :=
  denied_write TRASH_FILE_TOOL mode (trash_file_filesystem_reason error)
    (trash_file_filesystem_error_response id error).
Definition write_file_filesystem_error (id : option Json) (mode : Audit.AuditMode) (error : AppError)
    : handler Response :=
  denied_write WRITE_FILE_TOOL mode (write_file_filesystem_reason error)
    (write_file_filesystem_error_response id error).

(** ** The parts the handlers share *)

(** The checks of the caller and of the mutation gate, in their order; a preview
    passes all of them. *)
Definition live_guards (tool disabled : bytes) (limit : N) (id : option Json) (dry_run : bool)
    (legacy_session_id : option bytes) (authority : option GrantAuthority) (capability_grant : option bytes)
    (smuggled : bool) (k : handler Response) : handler Response :=
  let mode := filesystem_write_mode dry_run in
  if negb dry_run && negb (is_some_grant legacy_session_id) then
    denied_write tool mode STATELESS_MUTATION_NOT_AVAILABLE
      (invalid_params id (bs "Stateless MCP does not permit live filesystem mutations."))
  else if smuggled then
    denied_write tool mode FILESYSTEM_INVALID_ARGUMENTS (capability_context_not_allowed id)
  else if negb dry_run && match authority with None => true | Some _ => false end then
    denied_write tool mode disabled (bounded_capability_authorization_denied id disabled limit)
  else if negb dry_run && negb (is_some_grant capability_grant) then
    let reason := GrantError.reason_code GrantError.Missing in
    denied_write tool mode reason (bounded_capability_authorization_denied id reason limit)
  else k.

(** Admission, the worker and what its end means; [inl] is an answer to the
    client. *)
Definition await_worker {A} (tool failed : bytes) (limit : N) (id : option Json) (legacy_session_id : option bytes)
    (authority : option GrantAuthority) (capability_grant : option bytes)
    (spawn : Credentials → handler (option (WorkerOutcome A))) : handler (Response + Result AppError A) :=
  session_id ← expect legacy_session_id;
  permit ← ask TryAcquireWorker;
  if negb permit then
    _ ← record_filesystem_denied tool FILESYSTEM_WRITE_GATE (filesystem_write_mode false)
          FILESYSTEM_MUTATION_WORKER_CAPACITY_EXCEEDED;
    mret (inl (filesystem_mutation_worker_capacity_exhausted id))
  else
    authority ← expect authority;
    joined ← spawn (mkCredentials authority capability_grant session_id);
    mret match joined with
      | Some (Completed (Ok result)) => inr (Ok result)
      | Some (Completed (Err (Authorization error))) =>
          inl (bounded_capability_authorization_denied id (GrantError.reason_code error) limit)
      | Some (Completed (Err (Filesystem error))) => inr (Err error)
      | Some (Completed (Err Cancelled)) | Some WorkerCancelled => inl (filesystem_mutation_request_cancelled id)
      | None => inr (Err (other_error failed))
      end.

(** The answer to an operation.  A live operation was already recorded by its
    worker; [always] is whether an answer that does not fit is recorded anyway. *)
Definition finish_write {A} (tool : bytes) (limit : N) (id : option Json) (dry_run always : bool)
    (success_text too_large allowed : bytes) (value : A → Json)
    (error : Audit.AuditMode → AppError → handler Response) (error_response : AppError → Response)
    (operation : Result AppError A) : handler Response :=
  let mode := filesystem_write_mode dry_run in
  match operation with
  | Ok result =>
    match bounded_ok_result id success_text (value result) limit with
    | None =>
      let response := bounded_payload_too_large id too_large limit in
      if dry_run || always then denied_write tool mode FILESYSTEM_RESPONSE_TOO_LARGE response else mret response
    | Some response =>
      if dry_run then
        _ ← record_filesystem_allowed tool FILESYSTEM_WRITE_GATE mode allowed;
        mret response
      else mret response
    end
  | Err e => if dry_run then error mode e else mret (error_response e)
  end.
Definition answer_operation {A} (operation : handler (Response + Result AppError A))
    (finish : Result AppError A → handler Response) : handler Response :=
  outcome ← operation;
  match outcome with inl response => mret response | inr result => finish result end.
Definition previewed {A} (tool : fs AppError A) : handler (Response + Result AppError A) :=
  result ← ask (Look A tool);
  mret (inr result).

(** ** The handlers *)

Definition handle_create_directory_call (id arguments : option Json) (state : McpTransportState)
    (invocation : ToolInvocationContext) (capability_grant : option bytes) : handler Response :=
  let file_tools := file_tools state in
  match arguments with
  | None =>
    denied_write CREATE_DIRECTORY_TOOL Audit.DryRun FILESYSTEM_MISSING_ARGUMENTS
      (invalid_params id (bs "create_directory requires a path argument."))
  | Some arguments =>
    match decode_create_directory arguments with
    | None =>
      denied_write CREATE_DIRECTORY_TOOL Audit.DryRun FILESYSTEM_INVALID_ARGUMENTS
        (invalid_params id TOOL_ARGUMENTS_INVALID)
    | Some args =>
      let path := mutation_path args in
      let dry_run := default true (mutation_dry_run args) in
      let too_large := bs "Directory creation response exceeds the staged response byte limit." in
      let success_text :=
        if dry_run then bs "Validated one safe-rooted directory creation without mutation."
        else bs "Created one safe-rooted directory with fixed mode 0700." in
      live_guards CREATE_DIRECTORY_TOOL FILESYSTEM_CREATE_MUTATION_DISABLED MAX_CREATE_DIRECTORY_RESPONSE_BYTES id
        dry_run (legacy_session invocation) (create_directory_authority state) capability_grant false (
      if match create_directory_response_preview file_tools path dry_run with
         | Ok preview => negb (response_fits id success_text (create_directory_value preview)
                                 MAX_CREATE_DIRECTORY_RESPONSE_BYTES)
         | Err _ => false
         end
      then
        denied_write CREATE_DIRECTORY_TOOL (filesystem_write_mode dry_run) FILESYSTEM_RESPONSE_TOO_LARGE
          (bounded_payload_too_large id too_large MAX_CREATE_DIRECTORY_RESPONSE_BYTES)
      else
        answer_operation
          (if dry_run then previewed (create_directory file_tools path (Some true))
           else await_worker CREATE_DIRECTORY_TOOL (bs "create directory worker failed")
                  MAX_CREATE_DIRECTORY_RESPONSE_BYTES id (legacy_session invocation)
                  (create_directory_authority state) capability_grant
                  (λ credentials, ask (SpawnCreateDirectory credentials path)))
          (finish_write CREATE_DIRECTORY_TOOL MAX_CREATE_DIRECTORY_RESPONSE_BYTES id dry_run true success_text
             too_large FILESYSTEM_DRY_RUN_ALLOWED create_directory_value (create_directory_filesystem_error id)
             (create_directory_filesystem_error_response id)))
    end
  end.

(** The refusal of arguments that were not read: with a grant, of the grant. *)
Definition unread_arguments (id : option Json) (capability_grant : option bytes) (message : bytes) : Response :=
  if is_some_grant capability_grant then capability_context_not_allowed id else invalid_params id message.

Definition handle_copy_file_call (id arguments : option Json) (state : McpTransportState)
    (invocation : ToolInvocationContext) (capability_grant : option bytes) : handler Response :=
  let file_tools := file_tools state in
  match arguments with
  | None =>
    denied_write COPY_FILE_TOOL Audit.DryRun FILESYSTEM_MISSING_ARGUMENTS
      (unread_arguments id capability_grant (bs "copy_file requires source_path and destination_path arguments."))
  | Some arguments =>
    match decode_copy_file arguments with
    | None =>
      denied_write COPY_FILE_TOOL Audit.DryRun FILESYSTEM_INVALID_ARGUMENTS
        (unread_arguments id capability_grant TOOL_ARGUMENTS_INVALID)
    | Some args =>
      let source_path := copy_source_path args in
      let destination_path := copy_destination_path args in
      let dry_run := default true (copy_dry_run args) in
      let mode := filesystem_write_mode dry_run in
      let too_large := bs "File copy response exceeds the staged response byte limit." in
      let success_text :=
        if dry_run then bs "Validated one bounded safe-rooted file copy without mutation."
        else bs "Copied one bounded safe-rooted file with fixed mode 0600." in
      let response_preflight := mkCopyFileResult dry_run MAX_COPY_FILE_BYTES (bs "0600")
        MAX_COPY_FILE_BYTES MAX_COPY_FILE_RESPONSE_BYTES in
      live_guards COPY_FILE_TOOL FILESYSTEM_COPY_MUTATION_DISABLED MAX_COPY_FILE_RESPONSE_BYTES id
        dry_run (legacy_session invocation) (copy_file_authority state) capability_grant
        (is_some_grant capability_grant && negb (bool_decide (copy_dry_run args = Some false))) (
      if negb (response_fits id success_text (copy_file_value response_preflight) MAX_COPY_FILE_RESPONSE_BYTES)
      then
        denied_write COPY_FILE_TOOL mode FILESYSTEM_RESPONSE_TOO_LARGE
          (bounded_payload_too_large id too_large MAX_COPY_FILE_RESPONSE_BYTES)
      else
        match copy_file_response_preview file_tools source_path destination_path dry_run with
        | Err error => copy_file_filesystem_error id mode error
        | Ok _ =>
          answer_operation
            (if dry_run then previewed (copy_file file_tools source_path destination_path (Some true))
             else await_worker COPY_FILE_TOOL (bs "copy file worker failed") MAX_COPY_FILE_RESPONSE_BYTES id
                    (legacy_session invocation) (copy_file_authority state) capability_grant
                    (λ credentials, ask (SpawnCopyFile credentials source_path destination_path)))
            (finish_write COPY_FILE_TOOL MAX_COPY_FILE_RESPONSE_BYTES id dry_run true success_text too_large
               FILESYSTEM_DRY_RUN_ALLOWED copy_file_value (copy_file_filesystem_error id)
               (copy_file_filesystem_error_response id))
        end)
    end
  end.

Definition handle_trash_file_call (id arguments : option Json) (state : McpTransportState)
    (invocation : ToolInvocationContext) (capability_grant : option bytes) : handler Response :=
  let file_tools := file_tools state in
  match arguments with
  | None =>
    denied_write TRASH_FILE_TOOL Audit.DryRun FILESYSTEM_MISSING_ARGUMENTS
      (unread_arguments id capability_grant (bs "trash_file requires a path argument."))
  | Some arguments =>
    match decode_trash_file arguments with
    | None =>
      denied_write TRASH_FILE_TOOL Audit.DryRun FILESYSTEM_INVALID_ARGUMENTS
        (unread_arguments id capability_grant TOOL_ARGUMENTS_INVALID)
    | Some args =>
      let path := mutation_path args in
      let dry_run := default true (mutation_dry_run args) in
      let too_large := bs "File trash response exceeds the staged response byte limit." in
      let success_text :=
        if dry_run
        then bs "Validated one bounded safe-rooted file for reversible trashing without mutation."
        else bs "Moved one bounded safe-rooted file into the private recovery quarantine." in
      let response_preflight := mkTrashFileResult dry_run Quarantine.MAX_TRASH_FILE_BYTES (negb dry_run)
        Quarantine.MAX_TRASH_FILE_BYTES MAX_TRASH_FILE_RESPONSE_BYTES in
      live_guards TRASH_FILE_TOOL FILESYSTEM_TRASH_MUTATION_DISABLED MAX_TRASH_FILE_RESPONSE_BYTES id
        dry_run (legacy_session invocation) (trash_file_authority state) capability_grant
        (is_some_grant capability_grant && negb (bool_decide (mutation_dry_run args = Some false))) (
      if negb (response_fits id success_text (trash_file_value response_preflight) MAX_TRASH_FILE_RESPONSE_BYTES)
      then
        denied_write TRASH_FILE_TOOL (filesystem_write_mode dry_run) FILESYSTEM_RESPONSE_TOO_LARGE
          (bounded_payload_too_large id too_large MAX_TRASH_FILE_RESPONSE_BYTES)
      else
        answer_operation
          (if dry_run then previewed (trash_file file_tools path (Some true))
           else await_worker TRASH_FILE_TOOL (bs "trash file worker failed") MAX_TRASH_FILE_RESPONSE_BYTES id
                  (legacy_session invocation) (trash_file_authority state) capability_grant
                  (λ credentials, ask (SpawnTrashFile credentials path)))
          (finish_write TRASH_FILE_TOOL MAX_TRASH_FILE_RESPONSE_BYTES id dry_run false success_text too_large
             FILESYSTEM_DRY_RUN_ALLOWED trash_file_value (trash_file_filesystem_error id)
             (trash_file_filesystem_error_response id)))
    end
  end.

Definition handle_write_file_call (id arguments : option Json) (state : McpTransportState)
    (invocation : ToolInvocationContext) (capability_grant : option bytes) : handler Response :=
  let file_tools := file_tools state in
  match arguments with
  | None =>
    denied_write WRITE_FILE_TOOL Audit.DryRun FILESYSTEM_MISSING_ARGUMENTS
      (invalid_params id (bs "write_file requires path and content arguments."))
  | Some arguments =>
    match decode_write_file arguments with
    | None =>
      denied_write WRITE_FILE_TOOL Audit.DryRun FILESYSTEM_INVALID_ARGUMENTS
        (invalid_params id TOOL_ARGUMENTS_INVALID)
    | Some args =>
      let path := write_path args in
      let content := write_content args in
      let dry_run :=
        match WritePolicy.resolve_mode WritePolicy.policy_default (write_dry_run args) with
        | WritePolicy.DryRunMode => true
        | WritePolicy.MutatingMode => false
        end in
      let too_large := bs "File write response exceeds the staged response byte limit." in
      let success_text :=
        if dry_run then bs "Validated one bounded safe-rooted UTF-8 file write without mutation."
        else bs "Wrote one bounded safe-rooted UTF-8 file with fixed mode 0600." in
      live_guards WRITE_FILE_TOOL FILESYSTEM_WRITE_MUTATION_DISABLED MAX_WRITE_FILE_RESPONSE_BYTES id
        dry_run (legacy_session invocation) (write_file_authority state) capability_grant false (
      if negb (response_fits id success_text
                 (write_file_value (write_file_response_preview (N.of_nat (length content))))
                 MAX_WRITE_FILE_RESPONSE_BYTES)
      then
        denied_write WRITE_FILE_TOOL (filesystem_write_mode dry_run) FILESYSTEM_RESPONSE_TOO_LARGE
          (bounded_payload_too_large id too_large MAX_WRITE_FILE_RESPONSE_BYTES)
      else
        answer_operation
          (if dry_run then previewed (write_file file_tools path content (Some true))
           else await_worker WRITE_FILE_TOOL (bs "write file worker failed") MAX_WRITE_FILE_RESPONSE_BYTES id
                  (legacy_session invocation) (write_file_authority state) capability_grant
                  (λ credentials, ask (SpawnWriteFile credentials path content)))
          (finish_write WRITE_FILE_TOOL MAX_WRITE_FILE_RESPONSE_BYTES id dry_run false success_text too_large
             (filesystem_write_allowed_reason true) write_file_value (write_file_filesystem_error id)
             (write_file_filesystem_error_response id)))
    end
  end.
End mutations.
End McpMutations.
