(* ===== verification/McpDiscovery.v ===== *)
(** * What the transport says of itself

    [src/src/mcp_transport.rs]: the tools a posture lists with their input schemas,
    and the runtime status.  The descriptions are those of the source; an object
    lists its members in the order of the source. *)

From S2P Require Import Prelude RustStd RustPath Http RequestGrantCapability GrantToken AppErrors AuditEvents JsonRpc.
From S2P Require Import WritePolicy CommandPolicy McpSession AndroidBattery Config FsCalls SafeRoots Quarantine.
From S2P Require Import FsPrepare FsReads FsTraverse MutationWorkers StatusTools McpWire McpResponses McpCalls.
From S2P Require Import McpArguments McpReadTools.

Module McpDiscovery.
Import McpSession Quarantine FsPrepare FsReads FsTraverse MutationWorkers McpWire McpResponses McpLabels.
Import McpCalls McpReadTools.

Definition MCP_SSE_RETRY_MILLISECONDS : N := 1000.
Definition is_present {A} (o : option A) : bool := match o with Some _ => true | None => false end.

(** ** The tools of a posture *)

Definition BASE_AVAILABLE_TOOLS : list bytes :=
  [RUNTIME_STATUS_TOOL; PLATFORM_INFO_TOOL; ANDROID_STATUS_TOOL; PROJECT_SERVICE_STATUS_TOOL;
   CREATE_DIRECTORY_TOOL; COPY_FILE_TOOL; TRASH_FILE_TOOL; FIND_PATHS_TOOL; HASH_FILE_TOOL;
   LIST_DIRECTORY_TOOL; PATH_METADATA_TOOL; READ_BINARY_FILE_TOOL; READ_BINARY_RANGE_TOOL; READ_FILE_TOOL;
   READ_TEXT_RANGE_TOOL; SEARCH_TEXT_TOOL; WRITE_FILE_TOOL].
Definition available_tools (state : McpTransportState) : list bytes :=
  BASE_AVAILABLE_TOOLS
  ++ (if android_battery_status_enabled state then [ANDROID_BATTERY_STATUS_TOOL] else [])
  ++ (if android_volume_status_enabled state then [ANDROID_VOLUME_STATUS_TOOL] else [])
  ++ (if android_volume_control_enabled state then [SET_ANDROID_VOLUME_TOOL] else [])
  ++ (if android_rish_enabled state then [ANDROID_RISH_STATUS_TOOL] else [])
  ++ (if command_execution_enabled state then [CommandPolicy.RUN_COMMAND_PROFILE_TOOL] else []).
Definition is_mutation_tool (tool_name : bytes) : bool :=
  contains [CREATE_DIRECTORY_TOOL; COPY_FILE_TOOL; TRASH_FILE_TOOL; WRITE_FILE_TOOL; SET_ANDROID_VOLUME_TOOL] tool_name.

(** ** Entries of the listing *)

Definition tool_entry (name : bytes) (description : string) (properties : list (bytes * Json))
    (required : option (list string)) : Json :=
  JObject [(bs "name", JString name); (bs "description", jstr description);
    (bs "inputSchema", JObject
      ([(bs "type", jstr "object"); (bs "properties", JObject properties)]
       ++ match required with Some names => [(bs "required", JArray (jstr <$> names))] | None => [] end
       ++ [(bs "additionalProperties", JBool false)]))].

Section entries.
Import CommandPolicy.
Definition runtime_status_entry : Json :=
  tool_entry RUNTIME_STATUS_TOOL "Return deterministic staged runtime metadata."
    []
    None.
Definition platform_info_entry : Json :=
  tool_entry PLATFORM_INFO_TOOL "Return non-sensitive platform metadata."
    []
    None.
Definition android_status_entry : Json :=
  tool_entry ANDROID_STATUS_TOOL "Return read-only allowlisted Android/Termux status metadata."
    []
    None.
Definition project_service_status_entry : Json :=
  tool_entry PROJECT_SERVICE_STATUS_TOOL "Return read-only status for one allowlisted project-owned logical service."
    [(bs "service_name", JObject
      [(bs "type", jstr "string");
       (bs "enum", JArray (JString <$> ProjectService.PROJECT_SERVICE_ALLOWLIST));
       (bs "description", jstr "Allowlisted logical project service identifier.")])]
    (Some ["service_name"]%string).
Definition create_directory_entry : Json :=
  tool_entry CREATE_DIRECTORY_TOOL "Create one safe-rooted directory with fixed mode 0700. Defaults to dry-run; mutation requires explicit dry_run=false."
    [(bs "path", JObject
      [(bs "type", jstr "string");
       (bs "description", jstr "Absolute new-directory path inside one configured safe root; the parent must already exist.")]);
     (bs "dry_run", JObject
      [(bs "type", jstr "boolean");
       (bs "description", jstr "Defaults to true. Set explicitly to false to create exactly one directory.")])]
    (Some ["path"]%string).
Definition copy_file_entry : Json :=
  tool_entry COPY_FILE_TOOL "Copy one bounded regular file between configured filesystem safe roots without returning contents. Defaults to dry-run; mutation requires explicit dry_run=false."
    [(bs "source_path", JObject
      [(bs "type", jstr "string");
       (bs "description", jstr "Absolute regular-file path inside one configured safe root; size must not exceed 1 MiB.")]);
     (bs "destination_path", JObject
      [(bs "type", jstr "string");
       (bs "description", jstr "Absolute absent destination path inside one configured safe root; the parent must already exist.")]);
     (bs "dry_run", JObject
      [(bs "type", jstr "boolean");
       (bs "description", jstr "Defaults to true. Set explicitly to false to copy exactly one file with fixed mode 0600.")])]
    (Some ["source_path"; "destination_path"]%string).
Definition trash_file_entry : Json :=
  tool_entry TRASH_FILE_TOOL "Validate one bounded single-link safe-rooted regular file for reversible trashing without returning its path or contents. Defaults to dry-run; mutation requires explicit dry_run=false."
    [(bs "path", JObject
      [(bs "type", jstr "string");
       (bs "description", jstr "Absolute single-link regular-file path inside one configured safe root; size must not exceed 1 MiB.")]);
     (bs "dry_run", JObject
      [(bs "type", jstr "boolean");
       (bs "description", jstr "Defaults to true. Set explicitly to false to atomically retain exactly one file in the private recovery quarantine.")])]
    (Some ["path"]%string).
Definition find_paths_entry : Json :=
  tool_entry FIND_PATHS_TOOL "Locate bounded case-sensitive literal basename matches below one configured filesystem safe root without reading file contents."
    [(bs "path", JObject
      [(bs "type", jstr "string");
       (bs "description", jstr "Absolute directory path inside one configured safe root.")]);
     (bs "query", JObject
      [(bs "type", jstr "string");
       (bs "minLength", jnum 1);
       (bs "maxLength", jnum MAX_FIND_QUERY_BYTES);
       (bs "x-maxBytes", jnum MAX_FIND_QUERY_BYTES);
       (bs "description", jstr "Case-sensitive literal UTF-8 basename substring of at most 256 bytes; path separators, regular expressions, and globs are not evaluated.")]);
     (bs "kind", JObject
      [(bs "type", jstr "string");
       (bs "enum", JArray [jstr "any"; jstr "regular_file"; jstr "directory"]);
       (bs "description", jstr "Optional exact object-kind filter; defaults to any.")]);
     (bs "max_depth", JObject
      [(bs "type", jstr "integer");
       (bs "minimum", jnum MIN_FIND_DEPTH);
       (bs "maximum", jnum MAX_FIND_DEPTH);
       (bs "description", JString (bs "Optional bounded traversal depth; defaults to " ++ print_N MAX_FIND_DEPTH ++ bs "."))])]
    (Some ["path"; "query"]%string).
Definition hash_file_entry : Json :=
  tool_entry HASH_FILE_TOOL "Compute a bounded SHA-256 digest for one safe-rooted regular file without returning file contents."
    [(bs "path", JObject
      [(bs "type", jstr "string");
       (bs "description", JString (bs "Absolute regular-file path inside one configured safe root; at most " ++ print_N MAX_HASH_FILE_BYTES ++ bs " bytes are hashed through the retained no-follow descriptor."))])]
    (Some ["path"]%string).
Definition list_directory_entry : Json :=
  tool_entry LIST_DIRECTORY_TOOL "List entries under a configured filesystem safe root without reading file contents or writing data."
    [(bs "path", JObject
      [(bs "type", jstr "string");
       (bs "description", jstr "Absolute path inside one configured safe root.")]);
     (bs "max_depth", JObject
      [(bs "type", jstr "integer");
       (bs "minimum", jnum MIN_LIST_DIRECTORY_DEPTH);
       (bs "maximum", jnum MAX_LIST_DIRECTORY_DEPTH);
       (bs "description", JString (bs "Optional bounded traversal depth; defaults to " ++ print_N MIN_LIST_DIRECTORY_DEPTH ++ bs " and must not exceed " ++ print_N MAX_LIST_DIRECTORY_DEPTH ++ bs "."))])]
    (Some ["path"]%string).
Definition path_metadata_entry : Json :=
  tool_entry PATH_METADATA_TOOL "Return bounded non-sensitive metadata for one regular file or directory inside a configured filesystem safe root."
    [(bs "path", JObject
      [(bs "type", jstr "string");
       (bs "description", jstr "Absolute regular-file or directory path inside one configured safe root.")])]
    (Some ["path"]%string).
Definition read_binary_file_entry : Json :=
  tool_entry READ_BINARY_FILE_TOOL "Read one bounded regular file as canonical padded base64 from inside a configured filesystem safe root."
    [(bs "path", JObject
      [(bs "type", jstr "string");
       (bs "description", JString (bs "Absolute regular-file path inside one configured safe root; at most " ++ print_N MAX_BINARY_READ_BYTES ++ bs " raw bytes are returned through the retained no-follow descriptor."))])]
    (Some ["path"]%string).
Definition read_binary_range_entry : Json :=
  tool_entry READ_BINARY_RANGE_TOOL "Read one bounded byte range as canonical padded base64 from a larger regular file inside a configured filesystem safe root."
    [(bs "path", JObject
      [(bs "type", jstr "string");
       (bs "description", JString (bs "Absolute regular-file path inside one configured safe root; the file may be at most " ++ print_N MAX_BINARY_RANGE_FILE_BYTES ++ bs " bytes."))]);
     (bs "offset_bytes", JObject
      [(bs "type", jstr "integer");
       (bs "minimum", jnum 0);
       (bs "maximum", jnum MAX_BINARY_RANGE_FILE_BYTES);
       (bs "description", jstr "Zero-based raw byte offset; EOF itself is accepted and returns an empty range.")]);
     (bs "length_bytes", JObject
      [(bs "type", jstr "integer");
       (bs "minimum", jnum 1);
       (bs "maximum", jnum MAX_BINARY_RANGE_BYTES);
       (bs "description", JString (bs "Maximum raw bytes to return; fixed upper bound is " ++ print_N MAX_BINARY_RANGE_BYTES ++ bs "."))])]
    (Some ["path"; "offset_bytes"; "length_bytes"]%string).
Definition read_file_entry : Json :=
  tool_entry READ_FILE_TOOL "Read a bounded UTF-8 text file from inside a configured filesystem safe root without writing data."
    [(bs "path", JObject
      [(bs "type", jstr "string");
       (bs "description", jstr "Absolute path to a UTF-8 text file inside one configured safe root.")])]
    (Some ["path"]%string).
Definition read_text_range_entry : Json :=
  tool_entry READ_TEXT_RANGE_TOOL "Read one bounded UTF-8 byte range from a larger regular file inside a configured filesystem safe root."
    [(bs "path", JObject
      [(bs "type", jstr "string");
       (bs "description", JString (bs "Absolute regular-file path inside one configured safe root; the file may be at most " ++ print_N MAX_TEXT_RANGE_FILE_BYTES ++ bs " bytes."))]);
     (bs "offset_bytes", JObject
      [(bs "type", jstr "integer");
       (bs "minimum", jnum 0);
       (bs "maximum", jnum MAX_TEXT_RANGE_FILE_BYTES);
       (bs "description", jstr "Zero-based UTF-8 byte boundary; EOF itself is accepted and returns an empty range.")]);
     (bs "max_bytes", JObject
      [(bs "type", jstr "integer");
       (bs "minimum", jnum MIN_TEXT_RANGE_BYTES);
       (bs "maximum", jnum MAX_TEXT_RANGE_BYTES);
       (bs "description", JString (bs "Maximum UTF-8 bytes to return; incomplete code points at a non-EOF boundary are deferred. Fixed bounds are " ++ print_N MIN_TEXT_RANGE_BYTES ++ bs " through " ++ print_N MAX_TEXT_RANGE_BYTES ++ bs "."))])]
    (Some ["path"; "offset_bytes"; "max_bytes"]%string).
Definition search_text_entry : Json :=
  tool_entry SEARCH_TEXT_TOOL "Locate bounded literal UTF-8 text matches under a configured filesystem safe root without returning file contents."
    [(bs "path", JObject
      [(bs "type", jstr "string");
       (bs "description", jstr "Absolute directory path inside one configured safe root.")]);
     (bs "query", JObject
      [(bs "type", jstr "string");
       (bs "minLength", jnum 1);
       (bs "maxLength", jnum MAX_SEARCH_QUERY_BYTES);
       (bs "x-maxBytes", jnum MAX_SEARCH_QUERY_BYTES);
       (bs "description", jstr "Case-sensitive literal single-line UTF-8 query of at most 256 bytes; regular expressions and globs are not evaluated.")]);
     (bs "max_depth", JObject
      [(bs "type", jstr "integer");
       (bs "minimum", jnum MIN_SEARCH_DEPTH);
       (bs "maximum", jnum MAX_SEARCH_DEPTH);
       (bs "description", JString (bs "Optional bounded traversal depth; defaults to " ++ print_N MAX_SEARCH_DEPTH ++ bs "."))])]
    (Some ["path"; "query"]%string).
Definition write_file_entry : Json :=
  tool_entry WRITE_FILE_TOOL "Write UTF-8 text to a safe-rooted file. Defaults to dry-run; mutation requires explicit dry_run=false."
    [(bs "path", JObject
      [(bs "type", jstr "string");
       (bs "description", jstr "Absolute destination path inside one configured safe root.")]);
     (bs "content", JObject
      [(bs "type", jstr "string");
       (bs "maxLength", jnum WritePolicy.DEFAULT_MAX_WRITE_BYTES);
       (bs "x-maxBytes", jnum WritePolicy.DEFAULT_MAX_WRITE_BYTES);
       (bs "description", jstr "UTF-8 text content to write, subject to the fixed 1 MiB encoded byte limit.")]);
     (bs "dry_run", JObject
      [(bs "type", jstr "boolean");
       (bs "description", jstr "Defaults to true. Set explicitly to false to perform the write.")])]
    (Some ["path"; "content"]%string).
Definition baseline_tools : list Json :=
  [runtime_status_entry;
   platform_info_entry;
   android_status_entry;
   project_service_status_entry;
   create_directory_entry;
   copy_file_entry;
   trash_file_entry;
   find_paths_entry;
   hash_file_entry;
   list_directory_entry;
   path_metadata_entry;
   read_binary_file_entry;
   read_binary_range_entry;
   read_file_entry;
   read_text_range_entry;
   search_text_entry;
   write_file_entry].
Definition android_battery_status_entry : Json :=
  tool_entry ANDROID_BATTERY_STATUS_TOOL "Return bounded read-only battery and thermal telemetry through the explicitly enabled Termux:API gate."
    []
    None.
Definition android_volume_status_entry : Json :=
  tool_entry ANDROID_VOLUME_STATUS_TOOL "Return normalized read-only Android audio-stream volume levels through the explicitly enabled Termux:API gate."
    []
    None.
Definition set_android_volume_entry : Json :=
  tool_entry SET_ANDROID_VOLUME_TOOL "Preview one exact Android audio-stream level, or apply it with fresh bounds validation and one principal/session/stream/level-bound single-use MCP-Capability-Grant."
    [(bs "stream", JObject
      [(bs "type", jstr "string");
       (bs "enum", JArray [jstr "alarm"; jstr "call"; jstr "music"; jstr "notification"; jstr "ring"; jstr "system"]);
       (bs "description", jstr "Exact documented Termux:API audio stream.")]);
     (bs "level", JObject
      [(bs "type", jstr "integer");
       (bs "minimum", jnum 0);
       (bs "description", jstr "Exact target level; a fresh status read enforces the live stream maximum.")]);
     (bs "dry_run", JObject
      [(bs "type", jstr "boolean");
       (bs "description", jstr "Defaults to true. Explicit false additionally requires one exact request-scoped grant.")])]
    (Some ["stream"; "level"]%string).
Definition android_rish_status_entry : Json :=
  tool_entry ANDROID_RISH_STATUS_TOOL "Run the fixed Shizuku/rish UID predicate and report only an exact UID-2000 token observed in one local capture. This does not qualify remote exit status, stream separation, typed Binder identity or lifecycle, or S3 authority, and exposes no shell, arguments, raw output, or mutation."
    []
    None.
Definition run_command_profile_entry : Json :=
  tool_entry RUN_COMMAND_PROFILE_TOOL "Run one reviewed read-only diagnostic profile with fixed executable identity, argv, safe-root working directory, empty environment, null stdin, and bounded output."
    [(bs "profile", JObject
      [(bs "type", jstr "string");
       (bs "enum", JArray (JString <$> CommandPolicy.command_profile_ids));
       (bs "description", jstr "Reviewed project-owned diagnostic profile identifier.")])]
    (Some ["profile"]%string).
End entries.

(** ** Editing JSON *)

(** [serde_json::Map::insert]. *)
Fixpoint json_insert (key : bytes) (value : Json) (members : list (bytes * Json)) : list (bytes * Json) :=
  match members with
  | [] => [(key, value)]
  | (k, v) :: rest => if bytes_eqb k key then (k, value) :: rest else (k, v) :: json_insert key value rest
  end.
(** [value[key] = v] on an object. *)
Definition index_set (key : bytes) (value : Json) (target : Json) : Json :=
  match target with JObject members => JObject (json_insert key value members) | _ => target end.
(** What [pointer_mut] leads to, replaced; [None] where it leads nowhere. *)
Fixpoint pointer_update (path : list bytes) (f : Json → Json) (target : Json) : option Json :=
  match path with
  | [] => Some (f target)
  | key :: path =>
    match target with
    | JObject members =>
      child ← json_get key members;
      child ← pointer_update path f child;
      Some (JObject (json_insert key child members))
    | _ => None
    end
  end.
Definition DRY_RUN_SCHEMA : list bytes := [bs "inputSchema"; bs "properties"; bs "dry_run"].
Definition tool_name_of (tool : Json) : option Json :=
  match tool with JObject members => json_get (bs "name") members | _ => None end.

(** [tools.iter_mut().find(..)], changed by [f]. *)
Fixpoint update_tool (name : bytes) (f : Json → option Json) (tools : list Json) : option (list Json) :=
  match tools with
  | [] => None
  | tool :: rest =>
    if match tool_name_of tool with Some (JString n) => bytes_eqb n name | _ => false end
    then tool ← f tool; Some (tool :: rest)
    else rest ← update_tool name f rest; Some (tool :: rest)
  end.

(** ** The listing of a posture *)

Record MutationDescriptions := mkDescriptions {
  enabled_description : string; enabled_dry_run : string; disabled_description : string }.
Definition DISABLED_DRY_RUN : string :=
  "Mutation is disabled in this runtime posture; omitted dry_run and explicit true are accepted.".
Definition create_directory_descriptions : MutationDescriptions := mkDescriptions
  "Validate one safe-rooted directory creation, or create it with fixed mode 0700 only when dry_run=false and one request-scoped MCP-Capability-Grant is valid."
  "Defaults to true. Explicit false additionally requires the enabled mutation gate and one request-scoped grant."
  "Validate one safe-rooted directory creation without mutation; the dedicated mutation gate is disabled.".
Definition copy_file_descriptions : MutationDescriptions := mkDescriptions
  "Validate one bounded safe-rooted regular-file copy, or publish it with fixed mode 0600 only when dry_run=false and one source-identity/content/destination-bound MCP-Capability-Grant is valid."
  "Defaults to true. Explicit false additionally requires the enabled copy mutation gate and one exact request-scoped grant."
  "Validate one bounded safe-rooted regular-file copy without mutation; the dedicated copy mutation gate is disabled.".
Definition trash_file_descriptions : MutationDescriptions := mkDescriptions
  "Validate one bounded single-link safe-rooted regular file, or atomically retain it in a private recovery quarantine only when dry_run=false and one identity/content-bound MCP-Capability-Grant is valid."
  "Defaults to true. Explicit false additionally requires the enabled trash mutation gate and one exact request-scoped grant."
  "Validate one bounded single-link safe-rooted regular file for reversible trashing without mutation; the dedicated trash mutation gate is disabled.".
Definition write_file_descriptions : MutationDescriptions := mkDescriptions
  "Validate one bounded UTF-8 safe-root file write, or create/replace it with fixed mode 0600 only when dry_run=false and one target/content/disposition-bound MCP-Capability-Grant is valid."
  "Defaults to true. Explicit false additionally requires the enabled mutation gate and one request-scoped grant bound to create or replace posture."
  "Validate one bounded UTF-8 safe-root file write without mutation; the dedicated mutation gate is disabled.".

Definition describe (d : MutationDescriptions) (enabled : bool) (tool : Json) : option Json :=
  if enabled then
    pointer_update DRY_RUN_SCHEMA (index_set (bs "description") (jstr (enabled_dry_run d)))
      (index_set (bs "description") (jstr (enabled_description d)) tool)
  else
    pointer_update DRY_RUN_SCHEMA
      (λ schema, index_set (bs "description") (jstr DISABLED_DRY_RUN) (index_set (bs "const") (JBool true) schema))
      (index_set (bs "description") (jstr (disabled_description d)) tool).

(** The tools of [tools/list]; [None] is an [expect] that fails. *)
Definition listed_tools (state : McpTransportState) : option (list Json) :=
  tools ← update_tool CREATE_DIRECTORY_TOOL
    (describe create_directory_descriptions (is_present (create_directory_authority state))) baseline_tools;
  tools ← update_tool COPY_FILE_TOOL
    (describe copy_file_descriptions (is_present (copy_file_authority state))) tools;
  tools ← update_tool TRASH_FILE_TOOL
    (describe trash_file_descriptions (is_present (trash_file_authority state))) tools;
  tools ← update_tool WRITE_FILE_TOOL
    (describe write_file_descriptions (is_present (write_file_authority state))) tools;
  Some (tools
    ++ (if android_battery_status_enabled state then [android_battery_status_entry] else [])
    ++ (if android_volume_status_enabled state then [android_volume_status_entry] else [])
    ++ (if android_volume_control_enabled state then [set_android_volume_entry] else [])
    ++ (if android_rish_enabled state then [android_rish_status_entry] else [])
    ++ (if command_execution_enabled state then [run_command_profile_entry] else [])).

Section responses.
Context {F : Float64} {FM : FileModes} {C : Crypto} {T : Chrono} {JL : JsonLength} {L : HttpLib} {JT : JsonText}.
Context {B : Build} (features : Config.Features).

Definition tools_list_response (id : option Json) (state : McpTransportState) : handler Response :=
  tools ← expect (listed_tools state);
  mret (bounded_json_rpc_ok id
    (JObject [(bs "jsonrpc", jstr "2.0"); (bs "id", id_or_null id);
       (bs "result", JObject [(bs "tools", JArray tools)])])
    (bs "Tool discovery response exceeds the bounded transport response byte limit.")).

(** ** Runtime status *)

(** [BTreeMap<String, AuditDecisionCounters>]: sorted by key. *)
Definition decision_counters_value (c : Audit.AuditDecisionCounters) : Json :=
  JObject [(bs "allowed", jnum (Audit.allowed c)); (bs "denied", jnum (Audit.denied c))].
Definition counters_table (m : gmap bytes Audit.AuditDecisionCounters) : list (bytes * Json) :=
  foldr (λ entry sorted, fst (btree_insert entry.1 (decision_counters_value entry.2) sorted)) [] (map_to_list m).
Definition nonempty_table (name : bytes) (m : gmap bytes Audit.AuditDecisionCounters) : list (bytes * Json) :=
  match counters_table m with [] => [] | entries => [(name, JObject entries)] end.
Definition audit_counters_value (snapshot : option Audit.AuditCounters) : Json :=
  match snapshot with
  | Some counters =>
    JObject ([(bs "allowed_total", jnum (Audit.allowed_total counters));
              (bs "denied_total", jnum (Audit.denied_total counters))]
             ++ nonempty_table (bs "by_tool") (Audit.by_tool counters)
             ++ nonempty_table (bs "by_reason_code") (Audit.by_reason_code counters))
  | None => JObject [(bs "unavailable", JBool true); (bs "reason", jstr "audit_counter_lock_poisoned")]
  end.

Definition ANDROID_VOLUME_GRANT_TTL_SECONDS_IF_COMPILED : N :=
  if Config.android_volume_control features then GRANT_TTL_SECONDS else 0.

Section status.
Context (state : McpTransportState) (audit_counters_snapshot : Json).
Let create_directory_mutation_enabled := is_present (create_directory_authority state).
Let copy_file_mutation_enabled := is_present (copy_file_authority state).
Let trash_file_mutation_enabled := is_present (trash_file_authority state).
Let write_file_mutation_enabled := is_present (write_file_authority state).
Let android_battery_status_enabled := android_battery_status_enabled state.
Let android_volume_status_enabled := android_volume_status_enabled state.
Let android_volume_control_enabled := android_volume_control_enabled state.
Let android_rish_enabled := android_rish_enabled state.
Let command_execution_enabled := command_execution_enabled state.
Let sse_enabled := sse_enabled state.

Definition battery_mode : bytes :=
  bs (if android_battery_status_enabled then "read_only_battery_telemetry" else "disabled").
Definition volume_mode : bytes :=
  bs (if android_volume_status_enabled then "read_only_volume_telemetry" else "disabled").
Definition volume_control_mode : bytes :=
  bs (if android_volume_control_enabled then "preview_or_request_scoped_single_use_grant" else "disabled").
Definition android_rish_mode : bytes :=
  bs (if android_rish_enabled then "configured_probe_on_call_adb_shell_uid_2000" else "disabled").
Definition legacy_android_platform_mode : bytes :=
  bs match android_battery_status_enabled, android_volume_status_enabled, android_volume_control_enabled with
     | true, true, true => "read_only_battery_and_volume_telemetry_plus_bounded_volume_control"
     | true, false, true => "read_only_battery_telemetry_plus_bounded_volume_control"
     | false, true, true => "read_only_volume_telemetry_plus_bounded_volume_control"
     | false, false, true => "bounded_request_authorized_volume_control"
     | true, true, false => "read_only_battery_and_volume_telemetry"
     | true, false, false => "read_only_battery_telemetry"
     | false, true, false => "read_only_volume_telemetry"
     | false, false, false => "disabled"
     end.
Definition android_platform_mode : bytes :=
  if android_rish_enabled then
    if bytes_eqb legacy_android_platform_mode (bs "disabled") then bs "rish_shell_uid_status_probe"
    else legacy_android_platform_mode ++ bs "_plus_rish_shell_uid_status_probe"
  else legacy_android_platform_mode.
Definition command_execution_mode : bytes :=
  bs (if command_execution_enabled then "fixed_read_only_server_diagnostics" else "disabled").
Definition create_directory_mode : bytes :=
  bs (if create_directory_mutation_enabled then "dry_run_or_request_scoped_single_use_grant"
      else "dry_run_only_mutation_disabled").
Definition copy_file_mode : bytes :=
  bs (if copy_file_mutation_enabled then "dry_run_or_source_content_destination_scoped_single_use_grant"
      else "dry_run_only_mutation_disabled").
Definition trash_file_mode : bytes :=
  bs (if trash_file_mutation_enabled
      then "dry_run_or_identity_content_scoped_single_use_grant_with_recovery_retained"
      else "dry_run_only_mutation_disabled").
Definition write_file_mode : bytes :=
  bs (if write_file_mutation_enabled then "dry_run_or_target_content_disposition_scoped_single_use_grant"
      else "dry_run_only_mutation_disabled").
Definition transport_mode : bytes :=
  bs (if sse_enabled then "streamable-http-2025-11-25-session-scoped-bounded-sse-replay"
      else "streamable-http-2025-11-25-session-scoped-no-sse").

Definition runtime_status_core : list (bytes * Json) :=
  [(bs "server", jstr "termux-mcp-edge");
   (bs "version", JString PACKAGE_VERSION);
   (bs "transport", jstr "streamable_http_2025_11_25");
   (bs "sessionManagement", jstr "bounded_uuid_idle_expiry");
   (bs "serverSentEvents", JBool sse_enabled);
   (bs "serverSentEventsMode", jstr (if sse_enabled then "finite_request_response_with_origin_stream_replay" else "disabled"));
   (bs "sseMaxStreamsPerSession", jnum (N.of_nat MAX_MCP_SSE_STREAMS_PER_SESSION));
   (bs "sseMaxEventsPerStream", jnum (N.of_nat MAX_MCP_SSE_EVENTS_PER_STREAM));
   (bs "sseMaxEventDataBytes", jnum MAX_MCP_SSE_EVENT_DATA_BYTES);
   (bs "sseMaxReplayBytesPerSession", jnum MAX_MCP_SSE_REPLAY_BYTES_PER_SESSION);
   (bs "sseMaxLastEventIdBytes", jnum (N.of_nat MAX_MCP_LAST_EVENT_ID_BYTES));
   (bs "sseRetryMilliseconds", jnum MCP_SSE_RETRY_MILLISECONDS);
   (bs "jsonRpcIdMaxBytes", jnum MAX_MCP_JSON_RPC_ID_BYTES);
   (bs "availableTools", JArray (JString <$> available_tools state));
   (bs "platformInfo", JBool true);
   (bs "platformInfoMode", jstr "read_only_non_sensitive_metadata");
   (bs "androidStatus", JBool true);
   (bs "androidStatusMode", jstr "read_only_allowlisted_status_no_api_or_control");
   (bs "projectServiceStatus", JBool true);
   (bs "projectServiceStatusMode", jstr "read_only_allowlisted_project_service_status");
   (bs "filesystemTools", JBool true);
   (bs "filesystemToolMode", jstr "default_dry_run_grant_gated_create_directory_copy_file_trash_file_write_file_plus_bounded_find_paths_hash_file_list_directory_path_metadata_read_binary_file_read_binary_range_read_file_read_text_range_search_text");
   (bs "pathDiscovery", JBool true);
   (bs "pathDiscoveryMatchMode", jstr "case_sensitive_literal_basename");
   (bs "pathDiscoveryMaxDepth", jnum MAX_FIND_DEPTH);
   (bs "pathDiscoveryMaxEntries", jnum MAX_FIND_ENTRIES);
   (bs "pathDiscoveryMaxMatches", jnum MAX_FIND_MATCHES);
   (bs "pathDiscoveryMaxQueryBytes", jnum MAX_FIND_QUERY_BYTES);
   (bs "pathDiscoveryMaxResponseBytes", jnum MAX_FIND_RESPONSE_BYTES);
   (bs "binaryFileReads", JBool true);
   (bs "binaryFileReadEncoding", jstr "base64");
   (bs "binaryFileReadMaxBytes", jnum MAX_BINARY_READ_BYTES);
   (bs "binaryFileReadMaxResponseBytes", jnum MAX_BINARY_READ_RESPONSE_BYTES);
   (bs "binaryRangeReads", JBool true);
   (bs "binaryRangeReadEncoding", jstr "base64");
   (bs "binaryRangeReadMaxFileBytes", jnum MAX_BINARY_RANGE_FILE_BYTES);
   (bs "binaryRangeReadMaxBytes", jnum MAX_BINARY_RANGE_BYTES);
   (bs "binaryRangeReadMaxResponseBytes", jnum MAX_BINARY_RANGE_RESPONSE_BYTES)].
Definition runtime_status_capabilities : list (bytes * Json) :=
  [(bs "textRangeReads", JBool true);
   (bs "textRangeReadEncoding", jstr "utf-8");
   (bs "textRangeReadMinBytes", jnum MIN_TEXT_RANGE_BYTES);
   (bs "textRangeReadMaxFileBytes", jnum MAX_TEXT_RANGE_FILE_BYTES);
   (bs "textRangeReadMaxBytes", jnum MAX_TEXT_RANGE_BYTES);
   (bs "textRangeReadMaxResponseBytes", jnum MAX_TEXT_RANGE_RESPONSE_BYTES);
   (bs "fileHashing", JBool true);
   (bs "fileHashAlgorithm", jstr "sha256");
   (bs "fileHashMaxBytes", jnum MAX_HASH_FILE_BYTES);
   (bs "createDirectoryMutationEnabled", JBool create_directory_mutation_enabled);
   (bs "createDirectoryMutationMode", JString create_directory_mode);
   (bs "createDirectoryGrantRequired", JBool create_directory_mutation_enabled);
   (bs "createDirectoryGrantHeader", JString REQUEST_GRANT_HEADER);
   (bs "createDirectoryGrantTtlSeconds", jnum GRANT_TTL_SECONDS);
   (bs "copyFileMutationEnabled", JBool copy_file_mutation_enabled);
   (bs "copyFileMode", JString copy_file_mode);
   (bs "copyFileGrantRequired", JBool copy_file_mutation_enabled);
   (bs "copyFileGrantHeader", JString REQUEST_GRANT_HEADER);
   (bs "copyFileGrantTtlSeconds", jnum GRANT_TTL_SECONDS);
   (bs "copyFileGrantBinding", jstr "source_root_path_identity_size_sha256_destination_root_path_absent_no_replace");
   (bs "copyFileMaxBytes", jnum MAX_COPY_FILE_BYTES);
   (bs "copyFileMaxResponseBytes", jnum MAX_COPY_FILE_RESPONSE_BYTES);
   (bs "copyFileResponsePosture", jstr "path_free_bounded_metadata_only");
   (bs "trashFileMutationEnabled", JBool trash_file_mutation_enabled);
   (bs "trashFileMode", JString trash_file_mode);
   (bs "trashFileGrantRequired", JBool trash_file_mutation_enabled);
   (bs "trashFileGrantHeader", JString REQUEST_GRANT_HEADER);
   (bs "trashFileGrantTtlSeconds", jnum GRANT_TTL_SECONDS);
   (bs "trashFileGrantBinding", jstr "root_path_single_link_identity_size_ctime_sha256_recovery_retained");
   (bs "trashFileMaxBytes", jnum MAX_TRASH_FILE_BYTES);
   (bs "trashFileMaxResponseBytes", jnum MAX_TRASH_FILE_RESPONSE_BYTES);
   (bs "trashFileQuarantineMaxArtifacts", jnum MAX_TRASH_FILE_QUARANTINE_ARTIFACTS);
   (bs "trashFileQuarantineMaxBytes", jnum MAX_TRASH_FILE_QUARANTINE_BYTES);
   (bs "trashFileResponsePosture", jstr "path_and_artifact_free_bounded_metadata_only");
   (bs "fileWrites", JBool true);
   (bs "fileWriteMode", JString write_file_mode);
   (bs "fileWriteMutationEnabled", JBool write_file_mutation_enabled);
   (bs "fileWriteGrantRequired", JBool write_file_mutation_enabled);
   (bs "fileWriteGrantHeader", JString REQUEST_GRANT_HEADER);
   (bs "fileWriteGrantTtlSeconds", jnum GRANT_TTL_SECONDS);
   (bs "fileWriteMaxBytes", jnum WritePolicy.DEFAULT_MAX_WRITE_BYTES);
   (bs "fileWriteMaxResponseBytes", jnum MAX_WRITE_FILE_RESPONSE_BYTES);
   (bs "androidPlatformTools", JBool (android_battery_status_enabled || android_volume_status_enabled || android_volume_control_enabled || android_rish_enabled));
   (bs "androidPlatformToolMode", JString android_platform_mode);
   (bs "androidBatteryStatusCompiled", JBool (Config.android_battery_status features));
   (bs "androidBatteryStatusEnabled", JBool android_battery_status_enabled);
   (bs "androidVolumeStatusCompiled", JBool (Config.android_volume_status features));
   (bs "androidVolumeStatusEnabled", JBool android_volume_status_enabled);
   (bs "androidVolumeControlCompiled", JBool (Config.android_volume_control features));
   (bs "androidVolumeControlEnabled", JBool android_volume_control_enabled);
   (bs "androidVolumeControlMode", JString volume_control_mode);
   (bs "androidVolumeGrantRequired", JBool android_volume_control_enabled);
   (bs "androidVolumeGrantHeader", JString REQUEST_GRANT_HEADER);
   (bs "androidVolumeGrantTtlSeconds", jnum ANDROID_VOLUME_GRANT_TTL_SECONDS_IF_COMPILED);
   (bs "androidDeviceControl", JBool android_volume_control_enabled);
   (bs "androidRishCompiled", JBool (Config.android_rish features));
   (bs "androidRishEnabled", JBool android_rish_enabled);
   (bs "androidRishMode", JString android_rish_mode);
   (bs "androidRishPrivilegeBoundary", jstr "adb_shell_uid_2000_only");
   (bs "androidRishArbitraryShell", JBool false);
   (bs "androidRishMutations", JBool false);
   (bs "commandExecutionCompiled", JBool (Config.command_execution features));
   (bs "commandExecution", JBool command_execution_enabled);
   (bs "commandExecutionMode", JString command_execution_mode);
   (bs "arbitraryCommandExecution", JBool false);
   (bs "highImpactTools", JBool android_volume_control_enabled);
   (bs "auditCounters", audit_counters_snapshot)].
Definition runtime_status_text : bytes :=
  bs "termux-mcp-edge runtime_status: transport=" ++ transport_mode
  ++ bs ", platform_info=read-only-non-sensitive, android_status=read-only-allowlisted, android_platform="
  ++ android_platform_mode ++ bs ", android_battery_status=" ++ battery_mode
  ++ bs ", android_volume_status=" ++ volume_mode ++ bs ", android_volume_control=" ++ volume_control_mode
  ++ bs ", android_rish=" ++ android_rish_mode
  ++ bs ", project_service_status=read-only-allowlisted, create_directory_mutation=" ++ create_directory_mode
  ++ bs ", copy_file_mutation=" ++ copy_file_mode ++ bs ", trash_file_mutation=" ++ trash_file_mode
  ++ bs ", write_file_mutation=" ++ write_file_mode
  ++ bs ", filesystem=default-dry-run-grant-gated-create-directory-copy-file-trash-file-write-file-plus-bounded-find-paths-hash-file-list-metadata-binary-read-binary-range-text-read-text-range-search, android_device_control="
  ++ bs (if android_volume_control_enabled then "bounded_request_authorized_volume" else "disabled")
  ++ bs ", command_execution=" ++ command_execution_mode ++ bs ", arbitrary_command_execution=disabled".
End status.

Definition runtime_status_response (id : option Json) (state : McpTransportState) : handler Response :=
  snapshot ← ask AuditCountersSnapshot;
  mret (bounded_json_rpc_ok id
    (result_body id (runtime_status_text state)
       (JObject (runtime_status_core state
                 ++ runtime_status_capabilities state (audit_counters_value snapshot))))
    (bs "Runtime status response exceeds the bounded transport response byte limit.")).
Definition handle_runtime_status_call (id : option Json) (arguments : McpArguments.ToolArguments)
    (state : McpTransportState) : handler Response :=
  if negb (McpArguments.is_omitted_or_empty_object arguments) then
    _ ← record_read_only_denied RUNTIME_STATUS_TOOL RUNTIME_STATUS_GATE RUNTIME_STATUS_ARGUMENTS_DENIED;
    mret (invalid_params id TOOL_ARGUMENTS_INVALID)
  else
    _ ← record_read_only_allowed RUNTIME_STATUS_TOOL RUNTIME_STATUS_GATE RUNTIME_STATUS_ALLOWED;
    runtime_status_response id state.
End responses.

(** ** Editing *)

Lemma json_get_insert key key' v m :
  json_get key (json_insert key' v m) = if bytes_eqb key' key then Some v else json_get key m.
Proof.
  induction m as [|[k u] m IH]; simpl; [done|]. destruct (bytes_eqb k key') eqn:E; simpl.
  - apply bytes_eqb_true in E as ->. by destruct (bytes_eqb key' key).
  - rewrite IH. destruct (bytes_eqb k key) eqn:E2; [|done]. apply bytes_eqb_true in E2 as ->.
    destruct (bytes_eqb key' key) eqn:E3; [|done]. apply bytes_eqb_true in E3 as ->. by rewrite bytes_eqb_refl in E.
Qed.
Lemma json_get_insert_ne key key' v m : key ≠ key' → json_get key (json_insert key' v m) = json_get key m.
Proof. intros H. rewrite json_get_insert. by rewrite (proj2 (bytes_eqb_false _ _)). Qed.
Lemma json_get_insert_eq key v m : json_get key (json_insert key v m) = Some v.
Proof. by rewrite json_get_insert, bytes_eqb_refl. Qed.
End McpDiscovery.
