(* ===== verification/McpTransport.v ===== *)
(** * The MCP endpoint

    [src/src/mcp_transport.rs]: the handler of every request to the endpoint, from
    the Host and Origin policy through the choice of protocol, the session and
    the JSON-RPC message to the tool, and the decoration of its answer. *)

From S2P Require Import Prelude RustStd RustPath Http RequestGrantCapability GrantToken AppErrors AuditEvents JsonRpc.
From S2P Require Import McpSession TransportSecurity AndroidBattery CommandPolicy Config FsCalls.
From S2P Require Import FsReads FsTraverse FsPrepare MutationWorkers StatusTools McpWire McpResponses McpArguments.
From S2P Require Import McpCalls McpReadTools McpDeviceTools McpMutations McpDiscovery.

Module McpTransport.
Import McpSession FsTraverse MutationWorkers McpWire McpResponses McpArguments McpLabels McpCalls.
Import McpReadTools McpDeviceTools McpMutations McpDiscovery.

Inductive Method := GET | POST | DELETE | OtherMethod (name : bytes).

(** [axum::http::HeaderValue::try_from]: visible characters, spaces and tabs. *)
Definition header_value_try_from (value : bytes) : option bytes :=
  if forallb (λ b, (byte_val b =? 9)%N || ((32 <=? byte_val b)%N && negb (byte_val b =? 127)%N)) value
  then Some value else None.

(** [serde_json::Map::remove]. *)
Definition json_remove (key : bytes) (members : list (bytes * Json)) : list (bytes * Json) :=
  List.filter (λ member, negb (bytes_eqb member.1 key)) members.

Section transport.
Context {F : Float64} {FM : FileModes} {C : Crypto} {T : Chrono} {JL : JsonLength} {L : HttpLib} {JT : JsonText}.
Context {B : Build} (features : Config.Features).

(** ** Tools *)

Definition handle_tool_call (id params : option Json) (state : McpTransportState)
    (invocation : ToolInvocationContext) (capability_grant : option bytes) : handler Response :=
  match params ≫= decode_tool_call with
  | None => mret (invalid_params id TOOL_CALL_PARAMS_INVALID)
  | Some call =>
    let name := call_name call in
    let arguments := into_value (call_arguments call) in
    let root := file_tools state in
    if is_some_grant capability_grant
       && negb (contains [CREATE_DIRECTORY_TOOL; COPY_FILE_TOOL; TRASH_FILE_TOOL; WRITE_FILE_TOOL;
                          SET_ANDROID_VOLUME_TOOL] name)
    then mret (capability_context_not_allowed id)
    else if bytes_eqb name RUNTIME_STATUS_TOOL then
      handle_runtime_status_call features id (call_arguments call) state
    else if bytes_eqb name PLATFORM_INFO_TOOL then
      handle_no_argument_tool_call id (call_arguments call) (command_execution_enabled state) platform_info_contract
    else if bytes_eqb name ANDROID_STATUS_TOOL then
      handle_no_argument_tool_call id (call_arguments call) (command_execution_enabled state) android_status_contract
    else if bytes_eqb name ANDROID_BATTERY_STATUS_TOOL then
      handle_android_battery_status_call features id (call_arguments call) state
    else if bytes_eqb name ANDROID_VOLUME_STATUS_TOOL then
      handle_android_volume_status_call features id (call_arguments call) state
    else if bytes_eqb name ANDROID_RISH_STATUS_TOOL then
      handle_android_rish_status_call features id (call_arguments call) state
    else if bytes_eqb name SET_ANDROID_VOLUME_TOOL then
      handle_set_android_volume_call features id arguments state invocation capability_grant
    else if bytes_eqb name PROJECT_SERVICE_STATUS_TOOL then project_service_status_response id arguments
    else if bytes_eqb name CREATE_DIRECTORY_TOOL then
      handle_create_directory_call id arguments state invocation capability_grant
    else if bytes_eqb name COPY_FILE_TOOL then
      handle_copy_file_call id arguments state invocation capability_grant
    else if bytes_eqb name TRASH_FILE_TOOL then
      handle_trash_file_call id arguments state invocation capability_grant
    else if bytes_eqb name FIND_PATHS_TOOL then handle_find_paths_call id arguments root
    else if bytes_eqb name HASH_FILE_TOOL then handle_hash_file_call id arguments root
    else if bytes_eqb name LIST_DIRECTORY_TOOL then handle_list_directory_call id arguments root
    else if bytes_eqb name PATH_METADATA_TOOL then handle_path_metadata_call id arguments root
    else if bytes_eqb name READ_BINARY_FILE_TOOL then handle_read_binary_file_call id arguments root
    else if bytes_eqb name READ_BINARY_RANGE_TOOL then handle_read_binary_range_call id arguments root
    else if bytes_eqb name READ_FILE_TOOL then handle_read_file_call id arguments root
    else if bytes_eqb name READ_TEXT_RANGE_TOOL then handle_read_text_range_call id arguments root
    else if bytes_eqb name SEARCH_TEXT_TOOL then handle_search_text_call id arguments root
    else if bytes_eqb name WRITE_FILE_TOOL then
      handle_write_file_call id arguments state invocation capability_grant
    else if bytes_eqb name CommandPolicy.RUN_COMMAND_PROFILE_TOOL then
      handle_run_command_profile_call features id arguments state
    else mret (method_not_available id (bs "The requested tool is not available in this runtime posture."))
  end.

(** ** Sessions *)

Inductive SessionRequestError :=
| ProtocolVersionRequired
| UnsupportedProtocolVersion
| InvalidProtocolVersionHeader
| SessionRequired
| SessionNotFound
| Store (error : SessionStoreError.t).

Definition session_request_error_response (error : SessionRequestError) : Response :=
  match error with
  | ProtocolVersionRequired =>
    transport_error 400 (bs "protocol_version_required")
      (bs "MCP-Protocol-Version is required after initialization.")
  | UnsupportedProtocolVersion =>
    transport_error 400 (bs "unsupported_protocol_version")
      (bs "MCP-Protocol-Version must match the negotiated protocol version.")
  | InvalidProtocolVersionHeader =>
    transport_error 400 (bs "invalid_protocol_version_header")
      (bs "MCP-Protocol-Version must contain exactly one valid value.")
  | SessionRequired =>
    transport_error 400 (bs "session_required") (bs "MCP-Session-Id is required after initialization.")
  | SessionNotFound =>
    transport_error 404 (bs "session_not_found") (bs "The MCP session does not exist or has expired.")
  | Store error => session_store_error_response error
  end.

(** The two headers a request of a session carries. *)
Definition session_headers (headers : Headers) : Result SessionRequestError bytes :=
  _ ← match single_header_value headers MCP_PROTOCOL_VERSION_HEADER with
      | Ok (Some protocol) =>
        if bytes_eqb protocol MCP_PROTOCOL_VERSION then Ok () else Err UnsupportedProtocolVersion
      | Ok None => Err ProtocolVersionRequired
      | Err _ => Err InvalidProtocolVersionHeader
      end;
  match single_header_value headers MCP_SESSION_ID_HEADER with
  | Ok (Some session_id) =>
    if negb (bytes_eqb session_id []) && (length session_id <=? 128) && forallb (in_range 33 126) session_id
    then Ok session_id else Err SessionNotFound
  | Ok None => Err SessionRequired
  | Err _ => Err SessionNotFound
  end.
Definition validate_session_request (headers : Headers)
    : handler (Result SessionRequestError (bytes * SessionPhase)) :=
  match session_headers headers with
  | Err error => mret (Err error)
  | Ok session_id =>
    phase ← ask (PhaseOfSession session_id);
    mret match phase with Ok phase => Ok (session_id, phase) | Err error => Err (Store error) end
  end.

Definition initialize_body (id : option Json) : Json :=
  JObject [(bs "jsonrpc", jstr "2.0"); (bs "id", id_or_null id);
    (bs "result", JObject
      [(bs "protocolVersion", JString MCP_PROTOCOL_VERSION);
       (bs "serverInfo", JObject [(bs "name", jstr "termux-mcp-edge"); (bs "version", JString PACKAGE_VERSION)]);
       (bs "capabilities", JObject [(bs "tools", JObject [(bs "listChanged", JBool false)])])])].
Definition initialize_response (id params : option Json) : handler Response :=
  if negb (valid_initialize_params params) then
    mret (invalid_params id (bs "initialize params must match the MCP 2025-11-25 schema."))
  else if negb (json_response_fits (initialize_body id) MAX_MCP_COLLECTED_JSON_RESPONSE_BYTES) then
    mret (bounded_payload_too_large id
            (bs "Initialize response exceeds the bounded transport response byte limit.")
            MAX_MCP_COLLECTED_JSON_RESPONSE_BYTES)
  else
    created ← ask CreateSession;
    match created with
    | Err error => mret (session_store_error_response error)
    | Ok session_id =>
      value ← expect (header_value_try_from session_id);
      mret (with_header (result_response (initialize_body id)) MCP_SESSION_ID_HEADER value)
    end.

Definition with_body (response : Response) (content : bytes) : Response :=
  mkResponse (status response) (headers response) (OpaqueBody content).

(** [maybe_sse_response]: a collected result is retained and sent as events. *)
Definition maybe_sse_response (state : McpTransportState) (session_id : bytes) (response : Response)
    : handler Response :=
  if negb (sse_enabled state) || negb (is_json_ok response) then mret response
  else
    match to_bytes (body response) MAX_MCP_COLLECTED_JSON_RESPONSE_BYTES with
    | None => mret (transport_error 500 (bs "sse_response_unavailable")
        (bs "The JSON-RPC response could not be bounded for SSE delivery."))
    | Some content =>
      match json_from_slice content with
      | Err _ => mret (with_body response content)
      | Ok value =>
        let data := json_to_vec value in
        if (MAX_MCP_SSE_EVENT_DATA_BYTES <? N.of_nat (length data))%N then mret (with_body response content)
        else
          recorded ← ask (RecordSseResponse session_id data);
          mret match recorded with
            | Ok events =>
              mkResponse (status response)
                (header_remove
                   (header_insert (headers response) CONTENT_TYPE (bs "text/event-stream; charset=utf-8"))
                   CONTENT_LENGTH) (sse_events_body events)
            | Err SseReplayError.EventDataTooLarge => with_body response content
            | Err error => sse_replay_error_response error
            end
      end
    end.

(** ** The 2025-11-25 transport *)

(** [Err]: a grant header that is not one bounded ASCII value. *)
Definition capability_grant_header (headers : Headers) : Result unit (option bytes) :=
  match single_header_value headers REQUEST_GRANT_HEADER with
  | Ok (Some value) =>
    if negb (bytes_eqb value []) && (length value <=? MAX_REQUEST_GRANT_HEADER_BYTES)
       && forallb is_ascii_byte value
    then Ok (Some value) else Err ()
  | Ok None => Ok None
  | Err _ => Err ()
  end.
Definition envelope_error_response (error : JsonRpc.JsonRpcEnvelopeError) : Response :=
  match error with
  | JsonRpc.ParseError detail => parse_error detail
  | JsonRpc.InvalidRequest id reason =>
    if is_some_and (λ id, negb (json_rpc_id_fits id)) id then json_rpc_id_too_large
    else invalid_request id reason
  end.

(** A message within a session. *)
Definition legacy_message (state : McpTransportState) (session_id : bytes) (phase : SessionPhase)
    (capability_grant : option bytes) (message : JsonRpc.IncomingJsonRpcMessage) : handler Response :=
  let active := match phase with Active => true | AwaitingInitialized => false end in
  match message with
  | JsonRpc.Request id method params =>
    if is_some_grant capability_grant && negb (bytes_eqb method (bs "tools/call")) then
      mret (capability_context_not_allowed (Some id))
    else if bytes_eqb method (bs "ping") then maybe_sse_response state session_id (ping_response (Some id))
    else if negb active then mret (server_not_initialized (Some id))
    else
      response ←
        (if bytes_eqb method (bs "tools/list") then tools_list_response (Some id) state
         else if bytes_eqb method (bs "tools/call") then
           handle_tool_call (Some id) params state (LegacySession session_id) capability_grant
         else mret (method_not_available (Some id)
           (bs "Only ping, tools/list, and tools/call are available after initialization.")));
      maybe_sse_response state session_id response
  | JsonRpc.Notification method _ =>
    if is_some_grant capability_grant then mret (capability_context_not_allowed None)
    else if bytes_eqb method (bs "notifications/initialized") then
      activated ← ask (ActivateSession session_id);
      mret match activated with
        | Ok _ => status_response 202
        | Err error => session_store_error_response error
        end
    else if negb active then mret (server_not_initialized None)
    else mret (status_response 202)
  | JsonRpc.Response =>
    if is_some_grant capability_grant then mret (capability_context_not_allowed None)
    else if negb active then mret (server_not_initialized None)
    else mret (status_response 202)
  end.

Definition legacy_initialize (state : McpTransportState) (headers : Headers) (capability_grant : option bytes)
    (id : Json) (params : option Json) : handler Response :=
  if is_some_grant capability_grant then
    mret (transport_error 400 (bs "capability_context_not_allowed")
            (bs "A request-scoped capability grant is not accepted during initialization."))
  else if contains_key headers MCP_SESSION_ID_HEADER then
    mret (transport_error 400 (bs "session_not_allowed")
            (bs "Initialize requests must not include MCP-Session-Id."))
  else
    response ← initialize_response (Some id) params;
    match value ← header_get (Http.headers response) MCP_SESSION_ID_HEADER; header_to_str value with
    | None => mret response
    | Some session_id => maybe_sse_response state session_id response
    end.

(** The checks of [Content-Type] and [Accept] of both protocols. *)
Definition media_guards (headers : Headers) (content_type accept : bytes) (k : handler Response) : handler Response :=
  if negb (has_json_content_type headers) then
    mret (transport_error 415 (bs "unsupported_content_type") content_type)
  else if negb (accepts_media_type headers APPLICATION_JSON) || negb (accepts_media_type headers TEXT_EVENT_STREAM)
  then mret (transport_error 406 (bs "unsupported_accept") accept)
  else k.

Definition handle_legacy_mcp_post (state : McpTransportState) (headers : Headers) (body : bytes) : handler Response :=
  media_guards headers (bs "MCP POST requests require Content-Type application/json.")
    (bs "MCP POST requests must accept application/json and text/event-stream.") (
  match capability_grant_header headers with
  | Err _ => mret (transport_error 400 (bs "invalid_capability_grant_header")
      (bs "MCP-Capability-Grant must contain exactly one bounded ASCII value."))
  | Ok capability_grant =>
    match JsonRpc.parse_incoming_message body with
    | Err error => mret (envelope_error_response error)
    | Ok message =>
      if match message with JsonRpc.Request id _ _ => negb (json_rpc_id_fits id) | _ => false end
      then mret json_rpc_id_too_large
      else
        let in_session :=
          session ← validate_session_request headers;
          match session with
          | Err error => mret (session_request_error_response error)
          | Ok (session_id, phase) => legacy_message state session_id phase capability_grant message
          end in
        match message with
        | JsonRpc.Request id method params =>
          if bytes_eqb method (bs "initialize") then legacy_initialize state headers capability_grant id params
          else in_session
        | _ => in_session
        end
    end
  end).

(** ** The 2026-07-28 transport *)

Definition supported_protocol_versions (state : McpTransportState) : list bytes :=
  if stateless_2026_07_28_enabled state then [MCP_STATELESS_PROTOCOL_VERSION; MCP_PROTOCOL_VERSION]
  else [MCP_PROTOCOL_VERSION].
Definition server_info : Json :=
  JObject [(bs "name", jstr "termux-mcp-edge"); (bs "version", JString PACKAGE_VERSION)].

Definition stateless_server_discover_response (id : option Json) (state : McpTransportState) : Response :=
  bounded_json_rpc_ok id
    (JObject [(bs "jsonrpc", jstr "2.0"); (bs "id", id_or_null id);
       (bs "result", JObject
         [(bs "supportedVersions", JArray (JString <$> supported_protocol_versions state));
          (bs "capabilities", JObject [(bs "tools", JObject [(bs "listChanged", JBool false)])]);
          (bs "resultType", jstr "complete"); (bs "ttlMs", jnum 0); (bs "cacheScope", jstr "private");
          (bs "_meta", JObject [(STATELESS_SERVER_INFO_META, server_info)])])])
    (bs "Stateless discovery response exceeds the bounded transport response byte limit.").
Definition stateless_protocol_not_supported (id : option Json) (requested : bytes) (state : McpTransportState)
    : Response :=
  json_response 400 (error_body id (-32022) (bs "Protocol version not supported")
    (JObject [(bs "requested", JString requested);
              (bs "supported", JArray (JString <$> supported_protocol_versions state))])).

Definition stateless_live_mutation_requested (params : Json) (tool_name : bytes) : bool :=
  is_mutation_tool tool_name
  && is_some_and (λ dry_run, match dry_run with JBool false => true | _ => false end)
       (params ← as_object params; arguments ← json_get (bs "arguments") params;
        arguments ← as_object arguments; json_get (bs "dry_run") arguments).

(** [constrain_stateless_mutation_schemas], one tool. *)
Definition constrain_tool (tool : Json) : Json :=
  match tool_name_of tool with
  | Some (JString name) =>
    if is_mutation_tool name then
      let tool := index_set (bs "description")
        (jstr "Validate and preview this operation without mutation. Stateless MCP 2026-07-28 does not accept grants or live mutations.") tool in
      default tool (pointer_update DRY_RUN_SCHEMA (λ dry_run,
        index_set (bs "description")
          (jstr "Omit this field or set it to true. Live mutation is unavailable on the stateless transport.")
          (index_set (bs "const") (JBool true) dry_run)) tool)
    else tool
  | _ => tool
  end.
Definition constrain_stateless_mutation_schemas (result : list (bytes * Json)) : list (bytes * Json) :=
  match json_get (bs "tools") result with
  | Some (JArray tools) => json_insert (bs "tools") (JArray (constrain_tool <$> tools)) result
  | _ => result
  end.
Definition append_stateless_runtime_status (result : list (bytes * Json)) (state : McpTransportState)
    : list (bytes * Json) :=
  match json_get (bs "structuredContent") result with
  | Some (JObject status) =>
    json_insert (bs "structuredContent") (JObject
      (json_insert (bs "currentRequestMutationMode") (jstr "read_and_preview_only")
      (json_insert (bs "currentRequestSessionManagement") (jstr "none")
      (json_insert (bs "currentRequestProtocol") (JString MCP_STATELESS_PROTOCOL_VERSION)
      (json_insert (bs "statelessProtocol20260728Enabled") (JBool (stateless_2026_07_28_enabled state))
      (json_insert (bs "supportedProtocolVersions") (JArray (JString <$> supported_protocol_versions state))
         status)))))) result
  | _ => result
  end.

(** The result as the stateless protocol decorates it; [None] where its [_meta]
    is not an object. *)
Definition decorate_result (method : bytes) (tool_name : option bytes) (state : McpTransportState)
    (result : list (bytes * Json)) : option (list (bytes * Json)) :=
  let result := json_insert (bs "resultType") (jstr "complete") result in
  meta ← as_object (default (JObject []) (json_get (bs "_meta") result));
  let result := json_insert (bs "_meta") (JObject (json_insert STATELESS_SERVER_INFO_META server_info meta)) result in
  let result :=
    if bytes_eqb method (bs "tools/list") then
      constrain_stateless_mutation_schemas
        (json_insert (bs "cacheScope") (jstr "private") (json_insert (bs "ttlMs") (jnum 0) result))
    else result in
  Some (if bytes_eqb method (bs "tools/call") && bool_decide (tool_name = Some RUNTIME_STATUS_TOOL)
        then append_stateless_runtime_status result state else result).

Definition stateless_complete_response (id : option Json) (response : Response) (method : bytes)
    (tool_name : option bytes) (state : McpTransportState) : Response :=
  if negb (is_json_ok response) then response
  else
    match to_bytes (body response) MAX_MCP_COLLECTED_JSON_RESPONSE_BYTES with
    | None => internal_error id (bs "The stateless result could not be bounded for metadata decoration.")
    | Some content =>
      match json_from_slice content with
      | Err _ => internal_error id (bs "The stateless result was not valid JSON.")
      | Ok value =>
        match object ← as_object value; result ← json_get (bs "result") object; result ← as_object result;
              Some (object, result) with
        | None => internal_error id (bs "The stateless result envelope was incomplete.")
        | Some (object, result) =>
          match decorate_result method tool_name state result with
          | None => internal_error id (bs "The stateless result metadata was not an object.")
          | Some result =>
            let serialized := json_to_vec (JObject (json_insert (bs "result") (JObject result) object)) in
            let limit := (MAX_MCP_COLLECTED_JSON_RESPONSE_BYTES + MAX_STATELESS_RESPONSE_METADATA_BYTES)%N in
            if (limit <? N.of_nat (length serialized))%N then
              bounded_payload_too_large id
                (bs "Stateless result metadata exceeds the bounded transport response byte limit.") limit
            else mkResponse (status response) (header_remove (headers response) CONTENT_LENGTH)
                   (OpaqueBody serialized)
          end
        end
      end
    end.

(** The metadata of a request: the first rule it breaks. *)
Definition stateless_metadata (params : list (bytes * Json)) : Result bytes bytes :=
  meta ← ok_or (meta ← json_get (bs "_meta") params; as_object meta)
    (bs "Stateless MCP params._meta must contain required request metadata.");
  version ← ok_or
    (version ← json_get STATELESS_PROTOCOL_VERSION_META meta; version ← as_str version;
     if valid_stateless_protocol_version version then Some version else None)
    (bs "Stateless MCP request metadata must contain one bounded protocol version.");
  _ ← fail_if
    (negb (is_some_and valid_client_capabilities
       (capabilities ← json_get STATELESS_CLIENT_CAPABILITIES_META meta; as_object capabilities)))
    (bs "Stateless MCP request metadata must contain valid client capabilities.");
  _ ← fail_if
    (is_some_and (λ value, negb (is_some_and valid_client_implementation (as_object value)))
       (json_get STATELESS_CLIENT_INFO_META meta))
    (bs "Stateless MCP client information does not match the required schema.");
  _ ← fail_if (is_some_and (λ value, negb (valid_progress_token value)) (json_get (bs "progressToken") meta))
    (bs "Stateless MCP progressToken must be a string or number.");
  _ ← fail_if
    (is_some_and (λ value, negb (valid_logging_level value)) (json_get (bs "io.modelcontextprotocol/logLevel") meta))
    (bs "Stateless MCP log level is not supported by the request metadata schema.");
  Ok version.

(** The name a method is routed by, agreed between header and parameters. *)
Definition name_source_field (method : bytes) : option bytes :=
  if bytes_eqb method (bs "tools/call") || bytes_eqb method (bs "prompts/get") then Some (bs "name")
  else if bytes_eqb method (bs "resources/read") then Some (bs "uri")
  else None.
Definition stateless_routed_name (headers : Headers) (method : bytes) (params : list (bytes * Json))
    : Result bytes (option bytes) :=
  match name_source_field method with
  | Some source_field =>
    body_name ← ok_or
      (name ← json_get source_field params; name ← as_str name;
       if negb (bytes_eqb name []) && (length name <=? MAX_MCP_ROUTING_NAME_BYTES) then Some name else None)
      (bs "The named MCP method requires one bounded name or URI in params.");
    header_name ← map_err (λ _, bs "MCP-Name must contain one bounded canonical name or URI.")
      (stateless_name_header headers);
    _ ← fail_if (negb (bytes_eqb header_name body_name))
      (bs "MCP-Name must exactly match the named request parameter.");
    Ok (Some body_name)
  | None =>
    _ ← fail_if (contains_key headers MCP_NAME_HEADER)
      (bs "MCP-Name is valid only for tools/call, resources/read, or prompts/get.");
    Ok None
  end.

(** A request whose headers and metadata were accepted. *)
Definition stateless_method (state : McpTransportState) (id : option Json) (method : bytes)
    (routed_name : option bytes) (params : list (bytes * Json)) : handler Response :=
  let no_parameters (message : bytes) (k : handler Response) :=
    if negb (match params with [] => true | _ => false end) then mret (invalid_params id message) else k in
  if bytes_eqb method (bs "server/discover") then
    no_parameters (bs "server/discover does not accept method parameters beyond _meta.")
      (mret (stateless_server_discover_response id state))
  else if bytes_eqb method (bs "tools/list") then
    no_parameters (bs "tools/list does not accept method parameters beyond _meta.") (
      response ← tools_list_response id state;
      mret (stateless_complete_response id response (bs "tools/list") None state))
  else if bytes_eqb method (bs "tools/call") then
    tool_name ← expect routed_name;
    if negb (contains (available_tools state) tool_name) then
      mret (invalid_params id (bs "The requested tool is unavailable in the current runtime posture."))
    else if stateless_live_mutation_requested (JObject params) tool_name then
      mret (invalid_params id
        (bs "Stateless MCP currently permits mutation tools only with omitted dry_run or explicit dry_run=true."))
    else
      response ← handle_tool_call id (Some (JObject params)) state StatelessReadPreview None;
      mret (stateless_complete_response id response (bs "tools/call") (Some tool_name) state)
  else mret (stateless_method_not_found id).

(** The headers against the metadata, and the routing of the method. *)
Definition stateless_request (state : McpTransportState) (headers : Headers) (id : option Json) (method : bytes)
    (params : list (bytes * Json)) (body_protocol_version : bytes) : handler Response :=
  match bounded_visible_header headers MCP_PROTOCOL_VERSION_HEADER 32 with
  | Err _ => mret (stateless_header_mismatch id
      (bs "MCP-Protocol-Version must contain exactly one bounded value."))
  | Ok header_protocol_version =>
    if negb (bytes_eqb header_protocol_version body_protocol_version) then
      mret (stateless_header_mismatch id (bs "MCP-Protocol-Version must exactly match request metadata."))
    else if negb (bytes_eqb body_protocol_version MCP_STATELESS_PROTOCOL_VERSION)
         || negb (stateless_2026_07_28_enabled state) then
      mret (stateless_protocol_not_supported id body_protocol_version state)
    else
      match bounded_visible_header headers MCP_METHOD_HEADER MAX_MCP_ROUTING_METHOD_BYTES with
      | Err _ => mret (stateless_header_mismatch id
          (bs "MCP-Method must contain exactly one bounded visible ASCII value."))
      | Ok header_method =>
        if negb (bytes_eqb header_method method) then
          mret (stateless_header_mismatch id (bs "MCP-Method must exactly match the JSON-RPC method."))
        else
          match stateless_routed_name headers method params with
          | Err data => mret (stateless_header_mismatch id data)
          | Ok routed_name =>
            if contains_key headers REQUEST_GRANT_HEADER then
              mret (invalid_params id (bs "Stateless MCP does not accept request-scoped capability grants."))
            else stateless_method state id method routed_name params
          end
      end
  end.

Definition handle_stateless_mcp_post (state : McpTransportState) (headers : Headers) (body : bytes)
    : handler Response :=
  media_guards headers (bs "Stateless MCP POST requests require Content-Type application/json.")
    (bs "Stateless MCP POST requests must accept application/json and text/event-stream.") (
  match JsonRpc.parse_incoming_message body with
  | Err error => mret (envelope_error_response error)
  | Ok (JsonRpc.Request id method params) =>
    if negb (json_rpc_id_fits id) then mret json_rpc_id_too_large
    else
      match params ≫= as_object with
      | None => mret (invalid_params (Some id)
          (bs "Stateless MCP params must be an object containing required request metadata."))
      | Some params =>
        match stateless_metadata params with
        | Err message => mret (invalid_params (Some id) message)
        | Ok version => stateless_request state headers (Some id) method (json_remove (bs "_meta") params) version
        end
      end
  | Ok _ => mret (invalid_request None (bs "Stateless MCP accepts JSON-RPC requests only."))
  end).

(** ** The endpoint *)

Definition declares_stateless_request (state : McpTransportState) (headers : Headers) (body : bytes) : bool :=
  if declares_exact_stateless_protocol_header headers || contains_key headers MCP_METHOD_HEADER
     || contains_key headers MCP_NAME_HEADER
  then true
  else
    stateless_2026_07_28_enabled state
    && match json_from_slice body with
       | Err _ => false
       | Ok body =>
         is_some_and (λ version, bytes_eqb version MCP_STATELESS_PROTOCOL_VERSION)
           (body ← as_object body; params ← json_get (bs "params") body; params ← as_object params;
            meta ← json_get (bs "_meta") params; meta ← as_object meta;
            version ← json_get STATELESS_PROTOCOL_VERSION_META meta; as_str version)
       end.
Definition handle_mcp_post (state : McpTransportState) (headers : Headers) (body : bytes) : handler Response :=
  if declares_stateless_request state headers body then handle_stateless_mcp_post state headers body
  else handle_legacy_mcp_post state headers body.

Definition stream_not_allowed : Response := with_header (status_response 405) ALLOW (bs "POST, DELETE").
Definition handle_mcp_get (state : McpTransportState) (headers : Headers) : handler Response :=
  if negb (accepts_media_type headers TEXT_EVENT_STREAM) then
    mret (transport_error 406 (bs "unsupported_accept") (bs "MCP GET requests must accept text/event-stream."))
  else
    session ← validate_session_request headers;
    match session with
    | Err error => mret (session_request_error_response error)
    | Ok (session_id, AwaitingInitialized) => mret (server_not_initialized None)
    | Ok (session_id, Active) =>
      if negb (sse_enabled state) then mret stream_not_allowed
      else
        let invalid := transport_error 400 (bs "invalid_last_event_id")
          (bs "Last-Event-ID must contain exactly one bounded server-issued event ID.") in
        match single_header_value headers MCP_LAST_EVENT_ID_HEADER with
        | Ok (Some last_event_id) =>
          if valid_last_event_id last_event_id then
            replayed ← ask (ReplaySseAfter session_id last_event_id);
            mret match replayed with
              | Ok events => sse_events_response events
              | Err error => sse_replay_error_response error
              end
          else mret invalid
        | Ok None => mret stream_not_allowed
        | Err _ => mret invalid
        end
    end.
Definition handle_mcp_delete (headers : Headers) : handler Response :=
  session ← validate_session_request headers;
  match session with
  | Err error => mret (session_request_error_response error)
  | Ok (session_id, _) =>
    terminated ← ask (TerminateSession session_id);
    mret match terminated with
      | Ok _ => status_response 204
      | Err error => session_store_error_response error
      end
  end.

(** The Host and Origin of a request against the policy. *)
Definition transport_security (state : McpTransportState) (headers : Headers)
    : Result TransportSecurity.Error.t unit :=
  host ← map_err (λ _, TransportSecurity.Error.InvalidHostHeader) (single_header_value headers HOST);
  origin ← map_err (λ _, TransportSecurity.Error.InvalidOriginHeader) (single_header_value headers ORIGIN);
  TransportSecurity.validate_request (security_policy state) host origin.

Definition route_mcp_request (state : McpTransportState) (method : Method) (headers : Headers) (body : bytes)
    : handler Response :=
  match transport_security state headers with
  | Err error => mret (transport_error 403 (bs "transport_security_rejected")
      (TransportSecurity.Error.reason_code error))
  | Ok _ =>
    match method with
    | POST => handle_mcp_post state headers body
    | _ =>
      if declares_exact_stateless_protocol_header headers then mret stateless_method_not_allowed
      else if contains_key headers REQUEST_GRANT_HEADER then mret (capability_context_not_allowed None)
      else
        match method with
        | GET => handle_mcp_get state headers
        | DELETE => handle_mcp_delete headers
        | _ => mret method_not_allowed
        end
    end
  end.
Definition handle_mcp_request (state : McpTransportState) (method : Method) (headers : Headers) (body : bytes)
    : handler Response :=
  response ← route_mcp_request state method headers body;
  mret (with_header response CACHE_CONTROL (bs "no-store")).
End transport.
End McpTransport.
