(* ===== verification/McpLogic.v ===== *)
(** * Reasoning about handlers

    What a run of a handler recorded and started, what a response is, and the
    rules that follow a handler through its calls; then one specification for each
    handler of a tool. *)

From S2P Require Import Prelude RustStd RustPath AppErrors Http RequestGrantCapability GrantToken AndroidVolumeGrant.
From S2P Require Import JsonRpc AuditEvents AndroidVolumeControl CommandPolicy FsCalls SafeRoots Config FsPrepare.
From S2P Require Import FsReads FsTraverse FsMutations FsTools MutationWorkers McpWire McpResponses McpArguments.
From S2P Require Import AndroidBattery McpCalls StatusTools McpReadTools McpDeviceTools McpMutations.
From S2P Require Import McpDiscovery.

Module McpLogic.
Import FsTools FsTraverse MutationWorkers McpWire McpResponses McpLabels McpCalls.

Section logic.
Context {F : Float64} {FM : FileModes} {C : Crypto} {T : Chrono} {JL : JsonLength} {L : HttpLib} {JT : JsonText}.

(** ** Traces *)

Abbreviation trace := (list event).


(** The audit events a run recorded itself, and whether a call starts a worker
    that records its own. *)
Definition recorded_event (e : event) : list Audit.AuditEvent :=
  match event_call e with RecordAuditEvent a => [a] | _ => [] end.
Fixpoint recorded (t : trace) : list Audit.AuditEvent :=
  match t with [] => [] | e :: t => recorded_event e ++ recorded t end.
Definition is_spawn (c : call) : bool :=
  match c with
  | SpawnCreateDirectory _ _ | SpawnCopyFile _ _ _ | SpawnTrashFile _ _ | SpawnWriteFile _ _ _ => true
  | _ => false
  end.
Fixpoint spawned (t : trace) : nat :=
  match t with [] => 0 | e :: t => (if is_spawn (event_call e) then 1 else 0) + spawned t end.

(** What may be asked, whatever has happened since [t]. *)
Definition permits (S : call → trace → Prop) (t : trace) (P : call → trace → Prop) : Prop :=
  ∀ c t', t `suffix_of` t' → P c t' → S c t'.

Lemma permits_later S t t' P : permits S t P → t `suffix_of` t' → permits S t' P.
Proof. intros H Hs c t'' Hs' Hc. apply H; [by etrans|done]. Qed.
Lemma permits_mono S t (P P' : call → trace → Prop) : permits S t P → (∀ c t, P' c t → P c t) → permits S t P'.
Proof. intros H Hp c t' Hs Hc. by apply H, Hp. Qed.

Lemma allowed_ask S c t Q : S c t → (∀ r, Q r (Event c r :: t)) → allowed_all S (ask c) t Q.
Proof. done. Qed.
Lemma allowed_expect S {A} (o : option A) a t Q : o = Some a → Q a t → allowed_all S (expect o) t Q.
Proof. by intros ->. Qed.

(** ** Responses *)

(** A refusal is not a result; what is a result is a JSON-RPC result object that
    fits the collection budget and carries no metadata yet. *)
Definition refused (r : Response) : Prop := is_json_ok r = false.
Definition sound (is_error : bool) (r : Response) : Prop :=
  ∃ members result,
    status r = 200%N ∧ headers r = json_response_headers ∧ body r = JsonBody (JObject members) ∧
    (json_len (JObject members) ≤ MAX_MCP_COLLECTED_JSON_RESPONSE_BYTES)%N ∧
    json_get (bs "result") members = Some (JObject result) ∧
    json_get (bs "_meta") result = None ∧
    json_get (bs "isError") result = Some (JBool is_error).
Definition answered (r : Response) : Prop := refused r ∨ ∃ e, sound e r.

Lemma refused_status s v : s ≠ 200%N → refused (json_response s v).
Proof. intros Hs. unfold refused, is_json_ok. simpl. by rewrite (proj2 (N.eqb_neq s 200)). Qed.
Lemma refused_header r name value : status r ≠ 200%N → refused (with_header r name value).
Proof. intros Hs. unfold refused, is_json_ok. simpl. by rewrite (proj2 (N.eqb_neq _ 200)). Qed.
Lemma refused_bounded_too_large id message limit : refused (bounded_payload_too_large id message limit).
Proof. unfold bounded_payload_too_large. cbv zeta. destruct (json_response_fits _ _); by apply refused_status. Qed.
Lemma refused_bounded_denied id reason limit : refused (bounded_capability_authorization_denied id reason limit).
Proof.
  unfold bounded_capability_authorization_denied. cbv zeta. destruct (json_response_fits _ _); by apply refused_status.
Qed.

Lemma sound_ok_result id text value limit r :
  bounded_ok_result id text value limit = Some r → (limit ≤ MAX_MCP_COLLECTED_JSON_RESPONSE_BYTES)%N → sound false r.
Proof.
  unfold bounded_ok_result. cbv zeta. destruct (N.ltb_spec limit (json_len (result_body id text value))); [done|].
  intros [= <-] Hl. eexists _, _. split_and!; try reflexivity. unfold result_body in *. simpl in *. by etrans.
Qed.
Lemma answered_ok_result id text value : answered (ok_result id text value) ∧
  (∀ e, sound e (ok_result id text value) → e = false).
Proof.
  unfold ok_result. destruct (bounded_ok_result _ _ _ _) as [r|] eqn:E; simpl.
  - pose proof (sound_ok_result _ _ _ _ _ E (reflexivity _)) as Hs. split; [right; by exists false|].
    destruct Hs as (m & res & _ & _ & Hb & _ & Hr & _ & He).
    intros e (m' & res' & _ & _ & Hb' & _ & Hr' & _ & He'). congruence.
  - split; [left; apply refused_bounded_too_large|].
    intros e (m & res & Hst & _). exfalso. revert Hst. unfold bounded_payload_too_large. cbv zeta.
    by destruct (json_response_fits _ _).
Qed.
Lemma sound_json_rpc_ok id members result message is_error :
  json_get (bs "result") members = Some (JObject result) → json_get (bs "_meta") result = None →
  json_get (bs "isError") result = Some (JBool is_error) →
  refused (bounded_json_rpc_ok id (JObject members) message) ∨
  sound is_error (bounded_json_rpc_ok id (JObject members) message).
Proof.
  intros Hr Hm He. unfold bounded_json_rpc_ok. destruct (json_response_fits _ _) eqn:E.
  - right. apply N.leb_le in E. eexists _, _. split_and!; done.
  - left. apply refused_bounded_too_large.
Qed.
Lemma sound_unique e e' r : sound e r → sound e' r → e = e'.
Proof. intros (m & res & _ & _ & Hb & _ & Hr & _ & He) (m' & res' & _ & _ & Hb' & _ & Hr' & _ & He'). congruence. Qed.
Lemma sound_not_refused e r `{!HttpLibLaws L} : sound e r → is_json_ok r = true.
Proof.
  intros (m & res & Hs & Hh & _). unfold is_json_ok, header_get. rewrite Hs, Hh, json_content_type. simpl.
  by rewrite header_to_str_visible.
Qed.
Lemma tool_error_answered id tool name reason :
  refused (tool_error_result id tool name reason) ∨ sound true (tool_error_result id tool name reason).
Proof. by eapply sound_json_rpc_ok. Qed.
End logic.

#[export] Hint Resolve refused_bounded_too_large refused_bounded_denied : responses.
#[export] Hint Extern 1 (refused (json_response _ _)) => apply refused_status; discriminate : responses.
#[export] Hint Extern 1 (refused (with_header _ _ _)) => apply refused_header; by intros : responses.
#[export] Hint Extern 2 (refused ?r) => progress (unfold invalid_params, invalid_params_json, internal_error,
  payload_too_large, resource_changed, capability_context_not_allowed, capability_authorization_denied,
  method_not_available, server_not_initialized, copy_staging_capacity_exhausted, copy_staging_busy,
  trash_recovery_capacity_exhausted, trash_recovery_busy, write_recovery_capacity_exhausted, write_recovery_busy,
  filesystem_mutation_worker_capacity_exhausted, filesystem_mutation_request_cancelled) : responses.
End McpLogic.

(** * What a tool asks for, records and answers

    One specification for each handler of a tool: the calls it may make, the audit
    events it leaves, and the response it gives. *)

Module McpToolSpecs.
Import FsReads FsTraverse FsTools MutationWorkers McpWire McpResponses McpArguments McpLabels McpCalls.
Import McpReadTools McpDeviceTools McpMutations McpDiscovery McpLogic.

Section specs.
Context {F : Float64} {FM : FileModes} {C : Crypto} {T : Chrono} {JL : JsonLength} {L : HttpLib} {JT : JsonText}.
Context {B : Build} (features : Config.Features).

(** ** Reading tools *)

Definition audit_call (c : call) : Prop := match c with CurrentUnixSeconds | RecordAuditEvent _ => True | _ => False end.
Definition read_call (root : SafeRoots.PinnedSafeRootSet) (c : call) (_ : list event) : Prop :=
  audit_call c ∨ match c with Look A p => reading root _ A p | _ => False end.

(** One event, which allows what was answered and denies what was refused. *)
Definition read_outcome (t : list event) (r : Response) (t' : list event) : Prop :=
  ∃ e, recorded t' = e :: recorded t ∧ spawned t' = spawned t ∧ Audit.mode e = Audit.ReadOnly ∧
    ((Audit.decision e = Audit.Allowed ∧ sound false r) ∨ (Audit.decision e = Audit.Denied ∧ refused r)).

(** The calls of [p] are permitted and [p] ends well. *)
Definition follows {A} (P : call → list event → Prop) (p : handler A) (O : list event → A → list event → Prop) : Prop :=
  ∀ S t t0, permits S t P → t `suffix_of` t0 → ∀ Q, (∀ a t', t0 `suffix_of` t' → O t0 a t' → Q a t') → allowed_all S p t0 Q.

Lemma follows_intro {A} P (p : handler A) (O : list event → A → list event → Prop) :
  (∀ S t, permits S t P → allowed_all S p t (λ a t', t `suffix_of` t' ∧ O t a t')) → follows P p O.
Proof.
  intros H S t t0 HS Ht Q HQ. eapply allowed_mono; [apply H; by eapply permits_later|].
  intros a t' [??]. by apply HQ.
Qed.

Lemma denied_read_follows P tool gate reason r :
  (∀ c t, audit_call c → P c t) → refused r → follows P (denied_read tool gate reason r) read_outcome.
Proof.
  intros HP Hr. apply follows_intro. intros S t HS. apply allowed_bind, allowed_bind, allowed_ask.
  { by apply HS, HP. }
  intros now. apply allowed_ask; [apply HS; [by apply suffix_cons_r|by apply HP]|]. intros [].
  split; [by do 2 apply suffix_cons_r|]. eexists. split_and!; try reflexivity. by right.
Qed.
Lemma finish_read_follows P tool gate allowed id summary value limit message :
  (∀ c t, audit_call c → P c t) → (limit ≤ MAX_MCP_COLLECTED_JSON_RESPONSE_BYTES)%N →
  follows P (finish_read tool gate allowed id summary value limit message) read_outcome.
Proof.
  intros HP Hl. unfold finish_read. destruct (bounded_ok_result _ _ _ _) as [r|] eqn:E.
  - apply follows_intro. intros S t HS. apply allowed_bind, allowed_bind, allowed_ask; [by apply HS, HP|].
    intros now. apply allowed_ask; [apply HS; [by apply suffix_cons_r|by apply HP]|]. intros [].
    split; [by do 2 apply suffix_cons_r|]. eexists. split_and!; try reflexivity. left.
    split; [done|]. by eapply sound_ok_result.
  - apply denied_read_follows; [done|]. apply refused_bounded_too_large.
Qed.
(** A look leaves no event behind. *)
Lemma look_follows root P A p k :
  (∀ c t, read_call root c t → P c t) → reading root _ A p → (∀ r, follows P (k r) read_outcome) →
  follows P (r ← ask (Look A p); k r) read_outcome.
Proof.
  intros HP Hp Hk. apply follows_intro. intros S t HS. apply allowed_bind, allowed_ask.
  { apply HS; [done|]. by apply HP; right. }
  intros r. eapply (Hk r S t); [done|by apply suffix_cons_r|]. intros a t' Ht (e & ? & ? & ? & ?).
  split; [etrans; [by apply suffix_cons_r|done]|]. by exists e.
Qed.
Lemma read_arguments_follows {A} P tool gate id (decode : Json → option A) missing arguments k :
  (∀ c t, audit_call c → P c t) → (∀ args, follows P (k args) read_outcome) →
  follows P (read_arguments tool gate id decode missing arguments k) read_outcome.
Proof.
  intros HP Hk. unfold read_arguments. destruct arguments as [v|]; [destruct (decode v)|]; [apply Hk|..];
    apply denied_read_follows; auto with responses.
Qed.
Lemma depth_guard_follows P tool gate id low high argument depth k :
  (∀ c t, audit_call c → P c t) → follows P k read_outcome →
  follows P (depth_guard tool gate id low high argument depth k) read_outcome.
Proof.
  intros HP Hk. unfold depth_guard. destruct depth as [d|]; [|done].
  destruct (negb _); [apply denied_read_follows|]; auto with responses.
Qed.

#[local] Hint Constructors reading : responses.

Ltac reads :=
  repeat first
    [ apply read_arguments_follows; [by left|intros ?]
    | apply depth_guard_follows; [by left|]
    | eapply look_follows; [done|auto with responses|intros []]
    | apply finish_read_follows; [by left|done]
    | apply denied_read_follows; [by left|auto with responses]
    | match goal with |- follows _ (match ?x with _ => _ end) _ => destruct x end ].

Section reading_tools.
Context (root : SafeRoots.PinnedSafeRootSet) (id arguments : option Json).
Abbreviation reads h := (follows (read_call root) (h id arguments root) read_outcome).

Lemma list_directory_spec : reads handle_list_directory_call.
Proof. unfold handle_list_directory_call. reads. Qed.
Lemma path_metadata_spec : reads handle_path_metadata_call.
Proof. unfold handle_path_metadata_call. reads. Qed.
Lemma read_binary_file_spec : reads handle_read_binary_file_call.
Proof. unfold handle_read_binary_file_call. reads. Qed.
Lemma read_binary_range_spec : reads handle_read_binary_range_call.
Proof. unfold handle_read_binary_range_call. reads. Qed.
Lemma read_text_range_spec : reads handle_read_text_range_call.
Proof. unfold handle_read_text_range_call. reads. Qed.
Lemma read_file_spec : reads handle_read_file_call.
Proof. unfold handle_read_file_call. reads. Qed.
Lemma find_paths_spec : reads handle_find_paths_call.
Proof. unfold handle_find_paths_call. reads. Qed.
Lemma hash_file_spec : reads handle_hash_file_call.
Proof. unfold handle_hash_file_call. reads. Qed.
Lemma search_text_spec : reads handle_search_text_call.
Proof. unfold handle_search_text_call. reads. Qed.
End reading_tools.

(** ** Status tools and commands *)

(** One event, which allows what was answered as a success. *)
Definition tool_outcome (t : list event) (r : Response) (t' : list event) : Prop :=
  ∃ e, recorded t' = e :: recorded t ∧ spawned t' = spawned t ∧ answered r ∧
    (sound false r → Audit.decision e = Audit.Allowed).

Definition device_call (state : McpTransportState) (c : call) (_ : list event) : Prop :=
  audit_call c ∨
  match c with
  | AuditCountersSnapshot | AvailableParallelism => True
  | CollectBattery => Config.android_battery_status features = true ∧ android_battery_status_enabled state = true
  | CollectVolume => Config.android_volume_status features = true ∧ android_volume_status_enabled state = true
  | ProbeRish => Config.android_rish features = true ∧ has_rish_backend_client state = true
  | ExecuteCommand profile =>
    Config.command_execution features = true ∧ command_execution_enabled state = true ∧
    has_command_execution_client state = true ∧ profile ∈ CommandPolicy.COMMAND_PROFILES
  | _ => False
  end.

Lemma read_tool_outcome t r t' : HttpLibLaws L → read_outcome t r t' → tool_outcome t r t'.
Proof.
  intros HL (e & Hr & Hs & _ & [[He Hok]|[He Hno]]); exists e; split_and!; try done.
  - right. by exists false.
  - by left.
  - intros Hok. exfalso. apply sound_not_refused in Hok; [|done]. unfold refused in Hno. congruence.
Qed.

Lemma follows_mono {A} P P' (p : handler A) O O' :
  follows P p O → (∀ c t, P c t → P' c t) → (∀ t a t', O t a t' → O' t a t') → follows P' p O'.
Proof.
  intros Hp HP HO S t t0 HS Ht Q HQ. eapply (Hp S t t0); [by eapply permits_mono|done|].
  intros a t' Hs Ho. by apply HQ; [|apply HO].
Qed.

(** Symbolic execution of a handler. *)
Lemma audit_device state c t : audit_call c → device_call state c t.
Proof. by left. Qed.
Lemma permits_at S t P c : permits S t P → P c t → S c t.
Proof. intros HS. by apply HS. Qed.
Lemma follows_follows {A} P (p : handler A) O O' S t t0 :
  follows P p O → permits S t P → t `suffix_of` t0 → (∀ a t', O t0 a t' → O' a t') →
  allowed_all S p t0 (λ a t', t `suffix_of` t' ∧ O' a t').
Proof.
  intros Hp HS Ht HO. eapply Hp; [exact HS|done|]. intros a t' Hs Ho. split; [by etrans|by apply HO].
Qed.

Ltac suffix := solve [repeat first [reflexivity | apply suffix_cons_r]].
Ltac permit HS P := eapply HS; [suffix|P].
Ltac run HS P :=
  repeat (cbv beta iota;
    match goal with
    | |- allowed_all _ (mret ?a) ?t ?Q => change (Q a t); cbv beta
    | |- allowed_all _ (Return ?a) ?t ?Q => change (Q a t); cbv beta
    | |- allowed_all ?S (ask ?c) ?t ?Q => apply (allowed_ask S c t Q); [permit HS P|intros ?]
    | |- allowed_all _ (Ask _ _) _ _ => split; [permit HS P|intros ?]
    | |- allowed_all _ (_ ≫= _) _ _ => apply allowed_bind
    | |- allowed_all _ (expect (Some _)) _ _ => eapply allowed_expect; [reflexivity|]
    | |- allowed_all _ (match ?x with _ => _ end) _ _ => destruct x eqn:?
    | |- allowed_all _ (record_audit_event _) _ _ => unfold record_audit_event
    | |- allowed_all _ (record_read_only_allowed _ _ _) _ _ => unfold record_read_only_allowed
    | |- allowed_all _ (record_read_only_denied _ _ _) _ _ => unfold record_read_only_denied
    | |- allowed_all _ (record_filesystem_denied _ _ _ _) _ _ => unfold record_filesystem_denied
    | |- allowed_all _ (record_filesystem_allowed _ _ _ _) _ _ => unfold record_filesystem_allowed
    | |- allowed_all _ (record_volume_control_decision _ _ _) _ _ => unfold record_volume_control_decision
    end).
Ltac one_event :=
  split; [suffix|]; eexists; split_and!; [reflexivity|reflexivity|..].

(** Responses that are refusals, results or errors of a tool. *)
Lemma not_sound r : refused r → HttpLibLaws L → ∀ e, ¬ sound e r.
Proof. intros Hr HL e He. apply sound_not_refused in He; [|done]. unfold refused in Hr. congruence. Qed.
Lemma answered_refused r : refused r → answered r.
Proof. by left. Qed.
Lemma answered_tool_error id tool name reason : answered (tool_error_result id tool name reason).
Proof. destruct (tool_error_answered id tool name reason); [by left|right; by exists true]. Qed.
Lemma tool_error_not_sound id tool name reason : HttpLibLaws L → ¬ sound false (tool_error_result id tool name reason).
Proof.
  intros HL Hs. destruct (tool_error_answered id tool name reason) as [Hr|He].
  - by eapply not_sound.
  - by pose proof (sound_unique _ _ _ Hs He).
Qed.
Lemma answered_json_rpc_ok id members result message is_error :
  json_get (bs "result") members = Some (JObject result) → json_get (bs "_meta") result = None →
  json_get (bs "isError") result = Some (JBool is_error) → answered (bounded_json_rpc_ok id (JObject members) message).
Proof. intros Hr Hm He. edestruct sound_json_rpc_ok as [|]; [exact Hr|exact Hm|exact He|by left|right; eauto]. Qed.
#[local] Hint Resolve answered_refused answered_tool_error : responses.

Context {HL : HttpLibLaws L}.

Ltac finished :=
  first
    [ done
    | solve [auto with responses]
    | apply answered_ok_result
    | intros ?Hs; exfalso; solve
        [ by apply tool_error_not_sound in Hs
        | revert Hs; apply not_sound; [auto with responses|exact HL] ] ].
Ltac device := apply follows_intro; intros S t HS; run HS ltac:(first [by left | right; repeat split; eassumption]);
  (one_event; finished).

Section device_tools.
Context (state : McpTransportState) (id : option Json).
Abbreviation device h := (follows (device_call state) h tool_outcome).

Lemma denied_tool_spec tool gate reason r :
  answered r → ¬ sound false r → device (denied_tool tool gate reason r).
Proof. intros Hr He. unfold denied_tool. device. Qed.

Lemma platform_info_spec arguments b : device (handle_no_argument_tool_call id arguments b platform_info_contract).
Proof. unfold handle_no_argument_tool_call, denied_tool. cbn [response_builder platform_info_contract]. unfold platform_info_response. device. Qed.
Lemma android_status_spec arguments b : device (handle_no_argument_tool_call id arguments b android_status_contract).
Proof. unfold handle_no_argument_tool_call, denied_tool. cbn [response_builder android_status_contract]. unfold android_status_response. device. Qed.
Lemma project_service_spec arguments : device (project_service_status_response id arguments).
Proof. unfold project_service_status_response, denied_tool, allowed_tool. device. Qed.

Lemma result_body_not_error text value message :
  answered (bounded_json_rpc_ok id (result_body id text value) message).
Proof. unfold result_body. eapply answered_json_rpc_ok; reflexivity. Qed.
Lemma runtime_status_spec arguments : device (handle_runtime_status_call features id arguments state).
Proof.
  unfold handle_runtime_status_call, runtime_status_response.
  apply follows_intro; intros S t HS; run HS ltac:(first [by left | by right]); one_event; try finished.
  apply result_body_not_error.
Qed.

(** A provider is asked when it is compiled in and enabled. *)
Ltac provider := unfold provider_call, denied_tool, allowed_tool;
  apply follows_intro; intros S t HS; run HS ltac:(first [by left | right; split; by apply negb_false_iff]);
  (one_event; finished).
Lemma battery_spec arguments : device (handle_android_battery_status_call features id arguments state).
Proof. unfold handle_android_battery_status_call. provider. Qed.
Lemma volume_status_spec arguments : device (handle_android_volume_status_call features id arguments state).
Proof. unfold handle_android_volume_status_call. provider. Qed.
Lemma rish_status_spec arguments : device (handle_android_rish_status_call features id arguments state).
Proof. unfold handle_android_rish_status_call. provider. Qed.

Lemma command_policy_profile name enabled safe :
  CommandPolicy.allowed (CommandPolicy.evaluate name enabled safe) = true →
  enabled = true ∧ ∃ p, CommandPolicy.profile (CommandPolicy.evaluate name enabled safe) = Some p ∧
    p ∈ CommandPolicy.COMMAND_PROFILES.
Proof.
  unfold CommandPolicy.evaluate. cbv zeta. destruct enabled; [|done].
  destruct (if length name <=? _ then _ else _) as [p|] eqn:Ep; [|done]. destruct safe; [|done]. intros _.
  split; [done|]. exists p. split; [done|]. destruct (length name <=? _); [|done].
  by apply CommandPolicy.find_profile_Some in Ep as [? _].
Qed.
Lemma command_decision now d : CommandPolicy.allowed d = true →
  Audit.decision (CommandPolicy.audit_decision now d) = Audit.Allowed.
Proof. unfold CommandPolicy.audit_decision. intros ->. by destruct (CommandPolicy.profile d). Qed.
Lemma command_spec arguments : device (handle_run_command_profile_call features id arguments state).
Proof.
  unfold handle_run_command_profile_call, denied_tool, command_refused, record_command_policy_decision.
  cbv zeta. apply follows_intro; intros S t HS.
  run HS ltac:(by left); try (one_event; finished).
  match goal with H : negb (CommandPolicy.allowed _) = false |- _ =>
    apply negb_false_iff in H; rename H into Ha end.
  pose proof (command_policy_profile _ _ _ Ha) as (Hen & p & Hp & Hin).
  eapply allowed_expect; [exact Hp|].
  run HS ltac:(first [by left | right; split_and!; first [done | by apply negb_false_iff]]);
    (one_event; [finished|first [intros _; by apply command_decision | finished]]).
Qed.
End device_tools.

(** ** Volume control *)

Section volume.
Context (state : McpTransportState) (id arguments : option Json) (invocation : ToolInvocationContext).
Context (capability_grant : option bytes).

(** What a caller must have sent for a live change of [stream] to [level]. *)
Definition volume_requested (stream : AndroidVolume.AndroidVolumeStreamName) (level : Z) (dry_run : bool) : Prop :=
  ∃ v args, arguments = Some v ∧ decode_set_android_volume v = Some args ∧
    default true (volume_dry_run args) = dry_run ∧ volume_level args = level ∧
    AndroidVolume.stream_from_str (volume_stream args) = Some stream ∧
    Config.android_volume_control features = true ∧ android_volume_control_enabled state = true.
Definition volume_call (c : call) (t : list event) : Prop :=
  audit_call c ∨
  match c with
  | PreviewVolume stream level => volume_requested stream level true
  | PrepareVolume stream level => volume_requested stream level false ∧ is_Some (legacy_session invocation)
  | ConsumeVolumeGrant authority token session_id target _ =>
    android_volume_control_authority state = Some authority ∧ token = capability_grant ∧
    legacy_session invocation = Some session_id ∧
    ∃ stream level, volume_requested stream level false ∧
      AndroidVolume.AndroidVolumeGrantTarget_new stream level = Ok target
  | ExecuteVolume prepared =>
    ∃ stream level authority session_id target now,
      volume_requested stream level false ∧ legacy_session invocation = Some session_id ∧
      android_volume_control_authority state = Some authority ∧
      AndroidVolume.AndroidVolumeGrantTarget_new stream level = Ok target ∧
      Event (PrepareVolume stream level) (Ok prepared) ∈ t ∧
      Event (ConsumeVolumeGrant authority capability_grant session_id target now) (Ok ()) ∈ t
  | Panic => android_volume_control_enabled state = true ∧ android_volume_control_authority state = None
  | _ => False
  end.

Lemma volume_spec :
  follows volume_call (handle_set_android_volume_call features id arguments state invocation capability_grant)
    tool_outcome.
Proof.
  unfold handle_set_android_volume_call, volume_denied, volume_control_error_response. cbv zeta.
  apply follows_intro; intros S t HS.
  destruct (arguments ≫= decode_set_android_volume) as [args|] eqn:Ea; [|run HS ltac:(by left); one_event; finished].
  destruct arguments as [v|] eqn:Ev; [|done]. simpl in Ea.
  run HS ltac:(first [by left | right; exists v, args; split_and!; first [done|by apply negb_false_iff|idtac]]);
    try (one_event; finished).
  destruct (legacy_session invocation) as [sid|] eqn:Es; [|done].
  rename a into stream. set (level := volume_level args) in *.
  assert (volume_requested stream level false) as Hreq
    by (exists v, args; split_and!; first [done|by apply negb_false_iff]).
  eapply allowed_expect; [reflexivity|].
  run HS ltac:(first [by left | right; split; [exact Hreq|by eexists]]); try (one_event; finished).
  unfold apply_volume, volume_denied, volume_audit_finish, volume_control_worker_error_response. cbv zeta.
  destruct (AndroidVolume.AndroidVolumeGrantTarget_new stream level) as [target|] eqn:Et;
    [|run HS ltac:(by left); one_event; finished].
  destruct (android_volume_control_authority state) as [authority|] eqn:Eauth.
  2: { apply allowed_bind. split; [|done]. permit HS ltac:(right; split; [|done]).
       by destruct Hreq as (? & ? & ? & ? & ? & ? & ? & ? & ?). }
  run HS ltac:(first [by left | right; split_and!; [done..|by exists stream, level]]);
    try (one_event; finished).
  rename a into prepared. destruct a0.
  run HS ltac:(first [by left
    | right; exists stream, level, authority, sid, target; eexists; split_and!; try done;
      [apply list_elem_of_further, list_elem_of_further, list_elem_of_here|apply list_elem_of_here]]);
    (one_event; finished).
Qed.
End volume.

(** ** Mutations *)

(** A live call leaves its event to the worker; an answer is what the worker
    completed. *)
Definition completed (e : event) : Prop :=
  match event_call e as c return answer c → Prop with
  | SpawnCreateDirectory _ _ | SpawnCopyFile _ _ _ | SpawnTrashFile _ _ | SpawnWriteFile _ _ _ =>
    λ r, ∃ v, r = Some (Completed (Ok v))
  | _ => λ _, False
  end (event_answer e).
Definition mutation_outcome (t : list event) (r : Response) (t' : list event) : Prop :=
  answered r ∧
  ((∃ e, recorded t' = e :: recorded t ∧ spawned t' = spawned t ∧
      (sound false r → Audit.decision e = Audit.Allowed)) ∨
   (spawned t' = S (spawned t) ∧
    (recorded t' = recorded t ∨
     (refused r ∧ ∃ e, recorded t' = e :: recorded t ∧ Audit.decision e = Audit.Denied)) ∧
    (sound false r → ∃ e, e ∈ t' ∧ completed e))).

Section mutations.
Context (state : McpTransportState) (id arguments : option Json) (invocation : ToolInvocationContext).
Context (capability_grant : option bytes).

Definition credentialed (authority : option GrantAuthority) (credentials : Credentials) (t : list event) : Prop :=
  authority = Some (MutationWorkers.authority credentials) ∧
  is_Some capability_grant ∧ MutationWorkers.capability_grant credentials = capability_grant ∧
  legacy_session invocation = Some (MutationWorkers.session_id credentials) ∧ Event TryAcquireWorker true ∈ t.
(** The arguments, as the handler reads them, ask for more than a preview. *)
Definition live {U} (decode : Json → option U) (dry_run : U → option bool) (ok : U → Prop) : Prop :=
  ∃ v args, arguments = Some v ∧ decode v = Some args ∧ dry_run args = Some false ∧ ok args.

Definition mutation_call (tool : bytes) (c : call) (t : list event) : Prop :=
  audit_call c ∨
  match c with
  | Look A p =>
    reading (file_tools state) _ A p ∧
    (is_Some capability_grant → tool = CREATE_DIRECTORY_TOOL ∨ tool = WRITE_FILE_TOOL)
  | TryAcquireWorker => is_Some (legacy_session invocation)
  | SpawnCreateDirectory credentials path =>
    tool = CREATE_DIRECTORY_TOOL ∧ live decode_create_directory mutation_dry_run (λ args, mutation_path args = path) ∧
    credentialed (create_directory_authority state) credentials t
  | SpawnCopyFile credentials source destination =>
    tool = COPY_FILE_TOOL ∧ live decode_copy_file copy_dry_run
      (λ args, copy_source_path args = source ∧ copy_destination_path args = destination) ∧
    credentialed (copy_file_authority state) credentials t
  | SpawnTrashFile credentials path =>
    tool = TRASH_FILE_TOOL ∧ live decode_trash_file mutation_dry_run (λ args, mutation_path args = path) ∧
    credentialed (trash_file_authority state) credentials t
  | SpawnWriteFile credentials path content =>
    tool = WRITE_FILE_TOOL ∧ live decode_write_file write_dry_run (λ args, write_path args = path ∧ write_content args = content) ∧
    credentialed (write_file_authority state) credentials t
  | _ => False
  end.

Lemma default_true_false o : default true o = false → o = Some false.
Proof. destruct o as [[]|]; naive_solver. Qed.
Ltac one_denial := split; [suffix|]; split; [finished|left; eexists; split_and!; [reflexivity|reflexivity|finished]].

Lemma denied_write_spec P tool mode reason r :
  (∀ c t, audit_call c → P c t) → refused r → follows P (denied_write tool mode reason r) mutation_outcome.
Proof. intros HP Hr. unfold denied_write. apply follows_intro; intros S t HS. run HS ltac:(by apply HP). one_denial. Qed.

(** What a spawn leaves behind. *)
Definition spawn_outcome {U} (t : list event) (r : option (WorkerOutcome U)) (t' : list event) : Prop :=
  spawned t' = S (spawned t) ∧ recorded t' = recorded t ∧
  ((∃ v, r = Some (Completed (Ok v))) → ∃ e, e ∈ t' ∧ completed e).

Lemma await_worker_spec {U} P tool failed limit authority spawn (finish : Result AppErrors.AppErrors.AppError U → handler Response) :
  (∀ c t, audit_call c → P c t) → (∀ t, is_Some (legacy_session invocation) → P TryAcquireWorker t) →
  is_Some (legacy_session invocation) → is_Some authority → is_Some capability_grant →
  (∀ S t cr Q, permits S t P → credentialed authority cr t →
     (∀ r t', t `suffix_of` t' → spawn_outcome t r t' → Q r t') → allowed_all S (spawn cr) t Q) →
  (∀ r S t, permits S t P → allowed_all S (finish r) t (λ a t', t `suffix_of` t' ∧ spawned t' = spawned t ∧
     answered a ∧ (sound false a → ∃ v, r = Ok v) ∧
     (recorded t' = recorded t ∨ (refused a ∧ ∃ e, recorded t' = e :: recorded t ∧ Audit.decision e = Audit.Denied)))) →
  follows P (answer_operation (await_worker tool failed limit id (legacy_session invocation) authority
               capability_grant spawn) finish) mutation_outcome.
Proof.
  intros HP Ht [sid Hsid] [a ->] [g Hg] Hspawn Hfinish. apply follows_intro. intros S t HS.
  apply allowed_bind. unfold await_worker. rewrite Hsid. apply allowed_bind.
  eapply allowed_expect; [reflexivity|]. apply allowed_bind.
  apply (allowed_ask S TryAcquireWorker); [permit HS ltac:(by apply Ht; eexists)|]. intros [|]; cbn [negb].
  2: { run HS ltac:(by apply HP). one_denial. }
  apply allowed_bind. eapply allowed_expect; [reflexivity|]. apply allowed_bind.
  eapply Hspawn; [eapply permits_later; [done|suffix]|split_and!; try done; apply list_elem_of_here|].
  intros r t' Ht' (Hsp & Hrec & Hdone). assert (t `suffix_of` t') as Htt by (etrans; [|exact Ht']; suffix).
  change (spawned t' = Datatypes.S (spawned t)) in Hsp. change (recorded t' = recorded t) in Hrec.
  assert (∀ w, refused w → t `suffix_of` t' ∧ mutation_outcome t w t') as Hrefused.
  { intros w Hw. split; [done|]. split; [by left|]. right. split_and!; [done|by left|].
    intros Hs. exfalso. by eapply not_sound. }
  assert (∀ o : Result AppErrors.AppErrors.AppError U, ((∃ v, o = Ok v) → ∃ e, e ∈ t' ∧ completed e) →
    allowed_all S (finish o) t' (λ a t', t `suffix_of` t' ∧ mutation_outcome t a t')) as Hfin.
  { intros o Ho. eapply allowed_mono; [apply Hfinish; by eapply permits_later|].
    intros w t2 (Hs2 & Hsp2 & Hans & Hok & Hr2). split; [by etrans|]. split; [done|]. right.
    rewrite Hsp2, <-Hrec. split_and!; [done|done|]. intros Hs.
    destruct (Ho (Hok Hs)) as (e & He & Hc). exists e. split; [|done].
    destruct Hs2 as [l ->]. apply elem_of_app. by right. }
  destruct r as [[[v|[error|error|]]|]|]; cbn [mret handler_ret allowed_all].
  - apply Hfin. intros _. apply Hdone. by exists v.
  - apply Hrefused. auto with responses.
  - apply Hfin. by intros [? ?].
  - apply Hrefused. auto with responses.
  - apply Hrefused. auto with responses.
  - apply Hfin. by intros [? ?].
Qed.

Section finishing.
Context {U : Type} (P : call → list event → Prop) (tool : bytes) (limit : N) (always : bool).
Context (success_text too_large allowed : bytes) (value : U → Json).
Context (error : Audit.AuditMode → AppErrors.AppErrors.AppError → handler Response).
Context (error_response : AppErrors.AppErrors.AppError → Response).
Context (HP : ∀ c t, audit_call c → P c t) (Hlimit : (limit ≤ MAX_MCP_COLLECTED_JSON_RESPONSE_BYTES)%N).
Context (Herror : ∀ m e, follows P (error m e) mutation_outcome) (Hresponse : ∀ e, refused (error_response e)).

Lemma finish_live_spec r S t : permits S t P →
  allowed_all S (finish_write tool limit id false always success_text too_large allowed value error error_response r) t
    (λ a t', t `suffix_of` t' ∧ spawned t' = spawned t ∧ answered a ∧ (sound false a → ∃ v, r = Ok v) ∧
     (recorded t' = recorded t ∨ (refused a ∧ ∃ e, recorded t' = e :: recorded t ∧ Audit.decision e = Audit.Denied))).
Proof.
  intros HS. destruct r as [v|e]; simpl.
  - destruct (bounded_ok_result _ _ _ _) as [resp|] eqn:E.
    + split_and!; [done|done| |by exists v|by left]. right. exists false. by eapply sound_ok_result.
    + destruct always.
      * unfold denied_write. run HS ltac:(by apply HP). split; [suffix|]. split; [done|].
        split; [finished|]. split; [by exists v|]. right. split; [auto with responses|]. by eexists.
      * split_and!; [done|done|finished|by exists v|by left].
  - split_and!; [done|done|by left| |by left]. intros Hs. by apply not_sound in Hs.
Qed.
Lemma preview_spec p :
  (∀ t, P (Look U p) t) →
  follows P (answer_operation (previewed p)
    (finish_write tool limit id true always success_text too_large allowed value error error_response)) mutation_outcome.
Proof.
  intros Hp. apply follows_intro. intros S t HS. apply allowed_bind, allowed_bind.
  apply (allowed_ask S (Look U p)); [by apply HS|]. intros [v|e]; cbn [mret handler_ret allowed_all finish_write].
  - destruct (bounded_ok_result _ _ _ _) as [resp|] eqn:E; cbn [orb].
    + run HS ltac:(by apply HP). split; [suffix|]. split; [right; exists false; by eapply sound_ok_result|].
      left. eexists. by split_and!.
    + unfold denied_write. run HS ltac:(by apply HP). one_denial.
  - eapply follows_follows; [apply Herror|exact HS|suffix|]. by intros.
Qed.
End finishing.

(** What every handler of a mutation refuses before it looks. *)
Lemma live_guards_spec P tool disabled limit dry_run authority smuggled k :
  (∀ c t, audit_call c → P c t) →
  (dry_run = false → is_Some (legacy_session invocation) → is_Some authority → is_Some capability_grant →
   follows P k mutation_outcome) →
  (dry_run = true → smuggled = false → follows P k mutation_outcome) →
  follows P (live_guards tool disabled limit id dry_run (legacy_session invocation) authority capability_grant smuggled k)
    mutation_outcome.
Proof.
  intros HP Hlive Hdry. unfold live_guards. cbv zeta.
  destruct dry_run; cbn [negb andb].
  { destruct smuggled; [apply denied_write_spec|]; auto with responses. }
  destruct (legacy_session invocation) as [sid|] eqn:Es; cbn [is_some_grant negb];
    [|apply denied_write_spec; auto with responses].
  destruct smuggled; [apply denied_write_spec; auto with responses|].
  destruct authority as [a|]; [|apply denied_write_spec; auto with responses].
  destruct capability_grant as [g|] eqn:Eg; cbn [is_some_grant negb]; [|apply denied_write_spec; auto with responses].
  apply Hlive; [done|by eexists..].
Qed.

Lemma create_error_refused e : refused (create_directory_filesystem_error_response id e).
Proof. destruct e; cbn [create_directory_filesystem_error_response]; auto with responses. Qed.
Lemma copy_error_refused e : refused (copy_file_filesystem_error_response id e).
Proof. destruct e; cbn [copy_file_filesystem_error_response]; auto with responses. Qed.
Lemma trash_error_refused e : refused (trash_file_filesystem_error_response id e).
Proof. destruct e; cbn [trash_file_filesystem_error_response]; auto with responses. Qed.
Lemma write_error_refused e : refused (write_file_filesystem_error_response id e).
Proof. destruct e; cbn [write_file_filesystem_error_response]; auto with responses. Qed.
#[local] Hint Resolve create_error_refused copy_error_refused trash_error_refused write_error_refused : responses.
#[local] Hint Constructors reading : responses.

Lemma audit_mutation tool c t : audit_call c → mutation_call tool c t.
Proof. by left. Qed.
#[local] Hint Resolve audit_mutation : responses.

Abbreviation mutates tool h :=
  (follows (mutation_call tool) (h id arguments state invocation capability_grant) mutation_outcome).

(** The operation at the end of a handler: a preview, or a worker for what the
    caller asked. *)
Ltac worked :=
  match goal with
  | |- follows _ (answer_operation (previewed _) _) _ =>
    apply preview_spec; auto with responses;
      [done | intros ? ?; apply denied_write_spec; auto with responses
      | intros ?; right; split; [auto with responses|]; first [by left | by right | done] ]
  | |- follows _ (answer_operation (await_worker _ _ _ _ _ _ _ _) _) _ =>
    eapply await_worker_spec; auto with responses;
      [ intros ??; by right
      | intros S t cr Q HS Hcr HQ; match goal with |- allowed_all _ (ask ?c) _ _ => apply (allowed_ask S c t Q) end;
        [ eapply permits_at; [exact HS|]; right; split; [done|];
          split; [eexists _, _; split_and!; try reflexivity; eassumption|done]
        | intros r; apply HQ; [suffix|]; split_and!; [reflexivity|reflexivity|];
          intros [? ->]; eexists; split; [apply list_elem_of_here|]; by eexists ]
      | intros; eapply finish_live_spec; cycle -1; [eassumption|by left|done|auto with responses] ]
  end.

Lemma create_directory_spec : mutates CREATE_DIRECTORY_TOOL handle_create_directory_call.
Proof.
  unfold handle_create_directory_call. cbv zeta.
  destruct arguments as [v|] eqn:Ev; [|apply denied_write_spec; auto with responses].
  destruct (decode_create_directory v) as [args|] eqn:Ea; [|apply denied_write_spec; auto with responses].
  apply live_guards_spec; [auto with responses|intros Hd Hs Hauth Hg|intros Hd _]; rewrite ?Hd;
    (match goal with |- follows _ (if ?b then _ else _) _ => destruct b end;
     [apply denied_write_spec; auto with responses|]).
  - apply default_true_false in Hd. worked.
  - worked.
Qed.
(** A preview that passed the guard of a grant that buys nothing has none. *)
Lemma not_smuggled o :
  default true o = true → is_some_grant capability_grant && negb (bool_decide (o = Some false)) = false →
  ¬ is_Some capability_grant.
Proof. intros Hd H [g Hg]. rewrite Hg in H. by destruct o as [[]|]. Qed.
Lemma copy_file_spec : mutates COPY_FILE_TOOL handle_copy_file_call.
Proof.
  unfold handle_copy_file_call. cbv zeta.
  destruct arguments as [v|] eqn:Ev; [|apply denied_write_spec; [auto with responses|]].
  2: { unfold unread_arguments. destruct (is_some_grant _); auto with responses. }
  destruct (decode_copy_file v) as [args|] eqn:Ea; [|apply denied_write_spec; [auto with responses|]].
  2: { unfold unread_arguments. destruct (is_some_grant _); auto with responses. }
  apply live_guards_spec; [auto with responses|intros Hd Hs Hauth Hg|intros Hd Hns%(not_smuggled _ Hd)]; rewrite ?Hd;
    (match goal with |- follows _ (if ?b then _ else _) _ => destruct b end;
     [apply denied_write_spec; auto with responses|]);
    (match goal with |- follows _ (match ?r with _ => _ end) _ => destruct r end;
     [|apply denied_write_spec; auto with responses]).
  - apply default_true_false in Hd. worked.
  - worked.
Qed.
Lemma trash_file_spec : mutates TRASH_FILE_TOOL handle_trash_file_call.
Proof.
  unfold handle_trash_file_call. cbv zeta.
  destruct arguments as [v|] eqn:Ev; [|apply denied_write_spec; [auto with responses|]].
  2: { unfold unread_arguments. destruct (is_some_grant _); auto with responses. }
  destruct (decode_trash_file v) as [args|] eqn:Ea; [|apply denied_write_spec; [auto with responses|]].
  2: { unfold unread_arguments. destruct (is_some_grant _); auto with responses. }
  apply live_guards_spec; [auto with responses|intros Hd Hs Hauth Hg|intros Hd Hns%(not_smuggled _ Hd)]; rewrite ?Hd;
    (match goal with |- follows _ (if ?b then _ else _) _ => destruct b end;
     [apply denied_write_spec; auto with responses|]).
  - apply default_true_false in Hd. worked.
  - worked.
Qed.
Lemma write_live o :
  match WritePolicy.WritePolicy.resolve_mode WritePolicy.WritePolicy.policy_default o with
  | WritePolicy.WritePolicy.DryRunMode => true | WritePolicy.WritePolicy.MutatingMode => false end = false →
  o = Some false.
Proof. destruct o as [[]|]; vm_compute; congruence. Qed.
Lemma write_file_spec : mutates WRITE_FILE_TOOL handle_write_file_call.
Proof.
  unfold handle_write_file_call. cbv zeta.
  destruct arguments as [v|] eqn:Ev; [|apply denied_write_spec; auto with responses].
  destruct (decode_write_file v) as [args|] eqn:Ea; [|apply denied_write_spec; auto with responses].
  apply live_guards_spec; [auto with responses|intros Hd Hs Hauth Hg|intros Hd _]; rewrite ?Hd;
    (match goal with |- follows _ (if ?b then _ else _) _ => destruct b end;
     [apply denied_write_spec; auto with responses|]).
  - apply write_live in Hd. worked.
  - worked.
Qed.
End mutations.
End specs.
End McpToolSpecs.
