(* ===== verification/McpEndpoint.v ===== *)
(** * What a request may lead to

    The specifications of the tools composed along the transport: which calls a
    request to the endpoint can make, given its method, headers and body, and how
    its answer is decorated. *)

From S2P Require Import Prelude RustStd RustPath Http RequestGrantCapability GrantToken AppErrors AuditEvents JsonRpc.
From S2P Require Import McpSession TransportSecurity AndroidVolumeGrant AndroidVolumeControl AndroidBattery CommandPolicy.
From S2P Require Import Config FsCalls SafeRoots FsPrepare FsReads FsTraverse FsMutations FsTools MutationWorkers.
From S2P Require Import StatusTools McpWire McpResponses McpArguments McpCalls McpReadTools McpDeviceTools.
From S2P Require Import McpMutations McpDiscovery McpTransport McpLogic.

Module McpEndpoint.
Import McpSession FsTraverse FsTools MutationWorkers McpWire McpResponses McpArguments McpLabels McpCalls.
Import McpReadTools McpDeviceTools McpMutations McpDiscovery McpTransport McpLogic McpToolSpecs.

Section endpoint.
Context {F : Float64} {FM : FileModes} {C : Crypto} {T : Chrono} {JL : JsonLength} {L : HttpLib} {JT : JsonText}.
Context {B : Build} {HL : HttpLibLaws L} (features : Config.Features).

(** ** A tool call *)

(** The tools that change something, on the filesystem or at all: only these are
    called with a grant. *)
Definition mutation_tools : list bytes := [CREATE_DIRECTORY_TOOL; COPY_FILE_TOOL; TRASH_FILE_TOOL; WRITE_FILE_TOOL].
Definition grant_tools : list bytes := mutation_tools ++ [SET_ANDROID_VOLUME_TOOL].

Definition tool_call_permits (state : McpTransportState) (params : option Json) (invocation : ToolInvocationContext)
    (grant : option bytes) (c : call) (t : list event) : Prop :=
  ∃ call, params ≫= decode_tool_call = Some call ∧
    let name := call_name call in let arguments := into_value (call_arguments call) in
    ((grant = None ∧ (device_call features state c t ∨ read_call (file_tools state) c t)) ∨
     (name = SET_ANDROID_VOLUME_TOOL ∧ volume_call features state arguments invocation grant c t) ∨
     (name ∈ mutation_tools ∧ mutation_call state arguments invocation grant name c t)).
(** Nothing happened, or what a tool leaves behind. *)
Definition tool_call_outcome (t : list event) (r : Response) (t' : list event) : Prop :=
  (t' = t ∧ refused r) ∨ mutation_outcome t r t'.

Lemma tool_outcome_mutation t r t' : tool_outcome t r t' → mutation_outcome t r t'.
Proof. intros (e & ? & ? & ? & ?). split; [done|]. left. by exists e. Qed.
Lemma mret_follows P r : refused r → follows P (mret r) tool_call_outcome.
Proof. intros Hr. apply follows_intro. intros S t HS. split; [done|]. by left. Qed.

(** Past its first guard a tool that changes nothing has no grant. *)
Lemma no_grant_needed grant name :
  is_some_grant grant && negb (contains grant_tools name) = false → contains grant_tools name = false → grant = None.
Proof. intros H Hn. rewrite Hn, andb_true_r in H. by destruct grant. Qed.

Lemma tool_call_spec id params state invocation grant :
  follows (tool_call_permits state params invocation grant)
    (handle_tool_call features id params state invocation grant) tool_call_outcome.
Proof.
  unfold handle_tool_call. cbv zeta.
  destruct (params ≫= decode_tool_call) as [call|] eqn:Ec; [|apply mret_follows; auto with responses].
  destruct (is_some_grant grant && _) eqn:Eg; [apply mret_follows; auto with responses|].
  repeat (match goal with |- follows _ (if ?b then _ else _) _ => destruct b eqn:E end;
    [apply bytes_eqb_true in E|clear E]); [..|apply mret_follows; auto with responses];
    (eapply follows_mono;
    [first
       [ apply runtime_status_spec | apply (platform_info_spec features state) | apply (android_status_spec features state) | apply battery_spec
       | apply volume_status_spec | apply rish_status_spec | apply (project_service_spec features state) | apply command_spec
       | apply volume_spec | apply create_directory_spec | apply copy_file_spec | apply trash_file_spec
       | apply write_file_spec | apply find_paths_spec | apply hash_file_spec | apply list_directory_spec
       | apply path_metadata_spec | apply read_binary_file_spec | apply read_binary_range_spec
       | apply read_file_spec | apply read_text_range_spec | apply search_text_spec ]; exact HL
    |intros c t Hc; exists call; (split; [done|]); cbv zeta; rewrite ?E;
     first [left; split; [apply (no_grant_needed _ _ Eg); rewrite E; vm_compute; reflexivity|first [by left|by right]]
       | right; left; by split | right; right; split; [set_solver|done]]
    |intros ????; right; first [done | by apply tool_outcome_mutation | by apply tool_outcome_mutation, read_tool_outcome]]).
Qed.

(** ** The endpoint *)

Section request.
Context (state : McpTransportState) (method : Method) (headers : Headers) (body : bytes).

Definition accepted : Prop := transport_security state headers = Ok ().
(** A message of the session protocol. *)
Definition legacy_post (grant : option bytes) (message : JsonRpc.JsonRpc.IncomingJsonRpcMessage) : Prop :=
  accepted ∧ method = POST ∧ declares_stateless_request state headers body = false ∧
  capability_grant_header headers = Ok grant ∧ JsonRpc.JsonRpc.parse_incoming_message body = Ok message.
Definition in_phase (session_id : bytes) (phase : SessionPhase) (t : list event) : Prop :=
  session_headers headers = Ok session_id ∧ Event (PhaseOfSession session_id) (Ok phase) ∈ t.
(** Whether the request carries the grant header at all. *)
Definition granted : Prop := contains_key headers REQUEST_GRANT_HEADER = true.
(** Who a tool call is made for. *)
Definition caller (params : option Json) (invocation : ToolInvocationContext) (grant : option bytes)
    (t : list event) : Prop :=
  match invocation with
  | LegacySession session_id =>
    in_phase session_id Active t ∧
    ∃ id, legacy_post grant (JsonRpc.JsonRpc.Request id (bs "tools/call") params)
  | StatelessReadPreview =>
    accepted ∧ method = POST ∧ declares_stateless_request state headers body = true ∧
    stateless_2026_07_28_enabled state = true ∧ grant = None ∧ ¬ granted
  end.

(** What a request may ask for. *)
Definition request_permits (c : call) (t : list event) : Prop :=
  match c with
  | CreateSession =>
    contains_key headers MCP_SESSION_ID_HEADER = false ∧
    ∃ id params, legacy_post None (JsonRpc.JsonRpc.Request id (bs "initialize") params) ∧
      valid_initialize_params params = true
  | PhaseOfSession session_id =>
    accepted ∧ session_headers headers = Ok session_id ∧
    (method = POST → declares_stateless_request state headers body = false) ∧
    (granted → ∃ token message, legacy_post (Some token) message)
  | ActivateSession session_id =>
    (∃ phase, in_phase session_id phase t) ∧
    ∃ params, legacy_post None (JsonRpc.JsonRpc.Notification (bs "notifications/initialized") params)
  | TerminateSession session_id =>
    accepted ∧ method = DELETE ∧ (∃ phase, in_phase session_id phase t) ∧ ¬ granted
  | ReplaySseAfter session_id _ =>
    accepted ∧ method = GET ∧ sse_enabled state = true ∧ in_phase session_id Active t ∧ ¬ granted
  | RecordSseResponse session_id _ =>
    sse_enabled state = true ∧ method = POST ∧ declares_stateless_request state headers body = false ∧
    ((∃ phase, in_phase session_id phase t) ∨
     ∃ created, Event CreateSession (Ok created) ∈ t ∧ header_to_str created = Some session_id) ∧
    (granted → ∃ token id params, legacy_post (Some token) (JsonRpc.JsonRpc.Request id (bs "tools/call") params))
  | Panic =>
    (android_volume_control_enabled state = true ∧ android_volume_control_authority state = None) ∨
    ∃ created, Event CreateSession (Ok created) ∈ t ∧ header_value_try_from created = None
  | c => ∃ params invocation grant, caller params invocation grant t ∧
           tool_call_permits state params invocation grant c t
  end.
(** *** What a message does *)

Abbreviation ok_any := (λ _ _, True).

Lemma maybe_sse_permitted S sid r t :
  (∀ data, sse_enabled state = true → is_json_ok r = true → S (RecordSseResponse sid data) t) →
  allowed_all S (maybe_sse_response state sid r) t ok_any.
Proof.
  intros HS. unfold maybe_sse_response. cbv zeta.
  repeat match goal with |- allowed_all _ (match ?x with _ => _ end) _ _ => destruct x eqn:? | |- allowed_all _ (mret _) _ _ => exact I end.
  apply allowed_bind, allowed_ask; [|done]. apply HS.
  1,2: match goal with H : negb _ || _ = false |- _ => apply orb_false_iff in H as [H1 H2]; by apply negb_false_iff end.
Qed.

(** A session request asks for the phase of the session its headers name. *)
Lemma session_permitted (k : Result SessionRequestError (bytes * SessionPhase) → handler Response) :
  accepted → (method = POST → declares_stateless_request state headers body = false) →
  (granted → ∃ token message, legacy_post (Some token) message) →
  (∀ t, (∀ error, allowed_all request_permits (k (Err error)) t ok_any)) →
  (∀ session_id phase t, in_phase session_id phase t → allowed_all request_permits (k (Ok (session_id, phase))) t ok_any) →
  ∀ t, allowed_all request_permits (session ← validate_session_request headers; k session) t ok_any.
Proof.
  intros Ha Hd Hg He Hk t. apply allowed_bind. unfold validate_session_request.
  destruct (session_headers headers) as [sid|error] eqn:Es; [|apply He].
  apply allowed_bind, allowed_ask; [by split_and!|]. intros [phase|error]; [|apply He].
  apply Hk. split; [done|apply list_elem_of_here].
Qed.

Lemma in_phase_later session_id phase t t' : in_phase session_id phase t → t `suffix_of` t' → in_phase session_id phase t'.
Proof. intros [? He] [l ->]. split; [done|]. apply elem_of_app. by right. Qed.
Lemma caller_later params invocation grant t t' :
  caller params invocation grant t → t `suffix_of` t' → caller params invocation grant t'.
Proof. destruct invocation; [|done]. intros [??] ?. split; [by eapply in_phase_later|done]. Qed.

(** Of what a tool asks, everything is permitted to the caller of the tool. *)
Lemma tool_calls_permitted params invocation grant t :
  caller params invocation grant t →
  permits request_permits t (tool_call_permits state params invocation grant).
Proof.
  intros Hc c t' Ht Hp. assert (caller params invocation grant t') as Hc' by (by eapply caller_later).
  pose proof Hp as (call & _ & [(_ & [[H|H]|[H|H]])|[(_ & [H|H])|(_ & [H|H])]]); destruct c; try done;
    try (by exists params, invocation, grant); by left.
Qed.
Lemma listed_tools_total : is_Some (listed_tools state).
Proof.
  unfold listed_tools.
  destruct (create_directory_authority state), (copy_file_authority state), (trash_file_authority state),
    (write_file_authority state); by eexists.
Qed.
Lemma tools_list_permitted S id t (Q : Response → list event → Prop) :
  (∀ r, Q r t) → allowed_all S (tools_list_response id state) t Q.
Proof.
  intros HQ. unfold tools_list_response. destruct listed_tools_total as [l Hl]. apply allowed_bind.
  eapply allowed_expect; [exact Hl|]. apply HQ.
Qed.

Lemma sse_of_session session_id phase r t :
  method = POST → declares_stateless_request state headers body = false → in_phase session_id phase t →
  (granted → ∃ token id params, legacy_post (Some token) (JsonRpc.JsonRpc.Request id (bs "tools/call") params)) →
  allowed_all request_permits (maybe_sse_response state session_id r) t ok_any.
Proof. intros ?? Hp Hg. apply maybe_sse_permitted. intros data Hs _. split_and!; try done. left. by exists phase. Qed.
(** A grant header that was accepted is the grant of the message. *)
Lemma legacy_granted grant message : legacy_post grant message → granted → is_Some grant.
Proof.
  intros (_ & _ & _ & Hc & _) Hg. unfold granted, contains_key, header_get in Hg.
  unfold capability_grant_header, single_header_value in Hc.
  destruct (header_get_all headers REQUEST_GRANT_HEADER) as [|v l]; [done|].
  destruct l; [|done]. destruct (header_to_str v); [|done]. cbn in Hc.
  destruct (_ && _) in Hc; [|done]. injection Hc as <-. by eexists.
Qed.
Lemma legacy_ungranted grant message : legacy_post grant message → is_some_grant grant = false → ¬ granted.
Proof. intros Hp Hg Hr. destruct (legacy_granted _ _ Hp Hr) as [g ->]. done. Qed.
Lemma legacy_message_permitted grant message session_id phase t :
  legacy_post grant message → in_phase session_id phase t →
  allowed_all request_permits (legacy_message features state session_id phase grant message) t ok_any.
Proof.
  intros Hpost Hp. pose proof Hpost as (_ & Hm & Hd & _).
  destruct message as [id m params|m params|]; cbn [legacy_message]; cbv zeta.
  - destruct (is_some_grant grant && _) eqn:Eg; [done|].
    assert (granted → ∃ token id params, legacy_post (Some token) (JsonRpc.JsonRpc.Request id (bs "tools/call") params)) as Hgr.
    { intros Hr. destruct (legacy_granted _ _ Hpost Hr) as [token ->]. apply negb_false_iff, bytes_eqb_true in Eg as ->.
      by eexists _, _, _. }
    destruct (bytes_eqb m (bs "ping")); [by eapply sse_of_session|].
    destruct phase; [done|]. cbn [negb]. apply allowed_bind. destruct (bytes_eqb m (bs "tools/list")).
    { apply tools_list_permitted. intros r. by eapply sse_of_session. }
    destruct (bytes_eqb m (bs "tools/call")) eqn:Ec; [|by eapply sse_of_session]. apply bytes_eqb_true in Ec as ->.
    eapply (tool_call_spec (Some id) params state (LegacySession session_id) grant request_permits t t).
    + apply tool_calls_permitted. split; [done|]. by exists id.
    + done.
    + intros r t' Ht _. eapply sse_of_session; eauto using in_phase_later.
  - destruct grant as [g|]; cbn [is_some_grant]; [done|].
    destruct (bytes_eqb m _) eqn:Ei; [|by destruct phase]. apply bytes_eqb_true in Ei as ->.
    apply allowed_bind, allowed_ask; [|done]. split; [by exists phase|]. by exists params.
  - destruct (is_some_grant grant); [done|]. by destruct phase.
Qed.
Lemma legacy_initialize_permitted grant id params t :
  legacy_post grant (JsonRpc.JsonRpc.Request id (bs "initialize") params) →
  allowed_all request_permits (legacy_initialize state headers grant id params) t ok_any.
Proof.
  intros Hpost. pose proof Hpost as (_ & Hm & Hd & _). unfold legacy_initialize.
  destruct grant as [g|]; cbn [is_some_grant]; [done|].
  destruct (contains_key headers MCP_SESSION_ID_HEADER) eqn:Ek; [done|].
  pose proof (legacy_ungranted _ _ Hpost eq_refl) as Hng.
  assert (∀ r t, (is_json_ok r = true → ∃ created, Event CreateSession (Ok created) ∈ t ∧
      header_get (Http.headers r) MCP_SESSION_ID_HEADER = Some created) →
    allowed_all request_permits
      (match value ← header_get (Http.headers r) MCP_SESSION_ID_HEADER; header_to_str value with
       | None => mret r | Some sid => maybe_sse_response state sid r end) t ok_any) as Hr.
  { intros r t' H. destruct (header_get _ _ ≫= _) as [sid|] eqn:E; [|done]. apply maybe_sse_permitted.
    intros data Hs Hj. destruct (H Hj) as (created & Hc & Hg). rewrite Hg in E. split_and!; try done.
    right. by exists created. }
  assert (∀ r t, refused r → allowed_all request_permits
      (match value ← header_get (Http.headers r) MCP_SESSION_ID_HEADER; header_to_str value with
       | None => mret r | Some sid => maybe_sse_response state sid r end) t ok_any) as Hno.
  { intros r t' Hf. apply Hr. unfold refused in Hf. congruence. }
  apply allowed_bind. unfold initialize_response.
  destruct (valid_initialize_params params) eqn:Ev; cbn [negb]; [|apply Hno; auto with responses].
  destruct (negb (json_response_fits _ _)); [apply Hno; auto with responses|].
  apply allowed_bind, allowed_ask; [split; [done|]; by exists id, params|]. intros [created|error].
  2: { apply Hno. destruct error; cbn [session_store_error_response]; unfold transport_error; auto with responses. }
  apply allowed_bind. unfold header_value_try_from. destruct (forallb _ created) eqn:Ef.
  - eapply allowed_expect; [reflexivity|]. apply Hr. intros _. exists created. split; [apply list_elem_of_here|].
    unfold header_get. cbn [with_header Http.headers]. by rewrite header_get_all_insert.
  - split; [|done]. right. exists created. split; [apply list_elem_of_here|]. unfold header_value_try_from. by rewrite Ef.
Qed.
Lemma media_guards_permitted S content_type accept k t :
  allowed_all S k t ok_any → allowed_all S (media_guards headers content_type accept k) t ok_any.
Proof. intros Hk. unfold media_guards. by destruct (negb _); [|destruct (_ || _)]. Qed.

Lemma legacy_post_permitted t :
  accepted → method = POST → declares_stateless_request state headers body = false →
  allowed_all request_permits (handle_legacy_mcp_post features state headers body) t ok_any.
Proof.
  intros Ha Hm Hd. unfold handle_legacy_mcp_post. apply media_guards_permitted. cbv zeta.
  destruct (capability_grant_header headers) as [grant|] eqn:Eg; [|done].
  destruct (JsonRpc.JsonRpc.parse_incoming_message body) as [message|] eqn:Em; [|done].
  assert (legacy_post grant message) as Hpost by done.
  match goal with |- allowed_all _ (if ?b then _ else _) _ _ => destruct b; [done|] end.
  assert (∀ t, allowed_all request_permits
    (session ← validate_session_request headers;
     match session with
     | Ok (session_id, phase) => legacy_message features state session_id phase grant message
     | Err error => mret (session_request_error_response error)
     end) t ok_any) as Hin.
  { apply (session_permitted (λ session, match session with
      | Ok (session_id, phase) => legacy_message features state session_id phase grant message
      | Err error => mret (session_request_error_response error) end)); [done|done| |done|].
    { intros Hr. destruct (legacy_granted _ _ Hpost Hr) as [token ->]. by eexists _, _. }
    intros sid phase t' Hp. by apply legacy_message_permitted. }
  destruct message as [id m params|m params|]; [|apply Hin..].
  destruct (bytes_eqb m (bs "initialize")) eqn:Ei; [|apply Hin]. apply bytes_eqb_true in Ei as ->.
  by apply legacy_initialize_permitted.
Qed.

Lemma stateless_method_permitted id m name params t :
  accepted → method = POST → declares_stateless_request state headers body = true →
  stateless_2026_07_28_enabled state = true →
  stateless_routed_name headers m params = Ok name → ¬ granted →
  allowed_all request_permits (stateless_method features state id m name params) t ok_any.
Proof.
  intros Ha Hm Hd He Hn Hng. unfold stateless_method. cbv zeta.
  destruct (bytes_eqb m (bs "server/discover")); [by destruct (negb _)|].
  destruct (bytes_eqb m (bs "tools/list")).
  { destruct (negb _); [done|]. apply allowed_bind, tools_list_permitted. done. }
  destruct (bytes_eqb m (bs "tools/call")) eqn:Ec; [|done]. apply bytes_eqb_true in Ec as ->.
  assert (∃ tool, name = Some tool) as [tool ->].
  { revert Hn. unfold stateless_routed_name.
    change (name_source_field (bs "tools/call")) with (Some (bs "name")).
    intros H. cbv beta iota in H. inv_ok H. simplify_eq. by eexists. }
  apply allowed_bind. eapply allowed_expect; [reflexivity|].
  destruct (negb (contains _ _)); [done|]. destruct (stateless_live_mutation_requested _ _); [done|].
  apply allowed_bind.
  eapply (tool_call_spec id (Some (JObject params)) state StatelessReadPreview None request_permits t t); [|done..].
  by apply tool_calls_permitted.
Qed.
Lemma stateless_post_permitted t :
  accepted → method = POST → declares_stateless_request state headers body = true →
  allowed_all request_permits (handle_stateless_mcp_post features state headers body) t ok_any.
Proof.
  intros Ha Hm Hd. unfold handle_stateless_mcp_post. apply media_guards_permitted.
  destruct (JsonRpc.JsonRpc.parse_incoming_message body) as [[id m params| |]|]; [|done..].
  destruct (negb (json_rpc_id_fits id)); [done|]. destruct (params ≫= as_object) as [members|]; [|done].
  destruct (stateless_metadata members) as [version|]; [|done]. unfold stateless_request.
  destruct (bounded_visible_header headers MCP_PROTOCOL_VERSION_HEADER 32); [|done].
  destruct (negb (bytes_eqb _ version)); [done|].
  match goal with |- allowed_all _ (if ?b then _ else _) _ _ => destruct b eqn:Ev; [done|] end.
  apply orb_false_iff in Ev as [_ Ev%negb_false_iff].
  destruct (bounded_visible_header headers MCP_METHOD_HEADER _); [|done]. destruct (negb (bytes_eqb _ m)); [done|].
  destruct (stateless_routed_name headers m _) as [name|] eqn:En; [|done].
  destruct (contains_key headers _) eqn:Eg; [done|]. apply stateless_method_permitted; try done.
  unfold granted. by rewrite Eg.
Qed.

Lemma get_permitted t : accepted → method = GET → ¬ granted → allowed_all request_permits (handle_mcp_get state headers) t ok_any.
Proof.
  intros Ha Hm Hg. unfold handle_mcp_get. destruct (negb _); [done|]. revert t.
  apply session_permitted; [done|by rewrite Hm|done|done|].
  intros sid [] t Hp; [done|]. destruct (sse_enabled state) eqn:Es; cbn [negb]; [|done]. cbv zeta.
  destruct (single_header_value headers MCP_LAST_EVENT_ID_HEADER) as [[cursor|]|]; [|done..].
  destruct (valid_last_event_id cursor); [|done]. apply allowed_bind, allowed_ask; [|done]. by split_and!.
Qed.
Lemma delete_permitted t : accepted → method = DELETE → ¬ granted → allowed_all request_permits (handle_mcp_delete headers) t ok_any.
Proof.
  intros Ha Hm Hg. unfold handle_mcp_delete. revert t. apply session_permitted; [done|by rewrite Hm|done|done|].
  intros sid phase t Hp. apply allowed_bind, allowed_ask; [|done]. split_and!; [done..| |done]. by exists phase.
Qed.

(** Everything a request asks for is permitted to it. *)
Lemma request_spec :
  allowed_all request_permits (handle_mcp_request features state method headers body) []
    (λ r _, header_get_all (Http.headers r) CACHE_CONTROL = [bs "no-store"]).
Proof.
  apply allowed_bind, (allowed_mono _ _ _ ok_any); [|intros r t _; apply header_get_all_insert].
  unfold route_mcp_request. destruct (transport_security state headers) as [[]|] eqn:Ha; [|done].
  assert (∀ k : handler Response, (¬ granted → allowed_all request_permits k [] ok_any) →
    allowed_all request_permits
      (if declares_exact_stateless_protocol_header headers then mret stateless_method_not_allowed
       else if contains_key headers REQUEST_GRANT_HEADER then mret (capability_context_not_allowed None) else k)
      [] ok_any) as Hg.
  { intros k Hk. destruct (declares_exact_stateless_protocol_header headers); [done|].
    destruct (contains_key headers REQUEST_GRANT_HEADER) eqn:Eg; [done|]. apply Hk. unfold granted. by rewrite Eg. }
  destruct method eqn:Em; [apply Hg; intros Hng| |apply Hg; intros Hng|by apply Hg].
  - by apply get_permitted.
  - unfold handle_mcp_post. destruct (declares_stateless_request state headers body) eqn:Ed.
    + by apply stateless_post_permitted.
    + by apply legacy_post_permitted.
  - by apply delete_permitted.
Qed.
End request.
End endpoint.
End McpEndpoint.
