(* ===== verification/McpExample.v ===== *)
(** * A worked request, and the codec of JSON values it uses *)

From S2P Require Import Prelude RustStd RustPath AppErrors Http RequestGrantCapability GrantReplay GrantToken.
From S2P Require Import CreateDirectoryGrant McpSession JsonRpc AuditEvents TransportSecurity AndroidVolumeControl.
From S2P Require Import CommandExecution FsCalls SafeRoots Config FsPrepare FsReads FsTraverse FsMutations FsTools.
From S2P Require Import FsExample FsSearch MutationWorkers WorkersSafety McpWire McpResponses McpArguments.
From S2P Require Import AndroidBattery McpCalls StatusTools McpTransport.

Module JsonCodec.

(** ** Parts *)

Fixpoint write_bytes (s : bytes) : bytes := match s with [] => [x00] | b :: s => x01 :: b :: write_bytes s end.
Fixpoint read_bytes (s : bytes) : option (bytes * bytes) :=
  match s with
  | x00 :: rest => Some ([], rest)
  | x01 :: b :: rest => '(s, rest) ← read_bytes rest; Some (b :: s, rest)
  | _ => None
  end.
Lemma read_write_bytes s rest : read_bytes (write_bytes s ++ rest) = Some (s, rest).
Proof. induction s as [|b s IH]; simpl; [done|]. by rewrite IH. Qed.

Fixpoint write_positive (p : positive) : bytes :=
  match p with xH => [x00] | xO p => x01 :: write_positive p | xI p => x02 :: write_positive p end.
Fixpoint read_positive (s : bytes) : option (positive * bytes) :=
  match s with
  | x00 :: rest => Some (xH, rest)
  | x01 :: rest => '(p, rest) ← read_positive rest; Some (xO p, rest)
  | x02 :: rest => '(p, rest) ← read_positive rest; Some (xI p, rest)
  | _ => None
  end.
Lemma read_write_positive p rest : read_positive (write_positive p ++ rest) = Some (p, rest).
Proof. induction p as [p IH|p IH|]; simpl; try rewrite IH; done. Qed.

Definition write_number (n : JsonNumber) : bytes :=
  match n with
  | PosInt N0 => [x00]
  | PosInt (Npos p) => x01 :: write_positive p
  | NegInt Z0 => [x02]
  | NegInt (Zpos p) => x03 :: write_positive p
  | NegInt (Zneg p) => x04 :: write_positive p
  | Float repr => x05 :: write_bytes repr
  end.
Definition read_number (s : bytes) : option (JsonNumber * bytes) :=
  match s with
  | x00 :: rest => Some (PosInt 0, rest)
  | x01 :: rest => '(p, rest) ← read_positive rest; Some (PosInt (Npos p), rest)
  | x02 :: rest => Some (NegInt 0, rest)
  | x03 :: rest => '(p, rest) ← read_positive rest; Some (NegInt (Zpos p), rest)
  | x04 :: rest => '(p, rest) ← read_positive rest; Some (NegInt (Zneg p), rest)
  | x05 :: rest => '(s, rest) ← read_bytes rest; Some (Float s, rest)
  | _ => None
  end.
Lemma read_write_number n rest : read_number (write_number n ++ rest) = Some (n, rest).
Proof. by destruct n as [[]|[]|]; simpl; rewrite ?read_write_positive, ?read_write_bytes. Qed.

(** ** Values *)

Fixpoint write (v : Json) : bytes :=
  match v with
  | JNull => [x00]
  | JBool b => [x01; if b then x01 else x00]
  | JNumber n => x02 :: write_number n
  | JString s => x03 :: write_bytes s
  | JArray l => x04 :: (fix items l := match l with [] => [x00] | v :: l => x01 :: write v ++ items l end) l
  | JObject m =>
    x05 :: (fix members m := match m with
            | [] => [x00] | (k, v) :: m => x01 :: write_bytes k ++ write v ++ members m end) m
  end.

Fixpoint read (fuel : nat) (s : bytes) : option (Json * bytes) :=
  match fuel with
  | O => None
  | S fuel =>
    match s with
    | x00 :: rest => Some (JNull, rest)
    | x01 :: x01 :: rest => Some (JBool true, rest)
    | x01 :: x00 :: rest => Some (JBool false, rest)
    | x02 :: rest => '(n, rest) ← read_number rest; Some (JNumber n, rest)
    | x03 :: rest => '(s, rest) ← read_bytes rest; Some (JString s, rest)
    | x04 :: rest => '(l, rest) ← read_items fuel rest; Some (JArray l, rest)
    | x05 :: rest => '(m, rest) ← read_members fuel rest; Some (JObject m, rest)
    | _ => None
    end
  end
with read_items (fuel : nat) (s : bytes) : option (list Json * bytes) :=
  match fuel with
  | O => None
  | S fuel =>
    match s with
    | x00 :: rest => Some ([], rest)
    | x01 :: rest => '(v, rest) ← read fuel rest; '(l, rest) ← read_items fuel rest; Some (v :: l, rest)
    | _ => None
    end
  end
with read_members (fuel : nat) (s : bytes) : option (list (bytes * Json) * bytes) :=
  match fuel with
  | O => None
  | S fuel =>
    match s with
    | x00 :: rest => Some ([], rest)
    | x01 :: rest =>
      '(k, rest) ← read_bytes rest; '(v, rest) ← read fuel rest; '(m, rest) ← read_members fuel rest;
      Some ((k, v) :: m, rest)
    | _ => None
    end
  end.

Lemma read_write v : ∀ rest fuel, length (write v) ≤ fuel → read fuel (write v ++ rest) = Some (v, rest).
Proof.
  revert v. fix IH 1. intros v rest fuel Hf.
  destruct fuel as [|fuel]; [exfalso; destruct v; simpl in Hf; lia|].
  destruct v as [|[]|n|s|l|m]; try done.
  - cbn. by rewrite read_write_number.
  - cbn. by rewrite read_write_bytes.
  - cbn. cbn in Hf. apply le_S_n in Hf.
    assert (∀ fuel, length ((fix items l := match l with [] => [x00] | v :: l => x01 :: write v ++ items l end) l) ≤ fuel →
      read_items fuel ((fix items l := match l with [] => [x00] | v :: l => x01 :: write v ++ items l end) l ++ rest)
      = Some (l, rest)) as H; [|by rewrite H].
    clear fuel Hf. induction l as [|v l IHl]; intros [|fuel] Hf; try (exfalso; simpl in Hf; lia); [done|].
    cbn in Hf. rewrite length_app in Hf. cbn. rewrite <-app_assoc, IH by lia. cbn. rewrite IHl by lia. done.
  - cbn. cbn in Hf. apply le_S_n in Hf.
    assert (∀ fuel, length ((fix members m := match m with
            | [] => [x00] | (k, v) :: m => x01 :: write_bytes k ++ write v ++ members m end) m) ≤ fuel →
      read_members fuel ((fix members m := match m with
            | [] => [x00] | (k, v) :: m => x01 :: write_bytes k ++ write v ++ members m end) m ++ rest)
      = Some (m, rest)) as H; [|by rewrite H].
    clear fuel Hf. induction m as [|[k v] m IHm]; intros [|fuel] Hf; try (exfalso; simpl in Hf; lia); [done|].
    cbn in Hf. rewrite !length_app in Hf. cbn. rewrite <-!app_assoc, read_write_bytes. cbn. rewrite IH by lia. cbn.
    rewrite IHm by lia. done.
Qed.

Definition json_of (s : bytes) : option Json :=
  match read (length s) s with Some (v, []) => Some v | _ => None end.
Lemma json_of_write v : json_of (write v) = Some v.
Proof. unfold json_of. pose proof (read_write v [] (length (write v)) (le_n _)) as H. rewrite app_nil_r in H. by rewrite H. Qed.
End JsonCodec.

(** * A worked request

    Concrete instances of the third-party interfaces, a transport with a
    create-directory authority over the filesystem of [FsExample], and requests
    to it: the runs the witnesses of [TransportSafety] evaluate. *)

Module McpExample.
Import MutationWorkers WorkersSafety McpWire McpResponses McpArguments McpLabels McpCalls McpTransport.

#[export] Existing Instances AndroidBattery.AndroidBattery.example_float example_crypto example_file_modes FsSearch.example_chrono FsSearch.example_json.
#[export] Instance example_build : Build := mkBuild (bs "linux") (bs "aarch64") (bs "unix") (bs "0.1.0").

Definition call_body (name : string) (arguments : list (bytes * Json)) : Json :=
  JObject [(bs "jsonrpc", jstr "2.0"); (bs "id", jnum 1); (bs "method", jstr "tools/call");
    (bs "params", JObject [(bs "name", jstr name); (bs "arguments", JObject arguments)])].
Definition message_body (method : string) (params : list (bytes * Json)) : Json :=
  JObject [(bs "jsonrpc", jstr "2.0"); (bs "id", jnum 1); (bs "method", jstr method); (bs "params", JObject params)].
Definition stateless_meta : bytes * Json :=
  (bs "_meta", JObject [(STATELESS_PROTOCOL_VERSION_META, JString MCP_STATELESS_PROTOCOL_VERSION);
     (STATELESS_CLIENT_CAPABILITIES_META, JObject [])]).

#[export] Instance example_wire : HttpLib := {|
  header_to_str v := if forallb (in_range 32 126) v then Some v else None;
  json_response_headers := [(CONTENT_TYPE, bs "application/json")];
  json_from_slice b := ok_or (JsonCodec.json_of b) (bs "expected value");
|}.
#[export] Instance example_wire_laws : HttpLibLaws example_wire.
Proof.
  constructor; cbn [header_to_str json_response_headers example_wire].
  - intros v s. by destruct (forallb _ _); intros; simplify_eq.
  - by intros v ->.
  - reflexivity.
Defined.
#[export] Instance example_text : JsonText := JsonCodec.write.

Definition create_body : bytes := json_to_vec
  (call_body "create_directory" [(bs "path", jstr "/data/sub/new"); (bs "dry_run", JBool false)]).
Definition preview_body : bytes := json_to_vec
  (message_body "tools/call" [stateless_meta; (bs "name", jstr "create_directory");
     (bs "arguments", JObject [(bs "path", jstr "/data/sub/new")])]).
Definition initialize_message : bytes := json_to_vec
  (message_body "initialize" [(bs "protocolVersion", jstr "2025-11-25"); (bs "capabilities", JObject []);
     (bs "clientInfo", JObject [(bs "name", jstr "client"); (bs "version", jstr "1")])]).

Definition example_features : Config.Features := Config.mkFeatures true false false false false false.
Definition example_policy : TransportSecurity.TransportSecurityPolicy :=
  match TransportSecurity.localhost 8000 true with
  | Ok policy => policy
  | Err _ => TransportSecurity.mkPolicy ∅ ∅ false
  end.
Definition example_state : McpTransportState := mkTransport example_policy FsSearch.roots
  false true false false false false false (Some CreateDirectory.example_authority) None None None None false false.

Definition example_headers (extra : list (bytes * bytes)) : Headers :=
  [(HOST, bs "localhost:8000"); (CONTENT_TYPE, bs "application/json");
   (ACCEPT, bs "application/json, text/event-stream")] ++ extra.
Definition session_extra : list (bytes * bytes) :=
  [(MCP_PROTOCOL_VERSION_HEADER, MCP_PROTOCOL_VERSION); (MCP_SESSION_ID_HEADER, example_session)].
Definition live_headers : Headers :=
  example_headers (session_extra ++ [(REQUEST_GRANT_HEADER, default [] (MutationWorkers.capability_grant example_credentials))]).
Definition stateless_headers : Headers :=
  example_headers [(MCP_PROTOCOL_VERSION_HEADER, MCP_STATELESS_PROTOCOL_VERSION);
    (MCP_METHOD_HEADER, bs "tools/call"); (MCP_NAME_HEADER, bs "create_directory")].

(** The worker of a spawn, with the callback that consumes the caller's grant. *)
Definition callback (c : Credentials) (t : MutationTarget) : Result AuthorizedError unit :=
  match t with
  | CreateDirectoryTarget t =>
    snd (authorize_and_commit (create_directory_consume c example_clock example_world) example_world
           MUTATION_COMMIT_PENDING t)
  | _ => Err Cancelled
  end.
Definition worker_run (c : Credentials) (path : bytes) :=
  run (with_callback FsExample.kernel (callback c)) (run_create_directory_mutation_worker FsSearch.roots 101 path)
    FsSearch.world [].

(** A process with one active session. *)
Definition process (w : unit) (c : call) : unit * reply c :=
  (w, match c as c return reply c with
      | CurrentUnixSeconds => 101%N
      | RecordAuditEvent _ => tt
      | AuditCountersSnapshot => None
      | CreateSession => Ok example_session
      | PhaseOfSession _ => Ok McpSession.McpSession.Active
      | ActivateSession _ | TerminateSession _ => Ok tt
      | RecordSseResponse _ _ | ReplaySseAfter _ _ => Err McpSession.McpSession.SseReplayError.Poisoned
      | Look A p => snd (fst (run FsExample.kernel p FsSearch.world []))
      | TryAcquireWorker => true
      | SpawnCreateDirectory c path => Some (fst (snd (fst (worker_run c path))))
      | SpawnCopyFile _ _ _ => None
      | SpawnTrashFile _ _ => None
      | SpawnWriteFile _ _ _ => None
      | AvailableParallelism => Some 4%N
      | CollectBattery => Err AndroidBattery.AndroidBattery.ApiUnavailable
      | CollectVolume => Err VolumeStatus.ApiUnavailable
      | ProbeRish => Err (bs "unavailable")
      | PreviewVolume _ _ => Err VolumeControl.WorkerFailed
      | PrepareVolume _ _ => Err VolumeControl.WorkerFailed
      | ConsumeVolumeGrant _ _ _ _ _ => Err GrantError.Missing
      | ExecuteVolume _ => None
      | ExecuteCommand _ => Err CommandExecution.CommandProgramUnavailable
      | Panic => tt
      end).

Definition preview_run :=
  serve process (handle_mcp_request example_features example_state POST stateless_headers preview_body) tt [].
Definition initialize_run :=
  serve process (handle_mcp_request example_features example_state POST (example_headers []) initialize_message) tt [].

(** A process whose battery provider is enabled, asked for the battery. *)
Definition device_features : Config.Features := Config.mkFeatures true true false false false false.
Definition device_state : McpTransportState := mkTransport example_policy FsSearch.roots
  false true true false false false false None None None None None false false.
Definition device_headers : Headers :=
  example_headers [(MCP_PROTOCOL_VERSION_HEADER, MCP_STATELESS_PROTOCOL_VERSION);
    (MCP_METHOD_HEADER, bs "tools/call"); (MCP_NAME_HEADER, ANDROID_BATTERY_STATUS_TOOL)].
Definition device_body : bytes := json_to_vec
  (message_body "tools/call" [stateless_meta; (bs "name", JString ANDROID_BATTERY_STATUS_TOOL); (bs "arguments", JObject [])]).
Definition device_run :=
  serve process (handle_mcp_request device_features device_state POST device_headers device_body) tt [].

(** ** What the runs did *)

Lemma existsb_elem {A} (f : A → bool) l : existsb f l = true → ∃ a, a ∈ l ∧ f a = true.
Proof.
  induction l as [|a l IH]; simpl; [done|]. destruct (f a) eqn:E; intros H; [exists a|destruct (IH H) as (b & ? & ?); exists b];
    split; try done; [apply list_elem_of_here|by apply list_elem_of_further].
Qed.
(** A run that asked for something. *)
Lemma run_asked (p : handler Http.Response) (f : event → bool) :
  match serve process p tt [] with Some (_, _, t) => existsb f t | None => false end = true →
  ∃ r t e, served p [] r t ∧ e ∈ t ∧ f e = true.
Proof.
  destruct (serve process p tt []) as [[[w r] t]|] eqn:E; [|done]. apply serve_served in E as [Hs _].
  intros (e & ? & ?)%existsb_elem. by exists r, t, e.
Qed.
Definition session_created (e : event) : bool := match event_call e with CreateSession => true | _ => false end.
Definition looked (e : event) : bool := match event_call e with Look _ _ => true | _ => false end.
Definition battery_read (e : event) : bool := match event_call e with CollectBattery => true | _ => false end.
Lemma initialize_run_creates : ∃ r t e,
  served (handle_mcp_request example_features example_state POST (example_headers []) initialize_message) [] r t ∧
  e ∈ t ∧ session_created e = true.
Proof. apply run_asked. vm_compute. reflexivity. Qed.
Lemma preview_run_looks : ∃ r t e,
  served (handle_mcp_request example_features example_state POST stateless_headers preview_body) [] r t ∧
  e ∈ t ∧ looked e = true.
Proof. apply run_asked. vm_compute. reflexivity. Qed.
Lemma device_run_reads : ∃ r t e,
  served (handle_mcp_request device_features device_state POST device_headers device_body) [] r t ∧
  e ∈ t ∧ battery_read e = true.
Proof. apply run_asked. vm_compute. reflexivity. Qed.

Definition created (e : event) : bool :=
  match e with Event (SpawnCreateDirectory _ _) (Some (Completed (Ok _))) => true | _ => false end.
Definition create_run headers :=
  serve process (handle_mcp_request example_features example_state POST headers create_body) tt [].
Lemma create_run_creates headers :
  match create_run headers with Some (_, _, t) => existsb created t | None => false end = true →
  ∃ r t c path v, served (handle_mcp_request example_features example_state POST headers create_body) [] r t ∧
    Event (SpawnCreateDirectory c path) (Some (Completed (Ok v))) ∈ t ∧ fst (snd (fst (worker_run c path))) = Completed (Ok v).
Proof.
  intros H. destruct (create_run headers) as [[[w r] t]|] eqn:E; [|done]. apply serve_served in E as [Hs He].
  apply existsb_elem in H as (e & Hin & Hc). destruct e as [[] a]; try done. destruct a as [[[v|]|]|]; try done.
  exists r, t, credentials, path, v. split_and!; [done..|].
  destruct (He _ Hin) as [?%not_elem_of_nil|[w' Hr]]; [done|]. cbn in Hr. by injection Hr as <-.
Qed.
Lemma live_run_creates :
  ∃ r t c path v, served (handle_mcp_request example_features example_state POST live_headers create_body) [] r t ∧
    Event (SpawnCreateDirectory c path) (Some (Completed (Ok v))) ∈ t ∧ fst (snd (fst (worker_run c path))) = Completed (Ok v).
Proof. apply create_run_creates. vm_compute. reflexivity. Qed.

Lemma worker_run_exec c path :
  exec (run_create_directory_mutation_worker FsSearch.roots 101 path) [] (snd (fst (worker_run c path))) (snd (worker_run c path)).
Proof. destruct (worker_run c path) as [[w r] h] eqn:E. by eapply run_exec. Qed.
Lemma worker_run_honest c path :
  honest CreateDirectoryTarget (create_directory_consume c example_clock example_world) example_world
    MUTATION_COMMIT_PENDING (snd (worker_run c path)).
Proof.
  intros t r Hr. change (r = callback c (CreateDirectoryTarget t)). revert Hr. apply run_callback.
  by intros ?? ?%not_elem_of_nil.
Qed.
End McpExample.
