(* ===== verification/TransportSafety.v ===== *)
(** * What the endpoint guarantees

    The theorems about whole requests: what must have been sent and granted for a
    change of the filesystem or of a volume, which requests touch a session, what
    the stateless protocol cannot do, which devices are asked, and that every
    request is answered. *)

From S2P Require Import Prelude RustStd RustPath Http RequestGrantCapability GrantReplay GrantToken AppErrors AuditEvents.
From S2P Require Import JsonRpc McpSession TransportSecurity AndroidVolumeGrant AndroidVolumeControl AndroidBattery.
From S2P Require Import WriteFileGrant CopyFileGrant TrashFileGrant CreateDirectoryGrant CommandPolicy Config FsCalls.
From S2P Require Import SafeRoots FsPrepare FsReads FsTraverse FsMutations FsTools FsConfinement FsReadOnly MutationWorkers WorkersSafety.
From S2P Require Import StatusTools McpWire McpResponses McpArguments McpCalls McpReadTools McpDeviceTools.
From S2P Require Import McpMutations McpDiscovery McpTransport McpLogic McpEndpoint McpExample.

Module TransportSafety.
Import FsTraverse FsMutations FsTools MutationWorkers WorkersSafety McpWire McpResponses McpArguments.
Import McpLabels McpCalls McpReadTools McpDeviceTools McpMutations McpDiscovery McpTransport McpLogic McpToolSpecs.
Import McpEndpoint.

(** ** Live mutations *)

Section live.
Context {F : Float64} {FM : FileModes} {C : Crypto} {T : Chrono} {JL : JsonLength} {L : HttpLib} {JT : JsonText}.
Context {B : Build} {HL : HttpLibLaws L} (features : Config.Features).
Context (state : McpTransportState) (method : Method) (headers : Headers) (body : bytes).

(** What a call of the handler did to the filesystem: a look ran its program, a
    spawn ran its worker, whose callback consumed grants from [w] with the commit
    flag at [flag]; nothing else reaches the filesystem. *)
Definition ran (clock : option N) (w : ReplayWorld) (flag now : N) (e : event) (h : history) : Prop :=
  match event_call e as c return answer c → Prop with
  | Look A p => λ r, exec p [] r h
  | SpawnCreateDirectory c path => λ r, ∃ outcome audits,
      exec (run_create_directory_mutation_worker (file_tools state) now path) [] (outcome, audits) h ∧
      honest CreateDirectoryTarget (create_directory_consume c clock w) w flag h ∧
      ∀ o, r = Some o → o = outcome
  | SpawnCopyFile c source destination => λ r, ∃ outcome audits,
      exec (run_copy_file_mutation_worker (file_tools state) now source destination) [] (outcome, audits) h ∧
      honest CopyFileTarget (copy_file_consume c clock w) w flag h ∧ ∀ o, r = Some o → o = outcome
  | SpawnTrashFile c path => λ r, ∃ outcome audits,
      exec (run_trash_file_mutation_worker (file_tools state) now path) [] (outcome, audits) h ∧
      honest TrashFileTarget (trash_file_consume c clock w) w flag h ∧ ∀ o, r = Some o → o = outcome
  | SpawnWriteFile c path content => λ r, ∃ outcome audits,
      exec (run_write_file_mutation_worker (file_tools state) now path content) [] (outcome, audits) h ∧
      honest WriteFileTarget (write_file_consume c clock w) w flag h ∧ ∀ o, r = Some o → o = outcome
  | _ => λ _, h = []
  end (event_answer e).

(** A tools/call of an initialized session of the 2025-11-25 protocol, from an
    allowed host and origin, with or without a grant header. *)
Definition live_call (t : list event) (session_id : bytes) (grant : option bytes) (call : ToolCallParams) : Prop :=
  accepted state headers ∧ method = POST ∧ declares_stateless_request state headers body = false ∧
  capability_grant_header headers = Ok grant ∧
  session_headers headers = Ok session_id ∧ Event (PhaseOfSession session_id) (Ok McpSession.McpSession.Active) ∈ t ∧
  ∃ id params, JsonRpc.JsonRpc.parse_incoming_message body = Ok (JsonRpc.JsonRpc.Request id (bs "tools/call") params) ∧
    params ≫= decode_tool_call = Some call.

(** The grant was consumed for a target that describes what was asked for. *)
Definition paid {U} (inject : U → MutationTarget) (describes : U → Prop)
    (consume : U → ReplayWorld * GrantResult unit) (h : history) : Prop :=
  ∃ target, describes target ∧ Ev (Authorize (inject target)) (Ok ()) ∈ h ∧ snd (consume target) = Ok ().

Definition authorized_mutation (call : ToolCallParams) (session_id token : bytes) (clock : option N) (w : ReplayWorld)
    (h : history) : Prop :=
  ∃ v authority, into_value (call_arguments call) = Some v ∧
    let c := mkCredentials authority (Some token) session_id in
    (call_name call = CREATE_DIRECTORY_TOOL ∧ create_directory_authority state = Some authority ∧
     ∃ args, decode_create_directory v = Some args ∧ mutation_dry_run args = Some false ∧
       paid CreateDirectoryTarget (create_target (file_tools state) (mutation_path args))
         (create_directory_consume c clock w) h) ∨
    (call_name call = COPY_FILE_TOOL ∧ copy_file_authority state = Some authority ∧
     ∃ args, decode_copy_file v = Some args ∧ copy_dry_run args = Some false ∧
       paid CopyFileTarget
         (copy_target (file_tools state) (copy_source_path args) (copy_destination_path args))
         (copy_file_consume c clock w) h) ∨
    (call_name call = TRASH_FILE_TOOL ∧ trash_file_authority state = Some authority ∧
     ∃ args, decode_trash_file v = Some args ∧ mutation_dry_run args = Some false ∧
       paid TrashFileTarget (trash_target (file_tools state) (mutation_path args)) (trash_file_consume c clock w) h) ∨
    (call_name call = WRITE_FILE_TOOL ∧ write_file_authority state = Some authority ∧
     ∃ args, decode_write_file v = Some args ∧ write_dry_run args = Some false ∧
       paid WriteFileTarget (write_target (file_tools state) (write_path args) (write_content args))
         (write_file_consume c clock w) h).

(** *** Steps *)

Lemma request_allowed r t :
  served (handle_mcp_request features state method headers body) [] r t →
  all_allowed (request_permits features state method headers body) t.
Proof. intros Hs. eapply served_allowed; [exact Hs|done|apply request_spec]. Qed.
Lemma allowed_event t e :
  all_allowed (request_permits features state method headers body) t → e ∈ t →
  ∃ t', t' `suffix_of` t ∧ request_permits features state method headers body (event_call e) t'.
Proof.
  intros Hs He. destruct (all_allowed_elem _ _ _ Hs He) as (t1 & t2 & -> & Hp).
  exists t2. split; [exists (t1 ++ [e]); by rewrite <-app_assoc|done].
Qed.
Lemma request_event r t e :
  served (handle_mcp_request features state method headers body) [] r t → e ∈ t →
  ∃ t', t' `suffix_of` t ∧ request_permits features state method headers body (event_call e) t'.
Proof. intros Hs. by apply allowed_event, (request_allowed r). Qed.

Lemma looks_change_nothing A p (r : Result AppErrors.AppErrors.AppError A) h :
  reading (file_tools state) _ A p → exec p [] r h → unchanged h.
Proof.
  intros Hr He. apply is_passive_unchanged.
  eapply FsReadOnly.passive_exec; [by eapply FsReadOnly.reading_passive|exact He].
Qed.

(** A caller with a session is one of its calls, and credentials come from it. *)
Lemma caller_calls params invocation grant t t' session_id call :
  caller state method headers body params invocation grant t' → t' `suffix_of` t →
  params ≫= decode_tool_call = Some call → legacy_session invocation = Some session_id →
  live_call t session_id grant call.
Proof.
  intros Hc Hs Hd Hl. destruct invocation as [sid|]; [|done]. injection Hl as ->.
  destruct Hc as [[Hh Hp] (id & Hacc & Hm & Hst & Hgr & Hb)]. split_and!; try done; [|by exists id, params].
  destruct Hs as [l ->]. apply elem_of_app. by right.
Qed.
Lemma caller_live params invocation grant t t' authority c call :
  caller state method headers body params invocation grant t' → t' `suffix_of` t →
  params ≫= decode_tool_call = Some call →
  credentialed invocation grant authority c t' →
  ∃ token, live_call t (MutationWorkers.session_id c) (Some token) call ∧
    c = mkCredentials (MutationWorkers.authority c) (Some token) (MutationWorkers.session_id c) ∧
    authority = Some (MutationWorkers.authority c).
Proof.
  intros Hc Hs Hd (Ha & [token ->] & Hg & Hl & _). exists token.
  split_and!; [by eapply caller_calls|by destruct c; simpl in *; subst|done].
Qed.
Lemma paid_of_worker {U A} (inject : U → MutationTarget) describes consume w flag (outcome : WorkerOutcome A) audits h :
  accountable inject describes consume w flag outcome audits h →
  changed h ∨ (∃ v, outcome = Completed (Ok v)) → paid inject describes consume h.
Proof. intros (_ & H & _) Hc. by destruct (H Hc) as (_ & ?). Qed.
Lemma mutation_authorized t e clock w flag now h :
  all_allowed (request_permits features state method headers body) t → e ∈ t →
  ran clock w flag now e h → changed h ∨ completed e →
  ∃ session_id token call,
    live_call t session_id (Some token) call ∧ authorized_mutation call session_id token clock w h.
Proof.
  intros Hs He Hr Hc. destruct (allowed_event _ _ Hs He) as (t' & Ht & Hp).
  destruct e as [c a]. unfold ran in Hr. unfold completed in Hc. cbn [event_call event_answer] in *.
  destruct c; try (subst h; by destruct Hc as [(? & ?%not_elem_of_nil & _)|]).
  1: { destruct Hc as [Hc|[]]. exfalso.
    destruct Hp as (params & invocation & grant & _ & call & _ & [(_ & [[[]|[]]|[[]|Hl]])|[(_ & [[]|[]])|(_ & [[]|[Hl _]])]]);
      revert Hc; by eapply changed_unchanged, looks_change_nothing. }
  all: destruct Hp as (params & invocation & grant & Hcall & call & Ed & [(_ & [[[]|[]]|[[]|[]]])|[(_ & [[]|[]])|(_ & [[]|Hm])]]).
  all: destruct Hm as (Hn & (v & args & Ev & Ea & Hd & Hargs) & Hcr).
  all: destruct (caller_live _ _ _ _ _ _ _ _ Hcall Ht Ed Hcr) as (token & Hlive & Ec & Eauth).
  all: eexists _, token, call; (split; [exact Hlive|]); exists v, (MutationWorkers.authority credentials); (split; [done|]);
    cbv zeta; rewrite <-Ec.
  all: destruct Hr as (outcome & audits & Hx & Hh & Ho).
  all: assert (changed h ∨ (∃ v, outcome = Completed (Ok v))) as Hch
    by (destruct Hc as [Hc|[u ->]]; [by left|right; exists u; by rewrite (Ho _ eq_refl)]).
  - left. split_and!; [done..|]. exists args. split_and!; [done..|]. rewrite Hargs.
    eapply paid_of_worker; [by eapply create_worker_accountable|done].
  - right; left. split_and!; [done..|]. exists args. destruct Hargs as [-> ->]. split_and!; [done..|].
    eapply paid_of_worker; [by eapply copy_worker_accountable|done].
  - right; right; left. split_and!; [done..|]. exists args. split_and!; [done..|]. rewrite Hargs.
    eapply paid_of_worker; [by eapply trash_worker_accountable|done].
  - right; right; right. split_and!; [done..|]. exists args. destruct Hargs as [-> ->]. split_and!; [done..|].
    eapply paid_of_worker; [by eapply write_worker_accountable|done].
Qed.
(** C6: a live filesystem mutation needs everything at once.  In any run of the
    endpoint, whatever the clock, the session store and the kernel answer: if what
    a handler asked for changed the filesystem, or was answered as done, then the
    request passed the Host and Origin policy, was a POST of a tools/call in an
    initialized session of the 2025-11-25 protocol, carried exactly one bounded
    grant header, named the tool whose mutation gate is configured, asked for
    [dry_run] false explicitly, and that grant, for that session, was consumed for
    a target that describes the requested paths and content. *)
Theorem live_mutations_authorized r t e clock w flag now h :
  served (handle_mcp_request features state method headers body) [] r t → e ∈ t →
  ran clock w flag now e h → changed h ∨ completed e →
  ∃ session_id token call,
    live_call t session_id (Some token) call ∧ authorized_mutation call session_id token clock w h.
Proof. intros Hs. by apply mutation_authorized, (request_allowed r). Qed.
(** ** Protocols *)

(** What a request that carries a grant header is let ask for.  The previews of
    create_directory, write_file and set_android_volume look with a grant they do
    not use, those of copy_file and trash_file do not. *)
Definition grant_due (c : call) : Prop :=
  match c with
  | CreateSession | ActivateSession _ | TerminateSession _ | ReplaySseAfter _ _ => False
  | PhaseOfSession _ => ∃ token message, legacy_post state method headers body (Some token) message
  | RecordSseResponse _ _ => ∃ token id params,
      legacy_post state method headers body (Some token) (JsonRpc.JsonRpc.Request id (bs "tools/call") params)
  | Panic => True
  | c => ∃ token id params call,
      legacy_post state method headers body (Some token) (JsonRpc.JsonRpc.Request id (bs "tools/call") params) ∧
      params ≫= decode_tool_call = Some call ∧
      match c with
      | CurrentUnixSeconds | RecordAuditEvent _ => call_name call ∈ grant_tools
      | TryAcquireWorker => call_name call ∈ mutation_tools
      | Look _ _ => call_name call = CREATE_DIRECTORY_TOOL ∨ call_name call = WRITE_FILE_TOOL
      | SpawnCreateDirectory _ _ => call_name call = CREATE_DIRECTORY_TOOL
      | SpawnCopyFile _ _ _ => call_name call = COPY_FILE_TOOL
      | SpawnTrashFile _ _ => call_name call = TRASH_FILE_TOOL
      | SpawnWriteFile _ _ _ => call_name call = WRITE_FILE_TOOL
      | PreviewVolume _ _ | PrepareVolume _ _ | ConsumeVolumeGrant _ _ _ _ _ | ExecuteVolume _ =>
        call_name call = SET_ANDROID_VOLUME_TOOL
      | _ => False
      end
  end.
(** A call of a tool with the header is one with its token, and no read. *)
Lemma granted_call params invocation grant t t' c :
  caller state method headers body params invocation grant t → granted headers →
  tool_call_permits features state params invocation grant c t' →
  ∃ token id call, legacy_post state method headers body (Some token) (JsonRpc.JsonRpc.Request id (bs "tools/call") params) ∧
    params ≫= decode_tool_call = Some call ∧
    ((call_name call = SET_ANDROID_VOLUME_TOOL ∧
       volume_call features state (into_value (call_arguments call)) invocation (Some token) c t') ∨
     (call_name call ∈ mutation_tools ∧
       mutation_call state (into_value (call_arguments call)) invocation (Some token) (call_name call) c t')).
Proof.
  intros Hc Hg (call & Hd & Hp). destruct invocation as [sid|]; [|by destruct Hc as (_ & _ & _ & _ & _ & ?)].
  destruct Hc as [_ [id Hl]]. destruct (legacy_granted _ _ _ _ _ _ Hl Hg) as [token ->].
  exists token, id, call. split; [done|]. split; [done|]. by destruct Hp as [[? _]|].
Qed.
Lemma granted_event t e :
  all_allowed (request_permits features state method headers body) t → e ∈ t → granted headers →
  grant_due (event_call e).
Proof.
  intros Hs He Hg. destruct (allowed_event _ _ Hs He) as (t' & _ & Hp).
  assert (∀ message, ¬ legacy_post state method headers body None message) as Hno
    by (intros message Hl; by destruct (legacy_granted _ _ _ _ _ _ Hl Hg)).
  destruct e as [c a]. cbn [event_call] in *.
  destruct c; cbn [request_permits] in Hp;
    try (destruct Hp as (params & invocation & grant & Hc & Hp);
         destruct (granted_call _ _ _ _ _ _ Hc Hg Hp) as (grant_token & id & call & Hl & Hd & [[Hn H]|[Hn H]]));
    try done; try (by destruct H); try (exists grant_token, id, params, call; split_and!; [done..|]).
  all: try (by rewrite Hn; apply (bool_decide_unpack _); vm_compute).
  all: try (by apply elem_of_app; left).
  all: try (by destruct H as [[]|[? _]]).
  - by destruct Hp as (_ & ? & ? & ?%Hno & _).
  - by destruct Hp as (_ & _ & _ & Hp); apply Hp.
  - by destruct Hp as (_ & ? & ?%Hno).
  - by destruct Hp as (_ & _ & _ & ?).
  - destruct Hp as (_ & _ & _ & _ & Hp). by apply Hp.
  - by destruct Hp as (_ & _ & _ & _ & ?).
  - destruct H as [[]|[_ H]]. by apply H.
Qed.
(** C7: the endpoint keeps to its protocols.  Along every run, each call is made
    only where [request_permits] lets it: a session is created only by a valid
    initialize without a session or grant header, its phase is read only for the
    session the headers name, it is activated only by the initialized
    notification, ended only by DELETE, its events are recorded only for a POST of
    its own and replayed only to a GET in the active phase with SSE enabled, and a
    tool runs only for a tools/call of an active session or of the enabled
    stateless protocol; nothing is asked before Host and Origin were accepted, and
    every response is marked as not to be stored.  A request that carries a grant
    header ([grant_due]) asks for no more than the phase of its session and what a
    tools/call in it of one of the five tools that take grants asks for: a GET or
    DELETE with one asks for nothing, no session is created, activated, ended or
    replayed, no tool that only reads or reports runs, and the filesystem is looked
    at only for the previews of create_directory and write_file, which ignore the
    grant as that of set_android_volume does. *)
Theorem requests_follow_protocol r t :
  served (handle_mcp_request features state method headers body) [] r t →
  all_allowed (request_permits features state method headers body) t ∧
  (t ≠ [] → accepted state headers) ∧
  (granted headers → ∀ e, e ∈ t → grant_due (event_call e)) ∧
  header_get_all (Http.headers r) CACHE_CONTROL = [bs "no-store"].
Proof.
  intros Hs. split_and!.
  - by eapply request_allowed.
  - intros Ht. destruct (transport_security state headers) as [[]|e] eqn:E; [done|]. exfalso. apply Ht.
    unfold handle_mcp_request, route_mcp_request in Hs. rewrite E in Hs. by inversion Hs.
  - intros Hg e He. eapply granted_event; [by eapply request_allowed|done..].
  - by destruct (served_allowed _ _ _ _ _ _ Hs I (request_spec _ _ _ _ _)) as [? _].
Qed.

(** What the stateless protocol may ask for: nothing of a session, of the
    mutation workers or of a live volume change. *)
Definition preview_only (c : call) : Prop :=
  match c with
  | CurrentUnixSeconds | RecordAuditEvent _ | AuditCountersSnapshot | Look _ _ | AvailableParallelism
  | CollectBattery | CollectVolume | ProbeRish | PreviewVolume _ _ | ExecuteCommand _ | Panic => True
  | _ => False
  end.

(** C8: a POST that declares the stateless protocol, in any of the ways the
    transport recognizes, can neither touch a session nor change anything: it
    asks for no session, no worker, no grant and no live volume change, and what
    it looks at on the filesystem leaves the filesystem unchanged, whatever the
    arguments say of [dry_run] and however they are encoded. *)
Theorem stateless_requests_only_preview r t e :
  served (handle_mcp_request features state method headers body) [] r t →
  method = POST → declares_stateless_request state headers body = true → e ∈ t →
  preview_only (event_call e) ∧
  match event_call e with Look A p => ∀ a h, exec p [] a h → unchanged h | _ => True end.
Proof.
  intros Hs Hm Hd He. destruct (request_event _ _ _ Hs He) as (t' & _ & Hp).
  assert (∀ grant message, ¬ legacy_post state method headers body grant message) as Hno
    by (intros ?? (_ & _ & ? & _); congruence).
  assert (∀ params invocation grant t, caller state method headers body params invocation grant t →
    invocation = StatelessReadPreview) as Hcaller.
  { intros params [sid|] grant t2; [|done]. intros [_ [id Hl]]. by destruct (Hno _ _ Hl). }
  destruct e as [c a]. cbn [event_call] in *. destruct c; cbn [request_permits preview_only] in *; (split; [|try done]); try done.
  1: by destruct Hp as (_ & ? & ? & Hl & _); eapply Hno.
  1: by destruct Hp as (_ & _ & Hp & _); rewrite Hp in Hd.
  1: by destruct Hp as (_ & ? & Hl); eapply Hno.
  1: by destruct Hp as (_ & Hl & _); congruence.
  1: by destruct Hp as (_ & _ & Hl & _); congruence.
  1: by destruct Hp as (_ & Hl & _); congruence.
  all: destruct Hp as (params & invocation & grant & Hc & call & _ &
    [(_ & [[[]|H]|[[]|H]])|[(_ & [[]|H])|(_ & [[]|H])]]); apply Hcaller in Hc as ->; try by (destruct H).
  1: intros r' h; by apply looks_change_nothing.
  1: destruct H as [H _]; intros r' h; by apply looks_change_nothing.
  1-4: by destruct H as (_ & _ & _ & _ & _ & Hl & _).
  - by destruct H as [_ []].
  - by destruct H as (_ & _ & Hl & _).
  - by destruct H as (? & ? & ? & ? & ? & ? & _ & Hl & _).
Qed.
(** ** Devices *)

(** A live volume change of a tools/call: prepared for the stream and level that
    were asked for, and granted for exactly them. *)
Definition volume_granted (t : list event) (prepared : VolumeControl.PreparedAndroidVolumeMutation) : Prop :=
  ∃ session_id grant call stream level authority target now,
    live_call t session_id grant call ∧ call_name call = SET_ANDROID_VOLUME_TOOL ∧
    volume_requested features state (into_value (call_arguments call)) stream level false ∧
    android_volume_control_authority state = Some authority ∧
    AndroidVolume.AndroidVolumeGrantTarget_new stream level = Ok target ∧
    Event (PrepareVolume stream level) (Ok prepared) ∈ t ∧
    Event (ConsumeVolumeGrant authority grant session_id target now) (Ok ()) ∈ t.

(** The gate of a device call, along a trace. *)
Definition device_gate (t : list event) (c : call) : Prop :=
  match c with
  | CollectBattery => Config.android_battery_status features = true ∧ android_battery_status_enabled state = true
  | CollectVolume => Config.android_volume_status features = true ∧ android_volume_status_enabled state = true
  | ProbeRish => Config.android_rish features = true ∧ has_rish_backend_client state = true
  | ExecuteCommand profile =>
    Config.command_execution features = true ∧ command_execution_enabled state = true ∧
    has_command_execution_client state = true ∧ profile ∈ CommandPolicy.COMMAND_PROFILES
  | PreviewVolume _ _ | PrepareVolume _ _ =>
    Config.android_volume_control features = true ∧ android_volume_control_enabled state = true
  | ExecuteVolume prepared => volume_granted t prepared
  | _ => True
  end.
Lemma device_gated t e :
  all_allowed (request_permits features state method headers body) t → e ∈ t → device_gate t (event_call e).
Proof.
  intros Hs He. destruct (allowed_event _ _ Hs He) as (t' & Ht & Hp).
  destruct e as [c a]. unfold device_gate. cbn [event_call] in *. destruct c; try done;
    destruct Hp as (params & invocation & grant & Hc & call & Ed & [(_ & [[[]|H]|[[]|H]])|[(Hn & [[]|H])|(_ & [[]|H])]]); try done.
  - by destruct H as (? & ? & _ & _ & _ & _ & _ & ? & ?).
  - by destruct H as [(? & ? & _ & _ & _ & _ & _ & ? & ?) _].
  - destruct H as (stream & level & authority & session_id & target & now & Hr & Hl & Ha & Htg & Hprep & Hcons).
    exists session_id, grant, call, stream, level, authority, target, now.
    split_and!; try done; [by eapply caller_calls|destruct Ht as [l ->]; apply elem_of_app; by right..].
Qed.
(** C9: a device is asked only behind its gates.  Along every run of the endpoint
    a provider is asked only if it is compiled in and enabled, a command runs only
    if command execution is compiled in, enabled and configured and is one of the
    reviewed profiles, and a volume is changed only by a tools/call of an active
    session with explicit [dry_run] false, after a preparation of exactly the
    stream and level of its arguments and after the caller's grant was consumed
    for exactly them. *)
Theorem device_access_gated r t e :
  served (handle_mcp_request features state method headers body) [] r t → e ∈ t →
  match event_call e with
  | CollectBattery => Config.android_battery_status features = true ∧ android_battery_status_enabled state = true
  | CollectVolume => Config.android_volume_status features = true ∧ android_volume_status_enabled state = true
  | ProbeRish => Config.android_rish features = true ∧ has_rish_backend_client state = true
  | ExecuteCommand profile =>
    Config.command_execution features = true ∧ command_execution_enabled state = true ∧
    has_command_execution_client state = true ∧ profile ∈ CommandPolicy.COMMAND_PROFILES
  | PreviewVolume _ _ | PrepareVolume _ _ =>
    Config.android_volume_control features = true ∧ android_volume_control_enabled state = true
  | ExecuteVolume prepared => volume_granted t prepared
  | _ => True
  end.
Proof. intros Hs. by apply device_gated, (request_allowed r). Qed.
(** ** Answers *)

(** What a blocking task can panic on: a look at the filesystem only on a
    modification time that chrono cannot represent, a worker on nothing. *)
Definition sound_task (c : call) : Prop :=
  let panicked h := Ev FsCalls.Panic () ∈ h in
  match c with
  | Look A p => ∀ r h, exec p [] r h → panicked h → FsReads.time_out_of_range h
  | SpawnCreateDirectory _ path => ∀ now o h,
      exec (run_create_directory_mutation_worker (file_tools state) now path) [] o h → ¬ panicked h
  | SpawnCopyFile _ source destination => ∀ now o h,
      exec (run_copy_file_mutation_worker (file_tools state) now source destination) [] o h → ¬ panicked h
  | SpawnTrashFile _ path => ∀ now o h,
      exec (run_trash_file_mutation_worker (file_tools state) now path) [] o h → ¬ panicked h
  | SpawnWriteFile _ path content => ∀ now o h,
      exec (run_write_file_mutation_worker (file_tools state) now path content) [] o h → ¬ panicked h
  | _ => True
  end.
Lemma task_sound t e :
  all_allowed (request_permits features state method headers body) t → e ∈ t → sound_task (event_call e).
Proof.
  intros Hs He. destruct (allowed_event _ _ Hs He) as (t' & _ & Hp).
  destruct e as [c a]. cbn [event_call] in *. destruct c; cbn [sound_task]; try done.
  2: intros now o h; apply (worker_never_panics (file_tools state)), mutation_create.
  2: intros now o h; apply (worker_never_panics (file_tools state)), mutation_copy.
  2: intros now o h; apply (worker_never_panics (file_tools state)), mutation_trash.
  2: intros now o h; apply (worker_never_panics (file_tools state)), mutation_write.
  destruct Hp as (params & invocation & grant & _ & call & _ & [(_ & [[[]|[]]|[[]|H]])|[(_ & [[]|[]])|(_ & [[]|[H _]])]]);
    intros r h; by eapply FsConfinement.reading_panics.
Qed.

(** C10: every request is answered.  However the clock, the stores, the
    filesystem and the devices answer, as long as they do answer, the endpoint's
    handler comes to its end with a response and not to a panic of its own,
    provided that the session identifiers it is given are header values and that
    enabled volume control has its authority.  Of the blocking tasks it waits for,
    the mutation workers never panic, and a look at the filesystem panics only
    after the kernel gave it a file whose modification time chrono cannot
    represent: that look is the one that a release build, which aborts on a panic,
    does not answer. *)
Theorem every_request_answered {W} (process : W → ∀ c, W * reply c) w :
  (∀ w created, snd (process w CreateSession) = Ok created → is_Some (header_value_try_from created)) →
  (android_volume_control_enabled state = true → is_Some (android_volume_control_authority state)) →
  ∃ w' r t, serve process (handle_mcp_request features state method headers body) w [] = Some (w', r, t) ∧
    header_get_all (Http.headers r) CACHE_CONTROL = [bs "no-store"] ∧ ∀ e, e ∈ t → sound_task (event_call e).
Proof.
  intros Hcreate Hvolume.
  destruct (serve_total (request_permits features state method headers body) process
    (λ t, ∀ created, Event CreateSession (Ok created) ∈ t → is_Some (header_value_try_from created))
    _ w [] _ (request_spec _ _ _ _ _)) as (w' & r & t & Hs & Hr).
  - by intros ? ?%not_elem_of_nil.
  - intros t Ht [[He Hn]|(created & Hc & Hn)].
    + apply Hvolume in He as [a Ha]. congruence.
    + apply Ht in Hc as [v Hv]. congruence.
  - intros e t Ht [w1 He] created [<-|Hin]%elem_of_cons; [|by apply Ht]. apply (Hcreate w1). by symmetry.
  - exists w', r, t. split; [done|]. split; [done|]. intros e. eapply task_sound, request_allowed.
    by apply serve_served in Hs as [? _].
Qed.
End live.
(** ** The worked requests *)

Import McpExample.

(** The grant of the example, presented in the example session, creates the
    directory of the example. *)
Lemma live_mutations_authorized_witness :
  ∃ t session_id token call w flag h,
    live_call example_state POST live_headers create_body t session_id (Some token) call ∧
    authorized_mutation example_state call session_id token example_clock w h ∧ flag = MUTATION_COMMIT_PENDING.
Proof.
  destruct live_run_creates as (r & t & c & path & v & Hs & He & Ho).
  destruct (live_mutations_authorized example_features example_state POST live_headers create_body r t _
    example_clock example_world MUTATION_COMMIT_PENDING 101 (snd (worker_run c path)) Hs He)
    as (session_id & token & call & Hl & Ha).
  - destruct (snd (fst (worker_run c path))) as [outcome audits] eqn:E. exists outcome, audits. split_and!.
    + rewrite <-E. apply worker_run_exec.
    + apply worker_run_honest.
    + intros o [= <-]. symmetry. exact Ho.
  - right. exists v. reflexivity.
  - exists t, session_id, token, call, example_world, MUTATION_COMMIT_PENDING, (snd (worker_run c path)).
    split; [exact Hl|]. split; [exact Ha|reflexivity].
Defined.

(** An initialize request creates its session after it passed the policy. *)
Lemma requests_follow_protocol_witness :
  ∃ t, all_allowed (request_permits example_features example_state POST (example_headers []) initialize_message) t ∧
    accepted example_state (example_headers []) ∧ ∃ e, e ∈ t ∧ session_created e = true.
Proof.
  destruct initialize_run_creates as (r & t & e & Hs & Hin & He).
  destruct (requests_follow_protocol example_features example_state POST (example_headers []) initialize_message r t Hs)
    as (Ha & Hacc & _).
  exists t. split; [exact Ha|]. split; [|exists e; split; [exact Hin|exact He]].
  apply Hacc. intros ->. exact (proj1 (elem_of_nil e) Hin).
Defined.
(** The stateless preview of the example looks at the filesystem and leaves it. *)
Lemma stateless_requests_only_preview_witness :
  ∃ (t : list event) e, e ∈ t ∧ looked e = true ∧ preview_only (event_call e) ∧
    match event_call e with Look A p => ∀ a h, exec p [] a h → unchanged h | _ => True end.
Proof.
  destruct preview_run_looks as (r & t & e & Hs & Hin & He). exists t, e. split; [exact Hin|]. split; [exact He|].
  apply (stateless_requests_only_preview example_features example_state POST stateless_headers preview_body r t e Hs eq_refl);
    [vm_compute; reflexivity|exact Hin].
Defined.
(** The battery is read behind its gate. *)
Lemma device_access_gated_witness :
  ∃ (t : list event) e, e ∈ t ∧ battery_read e = true ∧ match event_call e with
    | CollectBattery => Config.android_battery_status device_features = true ∧ android_battery_status_enabled device_state = true
    | _ => False
    end.
Proof.
  destruct device_run_reads as (r & t & e & Hs & Hin & He).
  pose proof (device_access_gated device_features device_state POST device_headers device_body r t e Hs Hin) as H.
  exists t, e. split; [exact Hin|]. split; [exact He|].
  destruct e as [c a]; destruct c; try discriminate He. exact H.
Defined.

(** A stateless preview of the example directory is answered. *)
Lemma every_request_answered_witness :
  ∃ w' r t, serve process (handle_mcp_request example_features example_state POST stateless_headers preview_body) tt []
    = Some (w', r, t).
Proof.
  destruct (every_request_answered example_features example_state POST stateless_headers preview_body process tt)
    as (w' & r & t & H & _).
  - intros w created [= <-]. exists example_session. vm_compute. reflexivity.
  - discriminate.
  - exists w', r, t. exact H.
Defined.
End TransportSafety.
