(* ===== verification/McpAnswers.v ===== *)
(** * What a tool call records and answers

    One audit event for every call, success only where it was allowed or a worker
    completed it, and the decoration of the answers by both protocols. *)

From S2P Require Import Prelude RustStd RustPath Http RequestGrantCapability GrantToken AppErrors AuditEvents JsonRpc.
From S2P Require Import McpSession AndroidVolumeControl AndroidBattery CommandPolicy Config FsCalls SafeRoots FsPrepare.
From S2P Require Import FsReads FsTraverse FsMutations FsTools MutationWorkers StatusTools McpWire McpResponses McpArguments.
From S2P Require Import McpCalls McpReadTools McpDeviceTools McpMutations McpDiscovery McpTransport McpLogic.
From S2P Require Import McpEndpoint McpExample.

Module McpAnswers.
Import FsTraverse MutationWorkers McpWire McpResponses McpArguments McpLabels McpCalls McpDiscovery McpTransport McpLogic.
Import McpToolSpecs McpEndpoint.

Section answers.
Context {F : Float64} {FM : FileModes} {C : Crypto} {T : Chrono} {JL : JsonLength} {L : HttpLib} {JT : JsonText}.
Context {B : Build} {HL : HttpLibLaws L} (features : Config.Features) (state : McpTransportState).

(** C11: tool calls are accounted for.  Every run of [handle_tool_call] either
    refuses the call before any tool is reached, asking nothing, or leaves exactly
    one account of it: one audit event of the handler, which is an allowance
    whenever the answer is a success; or one mutation worker, which records its
    own event, and whose completed mutation is what a success reports — the
    handler then records nothing more, except a denial where it also refuses to
    send the answer. *)
Theorem tool_calls_accounted id params invocation grant r t :
  served (handle_tool_call features id params state invocation grant) [] r t →
  (t = [] ∧ refused r) ∨
  (∃ e, recorded t = [e] ∧ spawned t = 0 ∧ answered r ∧ (sound false r → Audit.decision e = Audit.Allowed)) ∨
  (spawned t = 1 ∧ answered r ∧
   (recorded t = [] ∨ refused r ∧ ∃ e, recorded t = [e] ∧ Audit.decision e = Audit.Denied) ∧
   (sound false r → ∃ e, e ∈ t ∧ completed e)).
Proof.
  intros Hs. destruct (served_allowed (λ _ _, True) _ _ _ _ (tool_call_outcome []) Hs) as [Ho _]; [done| |].
  - eapply (tool_call_spec features id params state invocation grant (λ _ _, True) [] []); [done|done|by auto].
  - destruct Ho as [?|[Ha [(e & ? & ? & ?)|(? & ? & ?)]]]; [by left|right; left; by exists e|by right; right].
Qed.

(** ** Decoration *)

Definition too_large (a : Response) : Prop := status a = 413%N.
Lemma bounded_too_large id message limit : too_large (bounded_payload_too_large id message limit).
Proof. unfold bounded_payload_too_large. cbv zeta. by destruct (json_response_fits _ _). Qed.

Lemma header_get_all_remove_ne h name name' : name ≠ name' → header_get_all (header_remove h name) name' = header_get_all h name'.
Proof.
  intros Hne. unfold header_get_all, header_remove. f_equal.
  induction h as [|kv h IH]; simpl; [done|]. destruct (bytes_eqb kv.1 name) eqn:E; simpl.
  - apply bytes_eqb_true in E. by rewrite E, (proj2 (bytes_eqb_false _ _)).
  - destruct (bytes_eqb kv.1 name'); simpl; by rewrite IH.
Qed.

(** The members of a result that the stateless protocol leaves as they are. *)
Definition kept (tool key : bytes) : Prop :=
  key ≠ bs "resultType" ∧ key ≠ bs "_meta" ∧ (tool = RUNTIME_STATUS_TOOL → key ≠ bs "structuredContent").

(** What of a parsed body the decoration works on: the envelope, its result and
    the metadata the result already has. *)
Definition envelope (value : Result bytes Json) (members result meta : list (bytes * Json)) : Prop :=
  value = Ok (JObject members) ∧ json_get (bs "result") members = Some (JObject result) ∧
  as_object (default (JObject []) (json_get (bs "_meta") result)) = Some meta.

Lemma decorate_call tool result meta :
  as_object (default (JObject []) (json_get (bs "_meta") result)) = Some meta →
  ∃ result', decorate_result (bs "tools/call") (Some tool) state result = Some result' ∧
    json_get (bs "resultType") result' = Some (jstr "complete") ∧
    json_get (bs "_meta") result' = Some (JObject (json_insert STATELESS_SERVER_INFO_META server_info meta)) ∧
    ∀ key, kept tool key → json_get key result' = json_get key result.
Proof.
  intros Hm. unfold decorate_result. cbv zeta.
  rewrite json_get_insert_ne, Hm by done. cbn [mbind option_bind].
  change (bytes_eqb (bs "tools/call") (bs "tools/list")) with false. cbv iota.
  set (base := json_insert (bs "_meta") _ _).
  assert (json_get (bs "resultType") base = Some (jstr "complete") ∧
    json_get (bs "_meta") base = Some (JObject (json_insert STATELESS_SERVER_INFO_META server_info meta)) ∧
    ∀ key, kept tool key → json_get key base = json_get key result) as (Ht & Hme & Hk).
  { unfold base. split_and!.
    - by rewrite json_get_insert_ne, json_get_insert_eq.
    - by rewrite json_get_insert_eq.
    - intros key (? & ? & _). by rewrite !json_get_insert_ne. }
  eexists; split; [reflexivity|]. case_bool_decide as E; cbn [andb]; [|done].
  change (bytes_eqb (bs "tools/call") (bs "tools/call")) with true. cbn [andb]. injection E as ->.
  unfold append_stateless_runtime_status.
  destruct (json_get (bs "structuredContent") base) as [[]|]; try done.
  rewrite !json_get_insert_ne by done. split_and!; [done..|]. intros key Hkey. pose proof Hkey as (_ & _ & Hs).
  rewrite json_get_insert_ne by (by apply Hs). by apply Hk.
Qed.
Lemma decorate_call_none tool result :
  as_object (default (JObject []) (json_get (bs "_meta") result)) = None →
  decorate_result (bs "tools/call") (Some tool) state result = None.
Proof. intros Hm. unfold decorate_result. cbv zeta. by rewrite json_get_insert_ne, Hm by done. Qed.

(** The answer such a body becomes on the stateless protocol. *)
Definition completed_answer (tool : bytes) (members result meta : list (bytes * Json)) (a : Response) : Prop :=
  ∃ result', status a = 200%N ∧
    body a = OpaqueBody (json_to_vec (JObject (json_insert (bs "result") (JObject result') members))) ∧
    (N.of_nat (length (body_bytes (body a)))
       ≤ MAX_MCP_COLLECTED_JSON_RESPONSE_BYTES + MAX_STATELESS_RESPONSE_METADATA_BYTES)%N ∧
    json_get (bs "resultType") result' = Some (jstr "complete") ∧
    json_get (bs "_meta") result' = Some (JObject (json_insert STATELESS_SERVER_INFO_META server_info meta)) ∧
    ∀ key, kept tool key → json_get key result' = json_get key result.
(** The answer a result becomes in a session: itself, or what its bytes read back
    as, recorded and sent as events. *)
Definition delivered_answer (session_id : bytes) (r a : Response) (t : list event) : Prop :=
  status a = 200%N ∧ body_bytes (body a) = body_bytes (body r) ∧ header_get_all (Http.headers a) CONTENT_TYPE = [bs "application/json"] ∨
  ∃ value answer, json_from_slice (body_bytes (body r)) = Ok value ∧
    t = [Event (RecordSseResponse session_id (json_to_vec value)) answer] ∧ sse_enabled state = true ∧
    (N.of_nat (length (json_to_vec value)) ≤ McpSession.McpSession.MAX_MCP_SSE_EVENT_DATA_BYTES)%N ∧
    match answer with
    | Ok events =>
      status a = 200%N ∧ body a = sse_events_body events ∧
      header_get_all (Http.headers a) CONTENT_TYPE = [bs "text/event-stream; charset=utf-8"]
    | Err error => a = sse_replay_error_response error
    end.

Lemma sound_bytes e r : sound e r →
  status r = 200%N ∧ Http.headers r = json_response_headers ∧
  to_bytes (body r) MAX_MCP_COLLECTED_JSON_RESPONSE_BYTES = Some (body_bytes (body r)).
Proof.
  intros (members & result & Hs & Hh & Hb & Hl & _). split_and!; try done.
  unfold to_bytes, json_len in *. cbv zeta. rewrite Hb. cbn [body_bytes].
  by rewrite (proj2 (N.leb_le _ _) Hl).
Qed.
Lemma sound_envelope e r : sound e r → ∃ members result, body r = JsonBody (JObject members) ∧
  envelope (Ok (JObject members)) members result [].
Proof.
  intros (members & result & _ & _ & Hb & _ & Hr & Hm & _). exists members, result. split; [done|].
  split_and!; [done..|]. by rewrite Hm.
Qed.

(** On the stateless protocol a sound result is completed as far as its bytes read
    back. *)
Lemma complete_sound e r id tool : sound e r →
  let a := stateless_complete_response id r (bs "tools/call") (Some tool) state in
  (∀ members result meta, envelope (json_from_slice (body_bytes (body r))) members result meta →
     too_large a ∨ completed_answer tool members result meta a) ∧
  ((∀ members result meta, ¬ envelope (json_from_slice (body_bytes (body r))) members result meta) →
     ∃ message, a = internal_error id message).
Proof.
  intros Hs. pose proof (sound_not_refused _ _ Hs) as Hok. destruct (sound_bytes _ _ Hs) as (Hst & Hh & Ht).
  cbv zeta. unfold stateless_complete_response. rewrite Hok, Ht. cbn [negb]. split.
  - intros members result meta (Hp & Hr & Hm). rewrite Hp. cbn [as_object mbind option_bind]. rewrite Hr.
    cbn [as_object mbind option_bind].
    destruct (decorate_call tool result meta Hm) as (result' & Hd & Ht' & Hme & Hk). rewrite Hd. cbv zeta.
    destruct (N.ltb_spec (MAX_MCP_COLLECTED_JSON_RESPONSE_BYTES + MAX_STATELESS_RESPONSE_METADATA_BYTES)%N
      (N.of_nat (length (json_to_vec (JObject (json_insert (bs "result") (JObject result') members)))))) as [Hl|Hl].
    + left. apply bounded_too_large.
    + right. exists result'. by split_and!.
  - intros Hno. destruct (json_from_slice (body_bytes (body r))) as [value|]; [|by eexists].
    destruct (as_object value) as [members|] eqn:Ev; cbn [mbind option_bind]; [|by eexists].
    destruct (json_get (bs "result") members) as [inner|] eqn:Er; cbn [mbind option_bind]; [|by eexists].
    destruct (as_object inner) as [result|] eqn:Ei; cbn [mbind option_bind]; [|by eexists].
    destruct value; try discriminate Ev. injection Ev as ->. destruct inner; try discriminate Ei. injection Ei as ->.
    destruct (as_object (default (JObject []) (json_get (bs "_meta") result))) as [meta|] eqn:Em.
    { exfalso. by apply (Hno members result meta). }
    rewrite decorate_call_none by done. by eexists.
Qed.

(** C33: decoration loses nothing that can be read back.  A result of a tool, as
    every tool that succeeds or reports its own error answers it, fits the budget
    under which both protocols collect it, serialize it and read it again.  The
    stateless protocol answers from what was read: when that is an envelope with a
    result, whose metadata, if any, is an object, the answer has every member that
    was read, with the result type and the server's identity added, within the
    budget and 2048 bytes of metadata, or is refused as too large; and only
    otherwise is it an internal error.  In particular a result whose text reads
    back as itself is always completed or too large.  A session gets the bytes of
    the result as they are, or the events that were recorded of what was read, or
    the error of recording them. *)
Theorem answers_survive_decoration is_error r :
  sound is_error r →
  (∀ id tool, let a := stateless_complete_response id r (bs "tools/call") (Some tool) state in
     (∀ members result meta, envelope (json_from_slice (body_bytes (body r))) members result meta →
        too_large a ∨ completed_answer tool members result meta a) ∧
     ((∀ members result meta, ¬ envelope (json_from_slice (body_bytes (body r))) members result meta) →
        ∃ message, a = internal_error id message) ∧
     ∃ members result, body r = JsonBody (JObject members) ∧ json_get (bs "result") members = Some (JObject result) ∧
       (json_from_slice (json_to_vec (JObject members)) = Ok (JObject members) →
          too_large a ∨ completed_answer tool members result [] a)) ∧
  (∀ session_id a t, served (maybe_sse_response state session_id r) [] a t → delivered_answer session_id r a t).
Proof.
  intros Hs. split.
  - intros id tool. cbv zeta. destruct (complete_sound _ _ id tool Hs) as [Hc Hno]. split; [done|]. split; [done|].
    destruct (sound_envelope _ _ Hs) as (members & result & Hb & _ & Hr & Hm). exists members, result.
    split; [done|]. split; [done|]. intros Hp. apply Hc. rewrite Hb. cbn [body_bytes]. by rewrite Hp.
  - intros sid a t Hserved. pose proof (sound_not_refused _ _ Hs) as Hok.
    destruct (sound_bytes _ _ Hs) as (Hst & Hh & Ht).
    destruct (served_allowed (λ _ _, True) _ _ _ _ (λ a t, delivered_answer sid r a t) Hserved) as [? _]; [done| |done].
    unfold maybe_sse_response. rewrite Hok, Ht. cbn [negb orb]. rewrite orb_false_r.
    assert (∀ t, delivered_answer sid r (with_body r (body_bytes (body r))) t) as Hsame.
    { intros t'. left. split_and!; [done..|]. cbn [with_body Http.headers]. by rewrite Hh, json_content_type. }
    destruct (sse_enabled state) eqn:Ese; cbn [negb]; [|left; split_and!; [done..|by rewrite Hh, json_content_type]].
    destruct (json_from_slice (body_bytes (body r))) as [value|] eqn:Ep; [|apply Hsame]. cbv zeta.
    destruct (N.ltb_spec McpSession.McpSession.MAX_MCP_SSE_EVENT_DATA_BYTES (N.of_nat (length (json_to_vec value))));
      [apply Hsame|].
    apply allowed_bind, allowed_ask; [done|]. intros [events|error]; cbn [allowed_all mret handler_ret].
    + right. exists value, (Ok events). split_and!; try done. cbn [Http.headers].
      rewrite header_get_all_remove_ne by done. apply header_get_all_insert.
    + destruct error; try (right; eexists value, (Err _); by split_and!). apply Hsame.
Qed.
End answers.

(** ** Worked calls *)

Import McpExample.

Definition preview_call : Json :=
  JObject [(bs "name", jstr "create_directory"); (bs "arguments", JObject [(bs "path", jstr "/data/sub/new")])].
Definition preview_call_run := serve process
  (handle_tool_call example_features (Some (jnum 1)) (Some preview_call) example_state StatelessReadPreview None) tt [].
Definition example_result : Response := ok_result (Some (jnum 1)) (bs "done") (JObject []).

(** The preview of the example records one allowance. *)
Lemma tool_calls_accounted_witness :
  ∃ r t e, served (handle_tool_call example_features (Some (jnum 1)) (Some preview_call) example_state
    StatelessReadPreview None) [] r t ∧ recorded t = [e] ∧ Audit.decision e = Audit.Allowed.
Proof.
  assert (match preview_call_run with
          | Some (_, r, t) => is_json_ok r && (spawned t =? 0) && (length (recorded t) =? 1)
              && forallb (λ e, match Audit.decision e with Audit.Allowed => true | _ => false end) (recorded t)
          | None => false end = true) as H by (vm_compute; reflexivity).
  destruct preview_call_run as [[[w r] t]|] eqn:E; [|discriminate]. apply serve_served in E as [Hs _].
  apply andb_true_iff in H as [[[Hok Hsp]%andb_true_iff Hr]%andb_true_iff Hall].
  destruct (tool_calls_accounted example_features example_state _ _ _ _ _ _ Hs)
    as [[_ Hf]|[(e & He & _)|(Hsp' & _)]].
  - unfold refused in Hf. congruence.
  - exists r, t, e. split; [exact Hs|]. split; [exact He|]. rewrite He in Hall. simpl in Hall.
    destruct (Audit.decision e); [reflexivity|discriminate].
  - rewrite Hsp' in Hsp. discriminate.
Defined.

(** A small result is completed, not refused. *)
Lemma answers_survive_decoration_witness :
  sound false example_result ∧
  ∃ members result, body example_result = JsonBody (JObject members) ∧
    completed_answer PLATFORM_INFO_TOOL members result []
      (stateless_complete_response (Some (jnum 1)) example_result (bs "tools/call") (Some PLATFORM_INFO_TOOL) example_state).
Proof.
  assert (sound false example_result) as Hs.
  { eexists _, _. split_and!; try reflexivity. vm_compute. discriminate. }
  split; [exact Hs|].
  destruct (proj1 (answers_survive_decoration example_state false example_result Hs) (Some (jnum 1)) PLATFORM_INFO_TOOL)
    as (_ & _ & members & result & Hb & _ & H).
  exists members, result. split; [exact Hb|]. destruct H as [Hl|Ha]; [| |exact Ha].
  - injection Hb as <-. vm_compute. reflexivity.
  - exfalso. revert Hl. vm_compute. discriminate.
Defined.
End McpAnswers.
