(* ===== verification/DiscoverySafety.v ===== *)
(** * Discovery describes the tools

    What [tools/list] announces in each posture: its tools, the schemas of the
    mutating ones, and the edits of the stateless protocol. *)

From S2P Require Import Prelude RustStd RustPath Http GrantToken AndroidVolumeControl CommandPolicy WritePolicy FsReads FsTraverse StatusTools.
From S2P Require Import AndroidBattery MutationWorkers McpWire McpResponses McpArguments McpCalls McpReadTools McpDiscovery.
From S2P Require Import McpTransport.

Module DiscoverySafety.
Import MutationWorkers McpWire McpResponses McpArguments McpLabels McpCalls McpDiscovery McpTransport.

(** ** Reading what a pointer leads to *)

Fixpoint pointer_get (path : list bytes) (target : Json) : option Json :=
  match path with
  | [] => Some target
  | key :: path => members ← as_object target; child ← json_get key members; pointer_get path child
  end.
Lemma pointer_get_app p q t : pointer_get (p ++ q) t = pointer_get p t ≫= pointer_get q.
Proof.
  revert t; induction p as [|k p IH]; intros t; simpl; [done|]. destruct t; simpl; try done.
  destruct (json_get k members) as [c|]; simpl; [apply IH|done].
Qed.
Lemma pointer_get_update p f t c : pointer_get p t = Some c →
  ∃ t', pointer_update p f t = Some t' ∧ pointer_get p t' = Some (f c).
Proof.
  revert t; induction p as [|k p IH]; intros t; simpl; [by intros [= ->]; eexists|].
  destruct t; simpl; try done. destruct (json_get k members) as [d|]; simpl; [|done].
  intros (t' & Hu & Hg)%IH. eexists. rewrite Hu. simpl. split; [done|]. simpl. by rewrite json_get_insert_eq.
Qed.
Lemma pointer_update_name k p f t t' : k ≠ bs "name" → pointer_update (k :: p) f t = Some t' →
  tool_name_of t' = tool_name_of t.
Proof.
  intros Hk. destruct t; simpl; try done. destruct (json_get k members); simpl; [|done].
  destruct (pointer_update p f _); simpl; [|done]. intros [= <-]. simpl. by apply json_get_insert_ne.
Qed.

Definition named (name : bytes) (tool : Json) : Prop := tool_name_of tool = Some (JString name).
(** The schema of [dry_run] of a tool, and whether it admits only previews. *)
Definition dry_run_schema (tool : Json) : option (list (bytes * Json)) := pointer_get DRY_RUN_SCHEMA tool ≫= as_object.
Definition previews (tool : Json) : Prop := pointer_get (DRY_RUN_SCHEMA ++ [bs "const"]) tool = Some (JBool true).

Lemma previews_schema tool : previews tool ↔ ∃ schema, dry_run_schema tool = Some schema ∧ json_get (bs "const") schema = Some (JBool true).
Proof.
  unfold previews, dry_run_schema. rewrite pointer_get_app. destruct (pointer_get DRY_RUN_SCHEMA tool) as [[]|]; simpl; [naive_solver..| |naive_solver].
  destruct (json_get (bs "const") members) as [v|] eqn:E; simpl; naive_solver.
Qed.

(** ** Editing one tool *)

Lemma index_set_name key v tool : key ≠ bs "name" → tool_name_of (index_set key v tool) = tool_name_of tool.
Proof. destruct tool; simpl; intros; [done..|]. by apply json_get_insert_ne. Qed.
Lemma index_set_pointer key v k p tool : key ≠ k → pointer_get (k :: p) (index_set key v tool) = pointer_get (k :: p) tool.
Proof. destruct tool; simpl; intros; [done..|]. by rewrite json_get_insert_ne. Qed.

Lemma dry_run_pointer tool schema : dry_run_schema tool = Some schema → pointer_get DRY_RUN_SCHEMA tool = Some (JObject schema).
Proof. unfold dry_run_schema. by destruct (pointer_get DRY_RUN_SCHEMA tool) as [[]|]; intros [= ->]. Qed.

(** The edit of a description and of the schema of [dry_run]. *)
Lemma edit_schema description f tool schema :
  dry_run_schema tool = Some schema →
  ∃ tool', pointer_update DRY_RUN_SCHEMA f (index_set (bs "description") description tool) = Some tool' ∧
    tool_name_of tool' = tool_name_of tool ∧ pointer_get DRY_RUN_SCHEMA tool' = Some (f (JObject schema)).
Proof.
  intros Hs. apply dry_run_pointer in Hs.
  destruct (pointer_get_update DRY_RUN_SCHEMA f (index_set (bs "description") description tool) (JObject schema))
    as (tool' & Hu & Hg); [by unfold DRY_RUN_SCHEMA in *; rewrite index_set_pointer|].
  exists tool'. split_and!; [done| |done]. unfold DRY_RUN_SCHEMA in Hu. apply pointer_update_name in Hu; [|done].
  rewrite Hu. by apply index_set_name.
Qed.
Lemma describe_spec d enabled tool schema :
  dry_run_schema tool = Some schema →
  ∃ tool' schema', describe d enabled tool = Some tool' ∧ tool_name_of tool' = tool_name_of tool ∧
    dry_run_schema tool' = Some schema' ∧
    json_get (bs "const") schema' = if enabled then json_get (bs "const") schema else Some (JBool true).
Proof.
  intros Hs. unfold describe, dry_run_schema. destruct enabled.
  - edestruct (edit_schema (jstr (enabled_description d))) as (tool' & Hu & Hn & Hg); [exact Hs|].
    rewrite Hu. exists tool'. eexists. split_and!; [done|done|by rewrite Hg; reflexivity|]. by rewrite json_get_insert_ne.
  - edestruct (edit_schema (jstr (disabled_description d))) as (tool' & Hu & Hn & Hg); [exact Hs|].
    rewrite Hu. exists tool'. eexists. split_and!; [done|done|by rewrite Hg; reflexivity|].
    rewrite json_get_insert_ne by done. apply json_get_insert_eq.
Qed.
Lemma constrain_spec name tool schema :
  named name tool → is_mutation_tool name = true → dry_run_schema tool = Some schema → previews (constrain_tool tool).
Proof.
  intros Hn Hm Hs. unfold constrain_tool. rewrite Hn, Hm. cbv zeta.
  edestruct edit_schema as (tool' & Hu & _ & Hg); [exact Hs|]. rewrite Hu. cbn [from_option id].
  apply previews_schema. eexists. unfold dry_run_schema. rewrite Hg. split; [reflexivity|].
  rewrite json_get_insert_ne by done. apply json_get_insert_eq.
Qed.

Lemma named_dec name tool :
  match tool_name_of tool with Some (JString n) => bytes_eqb n name | _ => false end = true ↔ named name tool.
Proof.
  unfold named. destruct (tool_name_of tool) as [[]|]; try (split; [done|congruence]).
  rewrite bytes_eqb_true. split; [by intros ->|by intros [= ->]].
Qed.
Lemma update_tool_spec name f tools :
  (∃ tool, tool ∈ tools ∧ named name tool) →
  (∀ tool, tool ∈ tools → named name tool → ∃ tool', f tool = Some tool' ∧ tool_name_of tool' = tool_name_of tool) →
  ∃ tools', update_tool name f tools = Some tools' ∧ tool_name_of <$> tools' = tool_name_of <$> tools ∧
    (∃ tool tool', tool ∈ tools ∧ named name tool ∧ f tool = Some tool' ∧ tool' ∈ tools') ∧
    (∀ tool, tool ∈ tools → ¬ named name tool → tool ∈ tools') ∧
    (∀ tool', tool' ∈ tools' → tool' ∈ tools ∨ ∃ tool, tool ∈ tools ∧ named name tool ∧ f tool = Some tool').
Proof.
  induction tools as [|tool tools IH]; intros (t & Ht & Hn) Hf; [by apply not_elem_of_nil in Ht|]. cbn [update_tool].
  destruct (match tool_name_of tool with Some (JString n) => bytes_eqb n name | _ => false end) eqn:E.
  - apply named_dec in E. destruct (Hf tool) as (tool' & Ef & En); [apply list_elem_of_here|done|].
    exists (tool' :: tools). rewrite Ef. split_and!; [done|by rewrite !fmap_cons, En|..].
    + exists tool, tool'. split_and!; [apply list_elem_of_here|done|done|apply list_elem_of_here].
    + intros u [->|Hu]%elem_of_cons Hne; [done|by apply list_elem_of_further].
    + intros u [->|Hu]%elem_of_cons; [right; exists tool; split; [apply list_elem_of_here|done]|].
      left. by apply list_elem_of_further.
  - assert (¬ named name tool) as Hne by (rewrite <-named_dec; congruence).
    destruct IH as (tools' & Hu & Hnames & (u & u' & ? & ? & ? & ?) & Hother & Hin).
    { exists t. split; [|done]. by apply elem_of_cons in Ht as [->|?]. }
    { intros u Hu. apply Hf. by apply list_elem_of_further. }
    exists (tool :: tools'). rewrite Hu. split_and!; [done|by rewrite !fmap_cons, Hnames|..].
    + exists u, u'. split_and!; [by apply list_elem_of_further|done|done|by apply list_elem_of_further].
    + intros v [->|Hv]%elem_of_cons Hn'; [apply list_elem_of_here|apply list_elem_of_further; by apply Hother].
    + intros v [->|Hv]%elem_of_cons; [left; apply list_elem_of_here|].
      destruct (Hin v Hv) as [?|(x & ? & ? & ?)]; [left; by apply list_elem_of_further|].
      right. exists x. split; [by apply list_elem_of_further|done].
Qed.

(** ** The listing of a posture *)

Definition FILESYSTEM_MUTATIONS : list bytes := [CREATE_DIRECTORY_TOOL; COPY_FILE_TOOL; TRASH_FILE_TOOL; WRITE_FILE_TOOL].

(** A listing whose tools of [gates] were described with their gates. *)
Record listing (gates : list (bytes * bool)) (tools : list Json) : Prop := {
  listing_names : tool_name_of <$> tools = Some ∘ JString <$> BASE_AVAILABLE_TOOLS;
  listing_gates name enabled : (name, enabled) ∈ gates →
    ∃ tool, tool ∈ tools ∧ named name tool ∧ (previews tool ↔ enabled = false);
  listing_schemas name tool : tool ∈ tools → named name tool → name ∈ FILESYSTEM_MUTATIONS →
    ∃ schema, dry_run_schema tool = Some schema ∧ (name ∉ gates.*1 → json_get (bs "const") schema = None);
}.

Lemma names_elem (tools : list Json) (names : list bytes) name : tool_name_of <$> tools = Some ∘ JString <$> names → name ∈ names →
  ∃ tool, tool ∈ tools ∧ named name tool.
Proof.
  intros Hn Hin. assert (Some (JString name) ∈ tool_name_of <$> tools) as H.
  { rewrite Hn. apply list_elem_of_fmap. by exists name. }
  apply list_elem_of_fmap in H as (tool & ? & ?). by exists tool.
Qed.
Lemma listing_step gates tools d name enabled :
  listing gates tools → name ∈ FILESYSTEM_MUTATIONS → name ∈ BASE_AVAILABLE_TOOLS → name ∉ gates.*1 →
  ∃ tools', update_tool name (describe d enabled) tools = Some tools' ∧ listing ((name, enabled) :: gates) tools'.
Proof.
  intros [Hnames Hgates Hschemas] Hm Hb Hg.
  destruct (update_tool_spec name (describe d enabled) tools) as (tools' & Hu & Hn & (u & u' & Hu1 & Hu2 & Hu3 & Hu4) & Ho & Hi).
  - by apply (names_elem _ BASE_AVAILABLE_TOOLS).
  - intros tool Ht Hname. destruct (Hschemas _ _ Ht Hname Hm) as (schema & Hs & _).
    destruct (describe_spec d enabled tool schema Hs) as (tool' & ? & ? & ? & _). by exists tool'.
  - exists tools'. split; [done|]. split; [by rewrite Hn|..].
    + intros n en [[= -> ->]|Hin]%elem_of_cons.
      * destruct (Hschemas _ _ Hu1 Hu2 Hm) as (schema & Hs & Hc).
        destruct (describe_spec d enabled u schema Hs) as (v & schema' & Hd & Hvn & Hvs & Hvc). simplify_eq.
        exists u'. split; [done|]. split; [unfold named in *; congruence|]. rewrite previews_schema, Hvs.
        rewrite Hc in Hvc by done. destruct enabled; split; try done; [|by exists schema'].
        intros (? & [= <-] & ?). congruence.
      * destruct (Hgates _ _ Hin) as (tool & Ht & Hname & Hp). exists tool. split_and!; [|done|done].
        apply Ho; [done|]. intros Hname'. apply Hg. apply list_elem_of_fmap. exists (n, en). split; [|done].
        unfold named in *. simpl. congruence.
    + intros n tool Ht Hname Hin. destruct (Hi _ Ht) as [Ht'|(w & Hw & Hwn & Hwd)].
      * destruct (Hschemas _ _ Ht' Hname Hin) as (schema & Hs & Hc). exists schema. split; [done|].
        intros Hnot. apply Hc. intros ?. apply Hnot. by apply list_elem_of_further.
      * destruct (Hschemas _ _ Hw Hwn Hm) as (schema & Hs & _).
        destruct (describe_spec d enabled w schema Hs) as (v & schema' & Hd & Hvn & Hvs & _). simplify_eq.
        exists schema'. split; [done|]. intros Hnot. exfalso. apply Hnot. unfold named in *.
        assert (n = name) as -> by congruence. apply list_elem_of_here.
Qed.

Definition undecided (tool : Json) : bool :=
  match tool_name_of tool with
  | Some (JString name) =>
    if contains FILESYSTEM_MUTATIONS name
    then is_some_and (λ schema, match json_get (bs "const") schema with None => true | Some _ => false end) (dry_run_schema tool)
    else true
  | _ => true
  end.
Lemma baseline_listing : listing [] baseline_tools.
Proof.
  split; [reflexivity|by intros ?? ?%not_elem_of_nil|]. intros name tool Ht Hn Hm.
  assert (forallb undecided baseline_tools = true) as H by (vm_compute; reflexivity).
  rewrite forallb_forall in H. specialize (H tool). unfold undecided in H. rewrite Hn in H.
  assert (contains FILESYSTEM_MUTATIONS name = true) as Hc by (by apply contains_true). rewrite Hc in H.
  rewrite <-list_elem_of_In in H. specialize (H Ht). destruct (dry_run_schema tool) as [schema|]; [|done].
  exists schema. split; [done|]. intros _. simpl in H. by destruct (json_get _ schema).
Qed.

(** The filesystem mutations with their gates. *)
Definition gates (state : McpTransportState) : list (bytes * bool) :=
  [(WRITE_FILE_TOOL, is_present (write_file_authority state));
   (TRASH_FILE_TOOL, is_present (trash_file_authority state));
   (COPY_FILE_TOOL, is_present (copy_file_authority state));
   (CREATE_DIRECTORY_TOOL, is_present (create_directory_authority state))].
Definition extra_tools (state : McpTransportState) : list Json :=
  (if android_battery_status_enabled state then [android_battery_status_entry] else [])
  ++ (if android_volume_status_enabled state then [android_volume_status_entry] else [])
  ++ (if android_volume_control_enabled state then [set_android_volume_entry] else [])
  ++ (if android_rish_enabled state then [android_rish_status_entry] else [])
  ++ (if command_execution_enabled state then [run_command_profile_entry] else []).

Lemma listed_listing state :
  ∃ tools, listed_tools state = Some (tools ++ extra_tools state) ∧ listing (gates state) tools.
Proof.
  assert (∀ name, bool_decide (name ∈ FILESYSTEM_MUTATIONS) = true → name ∈ FILESYSTEM_MUTATIONS) as Hm
    by (intros ?; apply bool_decide_eq_true).
  assert (∀ name, bool_decide (name ∈ BASE_AVAILABLE_TOOLS) = true → name ∈ BASE_AVAILABLE_TOOLS) as Hb
    by (intros ?; apply bool_decide_eq_true).
  assert (∀ (name : bytes) (g : list (bytes * bool)), bool_decide (name ∉ g.*1) = true → name ∉ g.*1) as Hg
    by (intros ??; apply bool_decide_eq_true).
  unfold listed_tools.
  destruct (listing_step [] baseline_tools create_directory_descriptions CREATE_DIRECTORY_TOOL
    (is_present (create_directory_authority state))) as (t1 & E1 & L1);
    [apply baseline_listing|by apply Hm|by apply Hb|by apply Hg|].
  destruct (listing_step _ t1 copy_file_descriptions COPY_FILE_TOOL (is_present (copy_file_authority state)) L1)
    as (t2 & E2 & L2); [by apply Hm|by apply Hb|by apply Hg|].
  destruct (listing_step _ t2 trash_file_descriptions TRASH_FILE_TOOL (is_present (trash_file_authority state)) L2)
    as (t3 & E3 & L3); [by apply Hm|by apply Hb|by apply Hg|].
  destruct (listing_step _ t3 write_file_descriptions WRITE_FILE_TOOL (is_present (write_file_authority state)) L3)
    as (t4 & E4 & L4); [by apply Hm|by apply Hb|by apply Hg|].
  exists t4. rewrite E1. simpl. rewrite E2. simpl. rewrite E3. simpl. rewrite E4. by split.
Qed.

(** A tool that has a schema of [dry_run] if it is a mutating tool. *)
Definition schematic (tool : Json) : bool :=
  match tool_name_of tool with
  | Some (JString name) => negb (is_mutation_tool name) || is_present (dry_run_schema tool)
  | _ => true
  end.
Lemma extra_schematic state : forallb schematic (extra_tools state) = true.
Proof.
  unfold extra_tools. rewrite !forallb_app.
  by destruct (android_battery_status_enabled state), (android_volume_status_enabled state),
    (android_volume_control_enabled state), (android_rish_enabled state), (command_execution_enabled state).
Qed.
Lemma extra_names state :
  tool_name_of <$> extra_tools state = Some ∘ JString <$> drop (length BASE_AVAILABLE_TOOLS) (available_tools state).
Proof.
  unfold extra_tools, available_tools. rewrite drop_app_length.
  by destruct (android_battery_status_enabled state), (android_volume_status_enabled state),
    (android_volume_control_enabled state), (android_rish_enabled state), (command_execution_enabled state).
Qed.
Lemma available_tools_NoDup state : NoDup (available_tools state).
Proof.
  unfold available_tools. apply (bool_decide_unpack _).
  by destruct (android_battery_status_enabled state), (android_volume_status_enabled state),
    (android_volume_control_enabled state), (android_rish_enabled state), (command_execution_enabled state).
Qed.

Lemma listing_mutations gates tools name tool : listing gates tools → tool ∈ tools → named name tool →
  is_mutation_tool name = true → ∃ schema, dry_run_schema tool = Some schema.
Proof.
  intros [Hnames _ Hschemas] Ht Hn Hm. destruct (Hschemas name tool) as (schema & ? & _); [done|done| |by exists schema].
  assert (Some (JString name) ∈ Some ∘ JString <$> BASE_AVAILABLE_TOOLS) as Hin.
  { rewrite <-Hnames. apply list_elem_of_fmap. by exists tool. }
  apply list_elem_of_fmap in Hin as (n & [= ->] & Hb). unfold is_mutation_tool in Hm. rewrite contains_true in Hm.
  apply (elem_of_app FILESYSTEM_MUTATIONS [SET_ANDROID_VOLUME_TOOL]) in Hm as [?|Hm]; [done|].
  apply list_elem_of_singleton in Hm as ->. apply contains_true in Hb. discriminate Hb.
Qed.
Lemma extra_mutations state name tool : tool ∈ extra_tools state → named name tool → is_mutation_tool name = true →
  ∃ schema, dry_run_schema tool = Some schema.
Proof.
  intros Ht Hn Hm. pose proof (extra_schematic state) as H. rewrite forallb_forall in H. specialize (H tool).
  rewrite <-list_elem_of_In in H. specialize (H Ht). unfold schematic in H. rewrite Hn, Hm in H.
  destruct (dry_run_schema tool) as [schema|]; [by exists schema|done].
Qed.

(** C34: discovery tells what a posture offers.  In every posture [tools/list]
    lists exactly the tools that [available_tools] names, in its order and each
    once; the schema of a filesystem mutation admits nothing but a preview exactly
    when its gate is closed; and what the stateless protocol lists of any
    mutating tool, the volume control included, admits nothing but previews. *)
Theorem discovery_exact state :
  ∃ tools, listed_tools state = Some tools ∧
    tool_name_of <$> tools = Some ∘ JString <$> available_tools state ∧ NoDup (available_tools state) ∧
    (∀ name enabled, (name, enabled) ∈ gates state →
       ∃ tool, tool ∈ tools ∧ named name tool ∧ (previews tool ↔ enabled = false)) ∧
    (∀ name tool, tool ∈ tools → named name tool → is_mutation_tool name = true → previews (constrain_tool tool)).
Proof.
  destruct (listed_listing state) as (tools & E & L). exists (tools ++ extra_tools state). split; [done|].
  split_and!; [|apply available_tools_NoDup|..].
  - rewrite fmap_app, (listing_names _ _ L), extra_names, <-fmap_app. unfold available_tools.
    rewrite drop_app_length. reflexivity.
  - intros name enabled H. destruct (listing_gates _ _ L _ _ H) as (tool & ? & ? & ?). exists tool.
    split; [by apply elem_of_app; left|done].
  - intros name tool [Ht|Ht]%elem_of_app Hn Hm.
    + destruct (listing_mutations _ _ _ _ L Ht Hn Hm) as [schema Hs]. by eapply constrain_spec.
    + destruct (extra_mutations _ _ _ Ht Hn Hm) as [schema Hs]. by eapply constrain_spec.
Qed.
End DiscoverySafety.
