(* ===== verification/Trees.v ===== *)
(** * Programs as trees of calls

    A program of a component with calls of its own is a [tree] of them, one branch
    for every answer.  [runs] runs it against arbitrary answers and keeps what
    happened, [underway] is a run that was cut off, and [ensures] is the logic:
    which call may follow what happened, and what holds at the end. *)

From S2P Require Import Prelude.

Module Trees.

Section trees.
Context {call : Type} {answer : call → Type}.

Inductive tree (A : Type) : Type :=
| Return (a : A)
| Ask (c : call) (k : answer c → tree A).
Arguments Return {A} a.
Arguments Ask {A} c k.

Fixpoint tree_bind {A B} (p : tree A) (f : A → tree B) : tree B :=
  match p with
  | Return a => f a
  | Ask c k => Ask c (λ r, tree_bind (k r) f)
  end.

(** Programs that can fail. *)
Definition io (E A : Type) : Type := tree (Result E A).
Definition io_bind {E A B} (p : io E A) (f : A → io E B) : io E B :=
  tree_bind p (λ r, match r with Ok a => f a | Err e => Return (Err e) end).
#[export] Instance io_ret E : MRet (io E) := λ A a, Return (Ok a).
#[export] Instance io_mbind E : MBind (io E) := λ A B f p, io_bind p f.

Definition lift {E A} (r : Result E A) : io E A := Return r.
Definition throw {E A} (e : E) : io E A := Return (Err e).
(** A call that cannot fail, one whose error becomes [e], and [map_err]. *)
Definition total {E} (c : call) : io E (answer c) := Ask c (λ r, Return (Ok r)).
Definition or_throw {E A} (e : E) (p : tree (option A)) : io E A :=
  tree_bind p (λ r, Return (ok_or r e)).
Definition or_err {E F A} (f : E → F) (p : io E A) : io F A := tree_bind p (λ r, Return (map_err f r)).
Definition attempt {E F A B} (p : io E A) (f : Result E A → io F B) : io F B := tree_bind p f.

(** ** Runs *)

Record event := Event { event_call : call; event_answer : answer event_call }.
(** The most recent event first. *)
Abbreviation trace := (list event).

Inductive runs {A} : tree A → trace → A → trace → Prop :=
| runs_Return a t : runs (Return a) t a t
| runs_Ask c k r t a t' : runs (k r) (Event c r :: t) a t' → runs (Ask c k) t a t'.
Inductive underway {A} : tree A → trace → trace → Prop :=
| underway_here p t : underway p t t
| underway_Ask c k r t t' : underway (k r) (Event c r :: t) t' → underway (Ask c k) t t'.

(** A run against a given process. *)
Fixpoint play {W A} (process : W → ∀ c, W * answer c) (p : tree A) (w : W) (t : trace) : W * A * trace :=
  match p with
  | Return a => (w, a, t)
  | Ask c k => let '(w, r) := process w c in play process (k r) w (Event c r :: t)
  end.
Lemma play_runs {W A} (process : W → ∀ c, W * answer c) (p : tree A) w t w' a t' :
  play process p w t = (w', a, t') → runs p t a t'.
Proof.
  revert w t; induction p as [x|c k IH]; intros w t; simpl.
  - intros [= <- <- <-]. constructor.
  - destruct (process w c) as [w1 r]. intros H. econstructor. eauto.
Qed.

Lemma runs_inv {A} (p : tree A) t a t' : runs p t a t' →
  match p with
  | Return b => a = b ∧ t' = t
  | Ask c k => ∃ r, runs (k r) (Event c r :: t) a t'
  end.
Proof. destruct 1; eauto. Qed.
Lemma runs_bind {E A B} (p : io E A) (f : A → io E B) t b t' : runs (p ≫= f) t b t' →
  ∃ r t1, runs p t r t1 ∧ match r with Ok a => runs (f a) t1 b t' | Err e => b = Err e ∧ t' = t1 end.
Proof.
  unfold mbind, io_mbind, io_bind. revert t. induction p as [a|c k IH]; intros t H; cbn [tree_bind] in H.
  - exists a, t. split; [constructor|]. destruct a; [exact H|]. by apply runs_inv in H.
  - apply runs_inv in H as [r H]. destruct (IH _ _ H) as (r1 & t1 & H1 & Hr). exists r1, t1. split; [by econstructor|done].
Qed.

(** What the process answers holds of the run. *)
Lemma play_all {W A} (process : W → ∀ c, W * answer c) (P : event → Prop) (p : tree A) w t w' a t' :
  (∀ w c, P (Event c (snd (process w c)))) → Forall P t → play process p w t = (w', a, t') → Forall P t'.
Proof.
  intros Hp. revert w t; induction p as [x|c k IH]; intros w t Ht; simpl.
  - by intros [= <- <- <-].
  - pose proof (Hp w c) as Hc. destruct (process w c) as [w1 r]. intros H. eapply IH; [|exact H]. by constructor.
Qed.

(** ** The logic *)

Section logic.
Context (S : call → trace → Prop).

Fixpoint ensures {A} (p : tree A) (t : trace) (Q : A → trace → Prop) : Prop :=
  match p with
  | Return a => Q a t
  | Ask c k => S c t ∧ ∀ r, ensures (k r) (Event c r :: t) Q
  end.
Fixpoint all_permitted (t : trace) : Prop :=
  match t with
  | [] => True
  | e :: t => S (event_call e) t ∧ all_permitted t
  end.

Lemma ensures_mono {A} (p : tree A) t (Q Q' : A → trace → Prop) :
  ensures p t Q → (∀ a t', Q a t' → Q' a t') → ensures p t Q'.
Proof. revert t; induction p as [a|c k IH]; simpl; intros t; [eauto|]. intros [? Hk] HQ. split; eauto. Qed.
Lemma ensures_tree_bind {A B} (p : tree A) (f : A → tree B) t Q :
  ensures p t (λ a t', ensures (f a) t' Q) → ensures (tree_bind p f) t Q.
Proof. revert t; induction p as [a|c k IH]; simpl; intros t; [done|]. intros [? Hk]. split; eauto. Qed.
Lemma ensures_bind {E A B} (p : io E A) (f : A → io E B) t Q :
  ensures p t (λ r t', match r with Ok a => ensures (f a) t' Q | Err e => Q (Err e) t' end) →
  ensures (p ≫= f) t Q.
Proof. intros H. apply ensures_tree_bind. eapply ensures_mono; [done|]. by intros []. Qed.

Lemma runs_ensures {A} (p : tree A) t a t' Q :
  runs p t a t' → all_permitted t → ensures p t Q → Q a t' ∧ all_permitted t'.
Proof. induction 1; simpl; [done|]. intros Ho [Hc Hk]. by apply IHruns. Qed.
Lemma underway_ensures {A} (p : tree A) t t' Q :
  underway p t t' → all_permitted t → ensures p t Q → all_permitted t'.
Proof. induction 1; simpl; [done|]. intros Ho [Hc Hk]. by apply IHunderway. Qed.
Lemma all_permitted_elem t e : all_permitted t → e ∈ t → ∃ t1 t2, t = t1 ++ e :: t2 ∧ S (event_call e) t2.
Proof.
  induction t as [|e' t IH]; simpl; [by intros _ ?%not_elem_of_nil|].
  intros [Hs Ht] [->|He]%elem_of_cons; [by exists [], t|].
  destruct (IH Ht He) as (t1 & t2 & -> & ?). by exists (e' :: t1), t2.
Qed.

(** What a run adds to what happened before. *)
Definition extends {A} (p : tree A) (t : trace) (Q : A → trace → Prop) : Prop :=
  ensures p t (λ a t', ∃ new, t' = new ++ t ∧ Q a new).

Lemma extends_mono {A} (p : tree A) t (Q Q' : A → trace → Prop) :
  extends p t Q → (∀ a new, Q a new → Q' a new) → extends p t Q'.
Proof. intros H HQ. eapply ensures_mono; [exact H|]. intros a t' (new & -> & ?). exists new. auto. Qed.
Lemma extends_return {A} (a : A) t (Q : A → trace → Prop) : Q a [] → extends (Return a) t Q.
Proof. intros H. by exists []. Qed.
Lemma extends_ask {A} c (k : answer c → tree A) t (Q : A → trace → Prop) :
  S c t → (∀ r, extends (k r) (Event c r :: t) (λ a new, Q a (new ++ [Event c r]))) → extends (Ask c k) t Q.
Proof.
  intros Hc Hk. split; [done|]. intros r. eapply ensures_mono; [apply Hk|]. intros a t' (new & -> & ?).
  exists (new ++ [Event c r]). split; [by rewrite <-app_assoc|done].
Qed.
Lemma extends_tree_bind {A B} (p : tree A) (f : A → tree B) t (Q : B → trace → Prop) :
  extends p t (λ a new, extends (f a) (new ++ t) (λ b new', Q b (new' ++ new))) → extends (tree_bind p f) t Q.
Proof.
  intros H. apply ensures_tree_bind. eapply ensures_mono; [exact H|]. intros a t' (new & -> & Hf).
  eapply ensures_mono; [exact Hf|]. intros b t' (new' & -> & ?). exists (new' ++ new). by rewrite <-app_assoc.
Qed.
Lemma extends_bind {E A B} (p : io E A) (f : A → io E B) t (Q : Result E B → trace → Prop) :
  extends p t (λ r new, match r with
                        | Ok a => extends (f a) (new ++ t) (λ b new', Q b (new' ++ new))
                        | Err e => Q (Err e) new
                        end) → extends (p ≫= f) t Q.
Proof. intros H. apply extends_tree_bind. eapply extends_mono; [exact H|]. intros [a|e] new ?; [done|]. by apply extends_return. Qed.
Lemma extends_lift {E A B} (r : Result E A) (f : A → io E B) t (Q : Result E B → trace → Prop) :
  match r with Ok a => extends (f a) t Q | Err e => Q (Err e) [] end → extends (lift r ≫= f) t Q.
Proof. intros H. destruct r; [exact H|]. by apply extends_return. Qed.
Lemma extends_or_throw {E A B} (e : E) c (g : answer c → option A) (f : A → io E B) t (Q : Result E B → trace → Prop) :
  S c t →
  (∀ r, match g r with
        | Some a => extends (f a) (Event c r :: t) (λ b new, Q b (new ++ [Event c r]))
        | None => Q (Err e) [Event c r]
        end) →
  extends (or_throw e (Ask c (λ r, Return (g r))) ≫= f) t Q.
Proof.
  intros Hc Hk. apply extends_ask; [done|]. intros r. specialize (Hk r). cbn.
  destruct (g r) as [a|]; [exact Hk|]. by apply extends_return.
Qed.
End logic.
End trees.
#[global] Arguments tree {call} answer A.
#[global] Arguments io {call} answer E A.
#[global] Arguments event {call} answer.
#[global] Arguments Return {call answer A} a.
#[global] Arguments Ask {call answer A} c k.
End Trees.
