(* ===== verification/RishBackend.v ===== *)
(** * The rish backend

    [src/src/rish_backend.rs]: the diagnostic probe of the Shizuku shell.  A
    client pins one DEX file by identity and digest; a probe validates it again,
    copies it into a sealed memory file, runs one fixed program on that copy, and
    accepts one exact output.  The calls of the module are its own, their answers
    arbitrary; the delays of the tests are left out. *)

From S2P Require Import Prelude RustStd RustPath Http RequestGrantCapability BoundedProcess FsCalls Trees.

Module RishBackend.
Import BoundedProcess Trees.

Definition RISH_APP_PROCESS_PROGRAM : bytes := bs "/system/bin/app_process64".
Definition RISH_APPLICATION_ID : bytes := bs "com.termux".
Definition RISH_STATUS_TIMEOUT : N := millis 5000.
Definition RISH_STATUS_STDOUT_BYTES : N := 1024.
Definition RISH_STATUS_STDERR_BYTES : N := 4 * 1024.
Definition MIN_RISH_DEX_BYTES : N := 1.
Definition MAX_RISH_DEX_BYTES : N := 16 * 1024 * 1024.
Definition RISH_LOADER_CLASS : bytes := bs "rikka.shizuku.shell.ShizukuShellLoader".
Definition RISH_ANDROID_RUNTIME_ENV_KEYS : list bytes :=
  [bs "ANDROID_ART_ROOT"; bs "ANDROID_ASSETS"; bs "ANDROID_DATA"; bs "ANDROID_I18N_ROOT"; bs "ANDROID_ROOT";
   bs "ANDROID_RUNTIME_ROOT"; bs "ANDROID_STORAGE"; bs "ANDROID_TZDATA_ROOT"; bs "ANDROID__BUILD_VERSION_SDK";
   bs "BOOTCLASSPATH"; bs "DEX2OATBOOTCLASSPATH"; bs "SYSTEMSERVERCLASSPATH"].
Definition RISH_FIXED_COMMAND : bytes := bs "exec /system/bin/id -u".
Definition ANDROID_SHELL_UID : N := 2000.
Definition EXPECTED_UID_TOKEN : bytes := bs "2000" ++ [byte_of 10].

(** ** Errors and status *)

Inductive RishBackendConfigError :=
| ConfigDexDigestFormatInvalid | ConfigDexPathInvalid | ConfigDexParentInvalid | ConfigDexFileInvalid
| ConfigDexDigestMismatch | ConfigDexDescriptorInvalid | ConfigDexIdentityChanged | ConfigInternal.

Inductive RishBackendError :=
| DexDigestFormatInvalid | DexPathInvalid | DexParentInvalid | DexFileInvalid | DexDigestMismatch
| DexDescriptorInvalid | DexIdentityChanged | DexSnapshotFailed | RishConcurrencyLimitExceeded
| RishProgramUnavailable | RishSpawnFailed | RishWaitFailed | RishTimedOut | RishStdoutLimitExceeded
| RishStderrLimitExceeded | RishProgramFailed | IdentityOutputInvalid | RishWorkerFailed.

Definition config_reason_code (e : RishBackendConfigError) : bytes :=
  match e with
  | ConfigDexDigestFormatInvalid => bs "rish_dex_digest_format_invalid"
  | ConfigDexPathInvalid => bs "rish_dex_path_invalid"
  | ConfigDexParentInvalid => bs "rish_dex_parent_invalid"
  | ConfigDexFileInvalid => bs "rish_dex_file_invalid"
  | ConfigDexDigestMismatch => bs "rish_dex_digest_mismatch"
  | ConfigDexDescriptorInvalid => bs "rish_dex_descriptor_invalid"
  | ConfigDexIdentityChanged => bs "rish_dex_identity_changed"
  | ConfigInternal => bs "rish_backend_config_invalid"
  end.
Definition reason_code (e : RishBackendError) : bytes :=
  match e with
  | DexDigestFormatInvalid => bs "rish_dex_digest_format_invalid"
  | DexPathInvalid => bs "rish_dex_path_invalid"
  | DexParentInvalid => bs "rish_dex_parent_invalid"
  | DexFileInvalid => bs "rish_dex_file_invalid"
  | DexDigestMismatch => bs "rish_dex_digest_mismatch"
  | DexDescriptorInvalid => bs "rish_dex_descriptor_invalid"
  | DexIdentityChanged => bs "rish_dex_identity_changed"
  | DexSnapshotFailed => bs "rish_dex_snapshot_failed"
  | RishConcurrencyLimitExceeded => bs "rish_probe_concurrency_limit"
  | RishProgramUnavailable => bs "rish_app_process_unavailable"
  | RishSpawnFailed => bs "rish_probe_spawn_failed"
  | RishWaitFailed => bs "rish_probe_wait_failed"
  | RishTimedOut => bs "rish_probe_timeout"
  | RishStdoutLimitExceeded => bs "rish_probe_stdout_limit_exceeded"
  | RishStderrLimitExceeded => bs "rish_probe_stderr_limit_exceeded"
  | RishProgramFailed => bs "rish_probe_failed"
  | IdentityOutputInvalid => bs "rish_probe_identity_invalid"
  | RishWorkerFailed => bs "rish_probe_worker_failed"
  end.
Definition from_process_error (e : BoundedProcessError) : RishBackendError :=
  match e with
  | ProgramUnavailable => RishProgramUnavailable
  | SpawnFailed => RishSpawnFailed
  | WaitFailed => RishWaitFailed
  | TimedOut => RishTimedOut
  | StdoutLimitExceeded => RishStdoutLimitExceeded
  | StderrLimitExceeded => RishStderrLimitExceeded
  | ProgramFailed => RishProgramFailed
  end.
Definition map_config_error (e : RishBackendError) : RishBackendConfigError :=
  match e with
  | DexDigestFormatInvalid => ConfigDexDigestFormatInvalid
  | DexPathInvalid => ConfigDexPathInvalid
  | DexParentInvalid => ConfigDexParentInvalid
  | DexFileInvalid => ConfigDexFileInvalid
  | DexDigestMismatch => ConfigDexDigestMismatch
  | DexDescriptorInvalid => ConfigDexDescriptorInvalid
  | DexIdentityChanged => ConfigDexIdentityChanged
  | _ => ConfigInternal
  end.

Record RishBackendStatus := mkRishStatus {
  available : bool;
  backend : bytes;
  principal : bytes;
  uid : N;
  state : bytes;
  root_accepted : bool;
  arbitrary_shell : bool;
  mutation_ready : bool;
}.
(** The [Serialize] of a status. *)
Definition rish_status_value (s : RishBackendStatus) : Json :=
  JObject [(bs "available", JBool (available s)); (bs "backend", JString (backend s));
    (bs "principal", JString (principal s)); (bs "uid", JNumber (PosInt (uid s))); (bs "state", JString (state s));
    (bs "rootAccepted", JBool (root_accepted s)); (bs "arbitraryShell", JBool (arbitrary_shell s));
    (bs "mutationReady", JBool (mutation_ready s))].

(** ** Calls

    [std::fs] metadata (an error carries nothing the source reads), [rustix] and
    the process.  The file type is that of the mode. *)
Record FileIdentity := mkIdentity {
  device : N;
  inode : N;
  mode : N;
  owner : N;
  links : N;
  file_bytes : N;
  modified_seconds : Z;
  modified_nanoseconds : Z;
  changed_seconds : Z;
  changed_nanoseconds : Z;
}.
#[export] Instance identity_eq_dec : EqDecision FileIdentity.
Proof. solve_decision. Defined.

Inductive MemfdFlag := MEMFD_CLOEXEC | ALLOW_SEALING | NOEXEC_SEAL.
Inductive SealFlag := SHRINK | GROW | WRITE | SEAL.
#[export] Instance seal_eq_dec : EqDecision SealFlag.
Proof. solve_decision. Defined.
(** [Errno::INVAL], or any other. *)
Inductive MemfdError := INVAL | OtherMemfdError.

(** [std::fs::Metadata]: the fields of a [FileIdentity]. *)
Definition Metadata : Type := FileIdentity.
Definition from_metadata (metadata : Metadata) : FileIdentity := metadata.

Inductive call :=
| TryAcquireProbe
| Canonicalize (path : bytes)
| PathMetadata (path : bytes)
| FileMetadata (file : fd)
| Open (path : bytes) (flags : list OFlag)
| ReadAt (file : fd) (requested offset : N)
| WriteAt (file : fd) (content : bytes) (offset : N)
| GetFd (file : fd)
| MemfdCreate (name : bytes) (flags : list MemfdFlag)
| AddSeals (file : fd) (seals : list SealFlag)
| GetSeals (file : fd)
| JoinWorker
| RunProcess (process : BoundedProcess).
(** [GetFd]: whether the flags contain [CLOEXEC]; [JoinWorker]: whether the
    blocking task ended. *)
Definition answer (c : call) : Type :=
  match c with
  | TryAcquireProbe | JoinWorker => bool
  | Canonicalize _ => option bytes
  | PathMetadata _ | FileMetadata _ => option Metadata
  | Open _ _ => option fd
  | ReadAt _ _ _ => option bytes
  | WriteAt _ _ _ => option N
  | GetFd _ => option bool
  | MemfdCreate _ _ => Result MemfdError fd
  | AddSeals _ _ => option ()
  | GetSeals _ => option (list SealFlag)
  | RunProcess _ => Result BoundedProcessError BoundedProcessOutput
  end.

Abbreviation rish A := (io answer RishBackendError A).
Definition ask_or (e : RishBackendError) {A} (p : tree answer (option A)) : rish A := or_throw e p.

Section rish.
Context {C : Crypto} {FM : FileModes}.
(** [getuid()], and the variables of the server's environment. *)
Context (process_uid : N) (environment_variable : bytes → option bytes).

Record RishBackendClient := mkRishClient {
  dex_path : bytes;
  dex_file : fd;
  dex_identity : FileIdentity;
  parent_identity : FileIdentity;
  expected_sha256 : bytes;
  program : bytes;
}.

(** ** Digests *)

(** [unreachable!] for any other byte. *)
Definition hex_nibble (b : byte) : option N :=
  if in_range 48 57 b then Some (byte_val b - 48)%N
  else if in_range 97 102 b then Some (byte_val b - 97 + 10)%N
  else None.
Fixpoint hex_pairs (value : bytes) : option bytes :=
  match value with
  | hi :: lo :: rest =>
    hi ← hex_nibble hi; lo ← hex_nibble lo; rest ← hex_pairs rest;
    Some (byte_of (N.lor (N.shiftl hi 4) lo) :: rest)
  | _ => Some []
  end.
(** [None]: a panic. *)
Definition parse_sha256 (value : bytes) : option (Result RishBackendError bytes) :=
  if negb (length value =? 64)
     || negb (forallb (λ b, in_range 48 57 b || in_range 97 102 b) value)
  then Some (Err DexDigestFormatInvalid)
  else Ok <$> hex_pairs value.

(** ** Validation of the parent and of the file *)

(** [Path::parent] of an absolute path. *)
Definition path_parent (p : bytes) : option bytes :=
  match path_segments p with
  | [] => None
  | _ => Some (match relative_parent p with [] => [SLASH] | q => q end)
  end.

Definition validate_parent (path : bytes) : rish FileIdentity :=
  _ ← lift (fail_if (negb (is_absolute path)) DexPathInvalid);
  canonical_dex ← ask_or DexPathInvalid (Ask (Canonicalize path) Return);
  _ ← lift (fail_if (negb (bytes_eqb canonical_dex path)) DexPathInvalid);
  parent ← lift (ok_or (path_parent path) DexParentInvalid);
  canonical_parent ← ask_or DexParentInvalid (Ask (Canonicalize parent) Return);
  _ ← lift (fail_if (negb (bytes_eqb canonical_parent parent)) DexParentInvalid);
  metadata ← ask_or DexParentInvalid (Ask (PathMetadata parent) Return);
  let identity := from_metadata metadata in
  let permissions := N.land (mode identity) 4095 in
  _ ← lift (fail_if (negb (bool_decide (from_raw_mode (mode metadata) = Directory))
                     || negb (owner identity =? process_uid)%N
                     || negb (N.land permissions 63 =? 0)%N
                     || negb (N.land permissions 320 =? 320)%N) DexParentInvalid);
  mret identity.

Definition open_pinned_dex (path : bytes) : rish fd :=
  ask_or DexFileInvalid (Ask (Open path [RDONLY; NOFOLLOW; CLOEXEC]) Return).

Definition validate_dex_metadata (metadata : Metadata) (identity : FileIdentity) : Result RishBackendError unit :=
  fail_if (negb (bool_decide (from_raw_mode (mode metadata) = RegularFile))
           || negb (owner identity =? process_uid)%N
           || negb (links identity =? 1)%N
           || negb (N.land (mode identity) 4095 =? 256)%N
           || negb ((MIN_RISH_DEX_BYTES <=? file_bytes identity)%N && (file_bytes identity <=? MAX_RISH_DEX_BYTES)%N))
    DexFileInvalid.

(** ** Reading and copying exactly

    The buffer is 16 KiB.  A loop of at most one round for every byte that is
    left; each round reads at least one. *)
Definition BUFFER_BYTES : N := 16 * 1024.

Definition read_at (file : fd) (requested offset : N) : rish bytes :=
  content ← ask_or DexDescriptorInvalid (Ask (ReadAt file requested offset) Return);
  mret (take_bytes requested content).

Definition len (b : bytes) : N := N.of_nat (length b).

Fixpoint hash_loop (fuel : nat) (file : fd) (bytes_ : N) (hashed : bytes) : rish bytes :=
  if (len hashed <? bytes_)%N then
    match fuel with
    | O => throw RishWorkerFailed
    | S fuel =>
      read ← read_at file (N.min (bytes_ - len hashed) BUFFER_BYTES) (len hashed);
      if bytes_eqb read [] then throw DexIdentityChanged
      else hash_loop fuel file bytes_ (hashed ++ read)
    end
  else mret (sha256 hashed).
Definition hash_exact_file (file : fd) (bytes_ : N) : rish bytes := hash_loop (N.to_nat bytes_) file bytes_ [].

Definition validate_dex_identity (path : bytes) (file : fd) (expected_identity : option FileIdentity)
    (expected : bytes) : rish FileIdentity :=
  descriptor_metadata ← ask_or DexDescriptorInvalid (Ask (FileMetadata file) Return);
  let descriptor_identity := from_metadata descriptor_metadata in
  _ ← lift (fail_if (match expected_identity with
                     | Some expected => negb (bool_decide (expected = descriptor_identity))
                     | None => false
                     end) DexIdentityChanged);
  _ ← lift (validate_dex_metadata descriptor_metadata descriptor_identity);
  path_metadata ← ask_or DexIdentityChanged (Ask (PathMetadata path) Return);
  let path_identity := from_metadata path_metadata in
  _ ← lift (validate_dex_metadata path_metadata path_identity);
  _ ← lift (fail_if (negb (bool_decide (descriptor_identity = path_identity))) DexIdentityChanged);
  actual_sha256 ← hash_exact_file file (file_bytes descriptor_identity);
  after ← ask_or DexDescriptorInvalid (Ask (FileMetadata file) Return);
  _ ← lift (fail_if (negb (bool_decide (from_metadata after = descriptor_identity))) DexIdentityChanged);
  _ ← lift (fail_if (negb (bytes_eqb actual_sha256 expected)) DexDigestMismatch);
  mret descriptor_identity.

(** ** The snapshot *)

Definition ensure_descriptor_close_on_exec (file : fd) : rish unit :=
  cloexec ← ask_or DexDescriptorInvalid (Ask (GetFd file) Return);
  lift (fail_if (negb cloexec) DexDescriptorInvalid).

Definition checked_usize (a b : N) : rish N := lift (ok_or (checked_add64 a b) DexSnapshotFailed).

(** [write_at] never writes more than it is given. *)
Fixpoint write_loop (fuel : nat) (destination : fd) (chunk : bytes) (offset written : N) : rish unit :=
  if (written <? len chunk)%N then
    match fuel with
    | O => throw RishWorkerFailed
    | S fuel =>
      destination_offset ← checked_usize offset written;
      let rest := drop (N.to_nat written) chunk in
      count ← ask_or DexSnapshotFailed (Ask (WriteAt destination rest destination_offset) Return);
      let count := N.min count (len rest) in
      _ ← lift (fail_if (count =? 0)%N DexSnapshotFailed);
      written ← checked_usize written count;
      write_loop fuel destination chunk offset written
    end
  else mret tt.

Fixpoint copy_loop (fuel : nat) (source destination : fd) (bytes_ : N) (hashed : bytes) : rish bytes :=
  if (len hashed <? bytes_)%N then
    match fuel with
    | O => throw RishWorkerFailed
    | S fuel =>
      read ← read_at source (N.min (bytes_ - len hashed) BUFFER_BYTES) (len hashed);
      if bytes_eqb read [] then throw DexIdentityChanged
      else
        _ ← write_loop (length read) destination read (len hashed) 0;
        _ ← checked_usize (len hashed) (len read);
        copy_loop fuel source destination bytes_ (hashed ++ read)
    end
  else mret (sha256 hashed).
Definition copy_and_hash_exact_file (source destination : fd) (bytes_ : N) : rish bytes :=
  copy_loop (N.to_nat bytes_) source destination bytes_ [].

Definition finalize_writable_snapshot (source snapshot : fd) (bytes_ : N) (expected : bytes) : rish unit :=
  copied_sha256 ← copy_and_hash_exact_file source snapshot bytes_;
  _ ← lift (fail_if (negb (bytes_eqb copied_sha256 expected)) DexDigestMismatch);
  metadata ← ask_or DexSnapshotFailed (Ask (FileMetadata snapshot) Return);
  _ ← lift (fail_if (negb (bool_decide (from_raw_mode (mode metadata) = RegularFile))
                     || negb (file_bytes metadata =? bytes_)%N) DexSnapshotFailed);
  digest ← hash_exact_file snapshot bytes_;
  lift (fail_if (negb (bytes_eqb digest expected)) DexSnapshotFailed).

Definition required_snapshot_seals : list SealFlag := [SHRINK; GROW; WRITE; SEAL].
Definition contains_seals (seals : list SealFlag) : bool := forallb (λ s, bool_decide (s ∈ seals)) required_snapshot_seals.

Definition SNAPSHOT_NAME : bytes := bs "termux-mcp-rish-dex".
Definition memfd_create_snapshot : rish fd :=
  tree_bind (Ask (MemfdCreate SNAPSHOT_NAME [MEMFD_CLOEXEC; ALLOW_SEALING; NOEXEC_SEAL]) Return) (λ r,
    match r with
    | Ok descriptor => Return (Ok descriptor)
    | Err INVAL =>
      Ask (MemfdCreate SNAPSHOT_NAME [MEMFD_CLOEXEC; ALLOW_SEALING]) (λ r, Return (map_err (λ _, DexSnapshotFailed) r))
    | Err _ => throw DexSnapshotFailed
    end).
Definition try_create_sealed_memfd_snapshot (source : fd) (bytes_ : N) (expected : bytes) : rish fd :=
  snapshot ← memfd_create_snapshot;
  _ ← or_err (λ _, DexSnapshotFailed) (ensure_descriptor_close_on_exec snapshot);
  _ ← finalize_writable_snapshot source snapshot bytes_ expected;
  _ ← ask_or DexSnapshotFailed (Ask (AddSeals snapshot required_snapshot_seals) Return);
  observed_seals ← ask_or DexSnapshotFailed (Ask (GetSeals snapshot) Return);
  _ ← lift (fail_if (negb (contains_seals observed_seals)) DexSnapshotFailed);
  digest ← hash_exact_file snapshot bytes_;
  _ ← lift (fail_if (negb (bytes_eqb digest expected)) DexSnapshotFailed);
  mret snapshot.

Definition snapshot_is_fully_sealed (snapshot : fd) : tree answer bool :=
  Ask (GetSeals snapshot) (λ r, Return (match r with Some seals => contains_seals seals | None => false end)).

(** [/proc/self/fd/N]. *)
Definition descriptor_path (file : fd) : bytes := bs "/proc/self/fd/" ++ print_N file.

Definition snapshot_classpath_path_is_usable (snapshot : fd) (bytes_ : N) (expected : bytes) : tree answer bool :=
  Ask (Open (descriptor_path snapshot) [RDONLY; CLOEXEC]) (λ r,
    match r with
    | None => Return false
    | Some reopened =>
      tree_bind (hash_exact_file reopened bytes_) (λ r, Return (match r with Ok digest => bytes_eqb digest expected | Err _ => false end))
    end).

Definition ensure_execution_snapshot_qualified (snapshot : fd) (bytes_ : N) (expected : bytes) : rish unit :=
  tree_bind (snapshot_is_fully_sealed snapshot) (λ is_sealed,
    if negb is_sealed then throw DexSnapshotFailed
    else tree_bind (snapshot_classpath_path_is_usable snapshot bytes_ expected) (λ usable,
      lift (fail_if (negb usable) DexSnapshotFailed))).

Definition create_execution_dex_snapshot (source : fd) (bytes_ : N) (expected : bytes) : rish fd :=
  snapshot ← try_create_sealed_memfd_snapshot source bytes_ expected;
  _ ← ensure_execution_snapshot_qualified snapshot bytes_ expected;
  mret snapshot.

(** ** The client *)

(** [new_inner] once the digest was read. *)
Definition pin_client (path program : bytes) (expected : Result RishBackendError bytes)
    : io answer RishBackendConfigError RishBackendClient :=
  or_err map_config_error (
    expected ← lift expected;
    parent_identity ← validate_parent path;
    dex_file ← open_pinned_dex path;
    dex_identity ← validate_dex_identity path dex_file None expected;
    _ ← ensure_descriptor_close_on_exec dex_file;
    mret (mkRishClient path dex_file dex_identity parent_identity expected program)).
Definition new_inner (path digest program : bytes) : option (io answer RishBackendConfigError RishBackendClient) :=
  pin_client path program <$> parse_sha256 digest.
(** [None]: a panic. *)
Definition try_new (path digest : bytes) : option (io answer RishBackendConfigError RishBackendClient) :=
  new_inner path digest RISH_APP_PROCESS_PROGRAM.

Definition rish_child_environment : list (bytes * bytes) :=
  [(bs "RISH_APPLICATION_ID", RISH_APPLICATION_ID); (bs "RISH_PRESERVE_ENV", bs "0")]
  ++ omap (λ key, value ← environment_variable key;
       if bytes_eqb value [] || existsb (λ b, bool_decide (b = x00)) value then None else Some (key, value))
       RISH_ANDROID_RUNTIME_ENV_KEYS.

Definition uid_token_is_exactly_one_capture (stdout stderr : bytes) : bool :=
  (bytes_eqb stdout EXPECTED_UID_TOKEN && bytes_eqb stderr [])
  || (bytes_eqb stderr EXPECTED_UID_TOKEN && bytes_eqb stdout []).

Definition verified_status : RishBackendStatus :=
  mkRishStatus true (bs "shizuku_rish") (bs "android_shell") ANDROID_SHELL_UID (bs "verified_shell_uid") false false false.

(** The process of [run_fixed_probe]. *)
Definition probe_process (program : bytes) (dex_guard : fd) : Result BoundedProcessConfigError BoundedProcess :=
  new_with_child_context program
    [bs "-Djava.class.path=" ++ descriptor_path dex_guard; bs "/system/bin"; bs "--nice-name=termux-mcp-rish";
     RISH_LOADER_CLASS; bs "-c"; RISH_FIXED_COMMAND]
    (bs "/") RISH_STATUS_TIMEOUT RISH_STATUS_STDOUT_BYTES RISH_STATUS_STDERR_BYTES
    (with_inherited_descriptor rish_child_environment dex_guard).

Definition run_fixed_probe (program : bytes) (dex_guard : fd) : rish RishBackendStatus :=
  _ ← ensure_descriptor_close_on_exec dex_guard;
  process ← lift (map_err (λ _, RishWorkerFailed) (probe_process program dex_guard));
  output ← Ask (RunProcess process) (λ r, Return (map_err from_process_error r));
  _ ← lift (fail_if (negb (uid_token_is_exactly_one_capture (stdout output) (stderr output))) IdentityOutputInvalid);
  mret verified_status.

(** The blocking task of [probe]. *)
Definition validate_and_snapshot (self : RishBackendClient) : rish fd :=
  parent ← validate_parent (dex_path self);
  _ ← lift (fail_if (negb (bool_decide (parent = parent_identity self))) DexIdentityChanged);
  _ ← validate_dex_identity (dex_path self) (dex_file self) (Some (dex_identity self)) (expected_sha256 self);
  snapshot ← create_execution_dex_snapshot (dex_file self) (file_bytes (dex_identity self)) (expected_sha256 self);
  _ ← validate_dex_identity (dex_path self) (dex_file self) (Some (dex_identity self)) (expected_sha256 self);
  mret snapshot.

Definition probe (self : RishBackendClient) : rish RishBackendStatus :=
  permit ← total TryAcquireProbe;
  _ ← lift (fail_if (negb permit) RishConcurrencyLimitExceeded);
  dex_guard ← tree_bind (validate_and_snapshot self) (λ r,
    Ask JoinWorker (λ ended, Return (if ended : bool then r else Err RishWorkerFailed)));
  run_fixed_probe (program self) dex_guard.
End rish.
End RishBackend.
