(* ===== verification/RishSafety.v ===== *)
(** * What a probe of the rish backend runs

    The theorems on [RishBackend]: the program of a probe loads nothing but a
    sealed copy of the pinned DEX, checked before and after the copy, and a status
    is the exact token of its user. *)

From S2P Require Import Prelude RustStd RustPath RequestGrantCapability GrantToken BoundedProcess FsCalls Trees RishBackend.

Module RishSafety.
Import BoundedProcess Trees RishBackend.

Section safety.
Context {C : Crypto} {FM : FileModes}.
Context (process_uid : N) (environment_variable : bytes → option bytes).

(** ** Reading a file once *)

(** Reads that follow each other from the start: what they read. *)
Inductive read_run (file : fd) : bytes → list (event answer) → Prop :=
| read_run_nil : read_run file [] []
| read_run_more content read requested t :
    read_run file content t → take_bytes requested read ≠ [] →
    read_run file (content ++ take_bytes requested read)
      (Event (ReadAt file requested (len content)) (Some read) :: t).

(** A whole file of [n] bytes was read, and its digest is [expected]. *)
Definition read_digest (file : fd) (n : N) (expected : bytes) (t : list (event answer)) : Prop :=
  ∃ after during before content, t = after ++ during ++ before ∧ read_run file content during ∧
    len content = n ∧ sha256 content = expected.

(** The pinned file was looked at, by descriptor and by path, and read. *)
Definition validated (self : RishBackendClient) (t : list (event answer)) : Prop :=
  Event (FileMetadata (dex_file self)) (Some (dex_identity self)) ∈ t ∧
  Event (PathMetadata (dex_path self)) (Some (dex_identity self)) ∈ t ∧
  read_digest (dex_file self) (file_bytes (dex_identity self)) (expected_sha256 self) t.

(** A memory file was sealed, and after that read, and read again through the
    path the program is given, each time with the expected digest. *)
Definition snapshot_sealed (snapshot : fd) (n : N) (expected : bytes) (t : list (event answer)) : Prop :=
  ∃ later earlier, t = later ++ Event (AddSeals snapshot required_snapshot_seals) (Some ()) :: earlier ∧
    (∃ flags, Event (MemfdCreate SNAPSHOT_NAME flags) (Ok snapshot) ∈ earlier) ∧
    (∃ seals, Event (GetSeals snapshot) (Some seals) ∈ later ∧ contains_seals seals = true) ∧
    read_digest snapshot n expected later ∧
    ∃ reopened, Event (Open (descriptor_path snapshot) [RDONLY; CLOEXEC]) (Some reopened) ∈ later ∧
      read_digest reopened n expected later.

(** What must have happened before a program runs. *)
Definition vetted (self : RishBackendClient) (p : BoundedProcess) (t : list (event answer)) : Prop :=
  ∃ snapshot after during before, t = after ++ during ++ before ∧
    probe_process environment_variable (program self) snapshot = Ok p ∧
    (∃ parent, path_parent (dex_path self) = Some parent ∧
       Event (PathMetadata parent) (Some (parent_identity self)) ∈ before) ∧
    validated self before ∧
    snapshot_sealed snapshot (file_bytes (dex_identity self)) (expected_sha256 self) during ∧
    validated self after ∧ Event (GetFd snapshot) (Some true) ∈ after.

(** The calls a probe may make: a memory file it made is written until it is
    sealed, files are opened for reading only, and what runs is vetted. *)
Definition probe_permits (self : RishBackendClient) (c : call) (t : list (event answer)) : Prop :=
  match c with
  | WriteAt file _ _ =>
    (∃ flags, Event (MemfdCreate SNAPSHOT_NAME flags) (Ok file) ∈ t) ∧
    (∀ seals r, Event (AddSeals file seals) r ∉ t)
  | AddSeals file _ => ∃ flags, Event (MemfdCreate SNAPSHOT_NAME flags) (Ok file) ∈ t
  | Open _ flags => RDONLY ∈ flags ∧ CREATE ∉ flags
  | RunProcess p => vetted self p t
  | _ => True
  end.

Definition only_reads (file : fd) (t : list (event answer)) : Prop :=
  Forall (λ e, ∃ requested offset, event_call e = ReadAt file requested offset) t.

(** Nothing but looks, which neither create, write nor seal. *)
Definition looks (t : list (event answer)) : Prop :=
  Forall (λ e, match event_call e with AddSeals _ _ | WriteAt _ _ _ | MemfdCreate _ _ | RunProcess _ => False | _ => True end) t.
Lemma only_reads_looks file t : only_reads file t → looks t.
Proof. intros H. eapply Forall_impl; [exact H|]. by intros [c a] (? & ? & Hc); simpl in *; subst. Qed.

(** Segments of a trace: looks, and what is in them. *)
Ltac solve_looks :=
  repeat first [assumption | exact I | apply Forall_app_2 | apply Forall_cons_2 | apply Forall_nil_2
               | eapply only_reads_looks; eassumption].
Ltac solve_in :=
  repeat first [rewrite elem_of_app | rewrite elem_of_cons | rewrite list_elem_of_singleton]; tauto.
Ltac refuse := first [solve [solve_looks] | done | intros [= ->]; congruence].
Ltac stop := first [apply extends_return; split_and!; refuse | split_and!; refuse].

Section logic.
Context (self : RishBackendClient).
Local Abbreviation S := (probe_permits self).

Lemma take_bytes_length n l : (len (take_bytes n l) ≤ n)%N.
Proof.
  unfold len. revert n; induction l as [|b l IH]; intros n; simpl; [lia|].
  destruct (N.eqb_spec n 0); simpl; [lia|]. specialize (IH (n - 1)%N). lia.
Qed.

Lemma hash_loop_spec fuel file n hashed t0 done :
  read_run file hashed done → (len hashed ≤ n)%N → (n - len hashed ≤ N.of_nat fuel)%N →
  extends S (hash_loop fuel file n hashed) t0 (λ r new,
    only_reads file new ∧ r ≠ Err RishWorkerFailed ∧
    ∀ digest, r = Ok digest → ∃ content, read_run file content (new ++ done) ∧ len content = n ∧ digest = sha256 content).
Proof.
  revert hashed t0 done; induction fuel as [|fuel IH]; intros hashed t0 done Hd Hn Hf; cbn [hash_loop].
  - rewrite (proj2 (N.ltb_ge _ _)) by lia. apply extends_return. split_and!; [constructor|done|].
    intros ? [= <-]. exists hashed. split_and!; [done|lia|done].
  - destruct (N.ltb_spec (len hashed) n) as [Hlt|Hge].
    2: { apply extends_return. split_and!; [constructor|done|]. intros ? [= <-]. exists hashed. split_and!; [done|lia|done]. }
    unfold read_at. apply extends_bind, extends_or_throw; [done|]. intros [read|].
    2: { split_and!; [repeat constructor; by eexists _, _|done|done]. }
    apply extends_return. cbn [fst snd app]. unfold bytes_eqb. case_bool_decide as He.
    { apply extends_return. split_and!; [repeat constructor; by eexists _, _|done|done]. }
    set (requested := N.min (n - len hashed) BUFFER_BYTES) in *.
    pose proof (take_bytes_length requested read) as Hl.
    assert (0 < len (take_bytes requested read))%N by (unfold len; destruct (take_bytes requested read); [done|simpl; lia]).
    assert (len (hashed ++ take_bytes requested read) = len hashed + len (take_bytes requested read))%N as Ea
      by (unfold len; rewrite length_app; lia).
    eapply extends_mono.
    + apply (IH _ _ (Event (ReadAt file requested (len hashed)) (Some read) :: done)); [by constructor|lia..].
    + intros r new (Ho & Hr & Hdig). split_and!; [|done|].
      * apply Forall_app. split; [done|]. repeat constructor. by eexists _, _.
      * intros digest Hdigest. destruct (Hdig _ Hdigest) as (content & ? & ? & ?). exists content.
        by rewrite <-app_assoc.
Qed.
Lemma hash_exact_spec file n t :
  extends S (hash_exact_file file n) t (λ r new,
    only_reads file new ∧ r ≠ Err RishWorkerFailed ∧
    ∀ digest, r = Ok digest → ∃ content, read_run file content new ∧ len content = n ∧ digest = sha256 content).
Proof.
  unfold hash_exact_file. eapply extends_mono; [apply (hash_loop_spec _ _ _ _ _ []); [constructor|unfold len; simpl; lia..]|].
  intros r new (? & ? & H). rewrite app_nil_r in H. done.
Qed.

Lemma read_digest_app file n expected a b c : read_digest file n expected b → read_digest file n expected (a ++ b ++ c).
Proof.
  intros (x & y & z & content & -> & ? & ? & ?). exists (a ++ x), y, (z ++ c), content.
  split_and!; [by rewrite <-!app_assoc|done..].
Qed.
Lemma read_digest_run file n expected content t :
  read_run file content t → len content = n → sha256 content = expected → read_digest file n expected t.
Proof. intros. exists [], t, [], content. rewrite app_nil_r. by split_and!. Qed.

Lemma fail_if_cases {E} b (e : E) r : fail_if b e = r → (b = false ∧ r = Ok ()) ∨ (b = true ∧ r = Err e).
Proof. destruct b; cbn; intros <-; auto. Qed.

Lemma validate_dex_identity_spec path file expected_identity expected t :
  extends S (validate_dex_identity process_uid path file expected_identity expected) t (λ r new,
    looks new ∧ r ≠ Err RishWorkerFailed ∧
    ∀ identity, r = Ok identity →
      match expected_identity with Some i => identity = i | None => True end ∧
      validate_dex_metadata process_uid identity identity = Ok () ∧
      Event (FileMetadata file) (Some identity) ∈ new ∧ Event (PathMetadata path) (Some identity) ∈ new ∧
      read_digest file (file_bytes identity) expected new).
Proof.
  unfold validate_dex_identity. apply extends_or_throw; [done|]. intros [identity|]; [|stop].
  unfold from_metadata. apply extends_lift.
  destruct (match expected_identity with Some _ => _ | None => _ end) eqn:Ei; cbn [fail_if]; [stop|].
  apply extends_lift. destruct (validate_dex_metadata process_uid identity identity) as [[]|e] eqn:Ev.
  2: { apply fail_if_cases in Ev as [[_ ?]|[_ [= ->]]]; [done|stop]. }
  apply extends_or_throw; [done|]. intros [path_identity|]; [|stop].
  apply extends_lift. destruct (validate_dex_metadata process_uid path_identity path_identity) as [[]|e] eqn:Ev'.
  2: { apply fail_if_cases in Ev' as [[_ ?]|[_ [= ->]]]; [done|stop]. }
  apply extends_lift. case_bool_decide as Ep; cbn [negb fail_if]; [|stop].
  subst path_identity. apply extends_bind. eapply extends_mono; [apply hash_exact_spec|].
  intros [actual|e] reads (Hreads & Hne & Hdigest); [|stop].
  apply extends_or_throw; [done|]. intros [after|]; [|stop].
  apply extends_lift. case_bool_decide as Ea; cbn [negb fail_if]; [|stop].
  apply extends_lift. unfold bytes_eqb. case_bool_decide as Ed; cbn [negb fail_if]; [|stop].
  subst actual. apply extends_return. split_and!; [solve_looks|done|].
  intros ? [= <-]. destruct (Hdigest _ eq_refl) as (content & ? & ? & ->). split_and!.
  - destruct expected_identity; [|done]. apply negb_false_iff, bool_decide_eq_true in Ei. done.
  - done.
  - solve_in.
  - solve_in.
  - rewrite <-!app_assoc. apply (read_digest_app _ _ _ ([] ++ [_])). by eapply read_digest_run.
Qed.

Lemma validate_parent_spec path t :
  extends S (validate_parent process_uid path) t (λ r new,
    looks new ∧ r ≠ Err RishWorkerFailed ∧
    ∀ identity, r = Ok identity → ∃ parent, path_parent path = Some parent ∧ is_absolute path = true ∧
      Event (Canonicalize path) (Some path) ∈ new ∧ Event (Canonicalize parent) (Some parent) ∈ new ∧
      Event (PathMetadata parent) (Some identity) ∈ new ∧ from_raw_mode (mode identity) = Directory ∧
      owner identity = process_uid ∧ N.land (N.land (mode identity) 4095) 63 = 0%N).
Proof.
  unfold validate_parent, from_metadata. apply extends_lift.
  destruct (is_absolute path) eqn:Ha; cbn [negb fail_if]; [|stop].
  apply extends_or_throw; [done|]. intros [canonical|]; [|stop]. apply extends_lift.
  unfold bytes_eqb at 1. case_bool_decide as Hc; cbn [negb fail_if]; [|stop]. subst canonical. apply extends_lift.
  destruct (path_parent path) as [parent|] eqn:Ep; cbn [ok_or]; [|stop].
  apply extends_or_throw; [done|]. intros [canonical|]; [|stop]. apply extends_lift.
  unfold bytes_eqb. case_bool_decide as Hc; cbn [negb fail_if]; [|stop]. subst canonical.
  apply extends_or_throw; [done|]. intros [identity|]; [|stop]. apply extends_lift.
  match goal with |- context [fail_if ?b _] => destruct b eqn:Eg end; cbn [fail_if]; [stop|].
  apply extends_return. split_and!; [solve_looks|done|]. intros ? [= <-]. exists parent.
  apply orb_false_iff in Eg as [[[Ed Eo]%orb_false_iff Em]%orb_false_iff _].
  apply negb_false_iff, bool_decide_eq_true in Ed. apply negb_false_iff, N.eqb_eq in Eo, Em.
  split_and!; [done|done|solve_in..|done|done|done].
Qed.

(** ** The copy *)

Definition unsealed (t : list (event answer)) : Prop :=
  Forall (λ e, match event_call e with AddSeals _ _ | RunProcess _ => False | _ => True end) t.
Lemma looks_unsealed t : looks t → unsealed t.
Proof. intros H. eapply Forall_impl; [exact H|]. by intros [[] a]. Qed.
Lemma only_reads_unsealed file t : only_reads file t → unsealed t.
Proof. intros H. by eapply looks_unsealed, only_reads_looks. Qed.
Ltac solve_unsealed :=
  repeat first [assumption | exact I | apply Forall_app_2 | apply Forall_cons_2 | apply Forall_nil_2
               | eapply only_reads_unsealed; eassumption | eapply looks_unsealed; eassumption].
Ltac refuse_copy := first [solve [solve_unsealed] | done | intros [= ->]; congruence].
Ltac stop_copy := first [apply extends_return; split_and!; refuse_copy | split_and!; refuse_copy].

(** A memory file of this run that has not been sealed. *)
Definition writable (file : fd) (t : list (event answer)) : Prop :=
  (∃ flags, Event (MemfdCreate SNAPSHOT_NAME flags) (Ok file) ∈ t) ∧
  ∀ seals r, Event (AddSeals file seals) r ∉ t.
Lemma writable_app file new t : writable file t → unsealed new → writable file (new ++ t).
Proof.
  intros [[flags Hf] Hs] Hu. split; [exists flags; apply elem_of_app; by right|].
  intros seals r [Hin|Hin]%elem_of_app; [|by eapply Hs]. unfold unsealed in Hu. rewrite Forall_forall in Hu.
  by apply Hu in Hin.
Qed.

Lemma write_loop_spec fuel destination chunk offset written t :
  writable destination t → (len chunk - written ≤ N.of_nat fuel)%N →
  extends S (write_loop fuel destination chunk offset written) t (λ r new, unsealed new ∧ r ≠ Err RishWorkerFailed).
Proof.
  revert written t; induction fuel as [|fuel IH]; intros written t Hw Hf; cbn [write_loop].
  - rewrite (proj2 (N.ltb_ge _ _)) by lia. stop_copy.
  - destruct (N.ltb_spec written (len chunk)) as [Hlt|]; [|stop_copy].
    unfold checked_usize. apply extends_lift. destruct (checked_add64 offset written) as [at_|]; cbn [ok_or]; [|stop_copy].
    apply extends_or_throw; [done|]. intros [count|]; [|stop_copy].
    apply extends_lift. destruct (N.eqb_spec (N.min count (len (drop (N.to_nat written) chunk))) 0) as [|Hc]; cbn [fail_if]; [stop_copy|].
    apply extends_lift. destruct (checked_add64 written _) as [written'|] eqn:Ew; cbn [ok_or]; [|stop_copy].
    apply checked_add64_Some in Ew as [-> _].
    eapply extends_mono; [apply (IH _ (_ :: t)); [apply (writable_app _ [_]); [done|solve_unsealed]|lia]|].
    intros r new [? ?]. split; [solve_unsealed|done].
Qed.

Lemma copy_loop_spec fuel source destination n hashed t :
  writable destination t → (len hashed ≤ n)%N → (n - len hashed ≤ N.of_nat fuel)%N →
  extends S (copy_loop fuel source destination n hashed) t (λ r new, unsealed new ∧ r ≠ Err RishWorkerFailed).
Proof.
  revert hashed t; induction fuel as [|fuel IH]; intros hashed t Hw Hn Hf; cbn [copy_loop].
  - rewrite (proj2 (N.ltb_ge _ _)) by lia. stop_copy.
  - destruct (N.ltb_spec (len hashed) n) as [Hlt|]; [|stop_copy].
    unfold read_at. apply extends_bind, extends_or_throw; [done|]. intros [read|]; [|stop_copy].
    apply extends_return. cbn [app]. unfold bytes_eqb. case_bool_decide as He; [stop_copy|].
    set (requested := N.min (n - len hashed) BUFFER_BYTES) in *. pose proof (take_bytes_length requested read) as Hl.
    set (chunk := take_bytes requested read) in *.
    assert (0 < len chunk)%N by (unfold len; destruct chunk; [done|simpl; lia]).
    assert (len (hashed ++ chunk) = len hashed + len chunk)%N as Ea by (unfold len; rewrite length_app; lia).
    apply extends_bind. eapply extends_mono.
    { apply write_loop_spec; [apply (writable_app _ [_]); [done|solve_unsealed]|unfold len; lia]. }
    intros [u|e] writes [Hwrites Hne]; [|stop_copy].
    unfold checked_usize. apply extends_lift. destruct (checked_add64 _ _); cbn [ok_or]; [|stop_copy].
    eapply extends_mono.
    { apply IH; [|lia..]. apply writable_app; [|done]. apply (writable_app _ [_]); [done|solve_unsealed]. }
    intros r new [? ?]. split; [solve_unsealed|done].
Qed.

Lemma finalize_writable_snapshot_spec source snapshot n expected t :
  writable snapshot t →
  extends S (finalize_writable_snapshot source snapshot n expected) t (λ r new, unsealed new ∧ r ≠ Err RishWorkerFailed).
Proof.
  intros Hw. unfold finalize_writable_snapshot, copy_and_hash_exact_file. apply extends_bind. eapply extends_mono.
  { apply copy_loop_spec; [done|unfold len; simpl; lia..]. }
  intros [copied|e] copy [Hcopy Hne]; [|stop_copy]. apply extends_lift.
  destruct (bytes_eqb copied expected); cbn [negb fail_if]; [|stop_copy].
  apply extends_or_throw; [done|]. intros [metadata|]; [|stop_copy]. apply extends_lift.
  match goal with |- context [fail_if ?b _] => destruct b end; cbn [fail_if]; [stop_copy|].
  apply extends_bind. eapply extends_mono; [apply hash_exact_spec|].
  intros [digest|e] reads (Hreads & Hne' & _); [|stop_copy].
  apply extends_return. split; [solve_unsealed|]. by destruct (bytes_eqb digest expected).
Qed.

(** ** The snapshot *)

Definition created_here (snapshot : fd) (t : list (event answer)) : Prop :=
  ∃ flags, Event (MemfdCreate SNAPSHOT_NAME flags) (Ok snapshot) ∈ t.
Lemma memfd_create_spec t :
  extends S memfd_create_snapshot t (λ r new, unsealed new ∧ r ≠ Err RishWorkerFailed ∧
    ∀ snapshot, r = Ok snapshot → created_here snapshot new).
Proof.
  unfold memfd_create_snapshot. cbn [tree_bind]. apply extends_ask; [done|]. intros [snapshot|[]]; cbn [tree_bind throw].
  - apply extends_return. split_and!; [solve_unsealed|done|]. intros ? [= <-]. eexists. solve_in.
  - apply extends_ask; [done|]. intros [snapshot|e]; apply extends_return; split_and!; try refuse_copy.
    intros ? [= <-]. eexists. solve_in.
  - stop_copy.
Qed.
Lemma close_on_exec_spec file t :
  extends S (ensure_descriptor_close_on_exec file) t (λ r new, looks new ∧ r ≠ Err RishWorkerFailed ∧
    (r = Ok () → Event (GetFd file) (Some true) ∈ new)).
Proof.
  unfold ensure_descriptor_close_on_exec. apply extends_or_throw; [done|]. intros [[]|]; [| |stop]; apply extends_return;
    split_and!; try refuse. intros _. solve_in.
Qed.

Lemma contains_seals_elem seals : contains_seals seals = true → required_snapshot_seals ⊆ seals.
Proof.
  unfold contains_seals. intros H s Hs. rewrite forallb_forall in H. apply list_elem_of_In, H, bool_decide_eq_true in Hs. done.
Qed.

Lemma read_digest_run_app file n expected content a t b : read_run file content t → len content = n →
  sha256 content = expected → read_digest file n expected (a ++ t ++ b).
Proof. intros. apply read_digest_app. by eapply read_digest_run. Qed.

(** After the seals nothing is written, and the content is read back. *)
Definition resealed (snapshot : fd) (n : N) (expected : bytes) (new : list (event answer)) : Prop :=
  ∃ later earlier, new = later ++ Event (AddSeals snapshot required_snapshot_seals) (Some ()) :: earlier ∧
    created_here snapshot earlier ∧ looks later ∧
    (∃ seals, Event (GetSeals snapshot) (Some seals) ∈ later ∧ contains_seals seals = true) ∧
    read_digest snapshot n expected later.

Lemma try_create_spec source n expected t : unsealed t →
  extends S (try_create_sealed_memfd_snapshot source n expected) t (λ r new, r ≠ Err RishWorkerFailed ∧
    ∀ snapshot, r = Ok snapshot → resealed snapshot n expected new).
Proof.
  intros Ht. unfold try_create_sealed_memfd_snapshot. apply extends_bind. eapply extends_mono; [apply memfd_create_spec|].
  intros [snapshot|e] made (Hmade & Hne & Hcreated); [|split; [congruence|done]].
  specialize (Hcreated _ eq_refl). apply extends_bind. unfold or_err. apply extends_tree_bind.
  eapply extends_mono; [apply close_on_exec_spec|]. intros [u|e] flags (Hflags & _ & _); apply extends_return; [|split; [done|done]].
  assert (writable snapshot (flags ++ made ++ t)) as Hw.
  { apply writable_app; [|solve_unsealed]. split.
    - destruct Hcreated as [fl Hin]. exists fl. apply elem_of_app. by left.
    - intros seals r Hin. assert (unsealed (made ++ t)) as Hu by solve_unsealed. unfold unsealed in Hu.
      rewrite Forall_forall in Hu. by apply Hu in Hin. }
  apply extends_bind. eapply extends_mono; [apply finalize_writable_snapshot_spec; exact Hw|].
  intros [u'|e] copy [Hcopy Hne']; [|split; [congruence|done]].
  apply extends_or_throw.
  { destruct (writable_app _ _ _ Hw Hcopy) as [[fl Hin] _]. exists fl. exact Hin. }
  intros [[]|]; [|split; [done|done]].
  apply extends_or_throw; [done|]. intros [seals|]; [|split; [done|done]].
  apply extends_lift. destruct (contains_seals seals) eqn:Es; cbn [negb fail_if]; [|split; [done|done]].
  apply extends_bind. eapply extends_mono; [apply hash_exact_spec|].
  intros [digest|e] reads (Hreads & Hne'' & Hdigest); [|split; [congruence|done]].
  apply extends_lift. unfold bytes_eqb. case_bool_decide as Ed; cbn [negb fail_if]; [|split; [done|done]]. subst digest.
  apply extends_return. split; [done|]. intros ? [= <-]. destruct (Hdigest _ eq_refl) as (content & ? & ? & ->).
  exists (reads ++ [Event (GetSeals snapshot) (Some seals)]), (copy ++ flags ++ made).
  split_and!; [by cbn; rewrite <-!app_assoc| |solve_looks| |].
  - destruct Hcreated as [fl Hin]. exists fl. rewrite !elem_of_app. auto.
  - exists seals. split; [solve_in|done].
  - by apply (read_digest_run_app _ _ _ content []).
Qed.

Lemma ensure_qualified_spec snapshot n expected t :
  extends S (ensure_execution_snapshot_qualified snapshot n expected) t (λ r new, looks new ∧ r ≠ Err RishWorkerFailed ∧
    (r = Ok () → ∃ reopened, Event (Open (descriptor_path snapshot) [RDONLY; CLOEXEC]) (Some reopened) ∈ new ∧
       read_digest reopened n expected new)).
Proof.
  unfold ensure_execution_snapshot_qualified, snapshot_is_fully_sealed. cbn [tree_bind]. apply extends_ask; [done|].
  intros seals. destruct (match seals with Some _ => _ | None => _ end); cbn [negb]; [|stop].
  apply extends_tree_bind. unfold snapshot_classpath_path_is_usable. apply extends_ask.
  { split; [apply list_elem_of_here|]. set_solver. }
  intros [reopened|]; [|apply extends_return, extends_return; split_and!; [solve_looks|done|done]]. apply extends_tree_bind.
  eapply extends_mono; [apply hash_exact_spec|]. intros r reads (Hreads & Hne & Hdigest). apply extends_return.
  apply extends_return. split_and!; [solve_looks| |].
  - destruct r as [digest|]; [|done]. by destruct (bytes_eqb digest expected).
  - destruct r as [digest|]; [|done]. unfold bytes_eqb. case_bool_decide as Ed; [|done]. intros _. subst digest.
    destruct (Hdigest _ eq_refl) as (content & ? & ? & ->). exists reopened. split; [solve_in|].
    rewrite !app_nil_l, <-?app_assoc. by eapply (read_digest_run_app _ _ _ _ []); [| |reflexivity].
Qed.

Lemma create_snapshot_spec source n expected t : unsealed t →
  extends S (create_execution_dex_snapshot source n expected) t (λ r new, r ≠ Err RishWorkerFailed ∧
    ∀ snapshot, r = Ok snapshot → snapshot_sealed snapshot n expected new).
Proof.
  intros Ht. unfold create_execution_dex_snapshot. apply extends_bind. eapply extends_mono; [by apply try_create_spec|].
  intros [snapshot|e] made [Hne Hmade]; [|split; [congruence|done]]. specialize (Hmade _ eq_refl).
  apply extends_bind. eapply extends_mono; [apply ensure_qualified_spec|].
  intros [[]|e] checks (Hlooks & Hne' & Hok); [|split; [congruence|done]]. apply extends_return. split; [done|].
  intros ? [= <-]. destruct Hmade as (later & earlier & -> & Hcreated & _ & (seals & ? & ?) & Hread).
  destruct (Hok eq_refl) as (reopened & ? & Hagain). exists (checks ++ later), earlier.
  split_and!; [by cbn; rewrite <-!app_assoc|done| | |].
  - exists seals. split; [solve_in|done].
  - apply (read_digest_app _ _ _ checks later []) in Hread. by rewrite app_nil_r in Hread.
  - exists reopened. split; [solve_in|]. by apply (read_digest_app _ _ _ [] checks later).
Qed.

(** ** The probe *)

Lemma probe_process_ok guard : ∃ p, probe_process environment_variable (program self) guard = Ok p.
Proof. eexists. reflexivity. Qed.

Definition judged (r : Result RishBackendError RishBackendStatus) (t : list (event answer)) : Prop :=
  (r = Err RishWorkerFailed → Event JoinWorker false ∈ t) ∧
  ∀ s, r = Ok s → s = verified_status ∧
    ∃ p out earlier, t = Event (RunProcess p) (Ok out) :: earlier ∧
      uid_token_is_exactly_one_capture (stdout out) (stderr out) = true.

Lemma validate_and_snapshot_spec t : unsealed t →
  extends S (validate_and_snapshot process_uid self) t (λ r new, r ≠ Err RishWorkerFailed ∧
    ∀ snapshot, r = Ok snapshot → ∃ after during before, new = after ++ during ++ before ∧
      (∃ parent, path_parent (dex_path self) = Some parent ∧
         Event (PathMetadata parent) (Some (parent_identity self)) ∈ before) ∧
      validated self before ∧
      snapshot_sealed snapshot (file_bytes (dex_identity self)) (expected_sha256 self) during ∧
      validated self after).
Proof.
  intros Ht. unfold validate_and_snapshot. apply extends_bind. eapply extends_mono; [apply validate_parent_spec|].
  intros [parent|e] first (Hfirst & Hne & Hparent); [|split; [congruence|done]]. specialize (Hparent _ eq_refl).
  apply extends_lift. case_bool_decide as Hp; cbn [negb fail_if]; [|split; [done|done]]. subst parent.
  destruct Hparent as (parent & Hpath & _ & _ & _ & Hin & _).
  apply extends_bind. eapply extends_mono; [apply validate_dex_identity_spec|].
  intros [i|e] check (Hcheck & Hne' & Hvalid); [|split; [congruence|done]].
  destruct (Hvalid _ eq_refl) as (-> & _ & ? & ? & ?).
  apply extends_bind. eapply extends_mono; [apply create_snapshot_spec; solve_unsealed|].
  intros [snapshot|e] copy [Hne'' Hcopy]; [|split; [congruence|done]]. specialize (Hcopy _ eq_refl).
  apply extends_bind. eapply extends_mono; [apply validate_dex_identity_spec|].
  intros [i|e] again (Hagain & Hne3 & Hvalid'); [|split; [congruence|done]].
  destruct (Hvalid' _ eq_refl) as (-> & _ & ? & ? & ?). apply extends_return. split; [done|]. intros ? [= <-].
  exists again, copy, (check ++ first). split_and!; [by rewrite app_nil_l, <-!app_assoc| | |done|done].
  - exists parent. split; [done|]. solve_in.
  - split_and!; [solve_in..|]. by apply (read_digest_app _ _ _ [] check first).
Qed.

Lemma probe_spec :
  extends S (probe process_uid environment_variable self) [] judged.
Proof.
  unfold probe. apply extends_bind. unfold total. apply extends_ask; [done|]. intros permit. apply extends_return.
  apply extends_lift. destruct permit; cbn [negb fail_if]; [|by split].
  apply extends_bind, extends_tree_bind. eapply extends_mono; [apply validate_and_snapshot_spec; solve_unsealed|].
  intros r work [Hne Hwork]. apply extends_ask; [done|]. intros ended. apply extends_return.
  destruct ended; [|split; [intros _; solve_in|done]].
  destruct r as [snapshot|e]; [|split; [congruence|done]].
  destruct (Hwork _ eq_refl) as (after & during & before & -> & Hparent & Hbefore & Hduring & Hafter).
  unfold run_fixed_probe. apply extends_bind. eapply extends_mono; [apply close_on_exec_spec|].
  intros [[]|e] flags (Hflags & Hne' & Hcloexec); [|split; [congruence|done]].
  destruct (probe_process_ok snapshot) as [p Hp]. apply extends_lift. rewrite Hp. cbn [map_err].
  apply extends_bind, extends_ask.
  { exists snapshot, (flags ++ [Event JoinWorker true] ++ after), during, (before ++ [Event TryAcquireProbe true]).
    split_and!; [by rewrite <-!app_assoc|done| | |done| |].
    - destruct Hparent as (parent & ? & ?). exists parent. split; [done|]. solve_in.
    - destruct Hbefore as (? & ? & ?). split_and!; [solve_in..|]. by apply (read_digest_app _ _ _ [] before).
    - destruct Hafter as (? & ? & ?). split_and!; [rewrite !elem_of_app; tauto..|].
      rewrite app_assoc. apply (read_digest_app _ _ _ (flags ++ [Event JoinWorker true]) after []) in H1. by rewrite app_nil_r in H1.
    - rewrite !elem_of_app. auto. }
  intros [out|e]; apply extends_return; cbn [map_err].
  - apply extends_lift. destruct (uid_token_is_exactly_one_capture (stdout out) (stderr out)) eqn:Et; cbn [negb fail_if];
      [|by split]. apply extends_return. split; [done|]. intros ? [= <-]. split; [done|].
    eexists p, out, _. split; [reflexivity|done].
  - split; [by destruct e|done].
Qed.
End logic.

(** ** What a client holds *)

Lemma hex_pairs_Some value : forallb (λ b, in_range 48 57 b || in_range 97 102 b) value = true → ∃ d, hex_pairs value = Some d.
Proof.
  assert (∀ b, in_range 48 57 b || in_range 97 102 b = true → ∃ n, hex_nibble b = Some n) as Hn.
  { intros b. unfold hex_nibble. destruct (in_range 48 57 b), (in_range 97 102 b); try done; by eexists. }
  induction value as [value IH] using (induction_ltof1 _ (@length byte)). unfold ltof in IH.
  destruct value as [|hi [|lo rest]]; [by eexists..|]. cbn [forallb]. intros [Hhi [Hlo Hrest]%andb_true_iff]%andb_true_iff.
  destruct (Hn _ Hhi) as [n Eh], (Hn _ Hlo) as [m El]. destruct (IH rest) as [d Ed]; [simpl; lia|done|].
  cbn [hex_pairs]. rewrite Eh, El, Ed. by eexists.
Qed.
Lemma parse_sha256_total value : ∃ r, parse_sha256 value = Some r.
Proof.
  unfold parse_sha256. destruct (_ || _) eqn:E; [by eexists|]. apply orb_false_iff in E as [_ E%negb_false_iff].
  destruct (hex_pairs_Some _ E) as [d ->]. by eexists.
Qed.

(** What a client pinned when it was made, by looking only. *)
Record pinned (path digest : bytes) (self : RishBackendClient) (t : list (event answer)) : Prop := {
  pinned_path : dex_path self = path ∧ is_absolute path = true;
  pinned_digest : parse_sha256 digest = Some (Ok (expected_sha256 self));
  pinned_program : program self = RISH_APP_PROCESS_PROGRAM;
  pinned_parent : from_raw_mode (mode (parent_identity self)) = Directory ∧ owner (parent_identity self) = process_uid ∧
    N.land (N.land (mode (parent_identity self)) 4095) 63 = 0%N;
  pinned_file : validate_dex_metadata process_uid (dex_identity self) (dex_identity self) = Ok ();
  pinned_content : validated self t;
  pinned_looks : looks t;
}.

Lemma or_err_extends {E G A} S (f : E → G) (p : io answer E A) t (Q : Result G A → list (event answer) → Prop) :
  extends S p t (λ r new, Q (map_err f r) new) → extends S (or_err f p) t Q.
Proof. intros H. apply extends_tree_bind. eapply extends_mono; [exact H|]. intros r new ?. by apply extends_return. Qed.

Lemma try_new_spec any path digest start : try_new process_uid path digest = Some start →
  extends (probe_permits any) start [] (λ r new, ∀ self, r = Ok self → pinned path digest self new).
Proof.
  unfold try_new, new_inner. destruct (parse_sha256 digest) as [r|] eqn:Ed; [|done]. intros [= <-].
  unfold pin_client. apply or_err_extends, extends_lift. destruct r as [expected|e]; [|done]. cbv beta iota.
  apply extends_bind. eapply extends_mono; [apply validate_parent_spec|].
  intros [parent|e] first (Hfirst & _ & Hparent); [|done]. destruct (Hparent _ eq_refl) as (dir & _ & ? & _ & _ & _ & ? & ? & ?).
  cbv beta iota.
  unfold open_pinned_dex, ask_or. apply extends_or_throw; [split; [apply list_elem_of_here|set_solver]|]. intros [file|]; [|done]. cbv beta iota.
  apply extends_bind. eapply extends_mono; [apply validate_dex_identity_spec|].
  intros [identity|e] check (Hcheck & _ & Hvalid); [|done]. destruct (Hvalid _ eq_refl) as (_ & ? & ? & ? & ?).
  apply extends_bind. eapply extends_mono; [apply close_on_exec_spec|].
  intros [[]|e] flags (Hflags & _ & _); [|done]. apply extends_return. intros self [= <-].
  constructor; cbn [dex_path expected_sha256 program parent_identity dex_identity dex_file]; try done.
  - split_and!; [rewrite !elem_of_app; tauto..|]. rewrite <-!app_assoc.
    apply (read_digest_app _ _ _ ([] ++ flags) check). done.
  - solve_looks.
Qed.

(** C31: a probe runs nothing but the pinned DEX.  A client is made, without a
    panic, by looking only, from an absolute path to an owner-only regular file of
    the digest it is given, in a private directory.  Along every run of a probe,
    whatever the kernel answers: a program runs only if it is the fixed one over a
    memory file of this run that was sealed completely, read back after the seals,
    also through the path the program loads it by, with the pinned digest, while
    the pinned file was found unchanged by descriptor and by path before the copy
    and after it; nothing is written but that memory file before its seals.  A
    status is always the one of the shell user, and only for an output that is
    exactly its token on one stream; the worker's error is answered only where the
    blocking task was lost, so no loop runs out of its rounds. *)
Theorem probe_runs_pinned_dex path digest :
  ∃ start, try_new process_uid path digest = Some start ∧
    ∀ self t0, runs start [] (Ok self) t0 →
      pinned path digest self t0 ∧
      ∀ r t, runs (probe process_uid environment_variable self) [] r t →
        all_permitted (probe_permits self) t ∧ judged r t.
Proof.
  destruct (parse_sha256_total digest) as [r Hr]. unfold try_new, new_inner. rewrite Hr. eexists. split; [reflexivity|].
  intros self t0 Hstart. split.
  - eapply runs_ensures in Hstart as [Hs _]; [|done|apply (try_new_spec self path digest)].
    + destruct Hs as (new & -> & Hs). rewrite app_nil_r. by apply Hs.
    + unfold try_new, new_inner. by rewrite Hr.
  - intros a t Hrun. eapply runs_ensures in Hrun as [Hj Hall]; [|done|apply probe_spec]. split; [done|].
    destruct Hj as (new & -> & Hj). by rewrite app_nil_r.
Qed.
End safety.

(** ** A worked probe *)

#[local] Existing Instance example_crypto.
(** Modes are those of Linux. *)
#[local] Instance example_modes : FileModes := λ mode,
  let kind := N.land mode 61440 in
  if (kind =? 32768)%N then RegularFile else if (kind =? 16384)%N then Directory else OtherFileType.
Definition example_content : bytes := bs "dex".
Definition example_digest : bytes := encode_hex (sha256 example_content).
Definition example_identity (mode bytes_ : N) : FileIdentity := mkIdentity 1 7 mode 1000 1 bytes_ 0 0 0 0.
(** A kernel that keeps one file, and a program that answers the token. *)
Definition example_kernel (w : unit) (c : call) : unit * answer c :=
  (w, match c as c return answer c with
      | TryAcquireProbe | JoinWorker => true
      | Canonicalize path => Some path
      | PathMetadata path => Some (if bytes_eqb path (bs "/d") then example_identity 16832 4096 else example_identity 33024 3)
      | FileMetadata file => Some (example_identity 33024 3)
      | Open path flags => Some 3%N
      | ReadAt file requested offset => Some (drop (N.to_nat offset) example_content)
      | WriteAt file content offset => Some (len content)
      | GetFd file => Some true
      | MemfdCreate name flags => Ok 4%N
      | AddSeals file seals => Some ()
      | GetSeals file => Some required_snapshot_seals
      | RunProcess process => Ok (mkOutput EXPECTED_UID_TOKEN [] 5)
      end).
Definition example_client : RishBackendClient :=
  mkRishClient (bs "/d/x.dex") 3%N (example_identity 33024 3) (example_identity 16832 4096) (sha256 example_content)
    RISH_APP_PROCESS_PROGRAM.
Definition example_probe := probe 1000 (λ _, None) example_client.

Lemma probe_runs_pinned_dex_witness :
  ∃ t, pinned 1000 (bs "/d/x.dex") example_digest example_client t ∧ judged (Ok verified_status) (snd (play example_kernel example_probe () [])).
Proof.
  destruct (probe_runs_pinned_dex 1000 (λ _, None) (bs "/d/x.dex") example_digest) as (start & Hs & H).
  assert (parse_sha256 example_digest = Some (Ok (sha256 example_content))) as Hd by (vm_compute; reflexivity).
  unfold try_new, new_inner in Hs. rewrite Hd in Hs. injection Hs as <-.
  set (start := pin_client _ _ _ _) in *.
  assert (snd (fst (play example_kernel start () [])) = Ok example_client) as He by (vm_compute; reflexivity).
  destruct (play example_kernel start () []) as [[w r] t0] eqn:E. cbn [fst snd] in He. subst r.
  apply play_runs in E. destruct (H example_client t0 E) as [Hp Hprobe]. exists t0. split; [exact Hp|].
  assert (snd (fst (play example_kernel example_probe () [])) = Ok verified_status) as Hv by (vm_compute; reflexivity).
  destruct (play example_kernel example_probe () []) as [[w' r'] t] eqn:E'. cbn [fst snd] in *. subst r'.
  apply play_runs in E'. exact (proj2 (Hprobe _ _ E')).
Defined.
End RishSafety.
