(* ===== verification/Router.v ===== *)
(** * The router

    [McpRouterBuilder] of [src/src/mcp_transport.rs]: what an embedding may set,
    the principal every grant authority must bind, the state that is built, and the
    layers a request to [/mcp] passes.  Then what they guarantee together. *)

From S2P Require Import Prelude RustStd RustPath Http RequestGrantCapability GrantReplay GrantToken AppErrors AuditEvents.
From S2P Require Import CreateDirectoryGrant WriteFileGrant CopyFileGrant TrashFileGrant AndroidVolumeGrant McpSession Auth.
From S2P Require Import RequestLimits TransportSecurity BoundedProcess AndroidVolumeControl CommandPolicy CommandExecution.
From S2P Require Import FsCalls SafeRoots Config FsPrepare FsReads FsTraverse FsMutations FsLogic FsGate FsExample FsSearch FsReadOnly.
From S2P Require Import MutationWorkers WorkersSafety StatusTools McpWire McpArguments AndroidBattery McpCalls McpTransport.
From S2P Require Import McpLogic McpResponses McpEndpoint McpExample TransportSafety RishBackend.

Module Router.
Import SafeRoots FsTraverse WorkersSafety McpResponses McpTransport McpLogic McpToolSpecs McpCalls McpEndpoint TransportSafety.

Record McpTransportOptions := mkOptions {
  option_sse_enabled : bool;
  option_stateless_2026_07_28_enabled : bool;
}.
Definition default_options : McpTransportOptions := mkOptions false false.
Definition options_with_sse_enabled (self : McpTransportOptions) (enabled : bool) : McpTransportOptions :=
  mkOptions enabled (option_stateless_2026_07_28_enabled self).
Definition options_with_stateless_2026_07_28_enabled (self : McpTransportOptions) (enabled : bool) : McpTransportOptions :=
  mkOptions (option_sse_enabled self) enabled.

Record FilesystemMutationAuthorities := mkAuthorities {
  create_directory : option GrantAuthority;
  copy_file : option GrantAuthority;
  trash_file : option GrantAuthority;
  write_file : option GrantAuthority;
}.
Definition default_authorities : FilesystemMutationAuthorities := mkAuthorities None None None None.

Inductive McpRouterBuildError :=
| ListenerAddressUnavailable
| UnauthenticatedListenerNotLoopback
| SafeRootConfiguration (error : SafeRootConfigurationError)
| CapabilityUnavailable (capability : bytes)
| OptionalClientUnavailable (client : bytes)
| AuthorityPrincipalMismatch (capability : bytes)
| CommandClientUnavailable
| RishStaticAuthenticationRequired.

Section router.
Context {L : HttpLib} {S : Semaphore} {C : Crypto} {FM : FileModes} {K : Kernel}.
(** [cfg!(feature = ..)]; and the descriptor number the kernel of
    [CommandExecution] knows a descriptor of the filesystem tools by. *)
Context (features : Config.Features) (command_descriptor : FsCalls.fd → CommandExecution.fd).

(** The fields of an optional build are present in every build, and empty where
    the feature is not compiled in. *)
Record McpRouterBuilder := mkBuilder {
  auth_policy : Auth.McpAuthPolicy;
  listener_address : SocketAddr;
  request_limits : RequestLimits.McpRequestLimits;
  builder_security_policy : TransportSecurity.TransportSecurityPolicy;
  builder_file_tools : PinnedSafeRootSet;
  options : McpTransportOptions;
  builder_battery_status_enabled : bool;
  builder_volume_status_enabled : bool;
  builder_command_execution_enabled : bool;
  builder_rish_backend_client : option RishBackend.RishBackendClient;
  filesystem_authorities : FilesystemMutationAuthorities;
  builder_volume_control_authority : option GrantAuthority;
}.

(** [listener.local_addr()]. *)
Definition try_new (local_addr : option SocketAddr) (auth_policy : Auth.McpAuthPolicy)
    (request_limits : RequestLimits.McpRequestLimits) (security_policy : TransportSecurity.TransportSecurityPolicy)
    (safe_roots : list bytes) : fs McpRouterBuildError McpRouterBuilder :=
  listener_address ← lift (ok_or local_addr ListenerAddressUnavailable);
  _ ← lift (fail_if (Auth.is_unauthenticated_localhost_only auth_policy
                     && negb (is_loopback (socket_ip listener_address))) UnauthenticatedListenerNotLoopback);
  file_tools ← or_err SafeRootConfiguration (SafeRoots.try_new safe_roots);
  mret (mkBuilder auth_policy listener_address request_limits security_policy file_tools default_options
    false false false None default_authorities None).

Definition safe_root_count (self : McpRouterBuilder) : nat := length (roots (builder_file_tools self)).

(** ** What an embedding sets *)

Section setters.
Context (self : McpRouterBuilder).
Definition with_builder_options (o : McpTransportOptions) : McpRouterBuilder :=
  mkBuilder (auth_policy self) (listener_address self) (request_limits self) (builder_security_policy self)
    (builder_file_tools self) o (builder_battery_status_enabled self) (builder_volume_status_enabled self)
    (builder_command_execution_enabled self) (builder_rish_backend_client self) (filesystem_authorities self)
    (builder_volume_control_authority self).
Definition with_sse_enabled (enabled : bool) : McpRouterBuilder :=
  with_builder_options (options_with_sse_enabled (options self) enabled).
Definition with_stateless_2026_enabled (enabled : bool) : McpRouterBuilder :=
  with_builder_options (options_with_stateless_2026_07_28_enabled (options self) enabled).
(** The three device switches, and the optional parts. *)
Definition with_devices (battery volume command : bool) : McpRouterBuilder :=
  mkBuilder (auth_policy self) (listener_address self) (request_limits self) (builder_security_policy self)
    (builder_file_tools self) (options self) battery volume command (builder_rish_backend_client self)
    (filesystem_authorities self) (builder_volume_control_authority self).
Definition with_android_battery_status_enabled (enabled : bool) : McpRouterBuilder :=
  with_devices enabled (builder_volume_status_enabled self) (builder_command_execution_enabled self).
Definition with_android_volume_status_enabled (enabled : bool) : McpRouterBuilder :=
  with_devices (builder_battery_status_enabled self) enabled (builder_command_execution_enabled self).
Definition with_command_execution_enabled (enabled : bool) : McpRouterBuilder :=
  with_devices (builder_battery_status_enabled self) (builder_volume_status_enabled self) enabled.
Definition with_parts (authorities : FilesystemMutationAuthorities) (volume : option GrantAuthority)
    (client : option RishBackend.RishBackendClient) : McpRouterBuilder :=
  mkBuilder (auth_policy self) (listener_address self) (request_limits self) (builder_security_policy self)
    (builder_file_tools self) (options self) (builder_battery_status_enabled self) (builder_volume_status_enabled self)
    (builder_command_execution_enabled self) client authorities volume.
Definition with_authorities (authorities : FilesystemMutationAuthorities) : McpRouterBuilder :=
  with_parts authorities (builder_volume_control_authority self) (builder_rish_backend_client self).

Definition ensure_authority_principal (capability : bytes) (matches : bool) : Result McpRouterBuildError unit :=
  if matches then Ok () else Err (AuthorityPrincipalMismatch capability).
Definition principal : option bytes := Auth.static_principal (auth_policy self).

Definition try_with_create_directory_authority (authority : GrantAuthority) : Result McpRouterBuildError McpRouterBuilder :=
  _ ← ensure_authority_principal (bs "create_directory")
        (binds_static_principal CreateDirectory.PRINCIPAL_BINDING_DOMAIN authority principal);
  let a := filesystem_authorities self in
  Ok (with_authorities (mkAuthorities (Some authority) (copy_file a) (trash_file a) (write_file a))).
Definition try_with_copy_file_authority (authority : GrantAuthority) : Result McpRouterBuildError McpRouterBuilder :=
  _ ← ensure_authority_principal (bs "copy_file") (CopyFile.binds_static_principal authority principal);
  let a := filesystem_authorities self in
  Ok (with_authorities (mkAuthorities (create_directory a) (Some authority) (trash_file a) (write_file a))).
Definition try_with_trash_file_authority (authority : GrantAuthority) : Result McpRouterBuildError McpRouterBuilder :=
  _ ← ensure_authority_principal (bs "trash_file") (TrashFile.binds_static_principal authority principal);
  let a := filesystem_authorities self in
  Ok (with_authorities (mkAuthorities (create_directory a) (copy_file a) (Some authority) (write_file a))).
Definition try_with_write_file_authority (authority : GrantAuthority) : Result McpRouterBuildError McpRouterBuilder :=
  _ ← ensure_authority_principal (bs "write_file") (WriteFile.binds_static_principal authority principal);
  let a := filesystem_authorities self in
  Ok (with_authorities (mkAuthorities (create_directory a) (copy_file a) (trash_file a) (Some authority))).
Definition try_with_android_volume_control_authority (authority : GrantAuthority)
    : Result McpRouterBuildError McpRouterBuilder :=
  _ ← ensure_authority_principal (bs "android_volume_control") (AndroidVolume.binds_static_principal authority principal);
  Ok (with_parts (filesystem_authorities self) (Some authority) (builder_rish_backend_client self)).
Definition try_with_rish_backend (client : RishBackend.RishBackendClient) : Result McpRouterBuildError McpRouterBuilder :=
  _ ← fail_if (Config.is_none principal) RishStaticAuthenticationRequired;
  Ok (with_parts (filesystem_authorities self) (builder_volume_control_authority self) (Some client)).
End setters.

(** ** The state *)

(** A feature that is compiled in. *)
Definition when_compiled {A} (compiled : bool) (error : McpRouterBuildError) (client : Result () A)
    : Result McpRouterBuildError unit :=
  if compiled then _ ← map_err (λ _, error) client; Ok () else Ok ().

Definition command_execution_client (file_tools : PinnedSafeRootSet) (enabled : bool)
    : fs McpRouterBuildError (option CommandExecution.CommandExecutionClient) :=
  if enabled then
    safe_root ← or_err (λ _, CommandClientUnavailable) (duplicate_root_at file_tools 0);
    client ← lift (map_err (λ _, CommandClientUnavailable)
                     (CommandExecution.current_server (command_descriptor safe_root)));
    mret (Some client)
  else mret None.

Definition transport_try_new (security_policy : TransportSecurity.TransportSecurityPolicy) (file_tools : PinnedSafeRootSet)
    (battery volume command : bool) (create_directory write_file : option GrantAuthority)
    : fs McpRouterBuildError McpTransportState :=
  _ ← lift (fail_if (battery && negb (Config.android_battery_status features))
              (CapabilityUnavailable (bs "android_battery_status")));
  _ ← lift (fail_if (volume && negb (Config.android_volume_status features))
              (CapabilityUnavailable (bs "android_volume_status")));
  _ ← lift (fail_if (command && negb (Config.command_execution features))
              (CapabilityUnavailable (bs "command_execution")));
  _ ← lift (when_compiled (Config.android_battery_status features)
              (OptionalClientUnavailable (bs "android_battery_status")) AndroidBattery.try_termux);
  _ ← lift (when_compiled (Config.android_volume_status features)
              (OptionalClientUnavailable (bs "android_volume_status")) VolumeStatus.try_termux);
  _ ← lift (when_compiled (Config.android_volume_control features)
              (OptionalClientUnavailable (bs "android_volume_control")) VolumeControl.control_try_termux);
  client ← command_execution_client file_tools (Config.command_execution features && command);
  mret (mkTransport security_policy file_tools false false battery volume false false command
    create_directory None None write_file None (Config.is_some client) false).

Section state.
Context (self : McpTransportState).
Definition with_options (o : McpTransportOptions) : McpTransportState :=
  mkTransport (security_policy self) (file_tools self) (option_sse_enabled o) (option_stateless_2026_07_28_enabled o)
    (android_battery_status_enabled self) (android_volume_status_enabled self) (android_volume_control_enabled self)
    (android_rish_enabled self) (command_execution_enabled self) (create_directory_authority self)
    (copy_file_authority self) (trash_file_authority self) (write_file_authority self)
    (android_volume_control_authority self) (has_command_execution_client self) (has_rish_backend_client self).
Definition with_filesystem_authorities (copy trash : option GrantAuthority) : McpTransportState :=
  mkTransport (security_policy self) (file_tools self) (sse_enabled self) (stateless_2026_07_28_enabled self)
    (android_battery_status_enabled self) (android_volume_status_enabled self) (android_volume_control_enabled self)
    (android_rish_enabled self) (command_execution_enabled self) (create_directory_authority self)
    copy trash (write_file_authority self)
    (android_volume_control_authority self) (has_command_execution_client self) (has_rish_backend_client self).
Definition with_copy_file_authority (authority : option GrantAuthority) : McpTransportState :=
  with_filesystem_authorities authority (trash_file_authority self).
Definition with_trash_file_authority (authority : option GrantAuthority) : McpTransportState :=
  with_filesystem_authorities (copy_file_authority self) authority.
Definition with_rish_backend (client : option RishBackend.RishBackendClient) : McpTransportState :=
  mkTransport (security_policy self) (file_tools self) (sse_enabled self) (stateless_2026_07_28_enabled self)
    (android_battery_status_enabled self) (android_volume_status_enabled self) (android_volume_control_enabled self)
    (Config.is_some client) (command_execution_enabled self) (create_directory_authority self)
    (copy_file_authority self) (trash_file_authority self) (write_file_authority self)
    (android_volume_control_authority self) (has_command_execution_client self) (Config.is_some client).
Definition with_android_volume_control_authority (authority : option GrantAuthority) : McpTransportState :=
  mkTransport (security_policy self) (file_tools self) (sse_enabled self) (stateless_2026_07_28_enabled self)
    (android_battery_status_enabled self) (android_volume_status_enabled self) (Config.is_some authority)
    (android_rish_enabled self) (command_execution_enabled self) (create_directory_authority self)
    (copy_file_authority self) (trash_file_authority self) (write_file_authority self)
    authority (has_command_execution_client self) (has_rish_backend_client self).
End state.

(** ** The protected route

    [Router::route("/mcp", any(handle_mcp_request))] under its layers. *)
Record Router := mkRouter {
  state : McpTransportState;
  rish_backend_client : option RishBackend.RishBackendClient;
  boundary : Auth.McpAuthBoundary;
  limits : RequestLimits.McpRequestLimits;
}.
Definition protect_router (state : McpTransportState) (client : option RishBackend.RishBackendClient)
    (auth_boundary : Auth.McpAuthBoundary) (request_limits : RequestLimits.McpRequestLimits) : Router :=
  mkRouter state client auth_boundary request_limits.

Definition build (self : McpRouterBuilder) : fs McpRouterBuildError Router :=
  let a := filesystem_authorities self in
  state ← transport_try_new (builder_security_policy self) (builder_file_tools self)
    (builder_battery_status_enabled self) (builder_volume_status_enabled self)
    (builder_command_execution_enabled self) (create_directory a) (write_file a);
  let state := with_options (with_trash_file_authority (with_copy_file_authority state (copy_file a)) (trash_file a))
                 (options self) in
  let state := if Config.android_rish features then with_rish_backend state (builder_rish_backend_client self) else state in
  let state := if Config.android_volume_control features
               then with_android_volume_control_authority state (builder_volume_control_authority self) else state in
  mret (protect_router state (builder_rish_backend_client self)
    (Auth.mkBoundary (auth_policy self) (listener_address self)) (request_limits self)).

(** The layers outside the handler: authentication first, then the limits.  An
    answer, or a permit. *)
Definition receive (router : Router) (s : sem) (request : Auth.Request) : sem * option Response :=
  Auth.require_mcp_auth_with (boundary router) request (λ response, (s, Some response))
    (λ request, RequestLimits.enter (limits router) s (Auth.request_headers request)).

(** ** Requests *)

Context {F : Float64} {T : Chrono} {JL : JsonLength} {JT : JsonText} {B : Build}.

(** A handler that was cut off at some point.  A call it was waiting for is kept
    with the answer it would have had: what was asked for runs on. *)
Inductive underway {A} : handler A → list event → list event → Prop :=
| underway_here p t : underway p t t
| underway_Ask c k r t t' : underway (k r) (Event c r :: t) t' → underway (Ask c k) t t'.

Record HttpRequest := mkHttp { method : Method; request : Auth.Request }.

(** What happens behind the limits.  [DefaultBodyLimit] and the extractor of
    [Bytes] read a body within the limit, or answer in the place of the handler;
    the handler answers, or the timeout or a lost client ends it. *)
Inductive handled (router : Router) (r : HttpRequest) : list event → RequestLimits.ending → Prop :=
| handled_rejected response : handled router r [] (RequestLimits.Completed response)
| handled_served body response t :
    (N.of_nat (length body) ≤ RequestLimits.max_body_bytes (limits router))%N →
    served (handle_mcp_request features (state router) (method r) (Auth.request_headers (request r)) body) [] response t →
    handled router r t (RequestLimits.Completed response)
| handled_cut body t e :
    (N.of_nat (length body) ≤ RequestLimits.max_body_bytes (limits router))%N →
    underway (handle_mcp_request features (state router) (method r) (Auth.request_headers (request r)) body) [] t →
    e = RequestLimits.TimedOut ∨ e = RequestLimits.Dropped →
    handled router r t e.

(** What one request did and what it was answered, with [s] permits left when it
    came and [s''] when it ended. *)
Inductive exchange (router : Router) (s : sem) (r : HttpRequest) : list event → option Response → Prop :=
| exchange_refused s' response :
    receive router s (request r) = (s', Some response) → exchange router s r [] (Some response)
| exchange_admitted s' s'' t e :
    receive router s (request r) = (s', None) → handled router r t e →
    exchange router s r t (snd (RequestLimits.finish s'' e)).
(** ** What is built

    A builder an embedding can reach.  The methods of an optional feature exist in
    builds with it. *)
Inductive assembled : McpRouterBuilder → Prop :=
| assembled_new local_addr policy request_limits security_policy safe_roots b h :
    Auth.policy_valid policy →
    exec (try_new local_addr policy request_limits security_policy safe_roots) [] (Ok b) h → assembled b
| assembled_sse b enabled : assembled b → assembled (with_sse_enabled b enabled)
| assembled_stateless b enabled : assembled b → assembled (with_stateless_2026_enabled b enabled)
| assembled_battery b enabled : assembled b → assembled (with_android_battery_status_enabled b enabled)
| assembled_volume_status b enabled : assembled b → assembled (with_android_volume_status_enabled b enabled)
| assembled_command b enabled : assembled b → assembled (with_command_execution_enabled b enabled)
| assembled_create b a b' : assembled b → try_with_create_directory_authority b a = Ok b' → assembled b'
| assembled_copy b a b' : assembled b → try_with_copy_file_authority b a = Ok b' → assembled b'
| assembled_trash b a b' : assembled b → try_with_trash_file_authority b a = Ok b' → assembled b'
| assembled_write b a b' : assembled b → try_with_write_file_authority b a = Ok b' → assembled b'
| assembled_volume b a b' : Config.android_volume_control features = true → assembled b →
    try_with_android_volume_control_authority b a = Ok b' → assembled b'
| assembled_rish b client b' : Config.android_rish features = true → assembled b →
    try_with_rish_backend b client = Ok b' → assembled b'.

(** Every authority binds the token the policy asks for. *)
Definition bound (policy : Auth.McpAuthPolicy) (domain : bytes) (authority : option GrantAuthority) : Prop :=
  ∀ a, authority = Some a → binds_static_principal domain a (Auth.static_principal policy) = true.
Record builder_ok (b : McpRouterBuilder) : Prop := {
  ok_policy : Auth.policy_valid (auth_policy b);
  ok_listener : Auth.is_unauthenticated_localhost_only (auth_policy b) = true →
    is_loopback (socket_ip (listener_address b)) = true;
  ok_create : bound (auth_policy b) CreateDirectory.PRINCIPAL_BINDING_DOMAIN (create_directory (filesystem_authorities b));
  ok_copy : bound (auth_policy b) CopyFile.PRINCIPAL_BINDING_DOMAIN (copy_file (filesystem_authorities b));
  ok_trash : bound (auth_policy b) TrashFile.PRINCIPAL_BINDING_DOMAIN (trash_file (filesystem_authorities b));
  ok_write : bound (auth_policy b) WriteFile.PRINCIPAL_BINDING_DOMAIN (write_file (filesystem_authorities b));
  ok_volume : bound (auth_policy b) AndroidVolume.PRINCIPAL_BINDING_DOMAIN (builder_volume_control_authority b);
  ok_volume_compiled : is_Some (builder_volume_control_authority b) → Config.android_volume_control features = true;
  ok_rish : is_Some (builder_rish_backend_client b) →
    Config.android_rish features = true ∧ is_Some (Auth.static_principal (auth_policy b));
}.

Lemma safe_any {A} (p : prog A) h (Q : A → history → Prop) : (∀ a h, Q a h) → safe (λ _ _, True) p h Q.
Proof. intros HQ. revert h; induction p as [a|c k IH]; intros h; [apply HQ|]. split; [done|]. intros r. apply IH. Qed.
Lemma is_none_false {A} (o : option A) : Config.is_none o = false → is_Some o.
Proof. destruct o; [by eexists|done]. Qed.
Lemma ensure_Ok {A} capability matches (a b : A) :
  (_ ← ensure_authority_principal capability matches; Ok a) = Ok b → matches = true ∧ b = a.
Proof. destruct matches; [by intros [= <-]|done]. Qed.

Lemma assembled_ok b : assembled b → builder_ok b.
Proof.
  induction 1 as [la policy rl sp sr b h Hp He|b en _ []|b en _ []|b en _ []|b en _ []|b en _ []
    |b a b' _ [] Hb|b a b' _ [] Hb|b a b' _ [] Hb|b a b' _ [] Hb|b a b' Hf _ [] Hb|b c b' Hf _ [] Hb];
    try (by constructor).
  1: { pose proof (safe_exec (λ _ _, True) _ _ _ _ (λ r _, ∀ b, r = Ok b → builder_ok b) He I) as Hs.
    refine (proj1 (Hs _) b eq_refl). unfold try_new.
    apply safe_bind, safe_lift. destruct la as [address|]; [|done]. cbn [ok_or].
    apply safe_bind, safe_lift. destruct (_ && _) eqn:Eg; [done|]. cbn [fail_if].
    apply safe_bind, safe_or_err. eapply safe_mono; [by apply (safe_any _ _ (λ _ _, True))|]. intros [tools|] ? _; [|done].
    intros ? [= <-]. constructor; cbn; try done; try (by intros [? [=]]).
    intros Hu. rewrite Hu in Eg. by apply negb_false_iff in Eg. }
  1-4: apply ensure_Ok in Hb as [Hb ->]; constructor; cbn; try done; by intros ? [= <-].
  - apply ensure_Ok in Hb as [Hb ->]. constructor; cbn; try done. by intros ? [= <-].
  - unfold try_with_rish_backend in Hb. destruct (Config.is_none (principal b)) eqn:En; [done|].
    apply is_none_false in En. injection Hb as <-. by constructor.
Qed.
(** The state a builder describes. *)
Definition configured_state (b : McpRouterBuilder) : McpTransportState :=
  let a := filesystem_authorities b in
  mkTransport (builder_security_policy b) (builder_file_tools b) (option_sse_enabled (options b))
    (option_stateless_2026_07_28_enabled (options b)) (builder_battery_status_enabled b)
    (builder_volume_status_enabled b) (Config.is_some (builder_volume_control_authority b))
    (Config.is_some (builder_rish_backend_client b)) (builder_command_execution_enabled b)
    (create_directory a) (copy_file a) (trash_file a) (write_file a) (builder_volume_control_authority b)
    (builder_command_execution_enabled b) (Config.is_some (builder_rish_backend_client b)).
(** An enabled device is one of the build. *)
Definition devices_compiled (b : McpRouterBuilder) : Prop :=
  (builder_battery_status_enabled b = true → Config.android_battery_status features = true) ∧
  (builder_volume_status_enabled b = true → Config.android_volume_status features = true) ∧
  (builder_command_execution_enabled b = true → Config.command_execution features = true).
(** Why a router is not built. *)
Definition build_refused (b : McpRouterBuilder) (e : McpRouterBuildError) : Prop :=
  (e = CapabilityUnavailable (bs "android_battery_status") ∧ builder_battery_status_enabled b = true ∧
     Config.android_battery_status features = false) ∨
  (e = CapabilityUnavailable (bs "android_volume_status") ∧ builder_volume_status_enabled b = true ∧
     Config.android_volume_status features = false) ∨
  (e = CapabilityUnavailable (bs "command_execution") ∧ builder_command_execution_enabled b = true ∧
     Config.command_execution features = false) ∨
  (e = CommandClientUnavailable ∧ builder_command_execution_enabled b = true ∧ devices_compiled b).

Lemma when_compiled_ok {A} compiled e (client : Result () A) a : client = Ok a → when_compiled compiled e client = Ok ().
Proof. intros ->. by destruct compiled. Qed.
Lemma fixed_clients :
  (∃ a, AndroidBattery.try_termux = Ok a) ∧ (∃ a, VolumeStatus.try_termux = Ok a) ∧
  (∃ a, VolumeControl.control_try_termux = Ok a).
Proof. split_and!; eexists; reflexivity. Qed.
Lemma gate_compiled {E} enabled compiled (e : E) :
  (fail_if (enabled && negb compiled) e = Ok () ∧ (enabled = true → compiled = true)) ∨
  (fail_if (enabled && negb compiled) e = Err e ∧ enabled = true ∧ compiled = false).
Proof. destruct enabled, compiled; auto. Qed.
Lemma command_client_spec tools enabled h :
  safe (λ c _, passive c = true) (command_execution_client tools enabled) h (λ r _, match r with
    | Ok client => Config.is_some client = enabled
    | Err e => e = CommandClientUnavailable ∧ enabled = true
    end).
Proof.
  unfold command_execution_client. destruct enabled; [|done]. apply safe_bind, safe_or_err.
  eapply safe_mono; [apply (safe_passive _ _ h (λ c h' H _, H)); unfold duplicate_root_at; solve_calls|].
  intros [root|e] h' _; [|done]. apply safe_bind, safe_lift. by destruct (CommandExecution.current_server _).
Qed.
Lemma build_spec b : builder_ok b →
  safe (λ c _, passive c = true) (build b) [] (λ r _, match r with
    | Ok router => router = mkRouter (configured_state b) (builder_rish_backend_client b)
        (Auth.mkBoundary (auth_policy b) (listener_address b)) (request_limits b) ∧ devices_compiled b
    | Err e => build_refused b e
    end).
Proof.
  intros [_ _ _ _ _ _ _ Hv Hr]. destruct fixed_clients as ((cb & Eb) & (cv & Ev) & (cc & Ec)).
  unfold build, transport_try_new. apply safe_bind.
  apply safe_bind, safe_lift.
  destruct (gate_compiled (builder_battery_status_enabled b) (Config.android_battery_status features)
    (CapabilityUnavailable (bs "android_battery_status"))) as [[-> H1]|[-> H]]; [|by left].
  apply safe_bind, safe_lift.
  destruct (gate_compiled (builder_volume_status_enabled b) (Config.android_volume_status features)
    (CapabilityUnavailable (bs "android_volume_status"))) as [[-> H2]|[-> H]]; [|by right; left].
  apply safe_bind, safe_lift.
  destruct (gate_compiled (builder_command_execution_enabled b) (Config.command_execution features)
    (CapabilityUnavailable (bs "command_execution"))) as [[-> H3]|[-> H]]; [|by right; right; left].
  apply safe_bind, safe_lift. rewrite (when_compiled_ok _ _ _ _ Eb).
  apply safe_bind, safe_lift. rewrite (when_compiled_ok _ _ _ _ Ev).
  apply safe_bind, safe_lift. rewrite (when_compiled_ok _ _ _ _ Ec).
  assert (devices_compiled b) as Hd by done.
  apply safe_bind. eapply safe_mono; [apply command_client_spec|]. intros [client|e] h.
  2: { intros [-> [_ H]%andb_true_iff]. right; right; right. auto. }
  intros Hc. apply safe_mret, safe_mret. split; [|done]. unfold protect_router, configured_state.
  assert (Config.is_some client = builder_command_execution_enabled b) as ->.
  { rewrite Hc. destruct (builder_command_execution_enabled b); [by rewrite H3|by rewrite andb_false_r]. }
  destruct (Config.android_rish features) eqn:Er.
  2: assert (builder_rish_backend_client b = None) as -> by (apply eq_None_not_Some; intros [? _]%Hr; congruence).
  all: destruct (Config.android_volume_control features) eqn:Ev'; [done|].
  all: assert (builder_volume_control_authority b = None) as -> by (apply eq_None_not_Some; intros ?%Hv; congruence).
  all: done.
Qed.

(** C5: a router is what its builder says.  Whatever an embedding set and in which
    order: the policy is one its constructors make, the unauthenticated one only on
    a loopback listener, every grant authority binds exactly the token the policy
    asks for, and the optional authorities and clients are those of the build.
    Building only looks at the filesystem; the router has exactly the state, the
    listener, the policy and the limits that were set, every enabled device is
    compiled in, and it is refused only for a device that is not, or for want of
    the command client. *)
Theorem built_router_exact b r h : assembled b → exec (build b) [] r h →
  builder_ok b ∧ Forall is_passive h ∧
  match r with
  | Ok router => router = mkRouter (configured_state b) (builder_rish_backend_client b)
      (Auth.mkBoundary (auth_policy b) (listener_address b)) (request_limits b) ∧ devices_compiled b
  | Err e => build_refused b e
  end.
Proof.
  intros Hb%assembled_ok He. destruct (safe_exec _ _ _ _ _ _ He I (build_spec b Hb)) as [Hr Ho].
  split_and!; [done| |done]. clear -Ho. induction h as [|e h IH]; [constructor|]. destruct Ho as [? Ho]. constructor; [done|by apply IH].
Qed.
(** ** What a request can do *)

Lemma underway_allowed {A} (S' : call → list event → Prop) (p : handler A) t t' Q :
  underway p t t' → all_allowed S' t → allowed_all S' p t Q → all_allowed S' t'.
Proof. induction 1; [done|]. intros Ho [Hc Hk]. apply IHunderway; [by split|apply Hk]. Qed.
Lemma bound_static policy domain a : bound policy domain (Some a) →
  ∃ bearer, Auth.static_principal policy = Some bearer.
Proof. intros H. specialize (H a eq_refl). destruct (Auth.static_principal policy); [by eexists|done]. Qed.

Context {LL : HttpLibLaws L}.

(** What is refused before the handler is refused by the layer whose turn it is. *)
Lemma receive_spec router s request : Auth.policy_valid (Auth.policy (boundary router)) →
  (¬ Auth.admitted (boundary router) request ∧ ∃ response,
     receive router s request = (s, Some response) ∧
     (response = Auth.unauthorized_response ∨ response = Auth.localhost_peer_required_response)) ∨
  (Auth.admitted (boundary router) request ∧
   receive router s request = RequestLimits.enter (limits router) s (Auth.request_headers request)).
Proof.
  intros Hv. unfold receive.
  destruct (Auth.require_mcp_auth_with_spec LL (boundary router) request (λ response, (s, Some response))
    (λ request, RequestLimits.enter (limits router) s (Auth.request_headers request)) Hv)
    as [[Ha ->]|[Ha _]]; [by right|]. left. split; [done|]. unfold Auth.require_mcp_auth_with.
  destruct (Auth.require_mcp_auth_with_spec LL (boundary router) request (λ _, false) (λ _, true) Hv)
    as [[? _]|[_ [r Hr]]]; [done|]. revert Hr. unfold Auth.require_mcp_auth_with.
  destruct (Auth.kind _); destruct (match _ with Some _ => _ | None => _ end); try done; intros _; eexists; eauto.
Qed.
Lemma admitted_enter router s s' request : RequestLimits.enter (limits router) s request = (s', None) →
  RequestLimits.content_length_exceeds_limit request (RequestLimits.max_body_bytes (limits router)) = false ∧
  try_acquire s = Some s'.
Proof.
  unfold RequestLimits.enter. destruct (RequestLimits.content_length_exceeds_limit _ _); [done|].
  destruct (try_acquire s); [by intros [= ->]|done].
Qed.

Lemma refused_by_policy state method headers body : transport_security state headers ≠ Ok () →
  ∃ response, handle_mcp_request features state method headers body = Return response.
Proof.
  intros He. unfold handle_mcp_request, route_mcp_request.
  destruct (transport_security state headers) as [[]|]; [done|]. by eexists.
Qed.
Lemma handled_allowed router r t e : handled router r t e → t ≠ [] →
  ∃ body, (N.of_nat (length body) ≤ RequestLimits.max_body_bytes (limits router))%N ∧
    accepted (state router) (Auth.request_headers (request r)) ∧
    all_allowed (request_permits features (state router) (method r) (Auth.request_headers (request r)) body) t.
Proof.
  intros Hh Ht. unfold accepted.
  destruct Hh as [response|body response t Hb Hs|body t e Hb Hs _]; [done| |]; exists body; (split; [done|]);
    destruct (transport_security (state router) (Auth.request_headers (request r))) as [[]|x] eqn:Ea.
  2, 4: destruct (refused_by_policy (state router) (method r) (Auth.request_headers (request r)) body) as [y Ey];
    [by rewrite Ea|rewrite Ey in Hs; by inversion Hs; subst].
  - split; [done|]. eapply served_allowed; [exact Hs|done|apply request_spec].
  - split; [done|]. eapply underway_allowed; [exact Hs|done|apply request_spec].
Qed.

(** The router a builder describes, and the requests whose handler asked for
    something. *)
Definition described (b : McpRouterBuilder) : Router :=
  mkRouter (configured_state b) (builder_rish_backend_client b) (Auth.mkBoundary (auth_policy b) (listener_address b))
    (request_limits b).
Lemma exchange_admitted_spec b s r t a : builder_ok b → exchange (described b) s r t a → t ≠ [] →
  Auth.admitted (boundary (described b)) (request r) ∧ is_Some (try_acquire s) ∧
  RequestLimits.content_length_exceeds_limit (Auth.request_headers (request r))
    (RequestLimits.max_body_bytes (request_limits b)) = false ∧
  ∃ body, (N.of_nat (length body) ≤ RequestLimits.max_body_bytes (request_limits b))%N ∧
    accepted (configured_state b) (Auth.request_headers (request r)) ∧
    all_allowed (request_permits features (configured_state b) (method r) (Auth.request_headers (request r)) body) t.
Proof.
  intros Hok Hx Ht. destruct (receive_spec (described b) s (request r) (ok_policy b Hok)) as [(_ & response & Hr & _)|[Ha Hr]];
    (destruct Hx as [s' response' Hr'|s' s'' t e Hr' Hh]; [done|]); rewrite Hr in Hr'; [done|].
  apply admitted_enter in Hr' as [Hl Hs]. split; [done|]. split; [by eexists|]. split; [done|].
  destruct (handled_allowed _ _ _ _ Hh Ht) as (body & Hbody & Hacc & Hall). by exists body.
Qed.
(** What changes the filesystem shows the token of the policy, and pays. *)
Lemma mutation_presents_token b r body t e clock w flag now h' : builder_ok b →
  Auth.admitted (boundary (described b)) (request r) →
  all_allowed (request_permits features (configured_state b) (method r) (Auth.request_headers (request r)) body) t → e ∈ t →
  ran (configured_state b) clock w flag now e h' → changed h' ∨ completed e →
  ∃ bearer session_id token call,
    Auth.static_principal (auth_policy b) = Some bearer ∧ Auth.presents_bearer (Auth.request_headers (request r)) bearer ∧
    live_call (configured_state b) (method r) (Auth.request_headers (request r)) body t session_id (Some token) call ∧
    authorized_mutation (configured_state b) call session_id token clock w h'.
Proof.
  intros Hok Ha Hall He Hran Hch.
  destruct (mutation_authorized features _ _ _ _ _ _ _ _ _ _ _ Hall He Hran Hch) as (session_id & token & call & Hlive & Hauth).
  assert (∃ bearer, Auth.static_principal (auth_policy b) = Some bearer) as [bearer Hbearer].
  { destruct Hok as [_ _ Hc Hcp Htr Hw _ _ _].
    destruct Hauth as (v & authority & _ & [(_ & E & _)|[(_ & E & _)|[(_ & E & _)|(_ & E & _)]]]); cbn in E;
      [rewrite E in Hc|rewrite E in Hcp|rewrite E in Htr|rewrite E in Hw]; by eapply bound_static. }
  exists bearer, session_id, token, call. split_and!; [done| |done|done].
  unfold Auth.admitted in Ha. unfold Auth.static_principal in *. cbn [described boundary Auth.policy] in Ha.
  destruct (Auth.kind (auth_policy b)); [by injection Hbearer as ->|done].
Qed.

(** C4: what a request to a built router can do.  Without the configured bearer
    token, or off the loopback listener of the unauthenticated mode, a request is
    answered 401 or 403 and nothing happens.  If anything happens on its behalf,
    answered or cut off by the timeout or the client, then it was admitted, took a
    permit, announced and had a body within the limit and passed the Host and
    Origin policy; a device is reached only behind its gates; and the filesystem
    changes only if the policy asks for a bearer token, the request carried exactly
    that token, and besides it a grant, consumed for the session, the paths and the
    content of a live call of a tool whose authority the builder was given. *)
Theorem router_guards_requests b h router s r t a :
  assembled b → exec (build b) [] (Ok router) h → exchange router s r t a →
  (¬ Auth.admitted (boundary router) (request r) → t = [] ∧
     (a = Some Auth.unauthorized_response ∨ a = Some Auth.localhost_peer_required_response)) ∧
  (t ≠ [] →
     Auth.admitted (boundary router) (request r) ∧ is_Some (try_acquire s) ∧
     let headers := Auth.request_headers (request r) in
     let max_body := RequestLimits.max_body_bytes (request_limits b) in
     RequestLimits.content_length_exceeds_limit headers max_body = false ∧
     ∃ body, (N.of_nat (length body) ≤ max_body)%N ∧ accepted (configured_state b) headers ∧
       ∀ e, e ∈ t →
         device_gate features (configured_state b) (method r) headers body t (event_call e) ∧
         ∀ clock w flag now h', ran (configured_state b) clock w flag now e h' → changed h' ∨ completed e →
           ∃ bearer session_id token call,
             Auth.static_principal (auth_policy b) = Some bearer ∧ Auth.presents_bearer headers bearer ∧
             live_call (configured_state b) (method r) headers body t session_id (Some token) call ∧
             authorized_mutation (configured_state b) call session_id token clock w h').
Proof.
  intros Hb He Hx. pose proof (assembled_ok _ Hb) as Hok.
  destruct (safe_exec _ _ _ _ _ _ He I (build_spec b Hok)) as [[-> _] _]. split.
  - intros Hn. destruct (receive_spec (described b) s (request r) (ok_policy b Hok)) as [(_ & response & Hr & Hresponse)|[Ha _]];
      [|done]. destruct Hx as [s' response' Hr'|s' s'' t e Hr' Hh]; unfold described in Hr; rewrite Hr in Hr'; [|done].
    injection Hr' as <- <-. split; [done|]. by destruct Hresponse as [->| ->]; auto.
  - intros Ht. destruct (exchange_admitted_spec b s r t a Hok Hx Ht) as (Ha & Hs & Hl & body & Hbody & Hacc & Hall).
    split; [done|]. split; [done|]. cbv zeta. split; [done|]. exists body. split; [done|]. split; [done|]. intros ev Hev.
    split; [by apply device_gated|]. intros clock w flag now h'. by apply mutation_presents_token.
Qed.
End router.

(** ** A worked router *)

Import McpExample.
#[local] Existing Instances example_semaphore CommandExecution.example_kernel.

Definition example_descriptor (d : FsCalls.fd) : CommandExecution.fd (Kernel := CommandExecution.example_kernel) := d.
Definition example_auth_policy : Auth.McpAuthPolicy := Auth.mkPolicy (Auth.StaticBearer (bs "secret")).
Definition example_limits : RequestLimits.McpRequestLimits := RequestLimits.mkLimits 4 30000000000 2097152 4.
Definition example_address : SocketAddr := SocketV4 2130706433 8000.
Definition example_new : fs McpRouterBuildError McpRouterBuilder :=
  try_new (Some example_address) example_auth_policy example_limits example_policy [bs "/data/."].
Definition example_builder : McpRouterBuilder :=
  let new := mkBuilder example_auth_policy example_address example_limits example_policy FsSearch.roots default_options
    false false false None default_authorities None in
  with_authorities (with_stateless_2026_enabled new true)
    (mkAuthorities (Some CreateDirectory.example_authority) None None None).
Lemma example_assembled : assembled example_features example_builder.
Proof.
  pose proof (FsExample.outcome_exec example_new (FsExample.start true)) as He.
  assert (snd (FsExample.outcome example_new (FsExample.start true)) = Ok (mkBuilder example_auth_policy example_address
    example_limits example_policy FsSearch.roots default_options false false false None default_authorities None)) as Hn
    by (vm_compute; reflexivity).
  rewrite Hn in He. eapply assembled_create.
  - apply assembled_stateless. eapply assembled_new; [|exact He]. reflexivity.
  - unfold try_with_create_directory_authority, ensure_authority_principal. 
    assert (binds_static_principal CreateDirectory.PRINCIPAL_BINDING_DOMAIN CreateDirectory.example_authority
      (Some (bs "secret")) = true) as Hp by (vm_compute; reflexivity).
    change (principal _) with (Some (bs "secret")). rewrite Hp. reflexivity.
Qed.
Definition example_build := build example_features example_descriptor example_builder.
Definition example_router : Router :=
  mkRouter example_state None (Auth.mkBoundary example_auth_policy example_address) example_limits.
Lemma example_built : exec example_build [] (Ok example_router) [].
Proof.
  assert (example_build = Ret (Ok example_router)) as -> by reflexivity. constructor.
Qed.

Lemma built_router_exact_witness :
  builder_ok example_features example_builder ∧ configured_state example_builder = example_state.
Proof.
  destruct (built_router_exact example_features example_descriptor example_builder (Ok example_router) []
    example_assembled example_built) as (Hok & _ & Hr & _).
  split; [exact Hok|]. exact (eq_sym (f_equal state Hr)).
Defined.

Definition bearer_headers : list (bytes * bytes) := (AUTHORIZATION, bs "bearer secret") :: live_headers.
Definition example_request : HttpRequest := mkHttp POST (Auth.mkRequest bearer_headers None).
Lemma example_received : receive example_router 4 (Auth.mkRequest bearer_headers None) = (3, None).
Proof. vm_compute. reflexivity. Qed.

(** With the token and the grant, the directory of the example is created. *)
Lemma router_guards_requests_witness :
  ∃ bearer session_id token call body t h,
    Auth.presents_bearer bearer_headers bearer ∧
    live_call example_state POST bearer_headers body t session_id (Some token) call ∧
    authorized_mutation example_state call session_id token example_clock example_world h.
Proof.
  destruct (create_run_creates bearer_headers) as (r & t & c & path & v & Hs & He & Ho); [vm_compute; reflexivity|].
  assert (exchange example_features example_router 4 example_request t
    (snd (RequestLimits.finish 4 (RequestLimits.Completed r)))) as Hx.
  { eapply exchange_admitted; [exact example_received|]. eapply handled_served; [|exact Hs].
    apply N.leb_le. vm_compute. reflexivity. }
  destruct (router_guards_requests example_features example_descriptor example_builder [] example_router 4
    example_request t _ example_assembled example_built Hx) as [_ H].
  destruct H as (_ & _ & _ & body & _ & _ & H); [intros ->; exact (proj1 (elem_of_nil _) He)|].
  destruct (H _ He) as [_ Hlive].
  destruct (Hlive example_clock example_world MutationWorkers.MUTATION_COMMIT_PENDING 101%N (snd (worker_run c path)))
    as (bearer & session_id & token & call & _ & Hb & Hl & Ha).
  - destruct (snd (fst (worker_run c path))) as [outcome audits] eqn:E. exists outcome, audits. split_and!.
    + rewrite <-E. apply worker_run_exec.
    + apply worker_run_honest.
    + intros o [= <-]. symmetry. exact Ho.
  - right. exists v. reflexivity.
  - exists bearer, session_id, token, call, body, t, (snd (worker_run c path)).
    split; [exact Hb|]. split; [exact Hl|exact Ha].
Defined.
End Router.
