(* ===== verification/Startup.v ===== *)
(** * Starting the server, and issuing grants offline

    [src/src/main.rs] and [src/src/health.rs]: the command line, the assembly of
    the server from its configuration, and the offline issuers.  The variables of
    the process are a function, since nothing changes them; the log lines, the
    shutdown signal and [axum::serve] are left out. *)

From S2P Require Import Prelude RustStd RustPath Http RequestGrantCapability GrantReplay GrantToken AppErrors.
From S2P Require Import CreateDirectoryGrant OpaqueGrant WriteFileGrant CopyFileGrant TrashFileGrant AndroidVolumeGrant.
From S2P Require Import GrantFamilies Auth RequestLimits TransportSecurity BoundedProcess CommandExecution FsCalls SafeRoots.
From S2P Require Import WritePolicy Config Configured FsPrepare FsReads FsTraverse FsTools FsLogic FsExample FsSearch StatusTools MutationWorkers.
From S2P Require Import WorkersSafety AndroidBattery McpArguments McpCalls McpTransport McpLogic McpResponses McpEndpoint McpExample TransportSafety Trees.
From S2P Require Import RishBackend RishSafety Router.

Module Startup.
Import Trees.

(** ** Readiness ([health.rs]) *)

Record McpRequestLimitReadiness := mkLimitReadiness {
  max_concurrent_requests : N;
  request_timeout_seconds : N;
  max_body_bytes : N;
  sse_enabled : bool;
}.
Record ReadinessResponse := mkReadiness {
  status : bytes;
  version : bytes;
  mcp_runtime_enabled : bool;
  safe_root_count : nat;
  auth_posture : bytes;
  mcp_request_limits : option McpRequestLimitReadiness;
}.
(** Their [Serialize]. *)
Definition limits_value (l : McpRequestLimitReadiness) : Json :=
  JObject [(bs "max_concurrent_requests", JNumber (PosInt (max_concurrent_requests l)));
    (bs "request_timeout_seconds", JNumber (PosInt (request_timeout_seconds l)));
    (bs "max_body_bytes", JNumber (PosInt (max_body_bytes l))); (bs "sse_enabled", JBool (sse_enabled l))].
Definition readiness_value (r : ReadinessResponse) : Json :=
  JObject ([(bs "status", JString (status r)); (bs "version", JString (version r));
    (bs "mcp_runtime_enabled", JBool (mcp_runtime_enabled r));
    (bs "safe_root_count", JNumber (PosInt (N.of_nat (safe_root_count r))));
    (bs "auth_posture", JString (auth_posture r))]
    ++ match mcp_request_limits r with Some l => [(bs "mcp_request_limits", limits_value l)] | None => [] end).

(** The two public routes. *)
Definition health_check : bytes := bs "ok".
Definition readiness_check (r : ReadinessResponse) : Json := readiness_value r.

Section startup.
Context {L : HttpLib} {S : Semaphore} {C : Crypto} {FM : FileModes} {K : Kernel} {B : Build}.
(** [cfg!(feature = ..)]; [getuid()]; [std::env::var_os]; and the descriptors as
    [CommandExecution] knows them. *)
Context (features : Config.Features) (process_uid : N) (var_os : bytes → option bytes)
  (command_descriptor : FsCalls.fd → CommandExecution.fd).

Definition build_readiness_response (safe_root_count : nat) (auth_posture : bytes)
    (limits : option McpRequestLimitReadiness) : ReadinessResponse :=
  mkReadiness (bs "ready") PACKAGE_VERSION (Config.mcp_runtime features) safe_root_count auth_posture limits.

(** [std::env::var]. *)
Definition env_var (name : bytes) : Result Config.VarError bytes :=
  match var_os name with
  | None => Err Config.NotPresent
  | Some value => if utf8_valid value then Ok value else Err (Config.NotUnicode value)
  end.

(** ** Errors and calls

    An error is the text of an [anyhow!], or what [?] converted. *)
Inductive StartupError :=
| Message (text : bytes)
| RouterError (error : Router.McpRouterBuildError)
| SafeRootError (error : SafeRoots.SafeRootConfigurationError)
| PolicyError (error : TransportSecurity.PolicyError.t)
| BindFailed.

(** [fstat]: a [Stat] and the nanoseconds of its modification. *)
Record ContentStat := mkContentStat { content_stat : Stat; st_mtime_nsec : Z }.

(** [ReadRuntimeFile] is what [open], [fstat] and the read of
    [load_from_literal_file] answer.  [VarsOs]: whether there is any variable. *)
Inductive call : Type :=
| Bind (host : bytes) (port : N)
| Tools (E A : Type) (p : fs E A)
| PinRish (p : io RishBackend.answer RishBackend.RishBackendConfigError RishBackend.RishBackendClient)
| ReadRuntimeFile (path : bytes)
| OpenPrivate (path : bytes)
| InspectFile (file : FsCalls.fd)
| ReadFile (file : FsCalls.fd) (limit : N)
| UnixSeconds
| NewUuid
| PrintLine (line : bytes)
| VarsOs
| CurrentDir
| ReadLink (path : bytes)
| Panic.
Definition answer (c : call) : Type :=
  match c with
  | Bind _ _ => option (option SocketAddr)
  | Tools E A _ => Result E A
  | PinRish _ => Result RishBackend.RishBackendConfigError RishBackend.RishBackendClient
  | ReadRuntimeFile _ => Result Errno unit * Result Errno Stat * Result IoError bytes
  | OpenPrivate _ => option FsCalls.fd
  | InspectFile _ => option ContentStat
  | ReadFile _ _ => option bytes
  | UnixSeconds => option N
  | NewUuid => bytes
  | PrintLine _ => unit
  | VarsOs => bool
  | CurrentDir | ReadLink _ => option bytes
  | Panic => unit
  end.
Abbreviation startup A := (io answer StartupError A).

Definition text {A} (r : Result bytes A) : startup A := lift (map_err Message r).
Definition message {A} (t : string) : startup A := throw (Message (bs t)).
Definition tools {E A} (f : E → StartupError) (p : fs E A) : startup A :=
  Ask (Tools E A p) (λ r, Return (map_err f r)).
Definition ask_or {A} (t : string) (p : tree answer (option A)) : startup A := or_throw (Message (bs t)) p.
(** [Option::expect]: a panic ends the process. *)
Definition expect {A} (o : option A) : startup A :=
  match o with Some a => mret a | None => Ask Panic (λ _, throw (Message [])) end.

(** ** Authorities

    The five [configured_*_authority] differ in the gate, the family and the name
    in their texts. *)
Definition configured_authority (name : string) (enabled : bool)
    (from_hex_key : ReplayWorld → bytes → bytes → bytes → ReplayWorld * GrantResult GrantAuthority)
    (config : Config.AppConfig) (w : ReplayWorld) : ReplayWorld * Result bytes (option GrantAuthority) :=
  if negb enabled then (w, Ok None)
  else match Config.key_id (Config.capability config), Config.hmac_key_hex (Config.capability config) with
  | Some key_id, Some key =>
    match Auth.static_token (Config.auth config) with
    | Some principal =>
      let '(w, r) := from_hex_key w key_id key principal in
      (w, match r with
          | Ok authority => Ok (Some authority)
          | Err _ => Err (bs name ++ bs " capability configuration is invalid")
          end)
    | None => (w, Err (bs name ++ bs " capability requires static-token authentication"))
    end
  | _, _ => (w, Err (bs name ++ bs " capability configuration is incomplete"))
  end.
Definition configured_create_directory_authority (config : Config.AppConfig) :=
  configured_authority "create_directory" (Config.create_directory_mutation_enabled (Config.file config))
    CreateDirectory.from_hex_key config.
Definition configured_write_file_authority (config : Config.AppConfig) :=
  configured_authority "write_file" (Config.write_file_mutation_enabled (Config.file config))
    WriteFile.from_hex_key config.
Definition configured_copy_file_authority (config : Config.AppConfig) :=
  configured_authority "copy_file" (Config.copy_file_mutation_enabled (Config.file config))
    CopyFile.from_hex_key config.
Definition configured_trash_file_authority (config : Config.AppConfig) :=
  configured_authority "trash_file" (Config.trash_file_mutation_enabled (Config.file config))
    TrashFile.from_hex_key config.
Definition configured_android_volume_control_authority (config : Config.AppConfig) :=
  configured_authority "Android volume" (Config.volume_control_enabled (Config.android config))
    AndroidVolume.from_hex_key config.

(** ** The server *)

Record Server := mkServer {
  readiness : ReadinessResponse;
  mcp_app : option Router.Router;
}.

Definition auth_posture_label (posture : Auth.AuthPosture) : bytes :=
  match posture with
  | Auth.StaticTokenConfigured => bs "static_token"
  | Auth.PostureUnauthenticatedLocalhostOnly => bs "unauthenticated_localhost_only"
  end.

Definition configured_rish_backend (config : Config.AppConfig) : startup (option RishBackend.RishBackendClient) :=
  let rish := Config.rish (Config.android config) in
  if Config.android_rish features && Config.rish_enabled rish then
    dex_path ← expect (Config.dex_path rish);
    dex_sha256 ← expect (Config.dex_sha256 rish);
    pin ← expect (RishBackend.try_new process_uid dex_path dex_sha256);
    client ← Ask (PinRish pin) (λ r, Return (map_err (λ _,
      Message (bs "the Android rish backend could not be initialized")) r));
    mret (Some client)
  else mret None.

(** [if let Some(authority) = authority { builder = builder.try_with(authority)? }]. *)
Definition try_with {A} (f : Router.McpRouterBuilder → A → Result Router.McpRouterBuildError Router.McpRouterBuilder)
    (part : option A) (builder : Router.McpRouterBuilder) : startup Router.McpRouterBuilder :=
  lift (map_err RouterError (match part with Some a => f builder a | None => Ok builder end)).

Definition configured_readiness_limits (t : Config.TransportConfig) : McpRequestLimitReadiness :=
  mkLimitReadiness (Config.max_concurrent_requests t) (Config.request_timeout_seconds t) (Config.max_body_bytes t)
    (Config.sse_enabled t).

(** The five authorities, in the order they are made. *)
Definition configured_authorities (config : Config.AppConfig) (w : ReplayWorld)
    : startup (ReplayWorld * Router.FilesystemMutationAuthorities * option GrantAuthority) :=
  let '(w, create) := configured_create_directory_authority config w in
  create ← text create;
  let '(w, write) := configured_write_file_authority config w in
  write ← text write;
  let '(w, copy) := configured_copy_file_authority config w in
  copy ← text copy;
  let '(w, trash) := configured_trash_file_authority config w in
  trash ← text trash;
  let '(w, volume) := if Config.android_volume_control features
                      then configured_android_volume_control_authority config w else (w, Ok None) in
  volume ← text volume;
  mret (w, Router.mkAuthorities create copy trash write, volume).

Definition configured_router (config : Config.AppConfig) (builder : Router.McpRouterBuilder)
    (authorities : Router.FilesystemMutationAuthorities) (volume : option GrantAuthority)
    (client : option RishBackend.RishBackendClient) : startup Router.Router :=
  let t := Config.transport config in
  let builder := Router.with_stateless_2026_enabled (Router.with_sse_enabled builder (Config.sse_enabled t))
    (Config.stateless_2026_07_28_enabled t) in
  let builder := Router.with_android_volume_status_enabled
    (Router.with_android_battery_status_enabled builder (Config.battery_status_enabled (Config.android config)))
    (Config.volume_status_enabled (Config.android config)) in
  let builder := Router.with_command_execution_enabled builder (Config.command_enabled (Config.command config)) in
  builder ← try_with Router.try_with_create_directory_authority (Router.create_directory authorities) builder;
  builder ← try_with Router.try_with_copy_file_authority (Router.copy_file authorities) builder;
  builder ← try_with Router.try_with_trash_file_authority (Router.trash_file authorities) builder;
  builder ← try_with Router.try_with_write_file_authority (Router.write_file authorities) builder;
  builder ← try_with Router.try_with_android_volume_control_authority volume builder;
  builder ← try_with Router.try_with_rish_backend client builder;
  tools RouterError (Router.build features command_descriptor builder).

(** [main] once the configuration is loaded, up to [axum::serve], in a process
    whose replay states are [w]. *)
Definition assemble (config : Config.AppConfig) (w : ReplayWorld) : startup (ReplayWorld * Server) :=
  posture ← text (Config.validate_runtime_auth_posture config);
  let label := auth_posture_label posture in
  let t := Config.transport config in
  let host := Config.host (Config.server config) in
  let port := Config.port (Config.server config) in
  let roots := Config.safe_roots (Config.file config) in
  if Config.mcp_runtime features then
    policy ← text (Auth.from_config (Config.auth config) posture);
    limits ← text (RequestLimits.from_seconds (N.to_nat (Config.max_concurrent_requests t))
                     (Config.request_timeout_seconds t) (Config.max_body_bytes t));
    listener ← or_throw BindFailed (Ask (Bind host port) Return);
    security ← lift (map_err PolicyError (TransportSecurity.new (Config.allowed_hosts t) (Config.allowed_origins t)
                                            (Config.allow_missing_origin t)));
    builder ← tools RouterError (Router.try_new listener policy limits security roots);
    '(w, authorities, volume) ← configured_authorities config w;
    client ← configured_rish_backend config;
    let readiness := build_readiness_response (Router.safe_root_count builder) label
                       (Some (configured_readiness_limits t)) in
    router ← configured_router config builder authorities volume client;
    mret (w, mkServer readiness (Some router))
  else
    _ ← or_throw BindFailed (Ask (Bind host port) Return);
    file_tools ← tools SafeRootError (SafeRoots.try_new roots);
    mret (w, mkServer (build_readiness_response (length (SafeRoots.roots file_tools)) label None) None).
(** ** Offline issuers *)

Definition CAPABILITY_SESSION_ENV : bytes := bs "MCP__CAPABILITY__SESSION_ID".
Definition CAPABILITY_CREATE_DIRECTORY_TARGET_ENV : bytes := bs "MCP__CAPABILITY__CREATE_DIRECTORY_TARGET".
Definition CAPABILITY_COPY_FILE_SOURCE_ENV : bytes := bs "MCP__CAPABILITY__COPY_FILE_SOURCE".
Definition CAPABILITY_COPY_FILE_DESTINATION_ENV : bytes := bs "MCP__CAPABILITY__COPY_FILE_DESTINATION".
Definition CAPABILITY_TRASH_FILE_TARGET_ENV : bytes := bs "MCP__CAPABILITY__TRASH_FILE_TARGET".
Definition CAPABILITY_WRITE_FILE_TARGET_ENV : bytes := bs "MCP__CAPABILITY__WRITE_FILE_TARGET".
Definition CAPABILITY_WRITE_FILE_CONTENT_FILE_ENV : bytes := bs "MCP__CAPABILITY__WRITE_FILE_CONTENT_FILE".
Definition CAPABILITY_WRITE_FILE_DISPOSITION_ENV : bytes := bs "MCP__CAPABILITY__WRITE_FILE_DISPOSITION".
Definition CAPABILITY_VOLUME_STREAM_ENV : bytes := bs "MCP__CAPABILITY__VOLUME_STREAM".
Definition CAPABILITY_VOLUME_LEVEL_ENV : bytes := bs "MCP__CAPABILITY__VOLUME_LEVEL".
Definition CAPABILITY_CONFIG_FILE_ENV : bytes := bs "MCP__CAPABILITY__CONFIG_FILE".

(** [i64::from_str]. *)
Definition parse_i64 (s : bytes) : option Z :=
  match s with
  | b :: b' :: rest =>
    if bool_decide (b = byte_of 45) then
      if bool_decide (b' = byte_of 43) then None else Z.opp ∘ Z.of_N <$> parse_unsigned (2 ^ 63) (b' :: rest)
    else Z.of_N <$> parse_unsigned (2 ^ 63 - 1) s
  | _ => Z.of_N <$> parse_unsigned (2 ^ 63 - 1) s
  end.

Definition load_offline_issuer_config : startup Config.AppConfig :=
  config ← match var_os CAPABILITY_CONFIG_FILE_ENV with
    | None => text (Config.load_with features env_var)
    | Some config_file =>
      if bytes_eqb config_file [] then throw (Message (CAPABILITY_CONFIG_FILE_ENV ++ bs " must not be empty"))
      else Ask (ReadRuntimeFile config_file) (λ '(opened, inspected, content), Return (map_err Message
             (Config.load_from_literal_file features config_file opened inspected content)))
    end;
  posture ← text (Config.validate_runtime_auth_posture config);
  _ ← text (Auth.from_config (Config.auth config) posture);
  mret config.

Definition required_grant_environment (name : bytes) : startup bytes :=
  match env_var name with
  | Ok value => if bytes_eqb value [] then throw (Message (name ++ bs " must not be empty")) else mret value
  | Err Config.NotPresent => throw (Message (name ++ bs " is required"))
  | Err (Config.NotUnicode _) => throw (Message (name ++ bs " must contain valid Unicode text"))
  end.

Record PrivateWriteGrantContent := mkContent { content_bytes : bytes; device : N; inode : N; descriptor : FsCalls.fd }.

Definition same_content (opened read : ContentStat) (content : bytes) : bool :=
  let o := content_stat opened in let r := content_stat read in
  bool_decide (from_raw_mode (st_mode r) = RegularFile) && (st_dev r =? st_dev o)%N && (st_ino r =? st_ino o)%N
  && (st_size r =? st_size o)%Z && (N.land (st_mode r) 4095 =? N.land (st_mode o) 4095)%N
  && (st_ctime r =? st_ctime o)%Z && (st_ctime_nsec r =? st_ctime_nsec o)%Z && (st_mtime r =? st_mtime o)%Z
  && (st_mtime_nsec read =? st_mtime_nsec opened)%Z && (st_size r =? Z.of_nat (length content))%Z.

Definition read_write_grant_content (path : bytes) : startup PrivateWriteGrantContent :=
  _ ← (if is_absolute path then mret () else message "write_file grant content file must be absolute");
  descriptor ← ask_or "write_file grant content file could not be opened" (Ask (OpenPrivate path) Return);
  opened ← ask_or "write_file grant content file could not be inspected" (Ask (InspectFile descriptor) Return);
  let o := content_stat opened in
  _ ← (if bool_decide (from_raw_mode (st_mode o) = RegularFile) then mret ()
       else message "write_file grant content file must be a regular non-symlink file");
  _ ← (if negb (N.land (st_mode o) 63 =? 0)%N || (N.land (st_mode o) 256 =? 0)%N
       then message "write_file grant content file must be owner-readable and inaccessible to group/other" else mret ());
  _ ← (if (st_size o <? 0)%Z then message "write_file grant content file size is invalid" else mret ());
  _ ← (if (WritePolicy.DEFAULT_MAX_WRITE_BYTES <? Z.to_N (st_size o))%N
       then message "write_file grant content file exceeds its byte limit" else mret ());
  let limit := (WritePolicy.DEFAULT_MAX_WRITE_BYTES + 1)%N in
  content ← ask_or "write_file grant content file could not be read" (Ask (ReadFile descriptor limit) Return);
  let content := take_bytes limit content in
  _ ← (if (WritePolicy.DEFAULT_MAX_WRITE_BYTES <? N.of_nat (length content))%N
       then message "write_file grant content file exceeds its byte limit" else mret ());
  read ← ask_or "write_file grant content file could not be inspected" (Ask (InspectFile descriptor) Return);
  _ ← (if same_content opened read content then mret ()
       else message "write_file grant content file changed while it was read");
  _ ← (if utf8_valid content then mret () else message "write_file grant content file must contain valid UTF-8");
  mret (mkContent content (st_dev o) (st_ino o) descriptor).

Definition reject_write_grant_content_config_alias (content : PrivateWriteGrantContent) : startup unit :=
  match var_os CAPABILITY_CONFIG_FILE_ENV with
  | None => mret ()
  | Some config_path =>
    if bytes_eqb config_path [] then message "offline issuer runtime configuration could not be revalidated"
    else
      file ← ask_or "offline issuer runtime configuration could not be revalidated" (Ask (OpenPrivate config_path) Return);
      metadata ← ask_or "offline issuer runtime configuration could not be revalidated" (Ask (InspectFile file) Return);
      if (st_dev (content_stat metadata) =? device content)%N && (st_ino (content_stat metadata) =? inode content)%N
      then message "write_file grant content file must not alias the runtime configuration file" else mret ()
  end.

(** [map_err(|_| anyhow!(t))], and the clock of [issue]. *)
Definition grant_text {E A} (t : string) (r : Result E A) : startup A := text (map_err (λ _, bs t) r).
Definition issue_now {T} (issue : GrantAuthority → bytes → T → option N → bytes → GrantResult bytes) (t : string)
    (authority : GrantAuthority) (session_id : bytes) (target : T) : startup bytes :=
  now ← total UnixSeconds;
  new_id ← total NewUuid;
  grant_text t (issue authority session_id target now new_id).
Definition issue_at_now {T} (issue_at : GrantAuthority → bytes → T → N → bytes → GrantResult bytes) (t : string)
    (authority : GrantAuthority) (session_id : bytes) (target : T) : startup bytes :=
  now ← ask_or "system clock is before the Unix epoch" (Ask UnixSeconds Return);
  new_id ← total NewUuid;
  grant_text t (issue_at authority session_id target now new_id).

(** What the five [issue_*_grant] share: the configuration, the gate, the
    authority, the session, the target, the grant. *)
Definition issue_grant {T} (disabled : string) (enabled : Config.AppConfig → bool)
    (configured : Config.AppConfig → ReplayWorld → ReplayWorld * Result bytes (option GrantAuthority))
    (target : Config.AppConfig → startup T) (issue : GrantAuthority → bytes → T → startup bytes) (w : ReplayWorld)
    : startup unit :=
  config ← load_offline_issuer_config;
  _ ← (if enabled config then mret () else message disabled);
  _ ← text (Config.validate_runtime_auth_posture config);
  authority ← text (snd (configured config w));
  authority ← lift (ok_or authority (Message (bs disabled)));
  session_id ← required_grant_environment CAPABILITY_SESSION_ENV;
  target ← target config;
  grant ← issue authority session_id target;
  total (PrintLine grant).

Definition configured_tools (config : Config.AppConfig) : startup SafeRoots.PinnedSafeRootSet :=
  tools SafeRootError (SafeRoots.try_new (Config.safe_roots (Config.file config))).
Definition grant_target {E A} (t : string) (p : fs E A) : startup A := tools (λ _, Message (bs t)) p.

Definition create_directory_target (config : Config.AppConfig) : startup CreateDirectory.CreateDirectoryGrantTarget :=
  target_path ← required_grant_environment CAPABILITY_CREATE_DIRECTORY_TARGET_ENV;
  file_tools ← configured_tools config;
  grant_target "create_directory grant target validation failed"
    (FsTools.create_directory_grant_target file_tools target_path).
Definition issue_create_directory_grant : ReplayWorld → startup unit :=
  issue_grant "create_directory mutation gate is disabled"
    (λ config, Config.create_directory_mutation_enabled (Config.file config)) configured_create_directory_authority
    create_directory_target (issue_at_now CreateDirectory.issue_at "create_directory grant issuance failed").

Definition write_file_target (config : Config.AppConfig) : startup WriteFile.WriteFileGrantTarget :=
  target_path ← required_grant_environment CAPABILITY_WRITE_FILE_TARGET_ENV;
  content_file ← required_grant_environment CAPABILITY_WRITE_FILE_CONTENT_FILE_ENV;
  disposition ← required_grant_environment CAPABILITY_WRITE_FILE_DISPOSITION_ENV;
  disposition ← grant_text "write_file grant disposition validation failed" (WriteFile.disposition_from_str disposition);
  content ← read_write_grant_content content_file;
  _ ← reject_write_grant_content_config_alias content;
  file_tools ← configured_tools config;
  target ← grant_target "write_file grant target validation failed"
    (FsTools.write_file_grant_target file_tools target_path (content_bytes content) disposition);
  _ ← grant_text "write_file grant content file must not alias the replacement target"
        (WriteFile.ensure_distinct_source_identity target (device content) (inode content));
  mret target.
Definition issue_write_file_grant : ReplayWorld → startup unit :=
  issue_grant "write_file mutation gate is disabled"
    (λ config, Config.write_file_mutation_enabled (Config.file config)) configured_write_file_authority
    write_file_target (issue_now WriteFile.issue "write_file grant issuance failed").

Definition copy_file_target (config : Config.AppConfig) : startup CopyFile.CopyFileGrantTarget :=
  source_path ← required_grant_environment CAPABILITY_COPY_FILE_SOURCE_ENV;
  destination_path ← required_grant_environment CAPABILITY_COPY_FILE_DESTINATION_ENV;
  file_tools ← configured_tools config;
  grant_target "copy_file grant target validation failed"
    (FsTools.copy_file_grant_target file_tools source_path destination_path).
Definition issue_copy_file_grant : ReplayWorld → startup unit :=
  issue_grant "copy_file mutation gate is disabled"
    (λ config, Config.copy_file_mutation_enabled (Config.file config)) configured_copy_file_authority
    copy_file_target (issue_now CopyFile.issue "copy_file grant issuance failed").

Definition trash_file_target (config : Config.AppConfig) : startup TrashFile.TrashFileGrantTarget :=
  target_path ← required_grant_environment CAPABILITY_TRASH_FILE_TARGET_ENV;
  file_tools ← configured_tools config;
  grant_target "trash_file grant target validation failed" (FsTools.trash_file_grant_target file_tools target_path).
Definition issue_trash_file_grant : ReplayWorld → startup unit :=
  issue_grant "trash_file mutation gate is disabled"
    (λ config, Config.trash_file_mutation_enabled (Config.file config)) configured_trash_file_authority
    trash_file_target (issue_now TrashFile.issue "trash_file grant issuance failed").

Definition android_volume_target (config : Config.AppConfig) : startup AndroidVolume.AndroidVolumeGrantTarget :=
  stream ← required_grant_environment CAPABILITY_VOLUME_STREAM_ENV;
  stream ← lift (ok_or (AndroidVolume.stream_from_str stream)
                   (Message (bs "Android volume grant stream validation failed")));
  level ← required_grant_environment CAPABILITY_VOLUME_LEVEL_ENV;
  level ← lift (ok_or (parse_i64 level) (Message (bs "Android volume grant level validation failed")));
  grant_text "Android volume grant target validation failed" (AndroidVolume.AndroidVolumeGrantTarget_new stream level).
Definition issue_android_volume_grant : ReplayWorld → startup unit :=
  issue_grant "Android volume control gate is disabled"
    (λ config, Config.volume_control_enabled (Config.android config)) configured_android_volume_control_authority
    android_volume_target (issue_at_now AndroidVolume.issue_at "Android volume grant issuance failed").

(** ** The command line *)

Definition CLI_HELP : bytes := join_on (byte_of 10)
  [bs "Termux MCP Edge"; []; bs "Usage:"; bs "  termux-mcp-server"; bs "  termux-mcp-server --version";
   bs "  termux-mcp-server --help"; bs "  termux-mcp-server --issue-create-directory-grant";
   bs "  termux-mcp-server --issue-copy-file-grant"; bs "  termux-mcp-server --issue-trash-file-grant";
   bs "  termux-mcp-server --issue-write-file-grant"; bs "  termux-mcp-server --issue-android-volume-grant"].

Definition BOUNDARY_FAILED : string := "command execution boundary check failed".
Definition verify_command_execution_boundary : startup unit :=
  any ← total VarsOs;
  _ ← (if any : bool then message BOUNDARY_FAILED else mret ());
  working_directory ← ask_or BOUNDARY_FAILED (Ask CurrentDir Return);
  _ ← (if negb (is_absolute working_directory) || path_eq working_directory (bs "/")
       then message BOUNDARY_FAILED else mret ());
  stdin_target ← ask_or BOUNDARY_FAILED (Ask (ReadLink (bs "/proc/self/fd/0")) Return);
  if path_eq stdin_target (bs "/dev/null") then mret () else message BOUNDARY_FAILED.

(** An issuer of the build. *)
Definition when_built (compiled : bool) (issuer : startup unit) (t : string) : startup bool :=
  if compiled then _ ← issuer; mret true else message t.

(** The first two arguments after the program; the last line of the help is
    printed with [print!]. *)
Definition handle_cli (first second : option bytes) (w : ReplayWorld) : startup bool :=
  let unsupported : startup bool := message "unsupported command-line arguments; use --help" in
  match first, second with
  | None, None => mret false
  | Some argument, None =>
    if bytes_eqb argument (bs "--version") then
      _ ← total (PrintLine (bs "termux-mcp-server " ++ PACKAGE_VERSION)); mret true
    else if bytes_eqb argument (bs "--help") || bytes_eqb argument (bs "-h") then
      _ ← total (PrintLine CLI_HELP); mret true
    else if bytes_eqb argument (bs "--self-check-command-boundary") then
      _ ← verify_command_execution_boundary;
      _ ← total (PrintLine (bs "termux-mcp-command-boundary ok")); mret true
    else if bytes_eqb argument (bs "--issue-create-directory-grant") then
      when_built (Config.mcp_runtime features) (issue_create_directory_grant w)
        "create_directory grant issuance requires a binary built with the mcp-runtime feature"
    else if bytes_eqb argument (bs "--issue-write-file-grant") then
      when_built (Config.mcp_runtime features) (issue_write_file_grant w)
        "write_file grant issuance requires a binary built with the mcp-runtime feature"
    else if bytes_eqb argument (bs "--issue-copy-file-grant") then
      when_built (Config.mcp_runtime features) (issue_copy_file_grant w)
        "copy_file grant issuance requires a binary built with the mcp-runtime feature"
    else if bytes_eqb argument (bs "--issue-trash-file-grant") then
      when_built (Config.mcp_runtime features) (issue_trash_file_grant w)
        "trash_file grant issuance requires a binary built with the mcp-runtime feature"
    else if bytes_eqb argument (bs "--issue-android-volume-grant") then
      when_built (Config.android_volume_control features) (issue_android_volume_grant w)
        "Android volume grant issuance requires a binary built with the android-volume-control feature"
    else unsupported
  | _, _ => unsupported
  end.

(** [main] up to [axum::serve]; nothing is served after a command. *)
Definition main (first second : option bytes) (w : ReplayWorld) : startup (option (ReplayWorld * Server)) :=
  handled ← handle_cli first second w;
  if handled : bool then mret None
  else
    config ← text (Config.load_with features env_var);
    started ← assemble config w;
    mret (Some started).
(** ** What is assembled *)

(** The tools answer what their programs can end with, and a new identifier has
    the bytes of one. *)
Definition honest (t : list (event answer)) : Prop :=
  Forall (λ e, match event_call e as c return answer c → Prop with
               | Tools E A p => λ r, ∃ h, exec p [] r h
               | NewUuid => λ id, length id = GRANT_ID_BYTES
               | _ => λ _, True
               end (event_answer e)) t.

(** The authority of a configuration: its key, and its token as the principal. *)
Definition authority_for (config : Config.AppConfig) (domain : bytes) (a : GrantAuthority) : Prop :=
  authority_ok a ∧ Config.key_id (Config.capability config) = Some (key_id a) ∧
  Config.hmac_key_hex (Config.capability config) = Some (encode_hex (key a)) ∧
  ∃ token, Auth.static_token (Config.auth config) = Some token ∧
    principal_digest a = principal_binding domain (key a) token.
Definition gated (config : Config.AppConfig) (g : Configured.gate) (domain : bytes) (authority : option GrantAuthority) : Prop :=
  match authority with
  | Some a => Configured.gate_open g config = true ∧ authority_for config domain a
  | None => Configured.gate_open g config = false
  end.

(** The families, by their entry in the registry. *)
Definition issuer (c : RequestGrantCapability.t) : ReplayWorld → startup unit :=
  match c with
  | RequestGrantCapability.CreateDirectory => issue_create_directory_grant
  | RequestGrantCapability.WriteFile => issue_write_file_grant
  | RequestGrantCapability.CopyFile => issue_copy_file_grant
  | RequestGrantCapability.TrashFile => issue_trash_file_grant
  | RequestGrantCapability.AndroidVolume => issue_android_volume_grant
  end.
Definition issuer_target (c : RequestGrantCapability.t) : Config.AppConfig → startup (@Target (GrantFamilies.family_of c)) :=
  match c return Config.AppConfig → startup (@Target (GrantFamilies.family_of c)) with
  | RequestGrantCapability.CreateDirectory => create_directory_target
  | RequestGrantCapability.WriteFile => write_file_target
  | RequestGrantCapability.CopyFile => copy_file_target
  | RequestGrantCapability.TrashFile => trash_file_target
  | RequestGrantCapability.AndroidVolume => android_volume_target
  end.
Definition configured_of (c : RequestGrantCapability.t)
    : Config.AppConfig → ReplayWorld → ReplayWorld * Result bytes (option GrantAuthority) :=
  match c with
  | RequestGrantCapability.CreateDirectory => configured_create_directory_authority
  | RequestGrantCapability.WriteFile => configured_write_file_authority
  | RequestGrantCapability.CopyFile => configured_copy_file_authority
  | RequestGrantCapability.TrashFile => configured_trash_file_authority
  | RequestGrantCapability.AndroidVolume => configured_android_volume_control_authority
  end.
Definition gate_of (c : RequestGrantCapability.t) : Configured.gate :=
  match c with
  | RequestGrantCapability.CreateDirectory => Configured.GateCreate
  | RequestGrantCapability.WriteFile => Configured.GateWrite
  | RequestGrantCapability.CopyFile => Configured.GateCopy
  | RequestGrantCapability.TrashFile => Configured.GateTrash
  | RequestGrantCapability.AndroidVolume => Configured.GateVolume
  end.
Definition domain_of (c : RequestGrantCapability.t) : bytes :=
  match c with
  | RequestGrantCapability.CreateDirectory => CreateDirectory.PRINCIPAL_BINDING_DOMAIN
  | RequestGrantCapability.WriteFile => WriteFile.PRINCIPAL_BINDING_DOMAIN
  | RequestGrantCapability.CopyFile => CopyFile.PRINCIPAL_BINDING_DOMAIN
  | RequestGrantCapability.TrashFile => TrashFile.PRINCIPAL_BINDING_DOMAIN
  | RequestGrantCapability.AndroidVolume => AndroidVolume.PRINCIPAL_BINDING_DOMAIN
  end.
Definition served_authority (c : RequestGrantCapability.t) (state : McpCalls.McpTransportState) : option GrantAuthority :=
  match c with
  | RequestGrantCapability.CreateDirectory => McpCalls.create_directory_authority state
  | RequestGrantCapability.WriteFile => McpCalls.write_file_authority state
  | RequestGrantCapability.CopyFile => McpCalls.copy_file_authority state
  | RequestGrantCapability.TrashFile => McpCalls.trash_file_authority state
  | RequestGrantCapability.AndroidVolume => McpCalls.android_volume_control_authority state
  end.

Record serves (config : Config.AppConfig) (t : list (event answer)) (router : Router.Router) : Prop := {
  serves_policy : ∃ posture, Config.validate_runtime_auth_posture config = Ok posture ∧
    Auth.from_config (Config.auth config) posture = Ok (Auth.policy (Router.boundary router));
  serves_principal : Auth.static_principal (Auth.policy (Router.boundary router)) = Auth.static_token (Config.auth config);
  serves_listener :
    let address := Auth.expected_listener_address (Router.boundary router) in
    Event (Bind (Config.host (Config.server config)) (Config.port (Config.server config))) (Some (Some address)) ∈ t ∧
    (Auth.static_token (Config.auth config) = None → is_loopback (socket_ip address) = true);
  serves_limits : RequestLimits.from_seconds (N.to_nat (Config.max_concurrent_requests (Config.transport config)))
    (Config.request_timeout_seconds (Config.transport config)) (Config.max_body_bytes (Config.transport config))
    = Ok (Router.limits router);
  serves_security : TransportSecurity.new (Config.allowed_hosts (Config.transport config))
    (Config.allowed_origins (Config.transport config)) (Config.allow_missing_origin (Config.transport config))
    = Ok (McpCalls.security_policy (Router.state router));
  serves_roots : ∃ h, exec (SafeRoots.try_new (Config.safe_roots (Config.file config))) []
    (Ok (McpCalls.file_tools (Router.state router))) h;
  serves_protocols :
    McpCalls.sse_enabled (Router.state router) = Config.sse_enabled (Config.transport config) ∧
    McpCalls.stateless_2026_07_28_enabled (Router.state router) =
      Config.stateless_2026_07_28_enabled (Config.transport config);
  serves_devices :
    McpCalls.android_battery_status_enabled (Router.state router) = Config.battery_status_enabled (Config.android config) ∧
    McpCalls.android_volume_status_enabled (Router.state router) = Config.volume_status_enabled (Config.android config) ∧
    McpCalls.android_volume_control_enabled (Router.state router) = Config.volume_control_enabled (Config.android config) ∧
    McpCalls.android_rish_enabled (Router.state router) = Config.rish_enabled (Config.rish (Config.android config)) ∧
    McpCalls.command_execution_enabled (Router.state router) = Config.command_enabled (Config.command config);
  serves_clients :
    McpCalls.has_command_execution_client (Router.state router) = Config.command_enabled (Config.command config) ∧
    McpCalls.has_rish_backend_client (Router.state router) = Config.rish_enabled (Config.rish (Config.android config));
  serves_create : gated config Configured.GateCreate CreateDirectory.PRINCIPAL_BINDING_DOMAIN
    (McpCalls.create_directory_authority (Router.state router));
  serves_copy : gated config Configured.GateCopy CopyFile.PRINCIPAL_BINDING_DOMAIN
    (McpCalls.copy_file_authority (Router.state router));
  serves_trash : gated config Configured.GateTrash TrashFile.PRINCIPAL_BINDING_DOMAIN
    (McpCalls.trash_file_authority (Router.state router));
  serves_write : gated config Configured.GateWrite WriteFile.PRINCIPAL_BINDING_DOMAIN
    (McpCalls.write_file_authority (Router.state router));
  serves_volume : gated config Configured.GateVolume AndroidVolume.PRINCIPAL_BINDING_DOMAIN
    (McpCalls.android_volume_control_authority (Router.state router));
  serves_assembled : ∃ builder h, Router.assembled features builder ∧
    exec (Router.build features command_descriptor builder) [] (Ok router) h;
}.

(** Why a server is not assembled. *)
Definition assembly_refused (config : Config.AppConfig) (e : StartupError) : Prop :=
  (∃ t, e = Message t ∧ Config.validate_runtime_auth_posture config = Err t) ∨
  e = BindFailed ∨ e = RouterError Router.ListenerAddressUnavailable ∨
  (e = RouterError Router.UnauthenticatedListenerNotLoopback ∧ Auth.static_token (Config.auth config) = None) ∨
  (∃ error, e = RouterError (Router.SafeRootConfiguration error) ∨ e = SafeRootError error) ∨
  (∃ name g capability domain w kid hex token, e = Message (bs name ++ bs " capability configuration is invalid") ∧
     Configured.gate_open g config = true ∧
     snd (from_hex_key_with_capacity capability domain w kid hex token MAX_CONSUMED_GRANTS) = Err GrantError.StateUnavailable) ∨
  (e = Message (bs "the Android rish backend could not be initialized") ∧
     Config.rish_enabled (Config.rish (Config.android config)) = true) ∨
  (e = RouterError Router.CommandClientUnavailable ∧ Config.command_enabled (Config.command config) = true).

(** What is asked for: the configured address, looks at the filesystem, and the
    DEX of an enabled backend. *)
Definition assembling (config : Config.AppConfig) (c : call) (_ : list (event answer)) : Prop :=
  match c with
  | Bind host port => host = Config.host (Config.server config) ∧ port = Config.port (Config.server config)
  | Tools _ _ p => calls (λ c, passive c = true) p
  | PinRish _ => Config.rish_enabled (Config.rish (Config.android config)) = true
  | _ => False
  end.

(** What an issuer asks for before it prints: nothing that binds, pins or prints,
    and the tools only look. *)
Definition offline (c : call) (_ : list (event answer)) : Prop :=
  match c with
  | Tools _ _ p => calls (λ c, passive c = true) p
  | ReadRuntimeFile _ | OpenPrivate _ | InspectFile _ | ReadFile _ _ | UnixSeconds | NewUuid => True
  | _ => False
  end.
Definition quiet {A} (p : startup A) : Prop := ∀ t, ensures offline p t (λ _ _, True).

Lemma extends_tools {E A A'} P (f : E → StartupError) (p : fs E A) (k : A → startup A') t Q :
  P (Tools E A p) t →
  (∀ r, match r with
        | Ok a => extends P (k a) (Event (Tools E A p) (Ok a) :: t) (λ b new, Q b (new ++ [Event (Tools E A p) (Ok a)]))
        | Err e => Q (Err (f e)) [Event (Tools E A p) (Err e)]
        end) → extends P (tools f p ≫= k) t Q.
Proof.
  intros Hp Hk. apply extends_ask; [done|]. intros r. specialize (Hk r). cbn.
  destruct r as [a|e]; [exact Hk|]. by apply extends_return.
Qed.

Section authorities.
Context {CL : CryptoLaws C}.

Lemma configured_authority_spec read config name g domain capability from_hex_key w :
  Configured.loaded features read config →
  (∀ w kid hex token, from_hex_key w kid hex token =
     from_hex_key_with_capacity capability domain w kid hex token MAX_CONSUMED_GRANTS) →
  match snd (configured_authority name (Configured.gate_open g config) from_hex_key config w) with
  | Ok authority => gated config g domain authority
  | Err t => assembly_refused config (Message t)
  end.
Proof.
  intros Hl Hf. unfold configured_authority, gated. destruct (Configured.gate_open g config) eqn:Hg; cbn [negb]; [|done].
  destruct (Configured.open_gate _ _ _ _ Hl Hg) as (_ & token & kid & hex & Hs).
  pose proof Hs as (Ht & _ & Hk & Hh & _). rewrite Hk, Hh, Ht, Hf.
  pose proof (Configured.secrets_accepted config token kid hex capability domain w MAX_CONSUMED_GRANTS Hs) as Ha.
  destruct (from_hex_key_with_capacity capability domain w kid hex token MAX_CONSUMED_GRANTS) as [w' [a|e]] eqn:E; cbn [snd].
  - apply (from_hex_key_ok CL) in E as (Hok & Hkid & Hhex & Hp & _). split; [done|]. unfold authority_for.
    rewrite Hkid, Hhex. split_and!; [done..|]. by exists token.
  - right; right; right; right; right; left. exists name, g, capability, domain, w, kid, hex, token.
    split; [done|]. split; [done|]. rewrite E. cbn [snd]. f_equal. apply Ha; [done|reflexivity].
Qed.
Lemma configured_spec read config c w : Configured.loaded features read config →
  match snd (configured_of c config w) with
  | Ok authority => gated config (gate_of c) (domain_of c) authority
  | Err t => assembly_refused config (Message t)
  end.
Proof.
  intros Hl. destruct c.
  - exact (configured_authority_spec read config "create_directory" Configured.GateCreate _ _ CreateDirectory.from_hex_key w
      Hl (λ _ _ _ _, eq_refl)).
  - exact (configured_authority_spec read config "write_file" Configured.GateWrite _ _ WriteFile.from_hex_key w
      Hl (λ _ _ _ _, eq_refl)).
  - exact (configured_authority_spec read config "Android volume" Configured.GateVolume _ _ AndroidVolume.from_hex_key w
      Hl (λ _ _ _ _, eq_refl)).
  - exact (configured_authority_spec read config "copy_file" Configured.GateCopy _ _ CopyFile.from_hex_key w
      Hl (λ _ _ _ _, eq_refl)).
  - exact (configured_authority_spec read config "trash_file" Configured.GateTrash _ _ TrashFile.from_hex_key w
      Hl (λ _ _ _ _, eq_refl)).
Qed.
Lemma configured_authorities_spec P read config w t : Configured.loaded features read config →
  extends P (configured_authorities config w) t (λ r new, new = [] ∧ match r with
    | Ok (_, a, volume) =>
      gated config Configured.GateCreate CreateDirectory.PRINCIPAL_BINDING_DOMAIN (Router.create_directory a) ∧
      gated config Configured.GateCopy CopyFile.PRINCIPAL_BINDING_DOMAIN (Router.copy_file a) ∧
      gated config Configured.GateTrash TrashFile.PRINCIPAL_BINDING_DOMAIN (Router.trash_file a) ∧
      gated config Configured.GateWrite WriteFile.PRINCIPAL_BINDING_DOMAIN (Router.write_file a) ∧
      gated config Configured.GateVolume AndroidVolume.PRINCIPAL_BINDING_DOMAIN volume ∧
      (is_Some volume → Config.android_volume_control features = true)
    | Err e => assembly_refused config e
    end).
Proof.
  intros Hl. unfold configured_authorities.
  pose proof (configured_spec read config RequestGrantCapability.CreateDirectory w Hl) as H1. cbn [configured_of gate_of domain_of] in H1.
  destruct (configured_create_directory_authority config w) as [w1 [create|e1]]; cbn [snd] in H1; apply extends_lift; [|by split].
  pose proof (configured_spec read config RequestGrantCapability.WriteFile w1 Hl) as H2. cbn [configured_of gate_of domain_of] in H2.
  cbv beta iota.
  destruct (configured_write_file_authority config w1) as [w2 [write|e2]]; cbn [snd] in H2; apply extends_lift; [|by split].
  pose proof (configured_spec read config RequestGrantCapability.CopyFile w2 Hl) as H3. cbn [configured_of gate_of domain_of] in H3.
  cbv beta iota.
  destruct (configured_copy_file_authority config w2) as [w3 [copy|e3]]; cbn [snd] in H3; apply extends_lift; [|by split].
  pose proof (configured_spec read config RequestGrantCapability.TrashFile w3 Hl) as H4. cbn [configured_of gate_of domain_of] in H4.
  cbv beta iota.
  destruct (configured_trash_file_authority config w3) as [w4 [trash|e4]]; cbn [snd] in H4; apply extends_lift; [|by split].
  cbv beta iota. destruct (Config.android_volume_control features) eqn:Ev.
  - pose proof (configured_spec read config RequestGrantCapability.AndroidVolume w4 Hl) as H5. cbn [configured_of gate_of domain_of] in H5.
    destruct (configured_android_volume_control_authority config w4) as [w5 [volume|e5]]; cbn [snd] in H5;
      apply extends_lift; [|by split].
    apply extends_return. by split_and!.
  - apply extends_lift, extends_return. split; [done|]. split_and!; [done..| |by intros [? [=]]]. unfold gated.
    destruct (Configured.gate_open Configured.GateVolume config) eqn:Hg; [|done].
    destruct (Configured.open_gate _ _ _ _ Hl Hg) as [Hf _]. cbn in Hf. congruence.
Qed.

Lemma configured_rish_spec read config t : Configured.loaded features read config →
  extends (assembling config) (configured_rish_backend config) t (λ r _, match r with
    | Ok client => Config.is_some client = Config.rish_enabled (Config.rish (Config.android config)) ∧
        (is_Some client → Config.android_rish features = true ∧ is_Some (Auth.static_token (Config.auth config)))
    | Err e => assembly_refused config e
    end).
Proof.
  intros Hl. unfold configured_rish_backend. cbv zeta.
  destruct (Config.rish_enabled (Config.rish (Config.android config))) eqn:Er.
  - destruct (Configured.rish_configured _ _ (Configured.l_rish _ _ _ Hl) Er)
      as (-> & path & digest & token & Hp & Hd & _ & _ & _ & Ht & _). cbn [andb]. rewrite Hp, Hd. cbn [expect].
    apply extends_lift, extends_lift. unfold RishBackend.try_new, RishBackend.new_inner.
    destruct (RishSafety.parse_sha256_total digest) as [r ->]. cbn [expect fmap option_fmap option_map].
    apply extends_lift. set (pin := RishBackend.pin_client _ _ _ _).
    apply extends_bind. apply extends_ask; [done|]. intros [client|e]; apply extends_return.
    + apply extends_return. split; [done|]. intros _. split; [done|by exists token].
    + by right; right; right; right; right; right; left.
  - rewrite andb_false_r. apply extends_return. split; [done|]. by intros [? [=]].
Qed.
(** *** The builder *)

Lemma binds_configured config domain a : authority_for config domain a →
  binds_static_principal domain a (Auth.static_token (Config.auth config)) = true.
Proof. intros (_ & _ & _ & token & Ht & Hp). unfold binds_static_principal. rewrite Ht, Hp. apply bytes_eqb_refl. Qed.
Definition binding (policy : Auth.McpAuthPolicy) (domain : bytes) (authority : option GrantAuthority) : Prop :=
  ∀ a, authority = Some a → binds_static_principal domain a (Auth.static_principal policy) = true.
Lemma gated_binds config g domain authority policy : gated config g domain authority →
  Auth.static_principal policy = Auth.static_token (Config.auth config) → binding policy domain authority.
Proof. intros Hg Hp a ->. rewrite Hp. by apply binds_configured, Hg. Qed.

(** An optional part is taken or left out. *)
Lemma staged {A} (f : Router.McpRouterBuilder → A → Result Router.McpRouterBuildError Router.McpRouterBuilder)
    (stage : option A → Router.McpRouterBuilder) part :
  Router.assembled features (stage None) →
  (∀ a b, part = Some a → f (stage None) a = Ok b → Router.assembled features b) →
  (∀ a, part = Some a → f (stage None) a = Ok (stage (Some a))) →
  match part with Some a => f (stage None) a | None => Ok (stage None) end = Ok (stage part) ∧
  Router.assembled features (stage part).
Proof. intros Hn Ha Hf. destruct part as [a|]; [|done]. specialize (Hf a eq_refl). split; [done|by eapply Ha]. Qed.

(** What the configuration makes of a new builder. *)
Definition configured_builder (config : Config.AppConfig) (new : Router.McpRouterBuilder)
    (a : Router.FilesystemMutationAuthorities) (volume : option GrantAuthority)
    (client : option RishBackend.RishBackendClient) : Router.McpRouterBuilder :=
  Router.mkBuilder (Router.auth_policy new) (Router.listener_address new) (Router.request_limits new)
    (Router.builder_security_policy new) (Router.builder_file_tools new)
    (Router.mkOptions (Config.sse_enabled (Config.transport config))
       (Config.stateless_2026_07_28_enabled (Config.transport config)))
    (Config.battery_status_enabled (Config.android config)) (Config.volume_status_enabled (Config.android config))
    (Config.command_enabled (Config.command config)) client a volume.


Lemma ensure_bound policy domain a capability : binding policy domain (Some a) →
  Router.ensure_authority_principal capability (binds_static_principal domain a (Auth.static_principal policy)) = Ok ().
Proof. intros H. unfold Router.ensure_authority_principal. by rewrite (H a eq_refl). Qed.

Lemma bound_part {A} policy domain a capability (b : A) : binding policy domain (Some a) →
  (_ ← Router.ensure_authority_principal capability (binds_static_principal domain a (Auth.static_principal policy)); Ok b)
  = Ok b.
Proof. intros H. by rewrite (ensure_bound _ _ _ _ H). Qed.

Lemma taken {E A B'} (f : E → StartupError) (a : A) (k : A → startup B') : (lift (map_err f (Ok a)) ≫= k) = k a.
Proof. reflexivity. Qed.

Lemma configured_router_eq config new a volume client :
  Router.assembled features new → 
  new = Router.mkBuilder (Router.auth_policy new) (Router.listener_address new) (Router.request_limits new)
    (Router.builder_security_policy new) (Router.builder_file_tools new) Router.default_options
    false false false None Router.default_authorities None →
  binding (Router.auth_policy new) CreateDirectory.PRINCIPAL_BINDING_DOMAIN (Router.create_directory a) →
  binding (Router.auth_policy new) CopyFile.PRINCIPAL_BINDING_DOMAIN (Router.copy_file a) →
  binding (Router.auth_policy new) TrashFile.PRINCIPAL_BINDING_DOMAIN (Router.trash_file a) →
  binding (Router.auth_policy new) WriteFile.PRINCIPAL_BINDING_DOMAIN (Router.write_file a) →
  binding (Router.auth_policy new) AndroidVolume.PRINCIPAL_BINDING_DOMAIN volume →
  (is_Some volume → Config.android_volume_control features = true) →
  (is_Some client → Config.android_rish features = true ∧ is_Some (Auth.static_principal (Router.auth_policy new))) →
  configured_router config new a volume client =
    tools RouterError (Router.build features command_descriptor (configured_builder config new a volume client)) ∧
  Router.assembled features (configured_builder config new a volume client).
Proof.
  intros Hn En H1 H2 H3 H4 H5 Hv Hr. destruct a as [create copy trash write].
  cbn [Router.create_directory Router.copy_file Router.trash_file Router.write_file] in H1, H2, H3, H4.
  unfold configured_router, try_with. cbv zeta.
  set (start := Router.with_command_execution_enabled _ _).
  assert (Router.assembled features start) as Hs by (repeat constructor; exact Hn).
  assert (start = configured_builder config new Router.default_authorities None None) as E
    by (unfold start; clear -En; destruct new; cbn in En; injection En as -> -> -> -> -> -> ->; reflexivity).
  rewrite E in *. clear start E.
  cbn [Router.create_directory Router.copy_file Router.trash_file Router.write_file].
  set (parts := λ create copy trash write, configured_builder config new (Router.mkAuthorities create copy trash write)).
  change (configured_builder config new Router.default_authorities None None) with (parts None None None None None None) in *.
  destruct (staged _ (λ x, parts x None None None None None) create Hs
    (λ a b _ H, Router.assembled_create _ _ a b Hs H)) as [-> Hs1];
    [intros x ->; exact (bound_part _ _ _ _ _ H1)|]. rewrite taken. cbv beta.
  destruct (staged _ (λ x, parts create x None None None None) copy Hs1
    (λ a b _ H, Router.assembled_copy _ _ a b Hs1 H)) as [-> Hs2];
    [intros x ->; exact (bound_part _ _ _ _ _ H2)|]. rewrite taken. cbv beta.
  destruct (staged _ (λ x, parts create copy x None None None) trash Hs2
    (λ a b _ H, Router.assembled_trash _ _ a b Hs2 H)) as [-> Hs3];
    [intros x ->; exact (bound_part _ _ _ _ _ H3)|]. rewrite taken. cbv beta.
  destruct (staged _ (λ x, parts create copy trash x None None) write Hs3
    (λ a b _ H, Router.assembled_write _ _ a b Hs3 H)) as [-> Hs4];
    [intros x ->; exact (bound_part _ _ _ _ _ H4)|]. rewrite taken. cbv beta.
  destruct (staged _ (λ x, parts create copy trash write x None) volume Hs4
    (λ a b E H, Router.assembled_volume _ _ a b (Hv (mk_is_Some _ _ E)) Hs4 H)) as [-> Hs5];
    [intros x ->; exact (bound_part _ _ _ _ _ H5)|]. rewrite taken. cbv beta.
  destruct (staged _ (λ x, parts create copy trash write volume x) client Hs5
    (λ a b E H, Router.assembled_rish _ _ a b (proj1 (Hr (mk_is_Some _ _ E))) Hs5 H)) as [-> Hs6].
  { intros x ->. destruct (Hr (mk_is_Some _ _ eq_refl)) as [_ [token Ht]]. unfold Router.try_with_rish_backend.
    change (Router.principal _) with (Auth.static_principal (Router.auth_policy new)). by rewrite Ht. }
  rewrite taken. by split.
Qed.

Lemma safe_calls {A} (P : FsCalls.call → Prop) (p : prog A) h Q : safe (λ c _, P c) p h Q → calls P p.
Proof. revert h; induction p as [a|c k IH]; intros h; [done|]. intros [Hc Hk]. split; [done|]. intros r. eapply IH, Hk. Qed.

(** Only the command client can be missing: the devices are those of the build. *)
Lemma build_configured read config b t : Configured.loaded features read config → Router.assembled features b →
  Router.builder_battery_status_enabled b = Config.battery_status_enabled (Config.android config) →
  Router.builder_volume_status_enabled b = Config.volume_status_enabled (Config.android config) →
  Router.builder_command_execution_enabled b = Config.command_enabled (Config.command config) →
  extends (assembling config) (tools RouterError (Router.build features command_descriptor b)) t (λ r new, honest new →
    match r with
    | Ok router => (∃ h, exec (Router.build features command_descriptor b) [] (Ok router) h)
    | Err e => assembly_refused config e
    end).
Proof.
  intros Hl Hb%Router.assembled_ok E1 E2 E3. destruct (Configured.device_features _ _ _ Hl) as (D1 & D2 & D3).
  pose proof (Router.build_spec _ command_descriptor b Hb) as Hs.
  apply extends_ask; [eapply safe_calls, Hs|]. intros r. apply extends_return. intros Hh.
  apply Forall_app in Hh as [_ [[h He] _]%Forall_cons]. destruct r as [router|e]; [by exists h|].
  destruct (safe_exec _ _ _ _ _ _ He I Hs) as [[(_ & H & F)|[(_ & H & F)|[(_ & H & F)|(-> & H & _)]]] _].
  1-3: rewrite ?E1, ?E2, ?E3 in H; first [apply D1 in H|apply D2 in H|apply D3 in H]; congruence.
  right; right; right; right; right; right; right. by rewrite <-E3.
Qed.

(** *** From the configuration *)

Lemma new_builder la policy limits security roots r h : exec (Router.try_new la policy limits security roots) [] r h →
  match r with
  | Ok b => ∃ address tools h, la = Some address ∧
      (Auth.is_unauthenticated_localhost_only policy = true → is_loopback (socket_ip address) = true) ∧
      exec (SafeRoots.try_new roots) [] (Ok tools) h ∧
      b = Router.mkBuilder policy address limits security tools Router.default_options false false false None
            Router.default_authorities None
  | Err e => e = Router.ListenerAddressUnavailable ∨
      (e = Router.UnauthenticatedListenerNotLoopback ∧ Auth.is_unauthenticated_localhost_only policy = true) ∨
      ∃ error, e = Router.SafeRootConfiguration error
  end.
Proof.
  unfold Router.try_new. destruct la as [address|]; [|intros H; inversion H; by left].
  intros (x & h1 & H1 & H)%WorkersSafety.exec_prog_bind. inversion H1; subst. clear H1.
  apply WorkersSafety.exec_prog_bind in H as (x & h2 & H2 & H). inversion H2; subst. clear H2.
  destruct (_ && _) eqn:Eg in H; cbn [fail_if] in H.
  { inversion H; subst. apply andb_true_iff in Eg as [Eg _]. auto. }
  apply WorkersSafety.exec_prog_bind in H as (x & h3 & H3 & H). apply WorkersSafety.exec_prog_bind in H3 as ([tools|error] & h4 & H3 & H4);
    inversion H4; subst; clear H4; inversion H; subst.
  - eexists address, tools, _. split; [done|]. split; [|split; [exact H3|done]]. intros Hu. rewrite Hu in Eg. by apply negb_false_iff in Eg.
  - eauto.
Qed.
Lemma unauthenticated_no_token policy :
  Auth.is_unauthenticated_localhost_only policy = true ↔ Auth.static_principal policy = None.
Proof. unfold Auth.is_unauthenticated_localhost_only, Auth.static_principal. by destruct (Auth.kind policy). Qed.

Lemma prefixes_look names current normalized : calls (λ c, passive c = true) (SafeRoots.resolve_prefixes names current normalized).
Proof. revert current; induction names; intros current; cbn [SafeRoots.resolve_prefixes]; cbv zeta; solve_calls. Qed.
Lemma descend_look cs d : calls (λ c, passive c = true) (SafeRoots.descend_label cs d).
Proof. revert d; induction cs as [|c cs IH]; intros d; cbn [SafeRoots.descend_label]; solve_calls. Qed.
Lemma safe_roots_look roots : calls (λ c, passive c = true) (SafeRoots.try_new roots).
Proof.
  unfold SafeRoots.try_new, SafeRoots.validated_safe_root_labels. solve_calls.
  - induction roots; cbn [SafeRoots.validate_roots]; solve_calls; apply prefixes_look.
  - match goal with |- calls _ (SafeRoots.pin_safe_roots ?l) => induction l end; cbn [SafeRoots.pin_safe_roots]; unfold SafeRoots.pin_safe_root; solve_calls; apply descend_look.
Qed.
Lemma router_new_looks la policy limits security roots :
  calls (λ c, passive c = true) (Router.try_new la policy limits security roots).
Proof. unfold Router.try_new. solve_calls. apply safe_roots_look. Qed.

(** What is assembled from a configuration. *)
Definition started (config : Config.AppConfig) (t : list (event answer)) (server : Server) : Prop :=
  ∃ posture n limits,
    Config.validate_runtime_auth_posture config = Ok posture ∧
    readiness server = build_readiness_response n (auth_posture_label posture) limits ∧
    if Config.mcp_runtime features then
      limits = Some (configured_readiness_limits (Config.transport config)) ∧
      ∃ router, mcp_app server = Some router ∧ serves config t router ∧
        n = length (SafeRoots.roots (McpCalls.file_tools (Router.state router)))
    else limits = None ∧ mcp_app server = None.

Lemma ensures_honest {A} P (p : tree answer A) t (Q : A → list (event answer) → Prop) :
  (honest t → ensures P p t (λ a t', honest t' → Q a t')) →
  ensures (λ c t, honest t → P c t) p t (λ a t', honest t' → Q a t').
Proof.
  revert t; induction p as [a|c k IH]; intros t H; [intros Ht; by apply H|]. split; [intros Ht; by apply H|].
  intros r. apply IH. intros Ht. apply H. by inversion Ht.
Qed.
Lemma honest_tools {E A} (p : fs E A) r t : honest (Event (Tools E A p) r :: t) → ∃ h, exec p [] r h.
Proof. by intros [? _]%Forall_cons. Qed.
Lemma ensures_tools {E A A'} P (f : E → StartupError) (p : fs E A) (k : A → startup A') t Q :
  P (Tools E A p) t →
  (∀ r, match r with
        | Ok a => ensures P (k a) (Event (Tools E A p) (Ok a) :: t) Q
        | Err e => Q (Err (f e)) (Event (Tools E A p) (Err e) :: t)
        end) → ensures P (tools f p ≫= k) t Q.
Proof. intros Hp Hk. split; [done|]. intros r. specialize (Hk r). by destruct r. Qed.

Lemma is_some_gated config g domain authority :
  gated config g domain authority → Config.is_some authority = Configured.gate_open g config.
Proof. destruct authority; [by intros [-> _]|done]. Qed.

(** The rest of [main], once there is a builder. *)
Definition serving (config : Config.AppConfig) (w : ReplayWorld) (label : bytes) (builder : Router.McpRouterBuilder)
    : startup (ReplayWorld * Server) :=
  '(w, authorities, volume) ← configured_authorities config w;
  client ← configured_rish_backend config;
  router ← configured_router config builder authorities volume client;
  mret (w, mkServer (build_readiness_response (Router.safe_root_count builder) label
                       (Some (configured_readiness_limits (Config.transport config)))) (Some router)).

Section serving.
Context (read : bytes → Result Config.VarError bytes) (config : Config.AppConfig).
Context (Hl : Configured.loaded features read config).
Context (posture : Auth.AuthPosture) (policy : Auth.McpAuthPolicy) (address : SocketAddr) (limits : RequestLimits.McpRequestLimits)
  (security : TransportSecurity.TransportSecurityPolicy) (roots : SafeRoots.PinnedSafeRootSet).
Context (Hposture : Config.validate_runtime_auth_posture config = Ok posture)
  (Hpolicy : Auth.from_config (Config.auth config) posture = Ok policy) (Hvalid : Auth.policy_valid policy)
  (Hprincipal : Auth.static_principal policy = Auth.static_token (Config.auth config))
  (Hlimits : RequestLimits.from_seconds (N.to_nat (Config.max_concurrent_requests (Config.transport config)))
    (Config.request_timeout_seconds (Config.transport config)) (Config.max_body_bytes (Config.transport config)) = Ok limits)
  (Hsecurity : TransportSecurity.new (Config.allowed_hosts (Config.transport config))
    (Config.allowed_origins (Config.transport config)) (Config.allow_missing_origin (Config.transport config)) = Ok security).
Let new := Router.mkBuilder policy address limits security roots Router.default_options false false false None
  Router.default_authorities None.

Lemma serves_built t a volume client router h hr :
  Event (Bind (Config.host (Config.server config)) (Config.port (Config.server config))) (Some (Some address)) ∈ t →
  exec (SafeRoots.try_new (Config.safe_roots (Config.file config))) [] (Ok roots) hr →
  gated config Configured.GateCreate CreateDirectory.PRINCIPAL_BINDING_DOMAIN (Router.create_directory a) →
  gated config Configured.GateCopy CopyFile.PRINCIPAL_BINDING_DOMAIN (Router.copy_file a) →
  gated config Configured.GateTrash TrashFile.PRINCIPAL_BINDING_DOMAIN (Router.trash_file a) →
  gated config Configured.GateWrite WriteFile.PRINCIPAL_BINDING_DOMAIN (Router.write_file a) →
  gated config Configured.GateVolume AndroidVolume.PRINCIPAL_BINDING_DOMAIN volume →
  Config.is_some client = Config.rish_enabled (Config.rish (Config.android config)) →
  Router.assembled features (configured_builder config new a volume client) →
  exec (Router.build features command_descriptor (configured_builder config new a volume client)) [] (Ok router) h →
  serves config t router ∧ McpCalls.file_tools (Router.state router) = roots.
Proof.
  intros Hbind Hroots H1 H2 H3 H4 H5 Hc Ha He.
  pose proof (Router.assembled_ok _ _ Ha) as Hok.
  destruct (safe_exec _ _ _ _ _ _ He I (Router.build_spec _ command_descriptor _ Hok)) as [[E _] _].
  pose proof (is_some_gated _ _ _ _ H5) as Hvolume. pose proof (Router.ok_listener _ _ Hok) as Hloop.
  subst router. split; [|done]. constructor; cbn; try done.
  - by exists posture.
  - split; [done|]. intros Hn. apply Hloop, unauthenticated_no_token. cbn. by rewrite Hprincipal.
  - by exists hr.
  - by exists (configured_builder config new a volume client), h.
Qed.

Lemma serving_spec w label t hr :
  Event (Bind (Config.host (Config.server config)) (Config.port (Config.server config))) (Some (Some address)) ∈ t →
  exec (SafeRoots.try_new (Config.safe_roots (Config.file config))) [] (Ok roots) hr →
  Router.assembled features new →
  extends (assembling config) (serving config w label new) t (λ r added, honest added → match r with
    | Ok (_, server) => ∃ router, serves config (added ++ t) router ∧
        server = mkServer (build_readiness_response (length (SafeRoots.roots (McpCalls.file_tools (Router.state router))))
                   label (Some (configured_readiness_limits (Config.transport config)))) (Some router)
    | Err e => assembly_refused config e
    end).
Proof.
  intros Hbind Hroots Hnew. unfold serving. apply extends_bind.
  eapply extends_mono; [by eapply configured_authorities_spec|]. intros [[[w' a] volume]|e] added; [|by intros [_ ?] _].
  intros (-> & H1 & H2 & H3 & H4 & H5 & Hv). cbv beta iota. apply extends_bind.
  eapply extends_mono; [by eapply configured_rish_spec|]. intros [client|e] added; [|by intros ? _].
  intros [Hc Hr]. rewrite <-Hprincipal in Hr.
  destruct (configured_router_eq config new a volume client) as [-> Hassembled]; try done.
  1-5: by eapply gated_binds.
  apply extends_bind. eapply extends_mono; [by eapply build_configured|]. intros [router|e] built H; [|rewrite app_nil_r]. 
  2: { intros [Hb _]%Forall_app. by apply H. }
  apply extends_return. rewrite app_nil_r. intros [Hb _]%Forall_app. destruct (H Hb) as [h He].
  exists router.
  edestruct serves_built as [Hs Hroots']; [|exact Hroots|exact H1|exact H2|exact H3|exact H4|exact H5|exact Hc|exact Hassembled|exact He|].
  2: { split; [exact Hs|]. by rewrite Hroots'. }
  apply elem_of_app. by right.
Qed.
End serving.
Lemma assemble_spec read config w : Configured.loaded features read config →
  ensures (λ c t, honest t → assembling config c t) (assemble config w) [] (λ r t, honest t → match r with
    | Ok (_, server) => started config t server
    | Err e => assembly_refused config e
    end).
Proof.
  intros Hl. unfold assemble. apply ensures_bind.
  destruct (Config.validate_runtime_auth_posture config) as [posture|e] eqn:Hposture; cbn [map_err text lift ensures].
  2: { intros _. left. by exists e. }
  destruct (Configured.posture_policy _ _ Hposture) as (policy & Hpolicy & Hvalid & Hprincipal & Hlocal).
  destruct (Configured.services_build _ _ _ Hl) as [[security Hsecurity] [limits Hlimits]]. cbv zeta.
  destruct (Config.mcp_runtime features) eqn:Hruntime.
  - unfold text. rewrite Hpolicy. apply ensures_bind. cbn [map_err lift ensures]. rewrite Hlimits. apply ensures_bind. cbn [map_err lift ensures].
    split; [done|]. intros [la|]; [|intros _; by right; left]. cbn [ok_or tree_bind].
    rewrite Hsecurity. apply ensures_bind. cbn [map_err lift ensures].
    apply ensures_tools; [intros _; apply router_new_looks|]. intros r.
    destruct r as [builder|e].
    + match goal with |- ensures _ _ ?t' _ => set (t := t') end.
      apply ensures_honest. intros [h Hnew]%honest_tools. pose proof (Router.assembled_new features _ _ _ _ _ _ _ Hvalid Hnew) as Hassembled.
      apply new_builder in Hnew as (address & roots & hr & -> & _ & Hroots & ->).
      change (ensures (assembling config) (serving config w (auth_posture_label posture)
        (Router.mkBuilder policy address limits security roots Router.default_options false false false None
           Router.default_authorities None)) t (λ r t', honest t' → match r with
        | Ok (_, server) => started config t' server | Err e => assembly_refused config e end)).
      eapply ensures_mono; [eapply serving_spec; try eassumption; by right; left|].
      intros r t' (added & -> & H) [Ha _]%Forall_app. specialize (H Ha). destruct r as [[w' server]|e]; [|done].
      destruct H as (router & Hs & ->). unfold started. rewrite Hruntime. do 3 eexists. split; [exact Hposture|].
      split; [reflexivity|]. split; [reflexivity|]. by exists router.
    + intros [h Hnew]%honest_tools. apply new_builder in Hnew as [->|[[-> Hu]|[error ->]]].
      * by right; right; left.
      * right; right; right; left. split; [done|]. rewrite <-Hprincipal. by apply unauthenticated_no_token.
      * right; right; right; right; left. exists error. by left.
  - split; [done|]. intros [la|]; [|intros _; by right; left]. cbn [ok_or tree_bind].
    apply ensures_tools; [intros _; apply safe_roots_look|]. intros [roots|e].
    + intros _. unfold started. rewrite Hruntime. by exists posture, (length (SafeRoots.roots roots)), None.
    + intros _. right; right; right; right; left. exists e. by right.
Qed.

(** A command line is a command, or it is refused. *)
Lemma ensures_any {A} (p : tree answer A) t (Q : A → list (event answer) → Prop) :
  (∀ a t, Q a t) → ensures (λ _ _, True) p t Q.
Proof. intros HQ. revert t; induction p as [a|c k IH]; intros t; [apply HQ|]. split; [done|]. intros r. apply IH. Qed.
Definition handled_or_refused (r : Result StartupError bool) (_ : list (event answer)) : Prop := r ≠ Ok false.
Lemma then_handled {A} (p : startup A) t : ensures (λ _ _, True) (_ ← p; mret true) t handled_or_refused.
Proof. apply ensures_bind, ensures_any. by intros []. Qed.
Lemma then_then_handled {A A'} (p : startup A) (q : startup A') t :
  ensures (λ _ _, True) (_ ← p; _ ← q; mret true) t handled_or_refused.
Proof. apply ensures_bind, ensures_any. intros [a|e] t'; [apply then_handled|done]. Qed.
Lemma when_built_handled compiled issuer text t :
  ensures (λ _ _, True) (when_built compiled issuer text) t handled_or_refused.
Proof. unfold when_built. destruct compiled; [apply then_handled|done]. Qed.
Lemma handle_cli_spec first second w t :
  ensures (λ _ _, True) (handle_cli first second w) t (λ r _, r = Ok false → first = None ∧ second = None).
Proof.
  unfold handle_cli. cbv zeta. destruct first as [argument|], second as [extra|]; try (by intros [=]).
  apply ensures_mono with (Q := handled_or_refused); [|intros a t' H E; by destruct (H E)].
  repeat match goal with |- ensures _ (if ?b then _ else _) _ _ => destruct b end;
    first [apply then_then_handled|apply then_handled|apply when_built_handled|done].
Qed.

Lemma main_runs first second w r t : runs (main first second w) [] r t →
  match r with
  | Ok (Some started) => first = None ∧ second = None ∧ ∃ config,
      Config.load_with features env_var = Ok config ∧ runs (assemble config w) [] (Ok started) t
  | Ok None => first ≠ None
  | Err e => first ≠ None ∨ second ≠ None ∨
      match Config.load_with features env_var with
      | Err message => t = [] ∧ e = Message message
      | Ok config => runs (assemble config w) [] (Err e) t
      end
  end.
Proof.
  unfold main. intros (r1 & t1 & H1 & Hr)%runs_bind.
  destruct (runs_ensures _ _ _ _ _ _ H1 I (handle_cli_spec first second w [])) as [Hcli _].
  assert (∀ o : option bytes, o ≠ None ∨ o = None) as Hd by (intros []; auto).
  destruct r1 as [[|]|e].
  - apply runs_inv in Hr as [-> ->]. intros ->. destruct second; apply runs_inv in H1 as [H1 _]; discriminate H1.
  - destruct (Hcli eq_refl) as [-> ->]. clear Hcli. apply runs_inv in H1 as [_ ->].
    apply runs_bind in Hr as (r2 & t2 & [-> ->]%runs_inv & Hr).
    destruct (Config.load_with features env_var) as [config|message] eqn:Hl; cbn [map_err] in Hr.
    + apply runs_bind in Hr as ([started|e] & t3 & H3 & Hr).
      * apply runs_inv in Hr as [-> ->]. split; [done|]. split; [done|]. by exists config.
      * destruct Hr as [-> ->]. by right; right.
    + destruct Hr as [-> ->]. by right; right.
  - destruct Hr as [-> ->]. destruct (Hd first) as [| ->]; [by left|]. destruct (Hd second) as [| ->]; [by right; left|].
    apply runs_inv in H1 as [H1 _]. discriminate H1.
Qed.
Lemma assemble_runs config w r t : Config.load_with features env_var = Ok config → runs (assemble config w) [] r t → honest t →
  match r with
  | Ok (_, server) => started config t server
  | Err e => assembly_refused config e
  end ∧ all_permitted (assembling config) t.
Proof.
  intros Hl%Configured.load_with_loaded H Hh.
  destruct (runs_ensures _ _ _ _ _ _ H I (assemble_spec env_var config w Hl)) as [Hs Hp]. split; [by apply Hs|].
  clear -Hh Hp. induction t as [|e t IH]; [done|]. apply Forall_cons in Hh as [_ Hh]. destruct Hp as [? Hp]. split; auto.
Qed.

(** C2: the server is the one the environment describes.  Whatever the process is
    answered, [main] serves only when it was called without arguments, and then
    the loaded configuration decides everything: only its address is bound, apart
    from that the filesystem is only looked at, and the DEX only of an enabled
    backend; no unwrapped part is missing.  Without a token the listener is a
    loopback address.  The router has the policy, the limits, the hosts, the
    origins, the safe roots, the protocols and the devices of the configuration,
    and an authority for exactly the mutations whose gate is open, with the
    configured key and bound to the configured token.  What is refused is refused
    for a named reason. *)
Theorem server_reflects_config first second w r t : runs (main first second w) [] r t → honest t →
  match r with
  | Ok (Some (_, server)) => first = None ∧ second = None ∧ ∃ config,
      Config.load_with features env_var = Ok config ∧ started config t server ∧ all_permitted (assembling config) t
  | Ok None => first ≠ None
  | Err e => first ≠ None ∨ second ≠ None ∨
      match Config.load_with features env_var with
      | Err message => t = [] ∧ e = Message message
      | Ok config => assembly_refused config e ∧ all_permitted (assembling config) t
      end
  end.
Proof.
  intros H%main_runs Hh. destruct r as [[[w' server]|]|e]; [|done|].
  - destruct H as (-> & -> & config & Hl & H). destruct (assemble_runs _ _ _ _ Hl H Hh) as [Hs Hp].
    split; [done|]. split; [done|]. by exists config.
  - destruct H as [?|[?|H]]; [by left|by right; left|]. right; right.
    destruct (Config.load_with features env_var) as [config|message] eqn:Hl; [|exact H].
    exact (assemble_runs _ _ _ _ Hl H Hh).
Qed.

(** *** Grants issued offline *)

Lemma literal_loaded path opened inspected content config :
  Config.load_from_literal_file features path opened inspected content = Ok config →
  ∃ read, Configured.loaded features read config.
Proof.
  intros H. unfold Config.load_from_literal_file in H.
  repeat (lazymatch type of H with Config.load_with _ _ = _ => fail | _ => apply bind_Ok in H as (? & _ & H) end).
  eexists. apply Configured.load_with_loaded, H.
Qed.

Lemma runs_lift_bind {E A A'} (r : Result E A) (f : A → io answer E A') t b t' : runs (lift r ≫= f) t (Ok b) t' →
  ∃ a, r = Ok a ∧ runs (f a) t (Ok b) t'.
Proof. destruct r as [a|e]; [by exists a|]. intros [[=] _]%runs_inv. Qed.
Lemma runs_ok_bind {E A A'} (p : io answer E A) (f : A → io answer E A') t b t' : runs (p ≫= f) t (Ok b) t' →
  ∃ a t1, runs p t (Ok a) t1 ∧ runs (f a) t1 (Ok b) t'.
Proof. intros ([a|e] & t1 & H & Hr)%runs_bind; [by exists a, t1|by destruct Hr]. Qed.

(** The configuration an issuer works under: of the file it was given, or of the
    environment. *)
Definition offline_config (config : Config.AppConfig) (t : list (event answer)) : Prop :=
  match var_os CAPABILITY_CONFIG_FILE_ENV with
  | None => Config.load_with features env_var = Ok config
  | Some file => ∃ opened inspected content,
      Event (ReadRuntimeFile file) (opened, inspected, content) ∈ t ∧
      Config.load_from_literal_file features file opened inspected content = Ok config
  end.
Lemma offline_config_loaded config t : offline_config config t → ∃ read, Configured.loaded features read config.
Proof.
  unfold offline_config. destruct (var_os CAPABILITY_CONFIG_FILE_ENV).
  - intros (opened & inspected & content & _ & H). by eapply literal_loaded.
  - intros H. eexists. by apply Configured.load_with_loaded.
Qed.
Lemma load_offline_runs t config t' : runs load_offline_issuer_config t (Ok config) t' → offline_config config t'.
Proof.
  intros (c & t1 & H & Hr)%runs_ok_bind.
  assert (c = config) as ->.
  { apply runs_lift_bind in Hr as (posture & _ & (u & _ & [[= ->] _]%runs_inv)%runs_lift_bind). done. }
  apply runs_lift_bind in Hr as (posture & _ & (u & _ & [_ ->]%runs_inv)%runs_lift_bind). unfold offline_config.
  destruct (var_os CAPABILITY_CONFIG_FILE_ENV) as [file|].
  - destruct (bytes_eqb file []); [by apply runs_inv in H as [[=] _]|].
    apply runs_inv in H as [[[opened inspected] content] H]. apply runs_inv in H as [H ->].
    destruct (Config.load_from_literal_file features file opened inspected content) as [c|e] eqn:E; [|done].
    injection H as ->. exists opened, inspected, content. split; [by left|done].
  - apply runs_inv in H as [H _]. destruct (Config.load_with features env_var) as [c|e] eqn:E; [|done].
    by injection H as ->.
Qed.
Lemma environment_runs name t value t' :
  runs (required_grant_environment name) t (Ok value) t' → env_var name = Ok value ∧ t' = t.
Proof.
  unfold required_grant_environment. destruct (env_var name) as [v|[|v]]; [|by intros [[=] _]%runs_inv..].
  destruct (bytes_eqb v []); [by intros [[=] _]%runs_inv|]. by intros [[= ->] ->]%runs_inv.
Qed.
Lemma issue_grant_runs {T} disabled enabled configured (target : Config.AppConfig → startup T) issue w t :
  runs (issue_grant disabled enabled configured target issue w) [] (Ok ()) t →
  ∃ config authority session_id goal token t1 t2 t3,
    offline_config config t1 ∧ enabled config = true ∧ snd (configured config w) = Ok (Some authority) ∧
    env_var CAPABILITY_SESSION_ENV = Ok session_id ∧ runs (target config) t1 (Ok goal) t2 ∧
    runs (issue authority session_id goal) t2 (Ok token) t3 ∧ t = Event (PrintLine token) () :: t3.
Proof.
  intros (config & t1 & H & Hr)%runs_ok_bind. apply load_offline_runs in H as Hl.
  apply runs_ok_bind in Hr as (u & t1' & He & Hr). destruct (enabled config) eqn:Hen; [|by apply runs_inv in He as [[=] _]].
  apply runs_inv in He as [_ ->]. apply runs_lift_bind in Hr as (posture & _ & Hr).
  apply runs_lift_bind in Hr as (o & Ha & Hr). apply runs_lift_bind in Hr as (authority & Hs & Hr).
  destruct o; [|done]. injection Hs as ->.
  apply runs_ok_bind in Hr as (session & t1' & [Hsession ->]%environment_runs & Hr).
  apply runs_ok_bind in Hr as (goal & t2 & Hg & Hr). apply runs_ok_bind in Hr as (token & t3 & Ht & Hr).
  apply runs_inv in Hr as [[] [_ ->]%runs_inv].
  destruct (snd (configured config w)) as [o|] eqn:E; [|done]. injection Ha as ->.
  by exists config, authority, session, goal, token, t1, t2, t3.
Qed.

Lemma issued_at_runs {T} (issue_at : GrantAuthority → bytes → T → N → bytes → GrantResult bytes) message a session_id goal t token t' :
  runs (issue_at_now issue_at message a session_id goal) t (Ok token) t' →
  ∃ now new_id, issue_at a session_id goal now new_id = Ok token ∧
    t' = Event NewUuid new_id :: Event UnixSeconds (Some now) :: t.
Proof.
  intros H. apply runs_inv in H as [[now|] H]; [|by apply runs_inv in H as [[=] _]].
  apply runs_inv in H as [new_id H]. apply runs_inv in H as [H ->]. exists now, new_id. split; [|done].
  destruct (issue_at a session_id goal now new_id); [|done]. by injection H as ->.
Qed.
Lemma issued_now_runs {T} (issue_at : GrantAuthority → bytes → T → N → bytes → GrantResult bytes) issue message a session_id
    goal t token t' :
  (∀ a s g clock id, issue a s g clock id = (now ← ok_or clock GrantError.ClockRollback; issue_at a s g now id)) →
  runs (issue_now issue message a session_id goal) t (Ok token) t' →
  ∃ now new_id, issue_at a session_id goal now new_id = Ok token ∧
    t' = Event NewUuid new_id :: Event UnixSeconds (Some now) :: t.
Proof.
  intros E H. apply runs_inv in H as [clock H]. apply runs_inv in H as [new_id H]. apply runs_inv in H as [H ->].
  rewrite E in H. destruct clock as [now|]; [|done]. exists now, new_id. split; [|done].
  cbn in H. destruct (issue_at a session_id goal now new_id); [|done]. by injection H as ->.
Qed.
Lemma same_token c config domain a a' gid u tgt i e : authority_for config domain a → authority_for config domain a' →
  @token_for _ (GrantFamilies.family_of c) a gid u tgt i e = @token_for _ (GrantFamilies.family_of c) a' gid u tgt i e.
Proof.
  intros (_ & Hk & Hh & token & Ht & Hp) (_ & Hk' & Hh' & token' & Ht' & Hp').
  rewrite Hk in Hk'. rewrite Hh in Hh'. rewrite Ht in Ht'. injection Hk' as Hk'. injection Hh' as Hh'%(inj encode_hex). injection Ht' as <-.
  rewrite Hh' in Hp. rewrite <-Hp' in Hp. destruct a, a'. cbn in *. subst. by destruct c.
Qed.

Lemma served_gated c config t router : serves config t router →
  gated config (gate_of c) (domain_of c) (served_authority c (Router.state router)).
Proof. intros []. by destruct c. Qed.

(** What an issuer that ends well did. *)
Lemma issuer_runs c w t : runs (issuer c w) [] (Ok ()) t →
  ∃ config authority session_id target now new_id token t1 t2,
    offline_config config t1 ∧ Configured.gate_open (gate_of c) config = true ∧
    authority_for config (domain_of c) authority ∧
    env_var CAPABILITY_SESSION_ENV = Ok session_id ∧ runs (issuer_target c config) t1 (Ok target) t2 ∧
    GrantFamilies.issue_of c authority session_id target now new_id = Ok token ∧
    t = Event (PrintLine token) () :: Event NewUuid new_id :: Event UnixSeconds (Some now) :: t2.
Proof.
  assert (∀ config t a, offline_config config t → snd (configured_of c config w) = Ok (Some a) →
    authority_for config (domain_of c) a) as Hgated.
  { intros config t1 a [read Hl]%offline_config_loaded Ha. pose proof (configured_spec read config c w Hl) as H. rewrite Ha in H. by destruct H. }
  intros H. destruct c; cbn [issuer] in H;
    eapply issue_grant_runs in H as (config & a & session & goal & token & t1 & t2 & t3 & Hl & Hg & Ha & Hs & Ht & Hi & ->);
    first [apply issued_at_runs in Hi as (now & id & Hi & ->)
          |apply (issued_now_runs _ _ _ _ _ _ _ _ _ (λ _ _ _ _ _, eq_refl)) in Hi as (now & id & Hi & ->)];
    exists config, a, session, goal, now, id, token, t1, t2;
    (split; [exact Hl|]); (split; [exact Hg|]); (split; [by eapply Hgated|]); done.
Qed.

(** Until it prints, an issuer only looks. *)
Lemma quiet_bind {A A'} (p : startup A) (f : A → startup A') : quiet p → (∀ a, quiet (f a)) → quiet (p ≫= f).
Proof. intros Hp Hf t. apply ensures_bind. eapply ensures_mono; [apply Hp|]. intros [a|e] t' _; [apply Hf|done]. Qed.
Lemma quiet_tools {E A} (f : E → StartupError) (p : fs E A) : calls (λ c, passive c = true) p → quiet (tools f p).
Proof. by intros H t. Qed.
Lemma quiet_ask {A} c (k : answer c → startup A) : offline c [] → (∀ r, quiet (k r)) → quiet (Ask c k).
Proof. intros Hc Hk t. split; [exact Hc|]. intros r. apply Hk. Qed.
Ltac solve_quiet :=
  repeat match goal with
  | |- ∀ _, _ => intros
  | |- quiet (_ ≫= _) => apply quiet_bind
  | |- quiet (lift _) => done
  | |- quiet (text _) => done
  | |- quiet (grant_text _ _) => done
  | |- quiet (mret _) => done
  | |- quiet (throw _) => done
  | |- quiet (message _) => done
  | |- quiet (total _) => done
  | |- quiet (ask_or _ _) => done
  | |- quiet (if ?b then _ else _) => destruct b
  | |- quiet (match ?x with _ => _ end) => destruct x
  | |- quiet (Ask _ _) => apply quiet_ask; [done|]
  | |- quiet (Return _) => done
  end.
Lemma quiet_environment name : quiet (required_grant_environment name).
Proof. unfold required_grant_environment. solve_quiet. Qed.
Lemma quiet_configured_tools config : quiet (configured_tools config).
Proof. apply quiet_tools, safe_roots_look. Qed.
Lemma quiet_load : quiet load_offline_issuer_config.
Proof. unfold load_offline_issuer_config. solve_quiet. Qed.
Lemma quiet_grant_target {E A} t (p : fs E A) : calls (λ c, passive c = true) p → quiet (grant_target t p).
Proof. apply quiet_tools. Qed.
Lemma quiet_target c config : quiet (issuer_target c config).
Proof.
  destruct c; cbn [issuer_target];
    unfold create_directory_target, write_file_target, copy_file_target, trash_file_target, android_volume_target,
      read_write_grant_content, reject_write_grant_content_config_alias; cbv zeta; solve_quiet;
    first [apply quiet_environment|apply quiet_configured_tools|apply quiet_grant_target].
  all: unfold FsTools.create_directory_grant_target, FsTools.write_file_grant_target, FsTools.copy_file_grant_target,
    FsTools.trash_file_grant_target; cbv zeta; solve_calls.
Qed.

Definition printing (c : call) (t : list (event answer)) : Prop := match c with PrintLine _ => True | _ => offline c t end.
Definition printed (r : Result StartupError unit) (t : list (event answer)) : Prop :=
  match r with
  | Err _ => all_permitted offline t
  | Ok _ => ∃ token before, t = Event (PrintLine token) () :: before ∧ all_permitted offline before
  end.
Lemma quiet_step {A} (p : startup A) (f : A → startup unit) t : quiet p → all_permitted offline t →
  (∀ a t', all_permitted offline t' → ensures printing (f a) t' printed) → ensures printing (p ≫= f) t printed.
Proof.
  intros Hp Ht Hf. apply ensures_bind. specialize (Hp t). revert t Ht Hp. induction p as [[a|e]|c k IH]; intros t Ht; cbn.
  - intros _. by apply Hf.
  - done.
  - intros [Hc Hk]. split; [by destruct c|]. intros r. by apply IH.
Qed.
Lemma quiet_issue {T} disabled enabled configured (target : Config.AppConfig → startup T) issue w :
  (∀ config, quiet (target config)) → (∀ a s g, quiet (issue a s g)) →
  ensures printing (issue_grant disabled enabled configured target issue w) [] printed.
Proof.
  intros Ht Hi. unfold issue_grant. 
  apply quiet_step; [apply quiet_load|done|]. intros config t1 H1.
  apply quiet_step; [solve_quiet|done|]. intros _ t2 H2.
  apply quiet_step; [solve_quiet|done|]. intros posture t3 H3.
  apply quiet_step; [solve_quiet|done|]. intros o t4 H4.
  apply quiet_step; [solve_quiet|done|]. intros a t5 H5.
  apply quiet_step; [apply quiet_environment|done|]. intros s t6 H6.
  apply quiet_step; [apply Ht|done|]. intros g t7 H7.
  apply quiet_step; [apply Hi|done|]. intros token t8 H8.
  split; [done|]. intros []. by exists token, t8.
Qed.
Lemma issuer_quiet c w : ensures printing (issuer c w) [] printed.
Proof.
  destruct c; cbn [issuer]; apply quiet_issue;
    first [apply (quiet_target RequestGrantCapability.CreateDirectory)|apply (quiet_target RequestGrantCapability.WriteFile)
      |apply (quiet_target RequestGrantCapability.CopyFile)|apply (quiet_target RequestGrantCapability.TrashFile)
      |apply (quiet_target RequestGrantCapability.AndroidVolume)
      |intros; unfold issue_at_now, issue_now; solve_quiet].
Qed.

(** C3: a grant issued offline is one the server accepts.  An issuer prints
    nothing but one token, as its last act, and nothing when it fails; until then
    it only looks at the filesystem, at its configuration and at the clock.  It
    ends well only under an accepted configuration with the gate of its family
    open; the token is for the session of the environment and the target the
    arguments of the environment name.  Every server that serves that
    configuration has an authority of the family, and it accepts the token for
    that session and target within the window, if its replay state has room, has
    not seen the grant and its clock is not ahead. *)
Theorem offline_grant_accepted c w r t : runs (issuer c w) [] r t → honest t →
  match r with
  | Err _ => all_permitted offline t
  | Ok _ => ∃ config session_id target now new_id token t1 t2,
      offline_config config t1 ∧ Configured.gate_open (gate_of c) config = true ∧
      env_var CAPABILITY_SESSION_ENV = Ok session_id ∧ runs (issuer_target c config) t1 (Ok target) t2 ∧
      t = Event (PrintLine token) () :: Event NewUuid new_id :: Event UnixSeconds (Some now) :: t2 ∧
      all_permitted offline t2 ∧
      ∀ server router, serves config server router → target_ok (GrantFamily := GrantFamilies.family_of c) target →
        ∃ a, served_authority c (Router.state router) = Some a ∧
        ∀ states st now', (now ≤ now' + MAX_GRANT_FUTURE_SKEW_SECONDS)%N → (now' < now + GRANT_TTL_SECONDS)%N →
          heap states !! replay a = Some (Mutex_new st) → clock_allows (last_observed_unix_seconds st) now' →
          live_map now' (consumed st) !! new_id = None →
          (N.of_nat (size (live_map now' (consumed st))) < capacity st)%N →
          ∃ states', GrantFamilies.consume_of c a states (Some token) session_id target now' = (states', Ok ())
  end.
Proof.
  intros H Hh. destruct (runs_ensures printing _ _ _ _ printed H I (issuer_quiet c w)) as [Hp _].
  destruct r as [[]|e]; [|exact Hp].
  apply issuer_runs in H as (config & a & session & target & now & id & token & t1 & t2 & Hl & Hg & Ha & Hs & Ht & Hi & ->).
  destruct Hp as (token' & before & E & Hb). injection E as _ <-. destruct Hb as (_ & _ & Hb).
  exists config, session, target, now, id, token, t1, t2. split; [done|]. split; [done|]. split; [done|].
  split; [done|]. split; [done|]. split; [done|]. intros server router Hserves Hok.
  pose proof (served_gated c _ _ _ Hserves) as Hgated.
  destruct (served_authority c (Router.state router)) as [a'|]; [|cbn in Hgated; congruence].
  destruct Hgated as [_ Ha']. exists a'. split; [done|]. intros states st now' H1 H2 H3 H4 H5 H6.
  apply GrantFamilies.issue_of_Ok in Hi as (u & Hu & Hmax & ->). rewrite GrantFamilies.consume_of_eq.
  rewrite (same_token c config (domain_of c) a a') by done.
  eapply (consume_issued CL (GrantFamilies.family_of_laws CL c)); try done; [apply Ha'|].
  apply Forall_cons in Hh as [_ [Hid _]%Forall_cons]. exact Hid.
Qed.

(** *** What a deployed server does *)

Section deployed.
Context {F : Float64} {T : Chrono} {JL : FsTraverse.JsonLength} {JT : JsonText} {LL : HttpLibLaws L}.

Definition tool_of (c : RequestGrantCapability.t) : bytes :=
  match c with
  | RequestGrantCapability.CreateDirectory => MutationWorkers.CREATE_DIRECTORY_TOOL
  | RequestGrantCapability.WriteFile => MutationWorkers.WRITE_FILE_TOOL
  | RequestGrantCapability.CopyFile => MutationWorkers.COPY_FILE_TOOL
  | RequestGrantCapability.TrashFile => MutationWorkers.TRASH_FILE_TOOL
  | RequestGrantCapability.AndroidVolume => McpLabels.SET_ANDROID_VOLUME_TOOL
  end.
(** The configuration enables what is asked of a device. *)
Definition device_configured (config : Config.AppConfig) (c : McpCalls.call) : Prop :=
  match c with
  | McpCalls.CollectBattery => Config.battery_status_enabled (Config.android config) = true
  | McpCalls.CollectVolume => Config.volume_status_enabled (Config.android config) = true
  | McpCalls.ProbeRish => Config.rish_enabled (Config.rish (Config.android config)) = true
  | McpCalls.ExecuteCommand _ => Config.command_enabled (Config.command config) = true
  | McpCalls.PreviewVolume _ _ | McpCalls.PrepareVolume _ _ | McpCalls.ExecuteVolume _ =>
    Config.volume_control_enabled (Config.android config) = true
  | _ => True
  end.

Lemma device_configured_spec config t0 router method headers body t e : serves config t0 router →
  McpCalls.all_allowed (McpEndpoint.request_permits features (Router.state router) method headers body) t → e ∈ t →
  device_configured config (McpCalls.event_call e).
Proof.
  intros Hs Hall He. destruct (serves_devices _ _ _ Hs) as (Hb & Hv & Hc & Hr & Hx). destruct (serves_clients _ _ _ Hs) as [_ Hrc].
  assert (∀ e, e ∈ t → TransportSafety.device_gate features (Router.state router) method headers body t (McpCalls.event_call e))
    as Hgate by (intros e' He'; by apply TransportSafety.device_gated).
  pose proof (Hgate e He) as Hg. unfold device_configured, TransportSafety.device_gate in *.
  destruct (McpCalls.event_call e); try done.
  - rewrite <-Hb. apply Hg.
  - rewrite <-Hv. apply Hg.
  - rewrite <-Hrc. apply Hg.
  - rewrite <-Hc. apply Hg.
  - rewrite <-Hc. apply Hg.
  - destruct Hg as (session_id & grant & call & stream & level & authority & target & now & _ & _ & _ & _ & _ & Hp & _).
    rewrite <-Hc. apply (Hgate _ Hp).
  - rewrite <-Hx. apply Hg.
Qed.

(** A mutation pays with a grant of an authority the configuration opened. *)
Lemma mutation_configured config t0 router call session_id token clock states h : serves config t0 router →
  TransportSafety.authorized_mutation (Router.state router) call session_id token clock states h →
  ∃ c authority, McpArguments.call_name call = tool_of c ∧ Configured.gate_open (gate_of c) config = true ∧
    served_authority c (Router.state router) = Some authority ∧ authority_for config (domain_of c) authority.
Proof.
  intros Hs (v & authority & _ & H).
  assert (∃ c, McpArguments.call_name call = tool_of c ∧ served_authority c (Router.state router) = Some authority)
    as (c & Hn & Ha).
  { destruct H as [(? & ? & _)|[(? & ? & _)|[(? & ? & _)|(? & ? & _)]]];
      [exists RequestGrantCapability.CreateDirectory|exists RequestGrantCapability.CopyFile
      |exists RequestGrantCapability.TrashFile|exists RequestGrantCapability.WriteFile]; by split. }
  exists c, authority. pose proof (served_gated c _ _ _ Hs) as Hg. rewrite Ha in Hg. destruct Hg. done.
Qed.

(** C1: what a deployed server does is what its environment allows.  Take the server
    [main] makes, whatever the process was answered, and any request to it.  If
    anything happens for the request, it carried exactly the configured token, or,
    where none is configured, came from a loopback peer over the loopback listener.
    A device is asked, a command run and a volume changed only if the environment
    enables it.  And the filesystem changes only if the environment configures a
    token, which the request carried, and opens the gate of the tool it calls live,
    under a grant of the authority with the configured key and token, for exactly
    what the call says. *)
Theorem deployed_server_guards first second w w' server t0 router s r t a :
  runs (main first second w) [] (Ok (Some (w', server))) t0 → honest t0 → mcp_app server = Some router →
  Router.exchange features router s r t a →
  ∃ config, Config.load_with features env_var = Ok config ∧
  let headers := Auth.request_headers (Router.request r) in
  (t ≠ [] → match Auth.static_token (Config.auth config) with
            | Some token => Auth.presents_bearer headers token
            | None => ∃ info address, Auth.connect_info (Router.request r) = Some info ∧
                is_loopback (socket_ip (Auth.peer_address info)) = true ∧
                Auth.local_address info = Some address ∧ is_loopback (socket_ip address) = true ∧
                Event (Bind (Config.host (Config.server config)) (Config.port (Config.server config))) (Some (Some address)) ∈ t0
            end) ∧
  ∀ e, e ∈ t → device_configured config (McpCalls.event_call e) ∧
    ∀ clock states flag now h', TransportSafety.ran (Router.state router) clock states flag now e h' →
      WorkersSafety.changed h' ∨ McpToolSpecs.completed e →
      ∃ bearer body session_id token call c authority,
        Auth.static_token (Config.auth config) = Some bearer ∧ Auth.presents_bearer headers bearer ∧
        McpArguments.call_name call = tool_of c ∧ Configured.gate_open (gate_of c) config = true ∧
        served_authority c (Router.state router) = Some authority ∧ authority_for config (domain_of c) authority ∧
        TransportSafety.live_call (Router.state router) (Router.method r) headers body t session_id (Some token) call ∧
        TransportSafety.authorized_mutation (Router.state router) call session_id token clock states h'.
Proof.
  intros H%main_runs Hh Happ Hx. destruct H as (_ & _ & config & Hl & H).
  destruct (assemble_runs _ _ _ _ Hl H Hh) as [(posture & n & limits & _ & _ & Hs) _]. exists config. split; [done|].
  destruct (Config.mcp_runtime features); [|destruct Hs as [_ Hs]; by rewrite Happ in Hs].
  destruct Hs as (_ & router' & Happ' & Hs & _). rewrite Happ in Happ'. injection Happ' as <-. cbv zeta.
  destruct (serves_assembled _ _ _ Hs) as (b & h & Hb%Router.assembled_ok & Hbuild).
  destruct (safe_exec _ _ _ _ _ _ Hbuild I (Router.build_spec _ command_descriptor b Hb)) as [[E _] _].
  assert (router = Router.described b) as Er by exact E. clear E.
  assert (t ≠ [] → _) as Hadmitted by (intros Ht; rewrite Er in Hx; exact (Router.exchange_admitted_spec _ b s r t a Hb Hx Ht)).
  split.
  - intros Ht. destruct (Hadmitted Ht) as [Ha _]. rewrite <-Er in Ha.
    destruct (serves_listener _ _ _ Hs) as [Hbind Hloop]. pose proof (serves_principal _ _ _ Hs) as Hp.
    unfold Auth.admitted in Ha. unfold Auth.static_principal in Hp. rewrite <-Hp in Hloop |- *.
    destruct (Auth.kind _); [exact Ha|]. destruct Ha as (info & Hi & Hpeer & Hlocal).
    exists info, (Auth.expected_listener_address (Router.boundary router)). split_and!; try done. by apply Hloop.
  - intros e He. destruct (Hadmitted ltac:(intros ->; by apply not_elem_of_nil in He)) as (Ha & _ & _ & body & _ & _ & Hall).
    pose proof Hall as Hall'. change (Router.configured_state b) with (Router.state (Router.described b)) in Hall. rewrite <-Er in Hall.
    split; [by eapply device_configured_spec|]. intros clock states flag now h' Hran Hch.
    rewrite Er in Hran. destruct (Router.mutation_presents_token _ _ _ _ _ _ _ _ _ _ _ Hb Ha Hall' He Hran Hch)
      as (bearer & session_id & token & call & Hbearer & Hpresents & Hlive & Hauth).
    assert (TransportSafety.authorized_mutation (Router.state router) call session_id token clock states h') as Hauth'
      by (rewrite Er; exact Hauth).
    destruct (mutation_configured _ _ _ _ _ _ _ _ _ Hs Hauth') as (c & authority & Hn & Hg & Hserved & Hfor).
    pose proof (serves_principal _ _ _ Hs) as Hp. rewrite Er in Hp. cbn [Router.described Router.boundary Auth.policy] in Hp.
    rewrite Hbearer in Hp.
    exists bearer, body, session_id, token, call, c, authority. rewrite <-Hp. split; [done|]. split; [done|].
    split; [done|]. split; [done|]. split; [done|]. split; [done|]. split; [rewrite Er; exact Hlive|exact Hauth'].
Qed.
End deployed.
End authorities.
End startup.

(** ** A worked start *)

Import McpExample.
#[local] Existing Instances example_crypto_laws example_semaphore CommandExecution.example_kernel.

Definition example_features : Config.Features := Config.mkFeatures true false false true false false.
Definition example_variables : list (bytes * bytes) :=
  [(bs "MCP__AUTH__STATIC_TOKEN", bs "secret");
   (bs "MCP__CAPABILITY__KEY_ID", bs "primary-1");
   (bs "MCP__CAPABILITY__HMAC_KEY_HEX", bs "000102030405060708090a0b0c0d0e0f101112131415161718191a1b1c1d1e1f");
   (bs "MCP__FILE__SAFE_ROOTS", bs "/data");
   (bs "MCP__FILE__CREATE_DIRECTORY_MUTATION_ENABLED", bs "true");
   (bs "MCP__ANDROID__VOLUME_CONTROL_ENABLED", bs "yes");
   (bs "MCP__TRANSPORT__ALLOW_MISSING_ORIGIN", bs "on");
   (CAPABILITY_SESSION_ENV, example_session);
   (CAPABILITY_CREATE_DIRECTORY_TARGET_ENV, bs "/data/sub/new");
   (CAPABILITY_VOLUME_STREAM_ENV, bs "music");
   (CAPABILITY_VOLUME_LEVEL_ENV, bs "7")].
Definition example_os (name : bytes) : option bytes :=
  snd <$> List.find (λ v, bytes_eqb (fst v) name) example_variables.

(** A process with one free address, the kernel of the worked filesystem and a
    clock. *)
Definition example_process (w : FsExample.World) (c : call) : FsExample.World * answer c :=
  match c as c return FsExample.World * answer c with
  | Bind _ _ => (w, Some (Some Router.example_address))
  | Tools E A p => FsExample.outcome p w
  | PinRish _ => (w, Err RishBackend.ConfigDexFileInvalid)
  | ReadRuntimeFile _ => (w, (Err NOENT, Err NOENT, Err (RawOs NOENT)))
  | OpenPrivate _ => (w, None)
  | InspectFile _ => (w, None)
  | ReadFile _ _ => (w, None)
  | UnixSeconds => (w, Some 100%N)
  | NewUuid => (w, example_id)
  | PrintLine _ => (w, ())
  | VarsOs => (w, true)
  | CurrentDir | ReadLink _ => (w, None)
  | Panic => (w, ())
  end.
Lemma example_honest {A} (p : tree answer A) w w' a t : play example_process p w [] = (w', a, t) → honest t.
Proof.
  apply (play_all example_process); [|constructor]. intros w0 c. destruct c; cbn; try done.
  exists (FsExample.trace p0 w0). apply FsExample.outcome_exec.
Qed.

Definition example_main (first second : option bytes) : io answer StartupError (option (ReplayWorld * Server)) :=
  main example_features 1000 example_os Router.example_descriptor first second initial_world.
Definition example_start := play example_process (example_main None None) (FsExample.start true) [].
Definition creates (r : Result StartupError (option (ReplayWorld * Server))) : bool :=
  match r with
  | Ok (Some (_, server)) =>
    match mcp_app server with
    | Some router => Config.is_some (McpCalls.create_directory_authority (Router.state router))
    | None => false
    end
  | _ => false
  end.
Lemma example_starts : creates (snd (fst example_start)) = true.
Proof. vm_compute. reflexivity. Qed.
Lemma creates_Ok r : creates r = true → ∃ w server router a,
  r = Ok (Some (w, server)) ∧ mcp_app server = Some router ∧ McpCalls.create_directory_authority (Router.state router) = Some a.
Proof.
  destruct r as [[[w server]|]|]; [|done..]. cbn [creates]. destruct (mcp_app server) as [router|] eqn:E; [|done].
  destruct (McpCalls.create_directory_authority (Router.state router)) as [a|] eqn:Ea; [|done]. intros _.
  by exists w, server, router, a.
Qed.
Lemma example_start_runs : runs (example_main None None) [] (snd (fst example_start)) (snd example_start) ∧ honest (snd example_start).
Proof.
  destruct example_start as [[w r] t] eqn:E. split; [exact (play_runs _ _ _ _ _ _ _ E)|exact (example_honest _ _ _ _ _ E)].
Qed.

Lemma server_reflects_config_witness : ∃ config router a,
  Config.load_with example_features (env_var example_os) = Ok config ∧
  serves example_features Router.example_descriptor config (snd example_start) router ∧
  McpCalls.create_directory_authority (Router.state router) = Some a.
Proof.
  destruct example_start_runs as [Hr Hh]. destruct (creates_Ok _ example_starts) as (w & server & router & a & E & Em & Ea).
  rewrite E in Hr.
  destruct (server_reflects_config example_features 1000 example_os Router.example_descriptor None None initial_world
    (Ok (Some (w, server))) (snd example_start) Hr Hh) as (_ & _ & config & Hl & Hs & _).
  destruct Hs as (posture & n & limits & _ & _ & _ & router' & Em' & Hserves & _).
  rewrite Em in Em'. injection Em' as <-. exists config, router, a. split; [exact Hl|]. split; [exact Hserves|exact Ea].
Defined.

Definition example_issue c := play example_process (issuer example_features example_os c initial_world)
  (FsExample.start true) [].
Lemma example_issues : is_ok (snd (fst (example_issue RequestGrantCapability.CreateDirectory))) &&
  is_ok (snd (fst (example_issue RequestGrantCapability.AndroidVolume))) = true.
Proof. vm_compute. reflexivity. Qed.

Definition example_volume : AndroidVolume.AndroidVolumeGrantTarget := AndroidVolume.mkTarget AndroidVolume.Music 7.
Lemma example_target_runs config t target t' :
  runs (issuer_target example_os RequestGrantCapability.AndroidVolume config) t (Ok target) t' →
  target = example_volume.
Proof.
  assert (issuer_target example_os RequestGrantCapability.AndroidVolume config = Return (Ok example_volume)) as ->
    by (vm_compute; reflexivity).
  intros [[= ->] _]%runs_inv. reflexivity.
Qed.
(** The server of the same variables. *)
Lemma example_served : ∃ config router, Config.load_with example_features (env_var example_os) = Ok config ∧
  serves example_features Router.example_descriptor config (snd example_start) router.
Proof.
  destruct example_start_runs as [Hr Hh].
  destruct (creates_Ok _ example_starts) as (w & server & router & a & E & Em & _). rewrite E in Hr. clear E.
  apply main_runs in Hr as (_ & _ & config & Hl & Hr).
  destruct (assemble_runs _ _ _ _ _ _ _ _ Hl Hr Hh) as [(posture & n & limits & _ & _ & _ & router' & Em' & Hserves & _) _].
  exists config, router'. split; [exact Hl|exact Hserves].
Qed.

Lemma offline_grant_accepted_witness : ∃ config router a token states states' now,
  Config.load_with example_features (env_var example_os) = Ok config ∧
  serves example_features Router.example_descriptor config (snd example_start) router ∧
  McpCalls.android_volume_control_authority (Router.state router) = Some a ∧
  Event (PrintLine token) () ∈ snd (example_issue RequestGrantCapability.AndroidVolume) ∧
  AndroidVolume.consume_at a states (Some token) example_session example_volume now = (states', Ok ()).
Proof.
  destruct example_served as (config & router & Hl & Hserves).
  pose proof (proj2 (proj1 (andb_true_iff _ _) example_issues)) as Hok.
  destruct (example_issue RequestGrantCapability.AndroidVolume) as [[w r] t] eqn:E. cbn [fst snd] in Hok |- *.
  destruct r as [[]|e]; [clear Hok|discriminate Hok].
  destruct (offline_grant_accepted example_features example_os Router.example_descriptor RequestGrantCapability.AndroidVolume
    initial_world (Ok ()) t (play_runs _ _ _ _ _ _ _ E) (example_honest _ _ _ _ _ E))
    as (config' & session & target & now & id & token & t1 & t2 & Hc & _ & Hs & Ht & -> & _ & H).
  apply example_target_runs in Ht as ->.
  assert (Ok session = Ok (E := Config.VarError) example_session) as [= ->] by (rewrite <-Hs; vm_compute; reflexivity).
  change (Config.load_with example_features (env_var example_os) = Ok config') in Hc. rewrite Hl in Hc. injection Hc as <-.
  destruct (H _ router Hserves) as (a & Ha & Haccept); [vm_compute; discriminate|].
  destruct (Haccept (mkReplayWorld {[ replay a := Mutex_new (ReplayState_new 4) ]} 0 None) (ReplayState_new 4) now)
    as [states' Hconsume].
  - lia.
  - unfold GRANT_TTL_SECONDS. lia.
  - apply lookup_singleton_eq.
  - intros l [=].
  - reflexivity.
  - reflexivity.
  - exists config, router, a, token. do 2 eexists. exists now. split; [exact Hl|]. split; [exact Hserves|]. split; [exact Ha|].
    split; [apply list_elem_of_here|exact Hconsume].
Defined.

(** A live call to that server, under the grant the issuer printed for it. *)
Definition deployed_router : Router.Router :=
  match snd (fst example_start) with Ok (Some (_, server)) => default Router.example_router (mcp_app server) | _ => Router.example_router end.
Definition printed_line (t : list (event answer)) : bytes :=
  match t with Event (PrintLine line) _ :: _ => line | _ => [] end.
Definition deployed_headers : Headers := (AUTHORIZATION, bs "bearer secret") :: McpExample.example_headers
  (session_extra ++ [(REQUEST_GRANT_HEADER, printed_line (snd (example_issue RequestGrantCapability.CreateDirectory)))]).
Definition deployed_request : Router.HttpRequest := Router.mkHttp McpTransport.POST (Auth.mkRequest deployed_headers None).
Definition deployed_run :=
  McpCalls.serve process (McpTransport.handle_mcp_request example_features (Router.state deployed_router) McpTransport.POST deployed_headers create_body)
    tt [].
Lemma deployed_receives : Router.receive deployed_router 4 (Router.request deployed_request) = (3, None).
Proof. vm_compute. reflexivity. Qed.
Lemma deployed_roots : McpCalls.file_tools (Router.state deployed_router) = FsSearch.roots.
Proof. vm_compute. reflexivity. Qed.
Lemma deployed_creates : match deployed_run with Some (_, _, t) => existsb created t | None => false end = true.
Proof. vm_compute. reflexivity. Qed.
Lemma deployed_run_creates : ∃ r t c path v,
  McpCalls.served (McpTransport.handle_mcp_request example_features (Router.state deployed_router) McpTransport.POST
    deployed_headers create_body) [] r t ∧
  McpCalls.Event (McpCalls.SpawnCreateDirectory c path) (Some (MutationWorkers.Completed (Ok v))) ∈ t ∧
  fst (snd (fst (worker_run c path))) = MutationWorkers.Completed (Ok v).
Proof.
  pose proof deployed_creates as H.
  destruct deployed_run as [[[w r] t]|] eqn:E; [|discriminate H]. apply McpCalls.serve_served in E as [Hs He].
  apply existsb_elem in H as (e & Hin & Hc). destruct e as [[] a]; try discriminate Hc.
  destruct a as [[[v|]|]|]; try discriminate Hc. exists r, t, credentials, path, v. split; [exact Hs|]. split; [exact Hin|].
  destruct (He _ Hin) as [?%not_elem_of_nil|[w' Hr]]; [done|]. cbn in Hr. by injection Hr as <-.
Qed.

Lemma deployed_server_guards_witness : ∃ config bearer t a body session_id token call c authority h,
  Router.exchange example_features deployed_router 4 deployed_request t a ∧
  Config.load_with example_features (env_var example_os) = Ok config ∧
  Auth.static_token (Config.auth config) = Some bearer ∧ Auth.presents_bearer deployed_headers bearer ∧
  Configured.gate_open (gate_of c) config = true ∧ McpArguments.call_name call = tool_of c ∧
  served_authority c (Router.state deployed_router) = Some authority ∧ authority_for config (domain_of c) authority ∧
  TransportSafety.live_call (Router.state deployed_router) McpTransport.POST deployed_headers body t session_id (Some token) call ∧
  TransportSafety.authorized_mutation (Router.state deployed_router) call session_id token WorkersSafety.example_clock example_world h.
Proof.
  destruct example_start_runs as [Hrun Hh].
  destruct (creates_Ok _ example_starts) as (w & server & router & a & E & Em & _).
  assert (deployed_router = router) as Ed by (unfold deployed_router; rewrite E, Em; reflexivity).
  rewrite E in Hrun. rewrite <-Ed in Em.
  destruct deployed_run_creates as (r & t & c & path & v & Hs & He & Ho).
  assert (Router.exchange example_features deployed_router 4 deployed_request t
    (snd (RequestLimits.finish 4 (RequestLimits.Completed r)))) as Hx.
  { eapply Router.exchange_admitted; [exact deployed_receives|]. eapply Router.handled_served; [|exact Hs].
    apply N.leb_le. vm_compute. reflexivity. }
  destruct (deployed_server_guards example_features 1000 example_os Router.example_descriptor None None initial_world w server
    (snd example_start) deployed_router 4 deployed_request t _ Hrun Hh Em Hx) as (config & Hl & _ & H).
  destruct (H _ He) as [_ Hchange].
  destruct (Hchange WorkersSafety.example_clock example_world MutationWorkers.MUTATION_COMMIT_PENDING 101%N (snd (worker_run c path)))
    as (bearer & body & session_id & token & call & family & authority & Ht & Hb & Hn & Hg & Hauth & Hfor & Hlive & Hpaid).
  - unfold TransportSafety.ran. cbn [McpCalls.event_call McpCalls.event_answer]. rewrite deployed_roots.
    destruct (snd (fst (worker_run c path))) as [outcome audits] eqn:Eo. exists outcome, audits. split; [|split].
    + rewrite <-Eo. apply worker_run_exec.
    + apply worker_run_honest.
    + intros o [= <-]. symmetry. exact Ho.
  - right. exists v. reflexivity.
  - exists config, bearer, t. eexists. exists body, session_id, token, call, family,
      authority, (snd (worker_run c path)).
    split; [exact Hx|]. split; [exact Hl|]. split; [exact Ht|]. split; [exact Hb|]. split; [exact Hg|]. split; [exact Hn|].
    split; [exact Hauth|]. split; [exact Hfor|]. split; [exact Hlive|exact Hpaid].
Defined.

(** A preview that carries a grant is answered as any preview: the grant is
    neither refused nor consumed. *)
Definition preview_call : bytes := json_to_vec (call_body "create_directory" [(bs "path", JString (bs "/data/sub/new"))]).
Definition consumed_or_spawned (e : McpCalls.event) : bool :=
  match McpCalls.event_call e with
  | McpCalls.SpawnCreateDirectory _ _ | McpCalls.ConsumeVolumeGrant _ _ _ _ _ => true
  | _ => false
  end.
Example preview_ignores_grant :
  McpTransport.capability_grant_header deployed_headers =
    Ok (Some (printed_line (snd (example_issue RequestGrantCapability.CreateDirectory)))) ∧
  match McpCalls.serve process (McpTransport.handle_mcp_request example_features (Router.state deployed_router)
          McpTransport.POST deployed_headers preview_call) tt [] with
  | Some (_, r, t) => (Http.status r, existsb looked t, existsb consumed_or_spawned t) = (200%N, true, false)
  | None => False
  end.
Proof. split; vm_compute; reflexivity. Qed.
End Startup.
